(* ===== verification/_CoqProject ===== *)
-Q . S2P
Prelude.v
Env.v
Kernel.v
Pool.v
Clock.v
Rwlock.v
Barrier.v
Spinlock.v
Semaphore.v
Mqueue.v
SigSet.v
Signal.v
Pthread.v
CTime.v
Timer.v
Shm.v
Fcntl.v
CString.v
Getopt.v
Fnmatch.v
Text.v
SysDb.v
Netdb.v
Inet.v
Sockaddr.v
Double.v
Strfmon.v
FileSys.v
Shell.v
SysConf.v
RecordLock.v
Tss.v
Options.v
Memory.v
Socket.v
Reentrant.v
DeviceIO.v
ThreadNp.v
KSignal.v
ThreadLife.v
Once.v
FdTable.v
FdPosix.v
ZvfsFs.v
Stdio.v
Elastic.v
KObj.v
Cmsg.v
