(* ===== verification/Prelude.v ===== *)
(** * posix-next: a verification development

    posix-next is a POSIX layer for the Zephyr kernel.  Each option group of
    POSIX is a directory of src/lib/posix/options; a few C library extensions
    are in src/lib/posix/c_lang_support_r and src/lib/posix/c_lib_ext.  The
    code is a set of small components, most of which keep a table or an
    object of their own and call kernel services (semaphores, mutexes,
    message queues, timers, signals).

    ** Files

    - [Prelude]: error numbers, results, wrap-around of machine integers,
      reflexive transitive closures of step relations, list and map lemmas,
      the tactics ([ztests] decides comparisons, [split_cases] branches) and
      the hint database.
    - [Kernel]: what the components rely on from the kernel, as classes with
      laws: counting semaphores ([KSem], [KSemLaws]), object pools
      ([Elastipool], [ElastipoolLaws]), message queues ([KMsgq],
      [KMsgqLaws]), file descriptors ([Zvfs], [ZvfsLaws]); each has an
      instance (that of the pools is [Pool.Epool]).
    - [Env] (shared/env_common.c, single_process/env.c, putenv of
      xsi_single_process.c): the environ array, its heap blocks and the
      allocation counter.  Section-level parameters are the size of a pointer
      and whether allocations are tracked; the outcome of every allocation is
      an argument.
    - [Pool] (shared/posix_pool.c, shared/posix_internal.h, and the static
      pools of zephyr/patches/zephyr/elastipool.patch): 32-bit handles of
      pool objects, kernel objects as handles.  Module [Epool] is the bitmap
      pool, which discharges the [ElastipoolLaws] interface for pools of one
      bitmap word.
    - [Clock] (timers/clock.c, timers/posix_clock.h, clock_selection,
      shared/timespec_to_timeout.c and others): clocks, sleeping, timeouts.
    - [Rwlock] (rw_locks/rwlock.c): Module [Calls] runs whole calls one at a
      time, Module [Micro] interleaves the semaphore operations inside them.
    - [Barrier] (barriers/barrier.c): pthread_barrier_wait is split at its
      condition variable into arriving and waking.
    - [Spinlock] (spin_locks/spinlock.c): a client of the pool interface.
    - [Semaphore] (semaphores/semaphore.c): unnamed semaphores, and the
      table of named semaphores as a heap of objects and a list.
    - [Mqueue] (message_passing/mqueue.c): queue objects, descriptors and
      notification over the message-queue interface.
    - [SigSet] (signals/signal.c, shared/z_sig_set.c): sigset_t, and the
      translation of signal numbers and sets to the kernel's numbering.
    - [Signal] (signals/signal.c, realtime_signals/rtsig.c, parts of
      threads_base/pthread.c): actions, masks, waiting and sending.
    - [Pthread] (threads_base, threads_ext, shared/pthread_priority.c,
      thread_priority_scheduling, priority_scheduling): thread attributes,
      priorities, creation, mutexes and condition variables.
    - [CTime] (c_lang_support_r): the calendar, strtok_r, rand_r.
    - [Timer] (timers/timer.c): timers and the thread that notifies.
    - [Shm] (shared_memory_objects/shm.c): shared memory objects over the
      kernel's descriptor table ([Zvfs], [ZvfsLaws] of [Kernel]).
    - [Fcntl] (fd_mgmt/fcntl.c): translation of commands, flags and locks.
    - [CString] (c_lib_ext: stpcpy.c, strnlen.c, strdup.c, strcasecmp.c,
      strncasecmp.c, getsubopt.c): characters, strings in memory.
    - [Getopt] (c_lib_ext/zephyr_getopt.c, getopt.c, getopt_long.c): the
      option parser, whose state is in the variables of the caller.
    - [Fnmatch] (c_lib_ext/fnmatch.c): pattern matching, with a pattern
      syntax and a match relation as its specification.
    - [Text]: what the next files use of the C library: fgets, strchr, atoi,
      decimal numbers, and fields cut in a buffer.
    - [SysDb] (system_database_r, system_database): lookups in /etc/group and
      /etc/passwd; pointers of an entry are offsets into the caller's buffer.
    - [Netdb] (networking/netdb_ent.c): the hosts, networks, protocols and
      services files.  The class [Netdb.NetDb] is what a database promises;
      enumeration and lookup are proved from it, and the four parsers are its
      instances.
    - [Inet] (networking/inet_addr.c, inet_ntoa.c): addresses as text.
    - [Sockaddr] (include/zephyr/posix/net/conversion.h and the calls in
      networking that convert an address): structures as bytes, with both
      layouts as parameters.
    - [Double]: the C type double as binary64, with lemmas on when its
      operations are exact.
    - [Strfmon] (c_lib_ext/strfmon.c): monetary formatting.
    - [FileSys] (file_system/fs.c, file_system_r/file_system_r.c): directories
      and file status, over the class [FileSys.FileSystem] of the kernel's
      calls and [FileSys.FileSystemLaws] of what they promise.
    - [Shell] (shell/env.c, shell/uname.c, single_process/uname.c): the env
      commands over [Env] and the uname command over [Getopt].
    - [SysConf] (single_process/confstr.c, xsi_system_logging/syslog.c):
      configuration strings and the log mask.
    - [RecordLock] (the patch zvfs-fcntl-record-lock): the locks behind
      F_GETLK, F_SETLK and F_SETLKW; waiting calls are requests tried again.
    - [Tss] (threads_base/key.c over the patch k-tss): thread-specific data,
      with a pair of maps as its specification.
    - [Options] (posix_features.h, posix_limits.h, sys/sysconf.h,
      single_process/sysconf.c): options, limits and sysconf, as functions of
      the configuration.
    - [Memory] (mapped_files, memlock, memlock_range, memory_protection):
      mappings, with [Shm] behind a descriptor.
    - [Socket] (the rest of net/conversion.h, sendmsg.c, recvmsg.c,
      getaddrinfo.c, if_*.c of networking): messages and interface names over
      the conversions of [Sockaddr].
    - [Reentrant] (c_lang_support_r: asctime_r.c, ctime_r.c, strerror_r.c,
      qsort_r.c): dates and messages as text.
    - [DeviceIO] (device_io, fd_mgmt, file_locking, getentropy.c,
      multi_process.c, aio.c, stropts.c): checks and conversions in front of
      the kernel's calls.
    - [ThreadNp] (non_portable/pthread_np.c, pthread_join, pthread_detach and
      pthread_cancel, pthread_mutex_prio.c).
    - [KSignal] (kernel/signal.c of the patches k-signal and k-thread-cancel):
      the queue of signals with its blocks, masks, the table of actions and
      delivery, which [Signal] takes as the kernel.
    - [ThreadLife] (the patches k-thread-result, k-thread-cancel,
      k-thread-cleanup, k-thread-detach and sys-thread; pthread_exit and
      pthread_testcancel): threads from their creation to the recycling of
      their objects, as a step relation with the events a program sees.
    - [Once] (sys_thread_once of the patch sys-thread, pthread_once).
    - [FdTable] (the zvfs patches: descriptors, dup, fcntl, the store of FILE
      objects; device_io/read.c, write.c, close.c, fd_mgmt/dup.c, dup2.c,
      ftruncate.c, fsync.c, fdatasync.c): the table of descriptors, each with
      an object, its methods and a copy of the offset.
    - [FdPosix]: POSIX's descriptors and open file descriptions as the
      specification of [FdTable], and the simulation.
    - [ZvfsFs] (zvfs_fs.c, fopen.c and fclose.c of the patches): regular
      files as objects of the table, over the file system interface [FsOps]
      and [FsLaws].
    - [Stdio] (the streams of the minimal C library in the patches,
      device_io/fdopen.c, fileno.c, file_locking.c): streams over [FdTable].
    - [Elastic] (the patch elastipool): pools that grow from [Pool.Epool]'s
      storage into the heap.
    - [KObj] (the patches k-mutex-nonrecursive, k-condvar-clockwait and
      sys-thread): mutexes, condition variables and stacks from pools, over
      the class [KObj.ObjPool] that static and elastic pools implement.
    - [Cmsg] (include/zephyr/posix/sys/socket.h): control messages.

    ** How code is translated

    A function that changes an object takes the old state and returns the new
    one with its result, [Ok v] or [Err e] (see [res]); NULL pointers are
    [None].  Where the C code would fail an assertion, dereference NULL or
    use a freed object the translation returns [None] in an outer [option],
    and theorems show that this does not happen in the states a program can
    reach.  Memory that code allocates is passed in as an argument ([None]
    when the allocation fails).  Integers are [Z] and wrap at their width
    ([uwrap], [swrap]) where the code can reach it.  Concurrency is a step
    relation whose steps are the atomic pieces of the code: a critical
    section, or one kernel call.  Kernel services that are not part of the
    repository are parameters; what is assumed of them is a named hypothesis
    or a class law, and each has an instance for which it holds.

    ** What is shown

    - Tables implement their contract: the environment is a finite map
      ([Env.env_refines_map]), named semaphores are a directory with exact
      reference counts ([Semaphore.nsem_refines], [Semaphore.nsem_refcount]),
      message queues are not freed while a name or a descriptor refers to
      them nor kept afterwards ([Mqueue.mq_lifecycle]) and deliver in order
      ([Mqueue.mq_fifo]); pool handles name exactly the live objects
      ([Pool.pool_handle_lifecycle]).
    - Synchronisation: exclusion of read-write locks for serialised calls and
      of spin locks in every interleaving, one barrier round finishes with
      one serial thread, semaphores count, timers notify once per expiry.
    - Translations lose nothing they should keep: signal numbers and sets,
      priorities, actions, kernel objects, attribute objects.
    - The calendar is the Gregorian calendar, and strtok_r splits as its
      specification says.
    - Shared memory objects live exactly as long as a name or a descriptor
      refers to them, when the size of each is set at most once
      ([Shm.shm_lifecycle]) and hold what was written
      ([Shm.shm_read_write]).
    - Parsers do what they should on the inputs they are meant for, and the
      rest of the behaviour is bounded: options ([Getopt.getopt_parses],
      [CString.getsubopt_spec]), patterns ([Fnmatch.fnmatch_spec] against a
      match relation, [Fnmatch.fnmatch_total] for every pattern), group, user
      and network files ([SysDb.z_getgr_r_spec], [SysDb.z_getpw_r_spec],
      [Netdb.netdb_enumerates], [Netdb.netdb_lookups]), addresses
      ([Inet.inet_round_trip]).
    - Socket addresses keep the fields that fit both layouts through both
      conversion paths ([Sockaddr.sockaddr_round_trip]) and are written within the caller's
      buffer ([Sockaddr.accept_in_bounds]).
    - strfmon prints each amount as its specifier says ([Strfmon.strfmon_prints]),
      rounds it to nearest ([Strfmon.strfmon_rounds]), accepts well-formed
      specifiers only ([Strfmon.strfmon_parse_wf]) and stays in its buffer
      for every format ([Strfmon.strfmon_in_bounds]).
    - Reading a directory returns the names it holds, cut to the room of
      d_name ([FileSys.readdir_enumerates]);
      env set and env get agree ([Shell.env_set_get]), uname prints what its
      options ask for ([Shell.uname_prints]) and hangs on others
      ([Shell.uname_hangs]).
    - Record locks exclude in every run of calls that do not overlap in time
      ([RecordLock.record_locks_exclude]), and each call does to each byte what [RecordLock.setlk_spec] says.
    - Thread-specific data is a map from keys and a map from threads and keys
      ([Tss.tss_refines]), with its errors exactly where they belong
      ([Tss.tss_errors]) and its destructors run once when a thread ends, if
      they set no values ([Tss.exit_runs_destructors]).
    - The two implementations of sysconf agree but for 18 names
      ([Options.sysconf_equivalent]), and the options posix_features.h defines
      are reported ([Options.options_reported]).
    - Dates in text are read back ([Reentrant.asctime_roundtrip]); a mapping
      of a shared memory object lies inside it ([Memory.mmap_shm_in_object]);
      messages travel as sendto and recvfrom would send them
      ([Socket.sendmsg_like_sendto], [Socket.recvmsg_like_recvfrom]).
    - The queue of signals loses and reorders none ([KSignal.signals_fifo]),
      the next signal is the one POSIX asks for ([KSignal.delivery_order]),
      and actions are a map ([KSignal.actions_map]); sigaction over this
      kernel reads back what it installs ([KSignal.sigaction_kernel]).
    - A join tells how a thread ended and after which cleanup handlers
      ([ThreadLife.thread_results]), cancellation acts when it should
      ([ThreadLife.cancel_acts]), and no object or stack of the pools is shared
      or leaked ([ThreadLife.thread_objects]); stacks larger than those of the
      pool are leaked ([ThreadLife.large_stack_leaks]).  Each thread has a story, folded from the
      events of the run, against which its fields are proved step by step.
    - pthread_once runs its routine once ([Once.once_runs_once]) and, unless
      the routine is cancelled, every call returns ([Once.once_progress]).
    - The table of descriptors, with an offset in every entry, behaves as
      POSIX's descriptors and shared open file descriptions
      ([FdPosix.zvfs_refines_posix]) as long as every open has an object of
      its own, which files have ([ZvfsFs.fs_pool_exact]) and shared memory
      objects have not ([FdPosix.opens_share_offset]).  What is written to a
      file is read back through any duplicate ([ZvfsFs.file_roundtrip]);
      SEEK_CUR forgets what was read ([ZvfsFs.lseek_cur_after_read]).  fgets
      reads lines ([Stdio.fgets_spec]).
    - Elastic pools keep their guaranteed minimum, their maximum and their
      objects apart ([Elastic.elastic_guarantee]); mutexes from a pool have
      the type asked for ([KObj.sys_mutex_contract]); stacks are neither
      lost nor shared in any interleaving ([KObj.stack_pool_exact]).  The
      three are about pools of one bitmap word.
    - Walking control messages stays in the buffer and finds them all
      ([Cmsg.cmsg_walk_ends], [Cmsg.cmsg_walk_exact]).
    - Behaviours that differ from the documentation are stated too: races of
      the read-write lock and of mq_open, reuse of a barrier, leaks, seeking
      backwards, error numbers, parsers that loop or read too far.

    ** Scope of the statements

    - Where the source takes no lock between a search and the update that
      follows from it, a call is one step and the theorems are about calls
      that do not overlap in time: the table of actions in [KSignal], the
      slots of [RecordLock], the objects of [Mqueue], and the start of a new
      key in [Tss].  What overlapping calls do is shown by lemmas:
      [KSignal.action_slot_race], [RecordLock.claim_race],
      [Mqueue.notify_thread_use_after_free].
    - k_sig_timedwait sleeps between attempts: an attempt is one step of
      [KSignal], other threads act between the attempts, and
      [KSignal.timedwait_loop] composes them; a wait that times out just
      after another thread's signal fails an assertion, a [None]
      ([KSignal.expired_wait_asserts]).
    - The laws of [Elastipool] hold for pools of one bitmap word
      ([Pool.Epool.epool_wf]); a larger pool loses blocks
      ([Pool.Epool.epool_free_high_block_lost]).  All that rests on these
      laws, in [Pool], [Elastic] and [KObj], has this limit.
    - [ThreadLife.sys_thread_stack_obj] looks for the stack of a thread as the
      source does, without CONFIG_THREAD_STACK_MEM_MAPPED.  That the stacks of
      a caller, large stacks and the stack of the first thread are not found
      in the memory of the pool is assumed; [ThreadLife.delta_finds_another_stack]
      shows what happens otherwise.
    - The condition of each theorem on its input is in its comment.

    ** Bounds and fuel

    Loops are structural recursions over the data they traverse.  Fuel occurs
    in few places.  [strtok_all] gets one call more than the string has
    characters, which the theorem shows is enough for the last call to return
    NULL.  The bit loops of signal sets run at most once per bit of a word.
    [sigsuspend] polls the kernel, and its theorem assumes that a signal is
    delivered within the given number of rounds and shows that the call then
    returns.  The bound 6 * 10^16 s of [CTime.gmtime_r_spec] keeps tm_year in
    an int.
    The loops of [Fnmatch] have the length of the pattern as fuel, and the
    recursion of fnmatchx is the 64 levels of the code; [Fnmatch.fnmatch_total]
    shows that the fuel is never what ends them.  The loops over the lines of
    a file have its length as fuel: each line read shortens the file
    ([Text.fgets_shorter]).  A command line of getopt is shorter than 65536
    elements, the range of the 16-bit position the code keeps.  The loop of
    strfmon has one round per character of the format, which
    [Strfmon.strfmon_ends] shows to be enough, and its digit loops the 20
    digits of a uint64_t ([Strfmon.count_digits_spec],
    [Strfmon.int_loop_spec]).  The loop of an exiting thread ends within one
    more round than the thread has values, if destructors set none; flockfile
    ends after as many rounds as the kernel refuses
    ([DeviceIO.flockfile_returns]).  The loop that delivers signals needs one
    more round than signals wait, if handlers queue none
    ([KSignal.sig_check_ends]).  The loops behind fread and fwrite need at most
    one round more than there are bytes ([Stdio.stream_loops_end]); the walk
    of control messages ends within the bytes of the buffer when no length is
    0.

    ** Not modelled

    Of the patched kernel what the repository shows only in part: the waiting,
    unlocking and priority inheritance of mutexes, the queues of condition
    variables, the search of a free descriptor and the counting of its
    references; the parts that are shown take the rest as parameters.  The
    network stack, file systems, heap, hash map and memory mapping are the
    kernel's and are interfaces.  ioctl forwards its arguments.  Signals and
    threads of user mode, with their permissions and the code that switches
    to their handlers, belong to the architecture; [KSignal], [ThreadLife]
    and [KObj] are about kernel threads.  The glue of newlib and picolibc
    streams, the formatting of printf, the registration of shell commands and
    the headers that only declare functions or name constants are not
    modelled, nor are tests and samples. *)

From stdpp Require Import base list strings gmap.
From Stdlib Require Import ZArith Lia.

#[export] Set Default Goal Selector "!".

Declare Scope posix_scope.
Delimit Scope posix_scope with posix.

(** ** Error codes and results *)

(** The [errno] values the modelled sources produce. *)
Inductive errno :=
  | E2BIG | EACCES | EAGAIN | EBADF | EBUSY | EEXIST | EFAULT | EINTR | EINVAL
  | EDEADLK | EIO | EMFILE | EMSGSIZE | ENAMETOOLONG | ENOBUFS | ENOENT | ENOLCK | ENOMEM | ENOSPC | ENOSYS
  | ENOTSUP | ENXIO | EOPNOTSUPP | EOVERFLOW | EPERM | ERANGE | ESRCH | ETIMEDOUT.

#[export] Instance errno_eq_dec : EqDecision errno.
Proof. solve_decision. Defined.

(** Result of a C function: [Ok v] is a successful return of [v]; [Err e]
    is "return -1 (or NULL, or a FAILED constant) with errno = e" for the
    functions that report through errno, and "return e" for the pthread_*
    family, which returns the error number. *)
Inductive res (A : Type) :=
  | Ok (a : A)
  | Err (e : errno).
Arguments Ok {A} _.
Arguments Err {A} _.

#[export] Instance res_eq_dec {A} `{EqDecision A} : EqDecision (res A).
Proof. solve_decision. Defined.

Definition is_ok {A} (r : res A) : bool :=
  match r with Ok _ => true | Err _ => false end.

Definition res_bind {A B} (r : res A) (f : A -> res B) : res B :=
  match r with Ok a => f a | Err e => Err e end.

Notation "'let?' x ':=' r 'in' k" := (res_bind r (fun x => k))
  (at level 10, x pattern, r at level 100, k at level 200) : posix_scope.

(** A run that may not return: what it returns, behaviour the C standard
    leaves undefined, or the end of the rounds given to its loops. *)
Inductive outcome (A : Type) :=
| Returns (a : A)
| Undefined
| NoFuel.
Arguments Returns {A} a.
Arguments Undefined {A}.
Arguments NoFuel {A}.

(** Return value of the few functions that mix positive and negated error
    numbers, kept apart where the sign matters. *)
Inductive cret :=
  | RZero
  | RErr (e : errno)
  | RNegErr (e : errno).

#[export] Instance cret_eq_dec : EqDecision cret.
Proof. solve_decision. Defined.

(** ** Machine integers *)

(** [uwrap w z] is the value of [z] stored in an unsigned [w]-bit integer;
    [swrap w z] in a two's-complement one. *)
Definition uwrap (w z : Z) : Z := z mod 2 ^ w.
Definition swrap (w z : Z) : Z := (z + 2 ^ (w - 1)) mod 2 ^ w - 2 ^ (w - 1).

Definition in_u (w z : Z) : bool := (0 <=? z)%Z && (z <? 2 ^ w)%Z.
Definition in_s (w z : Z) : bool := (- 2 ^ (w - 1) <=? z)%Z && (z <? 2 ^ (w - 1))%Z.

Lemma uwrap_range w z : (0 <= w)%Z -> (0 <= uwrap w z < 2 ^ w)%Z.
Proof. intros. apply Z.mod_pos_bound. by apply Z.pow_pos_nonneg. Qed.

Lemma uwrap_id w z : in_u w z = true -> uwrap w z = z.
Proof. unfold in_u. intros. apply Z.mod_small. lia. Qed.

Lemma pow2_split w : (0 < w)%Z -> (2 ^ w = 2 * 2 ^ (w - 1))%Z.
Proof. intros. rewrite <- Z.pow_succ_r by lia. f_equal. lia. Qed.

Lemma swrap_range w z :
  (0 < w)%Z -> (- 2 ^ (w - 1) <= swrap w z < 2 ^ (w - 1))%Z.
Proof.
  intros Hw. unfold swrap. pose proof (pow2_split w Hw).
  assert (0 < 2 ^ (w - 1))%Z by (apply Z.pow_pos_nonneg; lia).
  pose proof (Z.mod_pos_bound (z + 2 ^ (w - 1)) (2 ^ w)). lia.
Qed.

Lemma swrap_id w z : (0 < w)%Z -> in_s w z = true -> swrap w z = z.
Proof.
  unfold in_s, swrap. intros Hw Hin. pose proof (pow2_split w Hw).
  rewrite Z.mod_small; lia.
Qed.

Lemma swrap64_id z : (-9223372036854775808 <= z < 9223372036854775808)%Z -> swrap 64 z = z.
Proof. intros. apply swrap_id; [done|]. unfold in_s. simpl. lia. Qed.

Lemma swrap32_id z : (-2147483648 <= z < 2147483648)%Z -> swrap 32 z = z.
Proof. intros. apply swrap_id; [done|]. unfold in_s. simpl. lia. Qed.

Lemma uwrap32_id z : (0 <= z < 4294967296)%Z -> uwrap 32 z = z.
Proof. intros. apply uwrap_id. unfold in_u. simpl. lia. Qed.

(** [flag_set x f] is C's [(x & f) != 0]. *)
Definition flag_set (x f : Z) : bool := negb (Z.land x f =? 0)%Z.

(** A flag of one bit is set when that bit is. *)
Lemma flag_set_pow2 x a : (0 <= a)%Z -> flag_set x (2 ^ a)%Z = Z.testbit x a.
Proof.
  intros Ha. unfold flag_set. apply Bool.eq_iff_eq_true. rewrite negb_true_iff, Z.eqb_neq. split.
  - intros Hne. destruct (Z.testbit x a) eqn:Hx; [done|]. destruct Hne.
    apply Z.bits_inj'. intros i Hi. rewrite Z.land_spec, Z.bits_0, Z.pow2_bits_eqb by done.
    destruct (Z.eqb_spec a i) as [->|]; [by rewrite Hx|by rewrite andb_false_r].
  - intros Hx Hz. assert (Z.testbit (Z.land x (2 ^ a)) a = false) as Hb by by rewrite Hz, Z.bits_0.
    rewrite Z.land_spec, Hx, Z.pow2_bits_true in Hb by done. done.
Qed.

(** ** C strings

    A NUL-terminated string is a [string] of its characters without the
    terminator; [strlen] is [String.length]. *)

(** [strncmp(s, t, n) == 0]. *)
Fixpoint strncmp_eq (s t : string) (n : nat) : bool :=
  match n with
  | O => true
  | S n' =>
      match s, t with
      | EmptyString, EmptyString => true
      | String c s', String d t' => bool_decide (c = d) && strncmp_eq s' t' n'
      | _, _ => false
      end
  end.

(** [strchr(s, c) != NULL] for a non-NUL [c]. *)
Fixpoint str_contains (c : Ascii.ascii) (s : string) : bool :=
  match s with
  | EmptyString => false
  | String d s' => bool_decide (c = d) || str_contains c s'
  end.

(** The tail of a string after its first [n] characters: [s + n] in C. *)
Fixpoint str_drop (n : nat) (s : string) : string :=
  match n, s with
  | O, _ => s
  | S _, EmptyString => EmptyString
  | S n', String _ s' => str_drop n' s'
  end.

Lemma str_app_cons a s t : (String a s +:+ t)%string = String a (s +:+ t)%string.
Proof. done. Qed.

Lemma strncmp_eq_app s t : strncmp_eq (s +:+ t) s (String.length s) = true.
Proof.
  induction s as [|c s IH]; [by destruct t|]. rewrite str_app_cons. simpl.
  by rewrite bool_decide_eq_true_2.
Qed.

(** A string agrees with [s] on the first [length s] characters exactly when
    [s] is a prefix of it. *)
Lemma strncmp_eq_prefix e s :
  strncmp_eq e s (String.length s) = true <-> exists t, e = (s +:+ t)%string.
Proof.
  split; [|intros [t ->]; apply strncmp_eq_app].
  revert e. induction s as [|c s IH]; intros e; simpl; [by exists e|].
  destruct e as [|d e]; [done|].
  intros [Hc He]%andb_true_iff. apply bool_decide_eq_true in Hc.
  destruct (IH _ He) as [t ->]. exists t. by subst.
Qed.

Lemma str_get_app s t n :
  String.get (String.length s + n) (s +:+ t)%string = String.get n t.
Proof. induction s as [|c s IH]; [done|]. exact IH. Qed.

Lemma str_drop_app s t : str_drop (String.length s) (s +:+ t)%string = t.
Proof. induction s as [|c s IH]; [by destruct t|]. exact IH. Qed.

Lemma str_drop_app_plus s t n :
  str_drop (String.length s + n) (s +:+ t)%string = str_drop n t.
Proof. induction s as [|c s IH]; [done|]. exact IH. Qed.

Lemma str_length_app s t :
  String.length (s +:+ t)%string = String.length s + String.length t.
Proof. induction s as [|c s IH]; [done|]. rewrite str_app_cons. simpl. by rewrite IH. Qed.

Lemma str_contains_app c s t :
  str_contains c (s +:+ t)%string = str_contains c s || str_contains c t.
Proof.
  induction s as [|d s IH]; [done|]. rewrite str_app_cons. simpl.
  rewrite IH. by rewrite orb_assoc.
Qed.

(** Turn the boolean tests of the sources into propositions. *)
Ltac bool_to_prop :=
  repeat match goal with
  | H : _ && _ = true |- _ => apply andb_true_iff in H; destruct H
  | H : _ || _ = false |- _ => apply orb_false_iff in H; destruct H
  | H : negb _ = true |- _ => apply negb_true_iff in H
  | H : negb _ = false |- _ => apply negb_false_iff in H
  | H : bool_decide _ = true |- _ => apply bool_decide_eq_true in H
  | H : bool_decide _ = false |- _ => apply bool_decide_eq_false in H
  end.

(** ** Transition sequences *)

Section star.
Context {A : Type} (R : A -> A -> Prop).

(** Zero or more steps of [R]. *)
Inductive star : A -> A -> Prop :=
  | star_nil a : star a a
  | star_snoc a b c : star a b -> R b c -> star a c.

(** Rule induction: an invariant that every step preserves holds in every
    reachable state. *)
Lemma star_invariant (I : A -> Prop) a b :
  (forall x y, I x -> R x y -> I y) -> star a b -> I a -> I b.
Proof. induction 2; eauto. Qed.

Lemma star_trans a b c : star a b -> star b c -> star a c.
Proof. intros Hab Hbc. revert Hab. induction Hbc; eauto using star. Qed.
End star.

(** A chain of states executed by a partial step function is a transition
    sequence of any relation the function implements. *)
Fixpoint run_steps {A L} (f : L -> A -> option A) (ls : list L) (a : A) : option A :=
  match ls with
  | [] => Some a
  | l :: ls' => match f l a with Some b => run_steps f ls' b | None => None end
  end.

Lemma run_steps_app {A L} (f : L -> A -> option A) l1 l2 a :
  run_steps f (l1 ++ l2) a = match run_steps f l1 a with Some b => run_steps f l2 b | None => None end.
Proof. revert a. induction l1 as [|l l1 IH]; intros a; simpl; [done|]. by destruct (f l a). Qed.

Lemma run_steps_star {A L} (f : L -> A -> option A) (R : A -> A -> Prop) ls a b :
  (forall l x y, f l x = Some y -> R x y) ->
  run_steps f ls a = Some b -> star R a b.
Proof.
  intros Hf. revert a. induction ls as [|l ls IH]; simpl; intros a Hrun.
  - simplify_eq. constructor.
  - destruct (f l a) as [a'|] eqn:Hl; [|done].
    apply (star_trans R a a' b); [|by apply IH].
    econstructor; [constructor|by eapply Hf].
Qed.

(** ** Lists used as C arrays and linked lists *)

(** Index and element of the first entry satisfying a boolean test. *)
Fixpoint find_index {A} (p : A -> bool) (l : list A) : option nat :=
  match l with
  | [] => None
  | x :: l' => if p x then Some O else S <$> find_index p l'
  end.

Lemma find_index_Some {A} (p : A -> bool) (l : list A) i :
  find_index p l = Some i ->
  exists x, l !! i = Some x /\ p x = true /\ forall j y, j < i -> l !! j = Some y -> p y = false.
Proof.
  revert i. induction l as [|a l IH]; intros i; simpl; [done|].
  destruct (p a) eqn:Hp.
  - intros [= <-]. exists a. repeat split; try done. intros j y Hj; lia.
  - destruct (find_index p l) as [k|] eqn:Hk; simpl; [|done]. intros [= <-].
    destruct (IH k eq_refl) as (x & Hx & Hpx & Hb). exists x. repeat split; try done.
    intros [|j] y Hj Hy; simpl in Hy; simplify_eq; [done|]. eapply Hb; [|done]. lia.
Qed.

Lemma find_index_None {A} (p : A -> bool) (l : list A) :
  find_index p l = None <-> Forall (fun x => p x = false) l.
Proof.
  induction l as [|a l IH]; simpl; [by split|].
  rewrite Forall_cons. destruct (p a) eqn:Hp.
  - split; [done|]. intros [? _]. done.
  - destruct (find_index p l); simpl.
    + split; [done|]. intros [_ ?%IH]. done.
    + split; [|done]. intros _. split; [done|]. by apply IH.
Qed.

(** An element the search passes by is changed to another it passes by. *)
Lemma find_index_insert_other {A} (p : A -> bool) (l : list A) i x y :
  l !! i = Some x -> p x = false -> p y = false -> find_index p (<[i := y]> l) = find_index p l.
Proof.
  revert i. induction l as [|a l IH]; intros i Hi Hx Hy; [done|]. destruct i as [|i]; simpl in *.
  - simplify_eq. by rewrite Hx, Hy.
  - by rewrite (IH i).
Qed.

(** Number of elements satisfying a boolean test. *)
Fixpoint count_if {A} (p : A -> bool) (l : list A) : nat :=
  match l with [] => 0 | x :: l' => (if p x then 1 else 0) + count_if p l' end.

(** Overwriting one element moves the count by the difference of its tests. *)
Lemma count_if_insert {A} (p : A -> bool) (l : list A) i x y :
  l !! i = Some x ->
  count_if p (<[i := y]> l) + (if p x then 1 else 0) = count_if p l + (if p y then 1 else 0).
Proof.
  revert i. induction l as [|a l IH]; intros [|i] Hi; simplify_eq/=; [lia|].
  specialize (IH i Hi). lia.
Qed.

Lemma count_if_pos {A} (p : A -> bool) (l : list A) :
  0 < count_if p l <-> exists i x, l !! i = Some x /\ p x = true.
Proof.
  induction l as [|a l IH]; simpl.
  - split; [lia|]. intros (i & x & Hi & _). by destruct i.
  - destruct (p a) eqn:Hp.
    + split; [|lia]. intros _. by exists 0, a.
    + rewrite IH. split.
      * intros (i & x & ? & ?). by exists (S i), x.
      * intros ([|i] & x & ? & ?); simplify_eq/=; [congruence|by exists i, x].
Qed.

Lemma count_if_replicate {A} (p : A -> bool) n x :
  count_if p (replicate n x) = if p x then n else 0.
Proof. induction n as [|n IH]; simpl; [by destruct (p x)|]. rewrite IH. by destruct (p x). Qed.

Lemma count_if_ext {A} (p q : A -> bool) (l : list A) :
  (forall x, x ∈ l -> p x = q x) -> count_if p l = count_if q l.
Proof.
  induction l as [|a l IH]; intros Hpq; [done|]. simpl.
  rewrite (Hpq a), IH; [done| |]; [|by left]. intros x Hx. apply Hpq. by right.
Qed.

Lemma count_if_app {A} (p : A -> bool) (l k : list A) :
  count_if p (l ++ k) = count_if p l + count_if p k.
Proof. induction l as [|a l IH]; simpl; [done|]. rewrite IH. lia. Qed.

(** A test that changes its answer at one element of a duplicate-free list
    moves the count by the difference at that element. *)
Lemma count_if_change {A} (p q : A -> bool) (l : list A) a :
  NoDup l -> a ∈ l -> (forall x, x <> a -> p x = q x) ->
  count_if p l + (if q a then 1 else 0) = count_if q l + (if p a then 1 else 0).
Proof.
  intros Hnd Ha Hpq. induction Hnd as [|b l Hb Hnd IH]; [by apply elem_of_nil in Ha|].
  simpl. destruct (proj1 (elem_of_cons l a b) Ha) as [->|Hin].
  - rewrite (count_if_ext p q l); [lia|]. intros x Hx. apply Hpq. by intros ->.
  - specialize (IH Hin). rewrite (Hpq b); [lia|]. by intros ->.
Qed.

(** A linked list of objects searched by name: the first node whose name is
    not NULL and compares equal. *)
Fixpoint first_named (name_at : Z -> option string) (l : list Z) (name : string) : option Z :=
  match l with
  | [] => None
  | a :: next =>
      match name_at a with
      | Some n => if bool_decide (n = name) then Some a else first_named name_at next name
      | None => first_named name_at next name
      end
  end.

Lemma first_named_Some name_at l n a :
  first_named name_at l n = Some a -> a ∈ l /\ name_at a = Some n.
Proof.
  induction l as [|b l IH]; simpl; [done|].
  repeat case_match; bool_to_prop; intros Hf; simplify_eq;
    try (destruct (IH Hf); split; [by right|done]).
  split; [by left|done].
Qed.

Lemma first_named_None name_at l n a :
  first_named name_at l n = None -> a ∈ l -> name_at a <> Some n.
Proof.
  induction l as [|b l IH]; simpl; intros Hf Ha; [by apply elem_of_nil in Ha|].
  apply elem_of_cons in Ha as [->|Ha]; repeat case_match; bool_to_prop; try done; [congruence|..];
    by apply IH.
Qed.

(** With distinct names the search is the inverse of naming. *)
Lemma first_named_spec name_at l n a :
  (forall b c, b ∈ l -> c ∈ l -> name_at b = Some n -> name_at c = Some n -> b = c) ->
  first_named name_at l n = Some a <-> a ∈ l /\ name_at a = Some n.
Proof.
  intros Huniq. split; [apply first_named_Some|]. intros [Ha Hn].
  destruct (first_named name_at l n) as [b|] eqn:Hf.
  - apply first_named_Some in Hf as [Hb Hnb]. f_equal. by apply Huniq.
  - by destruct (first_named_None _ _ _ _ Hf Ha).
Qed.

(** sys_slist_find_and_remove: the first node with that address. *)
Fixpoint slist_remove (a : Z) (l : list Z) : list Z :=
  match l with
  | [] => []
  | b :: l' => if (b =? a)%Z then l' else b :: slist_remove a l'
  end.

Lemma elem_of_slist_remove l a b :
  NoDup l -> b ∈ slist_remove a l <-> b ∈ l /\ b <> a.
Proof.
  induction 1 as [|c l Hc Hnd IH]; simpl.
  { split; [by intros ?%elem_of_nil|by intros [?%elem_of_nil _]]. }
  destruct (Z.eqb_spec c a) as [->|Hne]; rewrite elem_of_cons.
  - split; [|naive_solver]. intros Hb. split; [by right|]. by intros ->.
  - rewrite elem_of_cons, IH. naive_solver.
Qed.

Lemma NoDup_slist_remove l a : NoDup l -> NoDup (slist_remove a l).
Proof.
  intros Hnd. induction Hnd as [|c l Hc Hnd IH]; simpl; [constructor|].
  destruct (c =? a)%Z; [done|]. constructor; [|done].
  rewrite elem_of_slist_remove by done. tauto.
Qed.

Lemma count_slist_remove (p : Z -> bool) l a :
  a ∈ l -> (length l + count_if p l =
            1 + length (slist_remove a l) + count_if p (slist_remove a l) + (if p a then 1 else 0)).
Proof.
  induction l as [|c l IH]; intros Ha; [by apply elem_of_nil in Ha|]. simpl.
  destruct (Z.eqb_spec c a) as [->|Hne]; simpl; [destruct (p a); lia|].
  apply elem_of_cons in Ha as [->|Ha]; [done|]. specialize (IH Ha). lia.
Qed.

(** ** Automation *)

(** Comparisons of the sources that the context decides: [ztests] rewrites
    them to their value. *)
Lemma ltb_true a b : (a < b)%Z -> (a <? b)%Z = true.
Proof. apply Z.ltb_lt. Qed.
Lemma ltb_false a b : (b <= a)%Z -> (a <? b)%Z = false.
Proof. apply Z.ltb_ge. Qed.
Lemma leb_true a b : (a <= b)%Z -> (a <=? b)%Z = true.
Proof. apply Z.leb_le. Qed.
Lemma leb_false a b : (b < a)%Z -> (a <=? b)%Z = false.
Proof. apply Z.leb_gt. Qed.
Lemma eqb_true a b : a = b -> (a =? b)%Z = true.
Proof. apply Z.eqb_eq. Qed.
Lemma eqb_false a b : a <> b -> (a =? b)%Z = false.
Proof. apply Z.eqb_neq. Qed.

Ltac ztests :=
  repeat match goal with
  | |- context [(?a <? ?b)%Z] =>
      first [rewrite (ltb_true a b) by lia | rewrite (ltb_false a b) by lia]
  | |- context [(?a <=? ?b)%Z] =>
      first [rewrite (leb_true a b) by lia | rewrite (leb_false a b) by lia]
  | |- context [(?a =? ?b)%Z] =>
      first [rewrite (eqb_true a b) by lia | rewrite (eqb_false a b) by lia]
  end.

Create HintDb posix discriminated.
#[export] Hint Constants Opaque : posix.
#[export] Hint Resolve star_nil : posix.
#[export] Hint Extern 5 (_ <= _)%nat => lia : posix.
#[export] Hint Extern 5 (_ <= _)%Z => lia : posix.
#[export] Hint Extern 5 (_ < _)%Z => lia : posix.

(** Case analysis on every [if] and [match] of the goal and hypotheses that
    scrutinises a term, with the equations kept and simplified. *)
Ltac split_cases :=
  repeat (first
    [ progress simplify_eq/=
    | case_match
    | progress destruct_and? ]).
