(* ===== verification/Env.v ===== *)
(** * Environment variables

    Model of [lib/posix/options/shared/env_common.c] (findenv, z_getenv,
    z_getenv_r, z_setenv, z_unsetenv), of the wrappers in
    [single_process/env.c] and of [putenv] in
    [xsi_single_process/xsi_single_process.c].

    [environ] is a NULL pointer ([None]) or a NULL-terminated array of
    pointers to heap strings ([Some entries]); an entry carries the size of
    the heap block that holds it, so that writes can be checked against it.
    The two [realloc] calls of z_setenv are allowed to fail: their outcomes
    are arguments.  The semaphore [environ_lock] is held around every access,
    so an operation is one atomic transition of [env_state]. *)

From stdpp Require Import base list strings gmap.
From Stdlib Require Import ZArith Lia Ascii.
From S2P Require Import Prelude.

Local Open Scope string_scope.
Local Open Scope list_scope.

(** A heap string: its characters and the size of its block. *)
Record env_entry := mk_env_entry {
  e_str : string;
  e_cap : nat;
}.

#[export] Instance env_entry_eq_dec : EqDecision env_entry.
Proof. solve_decision. Defined.

(** The statics of env_common.c. *)
Record env_state := mk_env_state {
  environ : option (list env_entry);
  allocated : Z;
}.

#[export] Instance env_state_eq_dec : EqDecision env_state.
Proof. solve_decision. Defined.

Definition eq_char : ascii := "="%char.

Section env.
(** [sizeof(void * )], and whether TRACK_ALLOC is on. *)
Context (ptr_size : Z) (track_alloc : bool).

(** Width of [size_t] in bits. *)
Definition size_bits : Z := (8 * ptr_size)%Z.

Definition alloc_add (st : env_state) (n : Z) : Z :=
  if track_alloc then uwrap size_bits (allocated st + n) else allocated st.

Definition entries (st : env_state) : list env_entry := default [] (environ st).

Definition environ_size (st : env_state) : nat :=
  match environ st with None => 0 | Some es => length es end.

(** [strncmp(env, name, namelen) == 0 && env[namelen] == '=']. *)
Definition env_matches (name : string) (namelen : nat) (e : env_entry) : bool :=
  strncmp_eq (e_str e) name namelen &&
  bool_decide (String.get namelen (e_str e) = Some eq_char).

Definition findenv (st : env_state) (name : option string) (namelen : nat) : res nat :=
  match name with
  | None => Err EINVAL
  | Some n =>
      if Nat.eqb namelen 0 || str_contains eq_char n then Err EINVAL
      else
        match environ st with
        | None => Err ENOENT
        | Some es =>
            match find_index (env_matches n namelen) es with
            | Some i => Ok i
            | None => Err ENOENT
            end
        end
  end.

Definition opt_len (s : option string) : nat :=
  match s with None => 0 | Some n => String.length n end.

(** [environ[i] + nsize + 1]: the text after the ["="] of entry [i]. *)
Definition entry_value (st : env_state) (i nsize : nat) : string :=
  match entries st !! i with
  | Some e => str_drop (nsize + 1) (e_str e)
  | None => ""
  end.

Definition z_getenv (st : env_state) (name : option string) : option string :=
  let nsize := opt_len name in
  match findenv st name nsize with
  | Err _ => None
  | Ok i => Some (entry_value st i nsize)
  end.

(** On success the function stores the value in [buf] and returns the index
    findenv left in [ret]. *)
Definition z_getenv_r (st : env_state) (name : option string) (len : nat)
  : res (nat * string) :=
  let nsize := opt_len name in
  match findenv st name nsize with
  | Err e => Err e
  | Ok i =>
      let val := entry_value st i nsize in
      if Nat.ltb len (String.length val + 1) then Err ERANGE else Ok (i, val)
  end.

(** The last part of z_setenv (lines 174 to 194): make room in slot [i] for
    [tsize] bytes, then write "name=val".  [slot] is what environ[i] points
    to, [esize] the room known to be there; a NULL slot has none. *)
Definition setenv_write (st : env_state) (es : list env_entry) (i : nat)
  (cap esize : nat) (name val : string) (realloc_entry : bool) : env_state * res unit :=
  let tsize := String.length name + 1 + String.length val + 1 in
  let text := name +:+ String eq_char val in
  if Nat.ltb esize tsize then
    if realloc_entry then
      let a := alloc_add st (Z.of_nat tsize - Z.of_nat esize) in
      (mk_env_state (Some (take i es ++ mk_env_entry text tsize :: drop (S i) es)) a, Ok tt)
    else (mk_env_state (Some es) (allocated st), Err ENOMEM)
  else
    (mk_env_state (Some (take i es ++ mk_env_entry text cap :: drop (S i) es)) (allocated st),
     Ok tt).

Definition z_setenv (st : env_state) (name val : option string) (overwrite : Z)
  (realloc_array realloc_entry : bool) : env_state * res unit :=
  let nsize := opt_len name in
  match name, val with
  | Some n, Some v =>
      match findenv st name nsize with
      | Ok i =>
          (* name was found in environ *)
          match entries st !! i with
          | Some e =>
              if (overwrite =? 0)%Z then (st, Ok tt)
              else setenv_write st (entries st) i (e_cap e)
                     (String.length (e_str e) + 1) n v realloc_entry
          | None => (st, Ok tt)
          end
      | Err EINVAL => (st, Err EINVAL)
      | Err _ =>
          (* name was not found in environ -> add new entry *)
          let esize := environ_size st in
          if realloc_array then
            let st' := mk_env_state (Some (entries st))
                         (alloc_add st (ptr_size * (Z.of_nat esize + 2))) in
            setenv_write st' (entries st) esize 0 0 n v realloc_entry
          else (st, Err ENOMEM)
      end
  | _, _ => (st, Err EINVAL)
  end.

(** The failing shrink of the pointer array is tolerated by the code and
    changes nothing the model can see. *)
Definition z_unsetenv (st : env_state) (name : option string) : env_state * res unit :=
  let nsize := opt_len name in
  match findenv st name nsize with
  | Err EINVAL => (st, Err EINVAL)
  | Err _ => (st, Ok tt)
  | Ok i =>
      match entries st !! i with
      | None => (st, Ok tt)
      | Some e =>
          let a1 := alloc_add st (- (Z.of_nat (String.length (e_str e)) + 1)) in
          let st1 := mk_env_state (environ st) a1 in
          let es := take i (entries st) ++ drop (S i) (entries st) in
          let esize := environ_size st - 1 in
          let env' := if Nat.eqb esize 0 then None else Some es in
          let a2 := alloc_add st1 (- ((if Nat.eqb esize 0 then 2 else 1) * ptr_size)) in
          (mk_env_state env' a2, Ok tt)
      end
  end.

(** env.c: the public names. *)
Definition getenv := z_getenv.
Definition getenv_r := z_getenv_r.
Definition setenv := z_setenv.
Definition unsetenv := z_unsetenv.

(** The text before and after the first ["="] of a string. *)
Fixpoint split_eq (s : string) : option (string * string) :=
  match s with
  | EmptyString => None
  | String c s' =>
      if bool_decide (c = eq_char) then Some ("", s')
      else match split_eq s' with
           | Some (n, v) => Some (String c n, v)
           | None => None
           end
  end.

(** [putenv] cuts its argument at the first '=', calls z_setenv with
    overwrite = 1 and puts the '=' back. *)
Definition putenv (st : env_state) (str : option string)
  (realloc_array realloc_entry : bool) : env_state * res unit :=
  match str with
  | None => (st, Err EINVAL)
  | Some s =>
      match split_eq s with
      | Some (n, v) => z_setenv st (Some n) (Some v) 1 realloc_array realloc_entry
      | None => (st, Err EINVAL)
      end
  end.

End env.

(** ** Specification: a finite map from names to values *)

(** A name setenv accepts: not empty and without ["="]. *)
Definition valid_name (n : string) : bool :=
  negb (Nat.eqb (String.length n) 0) && negb (str_contains eq_char n).

Definition entry_binding (e : env_entry) : option (string * string) := split_eq (e_str e).

(** The variables an environment defines. *)
Definition env_map (st : env_state) : gmap string string :=
  list_to_map (omap entry_binding (entries st)).

Definition entry_name (e : env_entry) : string :=
  match entry_binding e with Some (n, _) => n | None => "" end.

(** Well-formed entries bind a valid name and fit in their block. *)
Definition entry_wf (e : env_entry) : Prop :=
  (exists n v, entry_binding e = Some (n, v) /\ valid_name n = true) /\
  (String.length (e_str e) + 1 <= e_cap e)%nat.

(** Representation invariant: well-formed entries with distinct names. *)
Definition env_wf (st : env_state) : Prop :=
  Forall entry_wf (entries st) /\ NoDup (entry_name <$> entries st).

(** *** Entries and their names *)

Lemma split_eq_app n v :
  str_contains eq_char n = false -> split_eq (n +:+ String eq_char v) = Some (n, v).
Proof.
  induction n as [|c n IH]; simpl; intros Hn.
  - done.
  - bool_to_prop. rewrite bool_decide_eq_false_2 by congruence. by rewrite IH.
Qed.

Lemma split_eq_inv s n v :
  split_eq s = Some (n, v) -> s = n +:+ String eq_char v /\ str_contains eq_char n = false.
Proof.
  revert n. induction s as [|c s IH]; simpl; intros n; [done|].
  case_bool_decide; [by intros; simplify_eq|].
  destruct (split_eq s) as [[n' v']|] eqn:Hs; [|done]. intros. simplify_eq.
  destruct (IH _ eq_refl) as [-> Hn]. split; [done|]. simpl.
  by rewrite bool_decide_eq_false_2 by congruence.
Qed.

Lemma entry_binding_text n v c :
  valid_name n = true ->
  entry_binding (mk_env_entry (n +:+ String eq_char v) c) = Some (n, v).
Proof. unfold valid_name. intros. bool_to_prop. by apply split_eq_app. Qed.

(** findenv's textual test recognises exactly the entry with that name. *)
Lemma env_matches_name n e :
  valid_name n = true -> entry_wf e ->
  env_matches n (String.length n) e = bool_decide (entry_name e = n).
Proof.
  unfold valid_name. intros Hn [(m & v & Hb & Hm) _]. bool_to_prop.
  unfold env_matches, entry_name. rewrite Hb. unfold valid_name in Hm. bool_to_prop.
  apply split_eq_inv in Hb as [-> Hc]. apply eq_bool_prop_intro.
  rewrite andb_True, !bool_decide_spec, Is_true_true, strncmp_eq_prefix. split.
  - intros [[t Ht] Hg]. rewrite Ht, <- (Nat.add_0_r (String.length n)), str_get_app in Hg.
    destruct t as [|c t]; simplify_eq/=.
    assert (split_eq (m +:+ String eq_char v) = split_eq (n +:+ String eq_char t)) as Heq
      by congruence.
    rewrite !split_eq_app in Heq by done. congruence.
  - intros ->. split; [eauto|].
    by rewrite <- (Nat.add_0_r (String.length n)), str_get_app.
Qed.

Lemma find_index_name n es :
  valid_name n = true -> Forall entry_wf es ->
  find_index (env_matches n (String.length n)) es =
  find_index (fun e => bool_decide (entry_name e = n)) es.
Proof.
  intros Hn. induction 1 as [|e es He Hes IH]; [done|]. simpl.
  by rewrite env_matches_name, IH.
Qed.

Lemma omap_binding_keys es :
  Forall entry_wf es -> (omap entry_binding es).*1 = entry_name <$> es.
Proof.
  induction 1 as [|e es [(n & v & Hb & _) _] Hes IH]; [done|].
  rewrite fmap_cons, <- IH. unfold entry_name. csimpl. by rewrite Hb.
Qed.

(** The map as a search: the first entry with the name decides. *)
Lemma env_map_lookup st n :
  Forall entry_wf (entries st) -> NoDup (entry_name <$> entries st) ->
  forall v, env_map st !! n = Some v <->
    exists e, e ∈ entries st /\ entry_binding e = Some (n, v).
Proof.
  intros Hwf Hnd v. unfold env_map. rewrite <- elem_of_list_to_map.
  - rewrite list_elem_of_omap. naive_solver.
  - by rewrite omap_binding_keys.
Qed.

Lemma env_map_insert es1 es2 e n v st :
  entries st = es1 ++ e :: es2 -> entry_binding e = Some (n, v) ->
  Forall (fun x => entry_wf x /\ entry_name x <> n) es1 ->
  env_map st = <[n := v]> (list_to_map (omap entry_binding (es1 ++ es2))).
Proof.
  intros Hst He Hes. unfold env_map. rewrite Hst. clear Hst.
  induction Hes as [|x es1 [[(m & w & Hx & _) _] Hxn] Hes IH]; csimpl.
  - by rewrite He.
  - unfold entry_name in Hxn. rewrite Hx in *. csimpl. rewrite IH.
    by rewrite insert_insert_ne by congruence.
Qed.

(** *** What findenv finds *)

Definition has_name (n : string) (e : env_entry) : bool := bool_decide (entry_name e = n).

Lemma findenv_invalid st n :
  valid_name n = false -> findenv st (Some n) (String.length n) = Err EINVAL.
Proof.
  unfold valid_name, findenv. intros H.
  destruct (Nat.eqb _ _), (str_contains _ _); done.
Qed.

Lemma findenv_valid st n :
  valid_name n = true -> Forall entry_wf (entries st) ->
  findenv st (Some n) (String.length n) =
  match find_index (has_name n) (entries st) with Some i => Ok i | None => Err ENOENT end.
Proof.
  intros Hn Hwf. pose proof Hn as Hn'. unfold valid_name in Hn. bool_to_prop.
  unfold findenv. rewrite H, H0. simpl. unfold entries in *.
  destruct (environ st) as [es|]; simpl in *; [|done].
  by rewrite find_index_name.
Qed.

Lemma entry_wf_binding e : entry_wf e -> exists v, entry_binding e = Some (entry_name e, v).
Proof. intros [(n & v & Hb & _) _]. exists v. unfold entry_name. by rewrite Hb. Qed.

(** A found name splits the array around its only entry. *)
Lemma find_name_split st n i :
  env_wf st -> find_index (has_name n) (entries st) = Some i ->
  exists e v, entries st !! i = Some e /\
    entries st = take i (entries st) ++ e :: drop (S i) (entries st) /\
    entry_binding e = Some (n, v) /\
    Forall (fun x => entry_wf x /\ entry_name x <> n) (take i (entries st)) /\
    Forall (fun x => entry_wf x /\ entry_name x <> n) (drop (S i) (entries st)).
Proof.
  intros [Hwf Hnd] (e & He & Hp & Hb)%find_index_Some. unfold has_name in *. bool_to_prop.
  pose proof (take_drop_middle _ _ _ He) as Hmid.
  rewrite <- Hmid, fmap_app, fmap_cons in Hnd. rewrite <- Hmid in Hwf.
  apply Forall_app in Hwf as [Hw1 Hw2]. apply Forall_cons in Hw2 as [Hwe Hw2].
  apply NoDup_app in Hnd as (_ & Hd & Hnd2). apply NoDup_cons in Hnd2 as [Hne _].
  destruct (entry_wf_binding e Hwe) as [v Hv]. rewrite Hp in Hv.
  exists e, v. split; [done|]. split; [done|]. split; [done|].
  rewrite !Forall_forall in *. split; intros x Hx; (split; [by auto|]); intros Heq.
  - apply (Hd (entry_name x)); [by apply list_elem_of_fmap_2|]. set_solver.
  - apply Hne. rewrite Hp, <- Heq. by apply list_elem_of_fmap_2.
Qed.

Lemma find_name_None st n :
  env_wf st -> find_index (has_name n) (entries st) = None ->
  Forall (fun x => entry_wf x /\ entry_name x <> n) (entries st).
Proof.
  intros [Hwf _] Hnone%find_index_None. apply Forall_and. split; [done|].
  eapply Forall_impl; [exact Hnone|]. unfold has_name. intros. by bool_to_prop.
Qed.

(** The map of an environment split around the entry of [n]. *)
Lemma env_map_split st es1 es2 e n v :
  entries st = es1 ++ e :: es2 -> entry_binding e = Some (n, v) ->
  Forall (fun x => entry_wf x /\ entry_name x <> n) es1 ->
  Forall (fun x => entry_wf x /\ entry_name x <> n) es2 ->
  env_map st !! n = Some v /\
  list_to_map (omap entry_binding (es1 ++ es2)) = delete n (env_map st).
Proof.
  intros Hst He H1 H2. rewrite (env_map_insert es1 es2 e n v st) by done.
  split; [by simplify_map_eq|]. rewrite delete_insert_id; [done|].
  apply not_elem_of_list_to_map_1. rewrite list_elem_of_fmap. intros ([m w] & Hm & Hin).
  apply list_elem_of_omap in Hin as (x & Hx & Hb). simplify_eq/=.
  assert (entry_name x <> m) as Hne.
  { apply elem_of_app in Hx. rewrite Forall_forall in H1, H2. naive_solver. }
  apply Hne. unfold entry_name. by rewrite Hb.
Qed.

Lemma env_map_absent st n :
  Forall (fun x => entry_wf x /\ entry_name x <> n) (entries st) -> env_map st !! n = None.
Proof.
  intros H. apply not_elem_of_list_to_map_1. rewrite list_elem_of_fmap.
  intros ([m w] & Hm & Hin). apply list_elem_of_omap in Hin as (x & Hx & Hb). simplify_eq/=.
  rewrite Forall_forall in H. destruct (H x Hx) as [_ Hne]. apply Hne.
  unfold entry_name. by rewrite Hb.
Qed.

(** Writing "n=v" into a slot whose other entries have other names keeps the
    invariant and defines [n]. *)
Lemma write_entry_wf st es1 es2 n v c :
  entries st = es1 ++ mk_env_entry (n +:+ String eq_char v) c :: es2 ->
  valid_name n = true -> (String.length n + 1 + String.length v + 1 <= c)%nat ->
  Forall (fun x => entry_wf x /\ entry_name x <> n) (es1 ++ es2) ->
  NoDup (entry_name <$> (es1 ++ es2)) ->
  env_wf st /\
  env_map st = <[n := v]> (list_to_map (omap entry_binding (es1 ++ es2))).
Proof.
  intros Hst Hn Hc Hes Hnd. pose proof (entry_binding_text n v c Hn) as Hb.
  pose proof Hes as Hes'. apply Forall_app in Hes' as [H1 H2].
  split; [split|by eapply env_map_insert].
  - rewrite Hst. apply Forall_app. split; [by eapply Forall_impl; [exact H1|]; naive_solver|].
    apply Forall_cons. split; [|by eapply Forall_impl; [exact H2|]; naive_solver].
    split; [by exists n, v|]. simpl. rewrite str_length_app. simpl. lia.
  - rewrite Hst, fmap_app, fmap_cons. rewrite fmap_app in Hnd.
    replace (entry_name (mk_env_entry _ c)) with n by (unfold entry_name; by rewrite Hb).
    assert (n ∉ (entry_name <$> es1) ++ (entry_name <$> es2)).
    { rewrite <- fmap_app, list_elem_of_fmap. intros (x & -> & Hx).
      rewrite Forall_forall in Hes. by destruct (Hes x Hx). }
    rewrite NoDup_app, NoDup_cons in *. set_solver.
Qed.

Section env_theorems.
Context (ptr_size : Z) (track : bool).

(** setenv_write at slot [i] of an array whose other entries have other names. *)
Lemma setenv_write_spec st es i cap esize n v ok st' r es1 es2 :
  take i es = es1 -> drop (S i) es = es2 ->
  valid_name n = true -> (esize <= cap)%nat ->
  Forall (fun x => entry_wf x /\ entry_name x <> n) (es1 ++ es2) ->
  NoDup (entry_name <$> (es1 ++ es2)) ->
  setenv_write ptr_size track st es i cap esize n v ok = (st', r) ->
  (r = Ok tt /\ env_wf st' /\
     env_map st' = <[n := v]> (list_to_map (omap entry_binding (es1 ++ es2)))) \/
  (r = Err ENOMEM /\ entries st' = es).
Proof.
  intros <- <- Hn Hcap Hes Hnd. unfold setenv_write. case_match eqn:Hlt.
  - destruct ok; intros; simplify_eq/=; [left|by right]. split; [done|].
    eapply write_entry_wf; done.
  - intros; simplify_eq/=. left. split; [done|]. apply Nat.ltb_ge in Hlt.
    eapply write_entry_wf; try done. lia.
Qed.

Lemma env_wf_entries st st' : entries st' = entries st -> env_wf st -> env_wf st'.
Proof. unfold env_wf. by intros ->. Qed.

Lemma env_map_entries st st' : entries st' = entries st -> env_map st' = env_map st.
Proof. unfold env_map. by intros ->. Qed.

(** setenv_write over the existing entry [i] of [n]. *)
Lemma setenv_existing st i e n v w ok st' r :
  env_wf st -> valid_name n = true ->
  find_index (has_name n) (entries st) = Some i -> entries st !! i = Some e ->
  entry_binding e = Some (n, w) ->
  setenv_write ptr_size track st (entries st) i (e_cap e) (String.length (e_str e) + 1) n v ok
    = (st', r) ->
  env_wf st' /\
  match r with
  | Ok _ => env_map st' = <[n := v]> (env_map st)
  | Err x => x = ENOMEM /\ env_map st' = env_map st
  end.
Proof.
  intros Hwf Hn Hi He Hb Hw.
  destruct (find_name_split st n i Hwf Hi) as (e' & w' & He' & Hst & Hb' & H1 & H2).
  rewrite He in He'. injection He' as <-.
  assert ((String.length (e_str e) + 1 <= e_cap e)%nat) as Hcap.
  { destruct Hwf as [Hall _]. rewrite Forall_lookup in Hall. by destruct (Hall i e He). }
  assert (NoDup (entry_name <$> (take i (entries st) ++ drop (S i) (entries st)))) as Hnd.
  { destruct Hwf as [_ Hnd]. rewrite Hst, fmap_app, fmap_cons in Hnd.
    rewrite fmap_app. rewrite NoDup_app, NoDup_cons in *. set_solver. }
  pose proof (env_map_split st _ _ e n w Hst Hb H1 H2) as [_ Hdel].
  eapply setenv_write_spec in Hw; [|done..|by apply Forall_app|done].
  destruct Hw as [(-> & Hwf' & Hm)|[-> He']].
  - split; [done|]. rewrite Hm, Hdel. by rewrite insert_delete_eq.
  - split; [by eapply env_wf_entries|]. split; [done|]. by apply env_map_entries.
Qed.

(** setenv_write in a fresh slot at the end, for a name that has no entry. *)
Lemma setenv_fresh st st0 n v ok st' r :
  env_wf st -> valid_name n = true -> entries st0 = entries st ->
  find_index (has_name n) (entries st) = None ->
  setenv_write ptr_size track st0 (entries st) (environ_size st) 0 0 n v ok = (st', r) ->
  env_wf st' /\
  match r with
  | Ok _ => env_map st' = <[n := v]> (env_map st)
  | Err x => x = ENOMEM /\ env_map st' = env_map st
  end.
Proof.
  intros Hwf Hn Hst0 Hi Hw. pose proof (find_name_None st n Hwf Hi) as Hall.
  assert (environ_size st = length (entries st)) as Hsz.
  { unfold environ_size, entries. by destruct (environ st). }
  apply (setenv_write_spec _ _ _ _ _ _ _ _ _ _ (entries st) []) in Hw;
    rewrite ?app_nil_r; try done;
    [|by rewrite Hsz, take_ge by lia|by rewrite drop_ge by lia|by apply Hwf].
  rewrite app_nil_r in Hw. destruct Hw as [(-> & Hwf' & Hm)|[-> He']].
  - by rewrite Hm.
  - split; [by eapply env_wf_entries|]. split; [done|]. by apply env_map_entries.
Qed.

(** The full behaviour of z_setenv, the lemma behind the trace theorem. *)
Lemma z_setenv_spec st n v ov ra re st' r :
  env_wf st ->
  z_setenv ptr_size track st (Some n) (Some v) ov ra re = (st', r) ->
  env_wf st' /\
  match r with
  | Ok _ =>
      valid_name n = true /\
      env_map st' =
        (if (ov =? 0)%Z && bool_decide (is_Some (env_map st !! n))
         then env_map st else <[n := v]> (env_map st))
  | Err e =>
      env_map st' = env_map st /\
      e = (if valid_name n then ENOMEM else EINVAL)
  end.
Proof.
  intros Hwf. unfold z_setenv, opt_len. destruct (valid_name n) eqn:Hn.
  2:{ rewrite findenv_invalid by done. by intros; simplify_eq. }
  rewrite findenv_valid by (done || apply Hwf).
  destruct (find_index (has_name n) (entries st)) as [i|] eqn:Hi.
  - destruct (find_name_split st n i Hwf Hi) as (e & w & He & Hst & Hb & H1 & H2).
    rewrite He. destruct (env_map_split st _ _ e n w Hst Hb H1 H2) as [Hlk _].
    rewrite Hlk, (bool_decide_eq_true_2 (is_Some (Some w))) by eauto. rewrite andb_true_r.
    case_match; [by intros; simplify_eq|]. intros Hw.
    eapply setenv_existing in Hw as [? Hr]; try done. by destruct r; naive_solver.
  - assert (env_map st !! n = None) as Hnone by (apply env_map_absent, find_name_None; done).
    rewrite Hnone, (bool_decide_eq_false_2 (is_Some None)) by apply is_Some_None.
    rewrite andb_false_r. destruct ra; [|by intros; simplify_eq].
    intros Hw. eapply (setenv_fresh st) in Hw as [? Hr]; try done. by destruct r; naive_solver.
Qed.

(** The full behaviour of z_unsetenv. *)
Lemma z_unsetenv_spec st n st' r :
  env_wf st ->
  z_unsetenv ptr_size track st (Some n) = (st', r) ->
  env_wf st' /\
  (if valid_name n then r = Ok tt /\ env_map st' = delete n (env_map st)
   else r = Err EINVAL /\ st' = st).
Proof.
  intros Hwf. unfold z_unsetenv, opt_len. destruct (valid_name n) eqn:Hn.
  2:{ rewrite findenv_invalid by done. by intros; simplify_eq. }
  rewrite findenv_valid by (done || apply Hwf).
  destruct (find_index (has_name n) (entries st)) as [i|] eqn:Hi.
  - destruct (find_name_split st n i Hwf Hi) as (e & w & He & Hst & Hb & H1 & H2).
    rewrite He. destruct (env_map_split st _ _ e n w Hst Hb H1 H2) as [_ Hdel].
    intros; simplify_eq. set (es' := take i (entries st) ++ drop (S i) (entries st)) in *.
    assert (length es' = environ_size st - 1) as Hlen.
    { assert (i < length (entries st)) by (by eapply lookup_lt_Some).
      subst es'. rewrite length_app, length_take, length_drop.
      unfold environ_size, entries in *. destruct (environ st); simpl in *; lia. }
    match goal with |- env_wf ?s /\ _ => assert (entries s = es') as He' end.
    { unfold entries. simpl. case_match eqn:Hz; [|done]. apply Nat.eqb_eq in Hz.
      rewrite Hz in Hlen. by apply nil_length_inv in Hlen as ->. }
    split; [split|].
    + rewrite He'. apply Forall_app. split; eapply Forall_impl; try done; naive_solver.
    + rewrite He'. destruct Hwf as [_ Hnd]. rewrite Hst, fmap_app, fmap_cons in Hnd.
      subst es'. rewrite fmap_app. rewrite NoDup_app, NoDup_cons in *. set_solver.
    + split; [done|]. unfold env_map at 1. by rewrite He', Hdel.
  - intros; simplify_eq. split; [done|]. split; [done|].
    by rewrite delete_id by (apply env_map_absent, find_name_None; done).
Qed.

(** Reading refines lookup.  On a well-formed environment getenv returns
    the value bound to the name and NULL when there is none, and getenv_r
    succeeds exactly when the value and its terminator fit in the buffer,
    with ENOENT, EINVAL and ERANGE in the documented cases. *)
Theorem z_getenv_refines st n len :
  env_wf st ->
  z_getenv st (Some n) = env_map st !! n /\
  match z_getenv_r st (Some n) len with
  | Ok (_, v) => env_map st !! n = Some v /\ (String.length v < len)%nat
  | Err EINVAL => valid_name n = false
  | Err ENOENT => valid_name n = true /\ env_map st !! n = None
  | Err ERANGE => exists v, env_map st !! n = Some v /\ (len <= String.length v)%nat
  | Err _ => False
  end.
Proof.
  intros Hwf. unfold z_getenv, z_getenv_r, opt_len. destruct (valid_name n) eqn:Hn.
  2:{ rewrite findenv_invalid by done. split; [|done]. symmetry.
      apply env_map_absent. eapply Forall_impl; [apply Hwf|].
      intros e He. split; [done|]. destruct He as [(m & w & Hb & Hm) _].
      unfold entry_name. rewrite Hb. congruence. }
  rewrite findenv_valid by (done || apply Hwf).
  destruct (find_index (has_name n) (entries st)) as [i|] eqn:Hi.
  - destruct (find_name_split st n i Hwf Hi) as (e & w & He & Hst & Hb & H1 & H2).
    destruct (env_map_split st _ _ e n w Hst Hb H1 H2) as [Hlk _].
    assert (entry_value st i (String.length n) = w) as ->.
    { unfold entry_value. rewrite He. apply split_eq_inv in Hb as [-> _].
      by rewrite str_drop_app_plus. }
    split; [done|]. destruct (Nat.ltb_spec len (String.length w + 1)).
    + exists w. split; [done|]. lia.
    + split; [done|]. lia.
  - rewrite (env_map_absent st n) by (apply find_name_None; done). done.
Qed.

(** putenv defines the variable that its argument spells. *)
Lemma putenv_defines st n v ra re st' :
  env_wf st -> valid_name n = true ->
  putenv ptr_size track st (Some (n +:+ String eq_char v)) ra re = (st', Ok tt) ->
  env_map st' = <[n := v]> (env_map st).
Proof.
  intros Hwf Hn. unfold putenv. pose proof Hn as Hn'. unfold valid_name in Hn'. bool_to_prop.
  rewrite split_eq_app by done. intros Hset.
  by apply z_setenv_spec in Hset as [_ [_ Hm]].
Qed.

(** *** Histories of calls *)

(** A call of the environment API, with the outcomes of its allocations. *)
Inductive env_op :=
  | OpSet (n v : string) (ov : Z) (ra re : bool)
  | OpPut (s : string) (ra re : bool)
  | OpUnset (n : string).

Definition env_exec (op : env_op) (st : env_state) : env_state * res unit :=
  match op with
  | OpSet n v ov ra re => setenv ptr_size track st (Some n) (Some v) ov ra re
  | OpPut s ra re => putenv ptr_size track st (Some s) ra re
  | OpUnset n => unsetenv ptr_size track st (Some n)
  end.

(** What a successful call does to the variables. *)
Definition env_spec (op : env_op) (m : gmap string string) : gmap string string :=
  match op with
  | OpSet n v ov _ _ =>
      if (ov =? 0)%Z && bool_decide (is_Some (m !! n)) then m else <[n := v]> m
  | OpPut s _ _ => match split_eq s with Some (n, v) => <[n := v]> m | None => m end
  | OpUnset n => delete n m
  end.

Fixpoint env_run (ops : list env_op) (st : env_state) : env_state :=
  match ops with [] => st | op :: ops' => env_run ops' (fst (env_exec op st)) end.

(** The map the specification reaches when the calls that the implementation
    reports as failed are dropped. *)
Fixpoint env_spec_run (ops : list env_op) (st : env_state) (m : gmap string string)
  : gmap string string :=
  match ops with
  | [] => m
  | op :: ops' =>
      let '(st', r) := env_exec op st in
      env_spec_run ops' st' (if is_ok r then env_spec op m else m)
  end.

Lemma env_exec_spec op st :
  env_wf st ->
  env_wf (fst (env_exec op st)) /\
  env_map (fst (env_exec op st)) =
    (if is_ok (snd (env_exec op st)) then env_spec op (env_map st) else env_map st).
Proof.
  intros Hwf. destruct op as [n v ov ra re|s ra re|n];
    cbn [env_exec env_spec]; unfold setenv, unsetenv, putenv.
  - destruct (z_setenv _ _ _ _ _ _ _ _) as [st' r] eqn:Hr.
    apply z_setenv_spec in Hr as [? Hr]; [|done]. destruct r; naive_solver.
  - destruct (split_eq s) as [[n v]|]; [|done].
    destruct (z_setenv _ _ _ _ _ _ _ _) as [st' r] eqn:Hr.
    apply z_setenv_spec in Hr as [? Hr]; [|done]. destruct r; naive_solver.
  - destruct (z_unsetenv _ _ _ _) as [st' r] eqn:Hr.
    apply z_unsetenv_spec in Hr as [? Hr]; [|done].
    destruct (valid_name n); destruct Hr as [-> Hr]; [done|]. by rewrite Hr.
Qed.

Lemma env_run_spec ops st :
  env_wf st ->
  env_wf (env_run ops st) /\
  env_map (env_run ops st) = env_spec_run ops st (env_map st).
Proof.
  revert st. induction ops as [|op ops IH]; intros st Hwf; simpl; [done|].
  destruct (env_exec_spec op st Hwf) as [Hwf' Hm].
  destruct (env_exec op st) as [st' r] eqn:Hr. simpl in *.
  destruct (IH st' Hwf') as [? ->]. by rewrite Hm.
Qed.

(** C2: the environment implements a finite map.  After any history of
    setenv, putenv and unsetenv calls from a well-formed environment, with
    any outcome of their allocations, the representation invariant holds
    (distinct valid names, every string inside its heap block) and the
    variables are those the map specification reaches by performing exactly
    the calls that reported success. *)
Theorem env_refines_map ops st :
  env_wf st ->
  env_wf (env_run ops st) /\
  env_map (env_run ops st) = env_spec_run ops st (env_map st).
Proof. apply env_run_spec. Qed.

(** Which calls fail.  On a well-formed environment setenv fails with
    EINVAL exactly for an empty name or one with '=', with ENOMEM only for a
    valid name and a failed allocation; unsetenv fails only with EINVAL, for
    the same names, and a failed unsetenv changes nothing. *)
Lemma env_errors st n v ov ra re :
  env_wf st ->
  match snd (setenv ptr_size track st (Some n) (Some v) ov ra re) with
  | Ok _ => valid_name n = true
  | Err EINVAL => valid_name n = false
  | Err ENOMEM => valid_name n = true /\ ra && re = false
  | Err _ => False
  end /\
  (if valid_name n then snd (unsetenv ptr_size track st (Some n)) = Ok tt
   else unsetenv ptr_size track st (Some n) = (st, Err EINVAL)).
Proof.
  intros Hwf. split.
  - destruct (setenv ptr_size track st (Some n) (Some v) ov ra re) as [st' r] eqn:Hr.
    pose proof Hr as Hs. apply z_setenv_spec in Hs as [_ Hs]; [|done].
    destruct r as [a|e]; [naive_solver|]. destruct Hs as [_ ->].
    destruct (valid_name n) eqn:Hn; [|done]. split; [done|].
    unfold setenv, z_setenv, opt_len in Hr. rewrite findenv_valid in Hr by (done || apply Hwf).
    unfold setenv_write in Hr. destruct ra, re; try done. split_cases.
  - destruct (unsetenv ptr_size track st (Some n)) as [st' r] eqn:Hr.
    apply z_unsetenv_spec in Hr as [_ Hr]; [|done].
    destruct (valid_name n); destruct Hr; by subst.
Qed.

End env_theorems.

(** ** Concrete environments *)

Definition env_empty : env_state := mk_env_state None 0.

Lemma env_empty_wf : env_wf env_empty.
Proof. split; constructor. Qed.

(** Two variables set and both removed again. *)
Definition env_cycle2 : env_state :=
  let s1 := fst (z_setenv 8 true env_empty (Some "A") (Some "1") 1 true true) in
  let s2 := fst (z_setenv 8 true s1 (Some "B") (Some "2") 1 true true) in
  let s3 := fst (z_unsetenv 8 true s2 (Some "A")) in
  fst (z_unsetenv 8 true s3 (Some "B")).

(** With two variables the allocation counter does not return to zero:
    z_setenv adds the whole pointer array at every growth while z_unsetenv
    gives back one pointer, so an environment that is empty again (as
    test_watertight checks for one variable) is accounted with 16 bytes. *)
Lemma env_accounting_drift :
  environ env_cycle2 = None /\ allocated env_cycle2 = 16%Z.
Proof. vm_compute. done. Qed.

(** Z_getenv_r returns the position of the variable, not 0: any variable
    but the first makes a successful call return a positive number, although
    the callers (zassert_ok) expect 0. *)
Lemma getenv_r_returns_index st n len i v e :
  env_wf st -> valid_name n = true ->
  entries st !! i = Some e -> entry_binding e = Some (n, v) -> (String.length v < len)%nat ->
  z_getenv_r st (Some n) len = Ok (i, v).
Proof.
  intros Hwf Hn He Hb Hlen. unfold z_getenv_r, opt_len.
  rewrite findenv_valid by (done || apply Hwf).
  destruct (find_index (has_name n) (entries st)) as [j|] eqn:Hj.
  - destruct (find_name_split st n j Hwf Hj) as (e' & w & He' & Hst & Hb' & H1 & H2).
    assert (j = i) as ->.
    { destruct Hwf as [_ Hnd]. eapply (NoDup_lookup (entry_name <$> entries st) j i n); [done| |].
      - rewrite list_lookup_fmap, He'. simpl. unfold entry_name. by rewrite Hb'.
      - rewrite list_lookup_fmap, He. simpl. unfold entry_name. by rewrite Hb. }
    assert (entry_value st i (String.length n) = v) as ->.
    { unfold entry_value. rewrite He. apply split_eq_inv in Hb as [-> _].
      by rewrite str_drop_app_plus. }
    by rewrite (proj2 (Nat.ltb_ge _ _)) by lia.
  - apply find_name_None in Hj; [|done]. rewrite Forall_lookup in Hj.
    destruct (Hj i e He) as [_ Hne]. destruct Hne. unfold entry_name. by rewrite Hb.
Qed.

(** ** Witnesses *)

Definition env_ab : env_state :=
  fst (z_setenv 8 true
         (fst (z_setenv 8 true env_empty (Some "A") (Some "1") 1 true true))
         (Some "B") (Some "2") 1 true true).

Lemma env_ab_wf : env_wf env_ab.
Proof.
  apply (env_run_spec 8 true
    [OpSet "A" "1" 1 true true; OpSet "B" "2" 1 true true] env_empty env_empty_wf).
Qed.

Lemma env_refines_map_witness :
  env_wf env_empty /\
  env_map (env_run 8 true [OpSet "A" "1" 1 true true; OpSet "A" "2" 0 true true;
                           OpPut "B=x=y" true true; OpUnset "A"] env_empty)
  = {["B" := "x=y"]}.
Proof.
  split; [apply env_empty_wf|].
  rewrite (proj2 (env_refines_map 8 true _ env_empty env_empty_wf)). vm_compute. reflexivity.
Defined.

Lemma env_errors_witness :
  env_wf env_ab /\ snd (unsetenv 8 true env_ab (Some "B")) = Ok tt.
Proof.
  split; [apply env_ab_wf|].
  exact (proj2 (env_errors 8 true env_ab "B" "" 1 true true env_ab_wf)).
Defined.

Lemma z_getenv_refines_witness :
  env_wf env_ab /\ z_getenv env_ab (Some "B") = Some "2".
Proof.
  split; [apply env_ab_wf|].
  rewrite (proj1 (z_getenv_refines env_ab "B" 2 env_ab_wf)). vm_compute. reflexivity.
Defined.

Lemma getenv_r_returns_index_witness :
  z_getenv_r env_ab (Some "B") 16 = Ok (1, "2").
Proof.
  apply (getenv_r_returns_index env_ab "B" 16 1 "2" (mk_env_entry "B=2" 4) env_ab_wf);
    [reflexivity|reflexivity|reflexivity|simpl; lia].
Defined.
