(* ===== verification/Kernel.v ===== *)
(** * Interfaces to the Zephyr kernel

    posix-next is a layer over Zephyr.  The kernel services it calls are not
    part of the repository, so the models take them as implementations of the
    interfaces of this file: a class of operations and a class of the laws
    that the kernel documents and the layer relies on.  [counter_sem] is an
    implementation of the semaphore interface, used by the witnesses. *)

From stdpp Require Import base list gmap.
From Stdlib Require Import ZArith Lia.
From S2P Require Import Prelude.

Local Open Scope Z_scope.

(** ** Counting semaphores: k_sem and sys_sem

    [ksem_take] is an attempt that does not wait: [None] when the count is
    zero (-EBUSY, or -EAGAIN at the end of a wait).  A blocking take is an
    attempt made again until it succeeds; the threads that wait appear in the
    transition systems of the components, not in the semaphore. *)
Class KSem (S : Type) := {
  ksem_init : Z -> Z -> S;
  ksem_count : S -> Z;
  ksem_limit : S -> Z;
  ksem_take : S -> option S;
  ksem_give : S -> S;
  ksem_reset : S -> S;
}.

Class KSemLaws (S : Type) `{KSem S} : Prop := {
  ksem_init_count c l : 0 <= c <= l -> ksem_count (ksem_init c l) = c;
  ksem_init_limit c l : 0 <= c <= l -> ksem_limit (ksem_init c l) = l;
  ksem_take_zero s : ksem_count s <= 0 -> ksem_take s = None;
  ksem_take_pos s :
    0 < ksem_count s ->
    exists s', ksem_take s = Some s' /\
      ksem_count s' = ksem_count s - 1 /\ ksem_limit s' = ksem_limit s;
  ksem_give_count s : ksem_count (ksem_give s) = Z.min (ksem_count s + 1) (ksem_limit s);
  ksem_give_limit s : ksem_limit (ksem_give s) = ksem_limit s;
  ksem_reset_count s : ksem_count (ksem_reset s) = 0;
  ksem_reset_limit s : ksem_limit (ksem_reset s) = ksem_limit s;
}.

Section ksem_facts.
Context {S : Type} `{KSemLaws S}.

Lemma ksem_take_Some s s' :
  ksem_take s = Some s' ->
  0 < ksem_count s /\ ksem_count s' = ksem_count s - 1 /\ ksem_limit s' = ksem_limit s.
Proof.
  intros Ht. destruct (Z.le_gt_cases (ksem_count s) 0) as [Hle|Hgt].
  - by rewrite ksem_take_zero in Ht.
  - destruct (ksem_take_pos s) as (s'' & Hs & ? & ?); [lia|]. rewrite Ht in Hs.
    injection Hs as ->. lia.
Qed.

Lemma ksem_take_None s : ksem_take s = None -> ksem_count s <= 0.
Proof.
  intros Ht. destruct (Z.le_gt_cases (ksem_count s) 0) as [Hle|Hgt]; [done|].
  destruct (ksem_take_pos s) as (s'' & Hs & _); [lia|]. congruence.
Qed.

(** An attempt whose result is ignored, as in [(void)sys_sem_take(&s, K_NO_WAIT)]. *)
Definition ksem_try (s : S) : S := default s (ksem_take s).

Lemma ksem_try_count s :
  0 <= ksem_count s -> ksem_count (ksem_try s) = Z.max 0 (ksem_count s - 1).
Proof.
  intros Hs. unfold ksem_try. destruct (ksem_take s) as [s'|] eqn:Ht; simpl.
  - apply ksem_take_Some in Ht. lia.
  - apply ksem_take_None in Ht. lia.
Qed.

Lemma ksem_try_limit s : ksem_limit (ksem_try s) = ksem_limit s.
Proof.
  unfold ksem_try. destruct (ksem_take s) as [s'|] eqn:Ht; simpl; [|done].
  by apply ksem_take_Some in Ht as (_ & _ & ?).
Qed.
End ksem_facts.

(** A semaphore as the kernel documentation describes it. *)
Record counter_sem := mk_counter_sem { cs_count : Z; cs_limit : Z }.

#[export] Instance counter_sem_eq_dec : EqDecision counter_sem.
Proof. solve_decision. Defined.

#[export] Instance counter_ksem : KSem counter_sem := {
  ksem_init c l := mk_counter_sem c l;
  ksem_count := cs_count;
  ksem_limit := cs_limit;
  ksem_take s := if cs_count s <=? 0 then None
                 else Some (mk_counter_sem (cs_count s - 1) (cs_limit s));
  ksem_give s := mk_counter_sem (Z.min (cs_count s + 1) (cs_limit s)) (cs_limit s);
  ksem_reset s := mk_counter_sem 0 (cs_limit s);
}.

#[export] Instance counter_ksem_laws : KSemLaws counter_sem.
Proof.
  split; simpl; intros; try done.
  - by rewrite (proj2 (Z.leb_le _ _)).
  - ztests. by eexists.
Qed.

(** ** Elastic object pools: sys_elastipool

    A pool hands out addresses of objects.  [pool_block p a] is the start of
    the block that the address [a] falls in; the pool recognises an address
    by its block. *)
Class Elastipool (P : Type) := {
  pool_alloc : P -> option (Z * P);
  pool_check : P -> Z -> bool;
  pool_free : P -> Z -> option P;
  pool_storage : P -> Z;
  pool_block : P -> Z -> Z;
  pool_live : P -> gset Z;
  pool_wf : P -> Prop;
}.

Class ElastipoolLaws (P : Type) `{Elastipool P} : Prop := {
  pool_block_live p a : pool_wf p -> a ∈ pool_live p -> pool_block p a = a;
  pool_check_spec p a : pool_wf p -> (pool_check p a = true <-> pool_block p a ∈ pool_live p);
  pool_alloc_spec p a p' :
    pool_wf p -> pool_alloc p = Some (a, p') ->
    (a ∉ pool_live p) /\ pool_live p' = {[a]} ∪ pool_live p /\
    pool_storage p' = pool_storage p /\ (forall b, pool_block p' b = pool_block p b) /\
    pool_wf p';
  pool_free_live p a :
    pool_wf p -> a ∈ pool_live p ->
    exists p', pool_free p a = Some p' /\ pool_live p' = pool_live p ∖ {[a]} /\
      pool_storage p' = pool_storage p /\ (forall b, pool_block p' b = pool_block p b) /\
      pool_wf p';
  pool_live_region p a :
    pool_wf p -> a ∈ pool_live p -> pool_storage p / 2 ^ 32 = a / 2 ^ 32;
  pool_live_pos p a : pool_wf p -> a ∈ pool_live p -> 0 < a;
}.

(** ** Message queues: k_msgq

    A queue of messages of [msgq_msg_size] bytes each.  [msgq_put] copies
    that many bytes from memory, given as the bytes from the pointer on; it
    is an attempt that does not wait, as is [msgq_get]. *)
Class KMsgq (Q : Type) := {
  msgq_init : Z -> Z -> Q;
  msgq_msg_size : Q -> Z;
  msgq_max_msgs : Q -> Z;
  msgq_contents : Q -> list (list Z);
  msgq_put : Q -> list Z -> option Q;
  msgq_get : Q -> option (list Z * Q);
}.

(** k_msgq_num_used_get *)
Definition msgq_used {Q} `{KMsgq Q} (q : Q) : Z := Z.of_nat (length (msgq_contents q)).

Class KMsgqLaws (Q : Type) `{KMsgq Q} : Prop := {
  msgq_init_contents s m : msgq_contents (msgq_init s m) = [];
  msgq_init_size s m : msgq_msg_size (msgq_init s m) = s;
  msgq_init_max s m : msgq_max_msgs (msgq_init s m) = m;
  msgq_put_full q msg : msgq_max_msgs q <= msgq_used q -> msgq_put q msg = None;
  msgq_put_room q msg :
    msgq_used q < msgq_max_msgs q ->
    exists q', msgq_put q msg = Some q' /\
      msgq_contents q' = msgq_contents q ++ [take (Z.to_nat (msgq_msg_size q)) msg] /\
      msgq_msg_size q' = msgq_msg_size q /\ msgq_max_msgs q' = msgq_max_msgs q;
  msgq_get_empty q : msgq_contents q = [] -> msgq_get q = None;
  msgq_get_cons q m ms :
    msgq_contents q = m :: ms ->
    exists q', msgq_get q = Some (m, q') /\ msgq_contents q' = ms /\
      msgq_msg_size q' = msgq_msg_size q /\ msgq_max_msgs q' = msgq_max_msgs q;
}.

Section msgq_facts.
Context {Q : Type} `{KMsgqLaws Q}.

Lemma msgq_put_Some q msg q' :
  msgq_put q msg = Some q' ->
  msgq_used q < msgq_max_msgs q /\
  msgq_contents q' = msgq_contents q ++ [take (Z.to_nat (msgq_msg_size q)) msg] /\
  msgq_msg_size q' = msgq_msg_size q /\ msgq_max_msgs q' = msgq_max_msgs q.
Proof.
  intros Hp. destruct (Z.le_gt_cases (msgq_max_msgs q) (msgq_used q)) as [Hf|Hr].
  - by rewrite msgq_put_full in Hp.
  - destruct (msgq_put_room q msg Hr) as (q'' & Hq & ?). simplify_eq. split; [lia|done].
Qed.

Lemma msgq_get_Some q m q' :
  msgq_get q = Some (m, q') ->
  msgq_contents q = m :: msgq_contents q' /\
  msgq_msg_size q' = msgq_msg_size q /\ msgq_max_msgs q' = msgq_max_msgs q.
Proof.
  intros Hg. destruct (msgq_contents q) as [|m0 ms] eqn:Hc.
  - by rewrite msgq_get_empty in Hg.
  - destruct (msgq_get_cons q m0 ms Hc) as (q'' & Hq & <- & ?). simplify_eq. done.
Qed.
End msgq_facts.

Record list_msgq := mk_list_msgq { lq_size : Z; lq_max : Z; lq_msgs : list (list Z) }.

#[export] Instance list_msgq_kmsgq : KMsgq list_msgq := {
  msgq_init s m := mk_list_msgq s m [];
  msgq_msg_size := lq_size;
  msgq_max_msgs := lq_max;
  msgq_contents := lq_msgs;
  msgq_put q msg :=
    if lq_max q <=? Z.of_nat (length (lq_msgs q)) then None
    else Some (mk_list_msgq (lq_size q) (lq_max q)
                 (lq_msgs q ++ [take (Z.to_nat (lq_size q)) msg]));
  msgq_get q :=
    match lq_msgs q with
    | [] => None
    | m :: ms => Some (m, mk_list_msgq (lq_size q) (lq_max q) ms)
    end;
}.

#[export] Instance list_msgq_laws : KMsgqLaws list_msgq.
Proof.
  split; unfold msgq_used; simpl; intros; try done.
  - by rewrite (proj2 (Z.leb_le _ _)).
  - ztests. by eexists.
  - by case_match.
  - case_match; simplify_eq. by eexists.
Qed.

(** ** Waiting

    A kernel call with a timeout (0 is K_NO_WAIT, negative K_FOREVER, else
    the time) attempts, and if that fails and it may wait, attempts again
    after what the other threads did to the object [meanwhile]. *)
Inductive waited (A B : Type) :=
  | Got (b : B)
  | TimedOut (a : A)
  | Blocks.
Arguments Got {A B} _.
Arguments TimedOut {A B} _.
Arguments Blocks {A B}.

Definition K_NO_WAIT : Z := 0.
Definition K_FOREVER : Z := -1.

Definition wait_for {A B} (attempt : A -> option B) (timeout : Z) (meanwhile : A -> A)
  (a : A) : waited A B :=
  match attempt a with
  | Some b => Got b
  | None =>
      if timeout =? K_NO_WAIT then TimedOut a
      else match attempt (meanwhile a) with
           | Some b => Got b
           | None => if timeout <? 0 then Blocks else TimedOut (meanwhile a)
           end
  end.

(** ** File descriptors: zvfs

    The descriptor table of the kernel.  [fd_obj t fd] is the object that the
    open descriptor [fd] refers to.  [zvfs_close] also says whose close
    operation it calls: that of the object, when its last descriptor goes. *)
Class Zvfs (T : Type) := {
  fd_obj : T -> Z -> option Z;
  zvfs_reserve_fd : T -> option (Z * T);
  zvfs_free_fd : T -> Z -> T;
  zvfs_finalize_typed_fd : T -> Z -> Z -> T;
  zvfs_fd_obj_refcount : T -> Z -> Z;
  zvfs_close : T -> Z -> option (T * option Z);
}.

Class ZvfsLaws (T : Type) `{Zvfs T} : Prop := {
  zvfs_reserve_spec t fd t' :
    zvfs_reserve_fd t = Some (fd, t') ->
    0 <= fd /\ fd_obj t fd = None /\ forall f, fd_obj t' f = fd_obj t f;
  zvfs_reserve_free t fd t' f :
    zvfs_reserve_fd t = Some (fd, t') -> fd_obj (zvfs_free_fd t' fd) f = fd_obj t f;
  zvfs_reserve_finalize t fd t' obj f :
    zvfs_reserve_fd t = Some (fd, t') ->
    fd_obj (zvfs_finalize_typed_fd t' fd obj) f = if f =? fd then Some obj else fd_obj t f;
  zvfs_refcount_zero t obj f :
    zvfs_fd_obj_refcount t obj = 0 -> fd_obj t f <> Some obj;
  zvfs_refcount_nonzero t obj :
    zvfs_fd_obj_refcount t obj <> 0 -> exists f, fd_obj t f = Some obj;
  zvfs_close_spec t fd obj :
    fd_obj t fd = Some obj ->
    exists t', zvfs_close t fd
        = Some (t', if zvfs_fd_obj_refcount t' obj =? 0 then Some obj else None) /\
      forall f, fd_obj t' f = if f =? fd then None else fd_obj t f;
}.

(** A table of slots: free, reserved, or open on an object. *)
Inductive slot := Free | Reserved | Open (obj : Z).

#[export] Instance slot_eq_dec : EqDecision slot.
Proof. solve_decision. Defined.

Abbreviation slots := (list slot).

Definition slot_obj (s : slot) : option Z := match s with Open o => Some o | _ => None end.
Definition slots_obj (t : slots) (fd : Z) : option Z :=
  if fd <? 0 then None else match t !! Z.to_nat fd with Some s => slot_obj s | None => None end.
Definition slots_count (t : slots) (obj : Z) : nat := count_if (fun s => bool_decide (s = Open obj)) t.

#[export] Instance slots_zvfs : Zvfs slots := {
  fd_obj := slots_obj;
  zvfs_reserve_fd t :=
    match find_index (fun s => bool_decide (s = Free)) t with
    | Some i => Some (Z.of_nat i, <[i := Reserved]> t)
    | None => None
    end;
  zvfs_free_fd t fd := <[Z.to_nat fd := Free]> t;
  zvfs_finalize_typed_fd t fd obj := <[Z.to_nat fd := Open obj]> t;
  zvfs_fd_obj_refcount t obj := Z.of_nat (slots_count t obj);
  zvfs_close t fd :=
    match slots_obj t fd with
    | None => None
    | Some obj =>
        let t' := <[Z.to_nat fd := Free]> t in
        Some (t', if Z.of_nat (slots_count t' obj) =? 0 then Some obj else None)
    end;
}.

Lemma slots_obj_insert (t : slots) i s f :
  is_Some (t !! i) ->
  slots_obj (<[i := s]> t) f = if f =? Z.of_nat i then slot_obj s else slots_obj t f.
Proof.
  intros Hi%lookup_lt_is_Some. unfold slots_obj. destruct (Z.eqb_spec f (Z.of_nat i)) as [->|Hne].
  - ztests. by rewrite Nat2Z.id, list_lookup_insert_eq.
  - destruct (Z.ltb_spec f 0); [done|]. rewrite list_lookup_insert_ne by lia. done.
Qed.

Lemma slots_reserve (t : slots) fd t' :
  zvfs_reserve_fd t = Some (fd, t') ->
  exists i, fd = Z.of_nat i /\ t !! i = Some Free /\ t' = <[i := Reserved]> t.
Proof.
  simpl. destruct (find_index _ _) as [i|] eqn:Hf; [|done]. intros [= <- <-].
  apply find_index_Some in Hf as (x & Hx & Hp & _). bool_to_prop. subst. by exists i.
Qed.

#[export] Instance slots_zvfs_laws : ZvfsLaws slots.
Proof.
  split.
  - intros t fd t' (i & -> & Hi & ->)%slots_reserve.
    assert (Hn : slots_obj t (Z.of_nat i) = None).
    { unfold slots_obj. ztests. by rewrite Nat2Z.id, Hi. }
    split; [lia|]. split; [done|]. intros f. simpl. rewrite slots_obj_insert by done.
    by case_match eqn:Hf; [apply Z.eqb_eq in Hf as ->|].
  - intros t fd t' f (i & -> & Hi & ->)%slots_reserve. simpl.
    rewrite Nat2Z.id, list_insert_insert_eq, slots_obj_insert by done.
    destruct (Z.eqb_spec f (Z.of_nat i)) as [->|]; [|done]. unfold slots_obj.
    ztests. by rewrite Nat2Z.id, Hi.
  - intros t fd t' obj f (i & -> & Hi & ->)%slots_reserve. simpl.
    by rewrite Nat2Z.id, list_insert_insert_eq, slots_obj_insert.
  - intros t obj f Hc Hf. simpl in *. unfold slots_count in Hc. unfold slots_obj in Hf.
    destruct (Z.ltb_spec f 0); [done|]. case_match eqn:Hs; [|done]. destruct s; simplify_eq/=.
    enough (0 < count_if (fun s => bool_decide (s = Open obj)) t)%nat by lia.
    apply count_if_pos. exists (Z.to_nat f), (Open obj). by rewrite bool_decide_eq_true_2.
  - intros t obj Hc. simpl in *. unfold slots_count in Hc.
    destruct (proj1 (count_if_pos (fun s => bool_decide (s = Open obj)) t)) as (i & x & Hi & Hp);
      [lia|]. bool_to_prop. subst. exists (Z.of_nat i). unfold slots_obj.
    ztests. by rewrite Nat2Z.id, Hi.
  - intros t fd obj Hf. simpl in *. rewrite Hf. eexists. split; [done|]. intros f.
    unfold slots_obj in Hf. destruct (Z.ltb_spec fd 0); [done|]. case_match eqn:Hs; [|done].
    rewrite slots_obj_insert by done. by rewrite Z2Nat.id by lia.
Qed.
