(* ===== verification/Pool.v ===== *)
(** * Object pools and handles

    [posix_pool.c] and the inline functions of [posix_internal.h] turn the
    32-bit handles of the pthread types into pointers to pool objects.  The
    pools are Zephyr elastipools: the static variant of
    [lib/elastipool/elastipool.c], which the repository carries in
    [zephyr/patches/zephyr/elastipool.patch], is modelled here and discharges
    the interface of [Kernel] for the pools of one bitmap word. *)

From stdpp Require Import base list gmap sets.
From Stdlib Require Import ZArith Lia.
From S2P Require Import Prelude Kernel.

Local Open Scope Z_scope.

(** ** The static elastipool *)

Module Epool.

Section epool.
(** Bits of [unsigned long], [size_t] and pointers. *)
Context (W : Z).

Record epool := mk_epool {
  ep_bmp : list Z;       (* bitmap words, one bit per block *)
  ep_size : Z;           (* pool_size: blocks in use *)
  ep_min : Z;            (* min_obj: blocks in storage *)
  ep_max : Z;            (* max_obj *)
  ep_storage : Z;        (* address of storage *)
  ep_blk : Z;            (* ROUND_UP(obj_size, obj_align) *)
}.

(** The lowest clear bit of [w] among bits [i .. i + n - 1]: find_lsb_set_l
    of the complement, minus one. *)
Fixpoint find_zero (w : Z) (n : nat) (i : Z) : option Z :=
  match n with
  | O => None
  | S n' => if Z.testbit w i then find_zero w n' (i + 1) else Some i
  end.

(** [n] counts the blocks from the current word on. *)
Fixpoint sys_elastipool_bmp_alloc (bmp : list Z) (n : Z) : option (Z * list Z) :=
  match bmp with
  | [] => None
  | [w] =>
      match find_zero w (Z.to_nat n) 0 with
      | Some b => Some (b, [Z.setbit w b])
      | None => None
      end
  | w :: bmp' =>
      match find_zero w (Z.to_nat W) 0 with
      | Some b => Some (b, Z.setbit w b :: bmp')
      | None =>
          match sys_elastipool_bmp_alloc bmp' (n - W) with
          | Some (b, bmp'') => Some (b + W, w :: bmp'')
          | None => None
          end
      end
  end.

Definition sys_elastipool_bmp_check (bmp : list Z) (bit num_bits : Z) : bool :=
  if num_bits <=? bit then false
  else
    let i := bit / W in
    match bmp !! Z.to_nat i with
    | Some w => Z.testbit w (bit - i * W)
    | None => false
    end.

(** [*bmp &= ~BIT64(bit)] writes the first word of the bitmap. *)
Definition sys_elastipool_bmp_free (bmp : list Z) (bit num_bits : Z) : option (list Z) :=
  if sys_elastipool_bmp_check bmp bit num_bits then
    match bmp with
    | w :: bmp' => Some (uwrap W (Z.ldiff w (2 ^ bit)) :: bmp')
    | [] => None
    end
  else None.

Definition sys_elastipool_api_alloc_static (p : epool) : option (Z * epool) :=
  if ep_size p =? ep_max p then None
  else
    match sys_elastipool_bmp_alloc (ep_bmp p) (ep_min p) with
    | None => None
    | Some (b, bmp') =>
        Some (ep_storage p + b * ep_blk p,
              mk_epool bmp' (ep_size p + 1) (ep_min p) (ep_max p) (ep_storage p) (ep_blk p))
    end.

(** The block number of an address: the byte offset as a [size_t], divided by
    the block size. *)
Definition block_of (p : epool) (a : Z) : Z := uwrap W (a - ep_storage p) / ep_blk p.

(** check_static keeps the block number in an [int]. *)
Definition check_bit (p : epool) (a : Z) : Z := uwrap W (swrap 32 (block_of p a)).

Definition sys_elastipool_api_check_static (p : epool) (a : Z) : bool :=
  sys_elastipool_bmp_check (ep_bmp p) (check_bit p a) (ep_min p).

Definition sys_elastipool_api_free_static (p : epool) (a : Z) : option epool :=
  match sys_elastipool_bmp_free (ep_bmp p) (block_of p a) (ep_min p) with
  | None => None
  | Some bmp' =>
      Some (mk_epool bmp' (ep_size p - 1) (ep_min p) (ep_max p) (ep_storage p) (ep_blk p))
  end.

(** *** One-word pools implement the pool interface *)

Definition word0 (p : epool) : Z := nth 0 (ep_bmp p) 0.

(** Addresses of the blocks whose bit is set. *)
Definition live_bits (p : epool) : list Z :=
  filter (fun b => Z.testbit (word0 p) b = true) (seqZ 0 (ep_min p)).

Definition epool_live (p : epool) : gset Z :=
  list_to_set ((fun b => ep_storage p + b * ep_blk p) <$> live_bits p).

Definition epool_block (p : epool) (a : Z) : Z :=
  if check_bit p a <? ep_min p then ep_storage p + check_bit p a * ep_blk p else -1.

(** A pool whose bitmap is one word.  The source admits larger ones, which lose
    the blocks of the other words when these are freed
    ([epool_free_high_block_lost]): the laws below hold for one word only. *)
Definition epool_wf (p : epool) : Prop :=
  (exists w, ep_bmp p = [w] /\ 0 <= w < 2 ^ W) /\
  32 <= W /\ 0 < ep_min p <= W /\ W < 2 ^ 31 /\ 0 < ep_blk p /\ 0 < ep_storage p /\
  ep_min p * ep_blk p < 2 ^ W /\
  (ep_storage p + ep_min p * ep_blk p) / 2 ^ 32 = ep_storage p / 2 ^ 32.

#[export] Instance epool_elastipool : Elastipool epool := {
  pool_alloc := sys_elastipool_api_alloc_static;
  pool_check := sys_elastipool_api_check_static;
  pool_free := sys_elastipool_api_free_static;
  pool_storage := ep_storage;
  pool_block := epool_block;
  pool_live := epool_live;
  pool_wf := epool_wf;
}.

Lemma find_zero_Some w n i b :
  find_zero w n i = Some b -> i <= b < i + Z.of_nat n /\ Z.testbit w b = false.
Proof.
  revert i. induction n as [|n IH]; intros i; cbn [find_zero]; [done|].
  destruct (Z.testbit w i) eqn:Hb.
  - intros [? ?]%IH. split; [lia|done].
  - intros [= <-]. split; [lia|done].
Qed.

Lemma elem_of_live p a :
  a ∈ epool_live p <->
  exists b, 0 <= b < ep_min p /\ Z.testbit (word0 p) b = true /\ a = ep_storage p + b * ep_blk p.
Proof.
  unfold epool_live, live_bits. rewrite elem_of_list_to_set, list_elem_of_fmap.
  setoid_rewrite list_elem_of_filter. setoid_rewrite elem_of_seqZ.
  split.
  - intros (b & -> & Hb & ?). exists b. repeat split; (lia || done).
  - intros (b & ? & Hb & ->). exists b. repeat split; (lia || done).
Qed.

(** The address of a block of the pool has that block's number. *)
Lemma block_of_addr p b :
  epool_wf p -> 0 <= b < ep_min p -> block_of p (ep_storage p + b * ep_blk p) = b.
Proof.
  intros (_ & ? & ? & ? & ? & ? & ? & _) Hb. unfold block_of.
  replace (ep_storage p + b * ep_blk p - ep_storage p) with (b * ep_blk p) by lia.
  rewrite uwrap_id; [by apply Z.div_mul; lia|]. unfold in_u.
  apply andb_true_iff. split; [apply Z.leb_le; nia|apply Z.ltb_lt; nia].
Qed.

Lemma check_bit_addr p b :
  epool_wf p -> 0 <= b < ep_min p -> check_bit p (ep_storage p + b * ep_blk p) = b.
Proof.
  intros Hwf Hb. unfold check_bit. rewrite block_of_addr by done.
  destruct Hwf as (_ & HW & ? & HW2 & ? & ? & ? & _).
  assert (2 ^ 32 <= 2 ^ W) by (apply Z.pow_le_mono_r; lia).
  rewrite swrap_id; [|lia|unfold in_s; simpl; lia]. apply uwrap_id. unfold in_u. lia.
Qed.

Lemma check_bit_nonneg p a : epool_wf p -> 0 <= check_bit p a.
Proof. intros (_ & ? & _). apply uwrap_range. lia. Qed.

Lemma bmp_check_word p b :
  epool_wf p -> 0 <= b < ep_min p ->
  sys_elastipool_bmp_check (ep_bmp p) b (ep_min p) = Z.testbit (word0 p) b.
Proof.
  intros ((w & Hw & _) & ? & ? & _) Hb. unfold sys_elastipool_bmp_check, word0. rewrite Hw.
  destruct (Z.leb_spec (ep_min p) b); [lia|].
  rewrite Z.div_small by lia. simpl. f_equal. lia.
Qed.

Lemma epool_check_spec p a :
  epool_wf p -> (sys_elastipool_api_check_static p a = true <-> epool_block p a ∈ epool_live p).
Proof.
  intros Hwf. unfold sys_elastipool_api_check_static, epool_block.
  pose proof (check_bit_nonneg p a Hwf). destruct (Z.ltb_spec (check_bit p a) (ep_min p)).
  - rewrite bmp_check_word by (done || lia). rewrite elem_of_live. split; [by eauto|].
    intros (b & ? & Hb & Heq). destruct Hwf as (_ & _ & _ & _ & ? & _).
    assert (check_bit p a = b) as -> by nia. done.
  - unfold sys_elastipool_bmp_check. ztests.
    rewrite elem_of_live. split; [done|]. intros (b & ? & _ & ?).
    destruct Hwf as (_ & _ & _ & _ & ? & ? & _). nia.
Qed.

(** A pool with a changed bitmap word has the same geometry. *)
Lemma epool_wf_word p w' n :
  epool_wf p -> 0 <= w' < 2 ^ W ->
  epool_wf (mk_epool [w'] n (ep_min p) (ep_max p) (ep_storage p) (ep_blk p)).
Proof. intros (_ & Hrest) Hw. split; [by exists w'|exact Hrest]. Qed.

Lemma word0_one p w : ep_bmp p = [w] -> word0 p = w.
Proof. unfold word0. by intros ->. Qed.

(** A non-negative number is below [2 ^ W] when its bits from [W] on are clear. *)
Lemma bits_bound w : 0 <= W -> 0 <= w -> (forall i, W <= i -> Z.testbit w i = false) -> w < 2 ^ W.
Proof.
  intros HW Hw Hbits. destruct (Z.eq_dec w 0) as [->|Hne]; [by apply Z.pow_pos_nonneg|].
  apply Z.log2_lt_pow2; [lia|]. destruct (Z.lt_ge_cases (Z.log2 w) W) as [|Hge]; [done|].
  pose proof (Z.bit_log2 w ltac:(lia)). rewrite Hbits in * by lia. done.
Qed.

Lemma word_bits_high w i : 0 <= w < 2 ^ W -> W <= i -> Z.testbit w i = false.
Proof.
  intros [Hw Hlt] Hi. destruct (Z.eq_dec w 0) as [->|Hne]; [apply Z.bits_0|].
  apply Z.bits_above_log2; [lia|]. apply Z.log2_lt_pow2 in Hlt; lia.
Qed.

Lemma setbit_bound w b : 0 <= b < W -> 0 <= w < 2 ^ W -> 0 <= Z.setbit w b < 2 ^ W.
Proof.
  intros Hb Hw. assert (0 <= Z.setbit w b) as Hpos.
  { unfold Z.setbit. apply Z.lor_nonneg. split; [lia|]. apply Z.shiftl_nonneg. lia. }
  split; [done|]. apply bits_bound; [lia|done|]. intros i Hi.
  rewrite Z.setbit_neq by lia. by apply word_bits_high.
Qed.

Lemma clear_bit_bound w b :
  0 <= b < W -> 0 <= w < 2 ^ W -> uwrap W (Z.ldiff w (2 ^ b)) = Z.clearbit w b.
Proof.
  intros Hb Hw. replace (Z.ldiff w (2 ^ b)) with (Z.clearbit w b)
    by (unfold Z.clearbit; by rewrite Z.shiftl_1_l).
  apply uwrap_id. assert (0 <= Z.clearbit w b) as Hpos.
  { unfold Z.clearbit. apply Z.ldiff_nonneg. lia. }
  unfold in_u. apply andb_true_iff. split; [by apply Z.leb_le|]. apply Z.ltb_lt.
  apply bits_bound; [lia|done|]. intros i Hi. rewrite Z.clearbit_eqb by lia.
  by rewrite word_bits_high.
Qed.

Lemma epool_alloc_spec p a p' :
  epool_wf p -> sys_elastipool_api_alloc_static p = Some (a, p') ->
  (a ∉ epool_live p) /\ epool_live p' = {[a]} ∪ epool_live p /\
  ep_storage p' = ep_storage p /\ (forall b, epool_block p' b = epool_block p b) /\
  epool_wf p'.
Proof.
  intros Hwf. pose proof Hwf as ((w & Hw & Hwb) & ? & Hmin & _ & Hblk & _).
  unfold sys_elastipool_api_alloc_static. case_match; [done|]. rewrite Hw.
  cbn [sys_elastipool_bmp_alloc]. destruct (find_zero w (Z.to_nat (ep_min p)) 0) as [b|] eqn:Hz;
    [|done]. intros; simplify_eq. apply find_zero_Some in Hz as [Hb Hbit].
  split; [|split; [|split; [done|split; [done|]]]].
  - rewrite elem_of_live, (word0_one p w Hw). intros (c & ? & Hc & ?).
    assert (b = c) as -> by nia. congruence.
  - apply set_eq. intros x. rewrite elem_of_union, elem_of_singleton, !elem_of_live.
    rewrite (word0_one p w Hw). unfold word0. simpl. split.
    + intros (c & ? & Hc & ->). destruct (Z.eq_dec c b) as [->|Hne]; [by left|right].
      rewrite Z.setbit_neq in Hc by lia. eauto.
    + intros [->|(c & ? & Hc & ->)].
      * exists b. rewrite Z.setbit_eq by lia. split; [lia|done].
      * exists c. split; [done|]. split; [|done]. rewrite Z.setbit_eqb by lia.
        rewrite Hc. by rewrite orb_true_r.
  - apply epool_wf_word; [done|]. apply setbit_bound; [lia|done].
Qed.

Lemma epool_free_live p a :
  epool_wf p -> a ∈ epool_live p ->
  exists p', sys_elastipool_api_free_static p a = Some p' /\
    epool_live p' = epool_live p ∖ {[a]} /\
    ep_storage p' = ep_storage p /\ (forall b, epool_block p' b = epool_block p b) /\
    epool_wf p'.
Proof.
  intros Hwf (b & Hb & Hbit & ->)%elem_of_live.
  pose proof Hwf as ((w & Hw & Hwb) & ? & Hmin & _ & Hblk & _).
  unfold sys_elastipool_api_free_static, sys_elastipool_bmp_free.
  rewrite block_of_addr, bmp_check_word, Hbit, Hw by done.
  rewrite clear_bit_bound by (done || lia). eexists. split; [done|].
  split; [|split; [done|split; [done|]]].
  - apply set_eq. intros x. rewrite elem_of_difference, elem_of_singleton, !elem_of_live.
    rewrite (word0_one p w Hw). unfold word0. simpl. split.
    + intros (c & ? & Hc & ->). rewrite Z.clearbit_eqb in Hc by lia. bool_to_prop.
      split; [by eauto|]. intros ?. assert (b = c) as -> by nia. by rewrite Z.eqb_refl in *.
    + intros [(c & ? & Hc & ->) Hne]. exists c. split; [done|]. split; [|done].
      rewrite Z.clearbit_neq; [done|]. intros ->. done.
  - apply epool_wf_word; [done|]. rewrite <- clear_bit_bound by (done || lia).
    apply uwrap_range. lia.
Qed.

#[export] Instance epool_laws : ElastipoolLaws epool.
Proof.
  split; simpl.
  - intros p a Hwf (b & Hb & _ & ->)%elem_of_live. unfold epool_block.
    rewrite check_bit_addr by done. by ztests.
  - apply epool_check_spec.
  - apply epool_alloc_spec.
  - apply epool_free_live.
  - intros p a (_ & _ & _ & _ & ? & ? & _ & Hreg) (b & Hb & _ & ->)%elem_of_live.
    assert (ep_storage p / 2 ^ 32 <= (ep_storage p + b * ep_blk p) / 2 ^ 32)
      by (apply Z.div_le_mono; nia).
    assert ((ep_storage p + b * ep_blk p) / 2 ^ 32
            <= (ep_storage p + ep_min p * ep_blk p) / 2 ^ 32) by (apply Z.div_le_mono; nia).
    lia.
  - intros p a (_ & _ & _ & _ & ? & ? & _) (b & Hb & _ & ->)%elem_of_live. nia.
Qed.
End epool.
End Epool.

(** ** Handles: posix_pool.c and posix_internal.h *)

(** [POSIX_OBJ_INITIALIZER], (-1) as the [uint32_t] it is compared with. *)
Definition POSIX_OBJ_INITIALIZER : Z := 2 ^ 32 - 1.

(** The handle a pthread type stores: [(pthread_xxx_t)(uintptr_t)obj]. *)
Definition obj_handle (a : Z) : Z := uwrap 32 a.

Section posix_pool.
Context {P : Type} `{Elastipool P}.
(** [sizeof(uintptr_t)]. *)
Context (psz : Z).

Definition posix_get_pool_obj_unlocked (pool : P) (handle : Z) : option Z :=
  let checked ret := if pool_check pool ret then Some ret else None in
  if psz =? 4 then checked handle
  else if psz =? 8 then
    checked (Z.lor (Z.land (pool_storage pool) 0xffffffff00000000) handle)
  else None.

(** [cb], when given, initialises the fresh object in the object memory. *)
Definition posix_init_pool_obj_unlocked {M : Type} (pool : P) (mem : M) (handle : Z)
  (cb : option (Z -> M -> M)) : option Z * P * M :=
  if negb (handle =? POSIX_OBJ_INITIALIZER) then
    (posix_get_pool_obj_unlocked pool handle, pool, mem)
  else
    match pool_alloc pool with
    | None => (None, pool, mem)
    | Some (obj, pool') =>
        let mem' := match cb with
                    | Some f => if negb (obj =? 0) then f obj mem else mem
                    | None => mem
                    end in
        (if obj =? 0 then None else Some obj, pool', mem')
    end.

(** The locked variants hold the pool's semaphore around the unlocked ones;
    the calls are atomic transitions of the model. *)
Definition posix_get_pool_obj := posix_get_pool_obj_unlocked.
Definition posix_init_pool_obj {M : Type} := @posix_init_pool_obj_unlocked M.

(** [input] is the stored handle of [size] bytes, [ref] an address in the
    region of the objects. *)
Definition posix_to_kernel_object (input size ref : Z) : Z :=
  if psz =? size then input
  else if (psz =? 2 * size) && (4 =? size) then
    Z.lor (Z.land ref (Z.shiftl (2 ^ 32 - 1) 32)) (uwrap 32 input)
  else 0.

Definition posix_from_kernel_object (input size : Z) : Z :=
  if psz =? size then input
  else if psz =? 2 * size then Z.land input (2 ^ 32 - 1)
  else 0.

(** The conversions for mutexes, condition variables and threads, whose
    handles are 4 bytes; the pools are the references. *)
Definition to_k_mutex (sys_mutex_pool mu : Z) : Z := posix_to_kernel_object mu 4 sys_mutex_pool.
Definition to_pthread_mutex (kmu : Z) : Z := posix_from_kernel_object kmu 4.
Definition to_k_condvar (sys_condvar_pool cv : Z) : Z := posix_to_kernel_object cv 4 sys_condvar_pool.
Definition to_pthread_cond (kcv : Z) : Z := posix_from_kernel_object kcv 4.
Definition to_k_thread (sys_thread_pool th : Z) : Z := posix_to_kernel_object th 4 sys_thread_pool.
Definition to_pthread_thread (kth : Z) : Z := posix_from_kernel_object kth 4.

(** Joining the high half of [r] and the low half of [a]. *)
Lemma join_halves r a :
  0 <= r < 2 ^ 64 -> 0 <= a < 2 ^ 64 -> r / 2 ^ 32 = a / 2 ^ 32 ->
  Z.lor (Z.land r 0xffffffff00000000) (a mod 2 ^ 32) = a.
Proof.
  intros Hr Ha Heq. apply Z.bits_inj'. intros i Hi.
  rewrite Z.lor_spec, Z.land_spec.
  change 0xffffffff00000000 with (Z.shiftl (Z.ones 32) 32).
  rewrite Z.shiftl_spec by done.
  destruct (Z.lt_ge_cases i 32) as [Hlo|Hhi].
  - rewrite (Z.testbit_neg_r (Z.ones 32)) by lia. rewrite andb_false_r. simpl.
    by rewrite Z.mod_pow2_bits_low by lia.
  - rewrite Z.mod_pow2_bits_high by lia. rewrite orb_false_r.
    assert (Z.testbit r i = Z.testbit a i) as ->.
    { replace i with ((i - 32) + 32) by lia.
      rewrite <- !Z.div_pow2_bits by lia. by rewrite Heq. }
    destruct (Z.lt_ge_cases i 64) as [Hi64|Hi64].
    + rewrite Z.ones_spec_low by lia. apply andb_true_r.
    + rewrite Z.ones_spec_high by lia. rewrite andb_false_r. symmetry.
      destruct (Z.eq_dec a 0) as [->|Hne]; [apply Z.bits_0|].
      apply Z.bits_above_log2; [lia|].
      assert (Z.log2 a < 64) by (apply Z.log2_lt_pow2; lia). lia.
Qed.
End posix_pool.

Section pool_theorems.
Context {P : Type} `{ElastipoolLaws P}.

(** An address of a [psz]-byte pointer. *)
Definition is_addr (psz a : Z) : Prop := 0 <= a < 2 ^ (8 * psz).

Lemma obj_handle_resolves psz (p : P) a :
  psz = 4 \/ psz = 8 -> is_addr psz a -> is_addr psz (pool_storage p) ->
  pool_storage p / 2 ^ 32 = a / 2 ^ 32 ->
  posix_get_pool_obj psz p (obj_handle a) = if pool_check p a then Some a else None.
Proof.
  intros Hpsz Ha Hst Hreg. unfold posix_get_pool_obj, posix_get_pool_obj_unlocked, obj_handle.
  destruct Hpsz as [-> | ->]; simpl.
  - rewrite uwrap_id; [done|]. unfold in_u, is_addr in *. lia.
  - unfold uwrap, is_addr in *. by rewrite join_halves.
Qed.

(** A live object is reached through its handle. *)
Lemma pool_get_live psz (p : P) a :
  psz = 4 \/ psz = 8 -> pool_wf p -> a ∈ pool_live p ->
  is_addr psz a -> is_addr psz (pool_storage p) ->
  posix_get_pool_obj psz p (obj_handle a) = Some a.
Proof.
  intros Hpsz Hwf Hlive Ha Hst.
  rewrite obj_handle_resolves by (done || by eapply pool_live_region).
  assert (pool_check p a = true) as ->; [|done].
  apply pool_check_spec; [done|]. by rewrite pool_block_live.
Qed.

(** C19: For 32- and 64-bit pointers and a pool that keeps the elastipool
    contract, as a pool does whose blocks fit one word of its bitmap (a larger
    one breaks the contract when a block of a higher word is freed,
    epool_free_high_block_lost) and whose storage does not cross a boundary of
    4 GiB: an allocation yields an object that no live handle names, the
    32-bit handle of the new object resolves to exactly that object while it
    is allocated and to NULL before and after, and the handles of the other
    live objects keep their meaning. *)
Theorem pool_handle_lifecycle psz (p p1 p2 : P) a b :
  psz = 4 \/ psz = 8 -> pool_wf p ->
  pool_alloc p = Some (a, p1) -> pool_free p1 a = Some p2 ->
  is_addr psz a -> is_addr psz (pool_storage p) ->
  b ∈ pool_live p -> is_addr psz b ->
  posix_get_pool_obj psz p (obj_handle a) = None /\
  posix_get_pool_obj psz p1 (obj_handle a) = Some a /\
  posix_get_pool_obj psz p1 (obj_handle b) = Some b /\
  posix_get_pool_obj psz p2 (obj_handle a) = None /\
  posix_get_pool_obj psz p2 (obj_handle b) = Some b.
Proof.
  intros Hpsz Hwf Halloc Hfree Ha Hst Hb Hba.
  pose proof (pool_alloc_spec p a p1 Hwf Halloc) as (Hfresh & Hlive1 & Hst1 & Hblk1 & Hwf1).
  assert (a ∈ pool_live p1) as Ha1 by (rewrite Hlive1; set_solver).
  destruct (pool_free_live p1 a Hwf1 Ha1) as (p2' & Hp2 & Hlive2 & Hst2 & Hblk2 & Hwf2).
  rewrite Hfree in Hp2. injection Hp2 as <-.
  pose proof (pool_live_region p1 a Hwf1 Ha1) as Hreg. rewrite Hst1 in Hreg.
  assert (forall q : P, pool_wf q -> pool_storage q = pool_storage p ->
            (forall x, pool_block q x = pool_block p x) -> (a ∉ pool_live q) ->
            posix_get_pool_obj psz q (obj_handle a) = None) as Hnone.
  { intros q Hwfq Hstq Hblkq Hnq. rewrite obj_handle_resolves by (rewrite ?Hstq; done).
    destruct (pool_check q a) eqn:Hc; [|done]. apply pool_check_spec in Hc; [|done].
    rewrite Hblkq, <- Hblk1, pool_block_live in Hc by done. done. }
  split; [by apply Hnone|]. split; [by apply pool_get_live; rewrite ?Hst1|].
  split; [apply pool_get_live; rewrite ?Hst1, ?Hlive1; try done; set_solver|]. split.
  - apply Hnone; [done|by rewrite Hst2|intros; by rewrite Hblk2|rewrite Hlive2; set_solver].
  - apply pool_get_live; rewrite ?Hst2, ?Hst1, ?Hlive2, ?Hlive1; try done. set_solver.
Qed.

(** posix_from_kernel_object and posix_to_kernel_object are inverse on
    the addresses of a region: a kernel object put in a pthread handle of 4
    bytes (or of pointer size) is recovered with any reference address of
    the same 4 GiB region, and distinct objects have distinct handles. *)
Theorem kernel_object_roundtrip psz size ref a b :
  psz = 4 \/ psz = 8 -> size = 4 \/ size = psz ->
  is_addr psz ref -> is_addr psz a -> is_addr psz b ->
  ref / 2 ^ 32 = a / 2 ^ 32 -> ref / 2 ^ 32 = b / 2 ^ 32 ->
  posix_to_kernel_object psz (posix_from_kernel_object psz a size) size ref = a /\
  (posix_from_kernel_object psz a size = posix_from_kernel_object psz b size -> a = b).
Proof.
  intros Hp Hs Hr Ha Hb Hra Hrb.
  assert (forall x, is_addr psz x -> ref / 2 ^ 32 = x / 2 ^ 32 ->
    posix_to_kernel_object psz (posix_from_kernel_object psz x size) size ref = x) as Hrt.
  { intros x Hx Hrx. unfold posix_to_kernel_object, posix_from_kernel_object, is_addr in *.
    replace (Z.land x (2 ^ 32 - 1)) with (x mod 2 ^ 32)
      by (change (2 ^ 32 - 1) with (Z.ones 32); by rewrite Z.land_ones).
    destruct Hp as [-> | ->], Hs as [-> | ->]; try done.
    change (Z.lor (Z.land ref 0xffffffff00000000) (uwrap 32 (x mod 2 ^ 32)) = x).
    unfold uwrap. rewrite Zmod_mod. by apply join_halves. }
  split; [by apply Hrt|]. intros Heq. rewrite <- (Hrt a), Heq by done. by apply Hrt.
Qed.
End pool_theorems.

(** ** Witnesses *)

(** A pool of four 16-byte objects at 0x100000080, one of them in use. *)
Definition pool4 : Epool.epool := Epool.mk_epool [1] 1 4 4 0x100000080 16.

Lemma pool4_wf : Epool.epool_wf 64 pool4.
Proof. split; [by exists 1|]. by repeat split. Qed.

#[local] Instance epool64 : Elastipool Epool.epool := Epool.epool_elastipool 64.
#[local] Instance epool64_laws : ElastipoolLaws Epool.epool := Epool.epool_laws 64.

Lemma pool_handle_lifecycle_witness :
  exists p1 p2 : Epool.epool,
    posix_get_pool_obj 8 p1 (obj_handle 0x100000090) = Some 0x100000090 /\
    posix_get_pool_obj 8 p2 (obj_handle 0x100000090) = None.
Proof.
  exists (Epool.mk_epool [3] 2 4 4 0x100000080 16), pool4.
  pose proof (pool_handle_lifecycle 8 pool4 (Epool.mk_epool [3] 2 4 4 0x100000080 16)
    pool4 0x100000090 0x100000080 (or_intror eq_refl) pool4_wf eq_refl eq_refl) as Hl.
  destruct Hl as (_ & H1 & _ & H2 & _); [by split|by split| |by split|].
  - apply Epool.elem_of_live. exists 0. by repeat split.
  - by split.
Defined.

Lemma kernel_object_roundtrip_witness :
  posix_to_kernel_object 8 (posix_from_kernel_object 8 0x1234500006789 4) 4 0x1234500000000
  = 0x1234500006789.
Proof.
  apply (kernel_object_roundtrip 8 4 0x1234500000000 0x1234500006789 0x1234500000001);
    [by right|by left|by split..|reflexivity|reflexivity].
Defined.

(** Freeing a block beyond the first bitmap word has no effect: in a
    32-bit pool of 33 blocks with all of them in use, sys_elastipool_bmp_free
    of block 32 reports success but masks the first word, in which it clears
    nothing, so the block stays allocated and is never handed out again. *)
Lemma epool_free_high_block_lost :
  let full := Epool.mk_epool [2 ^ 32 - 1; 1] 33 33 33 0x1000 16 in
  exists p', Epool.sys_elastipool_api_free_static 32 full (0x1000 + 32 * 16) = Some p' /\
    Epool.sys_elastipool_api_check_static 32 p' (0x1000 + 32 * 16) = true /\
    Epool.sys_elastipool_api_alloc_static 32 p' = None.
Proof. eexists. split; [reflexivity|]. split; reflexivity. Qed.
