(* ===== verification/Clock.v ===== *)
(** * Clocks and time values

    Model of [timers/posix_clock.h], [timers/clock.c],
    [timers/getcpuclockid.c], [shared/timespec_to_timeout.c],
    [shared/timeval_to_timespec.c], of clock_nanosleep in
    [clock_selection/clock_selection.c], of gettimeofday in
    [xsi_single_process/xsi_single_process.c] and of sleep in
    [multi_process/sleep.c].

    [time_t] has 64 bits; [ts_to_ns] computes in [int64_t], so its result is
    wrapped as the hardware does and the theorems state when it is exact.
    The sys_clock functions and the timespec helpers of Zephyr's timeutil.h
    are parameters. *)

From stdpp Require Import base list.
From Stdlib Require Import ZArith Lia.
From S2P Require Import Prelude.

Local Open Scope Z_scope.

Definition NSEC_PER_SEC : Z := 1000000000.
Definition NSEC_PER_MSEC : Z := 1000000.
Definition NSEC_PER_USEC : Z := 1000.
Definition MSEC_PER_SEC : Z := 1000.
Definition USEC_PER_SEC : Z := 1000000.
Definition UINT32_MAX : Z := 2 ^ 32 - 1.

Record timespec := mk_timespec { tv_sec : Z; tv_nsec : Z }.
Record timeval := mk_timeval { tvl_sec : Z; tvl_usec : Z }.

#[export] Instance timespec_eq_dec : EqDecision timespec.
Proof. solve_decision. Defined.

(** The POSIX clock identifiers, and the kernel's. *)
Inductive clockid :=
  | CLOCK_REALTIME | CLOCK_MONOTONIC | CLOCK_PROCESS_CPUTIME_ID | CLOCK_THREAD_CPUTIME_ID
  | CLOCK_OTHER (id : Z).
Inductive sys_clock := SYS_CLOCK_REALTIME | SYS_CLOCK_MONOTONIC.

#[export] Instance clockid_eq_dec : EqDecision clockid.
Proof. solve_decision. Defined.

(** C division truncates towards zero. *)
Definition ts_to_ns (ts : timespec) : Z :=
  swrap 64 (swrap 64 (tv_sec ts * NSEC_PER_SEC) + tv_nsec ts).

Definition ts_to_ms (ts : timespec) : Z :=
  swrap 64 (swrap 64 (tv_sec ts * MSEC_PER_SEC) + Z.quot (tv_nsec ts) NSEC_PER_MSEC).

Definition tv_to_ts (tv : timeval) : timespec :=
  mk_timespec (tvl_sec tv) (tvl_usec tv * NSEC_PER_USEC).

Definition tp_diff (a b : timespec) : Z := swrap 64 (ts_to_ns a - ts_to_ns b).

Definition tp_diff_in_range_ns (a b : timespec) (lo hi : Z) : bool :=
  let diff := tp_diff a b in (lo <=? diff) && (diff <? hi).

(** With [_POSIX_MONOTONIC_CLOCK] defined. *)
Definition sys_clock_from_clockid (c : clockid) : option sys_clock :=
  match c with
  | CLOCK_REALTIME => Some SYS_CLOCK_REALTIME
  | CLOCK_MONOTONIC => Some SYS_CLOCK_MONOTONIC
  | _ => None
  end.

Definition clamp (x lo hi : Z) : Z := if x <? lo then lo else if hi <? x then hi else x.

Section clock.
(** Zephyr's clock services: [None] is the -EINVAL clock identifier. *)
Context (sys_clock_gettime : option sys_clock -> res timespec).
Context (sys_clock_settime : option sys_clock -> timespec -> res unit).
Context (sys_clock_nanosleep : option sys_clock -> Z -> timespec -> res timespec).
Context (timespec_compare : timespec -> timespec -> Z).
Context (timespec_normalize : timespec -> timespec * bool).
(** [k_usleep(us)] returns the microseconds, [k_sleep(K_SECONDS(s))] the
    milliseconds not slept. *)
Context (k_usleep k_sleep_seconds : Z -> Z).
(** [CONFIG_SYS_CLOCK_TICKS_PER_SEC] *)
Context (ticks_per_sec : Z).

Definition tp_ge (a b : timespec) : bool := 0 <=? timespec_compare a b.

Definition timeval_to_timespec (tv : timeval) : timespec * bool :=
  timespec_normalize (mk_timespec (tvl_sec tv) (tvl_usec tv * NSEC_PER_USEC)).

Definition timespec_to_timeoutms (c : clockid) (abstime : timespec) : Z :=
  match sys_clock_gettime (sys_clock_from_clockid c) with
  | Err _ => 0
  | Ok curtime => clamp (Z.quot (tp_diff abstime curtime) NSEC_PER_MSEC) 0 UINT32_MAX
  end.

Definition clock_gettime (c : clockid) : res timespec :=
  sys_clock_gettime (sys_clock_from_clockid c).

(** [res] may be NULL: the resolution is then only validated. *)
Definition clock_getres (c : clockid) (want : bool) : res (option timespec) :=
  match c with
  | CLOCK_MONOTONIC | CLOCK_REALTIME | CLOCK_PROCESS_CPUTIME_ID =>
      Ok (if want then Some (mk_timespec 0 (Z.quot NSEC_PER_SEC ticks_per_sec)) else None)
  | _ => Err EINVAL
  end.

Definition clock_settime (c : clockid) (tp : timespec) : res unit :=
  sys_clock_settime (sys_clock_from_clockid c) tp.

Definition usleep (useconds : Z) : res unit :=
  if USEC_PER_SEC <=? useconds then Err EINVAL
  else if 0 <? k_usleep useconds then Err EINTR else Ok tt.

Definition nanosleep (rqtp : option timespec) : res unit :=
  match rqtp with
  | None => Err EFAULT
  | Some ts =>
      match sys_clock_nanosleep (Some SYS_CLOCK_REALTIME) 0 ts with
      | Err e => Err e
      | Ok _ => Ok tt
      end
  end.

Definition clock_nanosleep (c : clockid) (flags : Z) (rqtp : option timespec) : res unit :=
  match rqtp with
  | None => Err EFAULT
  | Some ts =>
      match sys_clock_nanosleep (sys_clock_from_clockid c) flags ts with
      | Err e => Err e
      | Ok _ => Ok tt
      end
  end.

Definition gettimeofday : res timeval :=
  match sys_clock_gettime (Some SYS_CLOCK_REALTIME) with
  | Err e => Err e
  | Ok ts => Ok (mk_timeval (tv_sec ts) (Z.quot (tv_nsec ts) NSEC_PER_USEC))
  end.

(** sleep() returns whole seconds of the milliseconds left. *)
Definition sleep (seconds : Z) : Z := Z.quot (k_sleep_seconds seconds) MSEC_PER_SEC.

(** [multi_process] is CONFIG_POSIX_MULTI_PROCESS, [getpid] its process id. *)
Definition clock_getcpuclockid (multi_process : bool) (getpid pid : Z) : res clockid :=
  if negb (pid =? 0) && (negb multi_process || negb (pid =? getpid)) then Err EPERM
  else Ok CLOCK_PROCESS_CPUTIME_ID.

(** [native] is CONFIG_NATIVE_LIBC; [clock_null] that the argument is NULL. *)
Definition pthread_getcpuclockid (native clock_null : bool) : res clockid :=
  if negb native && clock_null then Err EINVAL else Ok CLOCK_THREAD_CPUTIME_ID.

(** *** Exactness *)

(** A time whose nanoseconds fit [int64_t]. *)
Definition ts_ok (ts : timespec) : Prop :=
  0 <= tv_nsec ts < NSEC_PER_SEC /\ -9223372036 < tv_sec ts < 9223372036.

Lemma ts_to_ns_exact ts : ts_ok ts -> ts_to_ns ts = tv_sec ts * NSEC_PER_SEC + tv_nsec ts.
Proof.
  unfold ts_ok, ts_to_ns, NSEC_PER_SEC. intros [? ?].
  rewrite (swrap64_id (_ * _)) by lia. rewrite swrap64_id; lia.
Qed.

Lemma ts_to_ms_exact ts :
  ts_ok ts -> ts_to_ms ts = tv_sec ts * MSEC_PER_SEC + tv_nsec ts / NSEC_PER_MSEC.
Proof.
  unfold ts_ok, ts_to_ms, NSEC_PER_SEC, NSEC_PER_MSEC, MSEC_PER_SEC. intros [? ?].
  rewrite Z.quot_div_nonneg by lia.
  assert (0 <= tv_nsec ts / 1000000 <= 1000) by
    (split; [apply Z.div_pos; lia|apply Z.div_le_upper_bound; lia]).
  rewrite (swrap64_id (_ * _)) by lia. rewrite swrap64_id; lia.
Qed.

(** Times whose distance from now also fits: half the range of [int64_t]. *)
Definition ts_near (ts : timespec) : Prop :=
  0 <= tv_nsec ts < NSEC_PER_SEC /\ 0 <= tv_sec ts < 9223372035.

Lemma tp_diff_exact a b :
  ts_near a -> ts_near b ->
  tp_diff a b = (tv_sec a - tv_sec b) * NSEC_PER_SEC + (tv_nsec a - tv_nsec b).
Proof.
  intros Ha Hb. unfold tp_diff, ts_near in *.
  rewrite !ts_to_ns_exact by (unfold ts_ok; unfold NSEC_PER_SEC in *; lia).
  unfold NSEC_PER_SEC in *. rewrite swrap64_id; lia.
Qed.

(** The relative timeout computed from an absolute time is the remaining
    time in whole milliseconds, saturated: 0 for a deadline that has passed,
    UINT32_MAX (which the callers read as "forever") for one at least 2^32-1
    ms ahead, and otherwise within one millisecond below the real distance. *)
Lemma timespec_to_timeoutms_spec c abstime now :
  sys_clock_gettime (sys_clock_from_clockid c) = Ok now ->
  ts_near abstime -> ts_near now ->
  let left := (tv_sec abstime - tv_sec now) * NSEC_PER_SEC
              + (tv_nsec abstime - tv_nsec now) in
  let ms := timespec_to_timeoutms c abstime in
  (0 <= ms <= UINT32_MAX) /\
  (left <= 0 -> ms = 0) /\
  (UINT32_MAX * NSEC_PER_MSEC <= left -> ms = UINT32_MAX) /\
  (0 <= left < UINT32_MAX * NSEC_PER_MSEC ->
     ms * NSEC_PER_MSEC <= left < (ms + 1) * NSEC_PER_MSEC).
Proof.
  intros Hnow Ha Hn left ms. subst ms. unfold timespec_to_timeoutms. rewrite Hnow.
  rewrite tp_diff_exact by done. fold left. generalize left. clear left. intros left.
  unfold clamp, UINT32_MAX, NSEC_PER_MSEC.
  destruct (Z.le_gt_cases 0 left) as [Hp|Hp].
  - rewrite Z.quot_div_nonneg by lia. pose proof (Z.div_mod left 1000000).
    pose proof (Z.mod_pos_bound left 1000000). repeat case_match; lia.
  - assert (Z.quot left 1000000 <= 0).
    { apply Z.opp_nonneg_nonpos. rewrite <- Z.quot_opp_l by lia. apply Z.quot_pos; lia. }
    repeat case_match; lia.
Qed.
End clock.

Lemma timespec_to_timeoutms_spec_witness :
  timespec_to_timeoutms (fun _ => Ok (mk_timespec 10 0)) CLOCK_REALTIME
    (mk_timespec 9 0) = 0.
Proof.
  apply (timespec_to_timeoutms_spec (fun _ => Ok (mk_timespec 10 0)) CLOCK_REALTIME
           (mk_timespec 9 0) (mk_timespec 10 0));
    [reflexivity|unfold ts_near, NSEC_PER_SEC; simpl; lia..].
Defined.
