(* ===== verification/Rwlock.v ===== *)
(** * Read-write locks

    Model of [lib/posix/options/rw_locks/rwlock.c].

    The lock of the source is three semaphores and an owner.  The functions
    [read_lock_acquire], [write_lock_acquire] and [rwlock_unlock] follow the
    bodies of the C functions; waiting is expressed by what the semaphores
    hold when an attempt is made, so that a blocking call is an attempt made
    when it can succeed.  Two transition systems use them:
    - [Calls]: threads execute the calls one at a time, a writer being able
      to wait between its two semaphores;
    - [Micro]: every semaphore operation is a step of its own, and the
      operations of different threads interleave. *)

From stdpp Require Import base list gmap functions.
From Stdlib Require Import ZArith Lia.
From S2P Require Import Prelude Kernel Pool Clock.

Local Open Scope Z_scope.

(** k_tid_t: the address of a thread object. *)
Abbreviation tid := Z (only parsing).

Section rwlock.
Context {S : Type} `{KSem S}.
(** [CONCURRENT_READER_LIMIT], CONFIG_POSIX_THREAD_THREADS_MAX + 1. *)
Context (limit : Z).

Record posix_rwlock := mk_rwlock {
  rd_sem : S;
  wr_sem : S;
  reader_active : S;
  wr_owner : option tid;
}.

Definition set_rd (s : S) (r : posix_rwlock) : posix_rwlock :=
  mk_rwlock s (wr_sem r) (reader_active r) (wr_owner r).
Definition set_wr (s : S) (r : posix_rwlock) : posix_rwlock :=
  mk_rwlock (rd_sem r) s (reader_active r) (wr_owner r).
Definition set_active (s : S) (r : posix_rwlock) : posix_rwlock :=
  mk_rwlock (rd_sem r) (wr_sem r) s (wr_owner r).
Definition set_owner (o : option tid) (r : posix_rwlock) : posix_rwlock :=
  mk_rwlock (rd_sem r) (wr_sem r) (reader_active r) o.

(** The initialisation part of pthread_rwlock_init. *)
Definition rwlock_fields_init : posix_rwlock :=
  mk_rwlock (ksem_init limit limit) (ksem_init 1 1) (ksem_init 1 1) None.

Definition read_lock_acquire (rwl : posix_rwlock) : posix_rwlock * res unit :=
  match ksem_take (wr_sem rwl) with
  | Some w =>
      let r1 := set_wr w rwl in
      let r2 := set_active (ksem_try (reader_active r1)) r1 in
      let r3 := set_rd (ksem_try (rd_sem r2)) r2 in
      (set_wr (ksem_give (wr_sem r3)) r3, Ok tt)
  | None => (rwl, Err EBUSY)
  end.

(** The time left for the second semaphore; SYS_FOREVER_MS is UINT32_MAX as
    the [uint32_t] it is compared with. *)
Definition write_lock_remaining (timeout elapsed : Z) : Z :=
  if negb (timeout =? UINT32_MAX) then
    (if timeout <=? elapsed then 0 else uwrap 32 (timeout - elapsed))
  else timeout.

(** The first half of write_lock_acquire: taking [wr_sem]. *)
Definition write_lock_first (rwl : posix_rwlock) : option posix_rwlock :=
  match ksem_take (wr_sem rwl) with
  | Some w => Some (set_wr w rwl)
  | None => None
  end.

(** The second half, with [wr_sem] held: wait for the readers, or give up. *)
Definition write_lock_second (cur : tid) (rwl : posix_rwlock) : posix_rwlock * res unit :=
  match ksem_take (reader_active rwl) with
  | Some a => (set_owner (Some cur) (set_active a rwl), Ok tt)
  | None => (set_wr (ksem_give (wr_sem rwl)) rwl, Err EBUSY)
  end.

(** [waiting] is what the other threads do to the lock while the caller,
    holding [wr_sem], waits for [reader_active]. *)
Definition write_lock_acquire (cur : tid) (waiting : posix_rwlock -> posix_rwlock)
  (rwl : posix_rwlock) : posix_rwlock * res unit :=
  match write_lock_first rwl with
  | Some r1 => write_lock_second cur (waiting r1)
  | None => (rwl, Err EBUSY)
  end.

(** The body of pthread_rwlock_unlock after the handle is resolved. *)
Definition rwlock_unlock (cur : tid) (rwl : posix_rwlock) : posix_rwlock :=
  if bool_decide (wr_owner rwl = Some cur) then
    let r1 := set_owner None rwl in
    let r2 := set_active (ksem_give (reader_active r1)) r1 in
    set_wr (ksem_give (wr_sem r2)) r2
  else
    let r1 := set_rd (ksem_give (rd_sem rwl)) rwl in
    if ksem_count (rd_sem r1) =? limit then
      set_active (ksem_give (reader_active r1)) r1
    else r1.

(** ** The public functions: handles and pool *)

Section api.
Context {P : Type} `{Elastipool P} (psz : Z).
Context (timespec_is_valid : timespec -> bool).

(** The pool and the memory of its objects. *)
Record rwlocks := mk_rwlocks { rw_pool : P; rw_mem : Z -> posix_rwlock }.

Definition rw_put (a : Z) (r : posix_rwlock) (st : rwlocks) : rwlocks :=
  mk_rwlocks (rw_pool st) (<[a := r]> (rw_mem st)).

Definition rw_get (st : rwlocks) (handle : Z) : option Z :=
  posix_get_pool_obj psz (rw_pool st) handle.

(** Returns the handle stored in [*rwlock]. *)
Definition pthread_rwlock_init (st : rwlocks) : rwlocks * res Z :=
  match posix_init_pool_obj psz (rw_pool st) (rw_mem st) POSIX_OBJ_INITIALIZER None with
  | (None, pool', mem') => (mk_rwlocks pool' mem', Err ENOMEM)
  | (Some a, pool', mem') =>
      (rw_put a rwlock_fields_init (mk_rwlocks pool' mem'), Ok (obj_handle a))
  end.

Definition pthread_rwlock_destroy (st : rwlocks) (handle : Z) : rwlocks * res unit :=
  match rw_get st handle with
  | None => (st, Err EINVAL)
  | Some a =>
      match wr_owner (rw_mem st a) with
      | Some _ => (st, Err EBUSY)
      | None =>
          match pool_free (rw_pool st) a with
          | Some pool' => (mk_rwlocks pool' (rw_mem st), Ok tt)
          | None => (st, Ok tt)
          end
      end
  end.

(** Run [f] on the lock of a handle. *)
Definition with_rwlock (st : rwlocks) (handle : Z)
  (f : posix_rwlock -> posix_rwlock * res unit) : rwlocks * res unit :=
  match rw_get st handle with
  | None => (st, Err EINVAL)
  | Some a => let '(r', ret) := f (rw_mem st a) in (rw_put a r' st, ret)
  end.

(** A failed attempt is EBUSY for the try variants and ETIMEDOUT for the
    timed ones. *)
Definition as_timed (x : posix_rwlock * res unit) : posix_rwlock * res unit :=
  match x with
  | (r, Ok u) => (r, Ok u)
  | (r, Err _) => (r, Err ETIMEDOUT)
  end.

Definition pthread_rwlock_tryrdlock (st : rwlocks) (handle : Z) :=
  with_rwlock st handle read_lock_acquire.

Definition pthread_rwlock_rdlock (st : rwlocks) (handle : Z) :=
  with_rwlock st handle read_lock_acquire.

Definition pthread_rwlock_timedrdlock (st : rwlocks) (handle : Z) (abstime : option timespec) :=
  match abstime with
  | None => (st, Err EINVAL)
  | Some ts =>
      if negb (timespec_is_valid ts) then (st, Err EINVAL)
      else with_rwlock st handle (fun r => as_timed (read_lock_acquire r))
  end.

Definition pthread_rwlock_trywrlock (cur : tid) (st : rwlocks) (handle : Z) :=
  with_rwlock st handle (write_lock_acquire cur id).

Definition pthread_rwlock_wrlock (cur : tid) (waiting : posix_rwlock -> posix_rwlock)
  (st : rwlocks) (handle : Z) :=
  with_rwlock st handle (write_lock_acquire cur waiting).

Definition pthread_rwlock_timedwrlock (cur : tid) (waiting : posix_rwlock -> posix_rwlock)
  (st : rwlocks) (handle : Z) (abstime : option timespec) :=
  match abstime with
  | None => (st, Err EINVAL)
  | Some ts =>
      if negb (timespec_is_valid ts) then (st, Err EINVAL)
      else with_rwlock st handle (fun r => as_timed (write_lock_acquire cur waiting r))
  end.

Definition pthread_rwlock_unlock (cur : tid) (st : rwlocks) (handle : Z) :=
  with_rwlock st handle (fun r => (rwlock_unlock cur r, Ok tt)).
End api.

(** ** Attributes *)

Definition PTHREAD_PROCESS_PRIVATE : Z := 0.
Definition PTHREAD_PROCESS_SHARED : Z := 1.

Record posix_rwlockattr := mk_rwlockattr { rwa_initialized : bool; rwa_pshared : Z }.

Definition pthread_rwlockattr_getpshared (a : option posix_rwlockattr) : res Z :=
  match a with
  | Some x => if rwa_initialized x then Ok (rwa_pshared x) else Err EINVAL
  | None => Err EINVAL
  end.

Definition pthread_rwlockattr_setpshared (a : option posix_rwlockattr) (pshared : Z)
  : res posix_rwlockattr :=
  match a with
  | Some x =>
      if negb (rwa_initialized x) then Err EINVAL
      else if negb ((pshared =? PTHREAD_PROCESS_PRIVATE) || (pshared =? PTHREAD_PROCESS_SHARED))
      then Err EINVAL
      else Ok (mk_rwlockattr (rwa_initialized x) pshared)
  | None => Err EINVAL
  end.

Definition pthread_rwlockattr_init (a : option posix_rwlockattr) : res posix_rwlockattr :=
  match a with
  | Some _ => Ok (mk_rwlockattr true PTHREAD_PROCESS_PRIVATE)
  | None => Err EINVAL
  end.

Definition pthread_rwlockattr_destroy (a : option posix_rwlockattr) : res posix_rwlockattr :=
  match a with
  | Some x => if rwa_initialized x then Ok (mk_rwlockattr false 0) else Err EINVAL
  | None => Err EINVAL
  end.
End rwlock.

Arguments posix_rwlock S : clear implicits.
Arguments rwlocks S P : clear implicits.
Arguments mk_rwlocks {S P} _ _.

(** ** Calls executed one at a time *)

Module Calls.
Section calls.
Context {S : Type} `{KSemLaws S} (limit : Z).

(** The lock and who holds it: every read lock held, the writer, and the
    writer that owns [wr_sem] and waits for the readers. *)
Record rw_sys := mk_rw_sys {
  lock : posix_rwlock S;
  readers : list tid;
  writer : option tid;
  waiter : option tid;
}.

(** What a thread may do, given that it releases only what it holds and that
    at most [limit] read locks are held (the documented precondition). *)
Inductive rw_step : rw_sys -> rw_sys -> Prop :=
  | step_rdlock t r rs w q r' :
      read_lock_acquire r = (r', Ok tt) -> Z.of_nat (length rs) < limit ->
      rw_step (mk_rw_sys r rs w q) (mk_rw_sys r' (t :: rs) w q)
  | step_rdlock_busy r rs w q r' :
      read_lock_acquire r = (r', Err EBUSY) ->
      rw_step (mk_rw_sys r rs w q) (mk_rw_sys r' rs w q)
  | step_wr_first t r rs w r' :
      write_lock_first r = Some r' ->
      rw_step (mk_rw_sys r rs w None) (mk_rw_sys r' rs w (Some t))
  | step_wr_second t r rs w r' :
      write_lock_second t r = (r', Ok tt) ->
      rw_step (mk_rw_sys r rs w (Some t)) (mk_rw_sys r' rs (Some t) None)
  | step_wr_timeout t r rs w r' :
      write_lock_second t r = (r', Err EBUSY) ->
      rw_step (mk_rw_sys r rs w (Some t)) (mk_rw_sys r' rs w None)
  | step_rdunlock t r rs1 rs2 w q :
      w <> Some t ->
      rw_step (mk_rw_sys r (rs1 ++ t :: rs2) w q)
              (mk_rw_sys (rwlock_unlock limit t r) (rs1 ++ rs2) w q)
  | step_wrunlock t r rs q :
      rw_step (mk_rw_sys r rs (Some t) q)
              (mk_rw_sys (rwlock_unlock limit t r) rs None q).

Definition rw_init : rw_sys := mk_rw_sys (rwlock_fields_init limit) [] None None.

Definition b2z (b : bool) : Z := if b then 1 else 0.

(** Close the clauses of the invariant after a change of the semaphores. *)
Ltac rw_clauses :=
  simpl in *;
  rewrite ?ksem_init_count, ?ksem_init_limit, ?ksem_give_count, ?ksem_give_limit,
    ?ksem_try_limit, ?ksem_try_count by lia;
  unfold b2z in *; repeat case_bool_decide; simpl in *; try done; try lia;
  try (by intros [? ?]).

(** The counts of the semaphores are determined by who holds the lock. *)
Record rw_inv (s : rw_sys) : Prop := {
  inv_rd_limit : ksem_limit (rd_sem (lock s)) = limit;
  inv_wr_limit : ksem_limit (wr_sem (lock s)) = 1;
  inv_act_limit : ksem_limit (reader_active (lock s)) = 1;
  inv_rd_count : ksem_count (rd_sem (lock s)) = limit - Z.of_nat (length (readers s));
  inv_readers : Z.of_nat (length (readers s)) <= limit;
  inv_wr_count :
    ksem_count (wr_sem (lock s)) = 1 - b2z (bool_decide (is_Some (writer s)))
                                     - b2z (bool_decide (is_Some (waiter s)));
  inv_act_count :
    ksem_count (reader_active (lock s)) =
      1 - b2z (bool_decide (is_Some (writer s) \/ readers s <> []));
  inv_owner : wr_owner (lock s) = writer s;
  inv_excl : is_Some (writer s) -> readers s = [] /\ waiter s = None;
}.

Lemma rw_init_inv : 0 <= limit -> rw_inv rw_init.
Proof.
  intros. split; rw_clauses.
Qed.

Lemma rdlock_inv t r rs w q r' :
  rw_inv (mk_rw_sys r rs w q) -> read_lock_acquire r = (r', Ok tt) ->
  Z.of_nat (length rs) < limit -> rw_inv (mk_rw_sys r' (t :: rs) w q).
Proof.
  intros [? ? ? Hrc Hrl Hwc Hac Hown Hex] Hacq Hlen. unfold read_lock_acquire in Hacq.
  destruct (ksem_take (wr_sem r)) as [wsem|] eqn:Ht; [|done]. injection Hacq as <-.
  apply ksem_take_Some in Ht as (Hpos & Hc & Hl).
  assert (w = None /\ q = None) as [-> ->].
  { destruct w, q; simpl in *; try done; lia. }
  assert (0 <= ksem_count (reader_active r)) by (simpl in Hac; rw_clauses).
  split; rw_clauses.
Qed.

Lemma wr_first_inv t r rs w r' :
  rw_inv (mk_rw_sys r rs w None) -> write_lock_first r = Some r' ->
  rw_inv (mk_rw_sys r' rs w (Some t)).
Proof.
  intros [? ? ? Hrc Hrl Hwc Hac Hown Hex]. unfold write_lock_first.
  destruct (ksem_take (wr_sem r)) as [wsem|] eqn:Ht; [|done]. intros [= <-].
  apply ksem_take_Some in Ht as (Hpos & Hc & Hl).
  assert (w = None) as -> by (destruct w; simpl in *; [lia|done]).
  split; rw_clauses.
Qed.

Lemma wr_second_inv t r rs w r' :
  rw_inv (mk_rw_sys r rs w (Some t)) -> write_lock_second t r = (r', Ok tt) ->
  rw_inv (mk_rw_sys r' rs (Some t) None).
Proof.
  intros [? ? ? Hrc Hrl Hwc Hac Hown Hex]. unfold write_lock_second.
  destruct (ksem_take (reader_active r)) as [asem|] eqn:Ht; [|done]. intros [= <-].
  apply ksem_take_Some in Ht as (Hpos & Hc & Hl).
  assert (w = None) as ->.
  { destruct w as [u|]; [|done]. destruct Hex as [_ ?]; [by eexists|done]. }
  rewrite bool_decide_decide in Hac. destruct (decide _) as [|Hno]; simpl in *; [lia|].
  assert (rs = []) as -> by (destruct rs; [done|]; destruct Hno; by right).
  split; rw_clauses.
Qed.

Lemma wr_timeout_inv t r rs w r' :
  rw_inv (mk_rw_sys r rs w (Some t)) -> write_lock_second t r = (r', Err EBUSY) ->
  rw_inv (mk_rw_sys r' rs w None).
Proof.
  intros [? ? ? Hrc Hrl Hwc Hac Hown Hex]. unfold write_lock_second.
  destruct (ksem_take (reader_active r)) as [asem|] eqn:Ht; [done|]. intros [= <-].
  assert (w = None) as ->.
  { destruct w as [u|]; [|done]. destruct Hex as [_ ?]; [by eexists|done]. }
  split; rw_clauses.
Qed.

Lemma rdunlock_inv t r rs1 rs2 w q :
  rw_inv (mk_rw_sys r (rs1 ++ t :: rs2) w q) -> w <> Some t ->
  rw_inv (mk_rw_sys (rwlock_unlock limit t r) (rs1 ++ rs2) w q).
Proof.
  intros [? ? ? Hrc Hrl Hwc Hac Hown Hex] Hne. simpl in *.
  assert (w = None) as ->.
  { destruct w as [u|]; [|done]. destruct Hex as [Hnil _]; [by eexists|].
    by destruct rs1. }
  assert (length (rs1 ++ t :: rs2) = Datatypes.S (length (rs1 ++ rs2))) as Hlen.
  { rewrite !length_app. simpl. lia. }
  rewrite Hlen in *. rewrite bool_decide_eq_true_2 in Hac
    by (right; by destruct rs1). simpl in Hac.
  clear Hex Hlen. generalize dependent (rs1 ++ rs2). intros rs Hrc Hrl.
  unfold rwlock_unlock. rewrite bool_decide_eq_false_2 by congruence. simpl.
  rewrite ksem_give_count. destruct (Z.eqb_spec (Z.min (ksem_count (rd_sem r) + 1)
    (ksem_limit (rd_sem r))) limit); destruct rs as [|x rs]; simpl in *; try lia;
    split; rw_clauses; naive_solver.
Qed.

Lemma wrunlock_inv t r rs q :
  rw_inv (mk_rw_sys r rs (Some t) q) ->
  rw_inv (mk_rw_sys (rwlock_unlock limit t r) rs None q).
Proof.
  intros [? ? ? Hrc Hrl Hwc Hac Hown Hex]. simpl in *.
  destruct Hex as [-> ->]; [by eexists|].
  unfold rwlock_unlock. rewrite bool_decide_eq_true_2 by done. split; rw_clauses.
Qed.

Lemma rw_step_inv s s' : rw_inv s -> rw_step s s' -> rw_inv s'.
Proof.
  intros Hinv Hstep. destruct Hstep.
  - by eapply rdlock_inv.
  - unfold read_lock_acquire in *. by case_match; simplify_eq.
  - by eapply wr_first_inv.
  - by eapply wr_second_inv.
  - by eapply wr_timeout_inv.
  - by eapply rdunlock_inv.
  - by apply wrunlock_inv.
Qed.

(** C14: mutual exclusion of serialised calls.  In every state reachable from
    an initialised lock by calls that execute one at a time (a writer may
    wait between its two semaphores), while a writer holds the lock nobody
    holds it for reading and no second writer is inside; the recorded owner
    is exactly the writer; and a free lock can be taken: with nobody inside,
    both acquisitions succeed. *)
Theorem rwlock_calls_exclusive s :
  0 <= limit -> star rw_step rw_init s ->
  (is_Some (writer s) -> readers s = [] /\ waiter s = None) /\
  wr_owner (lock s) = writer s /\
  (writer s = None -> waiter s = None -> readers s = [] ->
     snd (read_lock_acquire (lock s)) = Ok tt /\
     forall t, snd (write_lock_acquire t id (lock s)) = Ok tt).
Proof.
  intros Hlim Hstar.
  pose proof (star_invariant _ _ _ _ rw_step_inv Hstar (rw_init_inv Hlim))
    as [? ? ? Hrc Hrl Hwc Hac Hown Hex].
  split; [done|]. split; [done|]. intros Hw Hq Hr. rewrite Hw, Hq, Hr in *.
  unfold read_lock_acquire, write_lock_acquire, write_lock_first.
  destruct (ksem_take (wr_sem (lock s))) as [x|] eqn:Ht.
  2:{ apply ksem_take_None in Ht. rw_clauses. }
  split; [done|]. intros t. unfold write_lock_second. simpl.
  destruct (ksem_take (reader_active (lock s))) as [y|] eqn:Ha; [done|].
  apply ksem_take_None in Ha. rw_clauses.
Qed.
End calls.

(** A reader, then a writer that waits for it to leave. *)
Lemma rwlock_calls_exclusive_witness :
  exists s : rw_sys (S := counter_sem),
    writer s = Some 3 /\ readers s = [] /\ wr_owner (lock s) = Some 3.
Proof.
  eexists (mk_rw_sys (mk_rwlock (mk_counter_sem 5 5) (mk_counter_sem 0 1)
    (mk_counter_sem 0 1) (Some 3)) [] (Some 3) None).
  pose proof (rwlock_calls_exclusive (S := counter_sem) 5
    (mk_rw_sys (mk_rwlock (mk_counter_sem 5 5) (mk_counter_sem 0 1)
      (mk_counter_sem 0 1) (Some 3)) [] (Some 3) None)) as Hx.
  destruct Hx as (Hex & Hown & _); [lia| |].
  - eapply star_snoc; [eapply star_snoc; [eapply star_snoc; [eapply star_snoc;
      [apply star_nil|]|]|]|].
    + apply (step_rdlock 5 1). * reflexivity. * simpl; lia.
    + apply (step_wr_first 5 3). reflexivity.
    + apply (step_rdunlock 5 1 _ [] []). done.
    + apply (step_wr_second 5 3). reflexivity.
  - split; [done|]. split; [|done]. apply Hex. by eexists.
Defined.
End Calls.

(** ** Interleaved semaphore operations *)

Module Micro.
Section micro.
Context {S : Type} `{KSem S} (limit : Z).

(** Where a thread is: each constructor names what it does next. *)
Inductive pc :=
  | Idle                      (* outside *)
  | RdActive                  (* wr_sem taken; try reader_active *)
  | RdCount                   (* try rd_sem *)
  | RdRelease                 (* give wr_sem *)
  | Reading                   (* holds a read lock *)
  | UnCheck                   (* rd_sem given; look at its count *)
  | UnActive                  (* the count was the limit; give reader_active *)
  | WrActive                  (* wr_sem taken; take reader_active *)
  | WrOwner                   (* both taken; record the owner *)
  | Writing                   (* holds the write lock *)
  | UwActive                  (* owner cleared; give reader_active *)
  | UwRelease.                (* give wr_sem *)

Inductive act := StartRead | StartWrite | StartUnlock | Continue.

Record sys := mk_sys { mlock : posix_rwlock S; pcs : list pc }.

(** One semaphore operation of one thread. *)
Definition pc_step (t : nat) (a : act) (p : pc) (r : posix_rwlock S)
  : option (pc * posix_rwlock S) :=
  match p, a with
  | Idle, StartRead => w ← ksem_take (wr_sem r); Some (RdActive, set_wr w r)
  | Idle, StartWrite => w ← ksem_take (wr_sem r); Some (WrActive, set_wr w r)
  | RdActive, Continue => Some (RdCount, set_active (ksem_try (reader_active r)) r)
  | RdCount, Continue => Some (RdRelease, set_rd (ksem_try (rd_sem r)) r)
  | RdRelease, Continue => Some (Reading, set_wr (ksem_give (wr_sem r)) r)
  | Reading, StartUnlock =>
      if bool_decide (wr_owner r = Some (Z.of_nat t)) then None
      else Some (UnCheck, set_rd (ksem_give (rd_sem r)) r)
  | UnCheck, Continue =>
      Some (if ksem_count (rd_sem r) =? limit then UnActive else Idle, r)
  | UnActive, Continue => Some (Idle, set_active (ksem_give (reader_active r)) r)
  | WrActive, Continue => s ← ksem_take (reader_active r); Some (WrOwner, set_active s r)
  | WrOwner, Continue => Some (Writing, set_owner (Some (Z.of_nat t)) r)
  | Writing, StartUnlock =>
      if bool_decide (wr_owner r = Some (Z.of_nat t)) then Some (UwActive, set_owner None r)
      else None
  | UwActive, Continue => Some (UwRelease, set_active (ksem_give (reader_active r)) r)
  | UwRelease, Continue => Some (Idle, set_wr (ksem_give (wr_sem r)) r)
  | _, _ => None
  end.

Definition sys_step (l : nat * act) (s : sys) : option sys :=
  let '(t, a) := l in
  p ← pcs s !! t;
  '(p', r') ← pc_step t a p (mlock s);
  Some (mk_sys r' (<[t := p']> (pcs s))).

Definition micro (s s' : sys) : Prop := exists l, sys_step l s = Some s'.

Definition micro_init (n : nat) : sys := mk_sys (rwlock_fields_init limit) (replicate n Idle).

(** Run one thread alone. *)
Fixpoint run_pc (t : nat) (acts : list act) (p : pc) (r : posix_rwlock S)
  : option (pc * posix_rwlock S) :=
  match acts with
  | [] => Some (p, r)
  | a :: acts' => '(p', r') ← pc_step t a p r; run_pc t acts' p' r'
  end.

(** The steps of a thread that is not interrupted are the C functions. *)
Lemma run_read_lock t r r' :
  read_lock_acquire r = (r', Ok tt) <->
  run_pc t [StartRead; Continue; Continue; Continue] Idle r = Some (Reading, r').
Proof. unfold read_lock_acquire. simpl. destruct (ksem_take (wr_sem r)); naive_solver. Qed.

Lemma run_write_lock t r r' :
  write_lock_acquire (Z.of_nat t) id r = (r', Ok tt) <->
  run_pc t [StartWrite; Continue; Continue] Idle r = Some (Writing, r').
Proof.
  unfold write_lock_acquire, write_lock_first, write_lock_second. simpl.
  destruct (ksem_take (wr_sem r)); simpl; [|naive_solver].
  destruct (ksem_take (reader_active r)); simpl; naive_solver.
Qed.

Lemma run_read_unlock t r :
  wr_owner r <> Some (Z.of_nat t) ->
  run_pc t (if ksem_count (ksem_give (rd_sem r)) =? limit
            then [StartUnlock; Continue; Continue] else [StartUnlock; Continue]) Reading r
  = Some (Idle, rwlock_unlock limit (Z.of_nat t) r).
Proof.
  intros Hne. unfold rwlock_unlock. simpl. rewrite (bool_decide_eq_false_2 _ Hne).
  destruct (Z.eqb (ksem_count (ksem_give (rd_sem r))) limit) eqn:Hc; simpl;
    rewrite bool_decide_eq_false_2 by done; simpl; by rewrite Hc.
Qed.
End micro.

(** The interleaving of the race. Thread 0 is a reader that leaves: it sees
    the last read lock returned but has not yet given [reader_active]; thread
    1 takes the lock for reading in between; then thread 0 gives
    [reader_active] and thread 2 takes the lock for writing. *)
Definition race : list (nat * act) :=
  [(0, StartRead); (0, Continue); (0, Continue); (0, Continue); (0, StartUnlock); (0, Continue);
   (1, StartRead); (1, Continue); (1, Continue); (1, Continue); (0, Continue);
   (2, StartWrite); (2, Continue); (2, Continue)]%nat.

(** without serialisation the lock does not exclude.  With semaphores as
    the kernel documents them, three threads that each make one ordinary call
    sequence reach a state in which one holds the lock for reading and another
    for writing: pthread_rwlock_unlock reads the count of [rd_sem] and gives
    [reader_active] in two steps, and a reader can enter in between. *)
Theorem rwlock_race :
  exists s : sys (S := counter_sem),
    star (micro 5) (micro_init 5 3) s /\
    pcs s !! 1%nat = Some Reading /\ pcs s !! 2%nat = Some Writing.
Proof.
  eexists. split.
  - apply (run_steps_star (sys_step 5) _ race); [|vm_compute; reflexivity].
    intros l x y Hl. by exists l.
  - by vm_compute.
Qed.
End Micro.
