(* ===== verification/Barrier.v ===== *)
(** * Barriers

    Model of [lib/posix/options/barriers/barrier.c].

    [pthread_barrier_wait] runs under the barrier's mutex except while it
    sleeps on the condition variable, so its body splits into two atomic
    pieces: [barrier_arrive], from the lock to the first sleep or to the
    return, and [barrier_wake], from a wake-up to the next sleep or to the
    return.  The transition system [bstep] lets any thread take its next
    piece; a signal moves one sleeping thread to [Woken]. *)

From stdpp Require Import base list gmap functions.
From Stdlib Require Import ZArith Lia.
From S2P Require Import Prelude Kernel Pool.

Local Open Scope Z_scope.

Record posix_barrier := mk_barrier { b_max : Z; b_count : Z }.

(** What the piece of code ends with: sleeping on the condition variable, or
    signalling it, unlocking and returning [serial]. *)
Inductive wait_outcome := Sleeps | Returns (serial : bool).

(** [++bar->count] on [uint32_t]. *)
Definition barrier_arrive (b : posix_barrier) : posix_barrier * wait_outcome :=
  let c := uwrap 32 (b_count b + 1) in
  if c =? b_max b then (mk_barrier (b_max b) 0, Returns true)
  else if negb (c =? 0) then (mk_barrier (b_max b) c, Sleeps)
  else (mk_barrier (b_max b) c, Returns false).

(** The test of the while loop after a wake-up. *)
Definition barrier_wake (b : posix_barrier) : wait_outcome :=
  if negb (b_count b =? 0) then Sleeps else Returns false.

(** ** Creation and destruction *)

Section api.
Context {P : Type} `{Elastipool P} (psz : Z).

Record barriers := mk_barriers { b_pool : P; b_mem : Z -> posix_barrier }.

Definition pthread_barrier_init (st : barriers) (count : Z) : barriers * res Z :=
  if count =? 0 then (st, Err EINVAL)
  else
    match pool_alloc (b_pool st) with
    | None => (st, Err ENOMEM)
    | Some (a, pool') =>
        (mk_barriers pool' (<[a := mk_barrier count 0]> (b_mem st)), Ok (obj_handle a))
    end.

(** Returns the value left in [*b]: -1 after success. *)
Definition pthread_barrier_destroy (st : barriers) (handle : Z) : barriers * Z * res unit :=
  match posix_get_pool_obj psz (b_pool st) handle with
  | None => (st, handle, Err EINVAL)
  | Some a =>
      match pool_free (b_pool st) a with
      | Some pool' => (mk_barriers pool' (b_mem st), POSIX_OBJ_INITIALIZER, Ok tt)
      | None => (st, handle, Err EINVAL)
      end
  end.

(** The entry of pthread_barrier_wait: resolve the handle, then arrive. *)
Definition pthread_barrier_wait_enter (st : barriers) (handle : Z)
  : barriers * res wait_outcome :=
  match posix_get_pool_obj psz (b_pool st) handle with
  | None => (st, Err EINVAL)
  | Some a =>
      let '(b', o) := barrier_arrive (b_mem st a) in
      (mk_barriers (b_pool st) (<[a := b']> (b_mem st)), Ok o)
  end.
End api.

(** ** Attributes *)

Definition BARRIER_PROCESS_PRIVATE : Z := 0.
Definition BARRIER_PROCESS_SHARED : Z := 1.

Record posix_barrierattr := mk_barrierattr { ba_pshared : Z }.

Definition pthread_barrierattr_init (a : posix_barrierattr) : posix_barrierattr * cret :=
  (mk_barrierattr BARRIER_PROCESS_PRIVATE, RZero).

Definition pthread_barrierattr_setpshared (a : posix_barrierattr) (pshared : Z)
  : posix_barrierattr * cret :=
  if negb (pshared =? BARRIER_PROCESS_PRIVATE) && negb (pshared =? BARRIER_PROCESS_SHARED)
  then (a, RNegErr EINVAL)
  else (mk_barrierattr pshared, RZero).

Definition pthread_barrierattr_getpshared (a : posix_barrierattr) : Z * cret :=
  (ba_pshared a, RZero).

Definition pthread_barrierattr_destroy (a : posix_barrierattr) : cret := RZero.

(** ** Threads at a barrier *)

Inductive bthread :=
  | Outside            (* has not called pthread_barrier_wait *)
  | Sleeping           (* in k_condvar_wait *)
  | Woken              (* signalled, to re-acquire the mutex *)
  | Returned (serial : bool).

#[export] Instance bthread_eq_dec : EqDecision bthread.
Proof. solve_decision. Defined.

Record bsys := mk_bsys { bar : posix_barrier; thr : list bthread }.

(** k_condvar_signal: one sleeping thread, if there is one. *)
Inductive signal : list bthread -> list bthread -> Prop :=
  | signal_one ts i : ts !! i = Some Sleeping -> signal ts (<[i := Woken]> ts)
  | signal_none ts : Sleeping ∉ ts -> signal ts ts.

(** The pieces of pthread_barrier_wait, and calling it again afterwards. *)
Inductive bcall : bsys -> bsys -> Prop :=
  | call_sleep b b' ts i :
      ts !! i = Some Outside -> barrier_arrive b = (b', Sleeps) ->
      bcall (mk_bsys b ts) (mk_bsys b' (<[i := Sleeping]> ts))
  | call_return b b' ts ts' i s :
      ts !! i = Some Outside -> barrier_arrive b = (b', Returns s) ->
      signal (<[i := Returned s]> ts) ts' ->
      bcall (mk_bsys b ts) (mk_bsys b' ts')
  | wake_sleep b ts i :
      ts !! i = Some Woken -> barrier_wake b = Sleeps ->
      bcall (mk_bsys b ts) (mk_bsys b (<[i := Sleeping]> ts))
  | wake_return b ts ts' i s :
      ts !! i = Some Woken -> barrier_wake b = Returns s ->
      signal (<[i := Returned s]> ts) ts' ->
      bcall (mk_bsys b ts) (mk_bsys b ts').

Inductive bstep : bsys -> bsys -> Prop :=
  | bstep_call s s' : bcall s s' -> bstep s s'
  | bstep_again b ts i s :
      ts !! i = Some (Returned s) ->
      bstep (mk_bsys b ts) (mk_bsys b (<[i := Outside]> ts)).

Definition binit (max : nat) (n : nat) : bsys :=
  mk_bsys (mk_barrier (Z.of_nat max) 0) (replicate n Outside).

(** ** One round: as many threads as the barrier waits for, one call each *)

Definition is_outside (t : bthread) : bool := bool_decide (t = Outside).
Definition is_sleeping (t : bthread) : bool := bool_decide (t = Sleeping).
Definition is_woken (t : bthread) : bool := bool_decide (t = Woken).
Definition is_serial (t : bthread) : bool := bool_decide (t = Returned true).
Definition is_returned (t : bthread) : bool :=
  match t with Returned _ => true | _ => false end.

Abbreviation n_outside s := (count_if is_outside (thr s)).
Abbreviation n_sleeping s := (count_if is_sleeping (thr s)).
Abbreviation n_woken s := (count_if is_woken (thr s)).
Abbreviation n_serial s := (count_if is_serial (thr s)).
Abbreviation n_returned s := (count_if is_returned (thr s)).

Lemma count_kinds ts :
  length ts = (count_if is_outside ts + count_if is_sleeping ts + count_if is_woken ts
               + count_if is_returned ts)%nat.
Proof. induction ts as [|[| | |s] ts IH]; simpl in *; try lia; destruct s; simpl in *; lia. Qed.

Lemma signal_total ts : exists ts', signal ts ts'.
Proof.
  destruct (decide (Sleeping ∈ ts)) as [[i Hi]%list_elem_of_lookup|Hno].
  - eexists. by apply (signal_one ts i).
  - exists ts. by constructor.
Qed.

(** What a signal does to the counts. *)
Lemma signal_counts ts ts' :
  signal ts ts' ->
  length ts' = length ts /\
  count_if is_outside ts' = count_if is_outside ts /\
  count_if is_serial ts' = count_if is_serial ts /\
  count_if is_returned ts' = count_if is_returned ts /\
  ((count_if is_sleeping ts' + 1 = count_if is_sleeping ts)%nat /\
     count_if is_woken ts' = (count_if is_woken ts + 1)%nat \/
   count_if is_sleeping ts = 0%nat /\ count_if is_sleeping ts' = 0%nat /\
     count_if is_woken ts' = count_if is_woken ts).
Proof.
  intros [us i Hi|us Hno].
  - pose proof (count_if_insert is_outside us i _ Woken Hi).
    pose proof (count_if_insert is_serial us i _ Woken Hi).
    pose proof (count_if_insert is_returned us i _ Woken Hi).
    pose proof (count_if_insert is_sleeping us i _ Woken Hi).
    pose proof (count_if_insert is_woken us i _ Woken Hi).
    rewrite length_insert. simpl in *. lia.
  - repeat split; try done. right.
    enough (count_if is_sleeping us = 0%nat) by done.
    destruct (Nat.eq_0_gt_0_cases (count_if is_sleeping us)) as [|Hp]; [done|].
    apply count_if_pos in Hp as (i & x & Hi & Hx). unfold is_sleeping in Hx. bool_to_prop.
    subst x. destruct Hno. apply list_elem_of_lookup. by exists i.
Qed.

(** Before the last arrival everybody inside sleeps and the counter counts
    them; after it the counter is zero, and as long as somebody sleeps some
    thread has been woken. *)
Record round_inv (max : nat) (s : bsys) : Prop := {
  ri_max : b_max (bar s) = Z.of_nat max;
  ri_len : length (thr s) = max;
  ri_phase :
    (b_count (bar s) = Z.of_nat (n_sleeping s) /\
       n_woken s = 0%nat /\ n_returned s = 0%nat /\ n_serial s = 0%nat /\
       (0 < n_outside s)%nat) \/
    (b_count (bar s) = 0 /\ n_outside s = 0%nat /\ n_serial s = 1%nat /\
       (0 < n_sleeping s -> 0 < n_woken s)%nat);
}.

Definition round_measure (s : bsys) : nat := 3 * n_outside s + 2 * n_sleeping s + n_woken s.

Lemma arrive_spec (max : nat) c :
  0 <= c < Z.of_nat max -> Z.of_nat max < 4294967296 ->
  barrier_arrive (mk_barrier (Z.of_nat max) c) =
    (if c + 1 =? Z.of_nat max then (mk_barrier (Z.of_nat max) 0, Returns true)
     else (mk_barrier (Z.of_nat max) (c + 1), Sleeps)).
Proof.
  intros ? ?. unfold barrier_arrive. simpl. rewrite uwrap32_id by lia.
  case_match; [done|]. by ztests.
Qed.

(** The effect on all counts of replacing thread [i]. *)
Ltac counts ts i H y :=
  pose proof (count_if_insert is_outside ts i _ y H);
  pose proof (count_if_insert is_sleeping ts i _ y H);
  pose proof (count_if_insert is_woken ts i _ y H);
  pose proof (count_if_insert is_serial ts i _ y H);
  pose proof (count_if_insert is_returned ts i _ y H);
  pose proof (length_insert ts i y); simpl in *.

Lemma round_step max s s' :
  (0 < max)%nat -> Z.of_nat max < 4294967296 -> round_inv max s -> bcall s s' ->
  round_inv max s' /\ (round_measure s' < round_measure s)%nat.
Proof.
  intros Hpos Hlt [Hmax Hlen Hph] Hcall. pose proof (count_kinds (thr s)) as Hk.
  unfold round_measure. destruct Hcall as [b b' ts i Hi Ha|b b' ts ts' i r Hi Ha Hs
    |b ts i Hi Hw|b ts ts' i r Hi Hw Hs]; simpl in *; destruct b as [mx c]; simpl in *; subst mx.
  - counts ts i Hi Sleeping. destruct Hph as [(Hc & ? & ? & ? & ?)|(Hc & Ho & ? & ?)]; [|lia].
    rewrite arrive_spec in Ha by lia. case_match; simplify_eq.
    split; [split; simpl; lia|]. simpl. lia.
  - destruct Hph as [(Hc & ? & ? & ? & ?)|(Hc & Ho & ? & ?)].
    2:{ counts ts i Hi Sleeping. lia. }
    rewrite arrive_spec in Ha by lia. case_match; simplify_eq.
    counts ts i Hi (Returned true). apply signal_counts in Hs.
    split; [split; simpl; lia|]. simpl. lia.
  - counts ts i Hi Sleeping. unfold barrier_wake in Hw. simpl in Hw.
    destruct Hph as [(Hc & ? & ? & ? & ?)|(Hc & Ho & ? & ?)]; [lia|]. by rewrite Hc in Hw.
  - unfold barrier_wake in Hw. simpl in Hw. case_match; simplify_eq.
    destruct Hph as [(Hc & ? & ? & ? & ?)|(Hc & Ho & ? & ?)].
    + counts ts i Hi Sleeping. lia.
    + counts ts i Hi (Returned false). apply signal_counts in Hs.
      split; [split; simpl; lia|]. simpl. lia.
Qed.

Lemma round_init_inv max : (0 < max)%nat -> round_inv max (binit max max).
Proof.
  intros. split; simpl; rewrite ?length_replicate, ?count_if_replicate; try done.
  left. simpl. lia.
Qed.

Lemma round_progress max s :
  Z.of_nat max < 4294967296 -> round_inv max s ->
  n_returned s = max \/ exists s', bcall s s'.
Proof.
  intros Hlt [Hmax Hlen Hph]. pose proof (count_kinds (thr s)) as Hk.
  destruct s as [[mx c] ts]; simpl in *; subst mx.
  destruct Hph as [(Hc & ? & ? & ? & Ho)|(Hc & Ho & ? & Hw)].
  - right. apply count_if_pos in Ho as (i & x & Hi & Hx). unfold is_outside in Hx.
    bool_to_prop. subst x. assert (Hi' := Hi).
    destruct (barrier_arrive (mk_barrier (Z.of_nat max) c)) as [b' [|r]] eqn:Ha.
    + eexists. by eapply call_sleep.
    + destruct (signal_total (<[i := Returned r]> ts)) as [ts' Hs].
      eexists. by eapply call_return.
  - destruct (Nat.eq_0_gt_0_cases (count_if is_woken ts)) as [Hz|Hp]; [left; lia|right].
    apply count_if_pos in Hp as (i & x & Hi & Hx). unfold is_woken in Hx. bool_to_prop.
    subst x. destruct (signal_total (<[i := Returned false]> ts)) as [ts' Hs].
    eexists. eapply wake_return; [done| |done]. unfold barrier_wake. simpl. by rewrite Hc.
Qed.

(** C16: one round of a barrier is correct and always finishes.  For [max]
    threads that each call pthread_barrier_wait once, in any interleaving:
    nobody returns before all have arrived; every step makes progress towards
    completion, so at most [3 * max] steps are possible; as long as somebody
    has not returned some thread can proceed; and when all have returned
    exactly one got PTHREAD_BARRIER_SERIAL_THREAD. *)
Theorem barrier_round max s :
  (0 < max)%nat -> Z.of_nat max < 4294967296 -> star bcall (binit max max) s ->
  ((0 < n_returned s)%nat -> n_outside s = 0%nat) /\
  (forall s', bcall s s' -> (round_measure s' < round_measure s)%nat) /\
  (round_measure s <= 3 * max)%nat /\
  (n_returned s = max \/ exists s', bcall s s') /\
  (n_returned s = max -> n_serial s = 1%nat).
Proof.
  intros Hpos Hlt Hstar.
  assert (round_inv max s) as Hinv.
  { eapply (star_invariant _ (round_inv max)); [|done|by apply round_init_inv].
    intros x y Hx Hxy. by eapply round_step. }
  pose proof (round_progress max s Hlt Hinv) as Hprog. pose proof (count_kinds (thr s)).
  split; [destruct Hinv; lia|]. split; [intros s' Hs'; by eapply round_step|].
  split; [unfold round_measure; destruct Hinv; lia|]. split; [done|]. destruct Hinv; lia.
Qed.

Lemma barrier_round_witness :
  n_serial (mk_bsys (mk_barrier 2 0) [Returned false; Returned true]) = 1%nat.
Proof.
  apply (barrier_round 2); [lia|lia| |reflexivity].
  eapply star_snoc; [eapply star_snoc; [eapply star_snoc; [apply star_nil|]|]|].
  - by apply (call_sleep _ (mk_barrier 2 1) _ 0).
  - apply (call_return _ (mk_barrier 2 0) _ [Woken; Returned true] 1 true); [done|done|].
    by apply (signal_one [Sleeping; Returned true] 0).
  - apply (wake_return _ _ _ 0 false); [done|done|]. apply signal_none. set_solver.
Defined.

(** ** Using the barrier again *)

(** a barrier that is used again can deadlock.  With two threads and a
    barrier for two: both arrive, the second returns (resetting the count and
    waking the first), and calls pthread_barrier_wait again before the first
    has re-acquired the mutex.  The first thread then finds a non-zero count
    and sleeps again: both threads sleep, the first still inside the round
    that was completed, and no step is possible. *)
Theorem barrier_reuse_deadlock :
  exists s, star bstep (binit 2 2) s /\ thr s = [Sleeping; Sleeping] /\
    forall s', ~ bstep s s'.
Proof.
  exists (mk_bsys (mk_barrier 2 1) [Sleeping; Sleeping]). split; [|split; [done|]].
  - eapply star_snoc; [eapply star_snoc; [eapply star_snoc; [eapply star_snoc; [eapply star_snoc;
      [apply star_nil|]|]|]|]|].
    + apply bstep_call. by apply (call_sleep _ (mk_barrier 2 1) _ 0).
    + apply bstep_call.
      apply (call_return _ (mk_barrier 2 0) _ [Woken; Returned true] 1 true); [done|done|].
      by apply (signal_one [Sleeping; Returned true] 0).
    + by apply (bstep_again _ _ 1 true).
    + apply bstep_call. by apply (call_sleep _ (mk_barrier 2 1) _ 1).
    + apply bstep_call. by apply (wake_sleep (mk_barrier 2 1) [Woken; Sleeping] 0).
  - intros s' Hs. inversion Hs as [? ? Hc|? ? i ? Hi]; subst.
    + inversion Hc as [? ? ? i Hi|? ? ? ? i ? Hi|? ? i Hi|? ? ? i ? Hi]; subst;
        by destruct i as [|[|i]].
    + by destruct i as [|[|i]].
Qed.

(** Pthread_barrierattr_setpshared accepts exactly the two documented
    values, stores the accepted one for getpshared and leaves the object
    alone otherwise; but it reports the error as -EINVAL, not EINVAL. *)
Lemma barrierattr_pshared a v :
  let '(a', r) := pthread_barrierattr_setpshared a v in
  if (v =? BARRIER_PROCESS_PRIVATE) || (v =? BARRIER_PROCESS_SHARED)
  then r = RZero /\ pthread_barrierattr_getpshared a' = (v, RZero)
  else r = RNegErr EINVAL /\ a' = a.
Proof.
  unfold pthread_barrierattr_setpshared, pthread_barrierattr_getpshared.
  by destruct (v =? BARRIER_PROCESS_PRIVATE), (v =? BARRIER_PROCESS_SHARED).
Qed.
