(* ===== verification/Spinlock.v ===== *)
(** * Spin locks

    Model of [lib/posix/options/spin_locks/spinlock.c]: a spin lock is an
    [atomic_t] of a pool, 0 when free and 1 when taken. *)

From stdpp Require Import base list gmap functions.
From Stdlib Require Import ZArith Lia.
From S2P Require Import Prelude Kernel Pool.

Local Open Scope Z_scope.

(** [atomic_cas(l, old, new)]: the new value and whether it was exchanged. *)
Definition atomic_cas (v old new : Z) : Z * bool :=
  if v =? old then (new, true) else (v, false).

Section spin.
Context {P : Type} `{Elastipool P} (psz : Z).

Record spins := mk_spins { sp_pool : P; sp_mem : Z -> Z }.

Definition SPIN_PROCESS_PRIVATE : Z := 0.
Definition SPIN_PROCESS_SHARED : Z := 1.

(** [lock] is the value behind the pointer, [None] a NULL pointer; success
    returns the handle stored through it. *)
Definition pthread_spin_init (st : spins) (lock : option Z) (pshared : Z) : spins * res Z :=
  match lock with
  | None => (st, Err EINVAL)
  | Some _ =>
      if negb ((pshared =? SPIN_PROCESS_PRIVATE) || (pshared =? SPIN_PROCESS_SHARED))
      then (st, Err EINVAL)
      else
        match pool_alloc (sp_pool st) with
        | None => (st, Err ENOMEM)
        | Some (a, pool') => (mk_spins pool' (<[a := 0]> (sp_mem st)), Ok (obj_handle a))
        end
  end.

Definition sp_get (st : spins) (lock : option Z) : option Z :=
  match lock with
  | None => None
  | Some h => posix_get_pool_obj_unlocked psz (sp_pool st) h
  end.

Definition pthread_spin_destroy (st : spins) (lock : option Z) : spins * res unit :=
  match sp_get st lock with
  | None => (st, Err EINVAL)
  | Some a =>
      match pool_free (sp_pool st) a with
      | Some pool' => (mk_spins pool' (sp_mem st), Ok tt)
      | None => (st, Err EINVAL)
      end
  end.

(** One turn of the loop [while (!atomic_cas(l, 0, 1))]: [None] is another
    turn, taken when [wait] is set and the lock is busy. *)
Definition pthread_spin_lock_common (st : spins) (lock : option Z) (wait : bool)
  : option (spins * res unit) :=
  match sp_get st lock with
  | None => Some (st, Err EINVAL)
  | Some a =>
      match atomic_cas (sp_mem st a) 0 1 with
      | (v, true) => Some (mk_spins (sp_pool st) (<[a := v]> (sp_mem st)), Ok tt)
      | (_, false) => if wait then None else Some (st, Err EBUSY)
      end
  end.

Definition pthread_spin_lock (st : spins) (lock : option Z) :=
  pthread_spin_lock_common st lock true.

Definition pthread_spin_trylock (st : spins) (lock : option Z) :=
  pthread_spin_lock_common st lock false.

Definition pthread_spin_unlock (st : spins) (lock : option Z) : spins * res unit :=
  match sp_get st lock with
  | None => (st, Err EINVAL)
  | Some a =>
      let '(v, _) := atomic_cas (sp_mem st a) 1 0 in
      (mk_spins (sp_pool st) (<[a := v]> (sp_mem st)), Ok tt)
  end.

(** ** Mutual exclusion on one lock *)

(** Which threads are in the critical section of lock [h]. *)
Record spin_sys := mk_spin_sys { sps : spins; inside : list bool }.

Inductive spin_step (h : Z) : spin_sys -> spin_sys -> Prop :=
  | spin_enter st st' ins i wait :
      ins !! i = Some false ->
      pthread_spin_lock_common st (Some h) wait = Some (st', Ok tt) ->
      spin_step h (mk_spin_sys st ins) (mk_spin_sys st' (<[i := true]> ins))
  | spin_busy st st' ins i :
      ins !! i = Some false ->
      pthread_spin_lock_common st (Some h) false = Some (st', Err EBUSY) ->
      spin_step h (mk_spin_sys st ins) (mk_spin_sys st' ins)
  | spin_leave st st' ins i r :
      ins !! i = Some true -> pthread_spin_unlock st (Some h) = (st', r) ->
      spin_step h (mk_spin_sys st ins) (mk_spin_sys st' (<[i := false]> ins)).

(** The value of the atomic is the number of threads inside, at most one. *)
Definition spin_inv (h a : Z) (s : spin_sys) : Prop :=
  sp_get (sps s) (Some h) = Some a /\
  sp_mem (sps s) a = Z.of_nat (count_if id (inside s)) /\ (count_if id (inside s) <= 1)%nat.

Lemma spin_step_inv h a s s' : spin_inv h a s -> spin_step h s s' -> spin_inv h a s'.
Proof.
  intros (Hget & Hval & Hle) Hstep.
  destruct Hstep as [st st' ins i wait Hi Hl|st st' ins i Hi Hl|st st' ins i r Hi Hl]; simpl in *.
  - unfold pthread_spin_lock_common, atomic_cas in Hl. simpl in Hl. rewrite Hget in Hl.
    pose proof (count_if_insert id ins i _ true Hi). simpl in *.
    destruct (Z.eqb_spec (sp_mem st a) 0); [|by destruct wait]. simplify_eq/=.
    split; [done|]. simpl. rewrite fn_lookup_insert. lia.
  - unfold pthread_spin_lock_common, atomic_cas in Hl. simpl in Hl. rewrite Hget in Hl.
    repeat case_match; simplify_eq; done.
  - unfold pthread_spin_unlock, atomic_cas in Hl. simpl in Hl. rewrite Hget in Hl.
    pose proof (count_if_insert id ins i _ false Hi). simpl in *.
    destruct (Z.eqb_spec (sp_mem st a) 1); simplify_eq/=; (split; [done|]); simpl;
      rewrite fn_lookup_insert; lia.
Qed.

Lemma spin_init_inv h a st n :
  sp_get st (Some h) = Some a -> sp_mem st a = 0 ->
  spin_inv h a (mk_spin_sys st (replicate n false)).
Proof. intros Hg Hm. split; [done|]. simpl. rewrite count_if_replicate, Hm. simpl. lia. Qed.
End spin.

Arguments spins P : clear implicits.

(** Spin locks exclude each other's critical sections.  After
    pthread_spin_init, in every interleaving of lock, trylock and unlock
    calls of any number of threads that unlock only after locking, at most
    one thread is inside; and a trylock by another thread answers EBUSY
    exactly while somebody is inside. *)
Theorem spin_exclusive {P} `{ElastipoolLaws P} psz (st st1 : spins P) lock ps h a n s :
  psz = 4 \/ psz = 8 -> pool_wf (sp_pool st) ->
  pthread_spin_init st lock ps = (st1, Ok h) -> pool_alloc (sp_pool st) = Some (a, sp_pool st1) ->
  is_addr psz a -> is_addr psz (pool_storage (sp_pool st)) ->
  star (spin_step psz h) (mk_spin_sys st1 (replicate n false)) s ->
  (count_if id (inside s) <= 1)%nat /\
  exists st', pthread_spin_trylock psz (sps s) (Some h) =
    Some (st', if (0 <? Z.of_nat (count_if id (inside s))) then Err EBUSY else Ok tt).
Proof.
  intros Hpsz Hwf Hinit Halloc Ha Hst Hstar. unfold pthread_spin_init in Hinit.
  destruct lock; [|done]. case_match; [done|]. rewrite Halloc in Hinit.
  injection Hinit as Hst1' <-.
  pose proof (pool_alloc_spec _ _ _ Hwf Halloc) as (_ & Hlive & Hst1 & _ & Hwf1).
  assert (spin_inv psz (obj_handle a) a s) as (Hget & Hval & Hle).
  { eapply star_invariant; [apply spin_step_inv|done|]. apply spin_init_inv; simpl.
    - apply pool_get_live; rewrite ?Hst1, ?Hlive; try done. set_solver.
    - rewrite <- Hst1'. apply fn_lookup_insert. }
  split; [done|]. unfold pthread_spin_trylock, pthread_spin_lock_common, atomic_cas.
  rewrite Hget, Hval.
  destruct (count_if id (inside s)) as [|[|]]; simpl; [by eexists|by eexists|lia].
Qed.

Section witness.
#[local] Instance spin_pool : Elastipool Epool.epool := Epool.epool_elastipool 64.
#[local] Instance spin_pool_laws : ElastipoolLaws Epool.epool := Epool.epool_laws 64.

Lemma spin_exclusive_witness :
  let st := mk_spins pool4 (fun _ => 7) in
  let st1 := fst (pthread_spin_init st (Some 0) 0) in
  exists st', pthread_spin_trylock 8 st1 (Some 0x90) = Some (st', Ok tt).
Proof.
  apply (spin_exclusive 8 (mk_spins pool4 (fun _ => 7))
    (fst (pthread_spin_init (mk_spins pool4 (fun _ => 7)) (Some 0) 0)) (Some 0) 0 0x90 0x100000090 2
    (mk_spin_sys (fst (pthread_spin_init (mk_spins pool4 (fun _ => 7)) (Some 0) 0))
       (replicate 2 false)));
    [by right|apply pool4_wf|reflexivity|reflexivity|by split|by split|apply star_nil].
Defined.
End witness.
