(* ===== verification/Semaphore.v ===== *)
(** * Semaphores

    Model of [lib/posix/options/semaphores/semaphore.c]: the unnamed
    semaphore calls over the kernel semaphore interface, and the named
    semaphores with their list, reference counts and heap objects.

    The functions on named semaphores return [None] where the source would
    fail an assertion or touch an object that has been freed, so that a
    theorem which says [is_Some] excludes both. *)

From stdpp Require Import base list gmap strings.
From Stdlib Require Import ZArith Lia.
From S2P Require Import Prelude Kernel Clock.

Local Open Scope Z_scope.

Section sem.
Context {S : Type} `{KSem S}.
(** CONFIG_POSIX_SEM_VALUE_MAX, CONFIG_POSIX_SEM_NAMELEN_MAX and the
    [O_*] flags of the system's fcntl. *)
Context (SEM_VALUE_MAX SEM_NAMELEN_MAX O_CREAT O_EXCL : Z).

(** ** Unnamed semaphores

    A [sem_t *] is [None] for NULL, or the semaphore it points to. *)

(** [waiting] says whether a thread is in the wait queue. *)
Definition sem_destroy (waiting : bool) (semaphore : option S) : option S * res unit :=
  match semaphore with
  | None => (None, Err EINVAL)
  | Some s => if waiting then (Some s, Err EBUSY) else (Some (ksem_reset s), Ok tt)
  end.

Definition sem_getvalue (semaphore : option S) : res Z :=
  match semaphore with
  | None => Err EINVAL
  | Some s => Ok (swrap 32 (ksem_count s))
  end.

(** [value] is an [unsigned int]. *)
Definition sem_init (semaphore : S) (value : Z) : S * res unit :=
  if SEM_VALUE_MAX <? value then (semaphore, Err EINVAL)
  else (ksem_init value SEM_VALUE_MAX, Ok tt).

Definition sem_post (semaphore : option S) : option S * res unit :=
  match semaphore with
  | None => (None, Err EINVAL)
  | Some s => (Some (ksem_give s), Ok tt)
  end.

(** [meanwhile] is what other threads do while the call waits; the time in
    milliseconds is never K_FOREVER, as it is at least 0. *)
Definition sem_timedwait (timespec_is_valid : timespec -> bool)
  (sys_clock_gettime : option sys_clock -> res timespec) (meanwhile : S -> S)
  (semaphore : S) (abstime : option timespec) : option (S * res unit) :=
  match abstime with
  | None => Some (semaphore, Err EINVAL)
  | Some ts =>
      if negb (timespec_is_valid ts) then Some (semaphore, Err EINVAL)
      else
        let to := timespec_to_timeoutms sys_clock_gettime CLOCK_REALTIME ts in
        match wait_for ksem_take to meanwhile semaphore with
        | Got s' => Some (s', Ok tt)
        | TimedOut s' => Some (s', Err ETIMEDOUT)
        | Blocks => None
        end
  end.

Definition sem_trywait (semaphore : S) : S * res unit :=
  match ksem_take semaphore with
  | None => (semaphore, Err EAGAIN)
  | Some s => (s, Ok tt)
  end.

(** [None] while the call has to wait. *)
Definition sem_wait (semaphore : S) : option (S * res unit) :=
  match ksem_take semaphore with
  | None => None
  | Some s => Some (s, Ok tt)
  end.

(** ** Named semaphores *)

Record nsem_obj := mk_nsem { nsem_sem : S; ref_count : Z; nsem_name : option string }.

(** The list of objects by address, the heap, and the number of buffers the
    file has allocated and not freed. *)
Record nsems := mk_nsems {
  nsem_list : list Z;
  nsem_heap : gmap Z nsem_obj;
  nsem_live : Z;
}.

(** The zero-filled k_sem of a fresh k_calloc object. *)
Context (ksem_zeroed : S).

Definition nsem_none : nsems := mk_nsems [] ∅ 0.

(** The size of the [snode] that precedes the semaphore in an object. *)
Context (snode_size : Z).
Definition sem_of (nsem : Z) : Z := nsem + snode_size.
Definition nsem_of (sem : Z) : Z := sem - snode_size.

Definition nsem_name_at (st : nsems) (a : Z) : option string :=
  match nsem_heap st !! a with Some o => nsem_name o | None => None end.

Definition nsem_find (st : nsems) (name : string) : option Z :=
  first_named (nsem_name_at st) (nsem_list st) name.

Definition nsem_cleanup (st : nsems) (a : Z) : nsems :=
  match nsem_heap st !! a with
  | None => st
  | Some o =>
      let freed := match nsem_name o with Some _ => 2 | None => 1 end in
      mk_nsems (nsem_list st) (delete a (nsem_heap st)) (nsem_live st - freed)
  end.

Definition nsem_unref (st : nsems) (a : Z) : option nsems :=
  match nsem_heap st !! a with
  | None => None
  | Some o =>
      let o' := mk_nsem (nsem_sem o) (ref_count o - 1) (nsem_name o) in
      let st1 := mk_nsems (nsem_list st) (<[a := o']> (nsem_heap st)) (nsem_live st) in
      if ref_count o' <? 0 then None
      else if ref_count o' =? 0 then
        match nsem_name o' with
        | Some _ => None
        | None =>
            let st2 := mk_nsems (slist_remove a (nsem_list st1)) (nsem_heap st1)
                         (nsem_live st1) in
            Some (nsem_cleanup st2 a)
        end
      else Some st1
  end.

Definition INT_MAX : Z := 2147483647.

(** [obj_mem] and [name_mem] are the results of the two k_calloc calls.
    [value] is read from the argument list whatever [oflags] says. *)
Definition sem_open (st : nsems) (name : option string) (oflags value : Z)
  (obj_mem : option Z) (name_mem : bool) : option (nsems * res Z) :=
  if SEM_VALUE_MAX <? value then Some (st, Err EINVAL)
  else match name with
  | None => Some (st, Err EINVAL)
  | Some nm =>
      if SEM_NAMELEN_MAX <? Z.of_nat (String.length nm) + 1 then Some (st, Err ENAMETOOLONG)
      else match nsem_find st nm with
      | Some a =>
          if flag_set oflags O_CREAT && flag_set oflags O_EXCL then Some (st, Err EEXIST)
          else match nsem_heap st !! a with
          | None => None
          | Some o =>
              if ref_count o =? INT_MAX then None
              else
                let o' := mk_nsem (nsem_sem o) (ref_count o + 1) (nsem_name o) in
                Some (mk_nsems (nsem_list st) (<[a := o']> (nsem_heap st)) (nsem_live st),
                      Ok (sem_of a))
          end
      | None =>
          if negb (flag_set oflags O_CREAT) then Some (st, Err ENOENT)
          else match obj_mem with
          | None => Some (st, Err ENOSPC)
          | Some a =>
              let st1 := mk_nsems (nsem_list st)
                (<[a := mk_nsem ksem_zeroed 0 None]> (nsem_heap st)) (nsem_live st + 1) in
              if negb name_mem then Some (nsem_cleanup st1 a, Err ENOSPC)
              else
                let o := mk_nsem (ksem_init value SEM_VALUE_MAX) 2 (Some nm) in
                Some (mk_nsems (nsem_list st1 ++ [a]) (<[a := o]> (nsem_heap st1))
                        (nsem_live st1 + 1), Ok (sem_of a))
          end
      end
  end.

Definition sem_unlink (st : nsems) (name : option string) : option (nsems * res unit) :=
  match name with
  | None => Some (st, Err EINVAL)
  | Some nm =>
      if SEM_NAMELEN_MAX <? Z.of_nat (String.length nm) + 1 then Some (st, Err ENAMETOOLONG)
      else match nsem_find st nm with
      | None => Some (st, Err ENOENT)
      | Some a =>
          match nsem_heap st !! a with
          | None => None
          | Some o =>
              let st1 := mk_nsems (nsem_list st)
                (<[a := mk_nsem (nsem_sem o) (ref_count o) None]> (nsem_heap st))
                (nsem_live st - 1) in
              match nsem_unref st1 a with
              | None => None
              | Some st2 => Some (st2, Ok tt)
              end
          end
      end
  end.

Definition sem_close (st : nsems) (sem : option Z) : option (nsems * res unit) :=
  match sem with
  | None => Some (st, Err EINVAL)
  | Some p =>
      match nsem_unref st (nsem_of p) with
      | None => None
      | Some st' => Some (st', Ok tt)
      end
  end.

(** An unnamed-semaphore call on the semaphore of a named one. *)
Definition nsem_use (st : nsems) (p : Z) (f : S -> S) : option nsems :=
  match nsem_heap st !! nsem_of p with
  | None => None
  | Some o =>
      Some (mk_nsems (nsem_list st)
        (<[nsem_of p := mk_nsem (f (nsem_sem o)) (ref_count o) (nsem_name o)]> (nsem_heap st))
        (nsem_live st))
  end.

(** The two functions the tests use. *)
Definition nsem_get_ref_count (st : nsems) (p : Z) : option Z :=
  ref_count <$> nsem_heap st !! nsem_of p.
Definition nsem_get_list_len (st : nsems) : nat := length (nsem_list st).

(** ** Clients of named semaphores

    [hs] is the list of handles that the program has opened and not closed,
    one per open; a program keeps fewer than INT_MAX - 1 of them, as the
    assertion on [ref_count] in sem_open demands. *)

Definition linked (o : nsem_obj) : bool :=
  match nsem_name o with Some _ => true | None => false end.

Definition linked_at (st : nsems) (a : Z) : bool :=
  match nsem_heap st !! a with Some o => linked o | None => false end.

Definition refs (hs : list Z) (a : Z) : Z :=
  Z.of_nat (count_if (fun p => p =? sem_of a) hs).

Inductive nsem_step : nsems * list Z -> nsems * list Z -> Prop :=
  | step_open st st' hs name oflags value mem nm p :
      Z.of_nat (length hs) < INT_MAX - 1 ->
      (forall a, mem = Some a -> nsem_heap st !! a = None) ->
      sem_open st name oflags value mem nm = Some (st', Ok p) ->
      nsem_step (st, hs) (st', p :: hs)
  | step_open_err st st' hs name oflags value mem nm e :
      Z.of_nat (length hs) < INT_MAX - 1 ->
      (forall a, mem = Some a -> nsem_heap st !! a = None) ->
      sem_open st name oflags value mem nm = Some (st', Err e) ->
      nsem_step (st, hs) (st', hs)
  | step_unlink st st' hs name r :
      sem_unlink st name = Some (st', r) -> nsem_step (st, hs) (st', hs)
  | step_close st st' hs i p r :
      hs !! i = Some p -> sem_close st (Some p) = Some (st', r) ->
      nsem_step (st, hs) (st', delete i hs)
  | step_use st st' hs p f :
      p ∈ hs -> nsem_use st p f = Some st' -> nsem_step (st, hs) (st', hs).

(** The invariant, in which the object [x] may have one reference that is
    about to be dropped. *)
Record nsem_inv (x : option Z) (st : nsems) (hs : list Z) : Prop := {
  inv_nodup : NoDup (nsem_list st);
  inv_heap a : a ∈ nsem_list st <-> is_Some (nsem_heap st !! a);
  inv_refs a o :
    nsem_heap st !! a = Some o ->
    ref_count o = (if linked o then 1 else 0) + refs hs a
                  + (if bool_decide (x = Some a) then 1 else 0) /\ 0 < ref_count o;
  inv_handles p : p ∈ hs -> is_Some (nsem_heap st !! nsem_of p);
  inv_names a b oa ob n :
    nsem_heap st !! a = Some oa -> nsem_heap st !! b = Some ob ->
    nsem_name oa = Some n -> nsem_name ob = Some n -> a = b;
  inv_live :
    nsem_live st = Z.of_nat (length (nsem_list st) + count_if (linked_at st) (nsem_list st));
}.

Lemma sem_of_nsem_of p : sem_of (nsem_of p) = p.
Proof. unfold sem_of, nsem_of. lia. Qed.
Lemma nsem_of_sem_of a : nsem_of (sem_of a) = a.
Proof. unfold sem_of, nsem_of. lia. Qed.

Lemma nsem_inv_none : nsem_inv None nsem_none [].
Proof.
  split; simpl; try done.
  - constructor.
  - intros a. rewrite lookup_empty. split; [by intros ?%elem_of_nil|by intros [? ?]].
  - intros p ?%elem_of_nil. done.
Qed.

(** *** Lookup by name *)

Lemma nsem_name_at_Some st n a :
  nsem_name_at st a = Some n <-> exists o, nsem_heap st !! a = Some o /\ nsem_name o = Some n.
Proof.
  unfold nsem_name_at. case_match; split; try done.
  - intros Hn. by eexists.
  - by intros (o & [= <-] & ?).
  - by intros (o & ? & ?).
Qed.

(** Under the invariant the linked list search is the name's unique object. *)
Lemma nsem_find_spec x st hs n a :
  nsem_inv x st hs ->
  nsem_find st n = Some a <-> exists o, nsem_heap st !! a = Some o /\ nsem_name o = Some n.
Proof.
  intros Hinv. unfold nsem_find. rewrite first_named_spec.
  - rewrite nsem_name_at_Some. split; [by intros [_ ?]|]. intros (o & Ho & Hn).
    split; [|by eexists]. apply (inv_heap _ _ _ Hinv). by eexists.
  - intros b c _ _ (ob & ? & ?)%nsem_name_at_Some (oc & ? & ?)%nsem_name_at_Some.
    by eapply (inv_names _ _ _ Hinv b c).
Qed.

(** *** Preservation *)

Abbreviation b2z b := (if b then 1 else 0) (only parsing).
Abbreviation extra x a := (b2z (bool_decide (x = Some a))) (only parsing).

Lemma linked_at_insert st l v a o b :
  linked_at (mk_nsems l (<[a := o]> (nsem_heap st)) v) b
  = if bool_decide (b = a) then linked o else linked_at st b.
Proof.
  unfold linked_at. simpl. case_bool_decide as Hb.
  - subst. by rewrite lookup_insert_eq.
  - by rewrite lookup_insert_ne.
Qed.

Lemma refs_nonneg hs a : 0 <= refs hs a.
Proof. unfold refs. lia. Qed.

Lemma refs_cons hs a b : refs (sem_of a :: hs) b = b2z (bool_decide (a = b)) + refs hs b.
Proof.
  unfold refs. simpl. case_bool_decide as Hab.
  - subst. rewrite Z.eqb_refl. lia.
  - rewrite (proj2 (Z.eqb_neq _ _)) by (unfold sem_of; lia). lia.
Qed.

Lemma refs_delete hs i p b :
  hs !! i = Some p -> refs hs b = refs (delete i hs) b + b2z (bool_decide (nsem_of p = b)).
Proof.
  intros Hi. unfold refs. rewrite <- (take_drop_middle hs i p Hi) at 1.
  rewrite delete_take_drop, !count_if_app. simpl.
  case_bool_decide as Hb.
  - subst. rewrite sem_of_nsem_of, Z.eqb_refl. lia.
  - rewrite (proj2 (Z.eqb_neq _ _)); [lia|]. intros ->. by rewrite nsem_of_sem_of in Hb.
Qed.

(** Rewriting one live object, when its new count is right and nothing else
    changes. *)
Lemma nsem_inv_update x x' st hs hs' a o o' v :
  nsem_inv x st hs -> nsem_heap st !! a = Some o ->
  nsem_name o' = nsem_name o \/ nsem_name o' = None ->
  ref_count o' = b2z (linked o') + refs hs' a + extra x' a -> 0 < ref_count o' ->
  (forall b, b <> a -> refs hs' b + extra x' b = refs hs b + extra x b) ->
  (forall p, p ∈ hs' -> p ∈ hs \/ p = sem_of a) ->
  v = nsem_live st + b2z (linked o') - b2z (linked o) ->
  nsem_inv x' (mk_nsems (nsem_list st) (<[a := o']> (nsem_heap st)) v) hs'.
Proof.
  intros Hinv Ho Hname Hrc Hpos Hoth Hhs ->.
  assert (Hlive : forall b, is_Some (<[a := o']> (nsem_heap st) !! b)
                            <-> is_Some (nsem_heap st !! b)).
  { intros b. rewrite lookup_insert_is_Some'. split; [intros [<-|?]|]; auto. }
  split; simpl.
  - apply (inv_nodup _ _ _ Hinv).
  - intros b. rewrite Hlive. apply (inv_heap _ _ _ Hinv).
  - intros b ob [[-> ->]|[Hne Hb]]%lookup_insert_Some; [done|].
    destruct (inv_refs _ _ _ Hinv b ob Hb) as [Hr Hp]. specialize (Hoth b ltac:(done)). lia.
  - intros p [Hp| ->]%Hhs; apply Hlive.
    + by apply (inv_handles _ _ _ Hinv).
    + rewrite nsem_of_sem_of. by eexists.
  - assert (Hold : forall b ob n, <[a := o']> (nsem_heap st) !! b = Some ob ->
        nsem_name ob = Some n -> exists ob', nsem_heap st !! b = Some ob' /\ nsem_name ob' = Some n).
    { intros b ob n [[-> ->]|[Hne Hb]]%lookup_insert_Some Hn; [|by eexists].
      destruct Hname as [Hname|Hname]; [|congruence]. exists o. split; congruence. }
    intros b c ob oc n Hb Hc Hnb Hnc.
    destruct (Hold _ _ _ Hb Hnb) as (? & ? & ?), (Hold _ _ _ Hc Hnc) as (? & ? & ?).
    by eapply (inv_names _ _ _ Hinv b c).
  - rewrite (inv_live _ _ _ Hinv).
    assert (Hin : a ∈ nsem_list st) by (apply (inv_heap _ _ _ Hinv); by eexists).
    match goal with |- context [count_if (linked_at ?s) (nsem_list st)] =>
      match s with mk_nsems _ _ _ =>
        pose proof (count_if_change (linked_at s) (linked_at st) _ a (inv_nodup _ _ _ Hinv) Hin) as Hc
      end end.
    rewrite linked_at_insert, bool_decide_eq_true_2 in Hc by done.
    assert (linked_at st a = linked o) as Hla by (unfold linked_at; by rewrite Ho).
    rewrite Hla in Hc.
    enough (forall b, b <> a -> linked_at (mk_nsems (nsem_list st) (<[a:=o']> (nsem_heap st))
      (nsem_live st + b2z (linked o') - b2z (linked o))) b = linked_at st b) as Hb
      by (specialize (Hc Hb); destruct (linked o), (linked o'); lia).
    intros b Hb. rewrite linked_at_insert. by rewrite bool_decide_eq_false_2.
Qed.

(** Unlinking and freeing an object that nothing refers to. *)
Lemma nsem_inv_free st hs a o v :
  nsem_inv (Some a) st hs -> nsem_heap st !! a = Some o -> nsem_name o = None ->
  refs hs a = 0 -> v = nsem_live st - 1 ->
  nsem_inv None (mk_nsems (slist_remove a (nsem_list st)) (delete a (nsem_heap st)) v) hs.
Proof.
  intros Hinv Ho Hname Hr ->. pose proof (inv_nodup _ _ _ Hinv) as Hnd.
  split; simpl.
  - by apply NoDup_slist_remove.
  - intros b. rewrite elem_of_slist_remove by done. rewrite (inv_heap _ _ _ Hinv).
    rewrite lookup_delete_is_Some. naive_solver.
  - intros b ob [Hne Hb]%lookup_delete_Some.
    destruct (inv_refs _ _ _ Hinv b ob Hb) as [-> ?].
    rewrite (bool_decide_eq_false_2 (Some a = Some b)) in * by congruence. simpl. split; lia.
  - intros p Hp. rewrite lookup_delete_is_Some.
    split; [|by apply (inv_handles _ _ _ Hinv)]. intros ->.
    unfold refs in Hr. pose proof (proj2 (count_if_pos (fun q => q =? sem_of (nsem_of p)) hs)) as Hpos; lapply Hpos; [lia|].
    apply list_elem_of_lookup in Hp as [i Hi]. exists i, p.
    by rewrite sem_of_nsem_of, Z.eqb_refl.
  - intros b c ob oc n [_ Hb]%lookup_delete_Some [_ Hc]%lookup_delete_Some.
    by apply (inv_names _ _ _ Hinv b c).
  - rewrite (inv_live _ _ _ Hinv).
    rewrite (count_slist_remove (linked_at st) _ a) by (apply (inv_heap _ _ _ Hinv); by eexists).
    assert (linked_at st a = false) as -> by (unfold linked_at, linked; by rewrite Ho, Hname).
    rewrite (count_if_ext (linked_at (mk_nsems _ _ _)) (linked_at st)); [lia|].
    intros b [_ Hb]%elem_of_slist_remove; [|done]. unfold linked_at. simpl.
    by rewrite lookup_delete_ne.
Qed.

(** Rewriting an object without touching its name keeps the directory. *)
Lemma named_insert_same (m : gmap Z nsem_obj) a o o' b n :
  m !! a = Some o -> nsem_name o' = nsem_name o ->
  (exists ob, <[a := o']> m !! b = Some ob /\ nsem_name ob = Some n)
  <-> exists ob, m !! b = Some ob /\ nsem_name ob = Some n.
Proof.
  intros Ho Hname. setoid_rewrite lookup_insert_Some. split.
  - intros (ob & [[<- <-]|[? ?]] & ?); [|by eexists]. exists o. by rewrite <- Hname.
  - intros (ob & ? & ?). destruct (decide (a = b)) as [<-|]; simplify_eq; [|by eauto].
    exists o'. rewrite Hname. eauto.
Qed.

(** Dropping the extra reference of [a] never fails an assertion, and frees
    the object exactly when no name and no handle refers to it. *)
Lemma nsem_unref_inv st hs a o :
  nsem_inv (Some a) st hs -> nsem_heap st !! a = Some o ->
  exists st', nsem_unref st a = Some st' /\ nsem_inv None st' hs /\
    (nsem_heap st' !! a = None <-> linked o = false /\ refs hs a = 0) /\
    (forall b n, (exists ob, nsem_heap st' !! b = Some ob /\ nsem_name ob = Some n)
      <-> exists ob, nsem_heap st !! b = Some ob /\ nsem_name ob = Some n).
Proof.
  intros Hinv Ho. destruct (inv_refs _ _ _ Hinv a o Ho) as [Hrc _].
  rewrite bool_decide_eq_true_2 in Hrc by done. pose proof (refs_nonneg hs a).
  unfold nsem_unref. rewrite Ho. simpl.
  rewrite (proj2 (Z.ltb_ge _ _)) by (destruct (linked o); lia).
  destruct (Z.eqb_spec (ref_count o - 1) 0) as [Hz|Hnz].
  - unfold linked in *. destruct (nsem_name o) as [m|] eqn:Hname; [lia|].
    unfold nsem_cleanup. simpl. rewrite lookup_insert_eq, delete_insert_eq. simpl.
    eexists. split; [done|]. split; [by eapply nsem_inv_free; [| | |lia|]|]. simpl.
    rewrite lookup_delete_eq. split; [split; [lia|done]|].
    intros b n. setoid_rewrite lookup_delete_Some. split.
    + intros (ob & [_ ?] & ?). by eexists.
    + intros (ob & Hb & Hn). exists ob. split; [|done]. split; [|done]. intros ->. congruence.
  - eexists. split; [done|]. split; [|split].
    + eapply nsem_inv_update; [done|done|by left|..]; unfold linked in *; simpl in *;
        try (destruct (nsem_name o); lia).
      * intros b Hb. rewrite (bool_decide_eq_false_2 (Some a = Some b)) by congruence. done.
      * by left.
    + simpl. rewrite lookup_insert_eq. split; [done|]. intros [Hl ?]. rewrite Hl in Hrc. lia.
    + intros b n. by apply (named_insert_same _ _ o).
Qed.

(** Moving a reference between the handles and the pending drop. *)
Lemma nsem_inv_shift x x' st hs hs' :
  nsem_inv x st hs ->
  (forall b, refs hs' b + extra x' b = refs hs b + extra x b) ->
  (forall p, p ∈ hs' -> p ∈ hs) -> nsem_inv x' st hs'.
Proof.
  intros [] Hb Hhs. split; try done; [|by auto].
  intros a o Ha. destruct (inv_refs0 a o Ha) as [Hr ?]. specialize (Hb a). lia.
Qed.

Lemma nsem_inv_alloc st hs a nm s v :
  nsem_inv None st hs -> nsem_heap st !! a = None -> nsem_find st nm = None ->
  v = nsem_live st + 2 ->
  nsem_inv None (mk_nsems (nsem_list st ++ [a])
    (<[a := mk_nsem s 2 (Some nm)]> (nsem_heap st)) v) (sem_of a :: hs).
Proof.
  intros Hinv Hfresh Hnew ->.
  assert (Hnl : a ∉ nsem_list st) by (rewrite (inv_heap _ _ _ Hinv), Hfresh; by intros [? ?]).
  assert (Hr0 : refs hs a = 0).
  { unfold refs. destruct (count_if _ hs) eqn:Hc; [done|]. exfalso.
    destruct (proj1 (count_if_pos (fun q => q =? sem_of a) hs)) as (i & p & Hi & Hp); [lia|].
    apply Z.eqb_eq in Hp as ->. apply list_elem_of_lookup_2, (inv_handles _ _ _ Hinv) in Hi.
    rewrite nsem_of_sem_of, Hfresh in Hi. by destruct Hi. }
  assert (Hno : forall b ob, nsem_heap st !! b = Some ob -> nsem_name ob <> Some nm).
  { intros b ob Hb Hn. enough (nsem_find st nm = Some b) by congruence.
    apply (nsem_find_spec _ _ _ _ _ Hinv). by eexists. }
  split; simpl.
  - apply NoDup_app. split; [apply (inv_nodup _ _ _ Hinv)|].
    split; [|apply NoDup_singleton]. by intros b Hb ->%list_elem_of_singleton.
  - intros b. rewrite elem_of_app, list_elem_of_singleton, lookup_insert_is_Some'.
    rewrite (inv_heap _ _ _ Hinv). naive_solver.
  - intros b ob [[<- <-]|[Hne Hb]]%lookup_insert_Some; rewrite refs_cons; simpl.
    + rewrite bool_decide_eq_true_2 by done. lia.
    + rewrite (bool_decide_eq_false_2 (a = b)) by done. destruct (inv_refs _ _ _ Hinv b ob Hb). simpl in *. lia.
  - intros p [->|Hp]%elem_of_cons; rewrite lookup_insert_is_Some'.
    + left. by rewrite nsem_of_sem_of.
    + right. by apply (inv_handles _ _ _ Hinv).
  - intros b c ob oc n [[<- <-]|[? Hb]]%lookup_insert_Some [[<- <-]|[? Hc]]%lookup_insert_Some;
      simpl; intros ? ?; simplify_eq; try done; try (by edestruct Hno).
    by eapply (inv_names _ _ _ Hinv b c).
  - rewrite (inv_live _ _ _ Hinv), length_app, count_if_app. simpl.
    rewrite linked_at_insert, bool_decide_eq_true_2 by done. simpl.
    rewrite (count_if_ext (linked_at (mk_nsems _ _ _)) (linked_at st)); [lia|].
    intros b Hb. rewrite linked_at_insert, bool_decide_eq_false_2; [done|]. by intros ->.
Qed.

Lemma refs_le hs a : refs hs a <= Z.of_nat (length hs).
Proof.
  unfold refs. induction hs as [|p hs IH]; simpl; [lia|]. case_match; lia.
Qed.

(** *** The abstract semaphore directory

    [names] maps a linked name to its object. *)
Definition spec_sem_open (names : string -> option Z) (name : option string)
  (oflags value : Z) (mem : option Z) (name_mem : bool) : res Z * (string -> option Z) :=
  if SEM_VALUE_MAX <? value then (Err EINVAL, names)
  else match name with
  | None => (Err EINVAL, names)
  | Some nm =>
      if SEM_NAMELEN_MAX <=? Z.of_nat (String.length nm) then (Err ENAMETOOLONG, names)
      else match names nm, flag_set oflags O_CREAT, flag_set oflags O_EXCL, mem, name_mem with
      | Some _, true, true, _, _ => (Err EEXIST, names)
      | Some a, _, _, _, _ => (Ok (sem_of a), names)
      | None, false, _, _, _ => (Err ENOENT, names)
      | None, true, _, Some a, true =>
          (Ok (sem_of a), fun n => if bool_decide (n = nm) then Some a else names n)
      | None, true, _, _, _ => (Err ENOSPC, names)
      end
  end.

Definition spec_sem_unlink (names : string -> option Z) (name : option string) :
  res unit * (string -> option Z) :=
  match name with
  | None => (Err EINVAL, names)
  | Some nm =>
      if SEM_NAMELEN_MAX <=? Z.of_nat (String.length nm) then (Err ENAMETOOLONG, names)
      else match names nm with
      | None => (Err ENOENT, names)
      | Some _ => (Ok tt, fun n => if bool_decide (n = nm) then None else names n)
      end
  end.

Lemma nsem_find_ext x x' st st' hs hs' n :
  nsem_inv x st hs -> nsem_inv x' st' hs' ->
  (forall a, (exists o, nsem_heap st' !! a = Some o /\ nsem_name o = Some n)
     <-> exists o, nsem_heap st !! a = Some o /\ nsem_name o = Some n) ->
  nsem_find st' n = nsem_find st n.
Proof.
  intros Hinv Hinv' Hiff. apply option_eq. intros a.
  by rewrite (nsem_find_spec _ _ _ _ _ Hinv), (nsem_find_spec _ _ _ _ _ Hinv').
Qed.

(** A new linked object adds its name to the directory. *)
Lemma nsem_find_alloc st st' hs hs' a nm s n :
  nsem_inv None st hs -> nsem_inv None st' hs' -> nsem_heap st !! a = None ->
  nsem_find st nm = None -> nsem_heap st' = <[a := mk_nsem s 2 (Some nm)]> (nsem_heap st) ->
  nsem_find st' n = if bool_decide (n = nm) then Some a else nsem_find st n.
Proof.
  intros Hinv Hinv' Hfresh Hfind Hheap. apply option_eq. intros b.
  rewrite (nsem_find_spec _ _ _ _ _ Hinv'), Hheap.
  setoid_rewrite lookup_insert_Some. case_bool_decide as Hn.
  - subst. split; [|intros [= <-]; eexists; eauto].
    intros (o & [[<- _]|[? Hb]] & Hnm); [done|].
    enough (nsem_find st nm = Some b) by congruence.
    apply (nsem_find_spec _ _ _ _ _ Hinv). by eexists.
  - rewrite (nsem_find_spec _ _ _ _ _ Hinv). split.
    + intros (o & [[<- <-]|[? Hb]] & Hnm); simplify_eq/=. by eexists.
    + intros (o & Hb & ?). exists o. split; [|done]. right. split; [|done]. congruence.
Qed.

(** *** The three calls refine it and keep the invariant *)

Lemma namelen_cond (nm : string) :
  (SEM_NAMELEN_MAX <? Z.of_nat (String.length nm) + 1)
  = (SEM_NAMELEN_MAX <=? Z.of_nat (String.length nm)).
Proof. apply Bool.eq_iff_eq_true. rewrite Z.ltb_lt, Z.leb_le. lia. Qed.

Lemma sem_open_inv st hs name oflags value mem nm :
  nsem_inv None st hs -> Z.of_nat (length hs) < INT_MAX - 1 ->
  (forall a, mem = Some a -> nsem_heap st !! a = None) ->
  exists st' r, sem_open st name oflags value mem nm = Some (st', r) /\
    nsem_inv None st' (match r with Ok p => p :: hs | Err _ => hs end) /\
    r = fst (spec_sem_open (nsem_find st) name oflags value mem nm) /\
    forall n, nsem_find st' n = snd (spec_sem_open (nsem_find st) name oflags value mem nm) n.
Proof.
  intros Hinv Hlen Hfresh. unfold sem_open, spec_sem_open.
  destruct (SEM_VALUE_MAX <? value); [by eauto 6|]. destruct name as [s|]; [|by eauto 6].
  rewrite namelen_cond. destruct (SEM_NAMELEN_MAX <=? _); [by eauto 6|].
  destruct (nsem_find st s) as [a|] eqn:Hfind.
  - destruct (flag_set oflags O_CREAT && flag_set oflags O_EXCL) eqn:Hfl.
    { apply andb_true_iff in Hfl as [-> ->]. by eauto 6. }
    pose proof Hfind as Hex. apply (nsem_find_spec _ _ _ _ _ Hinv) in Hex as (o & Ho & Hname).
    rewrite Ho. destruct (inv_refs _ _ _ Hinv a o Ho) as [Hrc ?]. simpl in Hrc.
    pose proof (refs_le hs a). rewrite (proj2 (Z.eqb_neq _ _)) by (destruct (linked o); lia).
    assert (nsem_inv None (mk_nsems (nsem_list st)
        (<[a := mk_nsem (nsem_sem o) (ref_count o + 1) (nsem_name o)]> (nsem_heap st))
        (nsem_live st)) (sem_of a :: hs)) as Hinv'.
    { eapply nsem_inv_update; [done|done|by left|..]; unfold linked in *; simpl in *;
        rewrite ?Hname in *; rewrite ?refs_cons, ?bool_decide_eq_true_2 by done; try lia.
      - intros b Hb. rewrite refs_cons, bool_decide_eq_false_2 by done. lia.
      - intros p [->|?]%elem_of_cons; auto. }
    eexists _, _. split; [done|]. split; [done|].
    enough (forall n, nsem_find (mk_nsems (nsem_list st)
        (<[a := mk_nsem (nsem_sem o) (ref_count o + 1) (nsem_name o)]> (nsem_heap st))
        (nsem_live st)) n = nsem_find st n) as Hsame
      by by destruct (flag_set oflags O_CREAT), (flag_set oflags O_EXCL).
    intros n. eapply nsem_find_ext; [done..|]. intros b. by apply (named_insert_same _ _ o).
  - destruct (flag_set oflags O_CREAT); simpl; [|by eauto 6].
    destruct mem as [a|]; [|by eauto 6]. specialize (Hfresh a eq_refl).
    destruct nm; simpl.
    + rewrite insert_insert_eq.
      pose proof (nsem_inv_alloc st hs a s (ksem_init value SEM_VALUE_MAX)
        (nsem_live st + 1 + 1) Hinv Hfresh Hfind ltac:(lia)) as Hinv'.
      do 2 eexists. split; [done|]. split; [done|]. split; [done|].
      intros n. by apply (nsem_find_alloc st _ hs (sem_of a :: hs) a s
        (ksem_init value SEM_VALUE_MAX)).
    + unfold nsem_cleanup. simpl. rewrite lookup_insert_eq. simpl.
      rewrite delete_insert_eq, delete_id by done.
      replace (nsem_live st + 1 - 1) with (nsem_live st) by lia.
      exists st, (Err ENOSPC). split; [by destruct st|done].
Qed.

Lemma sem_unlink_inv st hs name :
  nsem_inv None st hs ->
  exists st' r, sem_unlink st name = Some (st', r) /\ nsem_inv None st' hs /\
    r = fst (spec_sem_unlink (nsem_find st) name) /\
    forall n, nsem_find st' n = snd (spec_sem_unlink (nsem_find st) name) n.
Proof.
  intros Hinv. unfold sem_unlink, spec_sem_unlink. destruct name as [s|]; [|by eauto 6].
  rewrite namelen_cond. destruct (SEM_NAMELEN_MAX <=? _); [by eauto 6|].
  destruct (nsem_find st s) as [a|] eqn:Hfind; [|by eauto 6].
  pose proof Hfind as Hex. apply (nsem_find_spec _ _ _ _ _ Hinv) in Hex as (o & Ho & Hname).
  rewrite Ho. set (st1 := mk_nsems _ _ _).
  assert (nsem_inv (Some a) st1 hs) as Hinv1.
  { destruct (inv_refs _ _ _ Hinv a o Ho) as [Hrc Hpos].
    eapply nsem_inv_update; [done|done|by right|..]; unfold linked in *; simpl in *;
      rewrite ?Hname, ?bool_decide_eq_true_2 in * by done; try lia; [|by auto].
    intros b Hb. rewrite bool_decide_eq_false_2; [lia|congruence]. }
  destruct (nsem_unref_inv st1 hs a (mk_nsem (nsem_sem o) (ref_count o) None) Hinv1)
    as (st' & -> & Hinv' & _ & Hnames); [apply lookup_insert_eq|].
  do 2 eexists. split; [done|]. split; [done|]. split; [done|].
  intros n. simpl. apply option_eq. intros b.
  rewrite (nsem_find_spec _ _ _ _ _ Hinv'), Hnames. unfold st1. simpl.
  setoid_rewrite lookup_insert_Some. case_bool_decide as Hn.
  - subst n. split; [|done]. intros (ob & [[<- <-]|[Hne Hb]] & Hnb); [done|].
    destruct Hne. by eapply (inv_names _ _ _ Hinv a b).
  - rewrite (nsem_find_spec _ _ _ _ _ Hinv). split.
    + intros (ob & [[<- <-]|[? Hb]] & Hnb); [done|by eexists].
    + intros (ob & Hb & Hnb). exists ob. split; [|done]. right. split; [|done]. congruence.
Qed.

Lemma sem_close_inv st hs i p :
  nsem_inv None st hs -> hs !! i = Some p ->
  exists st', sem_close st (Some p) = Some (st', Ok tt) /\ nsem_inv None st' (delete i hs) /\
    forall n, nsem_find st' n = nsem_find st n.
Proof.
  intros Hinv Hi.
  assert (nsem_inv (Some (nsem_of p)) st (delete i hs)) as Hinv1.
  { eapply nsem_inv_shift; [done|..].
    - intros b. rewrite (refs_delete hs i p b Hi).
      repeat case_bool_decide; simplify_eq; try done; lia.
    - intros q. rewrite !list_elem_of_lookup. intros [j Hj].
      destruct (decide (j < i)%nat); [rewrite list_lookup_delete_lt in Hj by done
        |rewrite list_lookup_delete_ge in Hj by lia]; eauto. }
  destruct (inv_handles _ _ _ Hinv p) as [o Ho]; [by eapply list_elem_of_lookup_2|].
  destruct (nsem_unref_inv _ _ _ _ Hinv1 Ho) as (st' & Hu & Hinv' & _ & Hnames).
  unfold sem_close. rewrite Hu. eexists. split; [done|]. split; [done|].
  intros n. eapply nsem_find_ext; [done..|]. intros a. apply Hnames.
Qed.

Lemma nsem_use_inv st hs p f :
  nsem_inv None st hs -> p ∈ hs ->
  exists st', nsem_use st p f = Some st' /\ nsem_inv None st' hs.
Proof.
  intros Hinv Hp. destruct (inv_handles _ _ _ Hinv p Hp) as [o Ho].
  unfold nsem_use. rewrite Ho. eexists. split; [done|].
  destruct (inv_refs _ _ _ Hinv _ o Ho).
  eapply nsem_inv_update; [done|done|by left|done|done|done|by auto|].
  unfold linked. simpl. lia.
Qed.

Lemma nsem_step_inv s s' :
  nsem_inv None (fst s) (snd s) -> nsem_step s s' -> nsem_inv None (fst s') (snd s').
Proof.
  intros Hinv Hstep.
  destruct Hstep as [st st' hs name oflags value mem nm p Hlen Hfr Hop
    |st st' hs name oflags value mem nm e Hlen Hfr Hop|st st' hs name r Hop
    |st st' hs i p r Hi Hop|st st' hs p f Hp Hop]; cbn [fst snd] in *.
  - destruct (sem_open_inv st hs name oflags value mem nm) as (? & ? & Heq & ? & _); [done..|].
    by simplify_eq.
  - destruct (sem_open_inv st hs name oflags value mem nm) as (? & ? & Heq & ? & _); [done..|].
    by simplify_eq.
  - destruct (sem_unlink_inv st hs name Hinv) as (? & ? & Heq & ? & _). by simplify_eq.
  - destruct (sem_close_inv st hs i p Hinv Hi) as (? & Heq & ? & _). by simplify_eq.
  - destruct (nsem_use_inv st hs p f Hinv Hp) as (? & Heq & ?). by simplify_eq.
Qed.

Lemma nsem_reachable_inv st hs :
  star nsem_step (nsem_none, []) (st, hs) -> nsem_inv None st hs.
Proof.
  intros Hstar. eapply (star_invariant _ (fun s => nsem_inv None (fst s) (snd s)) _ (st, hs));
    [apply nsem_step_inv|done|apply nsem_inv_none].
Qed.

(** Reference counting of named semaphores.  Whatever sequence of
    sem_open, sem_unlink, sem_close (of held handles) and uses a program
    makes, every object that exists is in the list and its ref_count is one
    for its name, if still linked, plus one per open handle; every open
    handle points to an existing object; and when no handle is open and no
    name is linked, no object and no allocation is left. *)
Theorem nsem_refcount st hs :
  star nsem_step (nsem_none, []) (st, hs) ->
  (forall a o, nsem_heap st !! a = Some o ->
     a ∈ nsem_list st /\ ref_count o = (if linked o then 1 else 0) + refs hs a /\
     0 < ref_count o) /\
  (forall p, p ∈ hs -> is_Some (nsem_heap st !! nsem_of p)) /\
  (hs = [] -> (forall n, nsem_find st n = None) -> st = nsem_none).
Proof.
  intros Hinv%nsem_reachable_inv. split; [|split].
  - intros a o Ho. split; [by apply (inv_heap _ _ _ Hinv); eexists|].
    destruct (inv_refs _ _ _ Hinv a o Ho) as [Hr ?]. simpl in Hr. lia.
  - apply (inv_handles _ _ _ Hinv).
  - intros -> Hno. assert (nsem_heap st = ∅) as Hempty.
    { apply map_eq. intros a. rewrite lookup_empty. destruct (nsem_heap st !! a) as [o|] eqn:Ho; [|done].
      destruct (inv_refs _ _ _ Hinv a o Ho) as [Hr ?]. unfold refs, linked in Hr. simpl in Hr.
      destruct (nsem_name o) as [n|] eqn:Hn; [|lia]. specialize (Hno n).
      enough (nsem_find st n = Some a) by congruence.
      apply (nsem_find_spec _ _ _ _ _ Hinv). by eexists. }
    destruct st as [l h v]. simpl in *. subst.
    assert (l = []) as ->.
    { destruct l as [|a l]; [done|]. destruct (proj1 (inv_heap _ _ _ Hinv a)) as [? Ha]; [by left|].
      simpl in Ha. by rewrite lookup_empty in Ha. }
    pose proof (inv_live _ _ _ Hinv) as Hv. simpl in Hv. by subst.
Qed.

(** C3: the calls on named semaphores implement a directory of names.  In
    every reachable state, sem_open and sem_unlink return what the abstract
    directory specifies on every branch and change the directory as it
    specifies, closing a held handle succeeds and leaves the directory alone,
    and none of them fails an assertion or touches a freed object. *)
Theorem nsem_refines st hs :
  star nsem_step (nsem_none, []) (st, hs) -> Z.of_nat (length hs) < INT_MAX - 1 ->
  (forall name oflags value mem nm, (forall a, mem = Some a -> nsem_heap st !! a = None) ->
     exists st' r, sem_open st name oflags value mem nm = Some (st', r) /\
       r = fst (spec_sem_open (nsem_find st) name oflags value mem nm) /\
       forall n, nsem_find st' n = snd (spec_sem_open (nsem_find st) name oflags value mem nm) n) /\
  (forall name, exists st' r, sem_unlink st name = Some (st', r) /\
     r = fst (spec_sem_unlink (nsem_find st) name) /\
     forall n, nsem_find st' n = snd (spec_sem_unlink (nsem_find st) name) n) /\
  (forall p, p ∈ hs -> exists st', sem_close st (Some p) = Some (st', Ok tt) /\
     forall n, nsem_find st' n = nsem_find st n).
Proof.
  intros Hinv%nsem_reachable_inv Hlen. split; [|split].
  - intros name oflags value mem nm Hfr.
    destruct (sem_open_inv st hs name oflags value mem nm) as (? & ? & ? & _ & ? & ?); eauto 6.
  - intros name. destruct (sem_unlink_inv st hs name Hinv) as (? & ? & ? & _ & ? & ?); eauto 6.
  - intros p [i Hi]%list_elem_of_lookup.
    destruct (sem_close_inv st hs i p Hinv Hi) as (? & ? & _ & ?); eauto.
Qed.

(** ** Counting *)

(** A sequence of calls on one semaphore: posts, and attempts to take it by
    sem_trywait; a sem_wait or sem_timedwait that succeeds takes it too. *)
Inductive sem_call := CallPost | CallTry | CallWait.

(** The semaphore and the number of successful takes. *)
Definition sem_exec (c : sem_call) (x : S * Z) : S * Z :=
  let '(s, n) := x in
  match c with
  | CallPost => match sem_post (Some s) with (Some s', _) => (s', n) | (None, _) => (s, n) end
  | CallTry => match sem_trywait s with (s', Ok _) => (s', n + 1) | (s', Err _) => (s', n) end
  | CallWait => match sem_wait s with Some (s', _) => (s', n + 1) | None => (s, n) end
  end.

Definition sem_run (cs : list sem_call) (x : S * Z) : S * Z := foldl (fun x c => sem_exec c x) x cs.

Context `{!KSemLaws S}.

Definition posts (cs : list sem_call) : Z :=
  Z.of_nat (count_if (fun c => match c with CallPost => true | _ => false end) cs).

Lemma sem_exec_spec c s n :
  0 <= ksem_count s <= ksem_limit s ->
  let '(s', n') := sem_exec c (s, n) in
  let p := match c with CallPost => 1 | _ => 0 end in
  0 <= ksem_count s' <= ksem_limit s' /\ ksem_limit s' = ksem_limit s /\ n <= n' /\
  ksem_count s' + n' = Z.min (ksem_count s + p) (ksem_limit s) + n.
Proof.
  intros Hs. destruct c; simpl; unfold sem_trywait, sem_wait.
  - rewrite ksem_give_count, ksem_give_limit. lia.
  - destruct (ksem_take s) as [s'|] eqn:Ht; simpl; [|lia]. apply ksem_take_Some in Ht. lia.
  - destruct (ksem_take s) as [s'|] eqn:Ht; simpl; [|lia]. apply ksem_take_Some in Ht. lia.
Qed.

Lemma sem_run_spec cs s n :
  0 <= ksem_count s <= ksem_limit s ->
  let '(s', n') := sem_run cs (s, n) in
  0 <= ksem_count s' <= ksem_limit s' /\ ksem_limit s' = ksem_limit s /\
  ksem_count s' + n' <= ksem_count s + n + posts cs /\
  (ksem_count s + posts cs <= ksem_limit s -> ksem_count s' + n' = ksem_count s + n + posts cs).
Proof.
  revert s n. induction cs as [|c cs IH]; intros s n Hs.
  - simpl. change (posts []) with 0. lia.
  - pose proof (sem_exec_spec c s n Hs) as Hc.
    change (sem_run (c :: cs) (s, n)) with (sem_run cs (sem_exec c (s, n))).
    destruct (sem_exec c (s, n)) as [s1 n1]. destruct Hc as (H1 & H2 & H3 & H4).
    specialize (IH s1 n1 H1). destruct (sem_run cs (s1, n1)) as [s' n'].
    assert (posts (c :: cs) = (match c with CallPost => 1 | _ => 0 end) + posts cs) as ->
      by (unfold posts; destruct c; simpl; lia).
    assert (0 <= posts cs) by (unfold posts; lia).
    destruct IH as (? & ? & ? & ?). destruct c; lia.
Qed.

(** a semaphore counts.  After sem_init with a value up to
    CONFIG_POSIX_SEM_VALUE_MAX, in any sequence of posts and takes the value
    stays within bounds, the takes that succeed never exceed the initial
    value plus the posts, and as long as the maximum is not reached
    sem_getvalue is exactly the initial value plus posts minus takes. *)
Theorem sem_counts s0 s value cs s' n' :
  0 <= SEM_VALUE_MAX < 2 ^ 31 -> 0 <= value ->
  sem_init s0 value = (s, Ok tt) -> sem_run cs (s, 0) = (s', n') ->
  0 <= ksem_count s' <= SEM_VALUE_MAX /\ n' <= value + posts cs /\
  (value + posts cs <= SEM_VALUE_MAX -> sem_getvalue (Some s') = Ok (value + posts cs - n')).
Proof.
  intros Hmax Hv Hinit Hrun. unfold sem_init in Hinit. case_match eqn:Hle; simplify_eq.
  apply Z.ltb_ge in Hle.
  pose proof (sem_run_spec cs (ksem_init value SEM_VALUE_MAX) 0) as Hspec.
  rewrite Hrun, ksem_init_count, ksem_init_limit in Hspec by lia.
  destruct Hspec as (Hb & Hl & Hle' & Heq); [lia|]. split; [lia|]. split; [lia|].
  intros Hbound. unfold sem_getvalue. rewrite swrap32_id; [f_equal; lia|].
  change (2 ^ 31) with 2147483648 in Hmax. lia.
Qed.
End sem.

Lemma nsem_one_open :
  star (nsem_step (S := counter_sem) 10 8 1 2 (mk_counter_sem 0 0) 4) (nsem_none, [])
    (mk_nsems [100] {[100 := mk_nsem (mk_counter_sem 3 10) 2 (Some "a"%string)]} 2, [104]).
Proof.
  eapply star_snoc; [apply star_nil|].
  eapply (step_open 10 8 1 2 _ 4 _ _ _ (Some "a"%string) 1 3 (Some 100) true);
    [done|by intros a [= <-]|reflexivity].
Qed.

Lemma nsem_refcount_witness :
  exists st, star (nsem_step (S := counter_sem) 10 8 1 2 (mk_counter_sem 0 0) 4)
    (nsem_none, []) (st, [104]) /\ is_Some (nsem_heap st !! nsem_of 4 104).
Proof.
  eexists. split; [apply nsem_one_open|].
  apply (nsem_refcount (S := counter_sem) 10 8 1 2 (mk_counter_sem 0 0) 4 _ _ nsem_one_open).
  by left.
Defined.

Lemma nsem_refines_witness :
  exists st st', star (nsem_step (S := counter_sem) 10 8 1 2 (mk_counter_sem 0 0) 4)
    (nsem_none, []) (st, [104]) /\ sem_close 4 st (Some 104) = Some (st', Ok tt).
Proof.
  destruct (nsem_refines (S := counter_sem) 10 8 1 2 (mk_counter_sem 0 0) 4 _ _ nsem_one_open)
    as (_ & _ & Hc); [done|].
  destruct (Hc 104) as (st' & Hclose & _); [by left|].
  eexists _, st'. split; [apply nsem_one_open|exact Hclose].
Defined.

Lemma sem_counts_witness :
  sem_getvalue (Some (mk_counter_sem 1 10)) = Ok (2 + 1 - 2).
Proof.
  apply (sem_counts (S := counter_sem) 10 (mk_counter_sem 0 0) (mk_counter_sem 2 10) 2
    [CallTry; CallPost; CallWait] (mk_counter_sem 1 10) 2);
    [done|done|reflexivity|reflexivity|done].
Defined.
