(* ===== verification/Mqueue.v ===== *)
(** * Message queues

    Model of [lib/posix/options/message_passing/mqueue.c]: queue objects with
    their list and names, descriptors, sending, receiving and notification.

    The result [None] stands for an access to memory that is not allocated
    (a NULL or freed object); a theorem that says [is_Some] excludes it. *)

From stdpp Require Import base list gmap strings.
From Stdlib Require Import ZArith Lia.
From S2P Require Import Prelude Kernel Clock.

Local Open Scope Z_scope.

Definition SIGEV_NONE : Z := 1.
Definition SIGEV_SIGNAL : Z := 2.
Definition SIGEV_THREAD : Z := 3.
Definition SIGEV_MASK : Z := Z.lor SIGEV_NONE (Z.lor SIGEV_SIGNAL SIGEV_THREAD).

(** Functions, values and attribute objects by their addresses. *)
Record sigevent := mk_sigevent {
  sigev_notify : Z;
  sigev_value : Z;
  sigev_notify_function : Z;
  sigev_notify_attributes : option Z;
}.

(** All bytes zero. *)
Definition sigevent_zero : sigevent := mk_sigevent 0 0 0 None.

Record mq_attr := mk_mq_attr { mq_flags : Z; mq_maxmsg : Z; mq_msgsize : Z; mq_curmsgs : Z }.

(** What sending a message makes happen besides: the notification function
    called with its value, or a thread created to do that. *)
Inductive notified :=
  | NotCalled
  | FunctionCalled (f v : Z)
  | ThreadCreated (attr : option Z) (arg : Z).

Section mqueue.
Context {Q : Type} `{KMsgq Q}.
(** Flags of the system's fcntl, configuration limits, the largest size_t. *)
Context (O_CREAT O_EXCL O_NONBLOCK : Z).
Context (NAMELEN_MAX MSG_SIZE_MAX MQ_OPEN_MAX SIZE_MAX : Z).
(** Calls to other parts of the layer. *)
Context (pthread_attr_setdetachstate : Z -> res unit).
Context (pthread_create : option Z -> Z -> res unit).

Record mqueue_object := mk_mqueue {
  queue : Q;
  mq_ref_count : Z;
  mq_name : option string;
  mq_not : sigevent;
}.

Record mqueue_desc := mk_mqd { mqd_mqueue : Z; mqd_flags : Z }.

(** The list of queues by address, the queue objects, the descriptors, and
    the number of heap blocks allocated and not freed. *)
Record mqs := mk_mqs {
  mq_list : list Z;
  mq_objs : gmap Z mqueue_object;
  mq_descs : gmap Z mqueue_desc;
  mq_live : Z;
}.

Definition mq_none : mqs := mk_mqs [] ∅ ∅ 0.

Definition put_obj (a : Z) (o : mqueue_object) (st : mqs) : mqs :=
  mk_mqs (mq_list st) (<[a := o]> (mq_objs st)) (mq_descs st) (mq_live st).
Definition put_desc (d : Z) (x : mqueue_desc) (st : mqs) : mqs :=
  mk_mqs (mq_list st) (mq_objs st) (<[d := x]> (mq_descs st)) (mq_live st).
(** A k_malloc (+1) or k_free (-1) of a block. *)
Definition add_live (n : Z) (st : mqs) : mqs :=
  mk_mqs (mq_list st) (mq_objs st) (mq_descs st) (mq_live st + n).

(** k_free(mqd->mem_desc) *)
Definition free_desc (d : Z) (st : mqs) : mqs :=
  mk_mqs (mq_list st) (mq_objs st) (delete d (mq_descs st)) (mq_live st - 1).

Definition mq_name_at (st : mqs) (a : Z) : option string :=
  match mq_objs st !! a with Some o => mq_name o | None => None end.

Definition find_in_list (st : mqs) (name : string) : option Z :=
  first_named (mq_name_at st) (mq_list st) name.

(** The replies of k_malloc for descriptor, object, name and buffer. *)
Record mq_mem := mk_mem { m_desc : option Z; m_obj : option Z; m_name : bool; m_buf : bool }.

(** The error labels at the end of mq_open, which fall through. *)
Definition free_mq_desc (st : mqs) : mqs * res Z := (st, Err ENOSPC).
Definition free_mq_object (st : mqs) : mqs * res Z := free_mq_desc (add_live (-1) st).
Definition free_mq_name (st : mqs) : mqs * res Z := free_mq_object (add_live (-1) st).
Definition free_mq_buffer (st : mqs) : mqs * res Z := free_mq_name (add_live (-1) st).

Definition open_flags (oflags : Z) : Z :=
  if flag_set oflags O_NONBLOCK then O_NONBLOCK else 0.

(** The creation of the queue object, with the descriptor allocated. *)
Definition mq_open_create (st : mqs) (d : Z) (nm : string) (oflags : Z)
  (attrs : option mq_attr) (mem : mq_mem) : option (mqs * res Z) :=
  match attrs with
  | None => None
  | Some at_ =>
      if (MSG_SIZE_MAX <? mq_msgsize at_) || (MQ_OPEN_MAX <? mq_maxmsg at_)
      then Some (free_mq_desc st)
      else match m_obj mem with
      | None => Some (free_mq_object st)
      | Some a =>
          let st1 := add_live 1 st in
          if negb (m_name mem) then Some (free_mq_name st1)
          else
            let st2 := add_live 1 st1 in
            if SIZE_MAX <? mq_msgsize at_ * mq_maxmsg at_ then Some (free_mq_buffer st2)
            else if negb (m_buf mem) then Some (free_mq_buffer st2)
            else
              let st3 := add_live 1 st2 in
              let o := mk_mqueue (msgq_init (mq_msgsize at_) (mq_maxmsg at_)) 1 (Some nm)
                         sigevent_zero in
              let st4 := put_obj a o st3 in
              let st5 := mk_mqs (mq_list st4 ++ [a]) (mq_objs st4) (mq_descs st4)
                           (mq_live st4) in
              Some (put_desc d (mk_mqd a (open_flags oflags)) st5, Ok d)
      end
  end.

(** mq_open after the list has been searched, with what was found: the list
    lock is not held between the search and this part. *)
Definition mq_open_finish (st : mqs) (found : option Z) (nm : string) (oflags : Z)
  (attrs : option mq_attr) (mem : mq_mem) : option (mqs * res Z) :=
  match found, flag_set oflags O_CREAT, flag_set oflags O_EXCL with
  | Some _, true, true => Some (st, Err EEXIST)
  | None, false, _ => Some (st, Err ENOENT)
  | _, _, _ =>
      match m_desc mem with
      | None => Some (free_mq_desc st)
      | Some d =>
          let st1 := add_live 1 st in
          match found with
          | None => mq_open_create st1 d nm oflags attrs mem
          | Some a =>
              match mq_objs st1 !! a with
              | None => None
              | Some o =>
                  let o' := mk_mqueue (queue o) (mq_ref_count o + 1) (mq_name o) (mq_not o) in
                  Some (put_desc d (mk_mqd a (open_flags oflags)) (put_obj a o' st1), Ok d)
              end
          end
      end
  end.

(** The checks on the arguments; [attrs] is read only with O_CREAT. *)
Definition mq_open_check (name : option string) (oflags : Z) (attrs : option mq_attr) :
  res string :=
  let creat := flag_set oflags O_CREAT in
  let attrs := if creat then attrs else None in
  let msg_size := match attrs with Some at_ => mq_msgsize at_ | None => 0 end in
  let max_msgs := match attrs with Some at_ => mq_maxmsg at_ | None => 0 end in
  match name with
  | None => Err EINVAL
  | Some nm =>
      if creat && ((msg_size <=? 0) || (max_msgs <=? 0)) then Err EINVAL
      else if NAMELEN_MAX <? Z.of_nat (String.length nm) + 1 then Err ENAMETOOLONG
      else Ok nm
  end.

Definition mq_open (st : mqs) (name : option string) (oflags : Z) (attrs : option mq_attr)
  (mem : mq_mem) : option (mqs * res Z) :=
  match mq_open_check name oflags attrs with
  | Err e => Some (st, Err e)
  | Ok nm => mq_open_finish st (find_in_list st nm) nm oflags attrs mem
  end.

Definition remove_mq (st : mqs) (a : Z) : option mqs :=
  match mq_objs st !! a with
  | None => None
  | Some o =>
      if mq_ref_count o =? 0 then
        Some (mk_mqs (slist_remove a (mq_list st)) (delete a (mq_objs st)) (mq_descs st)
                (mq_live st - 2))
      else Some st
  end.

Definition mq_close (st : mqs) (mqdes : option Z) : option (mqs * res unit) :=
  match mqdes with
  | None => Some (st, Err EBADF)
  | Some d =>
      match mq_descs st !! d with
      | None => None
      | Some x =>
          match mq_objs st !! mqd_mqueue x with
          | None => None
          | Some o =>
              let o' := mk_mqueue (queue o) (mq_ref_count o - 1) (mq_name o) (mq_not o) in
              let st1 := put_obj (mqd_mqueue x) o' st in
              match (match mq_name o' with
                     | None => remove_mq st1 (mqd_mqueue x)
                     | Some _ => Some st1
                     end) with
              | None => None
              | Some st2 =>
                  Some (free_desc d st2, Ok tt)
              end
          end
      end
  end.

Definition mq_unlink (st : mqs) (name : string) : option (mqs * res unit) :=
  match find_in_list st name with
  | None => Some (st, Err EBADF)
  | Some a =>
      match mq_objs st !! a with
      | None => None
      | Some o =>
          let o' := mk_mqueue (queue o) (mq_ref_count o) None (mq_not o) in
          match remove_mq (add_live (-1) (put_obj a o' st)) a with
          | None => None
          | Some st' => Some (st', Ok tt)
          end
      end
  end.

(** ** Messages *)

(** The descriptor and the queue object it refers to. *)
Definition mqd_obj (st : mqs) (d : Z) : option (mqueue_desc * mqueue_object) :=
  match mq_descs st !! d with
  | None => None
  | Some x => match mq_objs st !! mqd_mqueue x with None => None | Some o => Some (x, o) end
  end.

Definition set_queue (q : Q) (o : mqueue_object) : mqueue_object :=
  mk_mqueue q (mq_ref_count o) (mq_name o) (mq_not o).

(** The notification after a message was put; [grew] is
    [k_msgq_num_used_get() - msgq_num > 0] on [uint32_t]. *)
Definition send_notify (a : Z) (o : mqueue_object) (grew : bool) : notified * res unit :=
  let sevp := mq_not o in
  if grew then
    if sigev_notify sevp =? SIGEV_NONE then
      (FunctionCalled (sigev_notify_function sevp) (sigev_value sevp), Ok tt)
    else if sigev_notify sevp =? SIGEV_THREAD then
      match pthread_create (sigev_notify_attributes sevp) a with
      | Ok _ => (ThreadCreated (sigev_notify_attributes sevp) a, Ok tt)
      | Err e => (NotCalled, Err e)
      end
    else (NotCalled, Ok tt)
  else (NotCalled, Ok tt).

(** [msg_ptr] gives the bytes in memory from the message on; [meanwhile] is
    what other threads do to the queue while the call waits.  The result is
    [Blocks] when the call does not return. *)
Definition send_message (st : mqs) (mqd : option Z) (msg_ptr : list Z) (msg_len timeout : Z)
  (meanwhile : Q -> Q) : option (waited unit (mqs * notified * res unit)) :=
  match mqd with
  | None => Some (Got (st, NotCalled, Err EBADF))
  | Some d =>
      match mqd_obj st d with
      | None => None
      | Some (x, o) =>
          let timeout := if flag_set (mqd_flags x) O_NONBLOCK then K_NO_WAIT else timeout in
          if msgq_msg_size (queue o) <? msg_len then Some (Got (st, NotCalled, Err EMSGSIZE))
          else
            let msgq_num := msgq_used (queue o) in
            match wait_for (fun q => msgq_put q msg_ptr) timeout meanwhile (queue o) with
            | Blocks => Some Blocks
            | TimedOut q =>
                Some (Got (put_obj (mqd_mqueue x) (set_queue q o) st, NotCalled,
                  Err (if timeout =? K_NO_WAIT then EAGAIN else ETIMEDOUT)))
            | Got q =>
                let o' := set_queue q o in
                let '(n, r) := send_notify (mqd_mqueue x) o'
                                 (0 <? uwrap 32 (msgq_used q - msgq_num)) in
                Some (Got (put_obj (mqd_mqueue x) o' st, n, r))
            end
      end
  end.

(** The result is the size and, in the second component, what was stored at
    [msg_ptr]. *)
Definition receive_message (st : mqs) (mqd : option Z) (msg_len timeout : Z)
  (meanwhile : Q -> Q) : option (waited unit (mqs * list Z * res Z)) :=
  match mqd with
  | None => Some (Got (st, [], Err EBADF))
  | Some d =>
      match mqd_obj st d with
      | None => None
      | Some (x, o) =>
          if msg_len <? msgq_msg_size (queue o) then Some (Got (st, [], Err EMSGSIZE))
          else
            let timeout := if flag_set (mqd_flags x) O_NONBLOCK then K_NO_WAIT else timeout in
            match wait_for msgq_get timeout meanwhile (queue o) with
            | Blocks => Some Blocks
            | TimedOut q =>
                Some (Got (put_obj (mqd_mqueue x) (set_queue q o) st, [],
                  Err (if timeout =? K_NO_WAIT then EAGAIN else ETIMEDOUT)))
            | Got (m, q) =>
                Some (Got (put_obj (mqd_mqueue x) (set_queue q o) st, m,
                  Ok (msgq_msg_size q)))
            end
      end
  end.

Definition mq_send (st : mqs) (mqdes : option Z) (msg_ptr : list Z) (msg_len : Z)
  (meanwhile : Q -> Q) :=
  send_message st mqdes msg_ptr msg_len K_FOREVER meanwhile.

Definition mq_receive (st : mqs) (mqdes : option Z) (msg_len : Z) (meanwhile : Q -> Q) :=
  receive_message st mqdes msg_len K_FOREVER meanwhile.

Section timed.
Context (timespec_is_valid : timespec -> bool).
Context (sys_clock_gettime : option sys_clock -> res timespec).

Definition mq_timedsend (st : mqs) (mqdes : option Z) (msg_ptr : list Z) (msg_len : Z)
  (abstime : option timespec) (meanwhile : Q -> Q) :=
  match abstime with
  | None => Some (Got (st, NotCalled, Err EINVAL))
  | Some ts =>
      if negb (timespec_is_valid ts) then Some (Got (st, NotCalled, Err EINVAL))
      else send_message st mqdes msg_ptr msg_len
             (timespec_to_timeoutms sys_clock_gettime CLOCK_REALTIME ts) meanwhile
  end.

Definition mq_timedreceive (st : mqs) (mqdes : option Z) (msg_len : Z)
  (abstime : option timespec) (meanwhile : Q -> Q) :=
  match abstime with
  | None => Some (Got (st, [], Err EINVAL))
  | Some ts =>
      if negb (timespec_is_valid ts) then Some (Got (st, [], Err EINVAL))
      else receive_message st mqdes msg_len
             (timespec_to_timeoutms sys_clock_gettime CLOCK_REALTIME ts) meanwhile
  end.
End timed.

(** ** Attributes and notification *)

Definition mq_getattr (st : mqs) (mqdes : option Z) : option (res mq_attr) :=
  match mqdes with
  | None => Some (Err EBADF)
  | Some d =>
      match mqd_obj st d with
      | None => None
      | Some (x, o) =>
          Some (Ok (mk_mq_attr (mqd_flags x) (msgq_max_msgs (queue o))
                      (msgq_msg_size (queue o)) (msgq_used (queue o))))
      end
  end.

(** [want] says that [omqstat] is not NULL; the old attributes are stored
    there. *)
Definition mq_setattr (st : mqs) (mqdes : option Z) (mqstat : mq_attr) (want : bool) :
  option (mqs * res (option mq_attr)) :=
  match mqdes with
  | None => Some (st, Err EBADF)
  | Some d =>
      if negb (mq_flags mqstat =? 0) && negb (mq_flags mqstat =? O_NONBLOCK)
      then Some (st, Err EINVAL)
      else match (if want then mq_getattr st mqdes else Some (Err EBADF)), mq_descs st !! d with
           | Some omqstat, Some x =>
               Some (put_desc d (mk_mqd (mqd_mqueue x) (uwrap 32 (mq_flags mqstat))) st,
                     Ok (match omqstat with Ok a => Some a | Err _ => None end))
           | _, _ => None
           end
  end.

Definition set_not (n : sigevent) (o : mqueue_object) : mqueue_object :=
  mk_mqueue (queue o) (mq_ref_count o) (mq_name o) n.

Definition remove_notification (st : mqs) (a : Z) : option mqs :=
  match mq_objs st !! a with
  | None => None
  | Some o => Some (put_obj a (set_not sigevent_zero o) st)
  end.

Definition mq_notify (st : mqs) (mqdes : option Z) (notification : option sigevent) :
  option (mqs * res unit) :=
  match mqdes with
  | None => Some (st, Err EBADF)
  | Some d =>
      match mqd_obj st d with
      | None => None
      | Some (x, o) =>
          let registered := flag_set (sigev_notify (mq_not o)) SIGEV_MASK in
          match notification with
          | None =>
              if negb registered then Some (st, Err EINVAL)
              else match remove_notification st (mqd_mqueue x) with
                   | None => None
                   | Some st' => Some (st', Ok tt)
                   end
          | Some n =>
              if registered then Some (st, Err EBUSY)
              else if sigev_notify n =? SIGEV_SIGNAL then Some (st, Err ENOSYS)
              else match (match sigev_notify_attributes n with
                          | Some at_ => pthread_attr_setdetachstate at_
                          | None => Ok tt
                          end) with
                   | Err e => Some (st, Err e)
                   | Ok _ => Some (put_obj (mqd_mqueue x) (set_not n o) st, Ok tt)
                   end
          end
      end
  end.

(** The thread created by send_message: it detaches itself when it has no
    attributes, calls the function and drops the registration. *)
Definition mq_notify_thread (st : mqs) (a : Z) : option (mqs * notified * bool) :=
  match mq_objs st !! a with
  | None => None
  | Some o =>
      let sevp := mq_not o in
      match remove_notification st a with
      | None => None
      | Some st' =>
          Some (st', FunctionCalled (sigev_notify_function sevp) (sigev_value sevp),
                bool_decide (sigev_notify_attributes sevp = None))
      end
  end.

(** ** Invariant *)

Definition mq_linked_at (st : mqs) (a : Z) : bool :=
  match mq_name_at st a with Some _ => true | None => false end.

(** The number of descriptors of queue [a]. *)
Definition drefs (descs : gmap Z mqueue_desc) (a : Z) : Z :=
  Z.of_nat (size (filter (fun kv => mqd_mqueue (snd kv) = a) descs)).

(** [leaked] is the number of descriptors that mq_open allocated and lost;
    [x] is an object that may be unreferenced while a call is under way. *)
Record mq_inv (x : option Z) (leaked : Z) (st : mqs) : Prop := {
  mqi_nodup : NoDup (mq_list st);
  mqi_objs a : a ∈ mq_list st <-> is_Some (mq_objs st !! a);
  mqi_refs a o :
    mq_objs st !! a = Some o ->
    mq_ref_count o = drefs (mq_descs st) a /\
    (is_Some (mq_name o) \/ 0 < mq_ref_count o \/ x = Some a);
  mqi_descs d y : mq_descs st !! d = Some y -> is_Some (mq_objs st !! mqd_mqueue y);
  mqi_names a b oa ob n :
    mq_objs st !! a = Some oa -> mq_objs st !! b = Some ob ->
    mq_name oa = Some n -> mq_name ob = Some n -> a = b;
  mqi_live :
    mq_live st = Z.of_nat (size (mq_descs st) + 2 * length (mq_list st)
                           + count_if (mq_linked_at st) (mq_list st)) + leaked;
}.

Lemma mq_inv_none : mq_inv None 0 mq_none.
Proof.
  split; simpl; try done.
  - constructor.
  - intros a. rewrite lookup_empty. split; [by intros ?%elem_of_nil|by intros [? ?]].
Qed.

Lemma drefs_insert descs d y a :
  descs !! d = None ->
  drefs (<[d := y]> descs) a = drefs descs a + (if bool_decide (mqd_mqueue y = a) then 1 else 0).
Proof.
  intros Hd. unfold drefs. case_bool_decide as Hy.
  - rewrite map_filter_insert_True by done. rewrite map_size_insert_None; [lia|].
    by apply map_lookup_filter_None_2; left.
  - rewrite map_filter_insert_False by done. rewrite delete_id by done. lia.
Qed.

Lemma drefs_delete descs d y a :
  descs !! d = Some y ->
  drefs descs a = drefs (delete d descs) a + (if bool_decide (mqd_mqueue y = a) then 1 else 0).
Proof.
  intros Hd. rewrite <- (insert_delete_id descs d y Hd) at 1.
  apply drefs_insert. apply lookup_delete_eq.
Qed.

Lemma drefs_update descs d y y' a :
  descs !! d = Some y -> mqd_mqueue y' = mqd_mqueue y ->
  drefs (<[d := y']> descs) a = drefs descs a.
Proof.
  intros Hd Hy. rewrite (drefs_delete descs d y a Hd), <- Hy.
  rewrite <- insert_delete_eq, drefs_insert; [done|]. apply lookup_delete_eq.
Qed.

Lemma drefs_nonneg descs a : 0 <= drefs descs a.
Proof. unfold drefs. lia. Qed.

Lemma mq_name_at_Some st n a :
  mq_name_at st a = Some n <-> exists o, mq_objs st !! a = Some o /\ mq_name o = Some n.
Proof.
  unfold mq_name_at. case_match; split; try done.
  - intros Hn. by eexists.
  - by intros (o & [= <-] & ?).
  - by intros (o & ? & ?).
Qed.

Lemma find_in_list_spec x k st n a :
  mq_inv x k st ->
  find_in_list st n = Some a <-> exists o, mq_objs st !! a = Some o /\ mq_name o = Some n.
Proof.
  intros Hinv. unfold find_in_list. rewrite first_named_spec.
  - rewrite mq_name_at_Some. split; [by intros [_ ?]|]. intros (o & Ho & Hn).
    split; [|by eexists]. apply (mqi_objs _ _ _ Hinv). by eexists.
  - intros b c _ _ (ob & ? & ?)%mq_name_at_Some (oc & ? & ?)%mq_name_at_Some.
    by eapply (mqi_names _ _ _ Hinv b c).
Qed.

(** Rewriting one queue object together with the descriptors. *)
Lemma mq_inv_update x x' k st a o o' descs v :
  mq_inv x k st -> mq_objs st !! a = Some o ->
  mq_name o' = mq_name o \/ mq_name o' = None ->
  mq_ref_count o' = drefs descs a ->
  is_Some (mq_name o') \/ 0 < mq_ref_count o' \/ x' = Some a ->
  (forall b, b <> a -> drefs descs b = drefs (mq_descs st) b) ->
  (forall b, b <> a -> x = Some b -> x' = Some b) ->
  (forall d y, descs !! d = Some y -> mq_descs st !! d = Some y \/ mqd_mqueue y = a) ->
  v = mq_live st + Z.of_nat (size descs) - Z.of_nat (size (mq_descs st))
      + (if bool_decide (is_Some (mq_name o')) then 1 else 0)
      - (if bool_decide (is_Some (mq_name o)) then 1 else 0) ->
  mq_inv x' k (mk_mqs (mq_list st) (<[a := o']> (mq_objs st)) descs v).
Proof.
  intros Hinv Ho Hname Hrc Hkeep Hoth Hx Hd ->.
  assert (Hlive : forall b, is_Some (<[a := o']> (mq_objs st) !! b) <-> is_Some (mq_objs st !! b)).
  { intros b. rewrite lookup_insert_is_Some'. split; [intros [<-|?]|]; auto. }
  split; simpl.
  - apply (mqi_nodup _ _ _ Hinv).
  - intros b. rewrite Hlive. apply (mqi_objs _ _ _ Hinv).
  - intros b ob [[-> ->]|[Hne Hb]]%lookup_insert_Some; [done|].
    destruct (mqi_refs _ _ _ Hinv b ob Hb) as [Hr Hp]. rewrite Hoth by done.
    split; [done|]. destruct Hp as [?|[?|?]]; auto.
  - intros d y Hy. apply Hlive. destruct (Hd d y Hy) as [Hold|Hnew].
    + by apply (mqi_descs _ _ _ Hinv d).
    + rewrite Hnew. by eexists.
  - assert (Hold : forall b ob n, <[a := o']> (mq_objs st) !! b = Some ob ->
        mq_name ob = Some n -> exists ob', mq_objs st !! b = Some ob' /\ mq_name ob' = Some n).
    { intros b ob n [[-> ->]|[Hne Hb]]%lookup_insert_Some Hn; [|by eexists].
      destruct Hname as [Hname|Hname]; [|congruence]. exists o. split; congruence. }
    intros b c ob oc n Hb Hc Hnb Hnc.
    destruct (Hold _ _ _ Hb Hnb) as (? & ? & ?), (Hold _ _ _ Hc Hnc) as (? & ? & ?).
    by eapply (mqi_names _ _ _ Hinv b c).
  - rewrite (mqi_live _ _ _ Hinv). set (st' := mk_mqs _ _ _ _).
    assert (Hin : a ∈ mq_list st) by (apply (mqi_objs _ _ _ Hinv); by eexists).
    pose proof (count_if_change (mq_linked_at st') (mq_linked_at st) _ a
      (mqi_nodup _ _ _ Hinv) Hin) as Hc.
    assert (mq_linked_at st a = bool_decide (is_Some (mq_name o))) as Ha.
    { unfold mq_linked_at, mq_name_at. rewrite Ho. by destruct (mq_name o). }
    assert (mq_linked_at st' a = bool_decide (is_Some (mq_name o'))) as Ha'.
    { unfold mq_linked_at, mq_name_at. simpl. rewrite lookup_insert_eq. by destruct (mq_name o'). }
    rewrite Ha, Ha' in Hc.
    assert (forall b, b <> a -> mq_linked_at st' b = mq_linked_at st b) as Hb.
    { intros b Hb. unfold mq_linked_at, mq_name_at. simpl. by rewrite lookup_insert_ne. }
    specialize (Hc Hb). repeat case_bool_decide; lia.
Qed.

(** Freeing an object that no name and no descriptor refers to. *)
Lemma mq_inv_free k st a o :
  mq_inv (Some a) k st -> mq_objs st !! a = Some o -> mq_name o = None ->
  drefs (mq_descs st) a = 0 ->
  mq_inv None k (mk_mqs (slist_remove a (mq_list st)) (delete a (mq_objs st)) (mq_descs st)
                   (mq_live st - 2)).
Proof.
  intros Hinv Ho Hname Hr. pose proof (mqi_nodup _ _ _ Hinv) as Hnd.
  split; simpl.
  - by apply NoDup_slist_remove.
  - intros b. rewrite elem_of_slist_remove by done. rewrite (mqi_objs _ _ _ Hinv).
    rewrite lookup_delete_is_Some. naive_solver.
  - intros b ob [Hne Hb]%lookup_delete_Some.
    destruct (mqi_refs _ _ _ Hinv b ob Hb) as [? [?|[?|?]]]; [by auto..|congruence].
  - intros d y Hy. rewrite lookup_delete_is_Some.
    split; [|by apply (mqi_descs _ _ _ Hinv d)]. intros ->.
    rewrite (drefs_delete _ d y _ Hy), bool_decide_eq_true_2 in Hr by done.
    pose proof (drefs_nonneg (delete d (mq_descs st)) (mqd_mqueue y)). lia.
  - intros b c ob oc n [_ Hb]%lookup_delete_Some [_ Hc]%lookup_delete_Some.
    by apply (mqi_names _ _ _ Hinv b c).
  - rewrite (mqi_live _ _ _ Hinv).
    assert (a ∈ mq_list st) as Hin by (apply (mqi_objs _ _ _ Hinv); by eexists).
    pose proof (count_slist_remove (mq_linked_at st) _ a Hin) as H1.
    pose proof (count_slist_remove (fun _ => false) _ a Hin) as H2.
    assert (forall l : list Z, count_if (fun _ => false) l = 0%nat) as Hc0.
    { intros l. by induction l. }
    rewrite !Hc0 in H2. simpl in H2.
    assert (mq_linked_at st a = false) as Hla
      by (unfold mq_linked_at, mq_name_at; by rewrite Ho, Hname).
    rewrite Hla in H1.
    rewrite (count_if_ext (mq_linked_at (mk_mqs _ _ _ _)) (mq_linked_at st)); [lia|].
    intros b [_ Hb]%elem_of_slist_remove; [|done]. unfold mq_linked_at, mq_name_at. simpl.
    by rewrite lookup_delete_ne.
Qed.

(** remove_mq on an object without a name. *)
Lemma remove_mq_inv k st a o :
  mq_inv (Some a) k st -> mq_objs st !! a = Some o -> mq_name o = None ->
  exists st', remove_mq st a = Some st' /\ mq_inv None k st' /\
    mq_descs st' = mq_descs st /\
    mq_objs st' !! a = (if drefs (mq_descs st) a =? 0 then None else Some o) /\
    (forall b, b <> a -> mq_objs st' !! b = mq_objs st !! b).
Proof.
  intros Hinv Ho Hname. destruct (mqi_refs _ _ _ Hinv a o Ho) as [Hr _].
  unfold remove_mq. rewrite Ho.
  destruct (Z.eqb_spec (mq_ref_count o) 0) as [Hz|Hnz].
  - eexists. split; [done|]. split; [|split; [done|split]].
    + eapply mq_inv_free; [done..|lia].
    + simpl. rewrite lookup_delete_eq, <- Hr. by rewrite Hz.
    + intros b Hb. simpl. by rewrite lookup_delete_ne.
  - exists st. split; [done|]. split; [|split; [done|split; [|done]]].
    + destruct Hinv. split; try done. intros b ob Hb.
      destruct (mqi_refs0 b ob Hb) as [Hrb [?|[?|?]]]; [by auto..|]. simplify_eq.
      pose proof (drefs_nonneg (mq_descs st) b). split; [done|]. right. left. lia.
    + rewrite Ho, <- Hr. by rewrite (proj2 (Z.eqb_neq _ _)).
Qed.

(** ** The calls keep the invariant *)

(** Fields of an object other than its name and count. *)
Lemma mq_inv_same k st a o o' :
  mq_inv None k st -> mq_objs st !! a = Some o ->
  mq_name o' = mq_name o -> mq_ref_count o' = mq_ref_count o ->
  mq_inv None k (put_obj a o' st).
Proof.
  intros Hinv Ho Hn Hr. destruct (mqi_refs _ _ _ Hinv a o Ho) as [Hrc Hk].
  eapply mq_inv_update; [done|done|by left|..]; try done; rewrite ?Hn, ?Hr; try done; [by left|lia].
Qed.

Lemma mq_inv_desc k st d y y' :
  mq_inv None k st -> mq_descs st !! d = Some y -> mqd_mqueue y' = mqd_mqueue y ->
  mq_inv None k (put_desc d y' st).
Proof.
  intros [] Hd Hy. split; simpl; try done.
  - intros a o Ho. by rewrite (drefs_update _ _ _ _ _ Hd Hy); auto.
  - intros e z [[<- <-]|[_ Hz]]%lookup_insert_Some; [rewrite Hy|]; eauto.
  - rewrite map_size_insert_Some by by eexists. done.
Qed.

Lemma mqd_obj_live k st d y :
  mq_inv None k st -> mq_descs st !! d = Some y ->
  exists o, mqd_obj st d = Some (y, o) /\ mq_objs st !! mqd_mqueue y = Some o.
Proof.
  intros Hinv Hd. destruct (mqi_descs _ _ _ Hinv d y Hd) as [o Ho].
  exists o. unfold mqd_obj. by rewrite Hd, Ho.
Qed.

Lemma mq_close_inv k st d y :
  mq_inv None k st -> mq_descs st !! d = Some y ->
  exists st', mq_close st (Some d) = Some (st', Ok tt) /\ mq_inv None k st' /\
    mq_descs st' = delete d (mq_descs st).
Proof.
  intros Hinv Hd. destruct (mqd_obj_live _ _ _ _ Hinv Hd) as (o & _ & Ho).
  unfold mq_close. rewrite Hd, Ho. set (a := mqd_mqueue y) in *.
  destruct (mqi_refs _ _ _ Hinv a o Ho) as [Hr Hk].
  rewrite (drefs_delete _ d y _ Hd), bool_decide_eq_true_2 in Hr by done.
  set (o' := mk_mqueue (queue o) (mq_ref_count o - 1) (mq_name o) (mq_not o)).
  assert (Hsz : Z.of_nat (size (delete d (mq_descs st))) = Z.of_nat (size (mq_descs st)) - 1).
  { rewrite (map_size_delete_Some d) by by eexists.
    assert (size (mq_descs st) <> 0%nat); [|lia].
    apply (map_size_ne_0_lookup_2 _ d). by eexists. }
  assert (mq_inv (match mq_name o with None => Some a | Some _ => None end) k
    (free_desc d (put_obj a o' st))) as Hinv1.
  { apply (mq_inv_update None _ k st a o o'); [done|done|by left|..]; simpl; try done.
    - lia.
    - destruct (mq_name o); [left; by eexists|by right; right].
    - intros b Hb. rewrite (drefs_delete (mq_descs st) d y b Hd).
      rewrite bool_decide_eq_false_2 by done. lia.
    - intros e z [_ ?]%lookup_delete_Some. by left.
    - lia. }
  destruct (mq_name o) as [n|] eqn:Hname; simpl.
  { eexists. split; [done|]. by split. }
  destruct (remove_mq_inv k _ a o' Hinv1) as (st' & Hrm & Hinv' & Hdesc & _);
    [apply lookup_insert_eq|done|].
  assert (exists st2, remove_mq (put_obj a o' st) a = Some st2 /\ st' = free_desc d st2)
    as (st2 & Hrm2 & ->).
  { unfold remove_mq in *. simpl in *. rewrite lookup_insert_eq in *. simpl in *.
    case_match; simplify_eq; eexists; (split; [done|]); [|done].
    unfold free_desc. simpl. f_equal; lia. }
  fold o' a. rewrite Hrm2. eexists. by split.
Qed.

Lemma mq_unlink_inv k st name :
  mq_inv None k st ->
  exists st' r, mq_unlink st name = Some (st', r) /\ mq_inv None k st' /\
    mq_descs st' = mq_descs st /\ find_in_list st' name = None /\
    (r = Ok tt <-> is_Some (find_in_list st name)).
Proof.
  intros Hinv. unfold mq_unlink. destruct (find_in_list st name) as [a|] eqn:Hf.
  2:{ exists st, (Err EBADF). do 4 (split; [done|]). split; [done|by intros [? ?]]. }
  pose proof Hf as (o & Ho & Hn)%(find_in_list_spec _ _ _ _ _ Hinv). rewrite Ho.
  destruct (mqi_refs _ _ _ Hinv a o Ho) as [Hr _].
  set (o' := mk_mqueue (queue o) (mq_ref_count o) None (mq_not o)).
  assert (mq_inv (Some a) k (add_live (-1) (put_obj a o' st))) as Hinv1.
  { apply (mq_inv_update None _ k st a o o'); [done|done|by right|..]; simpl; try done; auto.
    rewrite Hn. simpl. lia. }
  destruct (remove_mq_inv k _ a o' Hinv1) as (st' & -> & Hinv' & Hd & Ha & Hoth);
    [apply lookup_insert_eq|done|].
  eexists _, _. split; [done|]. split; [done|]. split; [done|]. split; [|split; [by eexists|done]].
  apply eq_None_not_Some. intros [b (ob & Hb & Hnb)%(find_in_list_spec _ _ _ _ _ Hinv')].
  destruct (decide (b = a)) as [->|Hne].
  - rewrite Ha in Hb. by case_match; simplify_eq.
  - rewrite Hoth in Hb by done. simpl in Hb. rewrite lookup_insert_ne in Hb by done.
    destruct Hne. by eapply (mqi_names _ _ _ Hinv b a).
Qed.

Definition mem_fresh (st : mqs) (mem : mq_mem) : Prop :=
  (forall d, m_desc mem = Some d -> mq_descs st !! d = None) /\
  (forall a, m_obj mem = Some a -> mq_objs st !! a = None).

(** A new queue with its first descriptor. *)
Lemma mq_inv_new k st a d y o nm v :
  mq_inv None k st -> mq_objs st !! a = None -> mq_descs st !! d = None ->
  find_in_list st nm = None -> mqd_mqueue y = a -> mq_ref_count o = 1 -> mq_name o = Some nm ->
  v = mq_live st + 4 ->
  mq_inv None k (mk_mqs (mq_list st ++ [a]) (<[a := o]> (mq_objs st))
                   (<[d := y]> (mq_descs st)) v).
Proof.
  intros Hinv Ha Hd Hf Hy Hr Hn ->.
  assert (Hnl : a ∉ mq_list st) by (rewrite (mqi_objs _ _ _ Hinv), Ha; by intros [? ?]).
  assert (Hr0 : drefs (mq_descs st) a = 0).
  { unfold drefs. rewrite map_empty_filter_2; [done|]. intros e z Hz Hq. simpl in Hq. subst.
    apply (mqi_descs _ _ _ Hinv) in Hz as [? ?]. congruence. }
  assert (Hno : forall b ob, mq_objs st !! b = Some ob -> mq_name ob <> Some nm).
  { intros b ob Hb Hnb. enough (find_in_list st nm = Some b) by congruence.
    apply (find_in_list_spec _ _ _ _ _ Hinv). by eexists. }
  split; simpl.
  - apply NoDup_app. split; [apply (mqi_nodup _ _ _ Hinv)|].
    split; [|apply NoDup_singleton]. by intros b Hb ->%list_elem_of_singleton.
  - intros b. rewrite elem_of_app, list_elem_of_singleton, lookup_insert_is_Some'.
    rewrite (mqi_objs _ _ _ Hinv). naive_solver.
  - intros b ob [[<- <-]|[Hne Hb]]%lookup_insert_Some; rewrite drefs_insert by done.
    + rewrite bool_decide_eq_true_2 by done. split; [lia|left; by eexists].
    + rewrite bool_decide_eq_false_2 by congruence. destruct (mqi_refs _ _ _ Hinv b ob Hb).
      split; [lia|done].
  - intros e z [[<- <-]|[_ Hz]]%lookup_insert_Some; rewrite lookup_insert_is_Some'; [by left|].
    right. by apply (mqi_descs _ _ _ Hinv e).
  - intros b c ob oc n [[<- <-]|[? Hb]]%lookup_insert_Some [[<- <-]|[? Hc]]%lookup_insert_Some;
      intros ? ?; simplify_eq; try done; try (by edestruct Hno).
    by eapply (mqi_names _ _ _ Hinv b c).
  - rewrite (mqi_live _ _ _ Hinv), length_app, count_if_app, map_size_insert_None by done.
    simpl. set (st' := mk_mqs _ _ _ _).
    assert (mq_linked_at st' a = true) as ->.
    { unfold mq_linked_at, mq_name_at. simpl. by rewrite lookup_insert_eq, Hn. }
    rewrite (count_if_ext (mq_linked_at st') (mq_linked_at st)); [lia|].
    intros b Hb. unfold mq_linked_at, mq_name_at. simpl. rewrite lookup_insert_ne; [done|].
    by intros ->.
Qed.

(** Leaked blocks add to the count and to nothing else. *)
Lemma mq_inv_leak k n st : mq_inv None k st -> mq_inv None (k + n) (add_live n st).
Proof.
  intros []. split; simpl; try done. rewrite mqi_live0. unfold mq_linked_at, mq_name_at. simpl. lia.
Qed.

Lemma add_live_id st : add_live 0 st = st.
Proof. destruct st. unfold add_live. simpl. f_equal. lia. Qed.

Lemma add_live_add n m st : add_live n (add_live m st) = add_live (n + m) st.
Proof. unfold add_live. simpl. f_equal. lia. Qed.

(** Does mq_open reach the size check with a descriptor in hand and fail it? *)
Definition oversize (attrs : option mq_attr) : bool :=
  match attrs with
  | Some at_ => (MSG_SIZE_MAX <? mq_msgsize at_) || (MQ_OPEN_MAX <? mq_maxmsg at_)
  | None => false
  end.

Lemma mq_open_create_inv k st d nm oflags at_ mem :
  mq_inv None k st -> mem_fresh st mem -> m_desc mem = Some d -> find_in_list st nm = None ->
  exists st' r, mq_open_create (add_live 1 st) d nm oflags (Some at_) mem = Some (st', r) /\
    ((r = Ok d /\ mq_inv None k st' /\ is_Some (mq_descs st' !! d)) \/
     (r = Err ENOSPC /\ st' = add_live (if oversize (Some at_) then 1 else 0) st)).
Proof.
  intros Hinv [Hfd Hfa] Hd Hf. unfold mq_open_create, oversize.
  destruct (_ || _); [eexists _, _; split; [done|by right]|].
  unfold free_mq_buffer, free_mq_name, free_mq_object, free_mq_desc.
  destruct (m_obj mem) as [a|]; repeat case_match;
    try (eexists _, _; (split; [done|]); right; split; [done|]; by rewrite !add_live_add).
  eexists _, _. split; [done|]. left. split; [done|].
  split; [|simpl; rewrite lookup_insert_eq; by eexists].
  unfold put_desc, put_obj, add_live. simpl. eapply mq_inv_new; eauto. simpl. lia.
Qed.

Lemma mq_open_share k st a o d oflags :
  mq_inv None k st -> mq_objs st !! a = Some o -> mq_descs st !! d = None ->
  mq_inv None k (put_desc d (mk_mqd a (open_flags oflags))
    (put_obj a (mk_mqueue (queue o) (mq_ref_count o + 1) (mq_name o) (mq_not o))
       (add_live 1 st))).
Proof.
  intros Hinv Ho Hd. destruct (mqi_refs _ _ _ Hinv a o Ho) as [Hr Hk].
  apply (mq_inv_update None None k st a o
    (mk_mqueue (queue o) (mq_ref_count o + 1) (mq_name o) (mq_not o)));
    simpl; [done|done|by left|..]; rewrite ?map_size_insert_None by done; try done; try lia.
  - rewrite drefs_insert, bool_decide_eq_true_2 by done. lia.
  - right. left. pose proof (drefs_nonneg (mq_descs st) a). lia.
  - intros b Hb. rewrite drefs_insert, bool_decide_eq_false_2 by done. lia.
  - intros e z [[<- <-]|[_ ?]]%lookup_insert_Some; [by right|by left].
Qed.

(** mq_open never touches unallocated memory.  When it fails it changes
    nothing but possibly the number of allocated blocks; when it succeeds the
    descriptor refers to the queue of that name. *)
Lemma mq_open_inv k st name oflags attrs mem :
  mq_inv None k st -> mem_fresh st mem ->
  exists st' r, mq_open st name oflags attrs mem = Some (st', r) /\
    match r with
    | Err _ => st' = st \/ (st' = add_live 1 st /\ r = Err ENOSPC /\ oversize attrs = true)
    | Ok d => mq_inv None k st' /\ m_desc mem = Some d /\ is_Some (mq_descs st' !! d)
    end.
Proof.
  intros Hinv Hfresh. unfold mq_open.
  assert (unchanged : forall e, exists st' r, Some (st, Err e) = Some (st', r) /\
    match r with
    | Err _ => st' = st \/ (st' = add_live 1 st /\ r = Err ENOSPC /\ oversize attrs = true)
    | Ok d => mq_inv None k st' /\ m_desc mem = Some d /\ is_Some (mq_descs st' !! d)
    end) by (intros e; exists st, (Err e); split; [done|by left]).
  destruct (mq_open_check name oflags attrs) as [nm|e] eqn:Hchk; [|by apply unchanged].
  unfold mq_open_finish, free_mq_desc.
  destruct (find_in_list st nm) as [a|] eqn:Hf.
  - pose proof Hf as (o & Ho & Hn)%(find_in_list_spec _ _ _ _ _ Hinv).
    destruct (flag_set oflags O_CREAT), (flag_set oflags O_EXCL);
      try (by apply unchanged); (destruct (m_desc mem) as [d|] eqn:Hd;
        [|by apply unchanged]); simpl; rewrite Ho; eexists _, _;
      (split; [done|]); (split; [by apply mq_open_share; [..|apply Hfresh]|]); (split; [done|]);
      simpl; rewrite lookup_insert_eq; by eexists.
  - destruct (flag_set oflags O_CREAT) eqn:Hc; [|by apply unchanged].
    destruct (m_desc mem) as [d|] eqn:Hd; [|by apply unchanged].
    assert (exists at_, attrs = Some at_) as [at_ ->].
    { unfold mq_open_check in Hchk. rewrite Hc in Hchk. destruct attrs; [by eexists|].
      by destruct name. }
    destruct (mq_open_create_inv k st d nm oflags at_ mem Hinv Hfresh Hd Hf)
      as (st' & r & -> & [[-> Hst']|[-> ->]]); eexists _, _; (split; [done|]).
    + by destruct Hst'.
    + destruct (oversize (Some at_)); [by right|]. left. apply add_live_id.
Qed.

(** ** Programs: any sequence of calls with open descriptors *)

Inductive mq_step : mqs -> mqs -> Prop :=
  | mq_step_open st st' name oflags attrs mem r :
      mem_fresh st mem -> mq_open st name oflags attrs mem = Some (st', r) -> mq_step st st'
  | mq_step_unlink st st' name r : mq_unlink st name = Some (st', r) -> mq_step st st'
  | mq_step_close st st' d r :
      is_Some (mq_descs st !! d) -> mq_close st (Some d) = Some (st', r) -> mq_step st st'
  | mq_step_send st st' d msg len to mw n r :
      is_Some (mq_descs st !! d) ->
      send_message st (Some d) msg len to mw = Some (Got (st', n, r)) -> mq_step st st'
  | mq_step_receive st st' d len to mw m r :
      is_Some (mq_descs st !! d) ->
      receive_message st (Some d) len to mw = Some (Got (st', m, r)) -> mq_step st st'
  | mq_step_setattr st st' d a want r :
      is_Some (mq_descs st !! d) -> mq_setattr st (Some d) a want = Some (st', r) ->
      mq_step st st'
  | mq_step_notify st st' d n r :
      is_Some (mq_descs st !! d) -> mq_notify st (Some d) n = Some (st', r) -> mq_step st st'
  | mq_step_thread st st' a n b :
      mq_notify_thread st a = Some (st', n, b) -> mq_step st st'.

(** The invariant in terms of a queue's own fields. *)
Lemma mq_inv_queue k st d y o q :
  mq_inv None k st -> mq_descs st !! d = Some y -> mqd_obj st d = Some (y, o) ->
  mq_inv None k (put_obj (mqd_mqueue y) (set_queue q o) st).
Proof.
  intros Hinv Hd Ho. destruct (mqd_obj_live _ _ _ _ Hinv Hd) as (o1 & ? & ?). simplify_eq.
  by eapply mq_inv_same.
Qed.

Lemma mq_inv_not k st a o n :
  mq_inv None k st -> mq_objs st !! a = Some o -> mq_inv None k (put_obj a (set_not n o) st).
Proof. intros Hinv Ho. by eapply mq_inv_same. Qed.

Lemma send_message_inv k st d y msg len to mw st' n r :
  mq_inv None k st -> mq_descs st !! d = Some y ->
  send_message st (Some d) msg len to mw = Some (Got (st', n, r)) -> mq_inv None k st'.
Proof.
  intros Hinv Hd Hs. destruct (mqd_obj_live _ _ _ _ Hinv Hd) as (o & Ho & _).
  unfold send_message in Hs. rewrite Ho in Hs.
  destruct (_ <? len); [by simplify_eq|].
  destruct (wait_for _ _ _ _) as [q|q|]; [|by simplify_eq; eapply mq_inv_queue|done].
  destruct (send_notify _ _ _). simplify_eq. by eapply mq_inv_queue.
Qed.

Lemma receive_message_inv k st d y len to mw st' m r :
  mq_inv None k st -> mq_descs st !! d = Some y ->
  receive_message st (Some d) len to mw = Some (Got (st', m, r)) -> mq_inv None k st'.
Proof.
  intros Hinv Hd Hs. destruct (mqd_obj_live _ _ _ _ Hinv Hd) as (o & Ho & _).
  unfold receive_message in Hs. rewrite Ho in Hs. destruct (len <? _); [by simplify_eq|].
  destruct (wait_for _ _ _ _) as [[m' q]|q|]; simplify_eq; by eapply mq_inv_queue.
Qed.

Lemma mq_setattr_inv k st d y a want st' r :
  mq_inv None k st -> mq_descs st !! d = Some y ->
  mq_setattr st (Some d) a want = Some (st', r) -> mq_inv None k st'.
Proof.
  intros Hinv Hd Hs. unfold mq_setattr in Hs. destruct (_ && _); [by simplify_eq|].
  destruct (if want then _ else _); [|done]. rewrite Hd in Hs. simplify_eq.
  by eapply mq_inv_desc.
Qed.

Lemma remove_notification_inv k st a st' :
  mq_inv None k st -> remove_notification st a = Some st' -> mq_inv None k st'.
Proof.
  intros Hinv Hr. unfold remove_notification in Hr. case_match eqn:Ho; simplify_eq.
  by eapply mq_inv_not.
Qed.

Lemma mq_notify_inv k st d y n st' r :
  mq_inv None k st -> mq_descs st !! d = Some y ->
  mq_notify st (Some d) n = Some (st', r) -> mq_inv None k st'.
Proof.
  intros Hinv Hd Hs. destruct (mqd_obj_live _ _ _ _ Hinv Hd) as (o & Hdo & Ho).
  unfold mq_notify in Hs. rewrite Hdo in Hs. destruct n as [n|].
  - destruct (flag_set _ _); [by simplify_eq|]. destruct (_ =? _); [by simplify_eq|].
    destruct (match sigev_notify_attributes n with Some _ => _ | None => _ end);
      simplify_eq; [by eapply mq_inv_not|done].
  - destruct (negb _); [by simplify_eq|].
    destruct (remove_notification _ _) eqn:Hr; simplify_eq. by eapply remove_notification_inv.
Qed.

Definition mq_ok (st : mqs) : Prop := exists k, 0 <= k /\ mq_inv None k st.

Lemma mq_step_ok st st' : mq_ok st -> mq_step st st' -> mq_ok st'.
Proof.
  intros (k & Hk & Hinv) Hstep.
  destruct Hstep as [st st' name oflags attrs mem r Hfr Hop|st st' name r Hop
    |st st' d r [y Hd] Hop|st st' d msg len to mw n r [y Hd] Hop
    |st st' d len to mw m r [y Hd] Hop|st st' d a want r [y Hd] Hop|st st' d n r [y Hd] Hop
    |st st' a n b Hop].
  - destruct (mq_open_inv k st name oflags attrs mem Hinv Hfr) as (s1 & r1 & Heq & Hr).
    rewrite Hop in Heq. simplify_eq. destruct r1 as [d|e].
    + exists k. by destruct Hr.
    + destruct Hr as [->|[-> _]]; [by exists k|]. exists (k + 1).
      split; [lia|by apply mq_inv_leak].
  - destruct (mq_unlink_inv k st name Hinv) as (s1 & r1 & Heq & Hinv' & _).
    rewrite Hop in Heq. simplify_eq. by exists k.
  - destruct (mq_close_inv k st d y Hinv Hd) as (s1 & Heq & Hinv' & _).
    rewrite Hop in Heq. simplify_eq. by exists k.
  - exists k. split; [done|]. by eapply send_message_inv.
  - exists k. split; [done|]. by eapply receive_message_inv.
  - exists k. split; [done|]. by eapply mq_setattr_inv.
  - exists k. split; [done|]. by eapply mq_notify_inv.
  - exists k. split; [done|]. unfold mq_notify_thread in Hop.
    repeat case_match; simplify_eq. by eapply remove_notification_inv.
Qed.

Lemma mq_reachable_ok st : star mq_step mq_none st -> mq_ok st.
Proof.
  intros Hstar. eapply star_invariant; [apply mq_step_ok|done|].
  exists 0. split; [done|apply mq_inv_none].
Qed.


(** Mq_open leaks.  An attempt to create a queue whose message size or
    count is above the configured limit fails with ENOSPC and leaves the
    descriptor it had allocated allocated, though nothing refers to it. *)
Lemma mq_open_leak st nm oflags at_ mem d :
  find_in_list st nm = None -> flag_set oflags O_CREAT = true ->
  0 < mq_msgsize at_ -> 0 < mq_maxmsg at_ ->
  Z.of_nat (String.length nm) < NAMELEN_MAX ->
  oversize (Some at_) = true -> m_desc mem = Some d ->
  mq_open st (Some nm) oflags (Some at_) mem
  = Some (mk_mqs (mq_list st) (mq_objs st) (mq_descs st) (mq_live st + 1), Err ENOSPC).
Proof.
  intros Hf Hc Hs Hm Hl Ho Hd. unfold mq_open, mq_open_check, mq_open_finish, mq_open_create.
  rewrite Hc. simpl. rewrite (proj2 (Z.leb_gt _ _) Hs), (proj2 (Z.leb_gt _ _) Hm).
  simpl. ztests. rewrite Hf, Hd. simpl in Ho. by rewrite Ho.
Qed.

(** O_EXCL does not exclude.  Two threads that search the list before
    either of them has added its queue both create a queue with the same
    name, and both calls with O_CREAT | O_EXCL succeed. *)
Lemma mq_open_excl_race nm oflags at_ a1 d1 a2 d2 :
  flag_set oflags O_CREAT = true -> oversize (Some at_) = false ->
  mq_msgsize at_ * mq_maxmsg at_ <= SIZE_MAX -> a1 <> a2 -> d1 <> d2 ->
  exists st1 st2,
    mq_open_finish mq_none (find_in_list mq_none nm) nm oflags (Some at_)
      (mk_mem (Some d1) (Some a1) true true) = Some (st1, Ok d1) /\
    mq_open_finish st1 (find_in_list mq_none nm) nm oflags (Some at_)
      (mk_mem (Some d2) (Some a2) true true) = Some (st2, Ok d2) /\
    mq_name_at st2 a1 = Some nm /\ mq_name_at st2 a2 = Some nm.
Proof.
  intros Hc Ho Hs Ha Hd. unfold mq_open_finish, mq_open_create. simpl in *.
  rewrite Hc, Ho, (proj2 (Z.ltb_ge _ _)) by done. simpl.
  eexists _, _. split; [done|]. split; [done|]. unfold mq_name_at. simpl.
  rewrite lookup_insert_ne by done. by rewrite !lookup_insert_eq.
Qed.

(** ** Order of messages *)

Inductive mq_call := CallSend (d : Z) (msg : list Z) (len : Z) | CallReceive (d : Z) (len : Z).

Definition call_desc (c : mq_call) : Z := match c with CallSend d _ _ => d | CallReceive d _ => d end.

(** One call that does not wait, with the messages that were accepted and
    those that were delivered. *)
Definition mq_exec (size : Z) (x : mqs * list (list Z) * list (list Z)) (c : mq_call) :
  mqs * list (list Z) * list (list Z) :=
  let '(st, sent, received) := x in
  match c with
  | CallSend d msg len =>
      match send_message st (Some d) msg len K_NO_WAIT id with
      | Some (Got (st', _, Ok _)) => (st', sent ++ [take (Z.to_nat size) msg], received)
      | Some (Got (st', _, Err _)) => (st', sent, received)
      | _ => x
      end
  | CallReceive d len =>
      match receive_message st (Some d) len K_NO_WAIT id with
      | Some (Got (st', m, Ok _)) => (st', sent, received ++ [m])
      | Some (Got (st', _, Err _)) => (st', sent, received)
      | _ => x
      end
  end.

(** Executing calls keeps: accepted = delivered ++ still queued. *)
Definition fifo (size : Z) (start : list (list Z)) (a : Z)
  (x : mqs * list (list Z) * list (list Z)) : Prop :=
  let '(st, sent, received) := x in
  exists o, mq_objs st !! a = Some o /\ msgq_msg_size (queue o) = size /\
    start ++ sent = received ++ msgq_contents (queue o).

Context `{!KMsgqLaws Q}.

Lemma mq_exec_fifo size start a x c y :
  (forall at_ b, is_ok (pthread_create at_ b) = true) ->
  mq_descs (fst (fst x)) !! call_desc c = Some y -> mqd_mqueue y = a ->
  fifo size start a x -> fifo size start a (mq_exec size x c) /\
  mq_descs (fst (fst (mq_exec size x c))) = mq_descs (fst (fst x)).
Proof.
  intros Hpc Hd Hy Hf. destruct x as [[st sent] received]. destruct Hf as (o & Ho & Hs & Heq).
  assert (Hobj : mqd_obj st (call_desc c) = Some (y, o)).
  { unfold mqd_obj. simpl in Hd. by rewrite Hd, Hy, Ho. }
  destruct c as [d msg len|d len]; simpl in *; unfold send_message, receive_message;
    rewrite Hobj; (destruct (_ <? _); [by split; [exists o|]|]);
    replace (if flag_set (mqd_flags y) O_NONBLOCK then K_NO_WAIT else K_NO_WAIT) with 0
      by (by case_match); unfold wait_for; simpl.
  - destruct (msgq_put (queue o) msg) as [q|] eqn:Hp.
    + apply msgq_put_Some in Hp as (_ & Hc & Hsz & _).
      assert (exists n, send_notify (mqd_mqueue y) (set_queue q o)
        (0 <? uwrap 32 (msgq_used q - msgq_used (queue o))) = (n, Ok tt)) as [n ->].
      { unfold send_notify. repeat case_match; try by eexists.
        specialize (Hpc (sigev_notify_attributes (mq_not (set_queue q o))) (mqd_mqueue y)).
        match goal with H : pthread_create _ _ = _ |- _ => by rewrite H in Hpc end. }
      split; [|done]. exists (set_queue q o). rewrite Hy. simpl. rewrite lookup_insert_eq.
      split; [done|]. split; [congruence|]. rewrite Hc, !app_assoc, Heq, Hs. done.
    + split; [|done]. exists (set_queue (queue o) o). rewrite Hy. simpl.
      by rewrite lookup_insert_eq.
  - destruct (msgq_get (queue o)) as [[m q]|] eqn:Hg.
    + apply msgq_get_Some in Hg as (Hc & Hsz & _).
      split; [|done]. exists (set_queue q o). rewrite Hy. simpl. rewrite lookup_insert_eq.
      split; [done|]. split; [congruence|]. rewrite Heq, Hc, <- app_assoc. done.
    + split; [|done]. exists (set_queue (queue o) o). rewrite Hy. simpl.
      by rewrite lookup_insert_eq.
Qed.

Lemma mq_run_fifo size start a cs x :
  (forall at_ b, is_ok (pthread_create at_ b) = true) ->
  Forall (fun c => exists y, mq_descs (fst (fst x)) !! call_desc c = Some y /\ mqd_mqueue y = a) cs ->
  fifo size start a x -> fifo size start a (foldl (mq_exec size) x cs).
Proof.
  intros Hpc. revert x. induction cs as [|c cs IH]; intros x Hcs Hf; simpl; [done|].
  apply Forall_cons in Hcs as [(y & Hd & Hy) Hcs].
  destruct (mq_exec_fifo size start a x c y Hpc Hd Hy Hf) as [Hf' Hsame].
  apply IH; [|done]. by rewrite Hsame.
Qed.

(** C17: For mq_send and mq_receive calls that do not wait and execute one at
    a time, through any descriptors of a queue, on a system where notification
    threads can always be created (otherwise mq_send fails although the
    message is queued): the messages in the queue at first followed by those
    accepted are those delivered followed by those still in the queue, so that
    all are delivered in order, none lost and none invented; a message is
    msg_size bytes from the sender's buffer.  That the kernel's message queue
    itself is first in, first out is its documented contract, a hypothesis
    here. *)
Theorem mq_fifo st a o cs st' sent received :
  (forall at_ b, is_ok (pthread_create at_ b) = true) ->
  mq_objs st !! a = Some o ->
  Forall (fun c => exists y, mq_descs st !! call_desc c = Some y /\ mqd_mqueue y = a) cs ->
  foldl (mq_exec (msgq_msg_size (queue o))) (st, [], []) cs = (st', sent, received) ->
  exists o', mq_objs st' !! a = Some o' /\ msgq_contents (queue o) ++ sent = received ++ msgq_contents (queue o').
Proof.
  intros Hpc Ho Hcs Hrun.
  pose proof (mq_run_fifo (msgq_msg_size (queue o)) (msgq_contents (queue o)) a cs (st, [], []) Hpc Hcs) as Hf.
  rewrite Hrun in Hf. destruct Hf as (o' & ? & _ & ?); [|by exists o'].
  exists o. split; [done|]. by rewrite app_nil_r.
Qed.
End mqueue.

(** A queue created, written and read through one descriptor. *)
Definition mq_demo : mqs (Q := list_msgq) :=
  mk_mqs [100] {[100 := mk_mqueue (mk_list_msgq 2 3 []) 1 (Some "q"%string) sigevent_zero]}
    {[200 := mk_mqd 100 0]} 4.

Lemma mq_demo_reachable :
  star (mq_step (Q := list_msgq) 1 2 4 16 16 8 65535 (fun _ => Ok tt) (fun _ _ => Ok tt))
    mq_none mq_demo.
Proof.
  eapply star_snoc; [apply star_nil|].
  eapply (mq_step_open 1 2 4 16 16 8 65535 _ _ _ _ (Some "q"%string) 1
    (Some (mk_mq_attr 0 3 2 0)) (mk_mem (Some 200) (Some 100) true true)); [by split|reflexivity].
Qed.


(** The thread that send_message creates for a registration holds no reference
    to the queue: when the last descriptor is closed and the name unlinked
    before it runs, it reads a queue that was freed. *)
Definition mq_watched : mqs (Q := list_msgq) :=
  mk_mqs [100] {[100 := mk_mqueue (mk_list_msgq 2 3 []) 1 (Some "q"%string) (mk_sigevent SIGEV_THREAD 5 7 None)]}
    {[200 := mk_mqd 100 0]} 4.

Lemma notify_thread_use_after_free :
  exists st1 st2 st3 r,
    send_message 4 (fun _ _ => Ok tt) mq_watched (Some 200) [1; 2] 2 K_NO_WAIT id = Some (Got (st1, ThreadCreated None 100, r)) /\
    mq_close st1 (Some 200) = Some (st2, Ok tt) /\ mq_unlink st2 "q"%string = Some (st3, Ok tt) /\
    mq_notify_thread st3 100 = None.
Proof. eexists _, _, _, _. split_and!; vm_compute; reflexivity. Qed.

Lemma mq_open_leak_witness :
  mq_open (Q := list_msgq) 1 2 4 16 16 8 65535 mq_none (Some "q"%string) 1
    (Some (mk_mq_attr 0 3 17 0)) (mk_mem (Some 200) (Some 100) true true)
  = Some (mk_mqs [] ∅ ∅ 1, Err ENOSPC).
Proof.
  apply (mq_open_leak (Q := list_msgq) 1 2 4 16 16 8 65535 mq_none "q"%string 1
    (mk_mq_attr 0 3 17 0) (mk_mem (Some 200) (Some 100) true true) 200); reflexivity.
Defined.

Lemma mq_open_excl_race_witness :
  exists st1 st2 : mqs (Q := list_msgq),
    mq_open_finish 1 2 4 16 8 65535 st1 None "q"%string 3
      (Some (mk_mq_attr 0 3 2 0)) (mk_mem (Some 201) (Some 101) true true) = Some (st2, Ok 201).
Proof.
  destruct (mq_open_excl_race (Q := list_msgq) 1 2 4 16 8 65535 "q"%string 3
    (mk_mq_attr 0 3 2 0) 100 200 101 201) as (st1 & st2 & _ & Hrace & _); [done..|].
  exists st1, st2. exact Hrace.
Defined.

Lemma mq_fifo_witness :
  exists st' o', mq_objs st' !! 100 = Some o' /\
    [[1; 2]; [3; 4]] = [[1; 2]] ++ msgq_contents (Q := list_msgq) (queue o').
Proof.
  set (cs := [CallSend 200 [1; 2] 2; CallSend 200 [3; 4] 2; CallReceive 200 2]).
  set (st' := fst (fst (foldl (mq_exec 4 (fun _ _ => Ok tt) 2) (mq_demo, [], []) cs))).
  destruct (mq_fifo 4 (fun _ _ => Ok tt) mq_demo 100 (mk_mqueue (mk_list_msgq 2 3 []) 1 (Some "q"%string) sigevent_zero)
    cs st' [[1; 2]; [3; 4]] [[1; 2]]) as (o' & Ho & Heq);
    [done|reflexivity|repeat constructor; by exists (mk_mqd 100 0)|vm_compute; reflexivity|].
  exists st', o'. split; [exact Ho|exact Heq].
Defined.
