(* ===== verification/SigSet.v ===== *)
(** * Signal sets and signal numbers

    Model of the set functions of [signals/signal.c], of
    [shared/z_sig_set.c], which translates between the C library's signal
    numbers and the kernel's, and of the inline conversions of
    [shared/posix_internal.h].

    A set is the array of [unsigned long] words of the source; [sig_mem] is
    its meaning.  The numbers of the C library's SIG* macros are parameters,
    as every C library chooses its own. *)

From stdpp Require Import base list sets.
From Stdlib Require Import ZArith Lia.
From S2P Require Import Prelude.

Local Open Scope Z_scope.

(** ** Standard signals *)

Inductive stdsig :=
  | HUP | INT | QUIT | ILL | TRAP | ABRT | BUS | FPE | KILL | USR1 | SEGV | USR2 | PIPE
  | ALRM | TERM | CHLD | CONT | STOP | TSTP | TTIN | TTOU | URG | XCPU | XFSZ | VTALRM
  | PROF | POLL | SYS.

#[export] Instance stdsig_eq_dec : EqDecision stdsig.
Proof. solve_decision. Defined.

(** In the order of the initialisers of the tables. *)
Definition stdsigs : list stdsig :=
  [HUP; INT; QUIT; ILL; TRAP; ABRT; BUS; FPE; KILL; USR1; SEGV; USR2; PIPE; ALRM; TERM;
   CHLD; CONT; STOP; TSTP; TTIN; TTOU; URG; XCPU; XFSZ; VTALRM; PROF; POLL; SYS].

(** The kernel's K_SIG_* numbers. *)
Definition k_sig (s : stdsig) : Z :=
  match s with
  | HUP => 1 | INT => 2 | QUIT => 3 | ILL => 4 | TRAP => 5 | ABRT => 6 | BUS => 7
  | FPE => 8 | KILL => 9 | USR1 => 10 | SEGV => 11 | USR2 => 12 | PIPE => 13 | ALRM => 14
  | TERM => 15 | CHLD => 17 | CONT => 18 | STOP => 19 | TSTP => 20 | TTIN => 21 | TTOU => 22
  | URG => 23 | XCPU => 24 | XFSZ => 25 | VTALRM => 26 | PROF => 27 | POLL => 29 | SYS => 31
  end.

Section sigset.
(** BITS_PER_LONG *)
Context (w : Z).
(** CONFIG_THREAD_CANCEL_SIGNAL_NUMBER, CONFIG_SIGNAL_SET_SIZE *)
Context (cancel SIGNAL_SET_SIZE : Z).
(** The C library's signal numbers. *)
Context (sig : stdsig -> Z) (SIGRTMIN SIGRTMAX : Z).

(** ** Words and bits *)

Definition div_round_up (n d : Z) : Z := (n + d - 1) / d.

(** The number of words of a [sigset_t] and of a [struct k_sig_set]. *)
Definition SIGSET_NLONGS : Z := div_round_up SIGRTMAX w.
Definition K_SIGSET_NLONGS : Z := div_round_up (Z.max SIGNAL_SET_SIZE 1) w.

Definition SIGNO_WORD_IDX (signo : Z) : Z := (signo - 1) / w.
Definition SIGNO_WORD_BIT (signo : Z) : Z := Z.land (signo - 1) (2 ^ Z.log2 w - 1).

(** [_set[i] = v], with an index that the callers keep in range. *)
Definition set_word (set : list Z) (i v : Z) : list Z := <[Z.to_nat i := v]> set.
Definition get_word (set : list Z) (i : Z) : Z := nth (Z.to_nat i) set 0.

(** WRITE_BIT on one word. *)
Definition WRITE_BIT (var bit : Z) (set : bool) : Z :=
  if set then Z.lor var (Z.shiftl 1 bit) else Z.ldiff var (Z.shiftl 1 bit).

Definition posix_sig_is_reserved (signo : Z) : bool := (signo =? cancel) || (signo =? cancel + 1).

Definition signo_valid (signo : Z) : bool :=
  if (signo <=? 0) || posix_sig_is_reserved signo then false
  else if signo <? SIGRTMIN then signo <=? 31
  else signo <=? SIGRTMAX.

Definition signo_fits (signo : Z) : bool := (0 <? signo) && (signo <=? SIGSET_NLONGS * w).

Definition sigemptyset : list Z := replicate (Z.to_nat SIGSET_NLONGS) 0.

Definition clear_reserved (set : list Z) (signo : Z) : list Z :=
  if (0 <? signo) && (signo - 1 <? SIGSET_NLONGS * w) then
    set_word set (SIGNO_WORD_IDX signo)
      (WRITE_BIT (get_word set (SIGNO_WORD_IDX signo)) (SIGNO_WORD_BIT signo) false)
  else set.

(** The loop over [signo] from the cancel signal to SIGRTMIN - 1. *)
Definition sigfillset : list Z :=
  foldl clear_reserved (replicate (Z.to_nat SIGSET_NLONGS) (2 ^ w - 1))
    ((fun i => cancel + Z.of_nat i) <$> seq 0 (Z.to_nat (SIGRTMIN - cancel))).

Definition sig_write (set : list Z) (signo : Z) (b : bool) : list Z * res unit :=
  if negb (signo_valid signo) then (set, Err EINVAL)
  else if negb (signo_fits signo) then (set, Err EINVAL)
  else (set_word set (SIGNO_WORD_IDX signo)
          (WRITE_BIT (get_word set (SIGNO_WORD_IDX signo)) (SIGNO_WORD_BIT signo) b), Ok tt).

Definition sigaddset (set : list Z) (signo : Z) : list Z * res unit := sig_write set signo true.
Definition sigdelset (set : list Z) (signo : Z) : list Z * res unit := sig_write set signo false.

Definition sigismember (set : list Z) (signo : Z) : res Z :=
  if negb (signo_valid signo) then Err EINVAL
  else if negb (signo_fits signo) then Err EINVAL
  else Ok (Z.land 1 (Z.shiftr (get_word set (SIGNO_WORD_IDX signo)) (SIGNO_WORD_BIT signo))).

(** ** Translation of signal numbers *)

Definition Z_SIG_STD_MAP_MAX : Z := 33.
Definition K_SIG_CANCEL : Z := cancel.
Definition K_SIG_RESERVED : Z := cancel + 1.
Definition K_SIG_RTMIN : Z := cancel + 2.
Definition K_SIG_NUM_RT : Z := Z.max (SIGNAL_SET_SIZE - K_SIG_RTMIN) 0.

(** A table from its designated initialisers, later ones overriding. *)
Definition std_table (entries : list (Z * Z)) : list Z :=
  foldl (fun t e => <[Z.to_nat (fst e) := uwrap 8 (snd e)]> t) (replicate 34 0) entries.

Definition z_posix_to_k_std : list Z :=
  std_table ((0, 0) :: map (fun s => (sig s, k_sig s)) stdsigs
             ++ [(32, K_SIG_CANCEL); (33, K_SIG_RESERVED)]).

Definition z_k_to_posix_std : list Z :=
  std_table ((0, 0) :: map (fun s => (k_sig s, sig s)) stdsigs
             ++ [(K_SIG_CANCEL, 32); (K_SIG_RESERVED, 33)]).

Definition z_sig_map (signo : Z) (std_map : list Z) (rt_lo rt_hi rt_dst_base : Z) : Z :=
  if (rt_lo <=? signo) && (signo <=? rt_hi) then signo - rt_lo + rt_dst_base
  else if (signo <? 0) || (Z_SIG_STD_MAP_MAX <? signo) then -1
  else get_word std_map signo.

Definition z_sig_from_posix (s : Z) : Z :=
  z_sig_map s z_posix_to_k_std SIGRTMIN SIGRTMAX K_SIG_RTMIN.

Definition z_sig_to_posix (s : Z) : Z :=
  z_sig_map s z_k_to_posix_std K_SIG_RTMIN (K_SIG_RTMIN + K_SIG_NUM_RT) SIGRTMIN.

(** [posix > 0 ? posix : ksigno] *)
Definition ksigno_to_posix (ksigno : Z) : Z :=
  let posix := z_sig_to_posix ksigno in if 0 <? posix then posix else ksigno.

(** ** Translating numbers *)

Lemma foldl_table_miss entries t k :
  0 <= k -> (forall e, e ∈ entries -> 0 <= fst e) -> k ∉ map fst entries ->
  get_word (foldl (fun t e => <[Z.to_nat (fst e) := uwrap 8 (snd e)]> t) t entries) k = get_word t k.
Proof.
  revert t. induction entries as [|e entries IH]; intros t Hk He Hnot; [done|]. simpl in *.
  apply not_elem_of_cons in Hnot as [Hne Hnot]. rewrite IH; [|done|set_solver|done].
  unfold get_word. rewrite !nth_lookup, list_lookup_insert_ne; [done|].
  specialize (He e ltac:(left)). lia.
Qed.

Lemma std_table_lookup entries k v :
  NoDup (map fst entries) ->
  (forall e, e ∈ entries -> 0 <= fst e < 34 /\ 0 <= snd e < 256) ->
  (k, v) ∈ entries -> get_word (std_table entries) k = v.
Proof.
  unfold std_table. assert (length (replicate 34 0) = 34%nat) as Hlen by done.
  revert Hlen. generalize (replicate 34 0) as t.
  induction entries as [|e entries IH]; intros t Hlen Hnd He Hin; [by apply elem_of_nil in Hin|].
  simpl in *. apply NoDup_cons in Hnd as [Hnot Hnd].
  apply elem_of_cons in Hin as [<-|Hin].
  - rewrite foldl_table_miss; [|specialize (He (k, v) ltac:(left)); simpl in *; lia| |done].
    + simpl. specialize (He (k, v) ltac:(left)). simpl in He. unfold get_word.
      rewrite nth_lookup, list_lookup_insert_eq by lia. simpl. apply Z.mod_small. simpl. lia.
    + intros e0 H0. specialize (He e0 ltac:(by right)). lia.
  - apply IH; [by rewrite length_insert|done|set_solver|done].
Qed.

Lemma std_table_miss entries k :
  0 <= k -> (forall e, e ∈ entries -> 0 <= fst e) -> k ∉ map fst entries ->
  get_word (std_table entries) k = 0.
Proof.
  intros. unfold std_table. rewrite foldl_table_miss by done. unfold get_word.
  rewrite nth_lookup. destruct (replicate 34 0 !! Z.to_nat k) as [x|] eqn:Hx; [|done].
  apply lookup_replicate in Hx as [-> _]. done.
Qed.

Section numbers.
(** The standard signals of the C library are numbered 1 to 31 without
    repetition, real-time signals lie above 33, the tables of 34 entries leave
    the cancel signal only the number 32, and the kernel has room for the
    real-time signals. *)
Context (Hsig : forall s, 1 <= sig s <= 31) (Hinj : Inj (=) (=) sig).
Context (Hc32 : cancel = 32) (Hrtmin : 33 < SIGRTMIN <= SIGRTMAX).
Context (Hroom : K_SIG_RTMIN + (SIGRTMAX - SIGRTMIN) <= SIGNAL_SET_SIZE).

Lemma elem_of_stdsigs s : s ∈ stdsigs.
Proof. destruct s; unfold stdsigs; rewrite list_elem_of_In; simpl; tauto. Qed.

Lemma k_sig_range s : 1 <= k_sig s <= 31.
Proof. destruct s; simpl; lia. Qed.

Lemma table_keys (f g : stdsig -> Z) a b c d :
  map fst ((0, 0) :: map (fun s => (f s, g s)) stdsigs ++ [(a, b); (c, d)])
  = 0 :: map f stdsigs ++ [a; c].
Proof. reflexivity. Qed.

Lemma table_entry (f g : stdsig -> Z) a b c d e :
  e ∈ (0, 0) :: map (fun s => (f s, g s)) stdsigs ++ [(a, b); (c, d)] <->
  e = (0, 0) \/ (exists s, e = (f s, g s)) \/ e = (a, b) \/ e = (c, d).
Proof.
  rewrite elem_of_cons, elem_of_app, !elem_of_cons, elem_of_nil, list_elem_of_fmap.
  pose proof elem_of_stdsigs. naive_solver.
Qed.

(** Both tables have distinct keys below 34 and values of one byte. *)
Lemma table_wf (f g : stdsig -> Z) b d :
  (forall s, 1 <= f s <= 31) -> (forall s, 1 <= g s <= 31) -> Inj (=) (=) f ->
  0 <= b < 256 -> 0 <= d < 256 ->
  let es := (0, 0) :: map (fun s => (f s, g s)) stdsigs ++ [(32, b); (33, d)] in
  NoDup (map fst es) /\ (forall e, e ∈ es -> 0 <= fst e < 34 /\ 0 <= snd e < 256).
Proof.
  intros Hf Hg Hfi Hb Hd es. split.
  - unfold es. rewrite table_keys. apply NoDup_cons. split.
    + rewrite elem_of_app. intros [(s & Hs & _)%list_elem_of_fmap|Hin].
      * pose proof (Hf s). lia.
      * rewrite !elem_of_cons, elem_of_nil in Hin. lia.
    + apply NoDup_app. split; [|split].
      * apply (NoDup_fmap_2 f). apply (bool_decide_eq_true_1 (NoDup stdsigs)). by vm_compute.
      * intros k (s & -> & _)%list_elem_of_fmap Hin. pose proof (Hf s).
        rewrite !elem_of_cons, elem_of_nil in Hin. lia.
      * apply (bool_decide_eq_true_1 (NoDup [32; 33])). by vm_compute.
  - intros e [->|[(s & ->)|[-> | ->]]]%table_entry; simpl; try lia.
    pose proof (Hf s). pose proof (Hg s). lia.
Qed.

Lemma k_sig_inj : Inj (=) (=) k_sig.
Proof. intros s t. destruct s, t; simpl; done || lia. Qed.

Lemma posix_table k v :
  k = 0 /\ v = 0 \/ (exists s, k = sig s /\ v = k_sig s) \/ k = 32 /\ v = 32 \/ k = 33 /\ v = 33 ->
  get_word z_posix_to_k_std k = v.
Proof.
  intros Hkv. unfold z_posix_to_k_std, K_SIG_CANCEL, K_SIG_RESERVED.
  destruct (table_wf sig k_sig cancel (cancel + 1)) as [Hnd He]; auto using k_sig_range; try lia.
  apply std_table_lookup; [done..|]. apply table_entry. rewrite Hc32. naive_solver.
Qed.

Lemma k_table k v :
  k = 0 /\ v = 0 \/ (exists s, k = k_sig s /\ v = sig s) \/ k = 32 /\ v = 32 \/ k = 33 /\ v = 33 ->
  get_word z_k_to_posix_std k = v.
Proof.
  intros Hkv. unfold z_k_to_posix_std, K_SIG_CANCEL, K_SIG_RESERVED. rewrite Hc32.
  destruct (table_wf k_sig sig 32 33) as [Hnd He]; auto using k_sig_range, k_sig_inj; try lia.
  apply std_table_lookup; [done..|]. apply table_entry. naive_solver.
Qed.

(** Below the real-time range the translation is the table. *)
Lemma z_sig_map_std n t lo hi base :
  0 <= n <= 33 -> 33 < lo -> z_sig_map n t lo hi base = get_word t n.
Proof.
  intros. unfold z_sig_map, Z_SIG_STD_MAP_MAX. ztests. simpl.
  by ztests.
Qed.

Lemma from_posix_std s : z_sig_from_posix (sig s) = k_sig s.
Proof.
  pose proof (Hsig s). unfold z_sig_from_posix. rewrite z_sig_map_std by lia.
  apply posix_table. right. left. by exists s.
Qed.

Lemma from_posix_rt n : SIGRTMIN <= n <= SIGRTMAX -> z_sig_from_posix n = n - SIGRTMIN + K_SIG_RTMIN.
Proof.
  intros. unfold z_sig_from_posix, z_sig_map.
  by ztests.
Qed.

(** A number below the real-time range that names no signal maps to 0. *)
Lemma from_posix_gap n :
  0 <= n <= 31 -> (forall s, sig s <> n) -> z_sig_from_posix n = 0.
Proof.
  intros Hn Hgap. unfold z_sig_from_posix. rewrite z_sig_map_std by lia.
  destruct (Z.eq_dec n 0) as [->|Hn0]; [apply posix_table; by left|].
  unfold z_posix_to_k_std. apply std_table_miss; [lia|..].
  - intros e [->|[(s & ->)|[-> | ->]]]%table_entry; simpl; try lia. pose proof (Hsig s). lia.
  - rewrite table_keys, elem_of_cons, elem_of_app, list_elem_of_fmap, !elem_of_cons, elem_of_nil.
    intros [?|[(s & Hs & _)|[?|[?|[]]]]]; try lia. by apply (Hgap s).
Qed.

Lemma stdsig_dec n : (exists s, sig s = n) \/ (forall s, sig s <> n).
Proof.
  destruct (decide (Exists (fun s => sig s = n) stdsigs)) as [(s & _ & Hs)%Exists_exists|Hno].
  - left. by exists s.
  - right. intros s Hs. apply Hno, Exists_exists. exists s. split; [apply elem_of_stdsigs|done].
Qed.

(** Every number that has a kernel counterpart comes back. *)
Lemma sig_roundtrip n :
  0 < z_sig_from_posix n ->
  z_sig_to_posix (z_sig_from_posix n) = n /\ z_sig_from_posix n <= SIGNAL_SET_SIZE.
Proof.
  assert (K_SIG_RTMIN = 34) as Hk by (unfold K_SIG_RTMIN; lia).
  intros Hpos. unfold z_sig_to_posix.
  destruct (decide (SIGRTMIN <= n <= SIGRTMAX)) as [Hrange|Hnrt].
  - rewrite from_posix_rt by done. unfold z_sig_map, K_SIG_NUM_RT in *.
    ztests.
    simpl. lia.
  - assert (0 <= n <= 33) as Hn.
    { unfold z_sig_from_posix, z_sig_map, Z_SIG_STD_MAP_MAX in Hpos.
      destruct (Z.leb_spec SIGRTMIN n), (Z.leb_spec n SIGRTMAX), (Z.ltb_spec n 0), (Z.ltb_spec 33 n);
        simpl in Hpos; lia. }
    destruct (stdsig_dec n) as [[s <-]|Hgap].
    + rewrite from_posix_std. pose proof (k_sig_range s). rewrite z_sig_map_std by lia.
      split; [|lia]. apply k_table. right. left. by exists s.
    + destruct (Z.le_gt_cases n 31); [rewrite from_posix_gap in Hpos by (done || lia); lia|].
      assert (z_sig_from_posix n = n) as Heq.
      { unfold z_sig_from_posix. rewrite z_sig_map_std by lia. apply posix_table. lia. }
      rewrite Heq, z_sig_map_std by lia. split; [|lia]. apply k_table. lia.
Qed.

(** Signal numbers survive the round trip through the kernel's numbering.
    Every standard signal of the C library maps to the kernel's signal of that
    name, every real-time signal to the kernel's with the same offset, each
    of them back to itself, and a number that names no signal has no
    counterpart. *)
Theorem sig_number_roundtrip :
  (forall s, z_sig_from_posix (sig s) = k_sig s /\ z_sig_to_posix (k_sig s) = sig s) /\
  (forall n, SIGRTMIN <= n <= SIGRTMAX ->
     z_sig_from_posix n = K_SIG_RTMIN + (n - SIGRTMIN) /\
     z_sig_to_posix (z_sig_from_posix n) = n) /\
  (forall n, n <= 31 -> (forall s, sig s <> n) -> z_sig_from_posix n <= 0) /\
  (forall n, SIGRTMAX < n -> z_sig_from_posix n = -1).
Proof.
  split; [|split; [|split]].
  - intros s. split; [apply from_posix_std|]. rewrite <- from_posix_std.
    apply sig_roundtrip. rewrite from_posix_std. pose proof (k_sig_range s). lia.
  - intros n Hn. split; [rewrite from_posix_rt by done; lia|]. apply sig_roundtrip.
    rewrite from_posix_rt by done. unfold K_SIG_RTMIN. lia.
  - intros n Hn Hgap. destruct (Z.le_gt_cases 0 n); [by rewrite from_posix_gap by (done || lia)|].
    unfold z_sig_from_posix, z_sig_map. ztests.
    by ztests.
  - intros n Hn. unfold z_sig_from_posix, z_sig_map, Z_SIG_STD_MAP_MAX.
    rewrite (proj2 (Z.leb_gt n SIGRTMAX)), andb_false_r by lia.
    by rewrite (proj2 (Z.ltb_lt 33 n)), orb_true_r by lia.
Qed.
End numbers.

(** ** Translation of sets *)

(** u64_count_trailing_zeros, or the 32-bit one. *)
Context (count_trailing_zeros : Z -> Z).

Definition put_signal (dst : list Z) (dst_nlongs to : Z) : list Z :=
  if 0 <? to then
    let db := Z.land (to - 1) (2 ^ Z.log2 w - 1) in
    let di := (to - 1) / w in
    if di <? dst_nlongs then set_word dst di (Z.lor (get_word dst di) (Z.shiftl 1 db)) else dst
  else dst.

(** The inner loop; a word has [w] bits, so [w] rounds empty it. *)
Fixpoint remap_word (fuel : nat) (map_ : Z -> Z) (dst_nlongs wi word : Z) (dst : list Z) : list Z :=
  match fuel with
  | O => dst
  | S fuel' =>
      if word =? 0 then dst
      else
        let bit := count_trailing_zeros word in
        let from := wi * w + bit + 1 in
        let dst' := put_signal dst dst_nlongs (map_ from) in
        remap_word fuel' map_ dst_nlongs wi (Z.land word (word - 1)) dst'
  end.

Fixpoint remap_words (map_ : Z -> Z) (dst_nlongs wi : Z) (src dst : list Z) : list Z :=
  match src with
  | [] => dst
  | word :: src' =>
      remap_words map_ dst_nlongs (wi + 1) src'
        (remap_word (Z.to_nat w) map_ dst_nlongs wi word dst)
  end.

Definition sig_words_remap (src : list Z) (dst_nlongs : Z) (map_ : Z -> Z) : list Z :=
  remap_words map_ dst_nlongs 0 src (replicate (Z.to_nat dst_nlongs) 0).

Definition z_sig_set_from_posix_slow (set : list Z) : list Z :=
  sig_words_remap set K_SIGSET_NLONGS z_sig_from_posix.

Definition z_sig_set_to_posix_slow (kset : list Z) : list Z :=
  sig_words_remap kset SIGSET_NLONGS z_sig_to_posix.

Definition z_sig_set_equal : bool :=
  forallb (fun s => k_sig s =? sig s) stdsigs && (K_SIG_CANCEL =? cancel) &&
  (K_SIG_RTMIN =? SIGRTMIN) && (K_SIG_CANCEL <? K_SIG_RTMIN) &&
  (div_round_up SIGRTMAX w =? div_round_up (Z.max SIGNAL_SET_SIZE 1) w).

Definition z_sig_set_from_posix (set : list Z) : list Z :=
  if z_sig_set_equal && (K_SIGSET_NLONGS =? SIGSET_NLONGS) then set
  else z_sig_set_from_posix_slow set.

Definition z_sig_set_to_posix (kset : list Z) : list Z :=
  if z_sig_set_equal && (K_SIGSET_NLONGS =? SIGSET_NLONGS) then kset
  else z_sig_set_to_posix_slow kset.

(** ** What a set means *)

Definition sig_mem (set : list Z) (s : Z) : bool :=
  Z.testbit (get_word set ((s - 1) / w)) ((s - 1) mod w).

(** An array of [n] words. *)
Definition words (n : Z) (set : list Z) : Prop :=
  Z.of_nat (length set) = n /\ Forall (fun x => 0 <= x < 2 ^ w) set.

Context (Hw : w = 32 \/ w = 64).

Lemma w_pos : 0 < w.
Proof. destruct Hw; lia. Qed.

Lemma word_bit s : SIGNO_WORD_BIT s = (s - 1) mod w.
Proof.
  unfold SIGNO_WORD_BIT. replace (2 ^ Z.log2 w - 1) with (Z.ones (Z.log2 w))
    by (rewrite Z.ones_equiv; lia).
  rewrite Z.land_ones by apply Z.log2_nonneg. by destruct Hw as [-> | ->].
Qed.

Lemma word_bounds s n : 1 <= s <= n * w -> 0 <= (s - 1) / w < n /\ 0 <= (s - 1) mod w < w.
Proof.
  intros Hs. pose proof w_pos. split; [|apply Z.mod_pos_bound; lia].
  split; [apply Z.div_pos; lia|]. apply Z.div_lt_upper_bound; lia.
Qed.

Lemma testbit_bit b i : 0 <= b -> 0 <= i -> Z.testbit (Z.shiftl 1 b) i = (i =? b).
Proof.
  intros. rewrite Z.shiftl_spec by done. destruct (Z.eqb_spec i b) as [->|Hne].
  - by rewrite Z.sub_diag.
  - destruct (Z.le_gt_cases b i); [|by rewrite Z.testbit_neg_r by lia].
    rewrite Z.bits_above_log2; [done|lia|simpl; lia].
Qed.

Lemma write_bit_spec x bit b i :
  0 <= bit -> 0 <= i ->
  Z.testbit (WRITE_BIT x bit b) i = if i =? bit then b else Z.testbit x i.
Proof.
  intros. unfold WRITE_BIT. destruct b.
  - rewrite Z.lor_spec, testbit_bit by done. by destruct (i =? bit); [rewrite orb_true_r|rewrite orb_false_r].
  - rewrite Z.ldiff_spec, testbit_bit by done. by destruct (i =? bit); [rewrite andb_false_r|rewrite andb_true_r].
Qed.

Lemma get_set_word set i j v :
  0 <= i < Z.of_nat (length set) -> 0 <= j ->
  get_word (set_word set i v) j = if j =? i then v else get_word set j.
Proof.
  intros Hi Hj. unfold get_word, set_word. rewrite !nth_lookup.
  destruct (Z.eqb_spec j i) as [->|Hne].
  - rewrite list_lookup_insert_eq; [done|lia].
  - rewrite list_lookup_insert_ne; [done|lia].
Qed.

(** Writing the bit of [s] changes the membership of [s] alone. *)
Lemma sig_mem_write set n s t b :
  words n set -> 1 <= s <= n * w -> 1 <= t ->
  sig_mem (set_word set ((s - 1) / w)
             (WRITE_BIT (get_word set ((s - 1) / w)) ((s - 1) mod w) b)) t
  = if t =? s then b else sig_mem set t.
Proof.
  intros [Hlen _] Hs Ht. pose proof w_pos as Hpos. destruct (word_bounds s n Hs) as [Hi Hb].
  unfold sig_mem. rewrite get_set_word; [|lia|apply Z.div_pos; lia].
  assert (0 <= (t - 1) mod w) by (apply Z.mod_pos_bound; lia).
  destruct (Z.eqb_spec ((t - 1) / w) ((s - 1) / w)) as [He|Hne].
  - rewrite write_bit_spec by lia.
    destruct (Z.eqb_spec t s) as [->|Hts]; [by rewrite Z.eqb_refl|].
    rewrite (proj2 (Z.eqb_neq _ _)); [by rewrite He|]. intros Hm. apply Hts.
    pose proof (Z.div_mod (t - 1) w ltac:(lia)). pose proof (Z.div_mod (s - 1) w ltac:(lia)). lia.
  - rewrite (proj2 (Z.eqb_neq t s)); [done|]. by intros ->.
Qed.

Lemma bits_lt y : 0 <= y -> (forall i, w <= i -> Z.testbit y i = false) -> y < 2 ^ w.
Proof.
  intros Hy Hbits. pose proof w_pos.
  destruct (Z.eq_dec y 0) as [->|Hne]; [apply Z.pow_pos_nonneg; lia|].
  apply Z.log2_lt_pow2; [lia|]. apply Z.nle_gt. intros Hle.
  specialize (Hbits (Z.log2 y) Hle). rewrite Z.bit_log2 in Hbits; [done|lia].
Qed.

Lemma lt_bits x i : 0 <= x < 2 ^ w -> w <= i -> Z.testbit x i = false.
Proof.
  intros Hx Hi. destruct (Z.eq_dec x 0) as [->|Hne]; [apply Z.bits_0|].
  apply Z.bits_above_log2; [lia|]. apply Z.lt_le_trans with w; [|done]. apply Z.log2_lt_pow2; lia.
Qed.

Lemma write_bit_range x bit b : 0 <= x < 2 ^ w -> 0 <= bit < w -> 0 <= WRITE_BIT x bit b < 2 ^ w.
Proof.
  intros Hx Hbit. assert (Hnn : 0 <= WRITE_BIT x bit b).
  { unfold WRITE_BIT. destruct b.
    - apply Z.lor_nonneg. split; [lia|]. apply Z.shiftl_nonneg. lia.
    - apply Z.ldiff_nonneg. lia. }
  split; [done|]. apply bits_lt; [done|]. intros i Hi.
  rewrite write_bit_spec, (proj2 (Z.eqb_neq _ _)) by lia. by apply lt_bits.
Qed.

Lemma get_word_range n set i : words n set -> 0 <= get_word set i < 2 ^ w.
Proof.
  intros [_ Hall]. unfold get_word. rewrite nth_lookup.
  destruct (set !! Z.to_nat i) as [x|] eqn:Hx; simpl.
  - by apply (Forall_lookup_1 _ _ _ _ Hall Hx).
  - pose proof w_pos. split; [lia|apply Z.pow_pos_nonneg; lia].
Qed.

Lemma words_write n set s b :
  words n set -> 1 <= s <= n * w ->
  words n (set_word set ((s - 1) / w)
             (WRITE_BIT (get_word set ((s - 1) / w)) ((s - 1) mod w) b)).
Proof.
  intros Hset Hs. destruct (word_bounds s n Hs). pose proof Hset as [Hl Hall].
  split; [unfold set_word; by rewrite length_insert|].
  apply Forall_insert; [done|]. apply write_bit_range; [by eapply get_word_range|done].
Qed.

Lemma words_replicate n x : 0 <= n -> 0 <= x < 2 ^ w -> words n (replicate (Z.to_nat n) x).
Proof. intros. split; [rewrite length_replicate; lia|]. by apply Forall_replicate. Qed.

Lemma sig_mem_replicate n x s :
  1 <= s <= n * w -> sig_mem (replicate (Z.to_nat n) x) s = Z.testbit x ((s - 1) mod w).
Proof.
  intros Hs. destruct (word_bounds s n Hs). unfold sig_mem, get_word.
  rewrite nth_lookup, lookup_replicate_2 by lia. done.
Qed.

(** ** The set functions *)

Section sets.
(** SIGRTMIN and SIGRTMAX are ordered, and the cancel signal lies above the
    standard ones, as the assertion K_SIG_RTMIN > Z_SIG_STD_MAP_MAX demands. *)
Context (Hrt : 0 < SIGRTMIN <= SIGRTMAX) (Hcancel : 31 < cancel).

Lemma div_round_up_le n : n <= div_round_up n w * w.
Proof.
  unfold div_round_up. pose proof w_pos.
  pose proof (Z.div_mod (n + w - 1) w ltac:(lia)). pose proof (Z.mod_pos_bound (n + w - 1) w). lia.
Qed.

Lemma nlongs_nonneg : 0 <= SIGSET_NLONGS.
Proof. unfold SIGSET_NLONGS, div_round_up. pose proof w_pos. apply Z.div_pos; lia. Qed.

Lemma valid_range s : signo_valid s = true -> 1 <= s <= SIGRTMAX /\ (s < SIGRTMIN -> s <= 31).
Proof.
  unfold signo_valid. destruct (_ || _) eqn:Hr; [done|]. apply orb_false_iff in Hr as [Hr _].
  destruct (s <? SIGRTMIN) eqn:Hlt; lia.
Qed.

(** Every valid signal has a place in a set. *)
Lemma valid_fits s : signo_valid s = true -> signo_fits s = true /\ 1 <= s <= SIGSET_NLONGS * w.
Proof.
  intros Hv%valid_range. pose proof (div_round_up_le SIGRTMAX). unfold signo_fits, SIGSET_NLONGS. lia.
Qed.

Lemma land_1 x : Z.land 1 x = if Z.testbit x 0 then 1 else 0.
Proof.
  rewrite Z.land_comm. change (Z.land x 1) with (Z.land x (Z.ones 1)).
  rewrite Z.land_ones by lia. change (2 ^ 1) with 2. rewrite <- Z.bit0_mod. by destruct (Z.testbit x 0).
Qed.

Lemma sigismember_spec set s :
  signo_valid s = true -> sigismember set s = Ok (if sig_mem set s then 1 else 0).
Proof.
  intros Hv. unfold sigismember. destruct (valid_fits s Hv) as [-> Hs]. rewrite Hv. simpl.
  rewrite word_bit, land_1, Z.shiftr_spec by lia. done.
Qed.

Lemma sig_write_spec set s b :
  words SIGSET_NLONGS set -> signo_valid s = true ->
  exists set', sig_write set s b = (set', Ok tt) /\ words SIGSET_NLONGS set' /\
    forall t, 1 <= t -> sig_mem set' t = if t =? s then b else sig_mem set t.
Proof.
  intros Hset Hv. unfold sig_write. destruct (valid_fits s Hv) as [-> Hs]. rewrite Hv. simpl.
  rewrite word_bit. eexists. split; [done|]. split; [by apply words_write|].
  intros t Ht. by apply (sig_mem_write set SIGSET_NLONGS).
Qed.

Lemma clear_reserved_spec set s :
  words SIGSET_NLONGS set ->
  words SIGSET_NLONGS (clear_reserved set s) /\
  forall t, 1 <= t <= SIGSET_NLONGS * w ->
    sig_mem (clear_reserved set s) t = sig_mem set t && negb (t =? s).
Proof.
  intros Hset. unfold clear_reserved. destruct (_ && _) eqn:Hc.
  - rewrite word_bit. assert (1 <= s <= SIGSET_NLONGS * w) by lia.
    split; [by apply words_write|]. intros t Ht. unfold SIGNO_WORD_IDX.
    rewrite (sig_mem_write set SIGSET_NLONGS) by (done || lia).
    destruct (t =? s); [by rewrite andb_false_r|by rewrite andb_true_r].
  - split; [done|]. intros t Ht. ztests. by rewrite andb_true_r.
Qed.

Lemma clear_all_spec l set :
  words SIGSET_NLONGS set ->
  words SIGSET_NLONGS (foldl clear_reserved set l) /\
  forall t, 1 <= t <= SIGSET_NLONGS * w ->
    sig_mem (foldl clear_reserved set l) t = sig_mem set t && forallb (fun s => negb (t =? s)) l.
Proof.
  revert set. induction l as [|s l IH]; intros set Hset; simpl.
  - split; [done|]. intros. by rewrite andb_true_r.
  - destruct (clear_reserved_spec set s Hset) as [Hset' Hs]. destruct (IH _ Hset') as [Hw' Ht].
    split; [done|]. intros t Hr. rewrite Ht, Hs by done. by rewrite andb_assoc.
Qed.

Lemma sigfillset_spec t : signo_valid t = true -> sig_mem sigfillset t = true.
Proof.
  intros Hv. destruct (valid_fits t Hv) as [_ Ht]. pose proof (valid_range t Hv) as [_ Hlow].
  pose proof nlongs_nonneg. pose proof w_pos as Hpos.
  unfold sigfillset. destruct (clear_all_spec ((fun i => cancel + Z.of_nat i) <$>
    seq 0 (Z.to_nat (SIGRTMIN - cancel))) (replicate (Z.to_nat SIGSET_NLONGS) (2 ^ w - 1)))
    as [_ Hfold].
  { apply words_replicate; [done|]. pose proof (Z.pow_pos_nonneg 2 w). lia. }
  rewrite Hfold by done.
  apply andb_true_iff. split.
  - rewrite sig_mem_replicate by done. replace (2 ^ w - 1) with (Z.ones w) by (rewrite Z.ones_equiv; lia).
    apply Z.ones_spec_low. apply Z.mod_pos_bound. lia.
  - apply forallb_forall. intros s Hs. apply list_elem_of_In, list_elem_of_fmap in Hs as (i & -> & Hi).
    apply elem_of_seq in Hi. apply negb_true_iff, Z.eqb_neq. lia.
Qed.

(** Signal sets are sets.  For a well-formed sigset_t: sigaddset and
    sigdelset of a valid signal succeed and change the membership of that
    signal alone; sigemptyset has no member and sigfillset has every valid
    signal; and for an invalid or reserved signal number all of them fail
    with EINVAL and leave the set as it was. *)
Theorem sigset_spec set :
  words SIGSET_NLONGS set ->
  (forall s t, signo_valid s = true -> signo_valid t = true ->
     exists added deleted, sigaddset set s = (added, Ok tt) /\ sigdelset set s = (deleted, Ok tt) /\
       sigismember added t = (if t =? s then Ok 1 else sigismember set t) /\
       sigismember deleted t = (if t =? s then Ok 0 else sigismember set t)) /\
  (forall t, signo_valid t = true -> sigismember sigemptyset t = Ok 0 /\ sigismember sigfillset t = Ok 1) /\
  (forall s, signo_valid s = false ->
     sigaddset set s = (set, Err EINVAL) /\ sigdelset set s = (set, Err EINVAL) /\
     sigismember set s = Err EINVAL).
Proof.
  intros Hset. split; [|split].
  - intros s t Hs Ht. pose proof (valid_range t Ht) as [? _].
    destruct (sig_write_spec set s true Hset Hs) as (set1 & H1 & _ & Hm1).
    destruct (sig_write_spec set s false Hset Hs) as (set2 & H2 & _ & Hm2).
    exists set1, set2. split; [done|]. split; [done|].
    rewrite !sigismember_spec, Hm1, Hm2 by (done || lia). by destruct (t =? s).
  - intros t Ht. rewrite !sigismember_spec, sigfillset_spec by done.
    destruct (valid_fits t Ht). unfold sigemptyset.
    by rewrite sig_mem_replicate, Z.bits_0 by done.
  - intros s Hs. unfold sigaddset, sigdelset, sig_write, sigismember. by rewrite Hs.
Qed.
End sets.

(** ** Translating sets *)

Section remap.
(** What the kernel documents of its count-trailing-zeros functions. *)
Context (Hctz : forall x, 0 < x < 2 ^ w ->
  0 <= count_trailing_zeros x < w /\ Z.testbit x (count_trailing_zeros x) = true /\
  forall j, 0 <= j < count_trailing_zeros x -> Z.testbit x j = false).

(** [word &= word - 1] clears the lowest bit that is set. *)
Lemma clear_lowest x k i :
  0 <= k -> Z.testbit x k = true -> (forall j, 0 <= j < k -> Z.testbit x j = false) -> 0 <= i ->
  Z.testbit (Z.land x (x - 1)) i = Z.testbit x i && negb (i =? k).
Proof.
  intros Hk Hbit Hlow Hi. rewrite Z.land_spec.
  assert (0 < 2 ^ k) as Hp by (apply Z.pow_pos_nonneg; lia).
  assert (x mod 2 ^ k = 0) as Hmod.
  { apply Z.bits_inj'. intros j Hj. rewrite Z.bits_0. destruct (Z.lt_ge_cases j k).
    - rewrite Z.mod_pow2_bits_low by lia. apply Hlow. lia.
    - by rewrite Z.mod_pow2_bits_high by lia. }
  assert (Z.testbit (x / 2 ^ k) 0 = true) as Hodd by (by rewrite Z.div_pow2_bits by lia).
  rewrite Z.bit0_odd in Hodd. apply Z.odd_spec in Hodd as [m Hm].
  assert (x = 2 ^ k * (2 * m + 1)) as Hx by (rewrite <- Hm; pose proof (Z.div_mod x (2 ^ k)); lia).
  assert ((x - 1) / 2 ^ k = 2 * m) as Hpred.
  { symmetry. apply (Z.div_unique _ _ _ (2 ^ k - 1)); [lia|]. rewrite Hx. ring. }
  destruct (Z.eqb_spec i k) as [->|Hne]; simpl.
  - replace k with (0 + k) at 2 by lia. rewrite <- Z.div_pow2_bits, Hpred by lia.
    by rewrite Z.testbit_even_0, !andb_false_r.
  - rewrite andb_true_r. destruct (Z.lt_ge_cases i k); [by rewrite Hlow by lia|].
    replace i with (Z.succ (i - k - 1) + k) by lia.
    rewrite <- !Z.div_pow2_bits by lia. rewrite Hm, Hpred.
    rewrite Z.testbit_odd_succ, Z.testbit_even_succ by lia. apply andb_diag.
Qed.

(** Signal [t] has a place in a destination of [n] words. *)
Definition in_range (n t : Z) : bool := (0 <? t) && (t <=? n * w).

Lemma put_signal_spec n dst to :
  words n dst ->
  words n (put_signal dst n to) /\
  forall t, 1 <= t <= n * w -> sig_mem (put_signal dst n to) t = sig_mem dst t || (t =? to).
Proof.
  intros Hd. unfold put_signal. pose proof w_pos as Hpos.
  destruct (Z.ltb_spec 0 to) as [Hto|Hto].
  - fold (SIGNO_WORD_BIT to). rewrite word_bit.
    destruct (Z.ltb_spec ((to - 1) / w) n) as [Hdi|Hdi].
    + assert (1 <= to <= n * w) as Hr.
      { split; [lia|]. pose proof (Z.div_mod (to - 1) w). pose proof (Z.mod_pos_bound (to - 1) w). nia. }
      split; [by apply (words_write n dst to true)|]. intros t Ht.
      change (Z.lor ?a (Z.shiftl 1 ?b)) with (WRITE_BIT a b true).
      rewrite (sig_mem_write dst n) by (done || lia).
      destruct (t =? to); [by rewrite orb_true_r|by rewrite orb_false_r].
    + split; [done|]. intros t Ht. rewrite (proj2 (Z.eqb_neq t to)); [by rewrite orb_false_r|].
      intros ->. pose proof (word_bounds to n Ht). lia.
  - split; [done|]. intros t Ht. ztests. by rewrite orb_false_r.
Qed.

(** A word translated: with bits only from [w - fuel] up, [fuel] rounds are
    enough to visit each of them. *)
Lemma remap_word_spec fuel map_ n wi word dst :
  words n dst -> 0 <= word < 2 ^ w -> (fuel <= Z.to_nat w)%nat ->
  (forall j, 0 <= j < w - Z.of_nat fuel -> Z.testbit word j = false) ->
  words n (remap_word fuel map_ n wi word dst) /\
  forall t, 1 <= t <= n * w ->
    sig_mem (remap_word fuel map_ n wi word dst) t = true <->
    sig_mem dst t = true \/
    exists b, 0 <= b < w /\ Z.testbit word b = true /\ map_ (wi * w + b + 1) = t.
Proof.
  pose proof w_pos as Hpos.
  revert word dst. induction fuel as [|fuel IH]; intros word dst Hd Hword Hf Hlow; simpl.
  - split; [done|]. intros t Ht. split; [by left|]. intros [?|(b & Hb & Htb & _)]; [done|].
    rewrite Hlow in Htb by lia. done.
  - destruct (Z.eqb_spec word 0) as [->|Hnz].
    { split; [done|]. intros t Ht. split; [by left|]. intros [?|(b & Hb & Htb & _)]; [done|].
      by rewrite Z.bits_0 in Htb. }
    destruct (Hctz word) as (Hk & Hbit & Hlk); [lia|]. set (k := count_trailing_zeros word) in *.
    destruct (put_signal_spec n dst (map_ (wi * w + k + 1)) Hd) as [Hd' Hput].
    assert (Hclear := clear_lowest word k).
    destruct (IH (Z.land word (word - 1)) _ Hd') as [Hw' Hmem].
    + assert (0 <= Z.land word (word - 1)) as Hnn by (apply Z.land_nonneg; lia).
      split; [done|]. apply bits_lt; [done|]. intros i Hi. by rewrite Z.land_spec, lt_bits.
    + lia.
    + intros j Hj. rewrite Hclear by (done || lia). destruct (Z.eqb_spec j k) as [->|Hjk].
      * by rewrite andb_false_r.
      * rewrite andb_true_r. destruct (Z.lt_ge_cases j k); [apply Hlk; lia|].
        apply Hlow. destruct (Z.lt_ge_cases k (w - Z.of_nat (S fuel))); [|lia].
        rewrite Hlow in Hbit by lia. done.
    + split; [done|]. intros t Ht. rewrite Hmem, Hput, orb_true_iff, Z.eqb_eq by done. split.
      * intros [[?| ->]|(b & Hb & Htb & Hm)]; [by left|right; by exists k|]. right. exists b.
        rewrite Hclear in Htb by (done || lia). by apply andb_true_iff in Htb as [? _].
      * intros [?|(b & Hb & Htb & Hm)]; [by left; left|].
        destruct (Z.eq_dec b k) as [->|Hne]; [by left; right|]. right. exists b.
        rewrite Hclear, Htb by (done || lia). by rewrite (proj2 (Z.eqb_neq _ _)).
Qed.

Lemma remap_words_spec map_ n src wi dst :
  words n dst -> Forall (fun x => 0 <= x < 2 ^ w) src ->
  words n (remap_words map_ n wi src dst) /\
  forall t, 1 <= t <= n * w ->
    sig_mem (remap_words map_ n wi src dst) t = true <->
    sig_mem dst t = true \/
    exists i word b, src !! i = Some word /\ 0 <= b < w /\ Z.testbit word b = true /\
      map_ ((wi + Z.of_nat i) * w + b + 1) = t.
Proof.
  revert wi dst. induction src as [|x src IH]; intros wi dst Hd Hs; simpl.
  - split; [done|]. intros t Ht. split; [by left|]. by intros [?|(i & word & b & Hi & _)].
  - apply Forall_cons in Hs as [Hx Hs].
    destruct (remap_word_spec (Z.to_nat w) map_ n wi x dst Hd Hx) as [Hd1 Hm1]; [lia|lia|].
    destruct (IH (wi + 1) _ Hd1 Hs) as [Hd2 Hm2]. split; [done|].
    intros t Ht. rewrite Hm2, Hm1 by done. split.
    + intros [[?|(b & ? & ? & ?)]|(i & word & b & ? & ? & ? & Hm)]; [by left|right..].
      * exists 0%nat, x, b. by rewrite Z.add_0_r.
      * exists (S i), word, b. repeat split; try done; try lia. rewrite <- Hm. f_equal. lia.
    + intros [?|([|i] & word & b & Hi & ? & ? & Hm)]; [by left; left|..]; simpl in Hi; simplify_eq.
      * left. right. exists b. by rewrite Z.add_0_r in *.
      * right. exists i, word, b. repeat split; try done; try lia. f_equal. lia.
Qed.

(** The translation of a set is the image of its members: each signal with a
    counterpart that fits appears, and nothing else does. *)
Lemma sig_words_remap_spec map_ n m src :
  0 <= n -> words m src ->
  words n (sig_words_remap src n map_) /\
  forall t, 1 <= t <= n * w ->
    sig_mem (sig_words_remap src n map_) t = true <->
    exists s, 1 <= s <= m * w /\ sig_mem src s = true /\ map_ s = t.
Proof.
  intros Hn [Hlen Hsrc]. pose proof w_pos as Hpos.
  assert (words n (replicate (Z.to_nat n) 0)) as Hz.
  { apply words_replicate; [done|]. pose proof (Z.pow_pos_nonneg 2 w). lia. }
  destruct (remap_words_spec map_ n src 0 _ Hz Hsrc) as [Hd Hm]. split; [done|].
  intros t Ht. unfold sig_words_remap. rewrite Hm, sig_mem_replicate, Z.bits_0 by done. split.
  - intros [?|(i & word & b & Hi & Hb & Htb & Hmap)]; [done|].
    exists (Z.of_nat i * w + b + 1). apply lookup_lt_Some in Hi as Hlt.
    split; [nia|]. split; [|done]. unfold sig_mem, get_word.
    replace (Z.of_nat i * w + b + 1 - 1) with (b + Z.of_nat i * w) by lia.
    rewrite Z.div_add, Z.mod_add, Z.div_small, Z.mod_small by lia.
    rewrite Z.add_0_l, Nat2Z.id, nth_lookup, Hi. done.
  - intros (s & Hs & Hmem & Hmap). right. destruct (word_bounds s m Hs) as [Hi Hb].
    destruct (lookup_lt_is_Some_2 src (Z.to_nat ((s - 1) / w))) as [x Hx]; [lia|].
    exists (Z.to_nat ((s - 1) / w)), x, ((s - 1) mod w). split; [done|]. split; [done|].
    unfold sig_mem, get_word in Hmem. rewrite nth_lookup, Hx in Hmem. split; [done|].
    rewrite <- Hmap. f_equal. rewrite Z2Nat.id by lia. pose proof (Z.div_mod (s - 1) w). lia.
Qed.
End remap.

Section roundtrip.
(** The assumptions on the numbers, as above. *)
Context (Hsig : forall s, 1 <= sig s <= 31) (Hinj : Inj (=) (=) sig).
Context (Hc32 : cancel = 32) (Hrtmin : 33 < SIGRTMIN <= SIGRTMAX).
Context (Hroom : K_SIG_RTMIN + (SIGRTMAX - SIGRTMIN) <= SIGNAL_SET_SIZE).

(** C20: translating a set loses only signals without a counterpart.  The
    kernel set made from a POSIX set has exactly the counterparts of its
    members, and translated back it has exactly the members that have one. *)
Theorem sigset_roundtrip set :
  (forall x, 0 < x < 2 ^ w ->
     0 <= count_trailing_zeros x < w /\ Z.testbit x (count_trailing_zeros x) = true /\
     forall j, 0 <= j < count_trailing_zeros x -> Z.testbit x j = false) ->
  words SIGSET_NLONGS set ->
  let kset := z_sig_set_from_posix_slow set in
  (forall k, 1 <= k <= K_SIGSET_NLONGS * w ->
     sig_mem kset k = true <->
     exists s, 1 <= s <= SIGSET_NLONGS * w /\ sig_mem set s = true /\ z_sig_from_posix s = k) /\
  (forall t, 1 <= t <= SIGSET_NLONGS * w ->
     sig_mem (z_sig_set_to_posix_slow kset) t = sig_mem set t && (0 <? z_sig_from_posix t)).
Proof.
  intros Hctz Hset kset. pose proof w_pos as Hpos.
  assert (0 <= K_SIGSET_NLONGS) as Hk by (unfold K_SIGSET_NLONGS, div_round_up; apply Z.div_pos; lia).
  assert (0 <= SIGSET_NLONGS) as Hn by (unfold SIGSET_NLONGS, div_round_up; apply Z.div_pos; lia).
  destruct (sig_words_remap_spec Hctz z_sig_from_posix K_SIGSET_NLONGS SIGSET_NLONGS set Hk Hset)
    as [Hkset Hfrom].
  destruct (sig_words_remap_spec Hctz z_sig_to_posix SIGSET_NLONGS K_SIGSET_NLONGS kset Hn Hkset)
    as [_ Hto].
  split; [done|]. intros t Ht. apply Bool.eq_iff_eq_true.
  rewrite andb_true_iff, Z.ltb_lt. unfold z_sig_set_to_posix_slow. rewrite Hto by done. split.
  - intros (k & Hkr & Hmem & Hkt). apply Hfrom in Hmem as (s & Hs & Hsm & Hsk); [|done].
    subst k. destruct (sig_roundtrip Hsig Hinj Hc32 Hrtmin Hroom s) as [Hrt' _]; [lia|].
    rewrite Hrt' in Hkt. subst t. split; [done|lia].
  - intros [Hmem Hpt]. destruct (sig_roundtrip Hsig Hinj Hc32 Hrtmin Hroom t Hpt) as [Hrt' Hle].
    exists (z_sig_from_posix t). pose proof (div_round_up_le (Z.max SIGNAL_SET_SIZE 1)).
    assert (1 <= z_sig_from_posix t <= K_SIGSET_NLONGS * w) as Hr by (unfold K_SIGSET_NLONGS; lia).
    split; [done|]. split; [|done]. apply Hfrom; [done|]. by exists t.
Qed.
End roundtrip.
End sigset.

(** ** Witnesses: 64-bit words, the kernel's own numbering *)

(** Trailing zeros by search. *)
Fixpoint ctz_from (fuel : nat) (i x : Z) : Z :=
  match fuel with
  | O => i
  | S fuel' => if Z.testbit x i then i else ctz_from fuel' (i + 1) x
  end.

Lemma ctz_from_spec fuel i x :
  0 <= i -> (exists j, i <= j < i + Z.of_nat fuel /\ Z.testbit x j = true) ->
  i <= ctz_from fuel i x < i + Z.of_nat fuel /\ Z.testbit x (ctz_from fuel i x) = true /\
  forall j, i <= j < ctz_from fuel i x -> Z.testbit x j = false.
Proof.
  revert i. induction fuel as [|fuel IH]; intros i Hi (j & Hj & Hb); [lia|]. simpl.
  destruct (Z.testbit x i) eqn:Hx; [split; [lia|split; [done|intros; lia]]|].
  assert (j <> i) by congruence.
  destruct (IH (i + 1)) as (? & ? & Hlow); [lia|exists j; split; [lia|done]|].
  split; [lia|]. split; [done|]. intros k Hk. destruct (Z.eq_dec k i) as [->|]; [done|].
  apply Hlow. lia.
Qed.

Lemma ctz64_spec x : 0 < x < 2 ^ 64 ->
  0 <= ctz_from 64 0 x < 64 /\ Z.testbit x (ctz_from 64 0 x) = true /\
  forall j, 0 <= j < ctz_from 64 0 x -> Z.testbit x j = false.
Proof.
  intros Hx. apply (ctz_from_spec 64 0 x); [done|]. exists (Z.log2 x). split.
  - split; [apply Z.log2_nonneg|]. apply Z.log2_lt_pow2; [lia|]. simpl in *. lia.
  - apply Z.bit_log2. lia.
Qed.

Lemma sigset_spec_witness :
  sigismember 64 32 34 64 (fst (sigaddset 64 32 34 64 [0] 34)) 34 = Ok 1.
Proof.
  destruct (sigset_spec 64 32 34 64 (or_intror eq_refl) ltac:(lia) ltac:(lia) [0]) as [Hadd _].
  - split; [reflexivity|]. repeat constructor; done.
  - destruct (Hadd 34 34 eq_refl eq_refl) as (added & deleted & Ha & _ & Hm & _).
    rewrite Ha. exact Hm.
Defined.

Lemma sig_number_roundtrip_witness : z_sig_to_posix 32 64 k_sig 34 (z_sig_from_posix 32 k_sig 34 64 40) = 40.
Proof.
  destruct (sig_number_roundtrip 32 64 k_sig 34 64) as (_ & Hrt & _).
  - exact k_sig_range.
  - exact k_sig_inj.
  - reflexivity.
  - lia.
  - unfold K_SIG_RTMIN. lia.
  - apply (Hrt 40). lia.
Defined.

Lemma sigset_roundtrip_witness :
  let kset := z_sig_set_from_posix_slow 64 32 64 k_sig 34 64 (ctz_from 64 0) [0x8200] in
  sig_mem 64 (z_sig_set_to_posix_slow 64 32 64 k_sig 34 64 (ctz_from 64 0) kset) 10 = true /\
  sig_mem 64 (z_sig_set_to_posix_slow 64 32 64 k_sig 34 64 (ctz_from 64 0) kset) 16 = false.
Proof.
  destruct (sigset_roundtrip 64 32 64 k_sig 34 64 (ctz_from 64 0)) with (set := [0x8200])
    as [_ Hback].
  - by right.
  - exact k_sig_range.
  - exact k_sig_inj.
  - reflexivity.
  - lia.
  - unfold K_SIG_RTMIN. lia.
  - exact ctz64_spec.
  - split; [reflexivity|]. repeat constructor; done.
  - split; apply Hback; vm_compute; done.
Defined.
