(* ===== verification/Signal.v ===== *)
(** * Signal actions, masks and delivery

    Model of the rest of [signals/signal.c], of [realtime_signals/rtsig.c],
    of pthread_sigmask and pthread_kill in [threads_base/pthread.c] and of
    the checks of [signals_ext/strsignal.c].

    The kernel's signal calls are parameters over an abstract kernel state;
    functions are addresses.  Loops that wait for the kernel take a number of
    rounds and return [None] while it is not enough. *)

From stdpp Require Import base list strings pretty.
From Stdlib Require Import ZArith Lia.
From S2P Require Import Prelude Kernel Clock SigSet.

Local Open Scope Z_scope.

(** A kernel handler: default, ignore, this layer's z_sig_shim, or another
    function. *)
Inductive k_handler := K_SIG_DFL | K_SIG_IGN | Z_SIG_SHIM | K_SIG_FUN (f : Z).

Record k_sig_action_t := mk_kact {
  kact_handler : k_handler;
  kact_user_data : Z;
  kact_flags : Z;
  kact_mask : list Z;
}.

Record sigaction_t := mk_sigaction { sa_handler : Z; sa_flags : Z; sa_mask : list Z }.

Record k_sig_info := mk_kinfo { ki_signo : Z; ki_code : Z; ki_value : Z }.
Record siginfo := mk_siginfo { si_signo : Z; si_code : Z; si_value : Z }.

Definition K_SIG_SA_RESETHAND : Z := 4.
Definition K_SIG_SA_SIGINFO : Z := 16.
Definition K_SIG_SA_NODEFER : Z := 64.

Inductive k_how := K_SIG_BLOCK | K_SIG_UNBLOCK | K_SIG_SETMASK.

(** What z_sig_shim does. *)
Inductive shim_call :=
  | ShimNothing
  | ShimHandler (f signo : Z)
  | ShimSigaction (f signo : Z) (info : siginfo).

Section signal.
Context (w cancel SIGNAL_SET_SIZE : Z) (sig : stdsig -> Z) (SIGRTMIN SIGRTMAX : Z).
Context (count_trailing_zeros : Z -> Z).

Abbreviation valid := (signo_valid cancel SIGRTMIN SIGRTMAX).
Abbreviation from_posix := (z_sig_from_posix cancel sig SIGRTMIN SIGRTMAX).
Abbreviation to_posix := (ksigno_to_posix cancel SIGNAL_SET_SIZE sig SIGRTMIN).
Abbreviation set_from :=
  (z_sig_set_from_posix w cancel SIGNAL_SET_SIZE sig SIGRTMIN SIGRTMAX count_trailing_zeros).
Abbreviation set_to :=
  (z_sig_set_to_posix w cancel SIGNAL_SET_SIZE sig SIGRTMIN SIGRTMAX count_trailing_zeros).

(** The C library's constants. *)
Context (SIG_DFL SIG_IGN SA_SIGINFO SA_RESETHAND SA_NODEFER : Z).
Context (SIG_BLOCK SIG_UNBLOCK SIG_SETMASK : Z).

(** The kernel. *)
Context {K : Type}.
Context (k_sig_action : K -> Z -> option k_sig_action_t -> K * res k_sig_action_t).
Context (k_sig_mask : K -> k_how -> option (list Z) -> K * res (list Z)).
Context (k_sig_pending : K -> res (list Z)).
Context (k_sig_queue : K -> Z -> Z -> Z -> K * res unit).
(** What the kernel shows at each round of a wait. *)
Context (k_sig_delivered : K -> nat -> Z).
Context (k_sig_timedwait : K -> nat -> list Z -> Z -> res (Z * k_sig_info)).

(** ** Actions *)

Definition ksigset_to_posix (ksrc : list Z) : list Z := set_to ksrc.

Definition kinfo_to_siginfo (src : k_sig_info) (signo : Z) : siginfo :=
  mk_siginfo signo (ki_code src) (ki_value src).

(** [action] is what k_sig_current reports for the signal being handled; a
    user_data of 0 is NULL. *)
Definition z_sig_shim (action : k_sig_action_t) (ksigno : Z) (kinfo : k_sig_info) : shim_call :=
  let signo := to_posix ksigno in
  if kact_user_data action =? 0 then ShimNothing
  else if flag_set (kact_flags action) K_SIG_SA_SIGINFO then
    ShimSigaction (kact_user_data action) signo (kinfo_to_siginfo kinfo signo)
  else ShimHandler (kact_user_data action) signo.

(** [x |= to] when [flags & from]. *)
Definition carry (flags from to x : Z) : Z := if flag_set flags from then Z.lor x to else x.

Definition posix_sig_disposition_get (koact : k_sig_action_t) : sigaction_t :=
  let handler :=
    match kact_handler koact with
    | Z_SIG_SHIM => kact_user_data koact
    | K_SIG_FUN f => f
    | K_SIG_IGN => SIG_IGN
    | K_SIG_DFL => SIG_DFL
    end in
  let flags :=
    carry (kact_flags koact) K_SIG_SA_NODEFER SA_NODEFER
      (carry (kact_flags koact) K_SIG_SA_RESETHAND SA_RESETHAND
         (carry (kact_flags koact) K_SIG_SA_SIGINFO SA_SIGINFO 0)) in
  mk_sigaction handler flags (ksigset_to_posix (kact_mask koact)).

(** The kernel action built from a non-NULL [act]. *)
Definition act_to_kact (act : sigaction_t) : k_sig_action_t :=
  let '(handler, user_data) :=
    if (sa_handler act =? SIG_DFL) || (sa_handler act =? SIG_IGN) then
      (if sa_handler act =? SIG_IGN then K_SIG_IGN else K_SIG_DFL, 0)
    else (Z_SIG_SHIM, sa_handler act) in
  let flags :=
    carry (sa_flags act) SA_NODEFER K_SIG_SA_NODEFER
      (carry (sa_flags act) SA_RESETHAND K_SIG_SA_RESETHAND
         (carry (sa_flags act) SA_SIGINFO K_SIG_SA_SIGINFO 0)) in
  mk_kact handler user_data flags (set_from (sa_mask act)).

(** The result is what is stored through a non-NULL [oact]. *)
Definition sigaction (k : K) (signo : Z) (act : option sigaction_t) : K * res sigaction_t :=
  if negb (valid signo) then (k, Err EINVAL)
  else
    let ksigno := from_posix signo in
    if ksigno <=? 0 then (k, Err EINVAL)
    else
      match k_sig_action k ksigno (act_to_kact <$> act) with
      | (k', Err e) => (k', Err e)
      | (k', Ok koact) => (k', Ok (posix_sig_disposition_get koact))
      end.

(** ** Masks *)

(** The second component is stored through a non-NULL [oset]. *)
Definition pthread_sigmask (k : K) (how : Z) (set : option (list Z)) : K * res (list Z) :=
  let run h :=
    match k_sig_mask k h (set_from <$> set) with
    | (k', Err e) => (k', Err e)
    | (k', Ok okset) => (k', Ok (set_to okset))
    end in
  if how =? SIG_BLOCK then run K_SIG_BLOCK
  else if how =? SIG_SETMASK then run K_SIG_SETMASK
  else if how =? SIG_UNBLOCK then run K_SIG_UNBLOCK
  else (k, Err EINVAL).

Definition sigprocmask (k : K) (how : Z) (set : option (list Z)) : K * res (list Z) :=
  pthread_sigmask k how set.

Definition sigpending (k : K) (set_null : bool) : res (list Z) :=
  if set_null then Err EINVAL
  else match k_sig_pending k with
       | Err e => Err e
       | Ok kset => Ok (ksigset_to_posix kset)
       end.

(** ** Waiting *)

(** Rounds of the loop until the delivery count differs from [start]. *)
Fixpoint posix_sig_wait_delivered (rounds : nat) (i : nat) (k : K) (start : Z) : option nat :=
  match rounds with
  | O => None
  | S rounds' =>
      if k_sig_delivered k i =? start then posix_sig_wait_delivered rounds' (S i) k start
      else Some i
  end.

Definition pause (rounds : nat) (k : K) : option (res unit) :=
  match posix_sig_wait_delivered rounds 1 k (k_sig_delivered k 0) with
  | None => None
  | Some _ => Some (Err EINTR)
  end.

Definition sigsuspend (rounds : nat) (k : K) (sigmask : option (list Z)) : option (K * res unit) :=
  match sigmask with
  | None => Some (k, Err EINVAL)
  | Some m =>
      let start := k_sig_delivered k 0 in
      match k_sig_mask k K_SIG_SETMASK (Some (set_from m)) with
      | (k1, Err e) => Some (k1, Err e)
      | (k1, Ok kold) =>
          match posix_sig_wait_delivered rounds 1 k1 start with
          | None => None
          | Some _ =>
              let '(k2, _) := k_sig_mask k1 K_SIG_SETMASK (Some kold) in Some (k2, Err EINTR)
          end
      end
  end.

(** [do ret = k_sig_timedwait(...) while (ret == -EAGAIN)] *)
Fixpoint timedwait_loop (rounds i : nat) (k : K) (kset : list Z) :
  option (res (Z * k_sig_info)) :=
  match rounds with
  | O => None
  | S rounds' =>
      match k_sig_timedwait k i kset 100 with
      | Err EAGAIN => timedwait_loop rounds' (S i) k kset
      | r => Some r
      end
  end.

(** Returns the number stored in [*sig]. *)
Definition sigwait (rounds : nat) (k : K) (set : option (list Z)) (sig_null : bool) :
  option (res Z) :=
  match set with
  | None => Some (Err EINVAL)
  | Some s =>
      if sig_null then Some (Err EINVAL)
      else match timedwait_loop rounds 0 k (set_from s) with
           | None => None
           | Some (Err e) => Some (Err e)
           | Some (Ok (_, kinfo)) => Some (Ok (to_posix (ki_signo kinfo)))
           end
  end.

(** A negative timeout is K_FOREVER. *)
Definition sigwait_poll (rounds : nat) (k : K) (kset : list Z) (timeout : Z) :
  option (res (Z * k_sig_info)) :=
  if timeout =? K_FOREVER then timedwait_loop rounds 0 k kset
  else Some (k_sig_timedwait k 0 kset timeout).

Definition rt_kinfo_to_siginfo (src : k_sig_info) : siginfo :=
  mk_siginfo (to_posix (ki_signo src)) (ki_code src) (ki_value src).

Definition sigwait_result (r : res (Z * k_sig_info)) (want_info : bool) : res (Z * option siginfo) :=
  match r with
  | Err e => Err e
  | Ok (ret, kinfo) =>
      Ok (to_posix ret, if want_info then Some (rt_kinfo_to_siginfo kinfo) else None)
  end.

Definition sigtimedwait (rounds : nat) (k : K) (set : option (list Z)) (want_info : bool)
  (timeout : option timespec) : option (res (Z * option siginfo)) :=
  match set with
  | None => Some (Err EINVAL)
  | Some s =>
      let to :=
        match timeout with
        | None => K_FOREVER
        | Some ts => Z.max 0 (tv_sec ts * MSEC_PER_SEC + Z.quot (tv_nsec ts) NSEC_PER_MSEC)
        end in
      match sigwait_poll rounds k (set_from s) to with
      | None => None
      | Some r => Some (sigwait_result r want_info)
      end
  end.

Definition sigwaitinfo (rounds : nat) (k : K) (set : option (list Z)) (want_info : bool) :
  option (res (Z * option siginfo)) :=
  match set with
  | None => Some (Err EINVAL)
  | Some s =>
      match sigwait_poll rounds k (set_from s) K_FOREVER with
      | None => None
      | Some r => Some (sigwait_result r want_info)
      end
  end.

(** ** Sending *)

(** The signal number a sender passes to the kernel; 0 only probes. *)
Definition kill_signo (signo : Z) : option Z :=
  if signo =? 0 then Some 0
  else if negb (valid signo) then None
  else let ksigno := from_posix signo in if ksigno <=? 0 then None else Some ksigno.

(** [current] is k_current_get(), [to_k_thread] the thread of a handle. *)
Definition kill (k : K) (getpid current : Z) (to_k_thread : Z -> Z) (pid signo : Z) :
  K * res unit :=
  match kill_signo signo with
  | None => (k, Err EINVAL)
  | Some ksigno =>
      if pid =? getpid then k_sig_queue k current ksigno 0
      else if 0 <? pid then k_sig_queue k (to_k_thread pid) ksigno 0
      else (k, Err ESRCH)
  end.

Definition pthread_kill (k : K) (to_k_thread : Z -> Z) (thread signo : Z) : K * res unit :=
  if signo =? 0 then k_sig_queue k (to_k_thread thread) 0 0
  else
    let ksigno := from_posix signo in
    if ksigno <=? 0 then (k, Err EINVAL) else k_sig_queue k (to_k_thread thread) ksigno 0.

Definition sigqueue (k : K) (to_k_thread : Z -> Z) (pid signo value : Z) : K * res unit :=
  if (signo <? 0) || (SIGNAL_SET_SIZE <? signo) then (k, Err EINVAL)
  else if (pid =? 0) || (pid =? -1) then (k, Err ESRCH)
  else
    let ksigno := from_posix signo in
    if ksigno <? 0 then (k, Err EINVAL) else k_sig_queue k (to_k_thread pid) ksigno value.

(** [k_sig_alarm] takes the seconds, [None] to disarm, and returns the ticks
    that were left; [ticks_to_ms] is k_ticks_to_ms_ceil64. *)
Definition alarm (k_sig_alarm : option Z -> Z) (ticks_to_ms : Z -> Z) (seconds : Z) : Z :=
  let remaining := k_sig_alarm (if seconds =? 0 then None else Some seconds) in
  uwrap 32 ((ticks_to_ms (uwrap 64 remaining) + MSEC_PER_SEC - 1) / MSEC_PER_SEC).

(** ** strsignal *)

(** [rt] is CONFIG_POSIX_REALTIME_SIGNALS; [strsignal_list] the table of
    descriptions, in which a signal may have none. *)
Definition strsignal (rt : bool) (strsignal_list : Z -> option string) (signum : Z) :
  string * option errno :=
  let ok := if rt then (0 <? signum) && (signum <=? SIGNAL_SET_SIZE)
            else (0 <? signum) && (signum <=? SIGRTMAX) in
  if negb ok then ("Invalid signal"%string, Some EINVAL)
  else if (SIGRTMIN <=? signum) && (signum <=? SIGRTMAX) then
    (("RT signal " +:+ pretty (signum - SIGRTMIN))%string, None)
  else match strsignal_list signum with
       | Some s => (s, None)
       | None => (("Signal " +:+ pretty signum)%string, None)
       end.

(** ** Properties *)

(** ** Properties *)

Lemma carry_bit flags a b x i :
  0 <= a -> 0 <= b -> 0 <= i ->
  Z.testbit (carry flags (2 ^ a) (2 ^ b) x) i = Z.testbit x i || ((b =? i) && Z.testbit flags a).
Proof.
  intros. unfold carry. rewrite flag_set_pow2 by done. destruct (Z.testbit flags a).
  - by rewrite Z.lor_spec, Z.pow2_bits_eqb, andb_true_r by done.
  - by rewrite andb_false_r, orb_false_r.
Qed.

(** The three flags survive the translation to the kernel's and back. *)
Lemma flags_roundtrip flags a b c x y z :
  0 <= a -> 0 <= b -> 0 <= c -> a <> b -> a <> c -> b <> c ->
  0 <= x -> 0 <= y -> 0 <= z -> x <> y -> x <> z -> y <> z ->
  let k := carry flags (2 ^ c) (2 ^ z) (carry flags (2 ^ b) (2 ^ y) (carry flags (2 ^ a) (2 ^ x) 0)) in
  carry k (2 ^ z) (2 ^ c) (carry k (2 ^ y) (2 ^ b) (carry k (2 ^ x) (2 ^ a) 0))
  = Z.land flags (Z.lor (2 ^ a) (Z.lor (2 ^ b) (2 ^ c))).
Proof.
  intros Ha Hb Hc Hab Hac Hbc Hx Hy Hz Hxy Hxz Hyz k.
  assert (Hk : forall i, 0 <= i -> Z.testbit k i =
    ((x =? i) && Z.testbit flags a) || ((y =? i) && Z.testbit flags b) || ((z =? i) && Z.testbit flags c)).
  { intros i Hi. unfold k. by rewrite !carry_bit, Z.bits_0 by done. }
  apply Z.bits_inj'. intros i Hi. rewrite !carry_bit, Z.bits_0, !Hk by done.
  rewrite Z.land_spec, !Z.lor_spec, !Z.pow2_bits_eqb by done.
  destruct (Z.eqb_spec x y), (Z.eqb_spec x z), (Z.eqb_spec y z), (Z.eqb_spec y x),
    (Z.eqb_spec z x), (Z.eqb_spec z y); try done; try congruence. rewrite !Z.eqb_refl. simpl.
  destruct (Z.eqb_spec a i), (Z.eqb_spec b i), (Z.eqb_spec c i); subst; try done; simpl; rewrite ?andb_true_r, ?andb_false_r, ?orb_false_r; done.
Qed.

(** sigaction reports what was installed.  When a handler has been
    installed for a signal, asking for the action of that signal returns the
    same handler, the flags SA_SIGINFO, SA_RESETHAND and SA_NODEFER as they
    were given and no other flag, and the mask after its translation to the
    kernel's signals and back; [kept] is what the kernel keeps of a mask. *)
Theorem sigaction_roundtrip (kept : list Z -> list Z) k signo act k' old a b c :
  SA_SIGINFO = 2 ^ a -> SA_RESETHAND = 2 ^ b -> SA_NODEFER = 2 ^ c ->
  0 <= a -> 0 <= b -> 0 <= c -> a <> b -> a <> c -> b <> c -> SIG_DFL <> SIG_IGN -> sa_handler act <> SIG_DFL ->
  (forall x k' old, kact_handler x <> K_SIG_DFL -> 0 < from_posix signo ->
     k_sig_action k (from_posix signo) (Some x) = (k', Ok old) ->
     exists k'', k_sig_action k' (from_posix signo) None =
       (k'', Ok (mk_kact (kact_handler x) (kact_user_data x) (kact_flags x) (kept (kact_mask x))))) ->
  sigaction k signo (Some act) = (k', Ok old) ->
  exists k'', sigaction k' signo None =
    (k'', Ok (mk_sigaction (sa_handler act)
                (Z.land (sa_flags act) (Z.lor SA_SIGINFO (Z.lor SA_RESETHAND SA_NODEFER)))
                (set_to (kept (set_from (sa_mask act)))))).
Proof.
  intros Hsi Hrh Hnd Ha Hb Hc Hab Hac Hbc Hdfl Hnd' Hstore Hset. unfold sigaction in *.
  destruct (negb (valid signo)); [done|]. destruct (Z.leb_spec (from_posix signo) 0); [done|]. simpl in *.
  destruct (k_sig_action k (from_posix signo) (Some (act_to_kact act))) as [k1 [ko|e]] eqn:Hk; [|done].
  simplify_eq. apply Hstore in Hk as [k'' ->]; [|unfold act_to_kact|done].
  2: { rewrite (proj2 (Z.eqb_neq _ _) Hnd'). simpl. by destruct (sa_handler act =? SIG_IGN). }
  exists k''. do 2 f_equal. unfold posix_sig_disposition_get, act_to_kact, ksigset_to_posix.
  pose proof (flags_roundtrip (sa_flags act) a b c 4 2 6) as Hfl.
  rewrite <- Hsi, <- Hrh, <- Hnd in Hfl.
  destruct (Z.eqb_spec (sa_handler act) SIG_DFL) as [Hd|Hd], (Z.eqb_spec (sa_handler act) SIG_IGN) as [Hi|Hi];
    simpl; f_equal; try congruence; apply Hfl; lia.
Qed.

(** Sigqueue accepts numbers that name no signal.  For a number between
    1 and 31 without a signal, kill fails with EINVAL, while sigqueue asks the
    kernel to queue signal 0, which only probes the thread, and returns what
    that returns: the signal is dropped without an error. *)
Lemma sigqueue_gap k getpid current to_k_thread pid n value :
  (forall s, 1 <= sig s <= 31) -> Inj (=) (=) sig -> cancel = 32 -> 33 < SIGRTMIN <= SIGRTMAX ->
  SIGRTMAX <= SIGNAL_SET_SIZE ->
  1 <= n <= 31 -> (forall s, sig s <> n) -> pid <> 0 -> pid <> -1 ->
  kill k getpid current to_k_thread pid n = (k, Err EINVAL) /\
  sigqueue k to_k_thread pid n value = k_sig_queue k (to_k_thread pid) 0 value.
Proof.
  intros Hsig Hinj Hc Hrt Hsize Hn Hgap Hp0 Hp1.
  assert (from_posix n = 0) as Hz by (apply from_posix_gap; (done || lia)).
  split.
  - unfold kill, kill_signo. ztests.
    by destruct (valid n); simpl; rewrite ?Hz.
  - unfold sigqueue. ztests.
    by rewrite Hz.
Qed.

Lemma wait_delivered_returns rounds i k start j :
  (i <= j < i + rounds)%nat -> k_sig_delivered k j <> start ->
  is_Some (posix_sig_wait_delivered rounds i k start).
Proof.
  revert i. induction rounds as [|rounds IH]; intros i Hj Hd; [lia|]. simpl.
  destruct (Z.eqb_spec (k_sig_delivered k i) start) as [He|]; [|by eexists].
  apply IH; [|done]. assert (i <> j) by congruence. lia.
Qed.

(** Sigsuspend replaces the mask only while it waits.  Once a signal has
    been delivered it returns, always with EINTR, and the mask of the thread
    is the one it had before the call. *)
Lemma sigsuspend_restores (mask : K -> list Z) rounds k m :
  (forall k m, exists k', k_sig_mask k K_SIG_SETMASK (Some m) = (k', Ok (mask k)) /\ mask k' = m) ->
  (exists j, (1 <= j <= rounds)%nat /\ forall k1, k_sig_delivered k1 j <> k_sig_delivered k 0) ->
  exists k', sigsuspend rounds k (Some m) = Some (k', Err EINTR) /\ mask k' = mask k.
Proof.
  intros Hmask (j & Hj & Hdel). unfold sigsuspend.
  destruct (Hmask k (set_from m)) as (k1 & -> & Hk1).
  destruct (wait_delivered_returns rounds 1 k1 (k_sig_delivered k 0) j) as [i ->]; [lia|done|].
  destruct (Hmask k1 (mask k)) as (k2 & -> & Hk2). by exists k2.
Qed.
End signal.

(** ** Witnesses *)

Definition table_kernel (k : Z -> k_sig_action_t) (s : Z) (a : option k_sig_action_t) :
  (Z -> k_sig_action_t) * res k_sig_action_t :=
  (match a with Some x => fun t => if t =? s then x else k t | None => k end, Ok (k s)).

Lemma sigaction_roundtrip_witness :
  let k0 := fun _ : Z => mk_kact K_SIG_DFL 0 0 [0] in
  exists k'', sigaction 64 32 64 k_sig 34 64 (ctz_from 64 0) 0 1 4 8 16 table_kernel
      (fst (sigaction 64 32 64 k_sig 34 64 (ctz_from 64 0) 0 1 4 8 16 table_kernel k0 10
              (Some (mk_sigaction 4096 5 [2])))) 10 None
    = (k'', Ok (mk_sigaction 4096 4 [2])).
Proof.
  apply (sigaction_roundtrip 64 32 64 k_sig 34 64 (ctz_from 64 0) 0 1 4 8 16 table_kernel id
    (fun _ => mk_kact K_SIG_DFL 0 0 [0]) 10 (mk_sigaction 4096 5 [2]) _
    (mk_sigaction 0 0 [0]) 2 3 4); try (reflexivity || lia || by vm_compute).
  intros [] k' old _ _ Hk. unfold table_kernel in Hk. simplify_eq. eexists.
  unfold table_kernel. by rewrite Z.eqb_refl.
Defined.

Lemma sigqueue_gap_witness :
  sigqueue 32 64 k_sig 34 64 (fun (k : list Z) t s v => (s :: k, Ok tt)) [] id 7 16 1 = ([0], Ok tt).
Proof.
  apply (sigqueue_gap 32 64 k_sig 34 64 (fun (k : list Z) t s v => (s :: k, Ok tt))
    [] 1 100 id 7 16 1); try (exact k_sig_range || exact k_sig_inj || lia).
  by intros [].
Defined.

Lemma sigsuspend_restores_witness :
  exists k', sigsuspend 64 32 64 k_sig 34 64 (ctz_from 64 0)
    (fun (k : list Z) _ m => (default k m, Ok k)) (fun _ i => Z.of_nat i) 3 [5] (Some [9])
    = Some (k', Err EINTR) /\ k' = [5].
Proof.
  apply (sigsuspend_restores 64 32 64 k_sig 34 64 (ctz_from 64 0)
    (fun (k : list Z) _ m => (default k m, Ok k)) (fun _ i => Z.of_nat i) id 3 [5] [9]).
  - intros k m. by exists m.
  - exists 2%nat. split; [lia|done].
Defined.
