(* ===== verification/Pthread.v ===== *)
(** * Threads: attributes, priorities, mutexes and condition variables

    Model of [threads_base/pthread.c] (attributes, creation, cancellation),
    [threads_base/pthread_attr_stacksize.c], [pthread_attr_stackaddr.c],
    [threads_ext/pthread_attr_guardsize.c],
    [thread_priority_scheduling/pthread_sched.c],
    [shared/pthread_priority.c], the inline functions of
    [shared/posix_internal.h], [priority_scheduling/sched.c],
    [threads_base/mutex.c], [threads_ext/pthread_mutexattr_type.c],
    [threads_base/pthread_mutex_prio.c], [threads_base/cond.c],
    the condition-variable part of [clock_selection/clock_selection.c],
    [threads_base/key.c] and [xsi_threads_ext/pthread_concurrency.c]. *)

From stdpp Require Import base list.
From Stdlib Require Import ZArith Lia.
From S2P Require Import Prelude Kernel Clock.

Local Open Scope Z_scope.

Definition SCHED_OTHER : Z := 0.
Definition SCHED_FIFO : Z := 1.
Definition SCHED_RR : Z := 2.
Definition PTHREAD_CREATE_JOINABLE : Z := 0.
Definition PTHREAD_CREATE_DETACHED : Z := 1.
Definition PTHREAD_CANCEL_ENABLE : Z := 0.
Definition PTHREAD_CANCEL_DISABLE : Z := 1.
Definition PTHREAD_CANCEL_DEFERRED : Z := 0.
Definition PTHREAD_CANCEL_ASYNCHRONOUS : Z := 1.
Definition PTHREAD_INHERIT_SCHED : Z := 0.
Definition PTHREAD_EXPLICIT_SCHED : Z := 1.
Definition PTHREAD_SCOPE_SYSTEM : Z := 0.
Definition PTHREAD_SCOPE_PROCESS : Z := 1.
Definition PTHREAD_MUTEX_NORMAL : Z := 0.
Definition PTHREAD_MUTEX_RECURSIVE : Z := 1.
Definition PTHREAD_MUTEX_ERRORCHECK : Z := 2.
Definition PTHREAD_MUTEX_DEFAULT : Z := 3.
Definition PTHREAD_PRIO_NONE : Z := 0.
Definition PTHREAD_PRIO_INHERIT : Z := 1.
Definition PTHREAD_PRIO_PROTECT : Z := 2.

(** struct posix_thread_attr; a [stack] of 0 is NULL.  [priority] has 8 bits,
    [schedpolicy] 2, the flags 1 each. *)
Record posix_thread_attr := mk_attr {
  stack : Z;
  stacksize : Z;
  guardsize : Z;
  priority : Z;
  schedpolicy : Z;
  cancelstate : Z;
  canceltype : Z;
  contentionscope : Z;
  detachstate : Z;
  inheritsched : Z;
  initialized : bool;
}.

Definition attr_zero : posix_thread_attr := mk_attr 0 0 0 0 0 0 0 0 0 0 false.

Definition set_stack (s z : Z) (a : posix_thread_attr) : posix_thread_attr :=
  mk_attr s z (guardsize a) (priority a) (schedpolicy a) (cancelstate a) (canceltype a)
    (contentionscope a) (detachstate a) (inheritsched a) (initialized a).
Definition set_guardsize (g : Z) (a : posix_thread_attr) : posix_thread_attr :=
  mk_attr (stack a) (stacksize a) g (priority a) (schedpolicy a) (cancelstate a) (canceltype a)
    (contentionscope a) (detachstate a) (inheritsched a) (initialized a).
Definition set_priority (p : Z) (a : posix_thread_attr) : posix_thread_attr :=
  mk_attr (stack a) (stacksize a) (guardsize a) p (schedpolicy a) (cancelstate a) (canceltype a)
    (contentionscope a) (detachstate a) (inheritsched a) (initialized a).
Definition set_policy (p : Z) (a : posix_thread_attr) : posix_thread_attr :=
  mk_attr (stack a) (stacksize a) (guardsize a) (priority a) p (cancelstate a) (canceltype a)
    (contentionscope a) (detachstate a) (inheritsched a) (initialized a).
Definition set_scope (s : Z) (a : posix_thread_attr) : posix_thread_attr :=
  mk_attr (stack a) (stacksize a) (guardsize a) (priority a) (schedpolicy a) (cancelstate a)
    (canceltype a) s (detachstate a) (inheritsched a) (initialized a).
Definition set_detach (d : Z) (a : posix_thread_attr) : posix_thread_attr :=
  mk_attr (stack a) (stacksize a) (guardsize a) (priority a) (schedpolicy a) (cancelstate a)
    (canceltype a) (contentionscope a) d (inheritsched a) (initialized a).
Definition set_inherit (i : Z) (a : posix_thread_attr) : posix_thread_attr :=
  mk_attr (stack a) (stacksize a) (guardsize a) (priority a) (schedpolicy a) (cancelstate a)
    (canceltype a) (contentionscope a) (detachstate a) i (initialized a).

Section pthread.
(** CONFIG_NUM_COOP_PRIORITIES, CONFIG_NUM_PREEMPT_PRIORITIES, whether each
    kind is enabled, PTHREAD_STACK_MIN, CONFIG_SYS_THREAD_STACK_SIZE. *)
Context (NUM_COOP NUM_PREEMPT : Z) (coop preempt : bool) (STACK_MIN STACK_SIZE : Z).
(** The kernel's K_HIGHEST_THREAD_PRIO and K_LOWEST_APPLICATION_THREAD_PRIO. *)
Context (K_HIGHEST K_LOWEST_APP : Z).

(** ** Policies and priorities *)

Definition valid_posix_policy (policy : Z) : bool :=
  (policy =? SCHED_FIFO) || (policy =? SCHED_RR) || (policy =? SCHED_OTHER).

(** -1 and EINVAL for a policy that is not valid. *)
Definition posix_sched_priority_min (policy : Z) : res Z :=
  if negb (valid_posix_policy policy) then Err EINVAL else Ok 0.

Definition posix_sched_priority_max (policy : Z) : res Z :=
  if coop && (policy =? SCHED_FIFO) then Ok (NUM_COOP - 1)
  else if preempt && ((policy =? SCHED_RR) || (policy =? SCHED_OTHER)) then Ok (NUM_PREEMPT - 1)
  else Err EINVAL.

(** The value returned to C. *)
Definition int_of (r : res Z) : Z := match r with Ok v => v | Err _ => -1 end.

Definition sched_get_priority_min (policy : Z) : res Z := posix_sched_priority_min policy.
Definition sched_get_priority_max (policy : Z) : res Z := posix_sched_priority_max policy.

Definition sched_getparam (pid : Z) : res Z := Err ENOSYS.
Definition sched_getscheduler (pid : Z) : res Z := Err ENOSYS.
Definition sched_setparam (pid prio : Z) : res unit := Err ENOSYS.
Definition sched_setscheduler (pid policy prio : Z) : res Z := Err ENOSYS.
Definition sched_rr_get_interval (pid : Z) : res timespec := Err ENOSYS.

Definition is_posix_policy_prio_valid (prio policy : Z) : bool :=
  (int_of (posix_sched_priority_min policy) <=? prio) &&
  (prio <=? int_of (posix_sched_priority_max policy)).

Definition ZEPHYR_TO_POSIX_PRIORITY (zprio : Z) : Z :=
  if zprio <? 0 then -1 * (zprio + 1) else NUM_PREEMPT - zprio - 1.

Definition POSIX_TO_ZEPHYR_PRIORITY (prio pol : Z) : Z :=
  if pol =? SCHED_FIFO then -1 * (prio + 1) else NUM_PREEMPT - prio - 1.

(** Priority and policy; [None] where the assertion fails. *)
Definition zephyr_to_posix_priority (z_prio : Z) : option (Z * Z) :=
  let z := clamp z_prio K_HIGHEST (NUM_PREEMPT - 1) in
  let policy := if z <? 0 then SCHED_FIFO else SCHED_RR in
  let prio := ZEPHYR_TO_POSIX_PRIORITY z in
  if is_posix_policy_prio_valid prio policy then Some (prio, policy) else None.

Definition posix_to_zephyr_priority (prio policy : Z) : option Z :=
  if is_posix_policy_prio_valid prio policy then Some (POSIX_TO_ZEPHYR_PRIORITY prio policy)
  else None.

Definition DEFAULT_PTHREAD_POLICY : Z := if preempt then SCHED_RR else SCHED_FIFO.

Definition posix_thread_attr_default_priority : Z :=
  POSIX_TO_ZEPHYR_PRIORITY K_LOWEST_APP (if preempt then SCHED_RR else SCHED_FIFO).

(** ** Thread attributes

    An attribute object is passed as [Some a], NULL as [None]. *)

Definition posix_thread_attr_is_valid (attr : option posix_thread_attr) : bool :=
  match attr with
  | None => false
  | Some a =>
      if negb (initialized a) then false
      else if negb (stack a =? 0) && (stacksize a <? STACK_MIN) then false
      else valid_posix_policy (schedpolicy a)
  end.

Definition posix_thread_attr_init : posix_thread_attr :=
  mk_attr 0 0 0 (swrap 8 posix_thread_attr_default_priority) DEFAULT_PTHREAD_POLICY
    PTHREAD_CANCEL_ENABLE PTHREAD_CANCEL_DEFERRED PTHREAD_SCOPE_SYSTEM
    PTHREAD_CREATE_JOINABLE PTHREAD_INHERIT_SCHED true.

Definition pthread_attr_init : posix_thread_attr := posix_thread_attr_init.

(** The setters share their shape: check, then store. *)
Definition attr_update (attr : option posix_thread_attr) (ok : posix_thread_attr -> bool)
  (f : posix_thread_attr -> posix_thread_attr) : option posix_thread_attr * res unit :=
  match attr with
  | Some a => if posix_thread_attr_is_valid attr && ok a then (Some (f a), Ok tt)
              else (attr, Err EINVAL)
  | None => (None, Err EINVAL)
  end.

(** The getters too; [null] is a NULL output pointer. *)
Definition attr_read {A} (attr : option posix_thread_attr) (null : bool)
  (f : posix_thread_attr -> A) : res A :=
  match attr with
  | Some a => if negb (posix_thread_attr_is_valid attr) || null then Err EINVAL else Ok (f a)
  | None => Err EINVAL
  end.

Definition pthread_attr_destroy (attr : option posix_thread_attr) :=
  attr_update attr (fun _ => true) (fun _ => attr_zero).

(** [None] for [schedparam] is NULL. *)
Definition pthread_attr_setschedparam (attr : option posix_thread_attr) (schedparam : option Z) :=
  attr_update attr
    (fun a => match schedparam with
              | None => false
              | Some p => is_posix_policy_prio_valid p (schedpolicy a)
              end)
    (set_priority (swrap 8 (default 0 schedparam))).

Definition pthread_attr_getschedparam (attr : option posix_thread_attr) (null : bool) :=
  attr_read attr null priority.

Definition pthread_attr_setdetachstate (attr : option posix_thread_attr) (d : Z) :=
  attr_update attr
    (fun _ => (d =? PTHREAD_CREATE_DETACHED) || (d =? PTHREAD_CREATE_JOINABLE)) (set_detach d).

Definition pthread_attr_getdetachstate (attr : option posix_thread_attr) (null : bool) :=
  attr_read attr null detachstate.

Definition pthread_attr_setscope (attr : option posix_thread_attr) (s : Z) :
  option posix_thread_attr * res unit :=
  if negb (posix_thread_attr_is_valid attr) then (attr, Err EINVAL)
  else if negb ((s =? PTHREAD_SCOPE_PROCESS) || (s =? PTHREAD_SCOPE_SYSTEM)) then
    (attr, Err EINVAL)
  else if s =? PTHREAD_SCOPE_PROCESS then (attr, Err ENOTSUP)
  else (set_scope s <$> attr, Ok tt).

Definition pthread_attr_getscope (attr : option posix_thread_attr) (null : bool) :=
  attr_read attr null contentionscope.

Definition pthread_attr_setinheritsched (attr : option posix_thread_attr) (i : Z) :=
  attr_update attr
    (fun _ => (i =? PTHREAD_INHERIT_SCHED) || (i =? PTHREAD_EXPLICIT_SCHED)) (set_inherit i).

Definition pthread_attr_getinheritsched (attr : option posix_thread_attr) (null : bool) :=
  attr_read attr null inheritsched.

Definition pthread_attr_setschedpolicy (attr : option posix_thread_attr) (policy : Z) :=
  attr_update attr (fun _ => valid_posix_policy policy) (set_policy policy).

Definition pthread_attr_getschedpolicy (attr : option posix_thread_attr) (null : bool) :=
  attr_read attr null schedpolicy.

Definition pthread_attr_setstacksize (attr : option posix_thread_attr) (size : Z) :=
  attr_update attr (fun a => negb (size <? STACK_MIN) && (stack a =? 0))
    (fun a => set_stack (stack a) size a).

Definition pthread_attr_getstacksize (attr : option posix_thread_attr) (null : bool) :=
  attr_read attr null
    (fun a => if (stack a =? 0) && (stacksize a =? 0) then Z.max STACK_SIZE STACK_MIN
              else stacksize a).

Definition pthread_attr_setstack (attr : option posix_thread_attr) (addr size : Z) :=
  if addr =? 0 then (attr, Err EINVAL)
  else attr_update attr (fun _ => negb (size <? STACK_MIN)) (set_stack addr size).

Definition pthread_attr_getstack (attr : option posix_thread_attr) (null : bool) :=
  attr_read attr null (fun a => (stack a, if stack a =? 0 then 0 else stacksize a)).

Definition pthread_attr_setguardsize (attr : option posix_thread_attr) (g : Z) :=
  attr_update attr (fun _ => true) (set_guardsize g).

Definition pthread_attr_getguardsize (attr : option posix_thread_attr) (null : bool) :=
  attr_read attr null guardsize.

(** ** Threads *)

Section threads.
(** The kernel: thread objects by address.  [sys_thread_create] gets stack,
    its size, guard, the argument and start routine, priority and whether the
    thread is detached. *)
Context {K : Type}.
Context (sys_thread_create : K -> Z -> Z -> Z -> Z -> Z -> Z -> bool -> K * res Z).
Context (k_thread_priority_get : K -> Z -> Z).
Context (k_thread_priority_set : K -> Z -> Z -> K).
Context (to_k_thread to_pthread_thread : Z -> Z).
(** _POSIX_THREAD_PRIORITY_SCHEDULING *)
Context (prio_sched : bool).

(** [None] where an assertion fails. *)
Definition pthread_create (k : K) (current : Z) (attr : option posix_thread_attr)
  (start_routine arg : Z) : option (K * res Z) :=
  let attrp := match attr with None => posix_thread_attr_init | Some a => a end in
  if negb (posix_thread_attr_is_valid (Some attrp)) then
    match attr with None => None | Some _ => Some (k, Err EINVAL) end
  else
    let detached := detachstate attrp =? PTHREAD_CREATE_DETACHED in
    let prio :=
      if prio_sched && (inheritsched attrp =? PTHREAD_INHERIT_SCHED)
      then Some (k_thread_priority_get k current)
      else posix_to_zephyr_priority (priority attrp) (schedpolicy attrp) in
    match prio with
    | None => None
    | Some p =>
        match sys_thread_create k (stack attrp) (stacksize attrp) (guardsize attrp) arg
                start_routine p detached with
        | (k', Ok th) => Some (k', Ok (to_pthread_thread th))
        | (k', Err e) => Some (k', Err e)
        end
    end.

Definition pthread_setschedparam (k : K) (thread policy : Z) (param : option Z) :
  option (K * res unit) :=
  match param with
  | None => Some (k, Err EINVAL)
  | Some p =>
      if negb (valid_posix_policy policy) || negb (is_posix_policy_prio_valid p policy)
      then Some (k, Err EINVAL)
      else match posix_to_zephyr_priority p policy with
           | None => None
           | Some z => Some (k_thread_priority_set k (to_k_thread thread) z, Ok tt)
           end
  end.

(** Policy and priority. *)
Definition pthread_getschedparam (k : K) (thread : Z) (null : bool) : option (res (Z * Z)) :=
  if null then Some (Err EINVAL)
  else match zephyr_to_posix_priority (k_thread_priority_get k (to_k_thread thread)) with
       | None => None
       | Some (p, policy) => Some (Ok (policy, p))
       end.

Definition pthread_setschedprio (k : K) (thread prio : Z) : option (K * res unit) :=
  match pthread_getschedparam k thread false with
  | None => None
  | Some (Err e) => Some (k, Err e)
  | Some (Ok (policy, _)) => pthread_setschedparam k thread policy (Some prio)
  end.

(** Cancellation of the calling thread: [enabled] and [async] are the
    kernel's state; the old value is stored through a non-NULL pointer,
    which pthread_setcancelstate does even when it fails. *)
Definition pthread_setcancelstate (enabled : bool) (state : Z) : bool * Z * res unit :=
  let oldstate := if enabled then PTHREAD_CANCEL_ENABLE else PTHREAD_CANCEL_DISABLE in
  if state =? PTHREAD_CANCEL_ENABLE then (true, oldstate, Ok tt)
  else if state =? PTHREAD_CANCEL_DISABLE then (false, oldstate, Ok tt)
  else (enabled, oldstate, Err EINVAL).

Definition pthread_setcanceltype (async : bool) (type : Z) : bool * res Z :=
  let oldtype := if async then PTHREAD_CANCEL_ASYNCHRONOUS else PTHREAD_CANCEL_DEFERRED in
  if type =? PTHREAD_CANCEL_ASYNCHRONOUS then (true, Ok oldtype)
  else if type =? PTHREAD_CANCEL_DEFERRED then (false, Ok oldtype)
  else (async, Err EINVAL).

Definition pthread_self (current : Z) : Z := to_pthread_thread current.
Definition pthread_equal (pt1 pt2 : Z) : bool := pt1 =? pt2.
Definition pthread_atfork : res unit := Err ENOSYS.

(** The concurrency level is remembered, up to the number of processors. *)
Definition pthread_setconcurrency (max_cpus level new_level : Z) : Z * res unit :=
  if new_level <? 0 then (level, Err EINVAL)
  else if max_cpus <? new_level then (level, Err EAGAIN)
  else (new_level, Ok tt).
Definition pthread_getconcurrency (level : Z) : Z := level.
End threads.

(** ** Mutexes *)

Record mutexattr := mk_mutexattr { ma_type : Z; ma_initialized : bool }.

Inductive k_mutex_kind := K_MUTEX_NORMAL | K_MUTEX_RECURSIVE | K_MUTEX_ERRORCHECK.

Definition pthread_mutexattr_init (null : bool) : res mutexattr :=
  if null then Err EINVAL else Ok (mk_mutexattr PTHREAD_MUTEX_DEFAULT true).

Definition pthread_mutexattr_destroy (attr : option mutexattr) : option mutexattr * res unit :=
  match attr with
  | None => (None, Err EINVAL)
  | Some a => if negb (ma_initialized a) then (attr, Err EINVAL)
              else (Some (mk_mutexattr 0 false), Ok tt)
  end.

Definition pthread_mutexattr_gettype (attr : option mutexattr) (null : bool) : res Z :=
  match attr with
  | None => Err EINVAL
  | Some a => if null || negb (ma_initialized a) then Err EINVAL else Ok (ma_type a)
  end.

Definition pthread_mutexattr_settype (attr : option mutexattr) (type : Z) :
  option mutexattr * res unit :=
  match attr with
  | None => (None, Err EINVAL)
  | Some a =>
      if negb (ma_initialized a) then (attr, Err EINVAL)
      else if (type =? PTHREAD_MUTEX_NORMAL) || (type =? PTHREAD_MUTEX_RECURSIVE) ||
              (type =? PTHREAD_MUTEX_ERRORCHECK) || (type =? PTHREAD_MUTEX_DEFAULT)
      then (Some (mk_mutexattr type true), Ok tt)
      else (attr, Err EINVAL)
  end.

Definition pthread_mutexattr_getprotocol (attr_null protocol_null : bool) : res Z :=
  if attr_null || protocol_null then Err EINVAL else Ok PTHREAD_PRIO_NONE.

Definition pthread_mutexattr_setprotocol (attr_null : bool) (protocol : Z) : res unit :=
  if attr_null then Err EINVAL
  else if protocol =? PTHREAD_PRIO_NONE then Ok tt
  else if (protocol =? PTHREAD_PRIO_INHERIT) || (protocol =? PTHREAD_PRIO_PROTECT) then Err ENOTSUP
  else Err EINVAL.

Definition pthread_mutexattr_to_flags (attr : option mutexattr) : res k_mutex_kind :=
  match attr with
  | None => Ok K_MUTEX_NORMAL
  | Some a =>
      if negb (ma_initialized a) then Err EINVAL
      else if (ma_type a =? PTHREAD_MUTEX_DEFAULT) || (ma_type a =? PTHREAD_MUTEX_NORMAL)
      then Ok K_MUTEX_NORMAL
      else if ma_type a =? PTHREAD_MUTEX_RECURSIVE then Ok K_MUTEX_RECURSIVE
      else if ma_type a =? PTHREAD_MUTEX_ERRORCHECK then Ok K_MUTEX_ERRORCHECK
      else Err EINVAL
  end.

Section mutexes.
Context {K : Type}.
Context (sys_mutex_alloc : K -> k_mutex_kind -> K * res Z).
Context (sys_mutex_destroy : K -> Z -> K * res unit).
Context (k_mutex_lock : K -> Z -> Z -> K * res unit).
Context (k_mutex_unlock : K -> Z -> K * res unit).
Context (sys_condvar_alloc : K -> sys_clock -> K * res Z).
Context (sys_condvar_destroy : K -> Z -> K * res unit).
Context (k_condvar_wait : K -> Z -> Z -> Z -> K * res unit).
Context (k_condvar_timedwait : K -> Z -> Z -> timespec -> K * res unit).
Context (k_condvar_clockwait : K -> Z -> Z -> Z -> timespec -> K * res unit).
Context (k_condvar_signal k_condvar_broadcast : K -> Z -> K * res unit).
(** Handles: to_k_mutex, to_k_condvar, and the cast that stores one. *)
Context (to_k_mutex to_k_condvar handle_of : Z -> Z).
(** sys_timepoint_timeout(timespec_abs_rt_to_timepoint(abstime)) *)
Context (abs_timeout : timespec -> Z).
Context (PTHREAD_MUTEX_INITIALIZER PTHREAD_COND_INITIALIZER : Z).

(** The handle stored in the mutex object. *)
Definition pthread_mutex_init (k : K) (attr : option mutexattr) : K * res Z :=
  match pthread_mutexattr_to_flags attr with
  | Err _ => (k, Err EINVAL)
  | Ok flags =>
      match sys_mutex_alloc k flags with
      | (k', Err e) => (k', Err e)
      | (k', Ok mutex) => (k', Ok (handle_of mutex))
      end
  end.

Definition pthread_mutex_destroy (k : K) (mu : Z) : K * res unit :=
  sys_mutex_destroy k (to_k_mutex mu).

(** [-k_mutex_lock], with EAGAIN and EBUSY reported as ETIMEDOUT. *)
Definition lock_result (r : res unit) : res unit :=
  match r with Err EAGAIN | Err EBUSY => Err ETIMEDOUT | _ => r end.

(** A mutex object with its initialiser is initialised by its first use. *)
Definition mutex_ready (k : K) (m : Z) : K * Z * res unit :=
  if m =? PTHREAD_MUTEX_INITIALIZER then
    match pthread_mutex_init k None with
    | (k', Ok h) => (k', h, Ok tt)
    | (k', Err e) => (k', m, Err e)
    end
  else (k, m, Ok tt).

(** Returns the kernel, the handle in the mutex object and the result. *)
Definition pthread_mutex_lock_common (k : K) (m timeout : Z) : K * Z * res unit :=
  match mutex_ready k m with
  | (k1, h, Err e) => (k1, h, Err e)
  | (k1, h, Ok _) =>
      let '(k2, r) := k_mutex_lock k1 (to_k_mutex h) timeout in (k2, h, lock_result r)
  end.

Definition pthread_mutex_lock (k : K) (m : Z) := pthread_mutex_lock_common k m K_FOREVER.
Definition pthread_mutex_timedlock (k : K) (m : Z) (abstime : timespec) :=
  pthread_mutex_lock_common k m (abs_timeout abstime).
Definition pthread_mutex_trylock (k : K) (m : Z) := pthread_mutex_lock_common k m K_NO_WAIT.
Definition pthread_mutex_unlock (k : K) (mu : Z) : K * res unit := k_mutex_unlock k (to_k_mutex mu).

(** ** Condition variables *)

(** [ca_clock] is CLOCK_REALTIME or CLOCK_MONOTONIC, in 3 bits. *)
Record condattr := mk_condattr { ca_clock : clockid; ca_initialized : bool }.

Definition pthread_condattr_init (attr : option condattr) : option condattr * res unit :=
  match attr with
  | None => (None, Err EINVAL)
  | Some a => if ca_initialized a then (attr, Err EINVAL)
              else (Some (mk_condattr CLOCK_REALTIME true), Ok tt)
  end.

(** The cleared object; clock number 0 names no clock. *)
Definition pthread_condattr_destroy (attr : option condattr) : option condattr * res unit :=
  match attr with
  | None => (None, Err EINVAL)
  | Some a => if negb (ca_initialized a) then (attr, Err EINVAL)
              else (Some (mk_condattr (CLOCK_OTHER 0) false), Ok tt)
  end.

Definition pthread_condattr_getclock (attr : option condattr) : res clockid :=
  match attr with
  | None => Err EINVAL
  | Some a => if negb (ca_initialized a) then Err EINVAL else Ok (ca_clock a)
  end.

(** A clock that is neither is refused with the negated number. *)
Definition pthread_condattr_setclock (attr : option condattr) (c : clockid) :
  option condattr * cret :=
  if negb (bool_decide (c = CLOCK_REALTIME)) && negb (bool_decide (c = CLOCK_MONOTONIC))
  then (attr, RNegErr EINVAL)
  else match attr with
       | None => (None, RErr EINVAL)
       | Some a => if negb (ca_initialized a) then (attr, RErr EINVAL)
                   else (Some (mk_condattr c true), RZero)
       end.

Definition pthread_cond_init (k : K) (attr : option condattr) : K * res Z :=
  let clock :=
    match attr with
    | None => Ok SYS_CLOCK_REALTIME
    | Some a =>
        if negb (ca_initialized a) then Err EINVAL
        else match ca_clock a with
             | CLOCK_REALTIME => Ok SYS_CLOCK_REALTIME
             | CLOCK_MONOTONIC => Ok SYS_CLOCK_MONOTONIC
             | _ => Err EINVAL
             end
    end in
  match clock with
  | Err e => (k, Err e)
  | Ok c =>
      match sys_condvar_alloc k c with
      | (k', Err e) => (k', Err e)
      | (k', Ok cond) => (k', Ok (handle_of cond))
      end
  end.

Definition pthread_cond_destroy (k : K) (cvar : Z) : K * res unit :=
  sys_condvar_destroy k (to_k_condvar cvar).

Definition cond_ready (k : K) (cvar : Z) : K * Z * res unit :=
  if cvar =? PTHREAD_COND_INITIALIZER then
    match pthread_cond_init k None with
    | (k', Ok h) => (k', h, Ok tt)
    | (k', Err e) => (k', cvar, Err e)
    end
  else (k, cvar, Ok tt).

(** Returns the handles in the two objects too; a [clock_id] of -1 is none. *)
Definition cond_wait (k : K) (cvar mu clock_id : Z) (abstime : option timespec) :
  K * Z * Z * res unit :=
  match mutex_ready k mu with
  | (k1, m, Err e) => (k1, cvar, m, Err e)
  | (k1, m, Ok _) =>
      match cond_ready k1 cvar with
      | (k2, c, Err e) => (k2, c, m, Err e)
      | (k2, c, Ok _) =>
          let '(k3, r) :=
            match abstime with
            | None => k_condvar_wait k2 (to_k_condvar c) (to_k_mutex m) K_FOREVER
            | Some ts =>
                if clock_id =? -1 then k_condvar_timedwait k2 (to_k_condvar c) (to_k_mutex m) ts
                else k_condvar_clockwait k2 (to_k_condvar c) (to_k_mutex m) clock_id ts
            end in
          (k3, c, m, r)
      end
  end.

Definition pthread_cond_wait (k : K) (cv mut : Z) := cond_wait k cv mut (-1) None.

Definition pthread_cond_timedwait (k : K) (cv mut : Z) (abstime : option timespec) :=
  match abstime with
  | None => (k, cv, mut, Err EINVAL)
  | Some _ => cond_wait k cv mut (-1) abstime
  end.

Definition pthread_cond_clockwait (k : K) (cv mut clock_id : Z) (abstime : option timespec) :=
  match abstime with
  | None => (k, cv, mut, Err EINVAL)
  | Some _ => cond_wait k cv mut clock_id abstime
  end.

Definition pthread_cond_signal (k : K) (cvar : Z) : K * Z * res unit :=
  match cond_ready k cvar with
  | (k1, c, Err e) => (k1, c, Err e)
  | (k1, c, Ok _) => let '(k2, r) := k_condvar_signal k1 (to_k_condvar c) in (k2, c, r)
  end.

Definition pthread_cond_broadcast (k : K) (cvar : Z) : K * Z * res unit :=
  match cond_ready k cvar with
  | (k1, c, Err e) => (k1, c, Err e)
  | (k1, c, Ok _) => let '(k2, r) := k_condvar_broadcast k1 (to_k_condvar c) in (k2, c, r)
  end.

(** Pthread_mutex_trylock does not report EBUSY.  On a mutex that the
    kernel says is locked by another thread, which the documentation of the
    function reports as EBUSY, the caller gets ETIMEDOUT. *)
Lemma trylock_busy_is_timeout k k' m :
  m <> PTHREAD_MUTEX_INITIALIZER ->
  k_mutex_lock k (to_k_mutex m) K_NO_WAIT = (k', Err EBUSY) ->
  pthread_mutex_trylock k m = (k', m, Err ETIMEDOUT).
Proof.
  intros Hm Hk. unfold pthread_mutex_trylock, pthread_mutex_lock_common, mutex_ready.
  by rewrite (proj2 (Z.eqb_neq _ _) Hm), Hk.
Qed.
End mutexes.

(** ** Properties of priorities *)

Section priorities.
(** What the kernel's configuration guarantees. *)
Context (Hcoop : 0 <= NUM_COOP) (Hpre : 0 <= NUM_PREEMPT).
Context (Hc : coop = (0 <? NUM_COOP)) (Hhigh : K_HIGHEST = - NUM_COOP).

Lemma prio_valid_spec prio policy :
  valid_posix_policy policy = true -> is_posix_policy_prio_valid prio policy = true ->
  0 <= prio /\ (policy = SCHED_FIFO /\ coop = true /\ prio < NUM_COOP \/
   (policy = SCHED_RR \/ policy = SCHED_OTHER) /\ preempt = true /\ prio < NUM_PREEMPT).
Proof.
  unfold is_posix_policy_prio_valid, posix_sched_priority_min, posix_sched_priority_max,
    valid_posix_policy, SCHED_FIFO, SCHED_RR, SCHED_OTHER, int_of.
  destruct (Z.eqb_spec policy 1), (Z.eqb_spec policy 2), (Z.eqb_spec policy 0), coop, preempt;
    simpl; lia.
Qed.

Lemma zephyr_to_posix_spec z :
  K_HIGHEST <= z < NUM_PREEMPT -> (0 <= z -> preempt = true) ->
  zephyr_to_posix_priority z =
    Some (if z <? 0 then - (z + 1) else NUM_PREEMPT - z - 1, if z <? 0 then SCHED_FIFO else SCHED_RR).
Proof.
  intros Hz Hp. unfold zephyr_to_posix_priority, clamp, ZEPHYR_TO_POSIX_PRIORITY.
  ztests.
  unfold is_posix_policy_prio_valid, posix_sched_priority_min, posix_sched_priority_max,
    valid_posix_policy, SCHED_FIFO, SCHED_RR, SCHED_OTHER, int_of.
  destruct (Z.ltb_spec z 0) as [Hneg|Hpos]; simpl.
  - rewrite Hc, (proj2 (Z.ltb_lt 0 NUM_COOP)) by lia. simpl.
    ztests. simpl.
    done.
  - rewrite (Hp Hpos), andb_false_r. simpl.
    by ztests.
Qed.
End priorities.

(** Priorities survive the translation to the kernel's and back.  A
    priority that is valid for its policy has a kernel priority, which
    translates back to the same priority and policy, except that SCHED_OTHER
    comes back as SCHED_RR; a higher priority of a policy is a numerically
    lower kernel priority; and every SCHED_FIFO priority is above every
    priority of the other policies. *)
Theorem priority_roundtrip prio policy :
  0 <= NUM_COOP -> 0 <= NUM_PREEMPT -> coop = (0 <? NUM_COOP) -> K_HIGHEST = - NUM_COOP ->
  valid_posix_policy policy = true -> is_posix_policy_prio_valid prio policy = true ->
  exists z, posix_to_zephyr_priority prio policy = Some z /\
    zephyr_to_posix_priority z =
      Some (prio, if policy =? SCHED_OTHER then SCHED_RR else policy) /\
    (z < 0 <-> policy = SCHED_FIFO) /\
    (forall prio' z', posix_to_zephyr_priority prio' policy = Some z' ->
       (prio < prio' <-> z' < z)).
Proof.
  intros Hcoop Hpre Hc Hhigh Hpv Hv. unfold posix_to_zephyr_priority. rewrite Hv.
  eexists. split; [done|].
  pose proof (prio_valid_spec Hc prio policy Hpv Hv) as (Hp0 & Hcase).
  assert (Hmono : forall prio' z',
    (if is_posix_policy_prio_valid prio' policy
     then Some (POSIX_TO_ZEPHYR_PRIORITY prio' policy) else None) = Some z' ->
    prio < prio' <-> z' < POSIX_TO_ZEPHYR_PRIORITY prio policy).
  { intros prio' z' Hz. case_match; [|done]. injection Hz as <-.
    unfold POSIX_TO_ZEPHYR_PRIORITY. case_match; lia. }
  destruct Hcase as [(-> & Hcp & Hlt)|(Hpol & Hpr & Hlt)]; (split; [|split; [|done]]).
  - rewrite zephyr_to_posix_spec by (done || (unfold POSIX_TO_ZEPHYR_PRIORITY; simpl; lia)).
    unfold POSIX_TO_ZEPHYR_PRIORITY. simpl. ztests.
    repeat f_equal. lia.
  - unfold POSIX_TO_ZEPHYR_PRIORITY. simpl. lia.
  - assert (POSIX_TO_ZEPHYR_PRIORITY prio policy = NUM_PREEMPT - prio - 1) as ->
      by (unfold POSIX_TO_ZEPHYR_PRIORITY; by destruct Hpol as [-> | ->]).
    rewrite zephyr_to_posix_spec by (done || lia). ztests.
    replace (NUM_PREEMPT - (NUM_PREEMPT - prio - 1) - 1) with prio by lia.
    by destruct Hpol as [-> | ->].
  - assert (POSIX_TO_ZEPHYR_PRIORITY prio policy = NUM_PREEMPT - prio - 1) as ->
      by (unfold POSIX_TO_ZEPHYR_PRIORITY; by destruct Hpol as [-> | ->]).
    unfold SCHED_FIFO, SCHED_RR, SCHED_OTHER in *. lia.
Qed.

(** ** Properties of attribute objects *)

(** The calls that change an attribute object. *)
Inductive attr_op :=
  | SetSchedParam (p : option Z) | SetDetach (d : Z) | SetScope (s : Z) | SetInherit (i : Z)
  | SetPolicy (p : Z) | SetStackSize (z : Z) | SetStack (a z : Z) | SetGuard (g : Z).

Definition attr_exec (op : attr_op) (attr : option posix_thread_attr) :
  option posix_thread_attr * res unit :=
  match op with
  | SetSchedParam p => pthread_attr_setschedparam attr p
  | SetDetach d => pthread_attr_setdetachstate attr d
  | SetScope s => pthread_attr_setscope attr s
  | SetInherit i => pthread_attr_setinheritsched attr i
  | SetPolicy p => pthread_attr_setschedpolicy attr p
  | SetStackSize z => pthread_attr_setstacksize attr z
  | SetStack a z => pthread_attr_setstack attr a z
  | SetGuard g => pthread_attr_setguardsize attr g
  end.

(** What the matching getter returns after a call that succeeded. *)
Definition attr_reads (op : attr_op) (attr : option posix_thread_attr) : Prop :=
  match op with
  | SetSchedParam p => Some (pthread_attr_getschedparam attr false) = Ok <$> p
  | SetDetach d => pthread_attr_getdetachstate attr false = Ok d
  | SetScope s => pthread_attr_getscope attr false = Ok s
  | SetInherit i => pthread_attr_getinheritsched attr false = Ok i
  | SetPolicy p => pthread_attr_getschedpolicy attr false = Ok p
  | SetStackSize z => z <> 0 -> pthread_attr_getstacksize attr false = Ok z
  | SetStack a z => pthread_attr_getstack attr false = Ok (a, z)
  | SetGuard g => pthread_attr_getguardsize attr false = Ok g
  end.

Lemma attr_valid_iff a :
  posix_thread_attr_is_valid (Some a) = true <->
  initialized a = true /\ (stack a = 0 \/ STACK_MIN <= stacksize a) /\
  valid_posix_policy (schedpolicy a) = true.
Proof.
  simpl. destruct (initialized a); simpl; [|naive_solver].
  destruct (Z.eqb_spec (stack a) 0), (Z.ltb_spec (stacksize a) STACK_MIN); simpl; intuition lia.
Qed.

Lemma attr_update_Ok attr ok f attr' :
  attr_update attr ok f = (attr', Ok tt) ->
  exists a, attr = Some a /\ posix_thread_attr_is_valid (Some a) = true /\ ok a = true /\
    attr' = Some (f a).
Proof.
  unfold attr_update. destruct attr as [a|]; [|done].
  destruct (posix_thread_attr_is_valid (Some a)) eqn:Hv; simpl; [|done].
  destruct (ok a) eqn:Hok; [|done]. intros [= <-]. by exists a.
Qed.

(** The object after a call that succeeded. *)
Lemma attr_exec_Ok op attr attr' :
  attr_exec op attr = (attr', Ok tt) ->
  exists a, attr = Some a /\ posix_thread_attr_is_valid (Some a) = true /\
    match op with
    | SetSchedParam p => exists v, p = Some v /\
        is_posix_policy_prio_valid v (schedpolicy a) = true /\ attr' = Some (set_priority (swrap 8 v) a)
    | SetDetach d => attr' = Some (set_detach d a)
    | SetScope s => attr' = Some (set_scope s a)
    | SetInherit i => attr' = Some (set_inherit i a)
    | SetPolicy p => valid_posix_policy p = true /\ attr' = Some (set_policy p a)
    | SetStackSize z => stack a = 0 /\ attr' = Some (set_stack (stack a) z a)
    | SetStack s z => s <> 0 /\ STACK_MIN <= z /\ attr' = Some (set_stack s z a)
    | SetGuard g => attr' = Some (set_guardsize g a)
    end.
Proof.
  intros Hop. destruct op; simpl in Hop;
    try (apply attr_update_Ok in Hop as (a0 & -> & Hv & Hok & ->); exists a0; split_and!; [done..|];
         try done).
  - destruct p as [v|]; [|done]. by exists v.
  - unfold pthread_attr_setscope in Hop. destruct (negb (posix_thread_attr_is_valid attr)) eqn:Hn; [done|].
    apply negb_false_iff in Hn. repeat case_match; simplify_eq.
    destruct attr as [a0|]; [|done]. by exists a0.
  - apply attr_update_Ok in Hop as (a0 & -> & Hv & [_ Hz]%andb_true_iff & ->). exists a0.
    apply Z.eqb_eq in Hz. done.
  - unfold pthread_attr_setstack in Hop. destruct (Z.eqb_spec a 0); [done|].
    apply attr_update_Ok in Hop as (a0 & -> & Hv & Hok & ->). exists a0. split_and!; try done.
    apply negb_true_iff, Z.ltb_ge in Hok. done.
Qed.

Lemma attr_exec_valid op attr attr' :
  attr_exec op attr = (attr', Ok tt) -> posix_thread_attr_is_valid attr' = true.
Proof.
  intros (a & -> & Hv & Hop)%attr_exec_Ok. apply attr_valid_iff in Hv as (Hi & Hs & Hp).
  destruct op; destruct_and?; try (destruct Hop as (v & -> & _ & ->)); subst;
    apply attr_valid_iff; simpl; auto.
Qed.

Lemma attr_update_Err attr ok f attr' e : attr_update attr ok f = (attr', Err e) -> attr' = attr.
Proof. unfold attr_update. destruct attr as [a|]; [|congruence]. case_match; congruence. Qed.

Lemma attr_exec_Err op attr attr' e : attr_exec op attr = (attr', Err e) -> attr' = attr.
Proof.
  intros Hop. destruct op; simpl in Hop; try (by eapply attr_update_Err).
  - unfold pthread_attr_setscope in Hop. repeat case_match; congruence.
  - unfold pthread_attr_setstack in Hop. case_match; [congruence|by eapply attr_update_Err].
Qed.

Lemma attr_init_valid : posix_thread_attr_is_valid (Some pthread_attr_init) = true.
Proof.
  apply attr_valid_iff. split_and!; [done|by left|]. simpl. unfold DEFAULT_PTHREAD_POLICY. by case_match.
Qed.

Lemma attr_ops_valid ops x :
  posix_thread_attr_is_valid x = true ->
  posix_thread_attr_is_valid (foldl (fun x op => fst (attr_exec op x)) x ops) = true.
Proof.
  revert x. induction ops as [|o ops IH]; intros x Hx; simpl; [done|]. apply IH.
  destruct (attr_exec o x) as [x' [[]|e]] eqn:Ho; simpl; [by eapply attr_exec_valid|].
  by apply attr_exec_Err in Ho as ->.
Qed.

(** Attribute objects.  After pthread_attr_init, any sequence of setter
    calls leaves a valid object; a call that fails changes nothing; after a
    call that succeeds the matching getter returns what was set; and after
    pthread_attr_destroy every setter fails with EINVAL. *)
Theorem attr_objects ops op attr attr' r :
  0 <= NUM_COOP <= 128 -> 0 <= NUM_PREEMPT <= 128 -> 0 <= STACK_MIN ->
  attr = foldl (fun x op => fst (attr_exec op x)) (Some pthread_attr_init) ops ->
  attr_exec op attr = (attr', r) ->
  posix_thread_attr_is_valid attr = true /\
  match r with Ok _ => attr_reads op attr' | Err _ => attr' = attr end /\
  (exists d, pthread_attr_destroy attr = (d, Ok tt) /\
     forall op', exists e, attr_exec op' d = (d, Err e)).
Proof.
  intros Hcoop Hpre Hmin -> Hop.
  pose proof (attr_ops_valid ops _ attr_init_valid) as Hv.
  generalize dependent (foldl (fun x op => fst (attr_exec op x)) (Some pthread_attr_init) ops).
  intros attr Hop Hv. split; [done|]. split.
  - destruct r as [[]|e]; [|by eapply attr_exec_Err].
    pose proof (attr_exec_valid _ _ _ Hop) as Hv'.
    apply attr_exec_Ok in Hop as (a & -> & _ & Hop). pose proof Hv as (_ & _ & Hp)%attr_valid_iff.
    destruct op; destruct_and?; try (destruct Hop as (v & -> & Hpv & ->)); subst;
      unfold attr_reads, pthread_attr_getschedparam, pthread_attr_getdetachstate, pthread_attr_getscope,
        pthread_attr_getinheritsched, pthread_attr_getschedpolicy, pthread_attr_getstacksize,
        pthread_attr_getstack, pthread_attr_getguardsize, attr_read; rewrite Hv'; simpl; try done.
    + unfold is_posix_policy_prio_valid, posix_sched_priority_min, posix_sched_priority_max in Hpv.
      rewrite Hp in Hpv. simpl in Hpv. do 2 f_equal. apply swrap_id; [done|]. unfold in_s. simpl.
      repeat case_match; simpl in *; lia.
    + intros Hz. by rewrite (proj2 (Z.eqb_neq _ _) Hz), andb_false_r.
    + by rewrite (proj2 (Z.eqb_neq _ _)).
  - destruct attr as [a|]; [|done]. exists (Some attr_zero).
    unfold pthread_attr_destroy, attr_update. rewrite Hv. split; [done|].
    intros op'. exists EINVAL. destruct op'; simpl; try done.
    unfold pthread_attr_setstack. by case_match.
Qed.
End pthread.

(** Pthread_attr_setschedpolicy does not look at the priority.  With 16
    cooperative and 32 preemptible priorities, the calls that set explicit
    scheduling, priority 20 and then the policy SCHED_FIFO all succeed, though
    SCHED_FIFO has no priority 20, and pthread_create with these attributes
    fails its assertion on every kernel. *)
Lemma attr_policy_keeps_priority {K} (sys_thread_create : K -> Z -> Z -> Z -> Z -> Z -> Z -> bool -> K * res Z)
  k_thread_priority_get to_pthread_thread k current start arg :
  let exec op x := fst (attr_exec 16 32 true true 256 op x) in
  let a1 := exec (SetInherit PTHREAD_EXPLICIT_SCHED) (Some (pthread_attr_init 32 true 31)) in
  let a2 := exec (SetSchedParam (Some 20)) a1 in
  let a3 := attr_exec 16 32 true true 256 (SetPolicy SCHED_FIFO) a2 in
  snd a3 = Ok tt /\
  pthread_create 16 32 true true 256 31 sys_thread_create k_thread_priority_get to_pthread_thread
    true k current (fst a3) start arg = None.
Proof. split; reflexivity. Qed.

Lemma trylock_busy_is_timeout_witness :
  pthread_mutex_trylock (fun k _ => (k, Ok 64)) (fun (k : Z) m to => (k, if m =? 8 then Err EBUSY else Ok tt))
    id id (-1) 0 8 = (0, 8, Err ETIMEDOUT).
Proof.
  by apply (trylock_busy_is_timeout (fun k _ => (k, Ok 64))
    (fun (k : Z) m to => (k, if m =? 8 then Err EBUSY else Ok tt)) id id (-1) 0 0 8).
Defined.

Lemma priority_roundtrip_witness :
  exists z, posix_to_zephyr_priority 16 15 true true 3 SCHED_FIFO = Some z /\
    zephyr_to_posix_priority 16 15 true true (-16) z = Some (3, SCHED_FIFO).
Proof.
  destruct (priority_roundtrip 16 15 true true (-16) 3 SCHED_FIFO) as (z & Hz & Hback & _);
    [lia|lia|reflexivity..|]. exists z. split; [exact Hz|exact Hback].
Defined.

Lemma attr_objects_witness :
  attr_reads 256 1024 (SetDetach 1)
    (fst (attr_exec 16 15 true true 256 (SetDetach 1) (Some (pthread_attr_init 15 true 14)))).
Proof.
  apply (attr_objects 16 15 true true 256 1024 14 [] (SetDetach 1) (Some (pthread_attr_init 15 true 14))
    (fst (attr_exec 16 15 true true 256 (SetDetach 1) (Some (pthread_attr_init 15 true 14)))) (Ok tt));
    [lia|lia|lia|reflexivity|reflexivity].
Defined.
