(* ===== verification/CTime.v ===== *)
(** * Calendar time and small reentrant functions

    Model of [c_lang_support_r/gmtime_r.c], [localtime_r.c], [rand_r.c] and
    [strtok_r.c].

    [time_t] has 64 bits, and its quotient by 86400 leaves room for the
    computations on days, which are therefore exact; [unsigned int] and [int]
    have 32 bits and are wrapped.  The reference is the Gregorian calendar
    given by its rule for the next day. *)

From stdpp Require Import base list strings.
From Stdlib Require Import ZArith Lia.
From S2P Require Import Prelude.

Local Open Scope Z_scope.

Record tm := mk_tm {
  tm_sec : Z;
  tm_min : Z;
  tm_hour : Z;
  tm_mday : Z;
  tm_mon : Z;
  tm_year : Z;
  tm_wday : Z;
  tm_yday : Z;
}.

(** [x + y] and the like on unsigned int. *)
Abbreviation u32 := (uwrap 32) (only parsing).

Definition b2z (b : bool) : Z := if b then 1 else 0.

(** The year of the era from its day. *)
Definition year_of_era (doe : Z) : Z := u32 (doe - doe / 1460 + doe / 36524 - doe / 146096) / 365.

(** The part of time_civil_from_days after era and year are known. *)
Definition civil_from_doy (era yoe doy : Z) (wday : Z) : tm :=
  let y := yoe + era * 400 in
  let mp := u32 (5 * doy + 2) / 153 in
  let d := u32 (doy - u32 (153 * mp + 2) / 5 + 1) in
  let m := u32 (mp + (if mp <? 10 then 3 else -9)) in
  let yday :=
    if 306 <=? doy then u32 (doy - 306)
    else u32 (doy + 59 + b2z (((yoe mod 4 =? 0) && negb (yoe mod 100 =? 0)) || (yoe =? 0))) in
  mk_tm 0 0 0 d (swrap 32 (u32 (m - 1))) (swrap 32 (y + b2z (m <=? 2) - 1900)) wday (swrap 32 yday).

(** C's [/] and [%] truncate towards zero. *)
Definition time_civil_from_days (z : Z) : tm :=
  let wday := if -4 <=? z then Z.rem (z + 4) 7 else Z.rem (z + 5) 7 + 6 in
  let z := z + 719468 in
  let era := Z.quot (if 0 <=? z then z else z - 146096) 146097 in
  let doe := u32 (z - era * 146097) in
  let yoe := year_of_era doe in
  let doy := u32 (doe - (365 * yoe + yoe / 4 - yoe / 100)) in
  civil_from_doy era yoe doy wday.

Definition gmtime_r (timep : Z) : tm :=
  let z := timep in
  let days := Z.quot (if 0 <=? z then z else z - 86399) 86400 in
  let rem := u32 (z - days * 86400) in
  let date := time_civil_from_days days in
  let hour := rem / 60 / 60 in
  let rem := u32 (rem - hour * 60 * 60) in
  let min := rem / 60 in
  let sec := u32 (rem - min * 60) in
  mk_tm sec min hour (tm_mday date) (tm_mon date) (tm_year date) (tm_wday date) (tm_yday date).

Definition localtime_r (timer : Z) : tm := gmtime_r timer.

(** The pseudo-random sequence: the new seed, which is also the result. *)
Definition rand_r (seed : Z) : Z := Z.land (u32 (1103515245 * seed + 12345)) 0x7fffffff.

(** ** The Gregorian calendar *)

Definition leap (y : Z) : bool :=
  (y mod 4 =? 0) && (negb (y mod 100 =? 0) || (y mod 400 =? 0)).

(** Days of month [m] (1 to 12) in a common or leap year. *)
Definition month_days (lp : bool) (m : Z) : Z :=
  if m =? 2 then (if lp then 29 else 28)
  else if (m =? 4) || (m =? 6) || (m =? 9) || (m =? 11) then 30 else 31.

(** The day after a date, in the fields of struct tm: months from 0, years
    from 1900, the day of the week and the day of the year. *)
Definition next_day (t : tm) : tm :=
  let wday := (tm_wday t + 1) mod 7 in
  let lp := leap (tm_year t + 1900) in
  if tm_mday t <? month_days lp (tm_mon t + 1) then
    mk_tm 0 0 0 (tm_mday t + 1) (tm_mon t) (tm_year t) wday (tm_yday t + 1)
  else if tm_mon t <? 11 then mk_tm 0 0 0 1 (tm_mon t + 1) (tm_year t) wday (tm_yday t + 1)
  else mk_tm 0 0 0 1 0 (tm_year t + 1) wday 0.

(** ** Years of an era *)

Lemma floor_quot z b : 0 < b -> Z.quot (if 0 <=? z then z else z - (b - 1)) b = z / b.
Proof.
  intros Hb. destruct (Z.leb_spec 0 z) as [Hz|Hz]; [by apply Z.quot_div_nonneg|].
  rewrite <- (Z.opp_involutive (z - (b - 1))), Z.quot_opp_l, Z.quot_div_nonneg by lia.
  pose proof (Z.div_mod z b ltac:(lia)). pose proof (Z.mod_pos_bound z b Hb).
  symmetry. apply Z.eq_opp_r.
  apply (Z.div_unique _ _ _ (b - 1 - z mod b)); lia.
Qed.

(** The first day of a year of the era, and its length: it holds the 29th of
    February of the year that follows. *)
Definition year_start (yoe : Z) : Z := 365 * yoe + yoe / 4 - yoe / 100.
Definition year_len (yoe : Z) : Z := 365 + b2z (leap (yoe + 1)).

Definition raw_year (doe : Z) : Z := (doe - doe / 1460 + doe / 36524 - doe / 146096) / 365.

Lemma raw_year_mono a b : 0 <= a <= b -> b < 146097 -> raw_year a <= raw_year b.
Proof.
  intros Hab Hb. unfold raw_year. apply Z.div_le_mono; [lia|].
  assert (a / 36524 <= b / 36524) by (apply Z.div_le_mono; lia).
  assert (b / 1460 - a / 1460 <= b - a).
  { pose proof (Z.div_mod a 1460). pose proof (Z.div_mod b 1460).
    pose proof (Z.mod_pos_bound a 1460). pose proof (Z.mod_pos_bound b 1460). lia. }
  destruct (Z.eq_dec b 146096) as [->|Hne].
  - destruct (Z.eq_dec a 146096) as [->|Hna]; [lia|].
    assert (a / 146096 = 0) as -> by (apply Z.div_small; lia).
    change (146096 / 146096) with 1. change (146096 / 1460) with 100 in *.
    change (146096 / 36524) with 4 in *.
    pose proof (Z.div_mod a 1460). pose proof (Z.mod_pos_bound a 1460). lia.
  - rewrite !(Z.div_small _ 146096) by lia. lia.
Qed.

(** Checked year by year: the formula is right on the first and last day, and
    years follow each other. *)
Lemma years_check :
  forallb (fun n => let y := Z.of_nat n in
    (raw_year (year_start y) =? y) && (raw_year (year_start y + year_len y - 1) =? y) &&
    (year_start y + year_len y =? (if y =? 399 then 146097 else year_start (y + 1))))
    (seq 0 400) = true.
Proof. vm_compute. reflexivity. Qed.

Lemma year_facts y : 0 <= y < 400 ->
  raw_year (year_start y) = y /\ raw_year (year_start y + year_len y - 1) = y /\
  year_start y + year_len y = (if y =? 399 then 146097 else year_start (y + 1)).
Proof.
  intros Hy. pose proof years_check as Hc. rewrite forallb_forall in Hc.
  specialize (Hc (Z.to_nat y)). rewrite Z2Nat.id in Hc by lia.
  assert (In (Z.to_nat y) (seq 0 400)) as Hin by (apply in_seq; lia). specialize (Hc Hin).
  apply andb_true_iff in Hc as [[H1 H2]%andb_true_iff H3].
  by apply Z.eqb_eq in H1, H2, H3.
Qed.

Lemma year_len_range y : 365 <= year_len y <= 366.
Proof. unfold year_len. destruct (leap (y + 1)); simpl; lia. Qed.

Lemma year_start_bounds y : 0 <= y < 400 ->
  0 <= year_start y /\ year_start y + year_len y <= 146097.
Proof.
  intros Hy. destruct (year_facts y Hy) as (_ & _ & He). unfold year_start in *.
  pose proof (Z.div_mod y 4). pose proof (Z.mod_pos_bound y 4).
  pose proof (Z.div_mod y 100). pose proof (Z.mod_pos_bound y 100).
  destruct (Z.eqb_spec y 399); [lia|].
  pose proof (Z.div_mod (y + 1) 4). pose proof (Z.mod_pos_bound (y + 1) 4).
  pose proof (Z.div_mod (y + 1) 100). pose proof (Z.mod_pos_bound (y + 1) 100). lia.
Qed.

Lemma raw_year_in y doy : 0 <= y < 400 -> 0 <= doy < year_len y -> raw_year (year_start y + doy) = y.
Proof.
  intros Hy Hd. destruct (year_facts y Hy) as (H1 & H2 & _). destruct (year_start_bounds y Hy).
  assert (raw_year (year_start y) <= raw_year (year_start y + doy)) by (apply raw_year_mono; lia).
  assert (raw_year (year_start y + doy) <= raw_year (year_start y + year_len y - 1))
    by (apply raw_year_mono; lia).
  lia.
Qed.

(** Every day of an era lies in the year that the formula computes. *)
Lemma raw_year_split doe : 0 <= doe < 146097 ->
  0 <= raw_year doe < 400 /\ 0 <= doe - year_start (raw_year doe) < year_len (raw_year doe).
Proof.
  intros Hd. assert (0 <= raw_year doe < 400) as Hy.
  { change 0 with (raw_year 0) at 1. split; [by apply raw_year_mono; lia|].
    apply Z.le_lt_trans with (raw_year 146096); [apply raw_year_mono; lia|by vm_compute]. }
  split; [done|]. remember (raw_year doe) as y eqn:Heqy.
  destruct (year_facts y Hy) as (_ & _ & Hnext). destruct (year_start_bounds y Hy).
  pose proof (year_len_range y). split.
  - destruct (Z.le_gt_cases (year_start y) doe); [lia|]. exfalso.
    assert (0 < y) as Hpos.
    { destruct (Z.eq_dec y 0) as [He|]; [|lia]. rewrite He in *.
      change (year_start 0) with 0 in *. lia. }
    destruct (year_facts (y - 1)) as (_ & Hend & Hn1); [lia|].
    rewrite (proj2 (Z.eqb_neq (y - 1) 399)) in Hn1 by lia.
    replace (y - 1 + 1) with y in Hn1 by lia.
    assert (raw_year doe <= raw_year (year_start (y - 1) + year_len (y - 1) - 1))
      by (apply raw_year_mono; lia).
    lia.
  - destruct (Z.lt_ge_cases doe (year_start y + year_len y)); [lia|]. exfalso.
    destruct (Z.eqb_spec y 399); [lia|].
    destruct (year_facts (y + 1)) as (Hst & _ & _); [lia|].
    assert (raw_year (year_start (y + 1)) <= raw_year doe).
    { apply raw_year_mono; [|lia]. destruct (year_start_bounds (y + 1)); lia. }
    lia.
Qed.

Lemma year_of_era_raw doe : 0 <= doe < 146097 -> year_of_era doe = raw_year doe.
Proof.
  intros Hd. unfold year_of_era, raw_year. rewrite uwrap32_id; [done|].
  pose proof (Z.div_mod doe 1460). pose proof (Z.mod_pos_bound doe 1460).
  pose proof (Z.div_mod doe 36524). pose proof (Z.mod_pos_bound doe 36524).
  pose proof (Z.div_mod doe 146096). pose proof (Z.mod_pos_bound doe 146096). lia.
Qed.

(** The date from era, year of era and day of year. *)
Lemma civil_split z era yoe doy :
  z + 719468 = era * 146097 + year_start yoe + doy -> 0 <= yoe < 400 -> 0 <= doy < year_len yoe ->
  exists wday, time_civil_from_days z = civil_from_doy era yoe doy wday /\ wday = (z + 4) mod 7.
Proof.
  intros Hz Hy Hd. destruct (year_start_bounds yoe Hy).
  exists (if -4 <=? z then Z.rem (z + 4) 7 else Z.rem (z + 5) 7 + 6). split.
  - unfold time_civil_from_days. pose proof (floor_quot (z + 719468) 146097) as Hq.
    change (146097 - 1) with 146096 in Hq. rewrite Hq by lia.
    assert ((z + 719468) / 146097 = era) as ->.
    { symmetry. apply (Z.div_unique _ _ _ (year_start yoe + doy)); lia. }
    replace (z + 719468 - era * 146097) with (year_start yoe + doy) by lia.
    rewrite (uwrap32_id (year_start yoe + doy)) by lia.
    rewrite year_of_era_raw, raw_year_in by (done || lia). fold (year_start yoe).
    replace (year_start yoe + doy - year_start yoe) with doy by lia.
    pose proof (year_len_range yoe). by rewrite uwrap32_id by lia.
  - destruct (Z.leb_spec (-4) z); [by apply Z.rem_mod_nonneg; lia|].
    rewrite <- (Z.opp_involutive (z + 5)), Z.rem_opp_l, Z.rem_mod_nonneg by lia.
    pose proof (Z.div_mod (- (z + 5)) 7). pose proof (Z.mod_pos_bound (- (z + 5)) 7).
    apply (Z.mod_unique _ _ (- ((- (z + 5)) / 7) - 1)); lia.
Qed.

(** ** Days of a year *)

(** Month (1 to 12) and day from the day of a year that begins in March. *)
Definition month_of (doy : Z) : Z :=
  let mp := (5 * doy + 2) / 153 in mp + (if mp <? 10 then 3 else -9).
Definition mday_of (doy : Z) : Z :=
  let mp := (5 * doy + 2) / 153 in doy - (153 * mp + 2) / 5 + 1.

(** Checked day by day, with the 29th of February when [lp] says so: the day
    after is in the same month, or the first of the next one. *)
Lemma days_check :
  forallb (fun n => let doy := Z.of_nat n in
    let m := month_of doy in let d := mday_of doy in
    (1 <=? m) && (m <=? 12) && (1 <=? d) && (d <=? 31) && Bool.eqb (m <=? 2) (306 <=? doy) &&
    forallb (fun lp : bool =>
      if doy + 1 <? 365 + b2z lp then
        if d <? month_days lp m then (month_of (doy + 1) =? m) && (mday_of (doy + 1) =? d + 1)
        else (month_of (doy + 1) =? m mod 12 + 1) && (mday_of (doy + 1) =? 1)
             && Bool.eqb (m =? 12) (doy =? 305)
      else if doy + 1 =? 365 + b2z lp then (m =? 2) && (d =? month_days lp m)
      else true) [true; false])
    (seq 0 366) = true.
Proof. vm_compute. reflexivity. Qed.

Lemma leap_era yoe era : leap (yoe + era * 400) = leap yoe.
Proof.
  unfold leap. replace (era * 400) with (era * 100 * 4) at 1 by lia. rewrite Z_mod_plus_full.
  replace (era * 400) with (era * 4 * 100) at 1 by lia. rewrite Z_mod_plus_full.
  by rewrite Z_mod_plus_full.
Qed.

Lemma leap_code yoe : 0 <= yoe < 400 ->
  ((yoe mod 4 =? 0) && negb (yoe mod 100 =? 0)) || (yoe =? 0) = leap yoe.
Proof.
  intros Hy. unfold leap. rewrite (Z.mod_small yoe 400) by lia.
  destruct (Z.eqb_spec yoe 0) as [->|Hne]; [done|]. by rewrite !orb_false_r.
Qed.

Lemma day_facts doy lp : 0 <= doy < 366 ->
  1 <= month_of doy <= 12 /\ 1 <= mday_of doy <= 31 /\ (month_of doy <=? 2) = (306 <=? doy) /\
  (doy + 1 < 365 + b2z lp ->
     if mday_of doy <? month_days lp (month_of doy)
     then month_of (doy + 1) = month_of doy /\ mday_of (doy + 1) = mday_of doy + 1
     else month_of (doy + 1) = month_of doy mod 12 + 1 /\ mday_of (doy + 1) = 1 /\
          (month_of doy =? 12) = (doy =? 305)) /\
  (doy + 1 = 365 + b2z lp -> month_of doy = 2 /\ mday_of doy = month_days lp (month_of doy)).
Proof.
  intros Hd. pose proof days_check as Hc. rewrite forallb_forall in Hc.
  specialize (Hc (Z.to_nat doy)). rewrite Z2Nat.id in Hc by lia.
  assert (In (Z.to_nat doy) (seq 0 366)) as Hin by (apply in_seq; lia). specialize (Hc Hin).
  cbv zeta in Hc. apply andb_true_iff in Hc as [Hr Hl].
  repeat (apply andb_true_iff in Hr as [Hr ?]).
  assert (lp ∈ [true; false]) as Hlp by (destruct lp; rewrite list_elem_of_In; simpl; tauto).
  rewrite forallb_forall in Hl. specialize (Hl lp (proj1 (list_elem_of_In _ _) Hlp)).
  split; [lia|]. split; [lia|]. split; [by apply Bool.eqb_prop|]. split.
  - intros Hlt. rewrite (proj2 (Z.ltb_lt _ _) Hlt) in Hl. case_match.
    + apply andb_true_iff in Hl as [?%Z.eqb_eq ?%Z.eqb_eq]. done.
    + apply andb_true_iff in Hl as [[?%Z.eqb_eq ?%Z.eqb_eq]%andb_true_iff ?%Bool.eqb_prop]. done.
  - intros He. rewrite (proj2 (Z.ltb_ge _ _)), (proj2 (Z.eqb_eq _ _) He) in Hl by lia.
    apply andb_true_iff in Hl as [?%Z.eqb_eq ?%Z.eqb_eq]. done.
Qed.

(** Eras whose years fit tm_year. *)
Definition era_ok (era : Z) : Prop := -5000000 <= era <= 5000000.

(** Within the range of tm_year no computation wraps. *)
Lemma civil_from_doy_exact era yoe doy wday :
  era_ok era -> 0 <= yoe < 400 -> 0 <= doy < 366 ->
  civil_from_doy era yoe doy wday =
    mk_tm 0 0 0 (mday_of doy) (month_of doy - 1)
      (yoe + era * 400 + b2z (306 <=? doy) - 1900) wday
      (if 306 <=? doy then doy - 306 else doy + 59 + b2z (leap yoe)).
Proof.
  intros He Hy Hd. destruct (day_facts doy true Hd) as (Hm & Hmd & Hm2 & _).
  unfold civil_from_doy, era_ok in *. rewrite leap_code by done.
  assert (0 <= (5 * doy + 2) / 153 <= 12) as Hmp
    by (split; [apply Z.div_pos; lia|apply Z.div_le_upper_bound; lia]).
  rewrite (uwrap32_id (5 * doy + 2)) by lia.
  rewrite (uwrap32_id (153 * ((5 * doy + 2) / 153) + 2)) by lia.
  fold (mday_of doy). fold (month_of doy).
  rewrite (uwrap32_id (mday_of doy)), (uwrap32_id (month_of doy)) by lia.
  rewrite (uwrap32_id (month_of doy - 1)), (swrap32_id (month_of doy - 1)) by lia.
  rewrite Hm2. assert (forall b, 0 <= b2z b <= 1) as Hb by (intros []; simpl; lia).
  pose proof (Hb (306 <=? doy)). pose proof (Hb (leap yoe)).
  rewrite (swrap32_id (yoe + era * 400 + b2z (306 <=? doy) - 1900)) by lia. f_equal.
  destruct (Z.leb_spec 306 doy).
  - rewrite uwrap32_id, swrap32_id; lia.
  - rewrite uwrap32_id, swrap32_id; lia.
Qed.

(** The day after, within a year that begins in March. *)
Lemma next_in_year era yoe doy wday :
  era_ok era -> 0 <= yoe < 400 -> 0 <= doy -> doy + 1 < year_len yoe ->
  civil_from_doy era yoe (doy + 1) ((wday + 1) mod 7) = next_day (civil_from_doy era yoe doy wday).
Proof.
  intros He Hy Hd Hlt. unfold year_len in Hlt. pose proof (year_len_range yoe) as Hr.
  unfold year_len in Hr. rewrite !civil_from_doy_exact by (done || lia).
  destruct (day_facts doy (leap (yoe + 1))) as (Hm & Hmd & Hm2 & Hnext & _); [lia|].
  specialize (Hnext Hlt). unfold next_day. simpl.
  assert (month_days (leap (yoe + era * 400 + b2z (306 <=? doy) - 1900 + 1900)) (month_of doy - 1 + 1)
          = month_days (leap (yoe + 1)) (month_of doy)) as ->.
  { replace (month_of doy - 1 + 1) with (month_of doy) by lia. unfold month_days.
    destruct (Z.eqb_spec (month_of doy) 2) as [H2|]; [|done].
    rewrite <- Hm2, H2. simpl. replace (yoe + era * 400 + 1 - 1900 + 1900) with (yoe + 1 + era * 400) by lia.
    by rewrite leap_era. }
  destruct (mday_of doy <? _).
  - destruct Hnext as [Hmn ->]. destruct (day_facts (doy + 1) true) as (_ & _ & Hm2' & _); [lia|].
    rewrite Hmn, Hm2 in Hm2'. rewrite <- Hm2', Hmn.
    destruct (306 <=? doy); f_equal; lia.
  - destruct Hnext as (Hmn & -> & H12). destruct (day_facts (doy + 1) true) as (_ & _ & Hm2' & _); [lia|].
    destruct (Z.eqb_spec (month_of doy) 12) as [Hm12|Hm12].
    + symmetry in H12. apply Z.eqb_eq in H12. subst doy. rewrite Hmn, Hm12. simpl.
      f_equal; lia.
    + rewrite Z.mod_small in Hmn by lia. rewrite Hmn in *.
      ztests.
      symmetry in H12. apply Z.eqb_neq in H12.
      destruct (Z.leb_spec 306 doy), (Z.leb_spec 306 (doy + 1)); try lia; f_equal; lia.
Qed.

(** From the last day of February to the first of March. *)
Lemma next_year era yoe doy wday era' yoe' :
  era_ok era -> era_ok era' -> 0 <= yoe < 400 -> doy + 1 = year_len yoe ->
  (yoe <> 399 /\ era' = era /\ yoe' = yoe + 1 \/ yoe = 399 /\ era' = era + 1 /\ yoe' = 0) ->
  civil_from_doy era' yoe' 0 ((wday + 1) mod 7) = next_day (civil_from_doy era yoe doy wday).
Proof.
  intros He He' Hy Hlen Hn. pose proof (year_len_range yoe).
  rewrite !civil_from_doy_exact by (done || lia). unfold year_len in *.
  destruct (day_facts doy (leap (yoe + 1))) as (_ & _ & _ & _ & Hlast); [lia|].
  destruct (Hlast Hlen) as [Hm Hd]. unfold next_day. simpl. rewrite Hd, Hm.
  ztests. simpl.
  assert (leap (yoe + era * 400 + 1 - 1900 + 1900) = leap (yoe + 1)) as ->.
  { replace (yoe + era * 400 + 1 - 1900 + 1900) with (yoe + 1 + era * 400) by lia. apply leap_era. }
  assert (leap yoe' = leap (yoe + 1)) as -> by (by destruct Hn as [(? & ? & ->)|(-> & ? & ->)]).
  rewrite Z.ltb_irrefl. change (mday_of 0) with 1. change (month_of 0) with 3. f_equal; lia.
Qed.

(** Days for which tm_year holds the year: about two thousand million years
    around 1970. *)
Definition days_ok (z : Z) : Prop := -700000000000 <= z <= 700000000000.

Lemma civil_step z :
  days_ok z -> time_civil_from_days (z + 1) = next_day (time_civil_from_days z).
Proof.
  unfold days_ok. intros Hz.
  assert (exists era doe, z + 719468 = era * 146097 + doe /\ 0 <= doe < 146097)
    as (era & doe & Hsplit & Hdoe).
  { exists ((z + 719468) / 146097), ((z + 719468) mod 146097).
    split; [pose proof (Z.div_mod (z + 719468) 146097); lia|apply Z.mod_pos_bound; lia]. }
  assert (era_ok era /\ era_ok (era + 1)) as [He He1] by (unfold era_ok; lia).
  destruct (raw_year_split doe Hdoe) as [Hy Hdoy].
  remember (raw_year doe) as yoe eqn:Hyoe. clear Hyoe.
  remember (doe - year_start yoe) as doy eqn:Hdoyeq.
  destruct (civil_split z era yoe doy) as (wday & Hcz & Hw); [lia|done|done|].
  assert (forall era' yoe' doy', z + 1 + 719468 = era' * 146097 + year_start yoe' + doy' ->
    0 <= yoe' < 400 -> 0 <= doy' < year_len yoe' ->
    time_civil_from_days (z + 1) = civil_from_doy era' yoe' doy' ((wday + 1) mod 7)) as Hc1.
  { intros era' yoe' doy' Heq Hy' Hd'. destruct (civil_split (z + 1) era' yoe' doy') as (w1 & -> & ->);
      [done..|]. rewrite Hw. f_equal. rewrite Zplus_mod_idemp_l. f_equal. lia. }
  pose proof (year_len_range yoe). rewrite Hcz.
  destruct (Z.eq_dec (doy + 1) (year_len yoe)) as [Hend|Hin].
  - destruct (year_facts yoe Hy) as (_ & _ & Hnext). destruct (Z.eqb_spec yoe 399) as [H9|H9].
    + rewrite (Hc1 (era + 1) 0 0); [|change (year_start 0) with 0; lia|lia|pose proof (year_len_range 0); lia].
      apply next_year; auto.
    + rewrite (Hc1 era (yoe + 1) 0); [|lia|lia|pose proof (year_len_range (yoe + 1)); lia].
      apply next_year; auto.
  - rewrite (Hc1 era yoe (doy + 1)) by lia. apply next_in_year; (done || lia).
Qed.

(** C21: time_civil_from_days is the Gregorian calendar: it is right on 1
    January 1970 and, for 7*10^11 days (about 1.92*10^9 years) before and
    after it, each day follows the one before by the calendar rule. *)
Theorem gregorian :
  time_civil_from_days 0 = mk_tm 0 0 0 1 0 70 4 0 /\
  forall z, days_ok z -> time_civil_from_days (z + 1) = next_day (time_civil_from_days z).
Proof. split; [reflexivity|]. apply civil_step. Qed.

Lemma gmtime_r_parts t :
  -60000000000000000 <= t <= 60000000000000000 ->
  let r := gmtime_r t in
  exists days, days_ok days /\
    (tm_mday r, tm_mon r, tm_year r, tm_wday r, tm_yday r) =
      (let c := time_civil_from_days days in (tm_mday c, tm_mon c, tm_year c, tm_wday c, tm_yday c)) /\
    0 <= tm_hour r < 24 /\ 0 <= tm_min r < 60 /\ 0 <= tm_sec r < 60 /\
    t = days * 86400 + tm_hour r * 3600 + tm_min r * 60 + tm_sec r.
Proof.
  intros Ht r. exists (t / 86400). unfold r, gmtime_r.
  pose proof (floor_quot t 86400) as Hq. change (86400 - 1) with 86399 in Hq. rewrite Hq by lia.
  pose proof (Z.div_mod t 86400). pose proof (Z.mod_pos_bound t 86400).
  replace (t - t / 86400 * 86400) with (t mod 86400) by lia.
  remember (t mod 86400) as s eqn:Hs. clear Hs. rewrite (uwrap32_id s) by lia.
  rewrite Z.div_div by lia. change (60 * 60) with 3600.
  pose proof (Z.div_mod s 3600). pose proof (Z.mod_pos_bound s 3600).
  replace (s - s / 3600 * 60 * 60) with (s mod 3600) by lia.
  remember (s mod 3600) as u eqn:Hu. clear Hu. rewrite (uwrap32_id u) by lia.
  pose proof (Z.div_mod u 60). pose proof (Z.mod_pos_bound u 60).
  replace (u - u / 60 * 60) with (u mod 60) by lia. rewrite (uwrap32_id (u mod 60)) by lia.
  split; [unfold days_ok; lia|]. simpl. split; [done|]. lia.
Qed.

(** Gmtime_r splits a time into its day and the time of the day.  For
    every time_t in the range, past or future, the date is that of the day
    the time falls in, hour, minute and second are in their ranges, and day,
    hour, minute and second give the time back. *)
Theorem gmtime_r_spec t :
  -60000000000000000 <= t <= 60000000000000000 ->
  let r := gmtime_r t in
  exists days, days_ok days /\
    (tm_mday r, tm_mon r, tm_year r, tm_wday r, tm_yday r) =
      (let c := time_civil_from_days days in (tm_mday c, tm_mon c, tm_year c, tm_wday c, tm_yday c)) /\
    0 <= tm_hour r < 24 /\ 0 <= tm_min r < 60 /\ 0 <= tm_sec r < 60 /\
    t = days * 86400 + tm_hour r * 3600 + tm_min r * 60 + tm_sec r.
Proof. apply gmtime_r_parts. Qed.

Lemma gmtime_r_spec_witness : 0 <= tm_hour (gmtime_r (-1)) < 24 /\ gmtime_r (-1) = mk_tm 59 59 23 31 11 69 3 364.
Proof.
  destruct (gmtime_r_spec (-1)) as (days & _ & _ & Hh & _); [lia|].
  split; [exact Hh|reflexivity].
Defined.

Lemma gregorian_witness :
  time_civil_from_days 11016 = mk_tm 0 0 0 29 1 100 2 59 /\
  time_civil_from_days (11016 + 1) = next_day (time_civil_from_days 11016).
Proof. split; [reflexivity|]. apply gregorian. unfold days_ok. lia. Defined.

(** ** strtok_r

    A pointer into the buffer is the string it points to.  Storing a NUL
    after the token makes the returned pointer that token, and the state the
    string after the delimiter. *)

(** [while ( *start && strchr(sep, *start)) start++] *)
Fixpoint skip_delims (sep start : string) : string :=
  match start with
  | EmptyString => EmptyString
  | String c s => if str_contains c sep then skip_delims sep s else start
  end.

(** The characters up to the next delimiter, and what follows it: [None] when
    the string ended. *)
Fixpoint token_end (sep end_ : string) : string * option string :=
  match end_ with
  | EmptyString => (EmptyString, None)
  | String c s =>
      if str_contains c sep then (EmptyString, Some s)
      else let '(tok, rest) := token_end sep s in (String c tok, rest)
  end.

(** Returns the token and the new state. *)
Definition strtok_r (str : option string) (sep state : string) : option string * string :=
  let start := skip_delims sep (default state str) in
  match start with
  | EmptyString => (None, EmptyString)
  | _ =>
      match token_end sep start with
      | (tok, Some rest) => (Some tok, rest)
      | (tok, None) => (Some tok, EmptyString)
      end
  end.

(** All tokens of a string, as a program collects them. *)
Fixpoint strtok_loop (fuel : nat) (sep state : string) : list string :=
  match fuel with
  | O => []
  | S fuel' =>
      match strtok_r None sep state with
      | (None, _) => []
      | (Some tok, state') => tok :: strtok_loop fuel' sep state'
      end
  end.

Definition strtok_all (sep s : string) : list string :=
  match strtok_r (Some s) sep EmptyString with
  | (None, _) => []
  | (Some tok, state) => tok :: strtok_loop (String.length s) sep state
  end.

(** Reference: the string cut at every delimiter. *)
Fixpoint fields (sep s : string) : string * list string :=
  match s with
  | EmptyString => (EmptyString, [])
  | String c s' =>
      let '(f, fs) := fields sep s' in
      if str_contains c sep then (EmptyString, f :: fs) else (String c f, fs)
  end.

Definition nonempty (s : string) : bool := match s with EmptyString => false | _ => true end.

Definition tokens (sep s : string) : list string :=
  let '(f, fs) := fields sep s in filter (fun x => nonempty x = true) (f :: fs).

Lemma tokens_skip sep s : tokens sep (skip_delims sep s) = tokens sep s.
Proof.
  induction s as [|c s IH]; [done|]. simpl. destruct (str_contains c sep) eqn:Hc; [|done].
  rewrite IH. unfold tokens. simpl. rewrite Hc. by destruct (fields sep s).
Qed.

Lemma fields_token_end sep s :
  fields sep s = match token_end sep s with
                 | (tok, Some rest) => (tok, fst (fields sep rest) :: snd (fields sep rest))
                 | (tok, None) => (tok, [])
                 end.
Proof.
  induction s as [|c s IH]; [done|]. simpl. destruct (str_contains c sep).
  - by destruct (fields sep s).
  - rewrite IH. destruct (token_end sep s) as [tok [rest|]]; done.
Qed.

Lemma skip_delims_head sep s :
  match skip_delims sep s with
  | EmptyString => True
  | String c _ => str_contains c sep = false
  end /\ (String.length (skip_delims sep s) <= String.length s)%nat.
Proof.
  induction s as [|c s [IH1 IH2]]; [done|]. simpl. destruct (str_contains c sep) eqn:Hc.
  - split; [done|lia].
  - split; [done|done].
Qed.

Lemma token_end_length sep s tok rest :
  token_end sep s = (tok, Some rest) -> (String.length rest < String.length s)%nat.
Proof.
  revert tok. induction s as [|c s IH]; intros tok; simpl; [done|].
  destruct (str_contains c sep); [intros [= _ <-]; lia|].
  destruct (token_end sep s) as [tok' [rest'|]] eqn:He; [|done].
  intros [= _ <-]. specialize (IH tok' eq_refl). lia.
Qed.

(** One call removes the first token of the reference. *)
Lemma strtok_step str sep state :
  match strtok_r str sep state with
  | (None, _) => tokens sep (default state str) = []
  | (Some tok, rest) => tokens sep (default state str) = tok :: tokens sep rest /\
      (String.length rest < String.length (default state str))%nat
  end.
Proof.
  unfold strtok_r. set (s := default state str). pose proof (skip_delims_head sep s) as [Hhead Hlen].
  rewrite <- (tokens_skip sep s). destruct (skip_delims sep s) as [|c s'] eqn:Hs; [done|].
  destruct (token_end sep (String c s')) as [tok orest] eqn:He.
  assert (nonempty tok = true) as Hne.
  { simpl in He. rewrite Hhead in He. destruct (token_end sep s') as [tok' r']. by simplify_eq. }
  pose proof (fields_token_end sep (String c s')) as Hf. rewrite He in Hf.
  destruct orest as [rest|]; (split; [unfold tokens; rewrite Hf, filter_cons_True by done|]).
  - f_equal. by destruct (fields sep rest).
  - apply token_end_length in He. lia.
  - done.
  - simpl in *. lia.
Qed.

Lemma strtok_loop_spec fuel sep s :
  (String.length s < fuel)%nat -> strtok_loop fuel sep s = tokens sep s.
Proof.
  revert s. induction fuel as [|fuel IH]; intros s Hs; [lia|]. simpl.
  pose proof (strtok_step None sep s) as Hstep. simpl in Hstep.
  destruct (strtok_r None sep s) as [[tok|] rest]; [|done].
  destruct Hstep as [-> Hlen]. f_equal. apply IH. lia.
Qed.

(** Strtok_r finds the tokens.  Calling it with the string and then with
    NULL until it returns NULL yields, in order, the nonempty pieces that the
    string has between delimiters, and it ends after at most as many calls as
    the string has characters and one. *)
Theorem strtok_tokens sep s : strtok_all sep s = tokens sep s.
Proof.
  unfold strtok_all. pose proof (strtok_step (Some s) sep EmptyString) as Hstep. simpl in Hstep.
  destruct (strtok_r (Some s) sep EmptyString) as [[tok|] rest]; [|done].
  destruct Hstep as [-> Hlen]. f_equal. apply strtok_loop_spec. lia.
Qed.
