(* ===== verification/Timer.v ===== *)
(** * Per-process timers

    Model of [timers/timer.c]: the timer objects and their calls, the two
    expiry functions and the thread that delivers SIGEV_THREAD
    notifications. *)

From stdpp Require Import base list gmap.
From Stdlib Require Import ZArith Lia.
From S2P Require Import Prelude Kernel Clock Mqueue.

Local Open Scope Z_scope.

(** The kernel timer.  [kt_remaining] is in milliseconds; starting takes the
    duration and the period. *)
Class KTimer (T : Type) := {
  kt_init : T;
  kt_start : T -> Z -> Z -> T;
  kt_stop : T -> T;
  kt_remaining : T -> Z;
  kt_status : T -> Z;
}.

Class KTimerLaws (T : Type) `{KTimer T} : Prop := {
  kt_init_remaining : kt_remaining kt_init = 0;
  kt_start_remaining t d p : 0 <= d -> kt_remaining (kt_start t d p) = d;
  kt_stop_remaining t : kt_remaining (kt_stop t) = 0;
}.

Inductive timer_status := ACTIVE | NOT_ACTIVE.

#[export] Instance timer_status_eq_dec : EqDecision timer_status.
Proof. solve_decision. Defined.

Record itimerspec := mk_its { it_interval : timespec; it_value : timespec }.

Section timer.
Context {T : Type} `{KTimer T} {S : Type} `{KSem S}.
Context (timespec_is_valid : timespec -> bool).
(** CONFIG_POSIX_DELAYTIMER_MAX and the flag of the C library. *)
Context (DELAYTIMER_MAX TIMER_ABSTIME : Z).

Record timer_obj := mk_timer {
  ztimer : T;
  evp : sigevent;
  sem_cond : S;
  thread : Z;
  interval : timespec;
  reload : Z;
  status : timer_status;
}.

Definition set_status (s : timer_status) (t : timer_obj) : timer_obj :=
  mk_timer (ztimer t) (evp t) (sem_cond t) (thread t) (interval t) (reload t) s.
Definition set_ztimer (z : T) (t : timer_obj) : timer_obj :=
  mk_timer z (evp t) (sem_cond t) (thread t) (interval t) (reload t) (status t).
Definition set_reload (r : Z) (i : timespec) (t : timer_obj) : timer_obj :=
  mk_timer (ztimer t) (evp t) (sem_cond t) (thread t) i r (status t).
Definition set_sem (s : S) (t : timer_obj) : timer_obj :=
  mk_timer (ztimer t) (evp t) s (thread t) (interval t) (reload t) (status t).

(** The slab: the objects allocated, by address. *)
Abbreviation timers := (gmap Z timer_obj).

(** Which expiry function the kernel timer calls. *)
Inductive expiry := ExpiryNone | ExpiryWrapper | ExpiryInterrupt.

(** zephyr_timer_wrapper: the object after it and the function called. *)
Definition zephyr_timer_wrapper (t : timer_obj) : timer_obj * notified :=
  let t1 := if reload t =? 0 then set_status NOT_ACTIVE t else t in
  if sigev_notify (evp t1) =? SIGEV_NONE then (t1, NotCalled)
  else if sigev_notify_function (evp t1) =? 0 then (t1, NotCalled)
  else (t1, FunctionCalled (sigev_notify_function (evp t1)) (sigev_value (evp t1))).

Definition zephyr_timer_interrupt (t : timer_obj) : timer_obj :=
  set_sem (ksem_give (sem_cond t)) t.

(** [sem_zero] is the zeroed semaphore of a fresh object, [slab] the result
    of k_mem_slab_alloc, [setdetach] and [create] those of
    pthread_attr_setdetachstate and pthread_create. *)
Definition timer_create (sem_zero : S) (ts : timers) (clockid_ : clockid) (ev : option sigevent)
  (timerid_null : bool) (slab : option Z) (setdetach : res unit) (create : res Z) :
  timers * res (Z * expiry) :=
  match ev with
  | None => (ts, Err EINVAL)
  | Some e =>
      if timerid_null then (ts, Err EINVAL)
      else match clockid_ with
      | CLOCK_REALTIME | CLOCK_MONOTONIC =>
          match slab with
          | None => (ts, Err ENOMEM)
          | Some a =>
              let t0 := mk_timer kt_init e sem_zero 0 (mk_timespec 0 0) 0 NOT_ACTIVE in
              if sigev_notify e =? SIGEV_NONE then (<[a := t0]> ts, Ok (a, ExpiryNone))
              else if sigev_notify e =? SIGEV_SIGNAL then (<[a := t0]> ts, Ok (a, ExpiryWrapper))
              else if sigev_notify e =? SIGEV_THREAD then
                match setdetach with
                | Err er => (ts, Err er)
                | Ok _ =>
                    match create with
                    | Err er => (ts, Err er)
                    | Ok th =>
                        (<[a := mk_timer kt_init e (ksem_init 0 1) th (mk_timespec 0 0) 0
                                  NOT_ACTIVE]> ts, Ok (a, ExpiryInterrupt))
                    end
                end
              else (ts, Err EINVAL)
          end
      | _ => (ts, Err EINVAL)
      end
  end.

(** The body of timer_gettime on an object; [remaining] is an [int32_t]. *)
Definition timer_read (t : timer_obj) : itimerspec :=
  match status t with
  | ACTIVE =>
      let remaining := swrap 32 (kt_remaining (ztimer t)) in
      let secs := Z.quot remaining MSEC_PER_SEC in
      let leftover := swrap 32 (remaining - secs * MSEC_PER_SEC) in
      mk_its (interval t) (mk_timespec (swrap 32 secs) (swrap 32 (leftover * NSEC_PER_MSEC)))
  | NOT_ACTIVE => mk_its (interval t) (mk_timespec 0 0)
  end.

(** [None] for an identifier that is no allocated object. *)
Definition timer_gettime (ts : timers) (timerid : option Z) : option (res itimerspec) :=
  match timerid with
  | None => Some (Err EINVAL)
  | Some a => match ts !! a with None => None | Some t => Some (Ok (timer_read t)) end
  end.

(** The duration in milliseconds, an [uint32_t]. *)
Definition timer_duration (t : timer_obj) (flags : Z) (value : itimerspec) : Z :=
  let duration := uwrap 32 (ts_to_ms (it_value value)) in
  if flag_set flags TIMER_ABSTIME then
    let current := uwrap 32 (kt_remaining (ztimer t)) in
    if duration <=? current then 0 else uwrap 32 (duration - current)
  else duration.

(** The body of timer_settime on an object, with valid times. *)
Definition timer_arm (t : timer_obj) (flags : Z) (value : itimerspec) : timer_obj :=
  let stopped t := match status t with ACTIVE => set_ztimer (kt_stop (ztimer t)) t
                                     | NOT_ACTIVE => t end in
  if (tv_sec (it_value value) =? 0) && (tv_nsec (it_value value) =? 0) then
    set_status NOT_ACTIVE (stopped t)
  else
    let t1 := set_reload (uwrap 32 (ts_to_ms (it_interval value))) (it_interval value) t in
    let duration := timer_duration t1 flags value in
    let t2 := set_status ACTIVE (stopped t1) in
    set_ztimer (kt_start (ztimer t2) duration (reload t2)) t2.

(** Returns what is stored through a non-NULL [ovalue]. *)
Definition timer_settime (ts : timers) (timerid : option Z) (flags : Z) (value : itimerspec) :
  option (timers * res itimerspec) :=
  match timerid with
  | None => Some (ts, Err EINVAL)
  | Some a =>
      if negb (timespec_is_valid (it_interval value)) || negb (timespec_is_valid (it_value value))
      then Some (ts, Err EINVAL)
      else match ts !! a with
           | None => None
           | Some t => Some (<[a := timer_arm t flags value]> ts, Ok (timer_read t))
           end
  end.

Definition timer_getoverrun (ts : timers) (timerid : option Z) : option (res Z) :=
  match timerid with
  | None => Some (Err EINVAL)
  | Some a =>
      match ts !! a with
      | None => None
      | Some t =>
          let overruns := kt_status (ztimer t) - 1 in
          Some (Ok (if DELAYTIMER_MAX <? overruns then DELAYTIMER_MAX else overruns))
      end
  end.

(** Returns the thread that is cancelled, if there is one. *)
Definition timer_delete (ts : timers) (timerid : option Z) : option (timers * res (option Z)) :=
  match timerid with
  | None => Some (ts, Err EINVAL)
  | Some a =>
      match ts !! a with
      | None => None
      | Some t =>
          Some (delete a ts,
                Ok (if sigev_notify (evp t) =? SIGEV_THREAD then Some (thread t) else None))
      end
  end.

(** ** The notification thread

    The thread of a SIGEV_THREAD timer is at the top of its loop, waits for
    the semaphore, or has left. *)
Inductive thread_pc := AtTop | Waiting | Finished.

Record tsys := mk_tsys { t_obj : timer_obj; t_pc : thread_pc; t_calls : list (Z * Z) }.

(** The statements from the top of the loop to k_sem_take. *)
Definition thread_top (s : tsys) : option tsys :=
  match t_pc s with
  | AtTop =>
      let t := t_obj s in
      Some (mk_tsys (if reload t =? 0 then set_status NOT_ACTIVE t else t) Waiting (t_calls s))
  | _ => None
  end.

(** k_sem_take and the rest of the body. *)
Definition thread_wake (s : tsys) : option tsys :=
  match t_pc s with
  | Waiting =>
      match ksem_take (sem_cond (t_obj s)) with
      | None => None
      | Some sem =>
          let t := set_sem sem (t_obj s) in
          match status t with
          | NOT_ACTIVE => Some (mk_tsys t Finished (t_calls s))
          | ACTIVE =>
              if sigev_notify_function (evp t) =? 0 then Some (mk_tsys t AtTop (t_calls s))
              else Some (mk_tsys t AtTop
                     (t_calls s ++ [(sigev_notify_function (evp t), sigev_value (evp t))]))
          end
      end
  | _ => None
  end.

Inductive tact := ActTop | ActWake | ActExpire | ActSet (flags : Z) (value : itimerspec).

Definition tstep (a : tact) (s : tsys) : option tsys :=
  match a with
  | ActTop => thread_top s
  | ActWake => thread_wake s
  | ActExpire => Some (mk_tsys (zephyr_timer_interrupt (t_obj s)) (t_pc s) (t_calls s))
  | ActSet flags value => Some (mk_tsys (timer_arm (t_obj s) flags value) (t_pc s) (t_calls s))
  end.

(** ** Properties *)

Context `{!KTimerLaws T, !KSemLaws S}.

(** Times that the 32-bit milliseconds hold. *)
Definition ms_ok (ts : timespec) : Prop :=
  0 <= tv_sec ts < 2000000 /\ 0 <= tv_nsec ts < NSEC_PER_SEC.

Lemma ms_ok_value ts : ms_ok ts ->
  uwrap 32 (ts_to_ms ts) = tv_sec ts * 1000 + tv_nsec ts / 1000000 /\
  0 <= tv_nsec ts / 1000000 < 1000.
Proof.
  unfold ms_ok, NSEC_PER_SEC. intros [Hs Hn].
  assert (0 <= tv_nsec ts / 1000000 < 1000)
    by (split; [apply Z.div_pos; lia|apply Z.div_lt_upper_bound; lia]).
  rewrite ts_to_ms_exact by (unfold ts_ok, NSEC_PER_SEC; lia).
  unfold MSEC_PER_SEC, NSEC_PER_MSEC. rewrite uwrap32_id by lia. done.
Qed.

Lemma timer_read_started t ms :
  status t = ACTIVE -> kt_remaining (ztimer t) = ms -> 0 <= ms < 2147483648 ->
  timer_read t = mk_its (interval t) (mk_timespec (ms / 1000) (ms mod 1000 * 1000000)).
Proof.
  intros Ht Hr Hms. unfold timer_read, MSEC_PER_SEC, NSEC_PER_MSEC. rewrite Ht, Hr, (swrap32_id ms) by lia.
  rewrite Z.quot_div_nonneg by lia.
  pose proof (Z.div_mod ms 1000). pose proof (Z.mod_pos_bound ms 1000).
  replace (ms - ms / 1000 * 1000) with (ms mod 1000) by lia.
  rewrite (swrap32_id (ms / 1000)), (swrap32_id (ms mod 1000)), swrap32_id by lia. done.
Qed.

(** Timers report what they were set to.  Arming a timer with a
    relative time succeeds and returns the previous setting; asking at once
    gives the same interval and the time left, which is the time that was set
    rounded down to milliseconds; setting a zero time disarms the timer. *)
Theorem timer_set_get ts a t flags value :
  ts !! a = Some t -> timespec_is_valid (it_interval value) = true ->
  timespec_is_valid (it_value value) = true -> flag_set flags TIMER_ABSTIME = false ->
  ms_ok (it_value value) ->
  exists ts', timer_settime ts (Some a) flags value = Some (ts', Ok (timer_read t)) /\
    timer_gettime ts' (Some a) = Some (Ok (
      if (tv_sec (it_value value) =? 0) && (tv_nsec (it_value value) =? 0)
      then mk_its (interval t) (mk_timespec 0 0)
      else mk_its (it_interval value)
             (mk_timespec (tv_sec (it_value value)) (tv_nsec (it_value value) / 1000000 * 1000000)))).
Proof.
  intros Ha Hvi Hvv Hrel Hms. unfold timer_settime. rewrite Hvi, Hvv, Ha. simpl.
  eexists. split; [done|]. rewrite lookup_insert_eq. do 2 f_equal. unfold timer_arm.
  destruct (_ && _); [by destruct (status t)|].
  destruct (ms_ok_value _ Hms) as [Hd Hb]. unfold ms_ok in Hms.
  unfold timer_duration. rewrite Hrel, Hd.
  set (ms := tv_sec (it_value value) * 1000 + tv_nsec (it_value value) / 1000000).
  erewrite (timer_read_started _ ms); [|done|simpl; apply kt_start_remaining; lia|lia].
  f_equal; [simpl; by destruct (status t)|]. unfold ms.
  replace (tv_sec (it_value value) * 1000 + tv_nsec (it_value value) / 1000000)
    with (tv_nsec (it_value value) / 1000000 + tv_sec (it_value value) * 1000) by lia.
  rewrite Z.div_add, Z.mod_add, Z.div_small, Z.mod_small by lia. f_equal; lia.
Qed.

(** A one-shot time: no interval. *)
Definition one_shot (value : itimerspec) : Prop :=
  it_interval value = mk_timespec 0 0 /\ it_value value <> mk_timespec 0 0.

Lemma timer_arm_one_shot t flags value :
  one_shot value ->
  let t' := timer_arm t flags value in
  status t' = ACTIVE /\ reload t' = 0 /\ evp t' = evp t /\ sem_cond t' = sem_cond t.
Proof.
  intros [Hi Hv]. unfold timer_arm. destruct (_ && _) eqn:Hz.
  - apply andb_true_iff in Hz as [Hs%Z.eqb_eq Hn%Z.eqb_eq]. destruct Hv.
    destruct (it_value value). simpl in *. by subst.
  - rewrite Hi. simpl. by destruct (status t).
Qed.

(** The thread waits for an expiry that has not come. *)
Definition idle (e : sigevent) (s : tsys) : Prop :=
  t_pc s = Waiting /\ evp (t_obj s) = e /\ ksem_count (sem_cond (t_obj s)) = 0 /\
  ksem_limit (sem_cond (t_obj s)) = 1.

Lemma one_shot_round e s flags value :
  idle e s -> one_shot value -> sigev_notify_function e <> 0 ->
  exists s', run_steps tstep [ActSet flags value; ActExpire; ActWake; ActTop] s = Some s' /\
    idle e s' /\ t_calls s' = t_calls s ++ [(sigev_notify_function e, sigev_value e)].
Proof.
  intros (Hpc & Hevp & Hcnt & Hlim) Hone Hfn.
  destruct (timer_arm_one_shot (t_obj s) flags value Hone) as (Hst & Hrel & He & Hsem).
  simpl. unfold thread_wake. simpl. rewrite Hpc, Hsem.
  destruct (ksem_take_pos (ksem_give (sem_cond (t_obj s)))) as (sem & Htake & Hc & Hl).
  { rewrite ksem_give_count. lia. }
  rewrite Htake, Hst, He, Hevp, (proj2 (Z.eqb_neq _ _) Hfn). simpl.
  eexists. split; [done|]. rewrite Hrel. simpl. split; [|done].
  split; [done|]. simpl. rewrite Hc, Hl, ksem_give_count, ksem_give_limit, He. split; [done|]. lia.
Qed.

(** A SIGEV_THREAD timer notifies once per expiry.  When its thread is
    waiting and each one-shot time is set, expires and is handled before the
    next, the notification function is called exactly once for each of them,
    with the value of the event, and the thread waits again. *)
Theorem timer_thread_notifies e s vs :
  idle e s -> sigev_notify_function e <> 0 -> Forall (fun fv => one_shot (snd fv)) vs ->
  exists s', run_steps tstep
      (flat_map (fun fv => [ActSet (fst fv) (snd fv); ActExpire; ActWake; ActTop]) vs) s = Some s' /\
    idle e s' /\
    t_calls s' = t_calls s ++ replicate (length vs) (sigev_notify_function e, sigev_value e).
Proof.
  intros Hidle Hfn Hvs. revert s Hidle. induction Hvs as [|[f v] vs Hv Hvs IH]; intros s Hidle.
  - exists s. simpl. by rewrite app_nil_r.
  - destruct (one_shot_round e s f v Hidle Hv Hfn) as (s1 & Hrun & Hidle1 & Hcalls).
    destruct (IH s1 Hidle1) as (s2 & Hrun2 & Hidle2 & Hcalls2).
    exists s2. split.
    + change (flat_map _ ((f, v) :: vs)) with ([ActSet f v; ActExpire; ActWake; ActTop] ++
        flat_map (fun fv => [ActSet (fst fv) (snd fv); ActExpire; ActWake; ActTop]) vs).
      rewrite run_steps_app. by rewrite Hrun.
    + split; [done|]. rewrite Hcalls2, Hcalls, <- app_assoc. done.
Qed.

(** A thread that has left its loop calls nothing. *)
Lemma finished_forever acts s s' :
  t_pc s = Finished -> run_steps tstep acts s = Some s' -> t_calls s' = t_calls s.
Proof.
  revert s. induction acts as [|a acts IH]; intros s Hpc Hrun; simpl in Hrun; [by simplify_eq|].
  destruct a; simpl in Hrun; unfold thread_top, thread_wake in Hrun; rewrite ?Hpc in Hrun; try done;
    apply IH in Hrun; done.
Qed.

(** A one-shot time set before the thread first runs is lost.  The
    thread, created by timer_create, reaches the top of its loop only after
    timer_settime, sees no reload value, marks the timer inactive, and leaves
    its loop at the expiry without calling the function; whatever is done
    with the timer afterwards, it never calls it. *)
Theorem timer_thread_race t value flags :
  one_shot value -> ksem_count (sem_cond t) = 0 -> ksem_limit (sem_cond t) = 1 ->
  exists s', run_steps tstep [ActSet flags value; ActTop; ActExpire; ActWake] (mk_tsys t AtTop [])
      = Some s' /\ t_pc s' = Finished /\ t_calls s' = [] /\
    forall acts s'', run_steps tstep acts s' = Some s'' -> t_calls s'' = [].
Proof.
  intros Hone Hcnt Hlim. destruct (timer_arm_one_shot t flags value Hone) as (Hst & Hrel & He & Hsem).
  simpl. rewrite Hrel. simpl. unfold thread_wake. simpl. rewrite Hsem.
  destruct (ksem_take_pos (ksem_give (sem_cond t))) as (sem & Htake & Hc & Hl).
  { rewrite ksem_give_count. lia. }
  rewrite Htake. eexists. split; [done|]. split; [done|]. split; [done|].
  intros acts s'' Hrun. by apply finished_forever in Hrun.
Qed.

(** TIMER_ABSTIME does not look at the clock.  For a timer that is not
    running, setting an absolute time arms it exactly as if the time were
    relative to now, whatever the time of day is. *)
Lemma timer_abstime_is_relative t flags value :
  kt_remaining (ztimer t) = 0 -> flag_set flags TIMER_ABSTIME = true ->
  flag_set 0 TIMER_ABSTIME = false -> timer_arm t flags value = timer_arm t 0 value.
Proof.
  intros Hr Hf Hf0. unfold timer_arm. destruct (_ && _); [done|].
  assert (forall i r, timer_duration (set_reload r i t) flags value
    = timer_duration (set_reload r i t) 0 value) as ->; [|done].
  intros i r. unfold timer_duration. rewrite Hf, Hf0. simpl. rewrite Hr.
  change (uwrap 32 0) with 0. pose proof (uwrap_range 32 (ts_to_ms (it_value value)) ltac:(lia)).
  destruct (Z.leb_spec (uwrap 32 (ts_to_ms (it_value value))) 0); [lia|].
  rewrite Z.sub_0_r. apply uwrap32_id. change (2 ^ 32) with 4294967296 in *. lia.
Qed.
End timer.

(** ** Witnesses *)

(** A kernel timer as its remaining time. *)
#[local] Instance z_ktimer : KTimer Z := {
  kt_init := 0; kt_start _ d _ := d; kt_stop _ := 0; kt_remaining t := t; kt_status _ := 0;
}.
#[local] Instance z_ktimer_laws : KTimerLaws Z.
Proof. by split. Qed.

Definition demo_timer : timer_obj (T := Z) (S := counter_sem) :=
  mk_timer 0 (mk_sigevent SIGEV_THREAD 7 4096 None) (mk_counter_sem 0 1) 1 (mk_timespec 0 0) 0 NOT_ACTIVE.
Definition demo_shot : itimerspec := mk_its (mk_timespec 0 0) (mk_timespec 2 500000000).

Lemma demo_one_shot : one_shot demo_shot.
Proof. by split. Qed.

Lemma timer_set_get_witness :
  exists ts', timer_settime (fun _ => true) 4 {[8 := demo_timer]} (Some 8) 0 demo_shot
    = Some (ts', Ok (timer_read demo_timer)) /\
    timer_gettime ts' (Some 8) = Some (Ok demo_shot).
Proof.
  apply (timer_set_get (fun _ => true) 4 {[8 := demo_timer]} 8 demo_timer 0 demo_shot);
    try reflexivity. unfold ms_ok, NSEC_PER_SEC. simpl. lia.
Defined.

Lemma timer_thread_notifies_witness :
  exists s', run_steps (tstep 4) [ActSet 0 demo_shot; ActExpire; ActWake; ActTop]
      (mk_tsys demo_timer Waiting []) = Some s' /\ t_calls s' = [(4096, 7)].
Proof.
  destruct (timer_thread_notifies 4 (mk_sigevent SIGEV_THREAD 7 4096 None)
    (mk_tsys demo_timer Waiting []) [(0, demo_shot)]) as (s' & Hrun & _ & Hcalls).
  - by repeat split.
  - done.
  - by repeat constructor.
  - exists s'. split; [exact Hrun|exact Hcalls].
Defined.

Lemma timer_thread_race_witness :
  exists s', run_steps (tstep 4) [ActSet 0 demo_shot; ActTop; ActExpire; ActWake]
      (mk_tsys demo_timer AtTop []) = Some s' /\ t_pc s' = Finished.
Proof.
  destruct (timer_thread_race 4 demo_timer demo_shot 0) as (s' & Hrun & Hpc & _);
    [exact demo_one_shot|reflexivity|reflexivity|].
  exists s'. split; [exact Hrun|exact Hpc].
Defined.

Lemma timer_abstime_is_relative_witness :
  timer_arm 4 demo_timer 4 demo_shot = timer_arm 4 demo_timer 0 demo_shot.
Proof. apply (timer_abstime_is_relative 4 demo_timer 4 demo_shot); reflexivity. Defined.
