(* ===== verification/Shm.v ===== *)
(** * Shared memory objects

    shared_memory_objects/shm.c: the list of objects, found by a hash of
    their names, their memory, and the operations of their descriptors.  The
    descriptor table is the kernel's ([Zvfs]); so are the hash function and,
    with an MMU, the page tables.  The memory obtained by an allocation is an
    argument: the address, [None] when the allocation fails. *)

From stdpp Require Import base list strings gmap.
From Stdlib Require Import ZArith Lia Ascii.
From S2P Require Import Prelude Kernel.

Local Open Scope Z_scope.

Definition PATH_MAX : nat := 256.
Definition slash : ascii := "/"%char.

Inductive whence := SEEK_SET | SEEK_CUR | SEEK_END | SEEK_OTHER.

(** [mem] is NULL until the first ftruncate; the bit [mapped] is never used. *)
Record shm_obj := mk_shm {
  mem : option Z;
  size : Z;
  hash : Z;
  unlinked : bool;
}.

(** The list, the objects by address, and the bytes of the memory blocks. *)
Record shms := mk_shms {
  shm_list : list Z;
  shm_heap : gmap Z shm_obj;
  shm_blocks : gmap Z (list Z);
}.

Definition shm_none : shms := mk_shms [] ∅ ∅.

(** Requests of shm_ioctl with their arguments; ftruncate has the memory it
    would be given. *)
Inductive ioctl_req :=
  | ZFD_IOCTL_LSEEK (offset : Z) (w : whence) (cur : Z)
  | ZFD_IOCTL_MMAP (len flags off : Z)
  | ZFD_IOCTL_SET_LOCK
  | ZFD_IOCTL_STAT
  | ZFD_IOCTL_TRUNCATE (length : Z) (virt : option Z)
  | ZFD_IOCTL_OTHER.

(** What a successful request yields: a return value, the address stored in
    [*virt], or the size stored in the stat buffer. *)
Inductive ioctl_ret := RetInt (n : Z) | RetVirt (a : Z) | RetStat (st_size : Z).

Section shm.
(** Bits of long, size_t, off_t and pointers; whether there is an MMU; the
    page size; the kernel's hash of names and page-table query. *)
Context (W : Z) (mmu : bool) (page_size : Z) (hash32 : string -> Z).
Context (page_phys_get : Z -> bool).
Context (MAP_FIXED O_RDONLY O_RDWR O_CREAT O_EXCL O_TRUNC : Z).

Definition INTPTR_MAX : Z := 2 ^ (W - 1) - 1.

(** ROUND_UP for a power of two. *)
Definition ROUND_UP (x align : Z) : Z := (x + (align - 1)) / align * align.

(** [len] is the length limited to PATH_MAX. *)
Definition shm_obj_name_valid (name : option string) (len : nat) : bool :=
  match name with
  | None => false
  | Some s =>
      match String.get 0 s with
      | Some c => if bool_decide (c = slash) then negb (Nat.ltb len 2) else false
      | None => false
      end
  end.

Fixpoint find_key (heap : gmap Z shm_obj) (l : list Z) (key : Z) : option Z :=
  match l with
  | [] => None
  | a :: next =>
      match heap !! a with
      | Some o => if hash o =? key then Some a else find_key heap next key
      | None => find_key heap next key
      end
  end.

Definition shm_obj_find (st : shms) (key : Z) : option Z :=
  find_key (shm_heap st) (shm_list st) key.

Definition shm_obj_add (st : shms) (a : Z) : shms :=
  mk_shms (shm_list st ++ [a]) (shm_heap st) (shm_blocks st).

Definition shm_obj_remove (st : shms) (a : Z) : shms :=
  let blocks :=
    match shm_heap st !! a with
    | Some o =>
        if 0 <? size o then
          match mem o with
          | Some m => if mmu && negb (page_phys_get m) then shm_blocks st
                      else delete m (shm_blocks st)
          | None => shm_blocks st
          end
        else shm_blocks st
    | None => shm_blocks st
    end in
  mk_shms (slist_remove a (shm_list st)) (delete a (shm_heap st)) blocks.

Definition shm_put (a : Z) (o : shm_obj) (st : shms) : shms :=
  mk_shms (shm_list st) (<[a := o]> (shm_heap st)) (shm_blocks st).

Definition shm_fstat (o : shm_obj) : res ioctl_ret := Ok (RetStat (size o)).

(** k_mem_map and k_calloc both give zeroed memory. *)
Definition block_len (length : Z) : Z := if mmu then ROUND_UP length page_size else length.

Definition shm_ftruncate (st : shms) (a : Z) (o : shm_obj) (length : Z) (virt : option Z)
  : shms * res ioctl_ret :=
  if length <? 0 then (st, Err EINVAL)
  else if length =? 0 then
    if negb (size o =? 0) then (st, Err EBUSY) else (st, Ok (RetInt 0))
  else
    match virt with
    | None => (st, Err ENOMEM)
    | Some v =>
        (mk_shms (shm_list st)
           (<[a := mk_shm (Some v) length (hash o) (unlinked o)]> (shm_heap st))
           (<[v := replicate (Z.to_nat (block_len length)) 0]> (shm_blocks st)),
         Ok (RetInt 0))
    end.

(** [addend] is a size_t, so [INTPTR_MAX - addend] is unsigned and the signed
    [offset] is converted for the comparison. *)
Definition shm_lseek (o : shm_obj) (offset : Z) (w : whence) (cur : Z) : res ioctl_ret :=
  match (match w with
         | SEEK_SET => Some 0
         | SEEK_CUR => Some cur
         | SEEK_END => Some (size o)
         | SEEK_OTHER => None
         end) with
  | None => Err EINVAL
  | Some addend =>
      if (INTPTR_MAX <? addend) || (uwrap W (INTPTR_MAX - addend) <? uwrap W offset)
      then Err EOVERFLOW
      else
        let offset := swrap W (uwrap W offset + addend) in
        if offset <? 0 then Err EINVAL else Ok (RetInt offset)
  end.

(** [len + off] is computed in size_t. *)
Definition shm_mmap (o : shm_obj) (len flags off : Z) : res ioctl_ret :=
  if (len =? 0) || (off <? 0) || flag_set flags MAP_FIXED
     || negb (Z.land off (page_size - 1) =? 0) || (size o <? uwrap W (len + uwrap W off))
  then Err EINVAL
  else if negb mmu then Err ENOTSUP
  else match mem o with
       | None => Err ENOMEM
       | Some m => Ok (RetVirt (m + off))
       end.

(** [buf] is the caller's buffer, which must have the bytes that are copied
    from it.  The result has the bytes stored in the buffer by a read and the
    return value; [None] is an access outside of a block. *)
Definition shm_rw (st : shms) (a : Z) (buf : list Z) (sz : Z) (is_write : bool) (offset : Z)
  : option (shms * list Z * Z) :=
  match shm_heap st !! a with
  | None => None
  | Some o =>
      let n := if size o <=? offset then 0 else Z.min sz (size o - offset) in
      if 0 <? n then
        match mem o with
        | None => None
        | Some m =>
            match shm_blocks st !! m with
            | None => None
            | Some blk =>
                let off := Z.to_nat offset in
                let cnt := Z.to_nat n in
                if Z.of_nat (length blk) <? offset + n then None
                else if is_write then
                  if Z.of_nat (length buf) <? n then None
                  else Some (mk_shms (shm_list st) (shm_heap st)
                         (<[m := take off blk ++ take cnt buf ++ drop (off + cnt) blk]>
                            (shm_blocks st)), [], n)
                else Some (st, take cnt (drop off blk), n)
            end
        end
      else Some (st, [], n)
  end.

Definition shm_read (st : shms) (a : Z) (sz offset : Z) := shm_rw st a [] sz false offset.
Definition shm_write (st : shms) (a : Z) (buf : list Z) (sz offset : Z) :=
  shm_rw st a buf sz true offset.

(** Called by zvfs_close when the last descriptor of the object is closed. *)
Definition shm_close (st : shms) (a : Z) : option shms :=
  match shm_heap st !! a with
  | None => None
  | Some o => Some (if unlinked o then shm_obj_remove st a else st)
  end.

Definition shm_ioctl (st : shms) (a : Z) (req : ioctl_req) : option (shms * res ioctl_ret) :=
  match shm_heap st !! a with
  | None => None
  | Some o => Some
      match req with
      | ZFD_IOCTL_LSEEK offset w cur => (st, shm_lseek o offset w cur)
      | ZFD_IOCTL_MMAP len flags off => (st, shm_mmap o len flags off)
      | ZFD_IOCTL_SET_LOCK => (st, Ok (RetInt 0))
      | ZFD_IOCTL_STAT => (st, shm_fstat o)
      | ZFD_IOCTL_TRUNCATE length virt => shm_ftruncate st a o length virt
      | ZFD_IOCTL_OTHER => (st, Err ENOTSUP)
      end
  end.

(** strnlen(name, PATH_MAX) and the hash of that many characters. *)
Definition name_len (name : option string) : nat :=
  match name with None => 0%nat | Some s => Nat.min (String.length s) PATH_MAX end.
Definition name_key (s : string) : Z := hash32 (String.substring 0 (name_len (Some s)) s).

Section fds.
Context {T : Type} `{Zvfs T}.

(** [obj_mem] is the result of k_calloc for a new object. *)
Definition shm_open (fds : T) (st : shms) (name : option string) (oflag mode : Z)
  (obj_mem : option Z) : T * shms * res Z :=
  let rd := flag_set oflag O_RDONLY in
  let rw := flag_set oflag O_RDWR in
  let creat := flag_set oflag O_CREAT in
  let excl := flag_set oflag O_EXCL in
  let trunc := flag_set oflag O_TRUNC in
  if Z.land mode 511 =? 0 then (fds, st, Err EINVAL)
  else if negb (xorb rd rw) then (fds, st, Err EINVAL)
  else if rd && trunc then (fds, st, Err EINVAL)
  else if negb (shm_obj_name_valid name (name_len name)) then (fds, st, Err EINVAL)
  else
    match zvfs_reserve_fd fds with
    | None => (fds, st, Err EMFILE)
    | Some (fd, fds1) =>
        let key := name_key (default "" name) in
        let shm := shm_obj_find st key in
        let was_unlinked :=
          match shm with
          | Some a => match shm_heap st !! a with Some o => unlinked o | None => false end
          | None => false
          end in
        if was_unlinked then (zvfs_free_fd fds1 fd, st, Err EACCES)
        else if creat then
          match shm with
          | Some a =>
              if excl then (zvfs_free_fd fds1 fd, st, Err EEXIST)
              else (zvfs_finalize_typed_fd fds1 fd a, st, Ok fd)
          | None =>
              match obj_mem with
              | None => (zvfs_free_fd fds1 fd, st, Err ENOSPC)
              | Some a =>
                  (zvfs_finalize_typed_fd fds1 fd a,
                   shm_obj_add (shm_put a (mk_shm None 0 key false) st) a, Ok fd)
              end
          end
        else
          match shm with
          | None => (zvfs_free_fd fds1 fd, st, Err ENOENT)
          | Some a => (zvfs_finalize_typed_fd fds1 fd a, st, Ok fd)
          end
    end.

Definition shm_unlink (fds : T) (st : shms) (name : option string) : shms * res unit :=
  if negb (shm_obj_name_valid name (name_len name)) then (st, Err EINVAL)
  else
    match shm_obj_find st (name_key (default "" name)) with
    | None => (st, Err ENOENT)
    | Some a =>
        match shm_heap st !! a with
        | None => (st, Err ENOENT)
        | Some o =>
            if unlinked o then (st, Err ENOENT)
            else
              let st1 := shm_put a (mk_shm (mem o) (size o) (hash o) true) st in
              (if zvfs_fd_obj_refcount fds a =? 0 then shm_obj_remove st1 a else st1, Ok tt)
        end
    end.

(** close(fd) on a descriptor of a shared memory object. *)
Definition shm_fd_close (fds : T) (st : shms) (fd : Z) : option (T * shms) :=
  match zvfs_close fds fd with
  | None => None
  | Some (fds', None) => Some (fds', st)
  | Some (fds', Some a) =>
      match shm_close st a with Some st' => Some (fds', st') | None => None end
  end.

(** ** Reachable states *)

(** What a program can do with shared memory objects, one call at a time.
    With [once] the size of an object is set at most once, as the comment in
    shm_ftruncate intends; memory handed out by an allocation is not in use. *)
Inductive shm_step (once : bool) : T * shms -> T * shms -> Prop :=
  | step_open t st name oflag mode obj_mem t' st' r :
      (forall a, obj_mem = Some a -> shm_heap st !! a = None) ->
      shm_open t st name oflag mode obj_mem = (t', st', r) ->
      shm_step once (t, st) (t', st')
  | step_unlink t st name st' r :
      shm_unlink t st name = (st', r) -> shm_step once (t, st) (t, st')
  | step_close t st fd a t' st' :
      fd_obj t fd = Some a -> shm_fd_close t st fd = Some (t', st') ->
      shm_step once (t, st) (t', st')
  | step_ioctl t st fd a o req st' r :
      fd_obj t fd = Some a -> shm_heap st !! a = Some o ->
      (forall len v, req = ZFD_IOCTL_TRUNCATE len (Some v) ->
         shm_blocks st !! v = None /\ (once = true -> size o = 0)) ->
      shm_ioctl st a req = Some (st', r) -> shm_step once (t, st) (t, st')
  | step_rw t st fd a buf sz is_write offset st' data n :
      fd_obj t fd = Some a -> 0 <= offset ->
      shm_rw st a buf sz is_write offset = Some (st', data, n) ->
      shm_step once (t, st) (t, st').

(** The invariant; the object [x] may be unlinked without a descriptor. *)
Record shm_inv (once : bool) (x : option Z) (t : T) (st : shms) : Prop := {
  si_nodup : NoDup (shm_list st);
  si_heap a : a ∈ shm_list st <-> is_Some (shm_heap st !! a);
  si_fds fd a : fd_obj t fd = Some a -> is_Some (shm_heap st !! a);
  si_unlinked a o :
    shm_heap st !! a = Some o -> unlinked o = true -> x = Some a \/ exists fd, fd_obj t fd = Some a;
  si_keys a b oa ob :
    shm_heap st !! a = Some oa -> shm_heap st !! b = Some ob -> hash oa = hash ob -> a = b;
  si_mem a o :
    shm_heap st !! a = Some o ->
    match mem o with
    | None => size o = 0
    | Some m => 0 < size o /\ exists blk, shm_blocks st !! m = Some blk /\
        Z.of_nat (length blk) = block_len (size o)
    end;
  si_mem_inj a b oa ob m :
    shm_heap st !! a = Some oa -> shm_heap st !! b = Some ob ->
    mem oa = Some m -> mem ob = Some m -> a = b;
  si_owner m :
    once = true -> is_Some (shm_blocks st !! m) ->
    exists a o, shm_heap st !! a = Some o /\ mem o = Some m;
}.

(** ** Lookup by key *)

Lemma find_key_Some heap l key a :
  find_key heap l key = Some a -> a ∈ l /\ exists o, heap !! a = Some o /\ hash o = key.
Proof.
  induction l as [|b l IH]; simpl; [done|].
  repeat case_match; intros Hf; simplify_eq;
    try (destruct (IH Hf) as [? ?]; split; [by right|done]).
  split; [by left|]. eexists. split; [done|]. by apply Z.eqb_eq.
Qed.

Lemma find_key_None heap l key a o :
  find_key heap l key = None -> a ∈ l -> heap !! a = Some o -> hash o <> key.
Proof.
  induction l as [|b l IH]; simpl; intros Hf Ha Ho; [by apply elem_of_nil in Ha|].
  apply elem_of_cons in Ha as [->|Ha]; repeat case_match; simplify_eq; auto.
  by apply Z.eqb_neq.
Qed.

Context `{!ZvfsLaws T}.
Context (once : bool).
Abbreviation inv := (shm_inv once).

Lemma shm_obj_find_spec x t st key a :
  inv x t st ->
  shm_obj_find st key = Some a <-> exists o, shm_heap st !! a = Some o /\ hash o = key.
Proof.
  intros Hi. unfold shm_obj_find. split; [by intros [_ ?]%find_key_Some|].
  intros (o & Ho & Hk). destruct (find_key _ _ _) as [b|] eqn:Hf.
  - apply find_key_Some in Hf as (_ & ob & Hb & Hkb). f_equal.
    eapply (si_keys _ _ _ _ Hi b a); [done..|congruence].
  - destruct (find_key_None _ _ _ a o Hf); [|done..]. apply (si_heap _ _ _ _ Hi). by eexists.
Qed.

(** ** Preservation *)

Lemma shm_inv_none t : (forall fd, fd_obj t fd = None) -> inv None t shm_none.
Proof.
  intros Ht. split; simpl; try done.
  - constructor.
  - intros a. rewrite lookup_empty. split; [by intros ?%elem_of_nil|by intros [? ?]].
  - intros fd a Hf. by rewrite Ht in Hf.
  - intros m _ [? Hm]. done.
Qed.

(** Only the descriptors change. *)
Lemma shm_inv_table x t t' st :
  inv x t st ->
  (forall fd a, fd_obj t' fd = Some a -> is_Some (shm_heap st !! a)) ->
  (forall fd a, fd_obj t fd = Some a -> exists fd', fd_obj t' fd' = Some a) ->
  inv x t' st.
Proof.
  intros [] Hnew Hold. split; try done. intros a o Ho Hu.
  destruct (si_unlinked0 a o Ho Hu) as [?|[fd Hf]]; [by left|]. right. by eapply Hold.
Qed.

Lemma shm_inv_same x t t' st : inv x t st -> (forall f, fd_obj t' f = fd_obj t f) -> inv x t' st.
Proof.
  intros Hi He. eapply shm_inv_table; [done| |].
  - intros fd a. rewrite He. apply (si_fds _ _ _ _ Hi).
  - intros fd a Hf. exists fd. by rewrite He.
Qed.

(** A reserved descriptor is opened on an existing object. *)
Lemma shm_inv_finalize x t fd t1 st a :
  inv x t st -> zvfs_reserve_fd t = Some (fd, t1) -> is_Some (shm_heap st !! a) ->
  inv x (zvfs_finalize_typed_fd t1 fd a) st.
Proof.
  intros Hi Hr Ha. destruct (zvfs_reserve_spec _ _ _ Hr) as (_ & Hn & _).
  eapply shm_inv_table; [done| |].
  - intros f b. rewrite (zvfs_reserve_finalize _ _ _ _ _ Hr).
    case_match; [by intros [= <-]|]. apply (si_fds _ _ _ _ Hi).
  - intros f b Hf. exists f. rewrite (zvfs_reserve_finalize _ _ _ _ _ Hr).
    destruct (Z.eqb_spec f fd) as [->|]; [congruence|done].
Qed.

(** A new object with a new key. *)
Lemma shm_inv_add t st a key :
  inv None t st -> shm_heap st !! a = None -> shm_obj_find st key = None ->
  inv None t (shm_obj_add (shm_put a (mk_shm None 0 key false) st) a).
Proof.
  intros Hi Ha Hk.
  assert (Hal : a ∉ shm_list st) by (rewrite (si_heap _ _ _ _ Hi), Ha; by intros [? ?]).
  assert (Hkey : forall b ob, shm_heap st !! b = Some ob -> hash ob <> key).
  { intros b ob Hb Hh. assert (shm_obj_find st key = Some b); [|congruence].
    apply (shm_obj_find_spec _ _ _ _ _ Hi). by eexists. }
  split; simpl.
  - apply NoDup_app. split; [apply (si_nodup _ _ _ _ Hi)|]. split; [|apply NoDup_singleton].
    intros b Hb ->%list_elem_of_singleton. done.
  - intros b. rewrite elem_of_app, list_elem_of_singleton, (si_heap _ _ _ _ Hi).
    rewrite lookup_insert_is_Some'. naive_solver.
  - intros fd b Hf. rewrite lookup_insert_is_Some'. right. by eapply (si_fds _ _ _ _ Hi).
  - intros b o [[-> <-]|[_ Hb]]%lookup_insert_Some; [done|]. by apply (si_unlinked _ _ _ _ Hi).
  - intros b c ob oc [[<- <-]|[_ Hb]]%lookup_insert_Some [[<- <-]|[_ Hc]]%lookup_insert_Some;
      simpl; intros Hh; [done| | |by eapply (si_keys _ _ _ _ Hi)].
    + by destruct (Hkey c oc).
    + by destruct (Hkey b ob).
  - intros b o [[<- <-]|[_ Hb]]%lookup_insert_Some; [done|]. by apply (si_mem _ _ _ _ Hi b).
  - intros b c ob oc m [[<- <-]|[_ Hb]]%lookup_insert_Some [[<- <-]|[_ Hc]]%lookup_insert_Some;
      simpl; try done. by apply (si_mem_inj _ _ _ _ Hi).
  - intros m Ho Hm. destruct (si_owner _ _ _ _ Hi m Ho Hm) as (b & ob & Hb & ?).
    exists b, ob. split; [|done]. rewrite lookup_insert_ne; [done|]. congruence.
Qed.

Lemma shm_inv_unlink t st a o :
  inv None t st -> shm_heap st !! a = Some o ->
  inv (Some a) t (shm_put a (mk_shm (mem o) (size o) (hash o) true) st).
Proof.
  intros Hi Ha. set (o' := mk_shm _ _ _ _).
  assert (Hold : forall b ob, <[a := o']> (shm_heap st) !! b = Some ob ->
    exists ob', shm_heap st !! b = Some ob' /\ hash ob' = hash ob /\ mem ob' = mem ob /\
      size ob' = size ob /\ (b <> a -> ob' = ob)).
  { intros b ob [[<- <-]|[? Hb]]%lookup_insert_Some; [exists o|exists ob]; naive_solver. }
  split; simpl.
  - apply (si_nodup _ _ _ _ Hi).
  - intros b. rewrite (si_heap _ _ _ _ Hi), lookup_insert_is_Some'. naive_solver.
  - intros fd b Hf. rewrite lookup_insert_is_Some'. right. by eapply (si_fds _ _ _ _ Hi).
  - intros b ob [[<- <-]|[Hne Hb]]%lookup_insert_Some Hu; [by left|].
    destruct (si_unlinked _ _ _ _ Hi b ob Hb Hu) as [?|?]; [done|by right].
  - intros b c ob oc (ob' & Hb & <- & _)%Hold (oc' & Hc & <- & _)%Hold.
    by eapply (si_keys _ _ _ _ Hi).
  - intros b ob (ob' & Hb & _ & <- & <- & _)%Hold. by apply (si_mem _ _ _ _ Hi b).
  - intros b c ob oc m (ob' & Hb & _ & <- & _)%Hold (oc' & Hc & _ & <- & _)%Hold.
    by eapply (si_mem_inj _ _ _ _ Hi).
  - intros m Ho Hm. destruct (si_owner _ _ _ _ Hi m Ho Hm) as (b & ob & Hb & Hmb).
    destruct (decide (b = a)) as [->|Hne].
    + exists a, o'. rewrite lookup_insert_eq. naive_solver.
    + exists b, ob. by rewrite lookup_insert_ne.
Qed.

(** An object that is excused or has a descriptor after all. *)
Lemma shm_inv_excuse t st a fd : inv (Some a) t st -> fd_obj t fd = Some a -> inv None t st.
Proof.
  intros [] Hf. split; try done. intros b o Hb Hu. right.
  destruct (si_unlinked0 b o Hb Hu) as [[= ->]|?]; [by eexists|done].
Qed.

Lemma shm_inv_weaken t st a : inv None t st -> inv (Some a) t st.
Proof.
  intros []. split; try done. intros b o Hb Hu. right.
  by destruct (si_unlinked0 b o Hb Hu) as [?|?].
Qed.

(** The memory block of a removed object is released, unless the page tables
    no longer have it; the blocks of other objects stay. *)
Lemma shm_remove_blocks st a o m :
  shm_heap st !! a = Some o -> mem o <> Some m ->
  shm_blocks (shm_obj_remove st a) !! m = shm_blocks st !! m.
Proof.
  intros Ha Hm. simpl. rewrite Ha. repeat case_match; try done.
  apply lookup_delete_ne. congruence.
Qed.

Lemma shm_inv_remove t st a o :
  (once = true -> mmu = true -> forall m, page_phys_get m = true) ->
  inv (Some a) t st -> shm_heap st !! a = Some o -> (forall f, fd_obj t f <> Some a) ->
  inv None t (shm_obj_remove st a).
Proof.
  intros Hphys Hi Ha Hf.
  assert (He : shm_heap (shm_obj_remove st a) = delete a (shm_heap st)) by done.
  split; rewrite ?He.
  - apply NoDup_slist_remove, (si_nodup _ _ _ _ Hi).
  - intros b. simpl. rewrite elem_of_slist_remove by apply (si_nodup _ _ _ _ Hi).
    rewrite lookup_delete_is_Some, (si_heap _ _ _ _ Hi). naive_solver.
  - intros fd b Hb. simpl. rewrite lookup_delete_is_Some. split; [|by eapply (si_fds _ _ _ _ Hi)].
    intros <-. by destruct (Hf fd).
  - intros b ob [Hne Hb]%lookup_delete_Some Hu. right.
    destruct (si_unlinked _ _ _ _ Hi b ob Hb Hu) as [?|?]; [congruence|done].
  - intros b c ob oc [_ Hb]%lookup_delete_Some [_ Hc]%lookup_delete_Some.
    by eapply (si_keys _ _ _ _ Hi).
  - intros b ob [Hne Hb]%lookup_delete_Some. pose proof (si_mem _ _ _ _ Hi b ob Hb) as Hm.
    destruct (mem ob) as [m|] eqn:Hmb; [|done]. rewrite (shm_remove_blocks _ _ _ _ Ha); [done|].
    intros Hmo. apply Hne. by eapply (si_mem_inj _ _ _ _ Hi a b).
  - intros b c ob oc m [_ Hb]%lookup_delete_Some [_ Hc]%lookup_delete_Some.
    by eapply (si_mem_inj _ _ _ _ Hi).
  - intros m Ho Hm. assert (Hm' : is_Some (shm_blocks st !! m) /\ mem o <> Some m).
    { revert Hm. simpl. rewrite Ha. pose proof (si_mem _ _ _ _ Hi a o Ha) as Hmo.
      destruct (mem o) as [m'|] eqn:Hmo'; [|by repeat case_match].
      ztests.
      replace (mmu && negb (page_phys_get m')) with false
        by (destruct mmu eqn:Hmmu; [by rewrite Hphys|done]).
      rewrite lookup_delete_is_Some. naive_solver. }
    destruct Hm' as [Hm1 Hm2]. destruct (si_owner _ _ _ _ Hi m Ho Hm1) as (b & ob & Hb & Hmb).
    exists b, ob. split; [|done]. simpl. rewrite lookup_delete_ne; [done|]. congruence.
Qed.

(** Setting the size: the object gets the fresh block [v]. *)
Lemma shm_inv_truncate t st a o len v :
  inv None t st -> shm_heap st !! a = Some o -> shm_blocks st !! v = None ->
  (once = true -> size o = 0) -> 0 < len -> 0 < page_size ->
  inv None t (fst (shm_ftruncate st a o len (Some v))).
Proof.
  intros Hi Ha Hv Hone Hlen Hps. unfold shm_ftruncate.
  ztests. simpl.
  set (o' := mk_shm _ _ _ _).
  assert (Hnv : forall b ob, shm_heap st !! b = Some ob -> mem ob <> Some v).
  { intros b ob Hb Hm. pose proof (si_mem _ _ _ _ Hi b ob Hb) as H'. rewrite Hm in H'.
    destruct H' as (_ & blk & ? & _). congruence. }
  split; simpl.
  - apply (si_nodup _ _ _ _ Hi).
  - intros b. rewrite (si_heap _ _ _ _ Hi), lookup_insert_is_Some'. naive_solver.
  - intros fd b Hf. rewrite lookup_insert_is_Some'. right. by eapply (si_fds _ _ _ _ Hi).
  - intros b ob [[<- <-]|[Hne Hb]]%lookup_insert_Some Hu;
      eapply (si_unlinked _ _ _ _ Hi); try done.
  - intros b c ob oc [[<- <-]|[? Hb]]%lookup_insert_Some [[<- <-]|[? Hc]]%lookup_insert_Some;
      simpl; intros Hh; [done|..]; by eapply (si_keys _ _ _ _ Hi).
  - intros b ob [[<- <-]|[Hne Hb]]%lookup_insert_Some; simpl.
    + split; [done|]. eexists. rewrite lookup_insert_eq. split; [done|].
      rewrite length_replicate. unfold block_len, ROUND_UP. destruct mmu; [|lia].
      assert (0 <= (len + (page_size - 1)) / page_size) by (apply Z.div_pos; lia). nia.
    + pose proof (si_mem _ _ _ _ Hi b ob Hb) as Hm. destruct (mem ob) as [m|] eqn:Hmb; [|done].
      rewrite lookup_insert_ne; [done|]. intros <-. by destruct (Hnv b ob).
  - intros b c ob oc m [[<- <-]|[? Hb]]%lookup_insert_Some [[<- <-]|[? Hc]]%lookup_insert_Some;
      simpl; [done| | |by eapply (si_mem_inj _ _ _ _ Hi)].
    + intros [= <-] Hm. by destruct (Hnv c oc).
    + intros Hm [= <-]. by destruct (Hnv b ob).
  - intros m Ho. rewrite lookup_insert_is_Some'. intros [<-|Hm].
    { exists a, o'. by rewrite lookup_insert_eq. }
    destruct (si_owner _ _ _ _ Hi m Ho Hm) as (b & ob & Hb & Hmb). exists b, ob. split; [|done].
    rewrite lookup_insert_ne; [done|]. intros <-.
    pose proof (si_mem _ _ _ _ Hi a o Ha) as H'. rewrite Ha in Hb. injection Hb as <-. rewrite Hmb in H'.
    specialize (Hone Ho). lia.
Qed.

(** ** Contents *)

(** The bytes of an object: the first [size] bytes of its block. *)
Definition shm_bytes (st : shms) (a : Z) : list Z :=
  match shm_heap st !! a with
  | Some o =>
      match mem o with
      | Some m => take (Z.to_nat (size o)) (default [] (shm_blocks st !! m))
      | None => []
      end
  | None => []
  end.

Definition overwrite (off : nat) (data bs : list Z) : list Z :=
  take off bs ++ data ++ drop (off + length data) bs.

Lemma block_len_ge len : 0 < page_size -> 0 <= len -> len <= block_len len.
Proof.
  intros Hp Hl. unfold block_len, ROUND_UP. destruct mmu; [|lia].
  pose proof (Z.div_mod (len + (page_size - 1)) page_size).
  pose proof (Z.mod_pos_bound (len + (page_size - 1)) page_size). lia.
Qed.

(** The shape of an object of a well-formed state. *)
Lemma shm_obj_shape x t st a o :
  0 < page_size -> inv x t st -> shm_heap st !! a = Some o ->
  (mem o = None /\ size o = 0 /\ shm_bytes st a = []) \/
  exists m blk, mem o = Some m /\ 0 < size o /\ shm_blocks st !! m = Some blk /\
    size o <= Z.of_nat (length blk) /\ shm_bytes st a = take (Z.to_nat (size o)) blk /\
    Z.of_nat (length blk) = block_len (size o).
Proof.
  intros Hp Hi Ha. pose proof (si_mem _ _ _ _ Hi a o Ha) as Hm. unfold shm_bytes. rewrite Ha.
  destruct (mem o) as [m|]; [right|by left]. destruct Hm as (Hs & blk & Hb & Hl).
  exists m, blk. rewrite Hb. split_and!; try done. rewrite Hl. apply block_len_ge; lia.
Qed.

Lemma shm_bytes_length x t st a o :
  0 < page_size -> inv x t st -> shm_heap st !! a = Some o ->
  Z.of_nat (length (shm_bytes st a)) = size o.
Proof.
  intros Hp Hi Ha.
  destruct (shm_obj_shape _ _ _ _ _ Hp Hi Ha) as [(_ & -> & ->)|(m & blk & _ & ? & _ & ? & -> & _)];
    [done|]. rewrite length_take. lia.
Qed.

(** Reading takes the bytes from the offset on. *)
Lemma shm_read_spec x t st a o sz off :
  0 < page_size -> inv x t st -> shm_heap st !! a = Some o -> 0 <= off -> 0 <= sz ->
  shm_read st a sz off =
    Some (st, take (Z.to_nat sz) (drop (Z.to_nat off) (shm_bytes st a)),
      Z.min sz (Z.max 0 (size o - off))).
Proof.
  intros Hp Hi Ha Ho Hz. pose proof (shm_bytes_length _ _ _ _ _ Hp Hi Ha) as Hl.
  unfold shm_read, shm_rw. rewrite Ha.
  destruct (shm_obj_shape _ _ _ _ _ Hp Hi Ha)
    as [(_ & Hs & Hb)|(m & blk & Hm & Hs & Hblk & Hle & Hb & _)].
  - rewrite Hb, Hs. ztests. simpl. rewrite drop_nil, take_nil.
    do 2 f_equal. lia.
  - rewrite Hm, Hblk, Hb. destruct (Z.leb_spec (size o) off) as [Hge|Hlt]; simpl.
    + rewrite drop_ge by (rewrite length_take; lia). rewrite take_nil. do 2 f_equal. lia.
    + rewrite (Z.max_r 0) by lia. destruct (Z.ltb_spec 0 (Z.min sz (size o - off))) as [Hn|Hn].
      * ztests. do 3 f_equal.
        rewrite skipn_firstn_comm, take_take. f_equal. lia.
      * replace (Z.to_nat sz) with 0%nat by lia. done.
Qed.

(** Replacing a block by one of the same length keeps the invariant. *)
Lemma shm_inv_block x t st m blk blk' :
  inv x t st -> shm_blocks st !! m = Some blk -> length blk' = length blk ->
  inv x t (mk_shms (shm_list st) (shm_heap st) (<[m := blk']> (shm_blocks st))).
Proof.
  intros Hi Hm Hl. destruct Hi. split; try done; simpl.
  - intros a o Ha. specialize (si_mem0 a o Ha). destruct (mem o) as [m'|]; [|done].
    destruct si_mem0 as (Hs & b & Hb & Hlb). split; [done|].
    destruct (decide (m = m')) as [<-|Hne].
    + exists blk'. rewrite lookup_insert_eq, Hl. by simplify_eq.
    + exists b. by rewrite lookup_insert_ne.
  - intros m'. rewrite lookup_insert_is_Some'. intros Ho [<-|?]; apply si_owner0; eauto.
Qed.

Lemma take_overwrite n off data (blk : list Z) :
  (off + length data <= n)%nat -> (n <= length blk)%nat ->
  take n (overwrite off data blk) = overwrite off data (take n blk).
Proof.
  intros H1 H2. unfold overwrite.
  rewrite !firstn_app, !take_take, length_take, (take_ge data) by lia.
  replace (n - off `min` length blk - length data)%nat with (n - (off + length data))%nat by lia.
  rewrite <- skipn_firstn_comm, (Nat.min_comm n). done.
Qed.

Lemma overwrite_length off data bs :
  (off + length data <= length bs)%nat -> length (overwrite off data bs) = length bs.
Proof. intros. unfold overwrite. rewrite !length_app, length_take, length_drop. lia. Qed.

Lemma overwrite_nil off bs : overwrite off [] bs = bs.
Proof. unfold overwrite. simpl. by rewrite Nat.add_0_r, take_drop. Qed.

(** Writing replaces the bytes from the offset on, as many as fit. *)
Lemma shm_write_spec x t st a o buf sz off :
  0 < page_size -> inv x t st -> shm_heap st !! a = Some o -> 0 <= off ->
  0 <= sz <= Z.of_nat (length buf) ->
  let n := Z.min sz (Z.max 0 (size o - off)) in
  exists st', shm_write st a buf sz off = Some (st', [], n) /\ inv x t st' /\
    shm_list st' = shm_list st /\ shm_heap st' = shm_heap st /\
    shm_bytes st' a = overwrite (Z.to_nat off) (take (Z.to_nat n) buf) (shm_bytes st a) /\
    forall b, b <> a -> shm_bytes st' b = shm_bytes st b.
Proof.
  intros Hp Hi Ha Ho Hz n. unfold shm_write, shm_rw. rewrite Ha.
  assert (Hn : (if size o <=? off then 0 else Z.min sz (size o - off)) = n) by (case_match; lia).
  rewrite Hn. destruct (Z.ltb_spec 0 n) as [Hpos|Hzero].
  2: { replace n with 0 by lia. exists st. rewrite overwrite_nil. done. }
  destruct (shm_obj_shape _ _ _ _ _ Hp Hi Ha)
    as [(_ & Hs & _)|(m & blk & Hm & Hs & Hblk & Hle & Hb & _)]; [lia|].
  rewrite Hm, Hblk. ztests.
  assert (Hlt : length (take (Z.to_nat n) buf) = Z.to_nat n) by (rewrite length_take; lia).
  assert (Heq : take (Z.to_nat off) blk ++ take (Z.to_nat n) buf
      ++ drop (Z.to_nat off + Z.to_nat n) blk
      = overwrite (Z.to_nat off) (take (Z.to_nat n) buf) blk) by (unfold overwrite; by rewrite Hlt).
  rewrite Heq. eexists. split; [done|]. split_and!; try done.
  - eapply shm_inv_block; [done..|]. apply overwrite_length. lia.
  - rewrite Hb. unfold shm_bytes. simpl. rewrite Ha, Hm, lookup_insert_eq. simpl.
    apply take_overwrite; lia.
  - intros b Hne. unfold shm_bytes. simpl. destruct (shm_heap st !! b) as [ob|] eqn:Hob; [|done].
    destruct (mem ob) as [mb|] eqn:Hmb; [|done]. rewrite lookup_insert_ne; [done|].
    intros <-. apply Hne. by eapply (si_mem_inj _ _ _ _ Hi b a).
Qed.

Lemma shm_open_inv t st name oflag mode obj_mem t' st' r :
  inv None t st -> (forall a, obj_mem = Some a -> shm_heap st !! a = None) ->
  shm_open t st name oflag mode obj_mem = (t', st', r) -> inv None t' st'.
Proof.
  intros Hi Hfresh. unfold shm_open.
  repeat (case_match; [by intros [= <- <- _]|]).
  destruct (zvfs_reserve_fd t) as [[fd t1]|] eqn:Hr; [|by intros [= <- <- _]].
  assert (Hfree : inv None (zvfs_free_fd t1 fd) st).
  { eapply shm_inv_same; [done|]. intros f. by eapply zvfs_reserve_free. }
  set (key := name_key _). destruct (shm_obj_find st key) as [a|] eqn:Hf.
  - assert (Ha : is_Some (shm_heap st !! a)).
    { apply find_key_Some in Hf as (_ & o & Ho & _). by eexists. }
    pose proof (shm_inv_finalize _ _ _ _ _ _ Hi Hr Ha).
    repeat case_match; intros; by simplify_eq.
  - destruct (flag_set oflag O_CREAT); [|by intros [= <- <- _]].
    destruct obj_mem as [a|]; [|by intros [= <- <- _]]. intros [= <- <- _].
    eapply (shm_inv_finalize _ t); [|done|simpl; rewrite lookup_insert_eq; by eexists].
    apply shm_inv_add; [done| |done]. by apply Hfresh.
Qed.

Section steps.
Context (Hps : 0 < page_size).
Context (Hphys : once = true -> mmu = true -> forall m, page_phys_get m = true).

Lemma shm_unlink_inv t st name st' r :
  inv None t st -> shm_unlink t st name = (st', r) -> inv None t st'.
Proof.
  intros Hi. unfold shm_unlink. case_match; [by intros [= <- _]|].
  destruct (shm_obj_find _ _) as [a|] eqn:Hf; [|by intros [= <- _]].
  destruct (shm_heap st !! a) as [o|] eqn:Ho; [|by intros [= <- _]].
  destruct (unlinked o); [by intros [= <- _]|]. intros [= <- _].
  pose proof (shm_inv_unlink _ _ _ _ Hi Ho) as Hu.
  destruct (Z.eqb_spec (zvfs_fd_obj_refcount t a) 0) as [Hz|Hnz].
  - eapply shm_inv_remove; [done|done|simpl; by rewrite lookup_insert_eq|].
    intros f. by apply zvfs_refcount_zero.
  - destruct (zvfs_refcount_nonzero _ _ Hnz) as [f Hfd]. by eapply shm_inv_excuse.
Qed.

(** Closing an open descriptor succeeds and keeps the invariant. *)
Lemma shm_close_inv t st fd a :
  inv None t st -> fd_obj t fd = Some a ->
  exists t' st', shm_fd_close t st fd = Some (t', st') /\ inv None t' st' /\
    forall f, fd_obj t' f = if f =? fd then None else fd_obj t f.
Proof.
  intros Hi Hf. unfold shm_fd_close.
  destruct (zvfs_close_spec _ _ _ Hf) as (t' & -> & Hfd).
  assert (Hw : inv (Some a) t' st).
  { destruct (shm_inv_weaken _ _ a Hi) as []. split; try done.
    - intros f b. rewrite Hfd. case_match; [done|]. apply si_fds0.
    - intros b o Hb Hu. destruct (decide (b = a)) as [->|Hne]; [by left|].
      destruct (si_unlinked0 b o Hb Hu) as [?|[f Hfb]]; [by left|]. right. exists f.
      rewrite Hfd. destruct (Z.eqb_spec f fd) as [->|]; [congruence|done]. }
  destruct (si_fds _ _ _ _ Hi _ _ Hf) as [o Ho].
  destruct (Z.eqb_spec (zvfs_fd_obj_refcount t' a) 0) as [Hz|Hnz].
  - unfold shm_close. rewrite Ho. eexists _, _. split; [done|]. split; [|done].
    destruct (unlinked o) eqn:Hu.
    + eapply shm_inv_remove; [done..|]. intros f. by apply zvfs_refcount_zero.
    + destruct Hw. split; try done. intros b ob Hb Hub. right.
      destruct (si_unlinked0 b ob Hb Hub) as [[= <-]|?]; [congruence|done].
  - eexists _, _. split; [done|]. split; [|done].
    destruct (zvfs_refcount_nonzero _ _ Hnz) as [f Hfa]. by eapply shm_inv_excuse.
Qed.

Lemma shm_step_inv s s' :
  shm_step once s s' -> inv None (fst s) (snd s) -> inv None (fst s') (snd s').
Proof.
  intros Hs Hi. destruct Hs as [| |t st fd a t' st' Hf Hc|t st fd a o req st' r Hf Ho Hreq Hc
    |t st fd a buf sz w off st' data n Hf Hoff Hrw]; simpl in *.
  - by eapply shm_open_inv.
  - by eapply shm_unlink_inv.
  - destruct (shm_close_inv _ _ _ _ Hi Hf) as (? & ? & ? & ? & _). by simplify_eq.
  - unfold shm_ioctl in Hc. rewrite Ho in Hc. destruct req as [| | | |len virt|]; simplify_eq; try done.
    unfold shm_ftruncate in Hc. destruct (Z.ltb_spec len 0), (Z.eqb_spec len 0); simplify_eq; try done.
    { case_match; by simplify_eq. }
    destruct virt as [v|]; simplify_eq; [|done]. destruct (Hreq len v eq_refl) as [Hv Hone].
    pose proof (shm_inv_truncate _ _ _ _ len v Hi Ho Hv Hone) as Ht.
    unfold shm_ftruncate in Ht. rewrite (proj2 (Z.ltb_ge _ _)), (proj2 (Z.eqb_neq _ _)) in Ht by lia.
    apply Ht; lia.
  - unfold shm_rw in Hrw. destruct (shm_heap st !! a) as [o|] eqn:Ho; [|done].
    repeat case_match; simplify_eq; try done.
    eapply shm_inv_block; [done..|]. rewrite !length_app, !length_take, length_drop.
    rewrite Z.ltb_ge, ?Z.ltb_lt in *. lia.
Qed.

Lemma shm_reachable_inv t0 t st :
  (forall fd, fd_obj t0 fd = None) -> star (shm_step once) (t0, shm_none) (t, st) -> inv None t st.
Proof.
  intros H0 Hs. change (inv None (fst (t, st)) (snd (t, st))).
  eapply (star_invariant _ (fun s => inv None (fst s) (snd s))); [|done|by apply shm_inv_none].
  intros x y Hx Hxy. by eapply shm_step_inv.
Qed.
End steps.
End fds.

(** ** Theorems *)

Section theorems.
Context {T : Type} `{ZvfsLaws T}.

(** C18: Whatever sequence of opens, unlinks, closes, reads, writes and
    requests a program makes, one at a time, setting the size of each object
    at most once (setting it again leaks the first block,
    shm_retruncate_leaks): every open descriptor refers to an existing shared
    memory object and can be closed; every object is found by its key and,
    once unlinked, is kept only while it has a descriptor; the memory blocks
    in use are exactly those of the objects; and when all descriptors are
    closed and all objects unlinked nothing is left. *)
Theorem shm_lifecycle (t0 t : T) st :
  0 < page_size -> (mmu = true -> forall m, page_phys_get m = true) ->
  (forall fd, fd_obj t0 fd = None) -> star (shm_step true) (t0, shm_none) (t, st) ->
  (forall fd a, fd_obj t fd = Some a ->
     is_Some (shm_heap st !! a) /\ is_Some (shm_fd_close t st fd)) /\
  (forall a o, shm_heap st !! a = Some o ->
     shm_obj_find st (hash o) = Some a /\
     (unlinked o = true -> exists fd, fd_obj t fd = Some a)) /\
  (forall m, is_Some (shm_blocks st !! m) <->
     exists a o, shm_heap st !! a = Some o /\ mem o = Some m) /\
  ((forall fd, fd_obj t fd = None) ->
   (forall a o, shm_heap st !! a = Some o -> unlinked o = true) -> st = shm_none).
Proof.
  intros Hps Hphys Hclosed Hs.
  assert (Hi : shm_inv true None t st) by (eapply shm_reachable_inv; eauto).
  assert (Hblk : forall m, is_Some (shm_blocks st !! m) <->
    exists a o, shm_heap st !! a = Some o /\ mem o = Some m).
  { intros m. split; [by apply (si_owner _ _ _ _ Hi)|]. intros (a & o & Ha & Hm).
    pose proof (si_mem _ _ _ _ Hi a o Ha) as H'. rewrite Hm in H'.
    destruct H' as (_ & blk & ? & _). by eexists. }
  split_and!; try done.
  - intros fd a Hf. split; [by eapply (si_fds _ _ _ _ Hi)|].
    destruct (shm_close_inv true (fun _ => Hphys) _ _ _ _ Hi Hf) as (? & ? & -> & _). by eexists.
  - intros a o Ha. split; [eapply (shm_obj_find_spec true); eauto|]. intros Hu.
    by destruct (si_unlinked _ _ _ _ Hi a o Ha Hu) as [?|?].
  - intros Hc Hu. assert (He : shm_heap st = ∅).
    { apply map_empty. intros a. destruct (shm_heap st !! a) as [o|] eqn:Ho; [|done].
      destruct (si_unlinked _ _ _ _ Hi a o Ho (Hu a o Ho)) as [?|[fd Hf]]; [done|].
      by rewrite Hc in Hf. }
    destruct st as [l h b]. simpl in *. subst h. unfold shm_none. f_equal.
    + destruct l as [|a l]; [done|]. pose proof (proj1 (si_heap _ _ _ _ Hi a)) as Ha.
      simpl in Ha. destruct Ha as [? Ha]; [by left|]. done.
    + apply map_empty. intros m. destruct (b !! m) eqn:Hm; [|done].
      destruct (proj1 (Hblk m)) as (a & o & Ha & _); [by eexists|]. done.
Qed.

(** shared memory is memory.  In every reachable state, for an object with
    an open descriptor: reading returns the bytes at the offset, as many as
    there are; writing replaces the bytes at the offset, as many as fit, and
    changes no other object; neither ever touches memory outside of the
    object's block; and setting a size gives that many zero bytes, whatever
    the object held before. *)
Theorem shm_read_write once (t0 t : T) st fd a buf sz off :
  0 < page_size -> (once = true -> mmu = true -> forall m, page_phys_get m = true) ->
  (forall fd, fd_obj t0 fd = None) -> star (shm_step once) (t0, shm_none) (t, st) ->
  fd_obj t fd = Some a -> 0 <= off -> 0 <= sz <= Z.of_nat (length buf) ->
  let bs := shm_bytes st a in
  let n := Z.min sz (Z.max 0 (Z.of_nat (length bs) - off)) in
  shm_read st a sz off = Some (st, take (Z.to_nat sz) (drop (Z.to_nat off) bs), n) /\
  (exists st', shm_write st a buf sz off = Some (st', [], n) /\
     shm_bytes st' a = overwrite (Z.to_nat off) (take (Z.to_nat n) buf) bs /\
     forall b, b <> a -> shm_bytes st' b = shm_bytes st b) /\
  (forall len v, 0 < len -> shm_blocks st !! v = None -> exists st',
     shm_ioctl st a (ZFD_IOCTL_TRUNCATE len (Some v)) = Some (st', Ok (RetInt 0)) /\
     shm_bytes st' a = replicate (Z.to_nat len) 0).
Proof.
  intros Hps Hphys Hclosed Hs Hf Hoff Hsz bs n.
  assert (Hi : shm_inv once None t st) by (eapply shm_reachable_inv; eauto).
  destruct (si_fds _ _ _ _ Hi _ _ Hf) as [o Ho].
  assert (Hl : Z.of_nat (length bs) = size o) by (eapply shm_bytes_length; eauto).
  subst n. rewrite Hl. split_and!.
  - eapply shm_read_spec; eauto. lia.
  - edestruct (shm_write_spec once None t st a o buf sz off)
      as (st' & Hw & _ & _ & _ & Hb & Hoth); [done..|].
    exists st'. split_and!; done.
  - intros len v Hlen Hv. unfold shm_ioctl, shm_ftruncate. rewrite Ho.
    ztests. eexists. split; [done|].
    unfold shm_bytes. simpl. rewrite !lookup_insert_eq. simpl. rewrite lookup_insert_eq. simpl.
    pose proof (block_len_ge len Hps). rewrite take_replicate. f_equal. lia.
Qed.
End theorems.

(** What a position is counted from. *)
Definition shm_base (o : shm_obj) (w : whence) (cur : Z) : option Z :=
  match w with
  | SEEK_SET => Some 0 | SEEK_CUR => Some cur | SEEK_END => Some (size o) | SEEK_OTHER => None
  end.

(** Seeking is forward only.  shm_lseek returns the base plus the offset
    when the offset is not negative and the sum fits in off_t, and EOVERFLOW
    otherwise: because the comparison that guards the addition is unsigned,
    every negative offset is refused, those of SEEK_CUR and SEEK_END that
    give a valid position included. *)
Lemma shm_lseek_spec o offset w cur :
  W = 32 \/ W = 64 -> - 2 ^ (W - 1) <= offset < 2 ^ (W - 1) ->
  0 <= cur < 2 ^ W -> 0 <= size o < 2 ^ W ->
  shm_lseek o offset w cur =
    match shm_base o w cur with
    | None => Err EINVAL
    | Some b =>
        if (0 <=? offset) && (b + offset <=? INTPTR_MAX) then Ok (RetInt (b + offset))
        else Err EOVERFLOW
    end.
Proof.
  intros HW Ho Hc Hs. unfold shm_lseek, shm_base.
  assert (Hb : forall b, 0 <= b < 2 ^ W ->
    (if (INTPTR_MAX <? b) || (uwrap W (INTPTR_MAX - b) <? uwrap W offset)
     then Err EOVERFLOW
     else if swrap W (uwrap W offset + b) <? 0 then Err EINVAL
          else Ok (RetInt (swrap W (uwrap W offset + b)))) =
    (if (0 <=? offset) && (b + offset <=? INTPTR_MAX) then Ok (RetInt (b + offset))
     else Err EOVERFLOW)).
  { intros b Hb. assert (H2 : 0 < W /\ 2 ^ W = 2 * 2 ^ (W - 1)) by (by destruct HW as [-> | ->]).
    unfold INTPTR_MAX. destruct (Z.ltb_spec (2 ^ (W - 1) - 1) b) as [Hbig|Hsmall]; simpl.
    { rewrite (proj2 (andb_false_iff _ _)); [done|]. lia. }
    rewrite (uwrap_id W (_ - _)) by (unfold in_u; lia).
    destruct (Z.leb_spec 0 offset) as [Hpos|Hneg]; simpl.
    - rewrite (uwrap_id W offset) by (unfold in_u; lia).
      destruct (Z.ltb_spec (2 ^ (W - 1) - 1 - b) offset) as [Hov|Hfit].
      + by ztests.
      + rewrite swrap_id by (unfold in_s; lia).
        ztests. do 2 f_equal. lia.
    - unfold uwrap. replace (offset mod 2 ^ W) with (offset + 2 ^ W).
      2: { apply Z.mod_unique with (-1); lia. }
      by ztests. }
  destruct w; simpl; [| | |done]; rewrite <- Hb; try done; lia.
Qed.
End shm.

(** ** An instance: 64-bit, no MMU, a table of four descriptors, djb2 names *)

Fixpoint djb2_from (h : Z) (s : string) : Z :=
  match s with
  | EmptyString => h
  | String c s' => djb2_from (uwrap 32 (33 * h + Z.of_nat (nat_of_ascii c))) s'
  end.
Definition djb2 (s : string) : Z := djb2_from 5381 s.

Definition fds0 : list slot := replicate 4 Free.

(** O_RDONLY 1, O_RDWR 2, O_CREAT 64, O_EXCL 128, O_TRUNC 512. *)
Definition ex_open (t : list slot) (st : shms) (name : string) (obj : Z) :=
  shm_open djb2 1 2 64 128 512 t st (Some name) 66 438 (Some obj).
Abbreviation ex_step := (shm_step 64 false 4096 djb2 (fun _ => true) 16 1 2 64 128 512).

(** Open "/ab", set the size to 8, write three bytes at offset 2, unlink. *)
Definition ex_opened := ex_open fds0 shm_none "/ab" 1000.
Definition ex_fds : list slot := fst (fst ex_opened).
Definition ex_st1 : shms := snd (fst ex_opened).
Definition ex_st2 : shms :=
  match shm_ioctl 64 false 4096 16 ex_st1 1000 (ZFD_IOCTL_TRUNCATE 8 (Some 5000)) with
  | Some (st, _) => st | None => ex_st1 end.
Definition ex_st3 : shms :=
  match shm_write ex_st2 1000 [7; 8; 9] 3 2 with Some (st, _, _) => st | None => ex_st2 end.
Definition ex_st4 : shms := fst (shm_unlink false djb2 (fun _ => true) ex_fds ex_st3 (Some "/ab")).

Lemma ex_reach once : star (ex_step once) (fds0, shm_none) (ex_fds, ex_st4).
Proof.
  eapply star_snoc; [eapply star_snoc; [eapply star_snoc; [eapply star_snoc; [apply star_nil|]|]|]|].
  - eapply (step_open _ _ _ _ _ _ _ _ _ _ _ _ _ _ (Some "/ab") 66 438 (Some 1000) ex_fds ex_st1 (Ok 0));
      [done|by vm_compute].
  - eapply (step_ioctl _ _ _ _ _ _ _ _ _ _ _ _ _ _ 0 1000 _
      (ZFD_IOCTL_TRUNCATE 8 (Some 5000)) ex_st2 (Ok (RetInt 0))); [done|by vm_compute| |by vm_compute].
    by intros len v [= <- <-].
  - eapply (step_rw _ _ _ _ _ _ _ _ _ _ _ _ _ _ 0 1000 [7; 8; 9] 3 true 2 ex_st3 [] 3);
      [done|lia|by vm_compute].
  - eapply (step_unlink _ _ _ _ _ _ _ _ _ _ _ _ _ _ (Some "/ab") ex_st4 (Ok tt)). by vm_compute.
Qed.

Lemma fds0_closed fd : fd_obj fds0 fd = None.
Proof.
  simpl. unfold slots_obj, fds0. destruct (fd <? 0); [done|].
  case_match eqn:Hl; [|done]. apply lookup_replicate in Hl as [-> _]. done.
Qed.

Lemma shm_lifecycle_witness :
  (is_Some (shm_heap ex_st4 !! 1000) /\ is_Some (shm_fd_close false (fun _ => true) ex_fds ex_st4 0)) /\
  exists fd, fd_obj ex_fds fd = Some 1000.
Proof.
  destruct (shm_lifecycle 64 false 4096 djb2 (fun _ => true) 16 1 2 64 128 512 fds0 ex_fds ex_st4
    ltac:(lia) (fun _ _ => eq_refl) fds0_closed (ex_reach true)) as (Hfd & Hobj & _).
  split; [by apply Hfd|]. destruct (shm_heap ex_st4 !! 1000) as [o|] eqn:Ho; [|by vm_compute in Ho].
  destruct (Hobj 1000 o Ho) as [_ Hu]. apply Hu. vm_compute in Ho. by simplify_eq.
Defined.

Lemma shm_read_write_witness :
  shm_read ex_st4 1000 3 1 = Some (ex_st4, [0; 7; 8], 3) /\
  exists st', shm_write ex_st4 1000 [5; 6; 7] 3 6 = Some (st', [], 2) /\
    shm_bytes st' 1000 = [0; 0; 7; 8; 9; 0; 5; 6].
Proof.
  destruct (shm_read_write 64 false 4096 djb2 (fun _ => true) 16 1 2 64 128 512 false fds0 ex_fds ex_st4
    0 1000 [5; 6; 7] 3 1 ltac:(lia) (fun _ _ _ => eq_refl) fds0_closed (ex_reach false)
    eq_refl ltac:(lia) ltac:(simpl; lia)) as (Hr & _ & _).
  destruct (shm_read_write 64 false 4096 djb2 (fun _ => true) 16 1 2 64 128 512 false fds0 ex_fds ex_st4
    0 1000 [5; 6; 7] 3 6 ltac:(lia) (fun _ _ _ => eq_refl) fds0_closed (ex_reach false)
    eq_refl ltac:(lia) ltac:(simpl; lia)) as (_ & (st' & Hw & Hb & _) & _).
  split; [rewrite Hr; by vm_compute|]. exists st'. rewrite Hw, Hb. split; by vm_compute.
Defined.

Lemma shm_lseek_spec_witness :
  shm_lseek 64 (mk_shm (Some 5000) 8 0 false) (-3) SEEK_END 0 = Err EOVERFLOW /\
  shm_lseek 64 (mk_shm (Some 5000) 8 0 false) 3 SEEK_CUR 2 = Ok (RetInt 5).
Proof.
  split.
  - rewrite (shm_lseek_spec 64); [done|by right|simpl; lia..].
  - rewrite (shm_lseek_spec 64); [done|by right|simpl; lia..].
Defined.

(** Objects are identified by the hash of their names alone: "/aB" and "/b!"
    have the same djb2 hash, and opening the second, without O_CREAT, yields
    a descriptor of the object that was created as the first. *)
Lemma shm_names_alias :
  let '(t1, st1, _) := ex_open fds0 shm_none "/aB" 1000 in
  exists t2, shm_open djb2 1 2 64 128 512 t1 st1 (Some "/b!") 2 438 None = (t2, st1, Ok 1) /\
    fd_obj t2 1 = Some 1000.
Proof. vm_compute. eexists. split; reflexivity. Qed.

(** A second ftruncate succeeds, with the first block still allocated and no
    object referring to it. *)
Lemma shm_retruncate_leaks :
  exists st', shm_ioctl 64 false 4096 16 ex_st3 1000 (ZFD_IOCTL_TRUNCATE 4 (Some 6000))
      = Some (st', Ok (RetInt 0)) /\
    is_Some (shm_blocks st' !! 5000) /\
    forall a o, shm_heap st' !! a = Some o -> mem o = Some 6000.
Proof.
  eexists. split; [reflexivity|]. split; [by eexists|]. intros a o.
  assert (Hh : shm_heap ex_st3 = {[1000 := mk_shm (Some 5000) 8 (djb2 "/ab") false]}) by by vm_compute.
  simpl. rewrite Hh, insert_singleton_eq. by intros [<- <-]%lookup_singleton_Some.
Qed.
