(* ===== verification/Fcntl.v ===== *)
(** * fcntl

    fd_mgmt/fcntl.c: the translation of commands, flags and lock records
    between the C library's numbers and the kernel's ("zvfs"), around the
    kernel's zvfs_fcntl.  The numbers on both sides are parameters; that the
    labels of one switch are distinct is what the language requires of them. *)

From stdpp Require Import base list sets.
From Stdlib Require Import ZArith Lia.
From S2P Require Import Prelude.

Local Open Scope Z_scope.

Inductive fcmd :=
  | F_DUPFD | F_DUPFD_CLOEXEC | F_GETFD | F_SETFD | F_GETFL | F_SETFL
  | F_GETLK | F_SETLK | F_SETLKW.
Inductive ltype := F_RDLCK | F_WRLCK | F_UNLCK.
Inductive lwhence := SEEK_SET | SEEK_CUR | SEEK_END.

#[export] Instance fcmd_eq_dec : EqDecision fcmd.
Proof. solve_decision. Defined.
#[export] Instance ltype_eq_dec : EqDecision ltype.
Proof. solve_decision. Defined.
#[export] Instance lwhence_eq_dec : EqDecision lwhence.
Proof. solve_decision. Defined.

(** The labels of the switches, in their order. *)
Definition fcmds : list fcmd :=
  [F_DUPFD; F_DUPFD_CLOEXEC; F_GETFD; F_SETFD; F_GETFL; F_SETFL; F_GETLK; F_SETLK; F_SETLKW].
Definition ltypes : list ltype := [F_RDLCK; F_WRLCK; F_UNLCK].
Definition lwhences : list lwhence := [SEEK_SET; SEEK_CUR; SEEK_END].

(** [struct flock] and [struct zvfs_flock] have the same fields. *)
Record flock := mk_flock {
  l_type : Z; l_whence : Z; l_start : Z; l_len : Z; l_pid : Z;
}.

(** [switch (v) { case from(x): return to(x); ... default: return v; }] *)
Fixpoint switch {X} (from to : X -> Z) (labels : list X) (v : Z) : Z :=
  match labels with
  | [] => v
  | x :: labels' => if v =? from x then to x else switch from to labels' v
  end.

Lemma switch_label {X} (from to : X -> Z) labels x :
  Inj (=) (=) from -> x ∈ labels -> switch from to labels (from x) = to x.
Proof.
  intros Hinj. induction labels as [|y l IH]; simpl; [by intros ?%elem_of_nil|].
  destruct (Z.eqb_spec (from x) (from y)) as [He|Hne]; [by apply Hinj in He as ->|].
  intros [->|?]%elem_of_cons; [done|auto].
Qed.

Section fcntl.
Context (pcmd zcmd : fcmd -> Z) (ptype ztype : ltype -> Z) (pwhence zwhence : lwhence -> Z).
Context (FD_CLOEXEC ZVFS_FD_CLOEXEC O_NONBLOCK ZVFS_O_NONBLOCK : Z).

Definition fcntl_posix_to_zvfs_cmd (cmd : Z) : Z := switch pcmd zcmd fcmds cmd.

(** [#if p != z] replace the bit [p] of [v] by [z]. *)
Definition move_bit (p z v : Z) : Z :=
  if p =? z then v
  else if flag_set v p then Z.lor (Z.land v (Z.lnot p)) z else v.

Definition fcntl_posix_to_zvfs_arg (zvfs_cmd arg : Z) : Z :=
  if zvfs_cmd =? zcmd F_SETFD then move_bit FD_CLOEXEC ZVFS_FD_CLOEXEC arg
  else if zvfs_cmd =? zcmd F_SETFL then move_bit O_NONBLOCK ZVFS_O_NONBLOCK arg
  else arg.

Definition fcntl_zvfs_to_posix_result (zvfs_cmd res : Z) : Z :=
  if zvfs_cmd =? zcmd F_GETFD then move_bit ZVFS_FD_CLOEXEC FD_CLOEXEC res
  else if zvfs_cmd =? zcmd F_GETFL then move_bit ZVFS_O_NONBLOCK O_NONBLOCK res
  else res.

Definition fcntl_posix_to_zvfs_lock_type (type : Z) : Z := switch ptype ztype ltypes type.
Definition fcntl_zvfs_to_posix_lock_type (type : Z) : Z := switch ztype ptype ltypes type.
Definition fcntl_posix_to_zvfs_whence (whence : Z) : Z := switch pwhence zwhence lwhences whence.
Definition fcntl_zvfs_to_posix_whence (whence : Z) : Z := switch zwhence pwhence lwhences whence.

Definition fcntl_posix_to_zvfs_flock (l : flock) : flock :=
  mk_flock (fcntl_posix_to_zvfs_lock_type (l_type l)) (fcntl_posix_to_zvfs_whence (l_whence l))
    (l_start l) (l_len l) (l_pid l).
Definition fcntl_zvfs_to_posix_flock (l : flock) : flock :=
  mk_flock (fcntl_zvfs_to_posix_lock_type (l_type l)) (fcntl_zvfs_to_posix_whence (l_whence l))
    (l_start l) (l_len l) (l_pid l).

(** The kernel's zvfs_fcntl with an integer, and with a lock record it may
    change; a negative return is a failure that has set errno. *)
Context {K : Type} (set_errno : K -> errno -> K).
Context (zvfs_fcntl : K -> Z -> Z -> Z -> K * Z).
Context (zvfs_fcntl_lock : K -> Z -> Z -> flock -> K * flock * Z).

(** The third argument of the call. *)
Inductive fcntl_arg := ArgInt (n : Z) | ArgLock (l : option flock).

(** Returns the caller's lock record, when there is one, and the return value;
    [None] when the third argument has not the type the command reads. *)
Definition fcntl (k : K) (fd cmd : Z) (arg : fcntl_arg) : option (K * option flock * Z) :=
  let zvfs_cmd := fcntl_posix_to_zvfs_cmd cmd in
  if (zvfs_cmd =? zcmd F_GETLK) || (zvfs_cmd =? zcmd F_SETLK) || (zvfs_cmd =? zcmd F_SETLKW) then
    match arg with
    | ArgInt _ => None
    | ArgLock None => Some (set_errno k EINVAL, None, -1)
    | ArgLock (Some posix_lock) =>
        let '(k', zvfs_lock, ret) :=
          zvfs_fcntl_lock k fd zvfs_cmd (fcntl_posix_to_zvfs_flock posix_lock) in
        if ret <? 0 then Some (k', Some posix_lock, -1)
        else if zvfs_cmd =? zcmd F_GETLK
        then Some (k', Some (fcntl_zvfs_to_posix_flock zvfs_lock), ret)
        else Some (k', Some posix_lock, ret)
    end
  else
    match arg with
    | ArgLock _ => None
    | ArgInt arg =>
        let '(k', ret) := zvfs_fcntl k fd zvfs_cmd (fcntl_posix_to_zvfs_arg zvfs_cmd arg) in
        Some (k', None, fcntl_zvfs_to_posix_result zvfs_cmd ret)
    end.

(** ** Properties *)

Lemma flag_set_lor_land v p a : 0 <= a -> flag_set (Z.lor (Z.land v (Z.lnot p)) (2 ^ a)) (2 ^ a) = true.
Proof.
  intros Ha. rewrite flag_set_pow2, Z.lor_spec, Z.pow2_bits_true by done. apply orb_true_r.
Qed.

(** Moving a bit there and back, when the place it goes to is free. *)
Lemma move_bit_back a b v :
  0 <= a -> 0 <= b -> (2 ^ a = 2 ^ b \/ Z.testbit v b = false) ->
  move_bit (2 ^ b) (2 ^ a) (move_bit (2 ^ a) (2 ^ b) v) = v.
Proof.
  intros Ha Hb Hfree. unfold move_bit. rewrite (Z.eqb_sym (2 ^ b)).
  destruct (Z.eqb_spec (2 ^ a) (2 ^ b)) as [|Hne]; [done|]. destruct Hfree as [?|Hfree]; [done|].
  assert (a <> b) by (by intros ->).
  destruct (flag_set v (2 ^ a)) eqn:Hf; rewrite flag_set_pow2 in Hf by done.
  - rewrite flag_set_lor_land by done. apply Z.bits_inj'. intros i Hi.
    rewrite !Z.lor_spec, !Z.land_spec, !Z.lor_spec, !Z.lnot_spec, !Z.land_spec, !Z.lnot_spec,
      !Z.pow2_bits_eqb by done.
    destruct (Z.eqb_spec a i) as [->|]; [by rewrite Hf, orb_true_r|].
    destruct (Z.eqb_spec b i) as [->|]; simpl; rewrite ?Hfree; [done|].
    by rewrite !andb_true_r, !orb_false_r.
  - by rewrite flag_set_pow2, Hfree.
Qed.

Lemma fcmds_all c : c ∈ fcmds.
Proof. destruct c; unfold fcmds; set_solver. Qed.

Lemma cmd_translated c : Inj (=) (=) pcmd -> fcntl_posix_to_zvfs_cmd (pcmd c) = zcmd c.
Proof. intros. apply switch_label; [done|]. apply fcmds_all. Qed.

(** A lock record with a type and an origin the library defines survives the
    translation to the kernel's and back. *)
Lemma flock_back ty wh start len pid :
  Inj (=) (=) ptype -> Inj (=) (=) ztype -> Inj (=) (=) pwhence -> Inj (=) (=) zwhence ->
  let l := mk_flock (ptype ty) (pwhence wh) start len pid in
  fcntl_posix_to_zvfs_flock l = mk_flock (ztype ty) (zwhence wh) start len pid /\
  fcntl_zvfs_to_posix_flock (mk_flock (ztype ty) (zwhence wh) start len pid) = l.
Proof.
  intros ???? l. subst l. assert (ty ∈ ltypes) by (destruct ty; unfold ltypes; set_solver).
  assert (wh ∈ lwhences) by (destruct wh; unfold lwhences; set_solver).
  unfold fcntl_posix_to_zvfs_flock, fcntl_zvfs_to_posix_flock,
    fcntl_posix_to_zvfs_lock_type, fcntl_zvfs_to_posix_lock_type,
    fcntl_posix_to_zvfs_whence, fcntl_zvfs_to_posix_whence.
  cbn [l_type l_whence l_start l_len l_pid].
  split; by rewrite !switch_label by done.
Qed.

(** Fcntl translates faithfully.  Whatever the numbers of the C library
    and of the kernel are: descriptor flags set with F_SETFD and status flags
    set with F_SETFL are those F_GETFD and F_GETFL return, as long as the
    kernel's bit is not in use for another flag; F_SETLK hands the kernel the
    record with its type and origin translated, leaving the caller's alone;
    and F_GETLK returns the kernel's record in the caller's terms. *)
Theorem fcntl_roundtrip a b c d k fd v :
  Inj (=) (=) pcmd -> Inj (=) (=) zcmd -> Inj (=) (=) ptype -> Inj (=) (=) ztype ->
  Inj (=) (=) pwhence -> Inj (=) (=) zwhence ->
  FD_CLOEXEC = 2 ^ a -> ZVFS_FD_CLOEXEC = 2 ^ b -> O_NONBLOCK = 2 ^ c -> ZVFS_O_NONBLOCK = 2 ^ d ->
  0 <= a -> 0 <= b -> 0 <= c -> 0 <= d ->
  (a = b \/ Z.testbit v b = false) -> (c = d \/ Z.testbit v d = false) ->
  (forall set get k fd v n, (set, get) = (F_SETFD, F_GETFD) \/ (set, get) = (F_SETFL, F_GETFL) ->
     exists k', zvfs_fcntl k fd (zcmd set) v = (k', 0) /\ zvfs_fcntl k' fd (zcmd get) n = (k', v)) ->
  (exists k', fcntl k fd (pcmd F_SETFD) (ArgInt v) = Some (k', None, 0) /\
     fcntl k' fd (pcmd F_GETFD) (ArgInt 0) = Some (k', None, v)) /\
  (exists k', fcntl k fd (pcmd F_SETFL) (ArgInt v) = Some (k', None, 0) /\
     fcntl k' fd (pcmd F_GETFL) (ArgInt 0) = Some (k', None, v)) /\
  (forall ty wh start len pid ty' wh' start' len' pid' k' ret, 0 <= ret ->
     let l := mk_flock (ptype ty) (pwhence wh) start len pid in
     let zl := mk_flock (ztype ty) (zwhence wh) start len pid in
     let zl' := mk_flock (ztype ty') (zwhence wh') start' len' pid' in
     (zvfs_fcntl_lock k fd (zcmd F_SETLK) zl = (k', zl', ret) ->
      fcntl k fd (pcmd F_SETLK) (ArgLock (Some l)) = Some (k', Some l, ret)) /\
     (zvfs_fcntl_lock k fd (zcmd F_GETLK) zl = (k', zl', ret) ->
      fcntl k fd (pcmd F_GETLK) (ArgLock (Some l))
      = Some (k', Some (mk_flock (ptype ty') (pwhence wh') start' len' pid'), ret))).
Proof.
  intros Hp Hz Hpt Hzt Hpw Hzw Ea Eb Ec Ed Ha Hb Hc Hd Hv1 Hv2 Hk.
  assert (Hzne : forall x y, x <> y -> (zcmd x =? zcmd y) = false).
  { intros x y Hne. apply Z.eqb_neq. by intros ?%Hz. }
  split_and!.
  - destruct (Hk F_SETFD F_GETFD k fd (move_bit FD_CLOEXEC ZVFS_FD_CLOEXEC v) 0) as (k' & H1 & H2);
      [by left|].
    exists k'. unfold fcntl, fcntl_posix_to_zvfs_arg, fcntl_zvfs_to_posix_result.
    rewrite !cmd_translated, !Z.eqb_refl, !Hzne by done. simpl. rewrite H1, H2.
    split; [done|]. rewrite Ea, Eb, move_bit_back; [done..|]. destruct Hv1 as [->|?]; [by left|by right].
  - destruct (Hk F_SETFL F_GETFL k fd (move_bit O_NONBLOCK ZVFS_O_NONBLOCK v) 0) as (k' & H1 & H2);
      [by right|].
    exists k'. unfold fcntl, fcntl_posix_to_zvfs_arg, fcntl_zvfs_to_posix_result.
    rewrite !cmd_translated, !Z.eqb_refl, !Hzne by done. simpl. rewrite H1, H2.
    split; [done|]. rewrite Ec, Ed, move_bit_back; [done..|]. destruct Hv2 as [->|?]; [by left|by right].
  - intros ty wh start len pid ty' wh' start' len' pid' k' ret Hret l zl zl'.
    destruct (flock_back ty wh start len pid Hpt Hzt Hpw Hzw) as [Hl _].
    destruct (flock_back ty' wh' start' len' pid' Hpt Hzt Hpw Hzw) as [_ Hl'].
    split; intros Hcall; unfold fcntl; rewrite !cmd_translated, !Z.eqb_refl by done;
      rewrite ?orb_true_r; simpl; unfold l; rewrite Hl; fold zl; rewrite Hcall;
      ztests.
    + by rewrite Hzne.
    + unfold zl'. by rewrite Hl'.
Qed.

(** A failing F_GETFD (or F_GETFL) does not return -1 when the two numbers
    of the flag differ: the bit is moved in the error value too. *)
Lemma fcntl_error_mangled a b k k' fd n :
  Inj (=) (=) pcmd -> Inj (=) (=) zcmd ->
  FD_CLOEXEC = 2 ^ a -> ZVFS_FD_CLOEXEC = 2 ^ b -> 0 <= a -> 0 <= b -> a <> b ->
  zvfs_fcntl k fd (zcmd F_GETFD) n = (k', -1) ->
  fcntl k fd (pcmd F_GETFD) (ArgInt n) = Some (k', None, -1 - 2 ^ b).
Proof.
  intros Hp Hz Ea Eb Ha Hb Hab Hk.
  assert (Hzne : forall x y, x <> y -> (zcmd x =? zcmd y) = false).
  { intros x y Hne. apply Z.eqb_neq. by intros ?%Hz. }
  unfold fcntl, fcntl_posix_to_zvfs_arg, fcntl_zvfs_to_posix_result, move_bit.
  rewrite !cmd_translated, !Z.eqb_refl, !Hzne by done. simpl. rewrite Hk, Ea, Eb.
  assert (2 ^ b <> 2 ^ a) as Hne.
  { intros He%Z.pow_inj_r; [by apply Hab|lia..]. }
  rewrite (proj2 (Z.eqb_neq _ _) Hne), flag_set_pow2, Z.bits_m1 by done. do 2 f_equal.
  rewrite Z.land_m1_l. apply Z.bits_inj'. intros i Hi.
  replace (-1 - 2 ^ b) with (Z.lnot (2 ^ b)) by (unfold Z.lnot; lia).
  rewrite Z.lor_spec, !Z.lnot_spec, !Z.pow2_bits_eqb by done.
  destruct (Z.eqb_spec b i) as [->|], (Z.eqb_spec a i) as [->|]; done.
Qed.
End fcntl.

(** ** An instance: a kernel that keeps flags and one lock *)

Record ex_kernel := mk_ex { ex_fd : Z; ex_fl : Z; ex_lock : flock }.

Definition ex_pcmd (c : fcmd) : Z :=
  match c with
  | F_DUPFD => 0 | F_GETFD => 1 | F_SETFD => 2 | F_GETFL => 3 | F_SETFL => 4
  | F_GETLK => 7 | F_SETLK => 8 | F_SETLKW => 9 | F_DUPFD_CLOEXEC => 14
  end.
Definition ex_zcmd (c : fcmd) : Z := 100 - ex_pcmd c.
Definition ex_ptype (x : ltype) : Z := match x with F_RDLCK => 0 | F_WRLCK => 1 | F_UNLCK => 2 end.
Definition ex_ztype (x : ltype) : Z := match x with F_RDLCK => 1 | F_WRLCK => 2 | F_UNLCK => 3 end.
Definition ex_pwhence (x : lwhence) : Z := match x with SEEK_SET => 0 | SEEK_CUR => 1 | SEEK_END => 2 end.
Definition ex_zwhence (x : lwhence) : Z := match x with SEEK_SET => 2 | SEEK_CUR => 1 | SEEK_END => 0 end.

Definition ex_fcntl (k : ex_kernel) (fd cmd v : Z) : ex_kernel * Z :=
  if cmd =? ex_zcmd F_SETFD then (mk_ex v (ex_fl k) (ex_lock k), 0)
  else if cmd =? ex_zcmd F_SETFL then (mk_ex (ex_fd k) v (ex_lock k), 0)
  else if cmd =? ex_zcmd F_GETFD then (k, ex_fd k)
  else if cmd =? ex_zcmd F_GETFL then (k, ex_fl k)
  else (k, -1).
Definition ex_fcntl_lock (k : ex_kernel) (fd cmd : Z) (l : flock) : ex_kernel * flock * Z :=
  if cmd =? ex_zcmd F_SETLK then (mk_ex (ex_fd k) (ex_fl k) l, l, 0) else (k, ex_lock k, 0).

Lemma fcntl_roundtrip_witness :
  let call := fcntl ex_pcmd ex_zcmd ex_ptype ex_ztype ex_pwhence ex_zwhence 1 4 0x800 0x4000
    (fun k _ => k) ex_fcntl ex_fcntl_lock in
  exists k', call (mk_ex 0 0 (mk_flock 3 2 0 0 0)) 5 4 (ArgInt 0x801) = Some (k', None, 0) /\
    call k' 5 3 (ArgInt 0) = Some (k', None, 0x801).
Proof.
  destruct (fcntl_roundtrip ex_pcmd ex_zcmd ex_ptype ex_ztype ex_pwhence ex_zwhence 1 4 0x800 0x4000
    (fun k _ => k) ex_fcntl ex_fcntl_lock 0 2 11 14 (mk_ex 0 0 (mk_flock 3 2 0 0 0)) 5 0x801)
    as (_ & Hfl & _); try done; try (by right); try (by intros [] []).
  intros set get k fd v n [[= -> ->]|[= -> ->]]; by eexists.
Defined.
