(* ===== verification/CString.v ===== *)
(** * C strings and the string extensions

    The character classes of the "C" locale, strings in memory, and
    c_lib_ext/: stpcpy.c, strnlen.c, strdup.c, strncasecmp.c, strcasecmp.c and
    getsubopt.c.  A pointer to characters is the list of the bytes from it to
    the end of its object; reading or writing past that is [None]. *)

From stdpp Require Import base list strings.
From Stdlib Require Import ZArith Lia Ascii.
From S2P Require Import Prelude.

Local Open Scope nat_scope.

(** ** Characters *)

Definition NUL : ascii := Ascii.zero.
Definition code (c : ascii) : nat := nat_of_ascii c.

Definition in_range (lo hi : nat) (c : ascii) : bool := (lo <=? code c) && (code c <=? hi).

(** <ctype.h> in the "C" locale. *)
Definition isupper := in_range 65 90.
Definition islower := in_range 97 122.
Definition isdigit := in_range 48 57.
Definition isalpha (c : ascii) : bool := isupper c || islower c.
Definition isalnum (c : ascii) : bool := isalpha c || isdigit c.
Definition isblank (c : ascii) : bool := (code c =? 32) || (code c =? 9).
Definition isspace (c : ascii) : bool := (code c =? 32) || in_range 9 13 c.
Definition iscntrl (c : ascii) : bool := in_range 0 31 c || (code c =? 127).
Definition isgraph := in_range 33 126.
Definition isprint := in_range 32 126.
Definition ispunct (c : ascii) : bool := isgraph c && negb (isalnum c).
Definition isxdigit (c : ascii) : bool := isdigit c || in_range 65 70 c || in_range 97 102 c.
Definition tolower (c : ascii) : ascii := if isupper c then ascii_of_nat (code c + 32) else c.

Lemma code_lt c : code c < 256.
Proof. apply nat_ascii_bounded. Qed.

Lemma code_inj c d : code c = code d -> c = d.
Proof.
  unfold code. intros H. rewrite <- (ascii_nat_embedding c), <- (ascii_nat_embedding d). by f_equal.
Qed.

(** A property of every character can be checked by computation. *)
Definition all_ascii : list ascii := ascii_of_nat <$> seq 0 256.

Lemma all_ascii_elem c : c ∈ all_ascii.
Proof.
  unfold all_ascii. apply list_elem_of_fmap. exists (code c).
  split; [symmetry; apply ascii_nat_embedding|]. apply elem_of_seq. pose proof (code_lt c). lia.
Qed.

Lemma ascii_forall (p : ascii -> bool) : forallb p all_ascii = true -> forall c, p c = true.
Proof.
  intros Hp c. eapply forallb_forall in Hp; [done|]. apply list_elem_of_In, all_ascii_elem.
Qed.

(** ** Memory *)

(** The bytes of a string constant. *)
Definition chars (s : string) : list ascii := String.list_ascii_of_string s.
Definition cstr (s : string) : list ascii := chars s ++ [NUL].

Lemma cstr_cons c s : cstr (String c s) = c :: cstr s.
Proof. done. Qed.
Lemma cstr_nil : cstr EmptyString = [NUL].
Proof. done. Qed.
Arguments cstr : simpl never.

(** A string without embedded terminators. *)
Definition no_nul (s : string) : bool := forallb (fun c => negb (bool_decide (c = NUL))) (chars s).

Fixpoint strlen (s : list ascii) : option nat :=
  match s with
  | [] => None
  | c :: s' => if bool_decide (c = NUL) then Some 0 else S <$> strlen s'
  end.

(** [for (len = 0; len < maxlen && s[len] != 0; ++len)] *)
Fixpoint strnlen (s : list ascii) (maxlen : nat) {struct maxlen} : option nat :=
  match maxlen with
  | O => Some 0
  | S m =>
      match s with
      | [] => None
      | c :: s' => if bool_decide (c = NUL) then Some 0 else S <$> strnlen s' m
      end
  end.

(** The copying loop of stpncpy: the bytes written and the last position at
    which a terminator was written.  The loop that would pad with zeros runs
    with [n == 0] and does nothing. *)
Fixpoint stpncpy_loop (s2 : list ascii) (n i : nat) (ret : option nat) {struct n}
  : option (list ascii * option nat) :=
  match n with
  | O => Some ([], ret)
  | S n' =>
      match s2 with
      | [] => None
      | c :: s2' =>
          let ret' := if bool_decide (c = NUL) then Some i else ret in
          match stpncpy_loop s2' n' (S i) ret' with
          | Some (w, r) => Some (c :: w, r)
          | None => None
          end
      end
  end.

(** The destination after the call and the offset that is returned. *)
Definition stpncpy (s1 s2 : list ascii) (n : nat) : option (list ascii * nat) :=
  if length s1 <? n then None
  else match stpncpy_loop s2 n 0 None with
       | Some (w, ret) => Some (w ++ drop n s1, default n ret)
       | None => None
       end.

Definition stpcpy (s1 s2 : list ascii) : option (list ascii * nat) :=
  match strlen s2 with
  | Some l => stpncpy s1 s2 (l + 1)
  | None => None
  end.

(** [malloc_ok] is the outcome of malloc; the result is the new object. *)
Definition strndup (s : list ascii) (n : nat) (malloc_ok : bool) : option (option (list ascii)) :=
  match strnlen s n with
  | None => None
  | Some len => Some (if malloc_ok then Some (take len s ++ [NUL]) else None)
  end.

Definition strdup (s : list ascii) (malloc_ok : bool) : option (option (list ascii)) :=
  match strlen s with
  | None => None
  | Some l => strndup s (l + 1) malloc_ok
  end.

(** [n] characters are left; [c] is the last character read from [s1]. *)
Fixpoint strncasecmp (s1 s2 : list ascii) (n : nat) {struct n} : option Z :=
  match n with
  | O => Some 0%Z
  | S n' =>
      match s1, s2 with
      | c :: s1', d :: s2' =>
          let lower1 := code (tolower c) in
          let lower2 := code (tolower d) in
          if negb (lower1 =? lower2) then
            Some ((if (lower2 <? lower1)%nat then 1 else 0) - (if (lower1 <? lower2)%nat then 1 else 0))%Z
          else if bool_decide (c = NUL) then Some 0%Z
          else strncasecmp s1' s2' n'
      | _, _ => None
      end
  end.

Definition strcasecmp (s1 s2 : list ascii) : option Z :=
  match strlen s1, strlen s2 with
  | Some l1, Some l2 => strncasecmp s1 s2 (Nat.max l1 l2)
  | _, _ => None
  end.

(** ** Comparison without case *)

(** Lexicographic order of strings of character codes. *)
Fixpoint lex_cmp (a b : list nat) : Z :=
  match a, b with
  | [], [] => 0
  | [], _ => -1
  | _, [] => 1
  | x :: a', y :: b' =>
      if (x <? y)%nat then -1 else if (y <? x)%nat then 1 else lex_cmp a' b'
  end%Z.

Lemma lex_cmp_eq a b : lex_cmp a b = 0%Z <-> a = b.
Proof.
  revert b. induction a as [|x a IH]; intros [|y b]; simpl; [done..|].
  destruct (Nat.ltb_spec x y), (Nat.ltb_spec y x); [lia|split; [done|intros [= ? ?]; lia]..|].
  rewrite IH. assert (x = y) as -> by lia. split; congruence.
Qed.

Definition lower_codes (s : string) : list nat := (fun c => code (tolower c)) <$> chars s.

Lemma tolower_nul c : code (tolower c) = 0 -> c = NUL.
Proof.
  intros H. assert (Hc : implb (code (tolower c) =? 0) (bool_decide (c = NUL)) = true).
  { revert c H. intros c _. revert c. apply ascii_forall. by vm_compute. }
  rewrite H in Hc. by apply bool_decide_eq_true in Hc.
Qed.

Lemma no_nul_cons c s : no_nul (String c s) = true <-> c <> NUL /\ no_nul s = true.
Proof.
  unfold no_nul. simpl. by rewrite andb_true_iff, negb_true_iff, bool_decide_eq_false.
Qed.

Lemma strncasecmp_spec a b n :
  no_nul a = true -> no_nul b = true ->
  strncasecmp (cstr a) (cstr b) n = Some (lex_cmp (take n (lower_codes a)) (take n (lower_codes b))).
Proof.
  revert a b. induction n as [|n IH]; intros a b Ha Hb; [done|].
  assert (Hpos : forall c, c <> NUL -> 0 < code (tolower c)).
  { intros c Hc. destruct (code (tolower c)) eqn:E; [by apply tolower_nul in E|lia]. }
  destruct a as [|c a], b as [|d b]; rewrite ?cstr_cons, ?cstr_nil; simpl.
  - done.
  - apply no_nul_cons in Hb as [Hd _]. specialize (Hpos d Hd). change (code (tolower NUL)) with 0.
    destruct (code (tolower d)); [lia|done].
  - apply no_nul_cons in Ha as [Hc _]. specialize (Hpos c Hc). change (code (tolower NUL)) with 0.
    destruct (code (tolower c)); [lia|done].
  - apply no_nul_cons in Ha as [Hc Ha], Hb as [Hd Hb].
    destruct (Nat.eqb_spec (code (tolower c)) (code (tolower d))) as [He|Hne]; simpl.
    + rewrite bool_decide_eq_false_2 by done. rewrite He, Nat.ltb_irrefl. by apply IH.
    + destruct (Nat.ltb_spec (code (tolower c)) (code (tolower d))),
        (Nat.ltb_spec (code (tolower d)) (code (tolower c))); done || lia.
Qed.

Lemma strlen_cstr s : no_nul s = true -> strlen (cstr s) = Some (String.length s).
Proof.
  induction s as [|c s IH]; [done|]. intros [Hc Hs]%no_nul_cons. rewrite cstr_cons. simpl.
  rewrite bool_decide_eq_false_2 by done. by rewrite IH.
Qed.

Lemma lower_codes_length s : length (lower_codes s) = String.length s.
Proof. unfold lower_codes. rewrite length_fmap. induction s; simpl; congruence. Qed.

(** Comparison without regard to case.  strncasecmp and strcasecmp return
    the sign of the lexicographic order of the lower-cased strings (of their
    first [n] characters); in particular strcasecmp returns 0 exactly when
    the strings differ in case only, and neither reads past a terminator. *)
Lemma strcasecmp_spec a b n :
  no_nul a = true -> no_nul b = true ->
  strncasecmp (cstr a) (cstr b) n
    = Some (lex_cmp (take n (lower_codes a)) (take n (lower_codes b))) /\
  strcasecmp (cstr a) (cstr b) = Some (lex_cmp (lower_codes a) (lower_codes b)) /\
  (strcasecmp (cstr a) (cstr b) = Some 0%Z <-> lower_codes a = lower_codes b).
Proof.
  intros Ha Hb.
  assert (Hs : strcasecmp (cstr a) (cstr b) = Some (lex_cmp (lower_codes a) (lower_codes b))).
  { unfold strcasecmp. rewrite !strlen_cstr, strncasecmp_spec by done.
    rewrite !take_ge; [done|rewrite lower_codes_length; lia..]. }
  split; [by apply strncasecmp_spec|]. split; [done|]. rewrite Hs, <- lex_cmp_eq. split; congruence.
Qed.

Lemma strcasecmp_spec_witness :
  strcasecmp (cstr "Content-Type") (cstr "content-TYPE") = Some 0%Z /\
  strcasecmp (cstr "ab") (cstr "ABC") = Some (-1)%Z.
Proof.
  split.
  - destruct (strcasecmp_spec "Content-Type" "content-TYPE" 3) as (_ & _ & H); [done..|].
    apply H. by vm_compute.
  - destruct (strcasecmp_spec "ab" "ABC" 3) as (_ & -> & _); [done..|]. by vm_compute.
Defined.

(** ** Copying *)

Lemma stpncpy_loop_cstr s r n i ret :
  no_nul s = true -> n = String.length s + 1 ->
  stpncpy_loop (cstr s ++ r) n i ret = Some (cstr s, Some (i + String.length s)).
Proof.
  intros Hs ->. revert i ret Hs. induction s as [|c s IH]; intros i ret Hs.
  - rewrite cstr_nil. simpl. by rewrite Nat.add_0_r.
  - apply no_nul_cons in Hs as [Hc Hs]. rewrite cstr_cons. simpl.
    rewrite bool_decide_eq_false_2 by done. rewrite IH by done. do 3 f_equal. lia.
Qed.

Lemma cstr_length s : length (cstr s) = String.length s + 1.
Proof. unfold cstr. rewrite length_app. simpl. f_equal. unfold chars. induction s; simpl; congruence. Qed.

(** stpcpy copies the string with its terminator and returns the position of
    the terminator; strdup makes a copy of it. *)
Lemma stpcpy_spec s s1 r :
  no_nul s = true -> String.length s < length s1 ->
  stpcpy s1 (cstr s ++ r) = Some (cstr s ++ drop (String.length s + 1) s1, String.length s) /\
  strdup (cstr s) true = Some (Some (cstr s)).
Proof.
  intros Hs Hl. assert (Hsl : forall s r, no_nul s = true ->
    strlen (cstr s ++ r) = Some (String.length s)).
  { clear. intros s r. induction s as [|c s IH]; [done|]. intros [Hc Hs]%no_nul_cons.
    rewrite cstr_cons. simpl. rewrite bool_decide_eq_false_2 by done. by rewrite IH. }
  split.
  - unfold stpcpy, stpncpy. rewrite Hsl by done. destruct (Nat.ltb_spec (length s1) (String.length s + 1)); [lia|].
    by rewrite stpncpy_loop_cstr.
  - unfold strdup, strndup. rewrite strlen_cstr by done.
    assert (Hn : forall s m, no_nul s = true -> String.length s < m ->
      strnlen (cstr s) m = Some (String.length s)).
    { clear. intros s. induction s as [|c s IH]; intros [|m] Hs Hm; simpl in Hm; try lia; [done|].
      apply no_nul_cons in Hs as [Hc Hs]. rewrite cstr_cons. simpl.
      rewrite bool_decide_eq_false_2, IH by (done || lia). done. }
    rewrite Hn by (done || lia). unfold cstr at 1. rewrite take_app_length'; [done|].
    unfold chars. clear. induction s; simpl; congruence.
Qed.

(** stpncpy does not stop at the terminator of its source: given more room
    than the string needs it reads past the end of it. *)
Lemma stpncpy_reads_past s s1 n :
  no_nul s = true -> String.length s + 1 < n <= length s1 -> stpncpy s1 (cstr s) n = None.
Proof.
  intros Hs Hn. unfold stpncpy. destruct (Nat.ltb_spec (length s1) n); [lia|].
  enough (Hl : forall (l : list ascii) m i ret, length l < m -> stpncpy_loop l m i ret = None)
    by (rewrite Hl; [done|rewrite cstr_length; lia]).
  clear. induction l as [|c l IH]; intros [|m] i ret Hm; simpl in *; try lia; [done|].
  rewrite IH by lia. done.
Qed.

(** ** getsubopt

    [*optionp] is the string it points to. *)

Definition eq_sign : ascii := "="%char.
Definition comma : ascii := ","%char.

(** The first loop: the offset [end - begin], the offset of the first '=' and,
    when a ',' ended the loop, the string after it. *)
Fixpoint subopt_loop (end_ : string) (i : nat) (eq : option nat)
  : nat * option nat * option string :=
  match end_ with
  | EmptyString => (i, eq, None)
  | String c s =>
      if bool_decide (c = eq_sign) && bool_decide (eq = None) then subopt_loop s (S i) (Some i)
      else if bool_decide (c = comma) then (i, eq, Some s)
      else subopt_loop s (S i) eq
  end.

(** The search in the key list, from index [i] on. *)
Fixpoint subopt_find (key : string) (len : nat) (keylist : list string) (i : Z) : Z :=
  match keylist with
  | [] => -1
  | k :: keys =>
      if negb (strncmp_eq key k len) then subopt_find key len keys (i + 1)
      else if bool_decide (String.get len k <> None) then subopt_find key len keys (i + 1)
      else i
  end%Z.

(** The new [*optionp], the new [*valuep] and the return value. *)
Definition getsubopt (optionp : string) (keylist : list string) : string * option string * Z :=
  let '(end_, eq, next) := subopt_loop optionp 0 None in
  let rest := default EmptyString next in
  let '(len, valuep) :=
    match eq with
    | None => (end_, None)
    | Some e => (e, Some (String.substring (e + 1) (end_ - (e + 1)) optionp))
    end in
  if Nat.eqb len 0 then (rest, valuep, (-1)%Z)
  else (rest, valuep, subopt_find (String.substring 0 end_ optionp) len keylist 0).

(** A program that calls it until the string is used up, at most [fuel] times. *)
Fixpoint getsubopt_all (fuel : nat) (s : string) (keylist : list string) : list (Z * option string) :=
  match fuel, s with
  | S fuel', String _ _ =>
      let '(rest, v, r) := getsubopt s keylist in (r, v) :: getsubopt_all fuel' rest keylist
  | _, _ => []
  end.

(** A suboption and its text; a list of them, with commas between. *)
Definition subopt : Type := string * option string.
Definition subopt_text (o : subopt) : string :=
  match snd o with
  | None => fst o
  | Some v => (fst o +:+ String eq_sign v)%string
  end.
Fixpoint subopts_text (os : list subopt) : string :=
  match os with
  | [] => EmptyString
  | [o] => subopt_text o
  | o :: os' => (subopt_text o +:+ String comma (subopts_text os'))%string
  end.

(** Position of the first equal key. *)
Fixpoint key_index (key : string) (keylist : list string) (i : Z) : Z :=
  match keylist with
  | [] => -1
  | k :: keys => if bool_decide (k = key) then i else key_index key keys (i + 1)
  end%Z.

Definition subopt_ok (o : subopt) : bool :=
  negb (bool_decide (fst o = EmptyString)) &&
  negb (str_contains eq_sign (fst o)) && negb (str_contains comma (fst o)) &&
  match snd o with Some v => negb (str_contains comma v) | None => true end.

Lemma substring_app s t n m :
  String.substring (String.length s + n) m (s +:+ t)%string = String.substring n m t.
Proof. induction s as [|c s IH]; [done|]. exact IH. Qed.

Lemma substring_prefix s t n : n = String.length s -> String.substring 0 n (s +:+ t)%string = s.
Proof.
  intros ->. induction s as [|c s IH]; [by destruct t|]. rewrite str_app_cons. simpl. by rewrite IH.
Qed.

Lemma str_app_nil s : (s +:+ EmptyString)%string = s.
Proof. induction s as [|c s IH]; [done|]. rewrite str_app_cons. by rewrite IH. Qed.

Lemma str_app_assoc s t u : ((s +:+ t) +:+ u = s +:+ (t +:+ u))%string.
Proof. induction s as [|c s IH]; [done|]. rewrite !str_app_cons. by rewrite IH. Qed.

(** Characters that are neither '=' (or come after it) nor ',' are skipped. *)
Lemma subopt_loop_skip s t i eq :
  str_contains comma s = false -> (str_contains eq_sign s = false \/ eq <> None) ->
  subopt_loop (s +:+ t)%string i eq = subopt_loop t (i + String.length s) eq.
Proof.
  revert i. induction s as [|c s IH]; intros i Hc He.
  - simpl. by rewrite Nat.add_0_r.
  - rewrite str_app_cons. simpl in *. apply orb_false_iff in Hc as [Hc1 Hc2].
    rewrite (bool_decide_eq_false_2 (c = comma)).
    2: { intros ->. by rewrite bool_decide_eq_true_2 in Hc1. }
    replace (bool_decide (c = eq_sign) && bool_decide (eq = None)) with false.
    2: { symmetry. apply andb_false_iff. destruct He as [He|He].
         - left. apply orb_false_iff in He as [He _]. apply bool_decide_eq_false.
           apply bool_decide_eq_false in He. congruence.
         - right. by apply bool_decide_eq_false. }
    rewrite IH; [f_equal; lia|done|]. destruct He as [He|He]; [|by right].
    apply orb_false_iff in He as [_ He]. by left.
Qed.

(** Comparing the first characters and then the terminator is comparing the
    strings. *)
Lemma subopt_find_spec key t keylist i :
  subopt_find (key +:+ t)%string (String.length key) keylist i = key_index key keylist i.
Proof.
  revert i. induction keylist as [|k keys IH]; intros i; [done|]. simpl.
  assert (Hk : strncmp_eq (key +:+ t)%string k (String.length key) = true <->
    exists u, k = (key +:+ u)%string).
  { clear. revert k. induction key as [|c key IH]; intros k; simpl;
      [split; [by exists k|by destruct t]|].
    destruct k as [|d k]; simpl; [split; [done|by intros [u ?]]|].
    rewrite andb_true_iff, bool_decide_eq_true, IH. split.
    - intros [-> [u ->]]. by exists u.
    - intros [u [= -> ->]]. split; [done|by exists u]. }
  destruct (strncmp_eq (key +:+ t)%string k (String.length key)); simpl.
  - destruct (proj1 Hk eq_refl) as [u ->]. pose proof (str_get_app key u 0) as Hg.
    rewrite Nat.add_0_r in Hg. rewrite Hg. destruct u as [|c u]; simpl.
    + rewrite str_app_nil, (bool_decide_eq_true_2 (key = key)) by done. done.
    + rewrite IH, (bool_decide_eq_false_2 (_ = key)); [done|].
      intros He%(f_equal String.length). rewrite str_length_app in He. simpl in He. lia.
  - rewrite IH, bool_decide_eq_false_2; [done|]. intros ->.
    assert (false = true); [|done]. apply Hk. exists EmptyString. by rewrite str_app_nil.
Qed.

(** One call takes the first suboption, followed by nothing or by a comma. *)
Lemma getsubopt_one o t keylist :
  subopt_ok o = true -> (t = EmptyString \/ exists t', t = String comma t') ->
  getsubopt (subopt_text o +:+ t)%string keylist
  = (str_drop 1 t, snd o, key_index (fst o) keylist 0).
Proof.
  destruct o as [key v]. unfold subopt_ok, subopt_text, getsubopt. simpl. intros Ho Ht.
  bool_to_prop.
  assert (Hend : forall i eq, subopt_loop t i eq
    = (i, eq, match t with EmptyString => None | String _ t' => Some t' end)).
  { intros i eq. by destruct Ht as [->|[t' ->]]. }
  assert (Hrest : default EmptyString (match t with EmptyString => None | String _ t' => Some t' end)
    = str_drop 1 t) by (by destruct Ht as [->|[[|c t'] ->]]).
  assert (Hkey : Nat.eqb (String.length key) 0 = false) by (by destruct key).
  destruct v as [v|]; bool_to_prop.
  - rewrite str_app_assoc, subopt_loop_skip by auto. simpl.
    rewrite subopt_loop_skip by auto. rewrite Hend. cbn [fst snd]. rewrite Hrest, Hkey.
    rewrite substring_app. simpl. rewrite substring_prefix by lia. f_equal.
    rewrite <- (str_app_assoc key (String eq_sign v) t).
    rewrite substring_prefix by (rewrite str_length_app; simpl; lia). apply subopt_find_spec.
  - rewrite subopt_loop_skip by auto. rewrite Hend. simpl. rewrite Hrest, Hkey.
    rewrite substring_prefix by done. f_equal.
    rewrite <- (str_app_nil key) at 1. apply subopt_find_spec.
Qed.

(** getsubopt reads a list of suboptions.  Called repeatedly on the text
    "key=value,key,..." it returns, one per call and in order, the index of
    each key in the list of keys (-1 when it is not there) and its value,
    until the string is used up. *)
Theorem getsubopt_spec os keylist :
  Forall (fun o => subopt_ok o = true) os ->
  getsubopt_all (length os) (subopts_text os) keylist
  = (fun o => (key_index (fst o) keylist 0, snd o)) <$> os /\
  getsubopt_all (S (length os)) (subopts_text os) keylist
  = getsubopt_all (length os) (subopts_text os) keylist.
Proof.
  induction os as [|o os IH]; [done|]. rewrite Forall_cons. intros [Ho Hos].
  specialize (IH Hos). set (t := match os with [] => EmptyString | _ => String comma (subopts_text os) end).
  assert (Hs : subopts_text (o :: os) = (subopt_text o +:+ t)%string).
  { unfold t. destruct os; simpl; [by rewrite str_app_nil|done]. }
  assert (Hne : exists c u, (subopt_text o +:+ t)%string = String c u).
  { destruct o as [[|c k] v]; [done|]. unfold subopt_text. destruct v; simpl; eauto. }
  assert (Hd : str_drop 1 t = subopts_text os).
  { unfold t. destruct os as [|o' os']; [done|]. by destruct (subopts_text (o' :: os')). }
  assert (Hall : forall n, getsubopt_all (S n) (subopt_text o +:+ t)%string keylist
    = (key_index (fst o) keylist 0, snd o) :: getsubopt_all n (subopts_text os) keylist).
  { intros n. pose proof (getsubopt_one o t keylist Ho) as H1.
    destruct Hne as (c & u & Hcu). simpl. rewrite Hcu in *. rewrite H1, Hd; [done|].
    unfold t. destruct os; [by left|right; by eexists]. }
  rewrite Hs. simpl length. rewrite !Hall. destruct IH as [IH1 IH2]. by rewrite IH2, IH1.
Qed.

Lemma getsubopt_spec_witness :
  getsubopt_all 3 "rw,size=64,bad" ["ro"; "rw"; "size"]
  = [(1%Z, None); (2%Z, Some "64"); ((-1)%Z, None)].
Proof.
  apply (getsubopt_spec [("rw", None); ("size", Some "64"); ("bad", None)] ["ro"; "rw"; "size"]).
  repeat constructor.
Defined.
