(* ===== verification/Getopt.v ===== *)
(** * Option parsing

    c_lib_ext/zephyr_getopt.c with its callers getopt.c and getopt_long.c.
    A pointer into argv is the string it points to; plain characters are
    unsigned.  The two halves of [union opterr_state] are the fields
    [optind_prev] and [nextchar_idx]. *)

From stdpp Require Import base list strings gmap.
From Stdlib Require Import ZArith Lia Ascii.
From S2P Require Import Prelude CString.

Local Open Scope Z_scope.

(** [struct option]; a flag pointer is an address. *)
Record option_ := mk_option {
  o_name : option string;
  has_arg : Z;
  o_flag : option Z;
  o_val : Z;
}.

Definition no_argument : Z := 0.
Definition required_argument : Z := 1.
Definition optional_argument : Z := 2.

(** The variables of the caller: optarg, opterr (as its two halves), optind,
    optopt, *longindex, and the integers that [flag] pointers refer to. *)
Record getopt_state := mk_getopt {
  optarg : option string;
  optind_prev : Z;
  nextchar_idx : Z;
  optind : Z;
  optopt : Z;
  longindex : Z;
  flag_mem : gmap Z Z;
}.

Definition set_optarg v st :=
  mk_getopt v (optind_prev st) (nextchar_idx st) (optind st) (optopt st) (longindex st) (flag_mem st).
Definition set_prev v st :=
  mk_getopt (optarg st) v (nextchar_idx st) (optind st) (optopt st) (longindex st) (flag_mem st).
Definition set_next v st :=
  mk_getopt (optarg st) (optind_prev st) v (optind st) (optopt st) (longindex st) (flag_mem st).
Definition set_optind v st :=
  mk_getopt (optarg st) (optind_prev st) (nextchar_idx st) v (optopt st) (longindex st) (flag_mem st).
Definition set_optopt v st :=
  mk_getopt (optarg st) (optind_prev st) (nextchar_idx st) (optind st) v (longindex st) (flag_mem st).
Definition set_longindex v st :=
  mk_getopt (optarg st) (optind_prev st) (nextchar_idx st) (optind st) (optopt st) v (flag_mem st).
Definition set_flag a v st :=
  mk_getopt (optarg st) (optind_prev st) (nextchar_idx st) (optind st) (optopt st) (longindex st)
    (<[a := v]> (flag_mem st)).

(** [s[i]], the terminator included. *)
Definition at_ (s : string) (i : nat) : ascii := default NUL (String.get i s).
Definition int_of_char (c : ascii) : Z := Z.of_nat (code c).

Definition minus : ascii := "-"%char.
Definition colon : ascii := ":"%char.
Definition QUESTION : Z := 63.
Definition COLON : Z := 58.

Definition getopt_char_to_mask_index (c : Z) : Z :=
  if (97 <=? c) && (c <=? 122) then c - 97
  else if (65 <=? c) && (c <=? 90) then c - 65 + 26
  else if (48 <=? c) && (c <=? 57) then c - 48 + 52
  else -1.

(** [(mask & BIT64(idx)) != 0] and [mask |= BIT64(idx)]. *)
Definition has_bit (mask idx : Z) : bool := Z.testbit mask idx.
Definition add_bit (mask idx : Z) : Z := Z.lor mask (Z.shiftl 1 idx).

(** The loop of getopt_parse_optstring; [first] is [last == -1].  The test
    for a leading '+' or '-' compares one character with both and never
    holds. *)
Fixpoint optstring_loop (o : string) (first : bool) (omask amask : Z) (col : bool) : Z * Z * bool :=
  match o with
  | EmptyString => (omask, amask, col)
  | String c o' =>
      if first && bool_decide (c = colon) then optstring_loop o' false omask amask true
      else
        let idx := getopt_char_to_mask_index (int_of_char c) in
        if idx <? 0 then optstring_loop o' false omask amask col
        else if has_bit omask idx then optstring_loop o' false omask amask col
        else
          match o' with
          | String d o'' =>
              if bool_decide (d = colon)
              then optstring_loop o'' false (add_bit omask idx) (add_bit amask idx) col
              else optstring_loop o' false (add_bit omask idx) amask col
          | EmptyString => optstring_loop o' false (add_bit omask idx) amask col
          end
  end.

Definition getopt_parse_optstring (o : string) : Z * Z * bool := optstring_loop o true 0 0 false.

Section getopt.
Context (argv : list string).

Definition argc : Z := Z.of_nat (length argv).

(** [argv[i]]. *)
Definition arg_at (i : Z) : option string := if i <? 0 then None else argv !! Z.to_nat i.

Section longopt.
Context (argmask : Z) (colon_at_start longonly want_index : bool).

Definition bad_arg : Z := if colon_at_start then COLON else QUESTION.

(** The common end of the three kinds: *longindex, *flag and the result. *)
Definition longopt_done (st : getopt_state) (i : Z) (opt : option_) : getopt_state * Z :=
  let st1 := if want_index then set_longindex i st else st in
  let st2 := match o_flag opt with Some a => set_flag a (o_val opt) st1 | None => st1 end in
  let ret := match o_flag opt with None => o_val opt | Some _ => 0 end in
  (set_optopt ret st2, ret).

(** The body of the loop for the option number [i] whose name [nm] is a
    prefix of [arg], the element [idx] of argv after its dashes.  Testing the
    same character for '=' and for the terminator never reports a missing
    argument. *)
Definition longopt_match (st : getopt_state) (idx i : Z) (arg nm : string) (opt : option_)
  : getopt_state * Z :=
  let short_idx := getopt_char_to_mask_index (o_val opt) in
  let short_arg := has_bit argmask short_idx in
  let n := String.length nm in
  if has_arg opt =? no_argument then
    if (0 <=? short_idx) && short_arg then (st, bad_arg)
    else longopt_done (set_optind (idx + 1) st) i opt
  else if has_arg opt =? required_argument then
    if (0 <=? short_idx) && negb short_arg then (st, bad_arg)
    else if bool_decide (at_ arg n = eq_sign) then
      longopt_done (set_optind (idx + 1) (set_optarg (Some (str_drop (n + 1) arg)) st)) i opt
    else
      match arg_at (idx + 1) with
      | None => (st, bad_arg)
      | Some v => longopt_done (set_optind (idx + 2) (set_optarg (Some v) st)) i opt
      end
  else if has_arg opt =? optional_argument then
    let st1 := if bool_decide (at_ arg n = eq_sign)
               then set_optarg (Some (str_drop (n + 1) arg)) st else st in
    if (0 <=? short_idx) && negb short_arg then (st1, bad_arg)
    else longopt_done (set_optind (idx + 1) st1) i opt
  else (st, if longonly then -1 else QUESTION).

Definition opt_end (opt : option_) : bool :=
  bool_decide (o_name opt = None) && (has_arg opt =? 0) && bool_decide (o_flag opt = None) &&
  (o_val opt =? 0).

(** The loop over the table; [None] is a table without an end, or an entry
    without a name. *)
Fixpoint longopt_loop (st : getopt_state) (idx i : Z) (arg : string) (opts : list option_)
  : option (getopt_state * Z) :=
  match opts with
  | [] => None
  | opt :: opts' =>
      if opt_end opt then Some (st, -1)
      else
        match o_name opt with
        | None => None
        | Some nm =>
            if negb (strncmp_eq arg nm (String.length nm))
            then longopt_loop st idx (i + 1) arg opts'
            else Some (longopt_match st idx i arg nm opt)
        end
  end.

(** [longopts] is NULL for getopt. *)
Definition getopt_match_longopt (st : getopt_state) (idx : Z) (longopts : option (list option_))
  : option (getopt_state * Z) :=
  match arg_at idx with
  | None => None
  | Some a =>
      let search arg :=
        match longopts with Some opts => longopt_loop st idx 0 arg opts | None => None end in
      if bool_decide (at_ a 0 = minus) then
        if bool_decide (at_ a 1 = minus) then search (str_drop 2 a)
        else if longonly then search (str_drop 1 a)
        else Some (st, -1)
      else search a
  end.
End longopt.

(** One element of argv in zephyr_getopt: either the call is [Done] with a
    result, or the loop goes on with the next element. *)
Inductive go_step := Done (st : getopt_state) (ret : Z) | Next (st : getopt_state).

(** The short options of the element [i] with the text [arg]. *)
Definition short_options (optmask argmask : Z) (colon_at_start : bool) (st : getopt_state)
  (i : Z) (arg : string) : go_step :=
  let len := Z.of_nat (String.length arg) in
  let st := if (nextchar_idx st <? 1) || (len <=? nextchar_idx st) then set_next 1 st else st in
  let j := Z.to_nat (nextchar_idx st) in
  if bool_decide (at_ arg j = NUL) then Next st
  else
    let c := int_of_char (at_ arg j) in
    let idx := getopt_char_to_mask_index c in
    if (idx <? 0) || negb (has_bit optmask idx) then
      Done (set_optind i (set_optopt c st)) QUESTION
    else
      let st := set_optopt c st in
      if has_bit argmask idx then
        if negb (bool_decide (at_ arg (j + 1) = NUL)) then
          Done (set_optind (i + 1) (set_optarg (Some (str_drop (j + 1) arg)) st)) c
        else
          match arg_at (i + 1) with
          | Some v => Done (set_optind (i + 2) (set_optarg (Some v) st)) c
          | None => Done (set_optind i st) (if colon_at_start then COLON else QUESTION)
          end
      else
        let st := set_optarg None st in
        if bool_decide (at_ arg (j + 1) = NUL)
        then Done (set_next 0 (set_optind (i + 1) st)) c
        else Done (set_next (uwrap 16 (nextchar_idx st + 1)) (set_optind i st)) c.

Section calls.
(** CONFIG_ZEPHYR_GETOPT_LONG. *)
Context (long_enabled : bool).
Context (optstring : string) (longopts : option (list option_)) (want_index longonly : bool).

Definition getopt_arg (st : getopt_state) (i : Z) (arg : string) : option go_step :=
  let '(optmask, argmask, colon_at_start) := getopt_parse_optstring optstring in
  if negb (bool_decide (at_ arg 0 = minus)) || bool_decide (at_ arg 1 = NUL) then Some (Done st (-1))
  else if bool_decide (at_ arg 1 = minus) && bool_decide (at_ arg 2 = NUL) then
    Some (Done (set_optind (i + 1) st) (-1))
  else if long_enabled then
    match getopt_match_longopt argmask colon_at_start longonly want_index st i longopts with
    | None => None
    | Some (st1, ret) =>
        if ret =? 0 then Some (Done (set_optopt 0 st1) ret)
        else if (ret =? QUESTION) || (ret =? COLON) then Some (Done st1 ret)
        else if ret =? -1 then Some (short_options optmask argmask colon_at_start st1 i arg)
        else Some (Done (set_optopt ret st1) ret)
    end
  else Some (short_options optmask argmask colon_at_start st i arg).

(** The loop over argv from [i]: [args] are the elements from there on.  The
    result of a loop that runs out without an option is not initialised; it
    cannot happen, and is [None] here. *)
Fixpoint getopt_loop (st : getopt_state) (i : Z) (args : list string) : option (getopt_state * Z) :=
  match args with
  | [] => None
  | arg :: args' =>
      match getopt_arg st i arg with
      | None => None
      | Some (Done st' ret) => Some (st', ret)
      | Some (Next st') => getopt_loop st' (i + 1) args'
      end
  end.

Definition zephyr_getopt (st : getopt_state) : option (getopt_state * Z) :=
  let st1 := if optind st <? 1 then set_prev 1 (set_next 0 (set_optind 1 st)) else st in
  let st2 := if negb (optind st1 =? optind_prev st1)
             then set_prev (uwrap 16 (optind st1)) (set_next 1 st1) else st1 in
  if argc <=? optind st2 then Some (st2, -1)
  else
    match getopt_loop st2 (optind st2) (drop (Z.to_nat (optind st2)) argv) with
    | None => None
    | Some (st3, ret) => Some (set_prev (uwrap 16 (optind st3)) st3, ret)
    end.
End calls.

(** The public functions, with CONFIG_ZEPHYR_GETOPT. *)
Definition getopt (long_enabled : bool) (optstring : string) :=
  zephyr_getopt long_enabled optstring None false false.
Definition getopt_long (long_enabled : bool) (optstring : string) (longopts : list option_)
  (want_index : bool) :=
  zephyr_getopt long_enabled optstring (Some longopts) want_index false.
Definition getopt_long_only (long_enabled : bool) (optstring : string) (longopts : list option_)
  (want_index : bool) :=
  zephyr_getopt long_enabled optstring (Some longopts) want_index true.
End getopt.

(** The state of a program that starts. *)
Definition getopt_init : getopt_state := mk_getopt None 0 0 0 0 0 ∅.

(** ** Command lines

    What a program means to be given: clusters of flags, options with an
    argument in the same or in the next element, long options.  The long
    options are named by their position in the table. *)
Inductive item :=
  | Flags (cs : string)
  | Joined (c : ascii) (v : string)
  | Separate (c : ascii) (v : string)
  | LongFlag (nm : string) (opt : option_)
  | LongJoined (nm : string) (opt : option_) (v : string)
  | LongSeparate (nm : string) (opt : option_) (v : string).

(** The elements of argv for an item. *)
Definition render (it : item) : list string :=
  match it with
  | Flags cs => [String minus cs]
  | Joined c v => [String minus (String c v)]
  | Separate c v => [String minus (String c EmptyString); v]
  | LongFlag nm _ => [String minus (String minus nm)]
  | LongJoined nm _ v => [String minus (String minus (nm +:+ String eq_sign v))]
  | LongSeparate nm _ v => [String minus (String minus nm); v]
  end%string.

(** What the calls return for an item: the result and, when the option has
    one, the argument. *)
Definition event : Type := Z * option string.
Definition events (it : item) : list event :=
  match it with
  | Flags cs => (fun c => (int_of_char c, None)) <$> chars cs
  | Joined c v | Separate c v => [(int_of_char c, Some v)]
  | LongFlag _ opt => [(o_val opt, None)]
  | LongJoined _ opt v | LongSeparate _ opt v => [(o_val opt, Some v)]
  end.

(** A call answers an event: the result, and optarg when there is an argument. *)
Definition answers (e : event) (got : Z * option string) : Prop :=
  fst got = fst e /\ (snd e <> None -> snd got = snd e).

Section items.
Context (long_enabled : bool) (optstring : string) (longopts : option (list option_)) (want_index : bool).

Abbreviation omask := (fst (fst (getopt_parse_optstring optstring))).
Abbreviation amask := (snd (fst (getopt_parse_optstring optstring))).

Definition known (c : ascii) : bool :=
  let idx := getopt_char_to_mask_index (int_of_char c) in (0 <=? idx) && has_bit omask idx.
Definition takes_arg (c : ascii) : bool :=
  has_bit amask (getopt_char_to_mask_index (int_of_char c)).

(** The entry of the table that the search for [text] finds. *)
Fixpoint first_match (text : string) (opts : list option_) : option (string * option_) :=
  match opts with
  | [] => None
  | opt :: opts' =>
      if opt_end opt then None
      else match o_name opt with
           | None => None
           | Some nm => if strncmp_eq text nm (String.length nm) then Some (nm, opt)
                        else first_match text opts'
           end
  end.

(** A long option that is usable: it is what its text finds, it is reported
    by value, and it agrees with a short option of the same value. *)
Definition long_ok (nm : string) (opt : option_) (text : string) (kinds : list Z) (arg : bool) : Prop :=
  long_enabled = true /\ nm <> EmptyString /\ no_nul nm = true /\
  (exists opts, longopts = Some opts /\ first_match text opts = Some (nm, opt)) /\
  (has_arg opt ∈ kinds) /\ o_flag opt = None /\ (o_val opt ∉ [0; -1; QUESTION; COLON]) /\
  (0 <= getopt_char_to_mask_index (o_val opt) ->
   has_bit amask (getopt_char_to_mask_index (o_val opt)) = arg).

Definition item_ok (it : item) : Prop :=
  match it with
  | Flags cs => cs <> EmptyString /\ (Z.of_nat (String.length cs) < 65535) /\
      forallb (fun c => known c && negb (takes_arg c)) (chars cs) = true
  | Joined c v => known c && takes_arg c = true /\ v <> EmptyString /\ no_nul v = true
  | Separate c v => known c && takes_arg c = true
  | LongFlag nm opt => long_ok nm opt nm [no_argument] false
  | LongJoined nm opt v =>
      long_ok nm opt (nm +:+ String eq_sign v)%string [required_argument; optional_argument] true
  | LongSeparate nm opt v => long_ok nm opt nm [required_argument] true
  end.
End items.

(** The rest of the command line and how many of its elements the parser
    passes over: operands, or the end marker "--" and operands. *)
Definition tail_skip (tail : list string) : option Z :=
  match tail with
  | [] => Some 0
  | t :: _ =>
      if bool_decide (t = String minus (String minus EmptyString)) then Some 1
      else if negb (bool_decide (at_ t 0 = minus)) || bool_decide (at_ t 1 = NUL) then Some 0
      else None
  end.

(** [n] calls: what they return, with optarg, and the state after them. *)
Fixpoint getopt_calls (call : getopt_state -> option (getopt_state * Z)) (n : nat) (st : getopt_state)
  : option (list (Z * option string) * getopt_state) :=
  match n with
  | O => Some ([], st)
  | S n' =>
      match call st with
      | None => None
      | Some (st1, ret) =>
          match getopt_calls call n' st1 with
          | None => None
          | Some (evs, st2) => Some ((ret, optarg st1) :: evs, st2)
          end
      end
  end.

Lemma getopt_calls_app call n m st evs st1 :
  getopt_calls call n st = Some (evs, st1) ->
  getopt_calls call (n + m) st =
    match getopt_calls call m st1 with
    | Some (evs', st2) => Some (evs ++ evs', st2)
    | None => None
    end.
Proof.
  revert st evs. induction n as [|n IH]; intros st evs; simpl.
  - intros [= <- <-]. by destruct (getopt_calls call m st) as [[? ?]|].
  - destruct (call st) as [[st' r]|]; [|done].
    destruct (getopt_calls call n st') as [[evs' st'']|] eqn:He; [|done]. intros [= <- <-].
    rewrite (IH _ _ He). by destruct (getopt_calls call m st'') as [[? ?]|].
Qed.

Section parsing.
Context (argv : list string) (long_enabled : bool) (optstring : string).
Context (longopts : option (list option_)) (want_index : bool).

Abbreviation call := (zephyr_getopt argv long_enabled optstring longopts want_index false).
Abbreviation parse_arg := (getopt_arg argv long_enabled optstring longopts want_index false).
Abbreviation ok := (item_ok long_enabled optstring longopts).

(** Between two elements: the next one to look at is [i]. *)
Definition between (i : Z) (st : getopt_state) : Prop :=
  optind st = i /\ optind_prev st = i /\ (nextchar_idx st = 0 \/ nextchar_idx st = 1).

(** One call looks at the element at optind. *)
Lemma call_at st i a :
  1 <= i < 65536 -> optind st = i -> optind_prev st = i -> argv !! Z.to_nat i = Some a ->
  call st = match parse_arg st i a with
            | Some (Done st' ret) => Some (set_prev (uwrap 16 (optind st')) st', ret)
            | Some (Next st') =>
                match getopt_loop argv long_enabled optstring longopts want_index false st' (i + 1)
                        (drop (Z.to_nat i + 1) argv) with
                | Some (st3, ret) => Some (set_prev (uwrap 16 (optind st3)) st3, ret)
                | None => None
                end
            | None => None
            end.
Proof.
  intros Hi Ho Hp Ha. unfold zephyr_getopt. rewrite Ho, (ltb_false i 1) by lia.
  cbv zeta. rewrite Ho, Hp, Z.eqb_refl. simpl. rewrite Ho. unfold argc. apply lookup_lt_Some in Ha as Hlt.
  rewrite leb_false by lia.
  rewrite (drop_S argv a) by done. rewrite Nat.add_1_r. simpl.
  by destruct (parse_arg st i a) as [[st' ret|st']|].
Qed.

(** Option characters are letters or digits. *)
Lemma known_char c :
  known optstring c = true ->
  0 <= getopt_char_to_mask_index (int_of_char c) /\ c <> minus /\ c <> NUL.
Proof.
  unfold known. intros [Hc _]%andb_true_iff. apply Z.leb_le in Hc. split; [done|].
  split; intros ->; by vm_compute in Hc.
Qed.

(** An element that starts with "-c" is a cluster of short options, whether
    or not long options are enabled. *)
Lemma short_element_any st i c s :
  argv !! Z.to_nat i = Some (String minus (String c s)) -> 0 <= i -> c <> minus -> c <> NUL ->
  parse_arg st i (String minus (String c s)) =
    Some (short_options argv (fst (fst (getopt_parse_optstring optstring)))
            (snd (fst (getopt_parse_optstring optstring)))
            (snd (getopt_parse_optstring optstring)) st i (String minus (String c s))).
Proof.
  intros Ha Hi Hm Hn. unfold getopt_arg.
  destruct (getopt_parse_optstring optstring) as [[om am] col].
  cbn [at_ String.get default fst snd].
  rewrite (bool_decide_eq_true_2 (minus = minus)) by done.
  rewrite (bool_decide_eq_false_2 (c = NUL)) by done.
  rewrite (bool_decide_eq_false_2 (c = minus)) by done. simpl.
  destruct long_enabled; [|done]. unfold getopt_match_longopt, arg_at. ztests. rewrite Ha.
  cbn [at_ String.get default].
  rewrite (bool_decide_eq_true_2 (minus = minus)) by done.
  rewrite (bool_decide_eq_false_2 (c = minus)) by done. done.
Qed.

Lemma short_element st i c s :
  argv !! Z.to_nat i = Some (String minus (String c s)) -> 0 <= i -> known optstring c = true ->
  parse_arg st i (String minus (String c s)) =
    Some (short_options argv (fst (fst (getopt_parse_optstring optstring)))
            (snd (fst (getopt_parse_optstring optstring)))
            (snd (getopt_parse_optstring optstring)) st i (String minus (String c s))).
Proof. intros Ha Hi (_ & Hm & Hn)%known_char. by apply short_element_any. Qed.

(** Within the cluster "-pre c suf" of the element [i], the next character
    being [c]. *)
Definition inside (i : Z) (pre : string) (st : getopt_state) : Prop :=
  optind st = i /\ optind_prev st = i /\
  (nextchar_idx st = Z.of_nat (String.length pre) + 1 \/ (pre = EmptyString /\ nextchar_idx st = 0)).

Lemma at_cluster pre c suf :
  at_ (String minus (pre +:+ String c suf)) (String.length pre + 1) = c.
Proof.
  unfold at_. rewrite Nat.add_1_r. simpl.
  pose proof (str_get_app pre (String c suf) 0) as H. rewrite Nat.add_0_r in H. by rewrite H.
Qed.

Lemma at_cluster_next pre c suf :
  at_ (String minus (pre +:+ String c suf)) (String.length pre + 1 + 1) = at_ suf 0.
Proof.
  unfold at_. rewrite !Nat.add_1_r. simpl.
  pose proof (str_get_app pre (String c suf) 1) as H. rewrite Nat.add_1_r in H. by rewrite H.
Qed.

Lemma drop_cluster pre c suf :
  str_drop (String.length pre + 1 + 1) (String minus (pre +:+ String c suf)) = suf.
Proof.
  replace (String.length pre + 1 + 1)%nat with (S (String.length pre + 1)) by lia.
  change (str_drop (String.length pre + 1) (pre +:+ String c suf) = suf).
  rewrite str_drop_app_plus. by destruct suf.
Qed.

(** What short_options does with the next character of a cluster. *)
Lemma short_next om am col st i pre c suf :
  inside i pre st ->
  exists st0, optarg st0 = optarg st /\ optind_prev st0 = optind_prev st /\
    nextchar_idx st0 = Z.of_nat (String.length pre) + 1 /\
    short_options argv om am col st i (String minus (pre +:+ String c suf)) =
    (let idx := getopt_char_to_mask_index (int_of_char c) in
     if bool_decide (c = NUL) then Next st0
     else if (idx <? 0) || negb (has_bit om idx) then
       Done (set_optind i (set_optopt (int_of_char c) st0)) QUESTION
     else if has_bit am idx then
       if negb (bool_decide (at_ suf 0 = NUL)) then
         Done (set_optind (i + 1) (set_optarg (Some suf) (set_optopt (int_of_char c) st0))) (int_of_char c)
       else
         match arg_at argv (i + 1) with
         | Some v => Done (set_optind (i + 2) (set_optarg (Some v) (set_optopt (int_of_char c) st0)))
                       (int_of_char c)
         | None => Done (set_optind i (set_optopt (int_of_char c) st0)) (if col then COLON else QUESTION)
         end
     else
       let st := set_optarg None (set_optopt (int_of_char c) st0) in
       if bool_decide (at_ suf 0 = NUL)
       then Done (set_next 0 (set_optind (i + 1) st)) (int_of_char c)
       else Done (set_next (uwrap 16 (nextchar_idx st + 1)) (set_optind i st)) (int_of_char c)).
Proof.
  intros (_ & _ & Hn). unfold short_options.
  assert (Hlen : Z.of_nat (String.length (String minus (pre +:+ String c suf)))
    = Z.of_nat (String.length pre) + 2 + Z.of_nat (String.length suf)).
  { cbn [String.length]. rewrite str_length_app. cbn [String.length]. lia. }
  rewrite Hlen.
  set (st0 := if (nextchar_idx st <? 1) || _ then set_next 1 st else st).
  assert (Hnext : nextchar_idx st0 = Z.of_nat (String.length pre) + 1).
  { unfold st0. destruct Hn as [Hn|[-> Hn]]; rewrite Hn; [|done].
    rewrite ltb_false, leb_false by lia. done. }
  exists st0. split; [by unfold st0; case_match|]. split; [by unfold st0; case_match|].
  split; [done|]. rewrite Hnext.
  replace (Z.to_nat (Z.of_nat (String.length pre) + 1)) with (String.length pre + 1)%nat by lia.
  rewrite at_cluster, at_cluster_next, drop_cluster. done.
Qed.

Definition flag_char (c : ascii) : bool := known optstring c && negb (takes_arg optstring c).

Lemma chars_app s t : chars (s +:+ t) = chars s ++ chars t.
Proof. unfold chars. induction s as [|c s IH]; simpl; [done|]. by rewrite IH. Qed.

Lemma uwrap16 z : 0 <= z < 65536 -> uwrap 16 z = z.
Proof. intros H. unfold uwrap. apply Z.mod_small. lia. Qed.

(** The argument-less option [c] of a cluster: it is reported, and the next
    call goes on behind it. *)
Lemma call_flag st i pre c suf :
  1 <= i < 65535 -> argv !! Z.to_nat i = Some (String minus (pre +:+ String c suf)) ->
  Z.of_nat (String.length (pre +:+ String c suf)) < 65535 ->
  forallb flag_char (chars (pre +:+ String c suf)) = true ->
  inside i pre st ->
  exists st', call st = Some (st', int_of_char c) /\ optarg st' = None /\
    if bool_decide (suf = EmptyString) then between (i + 1) st'
    else inside i (pre +:+ String c EmptyString) st'.
Proof.
  intros Hi Ha Hlen Hall Hin. pose proof Hin as (Ho & Hp & _).
  rewrite (call_at st i _ ltac:(lia) Ho Hp Ha).
  assert (exists d rest, pre +:+ String c suf = String d rest /\ known optstring d = true) as
    (d & rest & Hd & Hkd).
  { destruct pre as [|d pre']; [exists c, suf|exists d, (pre' +:+ String c suf)]; split; try done;
      simpl in Hall; by apply andb_true_iff in Hall as [[? _]%andb_true_iff _]. }
  rewrite chars_app, forallb_app in Hall. apply andb_true_iff in Hall as [_ Hall]. simpl in Hall.
  apply andb_true_iff in Hall as [[Hk Ht]%andb_true_iff Hsuf].
  destruct (known_char c Hk) as (Hidx & _ & Hnul).
  rewrite Hd in Ha |- *. rewrite (short_element st i d rest Ha) by (done || lia). rewrite <- Hd.
  destruct (short_next (fst (fst (getopt_parse_optstring optstring)))
    (snd (fst (getopt_parse_optstring optstring))) (snd (getopt_parse_optstring optstring))
    st i pre c suf Hin) as (st0 & _ & _ & Hn0 & ->).
  cbv zeta. rewrite (bool_decide_eq_false_2 (c = NUL)) by done.
  unfold known in Hk. apply andb_true_iff in Hk as [_ Hk]. rewrite Hk.
  unfold takes_arg in Ht. apply negb_true_iff in Ht. rewrite Ht. rewrite ltb_false by done. simpl.
  rewrite str_length_app in Hlen. simpl in Hlen.
  destruct suf as [|e suf].
  - rewrite bool_decide_eq_true_2 by done. rewrite (bool_decide_eq_true_2 (EmptyString = EmptyString)) by done.
    eexists. split; [done|]. split; [done|]. split; [done|]. split; [|by left]. simpl. by rewrite uwrap16 by lia.
  - simpl in Hsuf. apply andb_true_iff in Hsuf as [[He _]%andb_true_iff _].
    destruct (known_char e He) as (_ & _ & Hne).
    rewrite (bool_decide_eq_false_2 (at_ _ _ = _)) by done.
    rewrite (bool_decide_eq_false_2 (String e suf = EmptyString)) by done.
    eexists. split; [done|]. split; [done|]. split; [done|]. simpl in Hlen.
    split; [simpl; by rewrite uwrap16 by lia|]. left. simpl. rewrite Hn0, str_length_app, uwrap16 by lia. simpl. lia.
Qed.

Lemma str_app_snoc s c t : (s +:+ String c EmptyString) +:+ t = s +:+ String c t.
Proof. rewrite str_app_assoc. done. Qed.

(** A whole cluster, from the character behind [pre] on. *)
Lemma cluster_runs suf : forall st i pre c,
  1 <= i < 65535 -> argv !! Z.to_nat i = Some (String minus (pre +:+ String c suf)) ->
  Z.of_nat (String.length (pre +:+ String c suf)) < 65535 ->
  forallb flag_char (chars (pre +:+ String c suf)) = true -> inside i pre st ->
  exists evs st', getopt_calls call (length (events (Flags (String c suf)))) st = Some (evs, st') /\
    Forall2 answers (events (Flags (String c suf))) evs /\ between (i + 1) st'.
Proof.
  induction suf as [|e suf IH]; intros st i pre c Hi Ha Hlen Hall Hin;
    destruct (call_flag st i pre c _ Hi Ha Hlen Hall Hin) as (st1 & Hc & Harg & Hnext); simpl; rewrite Hc, Harg.
  - simpl in Hnext. eexists _, st1. split; [done|]. split; [|done]. by repeat constructor.
  - rewrite (bool_decide_eq_false_2 (String e suf = EmptyString)) in Hnext by done.
    rewrite <- (str_app_snoc pre c) in Ha, Hlen, Hall.
    destruct (IH st1 i _ e Hi Ha Hlen Hall Hnext) as (evs & st' & Hr & Hf & Hb). simpl in Hr. rewrite Hr.
    eexists _, st'. split; [done|]. split; [|done]. constructor; [done|exact Hf].
Qed.

(** An option with an argument, in the same element or in the next. *)
Lemma call_short_arg st i c v :
  1 <= i < 65535 -> known optstring c && takes_arg optstring c = true -> between i st ->
  (argv !! Z.to_nat i = Some (String minus (String c v)) /\ v <> EmptyString /\ no_nul v = true ->
   exists st', call st = Some (st', int_of_char c) /\ optarg st' = Some v /\ between (i + 1) st') /\
  (argv !! Z.to_nat i = Some (String minus (String c EmptyString)) /\
   argv !! Z.to_nat (i + 1) = Some v /\ i < 65534 ->
   exists st', call st = Some (st', int_of_char c) /\ optarg st' = Some v /\ between (i + 2) st').
Proof.
  intros Hi [Hk Ht]%andb_true_iff (Ho & Hp & Hn).
  destruct (known_char c Hk) as (Hidx & _ & Hnul).
  assert (Hin : inside i EmptyString st) by (split; [done|]; split; [done|]; simpl; tauto).
  pose proof Hk as [_ Hm]%andb_true_iff. unfold takes_arg in Ht.
  split; [intros (Ha & Hv & Hnv)|intros (Ha & Hv & Hi2)];
    rewrite (call_at st i _ ltac:(lia) Ho Hp Ha), (short_element st i c _ Ha) by (done || lia);
    [destruct (short_next (fst (fst (getopt_parse_optstring optstring)))
      (snd (fst (getopt_parse_optstring optstring))) (snd (getopt_parse_optstring optstring))
      st i EmptyString c v Hin) as (st0 & _ & _ & Hn0 & He);
     change (EmptyString +:+ String c v) with (String c v) in He
    |destruct (short_next (fst (fst (getopt_parse_optstring optstring)))
      (snd (fst (getopt_parse_optstring optstring))) (snd (getopt_parse_optstring optstring))
      st i EmptyString c EmptyString Hin) as (st0 & _ & _ & Hn0 & He);
     change (EmptyString +:+ String c EmptyString) with (String c EmptyString) in He]; rewrite He; cbv zeta;
    rewrite (bool_decide_eq_false_2 (c = NUL)), Hm, Ht, ltb_false by done; simpl.
  - destruct v as [|d v]; [done|]. simpl in Hnv. apply andb_true_iff in Hnv as [Hd _].
    apply negb_true_iff, bool_decide_eq_false_1 in Hd.
    rewrite (bool_decide_eq_false_2 (at_ _ _ = _)) by done. simpl.
    eexists. split; [done|]. split; [done|]. split; [done|]. simpl. rewrite uwrap16 by lia. auto.
  - unfold arg_at. rewrite ltb_false, Hv by lia.
    eexists. split; [done|]. split; [done|]. split; [done|]. simpl. rewrite uwrap16 by lia. auto.
Qed.

Abbreviation am := (snd (fst (getopt_parse_optstring optstring))).
Abbreviation col := (snd (getopt_parse_optstring optstring)).

(** The search of the table stops at the first name that is a prefix. *)
Lemma longopt_loop_found st idx text opts nm opt : forall i,
  first_match text opts = Some (nm, opt) ->
  exists k, longopt_loop argv am col false want_index st idx i text opts =
    Some (longopt_match argv am col false want_index st idx k text nm opt).
Proof.
  induction opts as [|o opts IH]; intros i; simpl; [done|].
  destruct (opt_end o); [done|]. destruct (o_name o) as [nm'|]; [|done].
  destruct (strncmp_eq text nm' (String.length nm')); simpl; [|apply IH].
  intros [= -> ->]. by exists i.
Qed.

(** Reporting a long option that has no flag pointer. *)
Lemma longopt_done_spec st i opt :
  o_flag opt = None ->
  exists st', longopt_done want_index st i opt = (st', o_val opt) /\ optarg st' = optarg st /\
    optind st' = optind st /\ nextchar_idx st' = nextchar_idx st.
Proof. intros Hf. unfold longopt_done. rewrite Hf. eexists. split; [done|]. by destruct want_index. Qed.

(** A call that reaches a long option is decided by the entry found. *)
Lemma call_long st i nm rest opt kinds arg :
  1 <= i < 65535 -> between i st -> long_ok long_enabled optstring longopts nm opt (nm +:+ rest) kinds arg ->
  argv !! Z.to_nat i = Some (String minus (String minus (nm +:+ rest))) ->
  exists k, forall st1 n,
    longopt_match argv am col false want_index st i k (nm +:+ rest) nm opt = (st1, o_val opt) ->
    optind st1 = i + n -> 0 <= n -> i + n < 65536 ->
    nextchar_idx st1 = nextchar_idx st ->
    exists st', call st = Some (st', o_val opt) /\ optarg st' = optarg st1 /\ between (i + n) st'.
Proof.
  intros Hi (Ho & Hp & Hn) (Hen & Hnm & Hnn & (opts & Hopts & Hfirst) & _ & _ & Hval & _) Ha.
  destruct (longopt_loop_found st i _ _ _ _ 0 Hfirst) as [k Hk]. exists k. intros st1 n Hm Hst1 Hn0 Hlim Hnx.
  rewrite (call_at st i _ ltac:(lia) Ho Hp Ha). unfold getopt_arg.
  destruct (getopt_parse_optstring optstring) as [[om am'] col'] eqn:Hparse. simpl fst in *. simpl snd in *.
  destruct nm as [|d nm]; [done|]. simpl in Hnn. apply andb_true_iff in Hnn as [Hd _].
  apply negb_true_iff, bool_decide_eq_false_1 in Hd.
  change (String d nm +:+ rest) with (String d (nm +:+ rest)) in *.
  cbn [at_ String.get default].
  rewrite (bool_decide_eq_true_2 (minus = minus)), (bool_decide_eq_false_2 (minus = NUL)),
    (bool_decide_eq_false_2 (d = NUL)) by done. simpl negb. simpl orb. simpl andb. cbv iota.
  rewrite Hen. unfold getopt_match_longopt, arg_at. rewrite ltb_false, Ha by lia.
  cbn [at_ String.get default].
  rewrite (bool_decide_eq_true_2 (minus = minus)), Hopts by done.
  replace (str_drop 2 _) with (String d (nm +:+ rest)) by (by destruct (nm +:+ rest)).
  rewrite Hk, Hm. rewrite !not_elem_of_cons in Hval. destruct Hval as (? & ? & ? & ? & _).
  rewrite !eqb_false by done. simpl. eexists. split; [done|]. split; [done|].
  split; [done|]. simpl. rewrite Hst1, Hnx, uwrap16 by lia. done.
Qed.

Lemma at_end nm : at_ nm (String.length nm) = NUL.
Proof. unfold at_. induction nm as [|c nm IH]; [done|exact IH]. Qed.

Lemma at_eq nm v : at_ (nm +:+ String eq_sign v) (String.length nm) = eq_sign.
Proof.
  unfold at_. pose proof (str_get_app nm (String eq_sign v) 0) as H. rewrite Nat.add_0_r in H. by rewrite H.
Qed.

(** What the search does with a usable entry: without an argument, with one
    behind '=', with one in the next element. *)
Lemma longopt_match_flag st i k nm opt :
  long_ok long_enabled optstring longopts nm opt nm [no_argument] false ->
  exists st1, longopt_match argv am col false want_index st i k nm nm opt = (st1, o_val opt) /\
    optind st1 = i + 1 /\ nextchar_idx st1 = nextchar_idx st.
Proof.
  intros (_ & _ & _ & _ & Hk & Hf & _ & Hb). apply list_elem_of_singleton in Hk.
  unfold longopt_match. rewrite Hk. simpl.
  destruct (longopt_done_spec (set_optind (i + 1) st) k opt Hf) as (st1 & Hd & _ & Ho & Hn).
  exists st1. rewrite Ho, Hn. split; [|done].
  destruct (Z.leb_spec 0 (getopt_char_to_mask_index (o_val opt))); simpl; [|done]. by rewrite Hb.
Qed.

Lemma longopt_match_joined st i k nm v opt :
  long_ok long_enabled optstring longopts nm opt (nm +:+ String eq_sign v)
    [required_argument; optional_argument] true ->
  exists st1, longopt_match argv am col false want_index st i k (nm +:+ String eq_sign v) nm opt
      = (st1, o_val opt) /\
    optarg st1 = Some v /\ optind st1 = i + 1 /\ nextchar_idx st1 = nextchar_idx st.
Proof.
  intros (_ & _ & _ & _ & Hk & Hf & _ & Hb). unfold longopt_match.
  rewrite at_eq, (bool_decide_eq_true_2 (eq_sign = eq_sign)) by done.
  rewrite str_drop_app_plus. replace (str_drop 1 (String eq_sign v)) with v by (by destruct v).
  destruct (longopt_done_spec (set_optind (i + 1) (set_optarg (Some v) st)) k opt Hf) as (st1 & Hd & Ha & Ho & Hn).
  exists st1. rewrite Ha, Ho, Hn. split; [|done].
  assert (Hs : (0 <=? getopt_char_to_mask_index (o_val opt)) &&
    negb (has_bit am (getopt_char_to_mask_index (o_val opt))) = false).
  { destruct (Z.leb_spec 0 (getopt_char_to_mask_index (o_val opt))); simpl; [|done]. by rewrite Hb. }
  rewrite Hs. apply elem_of_cons in Hk as [Hk|Hk%list_elem_of_singleton]; by rewrite Hk.
Qed.

Lemma longopt_match_separate st i k nm v opt :
  0 <= i -> argv !! Z.to_nat (i + 1) = Some v ->
  long_ok long_enabled optstring longopts nm opt nm [required_argument] true ->
  exists st1, longopt_match argv am col false want_index st i k nm nm opt = (st1, o_val opt) /\
    optarg st1 = Some v /\ optind st1 = i + 2 /\ nextchar_idx st1 = nextchar_idx st.
Proof.
  intros Hi Hv (_ & _ & _ & _ & Hk & Hf & _ & Hb). apply list_elem_of_singleton in Hk.
  unfold longopt_match. rewrite Hk. simpl. rewrite at_end.
  rewrite (bool_decide_eq_false_2 (NUL = eq_sign)) by done.
  destruct (longopt_done_spec (set_optind (i + 2) (set_optarg (Some v) st)) k opt Hf) as (st1 & Hd & Ha & Ho & Hn).
  exists st1. rewrite Ha, Ho, Hn. split; [|done].
  unfold arg_at. rewrite ltb_false, Hv by lia.
  destruct (Z.leb_spec 0 (getopt_char_to_mask_index (o_val opt))); simpl; [|done]. by rewrite Hb.
Qed.

(** The element number [n] of an item that starts at [i]. *)
Definition placed (i : Z) (it : item) : Prop :=
  forall n a, render it !! n = Some a -> argv !! Z.to_nat (i + Z.of_nat n) = Some a.

(** One item: the calls report its events and end behind it. *)
Lemma item_runs st i it :
  1 <= i -> i + Z.of_nat (length (render it)) < 65536 -> placed i it -> ok it -> between i st ->
  exists evs st', getopt_calls call (length (events it)) st = Some (evs, st') /\
    Forall2 answers (events it) evs /\ between (i + Z.of_nat (length (render it))) st'.
Proof.
  intros Hi Hlim Hpl Hok Hb.
  pose proof (fun a => Hpl 0%nat a) as H0. rewrite Z.add_0_r in H0.
  pose proof (fun a => Hpl 1%nat a) as H1. clear Hpl.
  assert (Hone : forall e r, (exists st', call st = Some (st', fst e) /\
      (snd e <> None -> optarg st' = snd e) /\ between r st') ->
    exists evs st', getopt_calls call 1 st = Some (evs, st') /\ Forall2 answers [e] evs /\ between r st').
  { intros e r (st' & Hc & Ha & Hr). simpl. rewrite Hc. eexists _, st'. split; [done|]. split; [|done].
    by repeat constructor. }
  destruct it as [cs|c v|c v|nm opt|nm opt v|nm opt v]; simpl in *.
  - destruct Hok as (Hne & Hlen & Hall). destruct cs as [|c cs]; [done|].
    apply (cluster_runs cs st i EmptyString c); try done; [lia|by apply H0|].
    destruct Hb as (? & ? & ?). split; [done|]. split; [done|]. simpl. tauto.
  - destruct Hok as (Hk & Hv & Hnn). apply Hone. simpl.
    destruct (call_short_arg st i c v ltac:(lia) Hk Hb) as [(st' & ? & ? & ?) _]; [by auto|eauto].
  - apply Hone. simpl.
    destruct (call_short_arg st i c v ltac:(lia) Hok Hb) as [_ (st' & ? & ? & ?)]; [by auto with lia|eauto].
  - apply Hone. simpl. pose proof Hok as Hok'. rewrite <- (str_app_nil nm) in Hok' at 2.
    destruct (call_long st i nm EmptyString opt _ _ ltac:(lia) Hb Hok') as [k Hk].
    { rewrite str_app_nil. by apply H0. }
    rewrite str_app_nil in Hk. destruct (longopt_match_flag st i k nm opt Hok) as (st1 & Hm & Ho & Hn).
    destruct (Hk st1 1 Hm Ho ltac:(lia) ltac:(lia) Hn) as (st' & ? & ? & ?). by exists st'.
  - apply Hone. simpl.
    destruct (call_long st i nm _ opt _ _ ltac:(lia) Hb Hok) as [k Hk]; [by apply H0|].
    destruct (longopt_match_joined st i k nm v opt Hok) as (st1 & Hm & Ha & Ho & Hn).
    destruct (Hk st1 1 Hm Ho ltac:(lia) ltac:(lia) Hn) as (st' & ? & Ha' & ?). exists st'. by rewrite Ha', Ha.
  - apply Hone. simpl. pose proof Hok as Hok'. rewrite <- (str_app_nil nm) in Hok' at 2.
    destruct (call_long st i nm EmptyString opt _ _ ltac:(lia) Hb Hok') as [k Hk].
    { rewrite str_app_nil. by apply H0. }
    rewrite str_app_nil in Hk.
    destruct (longopt_match_separate st i k nm v opt ltac:(lia) (H1 v eq_refl) Hok) as (st1 & Hm & Ha & Ho & Hn).
    destruct (Hk st1 2 Hm Ho ltac:(lia) ltac:(lia) Hn) as (st' & ? & Ha' & ?). exists st'. by rewrite Ha', Ha.
Qed.

Lemma items_run its : forall st i,
  1 <= i -> i + Z.of_nat (length (its ≫= render)) < 65536 ->
  (forall n a, (its ≫= render) !! n = Some a -> argv !! Z.to_nat (i + Z.of_nat n) = Some a) ->
  Forall ok its -> between i st ->
  exists evs st', getopt_calls call (length (its ≫= events)) st = Some (evs, st') /\
    Forall2 answers (its ≫= events) evs /\ between (i + Z.of_nat (length (its ≫= render))) st'.
Proof.
  induction its as [|it its IH]; intros st i Hi Hlim Hpl Hok Hb.
  - exists [], st. simpl. rewrite Z.add_0_r. split; [done|]. split; [constructor|done].
  - apply Forall_cons in Hok as [Hit Hits]. rewrite !bind_cons in *. rewrite !length_app in *.
    destruct (item_runs st i it) as (evs1 & st1 & Hr1 & Hf1 & Hb1); try done; [lia|..].
    { intros n a Hn. apply Hpl. by apply lookup_app_l_Some. }
    destruct (IH st1 (i + Z.of_nat (length (render it)))) as (evs2 & st2 & Hr2 & Hf2 & Hb2); [lia|lia| |done|done|].
    { intros n a Hn. rewrite <- Z.add_assoc, <- Nat2Z.inj_add. apply Hpl.
      rewrite lookup_app_r by lia. by replace (_ + n - _)%nat with n by lia. }
    exists (evs1 ++ evs2), st2. rewrite (getopt_calls_app _ _ _ _ _ _ Hr1), Hr2.
    split; [done|]. split; [by apply Forall2_app|]. by rewrite Nat2Z.inj_add, Z.add_assoc.
Qed.

(** The call behind the last option. *)
Lemma call_tail st i tail n :
  1 <= i < 65536 -> drop (Z.to_nat i) argv = tail -> tail_skip tail = Some n -> between i st ->
  exists st', call st = Some (st', -1) /\ optind st' = i + n.
Proof.
  intros Hi Hd Ht (Ho & Hp & _). destruct tail as [|t tail].
  - injection Ht as <-. unfold zephyr_getopt. rewrite Ho, (ltb_false i 1) by lia. cbv zeta.
    rewrite Ho, Hp, Z.eqb_refl. simpl. unfold argc. rewrite Ho, leb_true.
    + exists st. split; [done|lia].
    + apply (f_equal length) in Hd. rewrite length_drop in Hd. simpl in Hd. lia.
  - assert (Ha : argv !! Z.to_nat i = Some t).
    { rewrite <- (Nat.add_0_r (Z.to_nat i)), <- lookup_drop, Hd. done. }
    rewrite (call_at st i t Hi Ho Hp Ha). unfold tail_skip in Ht. unfold getopt_arg.
    destruct (getopt_parse_optstring optstring) as [[? ?] ?].
    case_bool_decide as Hdd; [subst t; injection Ht as <-|].
    + cbn [at_ String.get default]. simpl. eexists. split; [done|]. done.
    + destruct (negb _ || _); [|done]. injection Ht as <-. eexists. split; [done|]. simpl. lia.
Qed.

(** An unknown option is not passed over: the call that reports it leaves the
    position in front of it, so every later call reports it again and a loop
    that calls until -1 does not end. *)
Lemma getopt_stuck i c suf n : forall st,
  1 <= i < 65536 -> argv !! Z.to_nat i = Some (String minus (String c suf)) ->
  known optstring c = false -> c <> minus -> c <> NUL -> inside i EmptyString st ->
  exists evs st', getopt_calls call n st = Some (evs, st') /\ length evs = n /\
    Forall (fun e => fst e = QUESTION) evs.
Proof.
  induction n as [|n IH]; intros st Hi Ha Hk Hm Hn Hin; [by exists [], st|].
  pose proof Hin as (Ho & Hp & _).
  assert (exists st1, call st = Some (st1, QUESTION) /\ inside i EmptyString st1) as (st1 & Hc & Hin1).
  { rewrite (call_at st i _ Hi Ho Hp Ha), (short_element_any st i c suf Ha) by (done || lia).
    destruct (short_next (fst (fst (getopt_parse_optstring optstring))) am col st i EmptyString c suf Hin)
      as (st0 & _ & Hp0 & Hn0 & He).
    change (EmptyString +:+ String c suf) with (String c suf) in He. rewrite He.
    cbv zeta. rewrite (bool_decide_eq_false_2 (c = NUL)) by done.
    unfold known in Hk. rewrite <- (negb_involutive (_ <? 0)), <- Z.leb_antisym, <- negb_andb, Hk.
    simpl. eexists. split; [done|].
    split; [done|]. split; [simpl; by rewrite uwrap16 by lia|]. by left. }
  destruct (IH st1 Hi Ha Hk Hm Hn Hin1) as (evs & st' & Hr & Hl & Hf).
  simpl. rewrite Hc, Hr. eexists _, _. split; [done|]. split; [by simpl; f_equal|]. by constructor.
Qed.
End parsing.

Definition demo_longopts : list option_ :=
  [mk_option (Some "size"%string) required_argument None 115; mk_option None 0 None 0].

(** Further behaviour of the parser on inputs outside [item_ok]: the position
    within a cluster survives an option with an argument, so the first flag of
    the next element is skipped; a long option is matched by a prefix of the
    text; "--foo" makes getopt, which has no table, read one. *)
Lemma getopt_position_survives :
  match getopt_calls (getopt ["prog"; "-abfoo"; "-cd"] false "ab:cd") 4 getopt_init with
  | Some (evs, _) => evs.*1
  | None => []
  end = [97; 98; 100; -1].
Proof. by vm_compute. Qed.

Lemma getopt_long_prefix :
  match getopt_calls (getopt_long ["prog"; "--sizeable"; "x"] true "s:" demo_longopts false) 1 getopt_init with
  | Some (evs, _) => evs
  | None => []
  end = [(115, Some "x"%string)].
Proof. by vm_compute. Qed.

Lemma getopt_reads_no_table : getopt ["prog"; "--foo"] true "ab" getopt_init = None.
Proof. by vm_compute. Qed.

(** C23: a command line made of flag clusters, options with an argument
    (joined or in the next element) and long options, followed by operands or
    by "--", is parsed option by option: one call per option, each with its
    value and argument, in order, then -1 with optind at the first operand. *)
Theorem getopt_parses (long_enabled : bool) (optstring : string) (longopts : option (list option_))
  (want_index : bool) (prog : string) (its : list item) (tail : list string) (n : Z) :
  Forall (item_ok long_enabled optstring longopts) its ->
  tail_skip tail = Some n ->
  argc (prog :: (its ≫= render) ++ tail) < 65536 ->
  exists evs a st,
    getopt_calls
      (zephyr_getopt (prog :: (its ≫= render) ++ tail) long_enabled optstring longopts want_index false)
      (length (its ≫= events) + 1) getopt_init = Some (evs ++ [(-1, a)], st) /\
    Forall2 answers (its ≫= events) evs /\
    optind st = 1 + Z.of_nat (length (its ≫= render)) + n.
Proof.
  intros Hok Ht Hc. set (argv := prog :: (its ≫= render) ++ tail) in *.
  set (call := zephyr_getopt argv long_enabled optstring longopts want_index false).
  set (st1 := mk_getopt None 1 0 1 0 0 ∅).
  assert (Hlen : argc argv = 1 + Z.of_nat (length (its ≫= render)) + Z.of_nat (length tail)).
  { unfold argc, argv. simpl. rewrite length_app. lia. }
  assert (Hinit : forall m, getopt_calls call (S m) getopt_init = getopt_calls call (S m) st1) by done.
  destruct (items_run argv long_enabled optstring longopts want_index its st1 1)
    as (evs & st2 & Hr & Hf & Hb); try done; [lia| |by repeat split; auto|].
  { intros k a Hk. replace (Z.to_nat (1 + Z.of_nat k)) with (S k) by lia. simpl. by apply lookup_app_l_Some. }
  destruct (call_tail argv long_enabled optstring longopts want_index st2
    (1 + Z.of_nat (length (its ≫= render))) tail n) as (st3 & Hc3 & Ho3); [lia| |done|exact Hb|].
  { replace (Z.to_nat (1 + _)) with (S (length (its ≫= render))) by lia. simpl. apply drop_app_length. }
  exists evs, (optarg st3), st3. rewrite Nat.add_1_r, Hinit, <- Nat.add_1_r.
  rewrite (getopt_calls_app _ _ _ _ _ _ Hr). simpl. unfold call. rewrite Hc3. done.
Qed.

(** "prog -ab -ofile --size=10 -- -x" *)
Definition demo_items : list item :=
  [Flags "ab"; Joined "o"%char "file"; LongJoined "size" (mk_option (Some "size"%string) required_argument None 115) "10"].

Lemma getopt_parses_witness :
  exists evs a st,
    getopt_calls
      (zephyr_getopt ["prog"; "-ab"; "-ofile"; "--size=10"; "--"; "-x"] true "abo:s:" (Some demo_longopts) true false)
      5 getopt_init = Some (evs ++ [(-1, a)], st) /\
    Forall2 answers [(97, None); (98, None); (111, Some "file"%string); (115, Some "10"%string)] evs /\
    optind st = 5.
Proof.
  apply (getopt_parses true "abo:s:" (Some demo_longopts) true "prog" demo_items ["--"; "-x"] 1).
  - repeat apply Forall_cons_2; [| | |by constructor].
    + by vm_compute.
    + by vm_compute.
    + split; [done|]. split; [done|]. split; [done|]. split; [by eexists|]. split; [left|].
      split; [done|]. split; [|done]. rewrite !not_elem_of_cons. by repeat split; try apply not_elem_of_nil.
  - done.
  - done.
Defined.
