(* ===== verification/Fnmatch.v ===== *)
(** * Pattern matching

    c_lib_ext/fnmatch.c.  The pattern is a pointer into a terminated string,
    the list of the characters from it on; reading past the end is [None].
    A position in the string is the character before it ([None] at
    [stringstart]) and the characters from it on; plain characters are
    unsigned. *)

From stdpp Require Import base list strings sets.
From Stdlib Require Import ZArith Lia Ascii.
From S2P Require Import Prelude CString.

Local Open Scope Z_scope.

Definition FNM_NOMATCH : Z := 1.
Definition FNM_NORES : Z := 3.
Definition FNM_NOESCAPE : Z := 1.
Definition FNM_PATHNAME : Z := 2.
Definition FNM_PERIOD : Z := 4.
Definition FNM_LEADING_DIR : Z := 8.
Definition FNM_CASEFOLD : Z := 16.

Definition is_char (c d : ascii) : bool := bool_decide (c = d).
Infix "=c" := is_char (at level 70).

(** ** rangematch_cc *)

(** The key of a class name of five or of six letters. *)
Definition pack (cs : list ascii) : Z :=
  foldl (fun key c => Z.lor (Z.shiftl key 8) (Z.of_nat (code c))) 0 cs.
Definition FNM_CC (name : string) : Z := pack (chars name ++ [":"; "]"])%char.

(** The loop over the characters behind "[:"; [before] is [*(p - 1)]. *)
Fixpoint cc_key (before : ascii) (p : list ascii) (key : Z) : option (Z * list ascii) :=
  match p with
  | [] => None
  | c :: p' =>
      if c =c NUL then Some (key, p)
      else if before =c "]"%char then Some (key, p)
      else cc_key c p' (Z.lor (uwrap 64 (Z.shiftl key 8)) (Z.of_nat (code c)))
  end.

Definition cc_classes : list (string * (ascii -> bool)) :=
  [("alnum", isalnum); ("alpha", isalpha); ("blank", isblank); ("cntrl", iscntrl);
   ("digit", isdigit); ("graph", isgraph); ("lower", islower); ("print", isprint);
   ("punct", ispunct); ("space", isspace); ("upper", isupper); ("xdigit", isxdigit)]%string.

(** The switch on the key. *)
Fixpoint cc_find (key : Z) (classes : list (string * (ascii -> bool))) : option (ascii -> bool) :=
  match classes with
  | [] => None
  | (name, test) :: classes' => if key =? FNM_CC name then Some test else cc_find key classes'
  end.

(** [Some None] is RANGE_ERROR; otherwise whether [ch] is of the class, and
    *pattern. *)
Definition rangematch_cc (pattern : list ascii) (ch : ascii) : option (option (bool * list ascii)) :=
  match pattern with
  | [] => None
  | a :: p1 =>
      if negb (a =c "["%char) then Some None
      else match p1 with
           | [] => None
           | b :: p2 =>
               if negb (b =c ":"%char) then Some None
               else match cc_key b p2 0 with
                    | None => None
                    | Some (key, rest) =>
                        match cc_find key cc_classes with
                        | None => Some None
                        | Some test => Some (Some (test ch, rest))
                        end
                    end
           end
  end.

Section flags.
Context (flags : Z).

Definition noescape : bool := flag_set flags FNM_NOESCAPE.
Definition pathname : bool := flag_set flags FNM_PATHNAME.
Definition period : bool := flag_set flags FNM_PERIOD.
Definition leading_dir : bool := flag_set flags FNM_LEADING_DIR.
Definition casefold : bool := flag_set flags FNM_CASEFOLD.

Definition foldcase (ch : ascii) : ascii := if casefold && isupper ch then tolower ch else ch.

(** ** rangematch *)

Inductive range_result :=
  | RANGE_ERROR
  | RANGE_NOMATCH
  | RANGE_MATCH (pattern : list ascii).

(** One character or range of a bracket expression: [Some None] is
    RANGE_ERROR, otherwise whether it covers [test], and the rest. *)
Definition range_char (test : ascii) (pat : list ascii) : option (option (bool * list ascii)) :=
  match pat with
  | c0 :: ((d :: pat2) as pat1) =>
      let c := foldcase c0 in
      let single := Some (Some (c =c test, pat1)) in
      if d =c "-"%char then
        match pat2 with
        | [] => None
        | e :: pat3 =>
            if (e =c NUL) || (e =c "]"%char) then single
            else
              match (if (e =c "\"%char) && negb noescape then pat3 else pat2) with
              | [] => None
              | f :: pat4 =>
                  let c2 := foldcase f in
                  if c2 =c NUL then Some None
                  else
                    let c2 := if casefold then tolower c2 else c2 in
                    Some (Some (((code c <=? code test) && (code test <=? code c2))%nat, pat4))
              end
        end
      else single
  | _ => None
  end.

(** The loop; [first] is [pat == origpat]. *)
Fixpoint range_loop (fuel : nat) (test : ascii) (negate : bool) (pat : list ascii) (first ok : bool)
  : option range_result :=
  match fuel, pat with
  | S fuel', p :: pat' =>
      let char at_ :=
        match range_char test at_ with
        | None => None
        | Some None => Some RANGE_ERROR
        | Some (Some (hit, rest)) => range_loop fuel' test negate rest false (ok || hit)
        end in
      if (p =c "]"%char) && negb first then
        Some (if xorb ok negate then RANGE_MATCH pat' else RANGE_NOMATCH)
      else if p =c NUL then Some RANGE_ERROR
      else if (p =c "/"%char) && pathname then Some RANGE_NOMATCH
      else if (p =c "\"%char) && negb noescape then char pat'
      else
        match rangematch_cc pat test with
        | None => None
        | Some None => char pat
        | Some (Some (hit, rest)) => range_loop fuel' test negate rest false (ok || hit)
        end
  | _, _ => None
  end.

Definition rangematch (pattern : list ascii) (test : ascii) : option range_result :=
  match pattern with
  | [] => None
  | p :: pattern' =>
      let negate := (p =c "!"%char) || (p =c "^"%char) in
      let pat := if negate then pattern' else pattern in
      range_loop (length pat) (foldcase test) negate pat true false
  end.

(** ** fnmatchx *)

(** "Collapse multiple stars": the pattern at the first other character. *)
Fixpoint skip_stars (pattern : list ascii) : option (list ascii) :=
  match pattern with
  | [] => None
  | c :: pattern' => if foldcase c =c "*"%char then skip_stars pattern' else Some pattern
  end.

(** [strchr(string, '/')], with the character before it; [Some None] is NULL. *)
Fixpoint strchr_slash (before : option ascii) (string : list ascii)
  : option (option (option ascii * list ascii)) :=
  match string with
  | [] => None
  | c :: string' =>
      if c =c "/"%char then Some (Some (before, string))
      else if c =c NUL then Some None
      else strchr_slash (Some c) string'
  end.

Definition hidden_dot (before : option ascii) (sc : ascii) : bool :=
  (sc =c "."%char) && period &&
  (bool_decide (before = None) || (pathname && bool_decide (before = Some "/"%char))).

(** The loop of the general case of a star. *)
Fixpoint star_loop (match_rest : option ascii -> list ascii -> option Z) (sc : ascii)
  (before : option ascii) (string : list ascii) : option Z :=
  if sc =c NUL then Some FNM_NOMATCH
  else
    match match_rest before string with
    | None => None
    | Some r =>
        if r =? 0 then Some 0
        else
          match string with
          | [] => None
          | s :: string' =>
              let sc := foldcase s in
              if (sc =c "/"%char) && pathname then Some FNM_NOMATCH
              else star_loop match_rest sc (Some s) string'
          end
    end.

(** The [while (true)] loop; [recurse] is fnmatchx one level deeper. *)
Fixpoint fnm_loop (recurse : list ascii -> option ascii -> list ascii -> option Z) (fuel : nat)
  (pattern : list ascii) (before : option ascii) (string : list ascii) : option Z :=
  match fuel, pattern, string with
  | S fuel', p :: pattern1, s :: string1 =>
      let pc := foldcase p in
      let sc := foldcase s in
      let next pattern' := fnm_loop recurse fuel' pattern' (Some s) string1 in
      let norm pc pattern' := if negb (pc =c sc) then Some FNM_NOMATCH else next pattern' in
      if pc =c NUL then
        if leading_dir && (sc =c "/"%char) then Some 0
        else if sc =c NUL then Some 0
        else Some FNM_NOMATCH
      else if pc =c "?"%char then
        if sc =c NUL then Some FNM_NOMATCH
        else if (sc =c "/"%char) && pathname then Some FNM_NOMATCH
        else if hidden_dot before sc then Some FNM_NOMATCH
        else next pattern1
      else if pc =c "*"%char then
        match skip_stars pattern1 with
        | None | Some [] => None
        | Some ((c0 :: _) as pattern2) =>
            let c := foldcase c0 in
            if hidden_dot before sc then Some FNM_NOMATCH
            else if c =c NUL then
              if negb pathname then Some 0
              else if leading_dir then Some 0
              else match strchr_slash before string with
                   | None => None
                   | Some None => Some 0
                   | Some (Some _) => Some FNM_NOMATCH
                   end
            else if (c =c "/"%char) && pathname then
              match strchr_slash before string with
              | None => None
              | Some None => Some FNM_NOMATCH
              | Some (Some (before', string')) => fnm_loop recurse fuel' pattern2 before' string'
              end
            else star_loop (recurse pattern2) sc before string
        end
      else if pc =c "["%char then
        if sc =c NUL then Some FNM_NOMATCH
        else if (sc =c "/"%char) && pathname then Some FNM_NOMATCH
        else if hidden_dot before sc then Some FNM_NOMATCH
        else
          match rangematch pattern1 sc with
          | None => None
          | Some RANGE_ERROR => norm pc pattern1
          | Some (RANGE_MATCH pattern') => next pattern'
          | Some RANGE_NOMATCH => Some FNM_NOMATCH
          end
      else if pc =c "\"%char then
        if negb noescape then
          match pattern1 with
          | [] => None
          | e :: pattern2 => norm (foldcase e) pattern2
          end
        else norm pc pattern1
      else norm pc pattern1
  | _, _, _ => None
  end.

Fixpoint fnmatchx (recursion : nat) (pattern : list ascii) (before : option ascii) (string : list ascii)
  : option Z :=
  match recursion with
  | O => Some FNM_NORES
  | S r => fnm_loop (fnmatchx r) (length pattern) pattern before string
  end.

Definition fnmatch (pattern string : list ascii) : option Z := fnmatchx 64 pattern None string.
End flags.

(** ** Patterns

    A pattern as its elements; [quoted] characters are written behind a
    backslash.  A bracket expression may start with '!' or '^'. *)
Inductive bitem :=
  | BChar (quoted : bool) (c : ascii)
  | BRange (quoted1 : bool) (lo : ascii) (quoted2 : bool) (hi : ascii)
  | BClass (name : string) (test : ascii -> bool).

Inductive elt :=
  | Lit (quoted : bool) (c : ascii)
  | Any
  | Star
  | Bracket (neg : option ascii) (items : list bitem).

Definition print_char (quoted : bool) (c : ascii) : list ascii := if quoted then ["\"%char; c] else [c].

Definition print_item (it : bitem) : list ascii :=
  match it with
  | BChar q c => print_char q c
  | BRange q1 lo q2 hi => print_char q1 lo ++ "-"%char :: print_char q2 hi
  | BClass name _ => ["["; ":"]%char ++ chars name ++ [":"; "]"]%char
  end.

Definition print_elt (e : elt) : list ascii :=
  match e with
  | Lit q c => print_char q c
  | Any => ["?"%char]
  | Star => ["*"%char]
  | Bracket neg items => "["%char :: option_list neg ++ (items ≫= print_item) ++ ["]"%char]
  end.

Definition char_ok (special : list ascii) (quoted : bool) (c : ascii) : bool :=
  negb (c =c NUL) && (quoted || negb (bool_decide (c ∈ special))).

Definition bracket_special : list ascii := ["]"; "\"; "-"; "["; "!"; "^"; "/"]%char.

Definition item_ok (it : bitem) : Prop :=
  match it with
  | BChar q c => char_ok bracket_special q c = true
  | BRange q1 lo q2 hi => char_ok bracket_special q1 lo && char_ok bracket_special q2 hi = true
  | BClass name test => (name, test) ∈ cc_classes
  end.

Definition elt_ok (e : elt) : Prop :=
  match e with
  | Lit q c => char_ok ["?"; "*"; "["; "\"]%char q c = true
  | Any | Star => True
  | Bracket neg items =>
      neg ∈ [None; Some "!"%char; Some "^"%char] /\ items <> [] /\ Forall item_ok items
  end.

(** How many levels of recursion a pattern needs. *)
Fixpoint stars (ps : list elt) : nat :=
  match ps with
  | [] => 0
  | Star :: ps' => S (stars ps')
  | _ :: ps' => stars ps'
  end%nat.

(** ** What a pattern matches *)
Section reference.
Context (flags : Z).
Abbreviation fold := (foldcase flags).

Definition item_has (d : ascii) (it : bitem) : bool :=
  match it with
  | BChar _ c => fold c =c fold d
  | BRange _ lo _ hi => ((code (fold lo) <=? code (fold d)) && (code (fold d) <=? code (fold hi)))%nat
  | BClass _ test => test (fold d)
  end.

(** A wildcard does not match a '/' of a path name, nor a leading period. *)
Definition wild_ok (before : option ascii) (d : ascii) : bool :=
  negb ((d =c "/"%char) && pathname flags) && negb (hidden_dot flags before d).

(** A star: some suffix of the string that leaves out no '/' of a path name
    matches the rest. *)
Fixpoint star_try (m : option ascii -> list ascii -> bool) (before : option ascii) (s : list ascii) : bool :=
  m before s ||
  match s with
  | [] => false
  | d :: s' => negb ((d =c "/"%char) && pathname flags) && star_try m (Some d) s'
  end.

Fixpoint matches (ps : list elt) (before : option ascii) (s : list ascii) : bool :=
  match ps with
  | [] => match s with [] => true | d :: _ => leading_dir flags && (d =c "/"%char) end
  | Star :: ps' =>
      match s with [] => true | d :: _ => negb (hidden_dot flags before d) end &&
      star_try (matches ps') before s
  | e :: ps' =>
      match s with
      | [] => false
      | d :: s' =>
          match e with
          | Lit _ c => fold c =c fold d
          | Bracket neg items => wild_ok before d && xorb (existsb (item_has d) items) (bool_decide (neg <> None))
          | _ => wild_ok before d
          end && matches ps' (Some d) s'
      end
  end.
End reference.

(** ** Characters *)

Lemma is_char_refl c : (c =c c) = true.
Proof. by apply bool_decide_eq_true_2. Qed.

Lemma is_char_neq c d : c <> d -> (c =c d) = false.
Proof. apply bool_decide_eq_false_2. Qed.

Lemma is_char_true c d : (c =c d) = true -> c = d.
Proof. apply bool_decide_eq_true_1. Qed.

Lemma is_char_false c d : (c =c d) = false -> c <> d.
Proof. apply bool_decide_eq_false_1. Qed.

Lemma tolower_upper c : isupper c = true -> islower (tolower c) = true.
Proof.
  intros H. pose proof (ascii_forall (fun c => negb (isupper c) || islower (tolower c)) eq_refl c) as Hc.
  simpl in Hc. by rewrite H in Hc.
Qed.

Lemma lower_not_upper c : islower c = true -> isupper c = false.
Proof.
  intros H. pose proof (ascii_forall (fun c => negb (islower c) || negb (isupper c)) eq_refl c) as Hc.
  simpl in Hc. rewrite H in Hc. by apply negb_true_iff in Hc.
Qed.

Section lemmas.
Context (flags : Z).
Abbreviation fold := (foldcase flags).

(** Folding does not touch what is not a letter. *)
Lemma fold_special c d : isalpha d = false -> (fold c =c d) = (c =c d).
Proof.
  intros Hd. unfold foldcase. destruct (casefold flags); simpl; [|done].
  destruct (isupper c) eqn:Hc; [|done].
  rewrite !is_char_neq; [done| |]; intros <-; unfold isalpha in Hd; apply orb_false_iff in Hd as [Hu Hl].
  - by rewrite Hc in Hu.
  - by rewrite tolower_upper in Hl.
Qed.

Lemma fold_id d : isalpha d = false -> fold d = d.
Proof. intros Hd. apply is_char_true. by rewrite fold_special, is_char_refl. Qed.

Lemma fold_fold c : fold (fold c) = fold c.
Proof.
  unfold foldcase at 2 3. destruct (casefold flags && isupper c) eqn:Hc.
  - apply andb_true_iff in Hc as [_ Hc]. unfold foldcase.
    by rewrite (lower_not_upper _ (tolower_upper c Hc)), andb_false_r.
  - unfold foldcase. by rewrite Hc.
Qed.

Lemma tolower_fold c : casefold flags = true -> tolower (fold c) = fold c.
Proof.
  intros Hf. unfold foldcase. rewrite Hf. simpl.
  pose proof (ascii_forall (fun c => (tolower (tolower c) =c tolower c) && (isupper c || (tolower c =c c)))
    eq_refl c) as Hc. simpl in Hc. apply andb_true_iff in Hc as [H1 H2].
  destruct (isupper c); [by apply is_char_true|]. by apply is_char_true.
Qed.

Lemma hidden_fold before c : hidden_dot flags before (fold c) = hidden_dot flags before c.
Proof. unfold hidden_dot. by rewrite fold_special. Qed.

Lemma char_ok_nul sp q c : char_ok sp q c = true -> (c =c NUL) = false.
Proof. unfold char_ok. intros [H _]%andb_true_iff. by apply negb_true_iff. Qed.

Lemma char_ok_plain sp c d : char_ok sp false c = true -> d ∈ sp -> (c =c d) = false.
Proof.
  unfold char_ok. intros [_ H]%andb_true_iff Hd. simpl in H.
  apply negb_true_iff, bool_decide_eq_false_1 in H. apply is_char_neq. by intros ->.
Qed.

(** ** Bracket expressions *)

Context (Hesc : noescape flags = false).

Lemma range_char_single test c d rest :
  (d =c "-"%char) = false ->
  range_char flags test (c :: d :: rest) = Some (Some (fold c =c test, d :: rest)).
Proof. intros Hd. simpl. by rewrite Hd. Qed.

Lemma range_char_range test lo q hi rest :
  char_ok bracket_special q hi = true ->
  range_char flags test (lo :: "-"%char :: print_char q hi ++ rest) =
    Some (Some (((code (fold lo) <=? code test) && (code test <=? code (fold hi)))%nat, rest)).
Proof.
  intros Hok. pose proof (char_ok_nul _ _ _ Hok) as Hnul.
  assert (Hfold : (if casefold flags then tolower (fold hi) else fold hi) = fold hi).
  { destruct (casefold flags) eqn:Hc; [by apply tolower_fold|done]. }
  simpl. destruct q; simpl; rewrite ?Hesc; simpl.
  - by rewrite fold_special, Hnul, Hfold.
  - rewrite Hnul, (char_ok_plain _ _ "]"%char Hok), (char_ok_plain _ _ "\"%char Hok)
      by (unfold bracket_special; set_solver). simpl.
    by rewrite fold_special, Hnul, Hfold.
Qed.

Lemma cc_key_class name test d rest :
  (name, test) ∈ cc_classes ->
  cc_key ":"%char (chars name ++ ":"%char :: "]"%char :: d :: rest) 0 = Some (FNM_CC name, d :: rest) /\
  cc_find (FNM_CC name) cc_classes = Some test.
Proof.
  unfold cc_classes. rewrite !elem_of_cons. intros H. rewrite elem_of_nil in H.
  repeat destruct H as [[= -> ->]|H]; [..|done]; (split; [|done]); cbn -[is_char];
    destruct (d =c NUL); done.
Qed.

(** The start of a character of the list: an unquoted one has no special
    meaning, a quoted one starts with a backslash. *)
Lemma range_step fuel test negate q c rest first ok :
  char_ok bracket_special q c = true ->
  range_loop flags (S fuel) test negate (print_char q c ++ rest) first ok =
    match range_char flags test (c :: rest) with
    | None => None
    | Some None => Some RANGE_ERROR
    | Some (Some (hit, rest')) => range_loop flags fuel test negate rest' false (ok || hit)
    end.
Proof.
  intros Hok. destruct q.
  - cbn -[range_char is_char]. by rewrite Hesc.
  - cbn -[range_char is_char rangematch_cc].
    rewrite (char_ok_nul _ _ _ Hok), (char_ok_plain _ _ "]"%char Hok), (char_ok_plain _ _ "/"%char Hok),
      (char_ok_plain _ _ "\"%char Hok) by (unfold bracket_special; set_solver). cbn [andb].
    unfold rangematch_cc. rewrite (char_ok_plain _ _ "["%char Hok) by (unfold bracket_special; set_solver). done.
Qed.

Lemma range_item fuel d negate it e rest first ok :
  item_ok it -> (e =c "-"%char) = false ->
  range_loop flags (S fuel) (fold d) negate (print_item it ++ e :: rest) first ok =
    range_loop flags fuel (fold d) negate (e :: rest) false (ok || item_has flags d it).
Proof.
  intros Hok He. destruct it as [q c|q1 lo q2 hi|name test].
  - cbn [print_item item_ok item_has] in *. by rewrite range_step, range_char_single.
  - cbn [print_item item_ok item_has] in *. apply andb_true_iff in Hok as [Hlo Hhi].
    rewrite <- app_assoc. cbn [app]. by rewrite range_step, range_char_range.
  - cbn [print_item item_has] in *. destruct (cc_key_class name test e rest Hok) as [Hk Hf].
    rewrite <- !app_assoc. cbn [app range_loop].
    rewrite !(is_char_neq "["%char _) by done. cbn [andb rangematch_cc].
    rewrite !is_char_refl. cbn [negb]. by rewrite Hk, Hf.
Qed.

(** What follows an item is not a '-'. *)
Lemma items_head items rest :
  Forall item_ok items ->
  exists e r, (items ≫= print_item) ++ "]"%char :: rest = e :: r /\ (e =c "-"%char) = false /\
    (items <> [] -> e ∉ ["!"; "^"]%char).
Proof.
  intros Hok. destruct Hok as [|it items Hit Hok]; [by exists "]"%char, rest|].
  rewrite bind_cons. destruct it as [q c|q c q2 hi|name test].
  1-2: assert (Hc : char_ok bracket_special q c = true)
      by first [exact Hit | by apply andb_true_iff in Hit as [? _]]; clear Hit;
    (destruct q; [by eexists "\"%char, _; split; [done|]; split; [done|]; intros _; set_solver|]);
    eexists c, _; split; [done|]; split;
    [apply (char_ok_plain _ _ _ Hc); unfold bracket_special; set_solver|];
    intros _ Hin; apply elem_of_cons in Hin as [Heq|Heq%list_elem_of_singleton]; subst c; by vm_compute in Hc.
  eexists "["%char, _. split; [done|]. split; [done|]. intros _. set_solver.
Qed.

Lemma range_items items d negate rest : forall fuel first ok,
  Forall item_ok items -> (length items < fuel)%nat -> (first = true -> items <> []) ->
  range_loop flags fuel (fold d) negate ((items ≫= print_item) ++ "]"%char :: rest) first ok =
    Some (if xorb (ok || existsb (item_has flags d) items) negate
          then RANGE_MATCH rest else RANGE_NOMATCH).
Proof.
  induction items as [|it items IH]; intros fuel first ok Hok Hf Hfirst; (destruct fuel as [|fuel]; [simpl in Hf; lia|]).
  - simpl. destruct first; [by destruct Hfirst|]. by rewrite orb_false_r.
  - apply Forall_cons in Hok as [Hit Hok]. rewrite bind_cons, <- app_assoc.
    destruct (items_head items rest Hok) as (e & r & He & Hdash & _).
    rewrite He, range_item by done. rewrite <- He, IH by (done || simpl in Hf; lia). simpl. by rewrite orb_assoc.
Qed.

Lemma rangematch_spec neg items d rest :
  elt_ok (Bracket neg items) ->
  rangematch flags (option_list neg ++ (items ≫= print_item) ++ "]"%char :: rest) (fold d) =
    Some (if xorb (existsb (item_has flags d) items) (bool_decide (neg <> None))
          then RANGE_MATCH rest else RANGE_NOMATCH).
Proof.
  intros (Hneg & Hne & Hok).
  destruct (items_head items rest Hok) as (e & r & He & _ & Hfirst). specialize (Hfirst Hne).
  assert (Hlen : (length items < length ((items ≫= print_item) ++ "]"%char :: rest))%nat).
  { clear -Hok. induction Hok as [|it items Hit Hok IH]; [simpl; lia|].
    rewrite bind_cons, <- app_assoc, length_app. simpl length at 1.
    assert (1 <= length (print_item it))%nat; [|lia].
    destruct it as [[] ?|[] ? ? ?|? ?]; simpl; lia. }
  assert (Hloop : forall negate, range_loop flags (length ((items ≫= print_item) ++ "]"%char :: rest))
    (fold (fold d)) negate ((items ≫= print_item) ++ "]"%char :: rest) true false =
    Some (if xorb (existsb (item_has flags d) items) negate then RANGE_MATCH rest else RANGE_NOMATCH)).
  { intros negate. by rewrite fold_fold, range_items. }
  rewrite !not_elem_of_cons in Hfirst. destruct Hfirst as (H1 & H2 & _).
  rewrite !elem_of_cons, elem_of_nil in Hneg. destruct Hneg as [->|[->|[->|[]]]].
  - change (option_list None ++ ?l) with l. unfold rangematch. rewrite He. cbv beta zeta iota. rewrite !is_char_neq by done. simpl orb. cbv iota.
    rewrite <- He. apply Hloop.
  - change (option_list (Some ?c) ++ ?l) with (c :: l). unfold rangematch. rewrite (is_char_refl "!"%char). simpl orb. cbv zeta iota. apply Hloop.
  - change (option_list (Some ?c) ++ ?l) with (c :: l). unfold rangematch. rewrite (is_char_refl "^"%char), orb_true_r. cbv zeta iota. apply Hloop.
Qed.

(** ** Stars *)

(** A path separator is not behind a position that a star has moved to. *)
Lemma star_not_hidden d s :
  (d =c "/"%char) && pathname flags = false ->
  match s with [] => true | e :: _ => negb (hidden_dot flags (Some d) e) end = true.
Proof.
  intros Hd. destruct s as [|e s]; [done|]. unfold hidden_dot.
  rewrite (bool_decide_eq_false_2 (Some d = None)) by done. simpl.
  replace (bool_decide (Some d = Some "/"%char)) with (d =c "/"%char)
    by (unfold is_char; apply bool_decide_ext; split; [by intros ->|by intros [=]]).
  rewrite (andb_comm (pathname flags)), Hd. by rewrite andb_false_r.
Qed.

(** Two stars are one. *)
Lemma star_star ps before s :
  matches flags (Star :: Star :: ps) before s = matches flags (Star :: ps) before s.
Proof.
  change (matches flags (Star :: Star :: ps) before s) with
    (match s with [] => true | d :: _ => negb (hidden_dot flags before d) end &&
     star_try flags (matches flags (Star :: ps)) before s).
  change (matches flags (Star :: ps) before s) with
    (match s with [] => true | d :: _ => negb (hidden_dot flags before d) end &&
     star_try flags (matches flags ps) before s).
  destruct (match s with [] => true | d :: _ => negb (hidden_dot flags before d) end) eqn:Hh; [|done].
  simpl. revert before Hh. induction s as [|d s IH]; intros before Hh.
  - simpl. by destruct (matches flags ps before []).
  - cbn [star_try]. simpl matches at 1. cbn [star_try]. rewrite Hh. simpl.
    destruct ((d =c "/"%char) && pathname flags) eqn:Hd; simpl; [by rewrite orb_false_r|].
    rewrite IH by (by apply star_not_hidden).
    destruct (matches flags ps before (d :: s)); simpl; [done|]. by rewrite orb_diag.
Qed.

Lemma star_many k ps before s :
  matches flags (Star :: replicate k Star ++ ps) before s = matches flags (Star :: ps) before s.
Proof.
  induction k as [|k IH]; [done|]. simpl replicate. rewrite <- app_comm_cons, star_star. exact IH.
Qed.

Definition clean (s : list ascii) : Prop := Forall (fun c => (c =c NUL) = false) s.

Definition verdict (b : bool) : option Z := Some (if b then 0 else FNM_NOMATCH).

(** The general case tries what [star_try] tries. *)
Lemma star_loop_spec f m s : forall before sc,
  (forall b t, clean t -> f b (t ++ [NUL]) = verdict (m b t)) ->
  clean s -> (sc =c NUL) = false ->
  star_loop flags f sc before (s ++ [NUL]) = verdict (star_try flags m before s).
Proof.
  induction s as [|d s IH]; intros before sc Hf Hs Hsc; cbn [app star_loop]; rewrite Hsc.
  - rewrite (Hf before [] Hs : f before [NUL] = _). simpl. destruct (m before []); simpl; [done|].
    by rewrite !fold_special.
  - rewrite (Hf before (d :: s) Hs : f before (d :: s ++ [NUL]) = _). simpl.
    destruct (m before (d :: s)); simpl; [done|]. rewrite fold_special by done.
    destruct ((d =c "/"%char) && pathname flags); simpl; [done|].
    apply Forall_cons in Hs as [Hd Hs]. apply IH; [done..|]. by rewrite fold_special.
Qed.

(** A star at the end. *)
Lemma star_end before s :
  clean s ->
  star_try flags (matches flags []) before s =
    negb (pathname flags) || leading_dir flags ||
    bool_decide (strchr_slash before (s ++ [NUL]) = Some None).
Proof.
  intros Hs. revert before. induction Hs as [|d s Hd Hs IH]; intros before.
  - simpl. by rewrite orb_true_r.
  - cbn [star_try matches app strchr_slash]. rewrite IH.
    destruct (d =c "/"%char) eqn:Hsl; simpl.
    + destruct (pathname flags), (leading_dir flags); done.
    + rewrite Hd, andb_false_r. done.
Qed.

(** A star before a '/' of a path name. *)
Lemma star_slash ps before s :
  clean s -> pathname flags = true ->
  match strchr_slash before (s ++ [NUL]) with
  | Some None => star_try flags (matches flags (Lit false "/"%char :: ps)) before s = false
  | Some (Some (b, rest)) => exists t, rest = t ++ [NUL] /\ clean t /\
      star_try flags (matches flags (Lit false "/"%char :: ps)) before s =
        matches flags (Lit false "/"%char :: ps) b t
  | None => False
  end.
Proof.
  intros Hs Hp. revert before. induction Hs as [|d s Hd Hs IH]; intros before; [done|].
  cbn [star_try app strchr_slash]. rewrite Hp. destruct (d =c "/"%char) eqn:Hsl.
  - exists (d :: s). split; [done|]. split; [by constructor|]. simpl. by rewrite orb_false_r.
  - rewrite Hd. specialize (IH (Some d)).
    assert (Hno : (matches flags (Lit false "/"%char :: ps) before (d :: s)) = false).
    { simpl. rewrite fold_id by done. rewrite is_char_neq; [done|]. intros Heq.
      assert ((fold d =c "/"%char) = true) as Hc by (rewrite <- Heq; apply is_char_refl).
      by rewrite fold_special, Hsl in Hc. }
    rewrite Hno. simpl. destruct (strchr_slash (Some d) (s ++ [NUL])) as [[[b rest]|]|]; [|done|done].
    exact IH.
Qed.

(** The pattern behind the stars. *)
Fixpoint print_pattern (ps : list elt) : list ascii :=
  match ps with [] => [NUL] | e :: ps' => print_elt e ++ print_pattern ps' end.

Definition starts_star (ps : list elt) : bool := match ps with Star :: _ => true | _ => false end.

Lemma split_stars ps :
  exists k ps', ps = replicate k Star ++ ps' /\ starts_star ps' = false /\ stars ps = (k + stars ps')%nat.
Proof.
  induction ps as [|e ps (k & ps' & -> & Hs & Hc)]; [by exists O, []|].
  destruct e; [by exists O, (Lit quoted c :: replicate k Star ++ ps')|by exists O, (Any :: replicate k Star ++ ps')
    | |by exists O, (Bracket neg items :: replicate k Star ++ ps')].
  exists (S k), ps'. split; [done|]. split; [done|]. simpl. by rewrite Hc.
Qed.

(** The first character of a pattern that does not start with a star. *)
Lemma pattern_head ps :
  Forall elt_ok ps -> starts_star ps = false ->
  exists c rest, print_pattern ps = c :: rest /\ (c =c "*"%char) = false /\
    (c =c NUL) = bool_decide (ps = []) /\
    ((c =c "/"%char) = true -> exists ps', ps = Lit false "/"%char :: ps').
Proof.
  intros Hok Hs. destruct Hok as [|e ps He Hok]; [by exists NUL, []|].
  rewrite (bool_decide_eq_false_2 (e :: ps = [])) by done.
  destruct e as [[] c| | |neg items]; [..|done|].
  - by exists "\"%char, (c :: print_pattern ps).
  - exists c, (print_pattern ps). split; [done|].
    split; [apply (char_ok_plain _ _ _ He); set_solver|]. split; [by apply char_ok_nul in He|].
    intros ->%is_char_true. by exists ps.
  - by exists "?"%char, (print_pattern ps).
  - by eexists "["%char, _.
Qed.

Lemma skip_stars_spec k ps :
  Forall elt_ok ps -> starts_star ps = false ->
  skip_stars flags (print_pattern (replicate k Star ++ ps)) = Some (print_pattern ps).
Proof.
  intros Hok Hs. induction k as [|k IH]; [|cbn -[is_char]; rewrite fold_special, is_char_refl by done; exact IH].
  destruct (pattern_head ps Hok Hs) as (c & rest & Hp & Hc & _). simpl. rewrite Hp. simpl.
  by rewrite fold_special, Hc.
Qed.

(** ** One turn of the loop, by the element it meets *)
Section turn.
Context (recurse : list ascii -> option ascii -> list ascii -> option Z).

Lemma turn_lit fuel q c pat before s :
  elt_ok (Lit q c) -> clean s ->
  fnm_loop flags recurse (S fuel) (print_char q c ++ pat) before (s ++ [NUL]) =
    match s with
    | d :: s' => if fold c =c fold d then fnm_loop flags recurse fuel pat (Some d) (s' ++ [NUL])
                 else verdict false
    | [] => verdict false
    end.
Proof.
  intros Hok Hs. pose proof (char_ok_nul _ _ _ Hok) as Hnul.
  assert (Hend : (fold c =c NUL) = false) by (by rewrite fold_special).
  destruct q; cbn [print_char app fnm_loop]; (destruct s as [|d s]; cbn [app]).
  1-2: rewrite (fold_id "\"%char), !(is_char_neq "\"%char _), (is_char_refl "\"%char), Hesc by done.
  3-4: rewrite (fold_special c NUL), (fold_special c "?"%char), (fold_special c "*"%char),
    (fold_special c "["%char), (fold_special c "\"%char), Hnul, (char_ok_plain _ _ "?"%char Hok), (char_ok_plain _ _ "*"%char Hok),
    (char_ok_plain _ _ "["%char Hok), (char_ok_plain _ _ "\"%char Hok) by (done || set_solver).
  all: rewrite ?(fold_id NUL), ?Hend by done; cbn [negb]; try done.
  all: by destruct (fold c =c fold d).
Qed.

Lemma turn_any fuel pat before s :
  clean s ->
  fnm_loop flags recurse (S fuel) ("?"%char :: pat) before (s ++ [NUL]) =
    match s with
    | d :: s' => if wild_ok flags before d then fnm_loop flags recurse fuel pat (Some d) (s' ++ [NUL])
                 else verdict false
    | [] => verdict false
    end.
Proof.
  intros Hs. destruct s as [|d s]; cbn [app fnm_loop].
  - rewrite (fold_id NUL), (fold_id "?"%char) by done. done.
  - apply Forall_cons in Hs as [Hd _].
    rewrite (fold_id "?"%char), (is_char_neq "?"%char NUL), is_char_refl, !(fold_special d), Hd, hidden_fold by done.
    unfold wild_ok. destruct ((d =c "/"%char) && pathname flags); [done|].
    by destruct (hidden_dot flags before d).
Qed.

Lemma turn_bracket fuel neg items pat before s :
  elt_ok (Bracket neg items) -> clean s ->
  fnm_loop flags recurse (S fuel) (print_elt (Bracket neg items) ++ pat) before (s ++ [NUL]) =
    match s with
    | d :: s' =>
        if wild_ok flags before d && xorb (existsb (item_has flags d) items) (bool_decide (neg <> None))
        then fnm_loop flags recurse fuel pat (Some d) (s' ++ [NUL])
        else verdict false
    | [] => verdict false
    end.
Proof.
  intros Hok Hs. cbn [print_elt]. rewrite <- app_comm_cons, <- !app_assoc. cbn [app].
  destruct s as [|d s]; cbn [app fnm_loop].
  - rewrite (fold_id NUL), (fold_id "["%char) by done. done.
  - apply Forall_cons in Hs as [Hd _].
    rewrite (fold_id "["%char), !(is_char_neq "["%char), is_char_refl, !(fold_special d), Hd, hidden_fold by done.
    rewrite rangematch_spec by done. unfold wild_ok.
    destruct ((d =c "/"%char) && pathname flags); [done|].
    destruct (hidden_dot flags before d); [done|]. simpl. by destruct (xorb _ _).
Qed.

Lemma turn_end fuel before s :
  clean s ->
  fnm_loop flags recurse (S fuel) [NUL] before (s ++ [NUL]) = verdict (matches flags [] before s).
Proof.
  intros Hs. destruct s as [|d s]; cbn [app fnm_loop matches];
    rewrite (fold_id NUL), is_char_refl by done; [by rewrite (is_char_neq NUL "/"%char), andb_false_r|].
  apply Forall_cons in Hs as [Hd _]. rewrite !(fold_special d), Hd by done.
  by destruct (leading_dir flags && (d =c "/"%char)).
Qed.

Lemma strchr_total s before : clean s -> strchr_slash before (s ++ [NUL]) <> None.
Proof.
  intros Hs. revert before. induction Hs as [|d s Hd Hs IH]; intros before; [done|].
  simpl. destruct (d =c "/"%char); [done|]. by rewrite Hd.
Qed.

(** A nonempty pattern that does not start with a star needs a character. *)
Lemma matches_nil ps before :
  starts_star ps = false -> matches flags ps before [] = bool_decide (ps = []).
Proof. destruct ps as [|[] ps]; done. Qed.

(** What the loop does behind the stars, in front of [ps]. *)
Definition star_body (fuel : nat) (ps : list elt) (sc : ascii) (before : option ascii) (s : list ascii)
  : option Z :=
  if bool_decide (ps = []) then
    verdict (negb (pathname flags) || leading_dir flags ||
             bool_decide (strchr_slash before (s ++ [NUL]) = Some None))
  else if bool_decide (head (print_pattern ps) = Some "/"%char) && pathname flags then
    match strchr_slash before (s ++ [NUL]) with
    | None => None
    | Some None => verdict false
    | Some (Some (b, rest)) => fnm_loop flags recurse fuel (print_pattern ps) b rest
    end
  else star_loop flags (recurse (print_pattern ps)) (fold sc) before (s ++ [NUL]).

Lemma star_open fuel k ps before s sc s1 :
  Forall elt_ok ps -> starts_star ps = false -> clean s -> s ++ [NUL] = sc :: s1 ->
  fnm_loop flags recurse (S fuel) ("*"%char :: print_pattern (replicate k Star ++ ps)) before (s ++ [NUL]) =
    if hidden_dot flags before sc then verdict false else star_body fuel ps sc before s.
Proof.
  intros Hok Hst Hs Hsc. destruct (pattern_head ps Hok Hst) as (c & rest & Hp & _ & Hnul & _).
  unfold star_body. rewrite Hsc. cbn [fnm_loop]. rewrite skip_stars_spec by done. rewrite Hp.
  rewrite (fold_id "*"%char), !(is_char_neq "*"%char), is_char_refl, hidden_fold, (fold_special c NUL),
    (fold_special c "/"%char), Hnul, <- Hsc by done.
  replace (bool_decide (head (c :: rest) = Some "/"%char)) with (c =c "/"%char)
    by (unfold is_char; apply bool_decide_ext; split; [by intros ->|by intros [=]]).
  destruct (hidden_dot flags before sc); [done|]. destruct (bool_decide (ps = [])); [|by case_match].
  destruct (pathname flags); [|done]. destruct (leading_dir flags); [done|].
  simpl. pose proof (strchr_total s before Hs) as Ht.
  destruct (strchr_slash before (s ++ [NUL])) as [[?|]|]; [|done..]. by rewrite bool_decide_eq_false_2.
Qed.

Section rest.
Context (fuel : nat) (ps : list elt).
Context (Hok : Forall elt_ok ps) (Hst : starts_star ps = false).
Context (Hrec : forall b t, clean t ->
  recurse (print_pattern ps) b (t ++ [NUL]) = verdict (matches flags ps b t)).
Context (Hloop : forall b t, clean t ->
  fnm_loop flags recurse fuel (print_pattern ps) b (t ++ [NUL]) = verdict (matches flags ps b t)).

Lemma star_body_spec sc before s :
  clean s -> match s with [] => sc = NUL | d :: _ => sc = d end ->
  star_body fuel ps sc before s = verdict (star_try flags (matches flags ps) before s).
Proof.
  intros Hs Hsc. unfold star_body. case_bool_decide as Hps; [by subst ps; rewrite star_end|].
  destruct (bool_decide _ && pathname flags) eqn:Hcs.
  - apply andb_true_iff in Hcs as [Hc%bool_decide_eq_true_1 Hpn].
    destruct (pattern_head ps Hok Hst) as (c & rest & Hp & _ & _ & Hslash).
    rewrite Hp in Hc. injection Hc as ->. destruct (Hslash (is_char_refl _)) as [ps' ->].
    pose proof (star_slash ps' before s Hs Hpn) as Hsl.
    destruct (strchr_slash before (s ++ [NUL])) as [[[b t]|]|]; [|by rewrite Hsl|done].
    destruct Hsl as (t' & -> & Ht' & ->). by apply Hloop.
  - destruct s as [|d s'].
    + subst sc. simpl. rewrite (fold_id NUL), is_char_refl, matches_nil by done.
      by rewrite bool_decide_eq_false_2.
    + subst sc. pose proof Hs as [Hd _]%Forall_cons. apply star_loop_spec; [done..|]. by rewrite fold_special.
Qed.

Lemma turn_star k before s :
  clean s ->
  fnm_loop flags recurse (S fuel) ("*"%char :: print_pattern (replicate k Star ++ ps)) before (s ++ [NUL]) =
    verdict (matches flags (Star :: ps) before s).
Proof.
  intros Hs.
  change (matches flags (Star :: ps) before s) with
    (match s with [] => true | d :: _ => negb (hidden_dot flags before d) end &&
     star_try flags (matches flags ps) before s).
  destruct s as [|d s'].
  - rewrite (star_open fuel k ps before [] NUL [] Hok Hst Hs eq_refl), star_body_spec by done. done.
  - rewrite (star_open fuel k ps before (d :: s') d (s' ++ [NUL]) Hok Hst Hs eq_refl), star_body_spec by done.
    by destruct (hidden_dot flags before d).
Qed.
End rest.
End turn.

Lemma print_stars k ps :
  length (print_pattern (replicate k Star ++ ps)) = (k + length (print_pattern ps))%nat.
Proof. induction k as [|k IH]; [done|]. simpl. by rewrite IH. Qed.

(** The loop decides the match. *)
Lemma fnm_loop_spec n : forall ps r fuel before s,
  (length ps <= n)%nat -> Forall elt_ok ps -> (stars ps <= r)%nat -> clean s ->
  (length (print_pattern ps) <= fuel)%nat ->
  fnm_loop flags (fnmatchx flags r) fuel (print_pattern ps) before (s ++ [NUL]) =
    verdict (matches flags ps before s).
Proof.
  induction n as [n IH] using lt_wf_ind. intros ps r fuel before s Hn Hok Hr Hs Hf.
  assert (Hnext : forall e ps', ps = e :: ps' -> forall fuel' b t,
    (stars ps' <= r)%nat -> clean t -> (length (print_pattern ps') <= fuel')%nat ->
    fnm_loop flags (fnmatchx flags r) fuel' (print_pattern ps') b (t ++ [NUL]) = verdict (matches flags ps' b t)).
  { intros e ps' -> fuel' b t Hr' Ht Hf'. simpl in Hn.
    apply (IH (length ps')); [lia|lia|by apply Forall_cons in Hok as [_ ?]|done|done|done]. }
  destruct ps as [|e ps]; [destruct fuel; [simpl in Hf; lia|]; by apply turn_end|].
  specialize (Hnext e ps eq_refl). apply Forall_cons in Hok as [He Hok].
  cbn [print_pattern] in *. rewrite length_app in Hf.
  assert (Hpos : (1 <= length (print_elt e))%nat) by (destruct e as [[] ?| | |]; simpl; lia).
  destruct fuel as [|fuel]; [lia|]. destruct e as [q c| | |neg items].
  - cbn [print_elt] in *. rewrite turn_lit by done. destruct s as [|d s]; [done|]. simpl.
    apply Forall_cons in Hs as [_ Hs]. destruct (fold c =c fold d); [|done]. apply Hnext; [done..|lia].
  - cbn [print_elt app] in *. rewrite turn_any by done. destruct s as [|d s]; [done|]. simpl.
    apply Forall_cons in Hs as [_ Hs]. destruct (wild_ok flags before d); [|done]. apply Hnext; [done..|lia].
  - cbn [print_elt app] in *. destruct (split_stars ps) as (k & ps' & -> & Hst & Hcount).
    apply Forall_app in Hok as [_ Hok']. simpl in Hr, Hf. rewrite Hcount in Hr.
    rewrite star_many. rewrite print_stars in Hf. simpl in Hn. rewrite length_app in Hn. destruct r as [|r]; [lia|].
    apply turn_star; try done; intros b t Ht.
    + cbn [fnmatchx]. apply (IH (length ps')); [lia|lia|done|lia|done|done].
    + apply (IH (length ps')); [lia|lia|done|lia|done|lia].
  - rewrite turn_bracket by done. destruct s as [|d s]; [done|]. simpl.
    apply Forall_cons in Hs as [_ Hs]. destruct (wild_ok flags before d && _); [|done]. apply Hnext; [done..|lia].
Qed.
End lemmas.

Lemma fnmatchx_S flags r pattern before string :
  fnmatchx flags (S r) pattern before string =
    fnm_loop flags (fnmatchx flags r) (length pattern) pattern before string.
Proof. done. Qed.

(** C24: fnmatch decides whether the string matches the pattern, with every
    combination of FNM_PATHNAME, FNM_PERIOD, FNM_LEADING_DIR and FNM_CASEFOLD:
    the collapsing of stars, the short cuts for a star at the end or before a
    '/', and the recursion for the others agree with the definition by
    elements, for patterns of at most 63 stars. *)
Theorem fnmatch_spec (flags : Z) (ps : list elt) (s : string) :
  noescape flags = false -> Forall elt_ok ps -> (stars ps <= 63)%nat -> no_nul s = true ->
  fnmatch flags (print_pattern ps) (cstr s) =
    Some (if matches flags ps None (chars s) then 0 else FNM_NOMATCH).
Proof.
  intros Hesc Hok Hst Hs. unfold fnmatch, cstr. rewrite fnmatchx_S.
  apply (fnm_loop_spec flags Hesc (length ps)); [done..| |done].
  apply Forall_forall. intros c Hc. unfold no_nul in Hs. rewrite forallb_forall in Hs.
  apply negb_true_iff, Hs. by apply list_elem_of_In.
Qed.

(** "src/*.[ch]" and FNM_PATHNAME *)
Lemma fnmatch_spec_witness :
  fnmatch FNM_PATHNAME (cstr "src/*.[c-h]") (cstr "src/a.b.h") = Some 0.
Proof.
  apply (fnmatch_spec FNM_PATHNAME
    [Lit false "s"; Lit false "r"; Lit false "c"; Lit false "/"; Star; Lit false ".";
     Bracket None [BRange false "c" false "h"]]%char "src/a.b.h"); [done| |simpl; lia|done].
  repeat (apply Forall_cons_2; [first [done | split; [left | split; [done|]]; by repeat constructor]|]).
  constructor.
Defined.

(** ** Termination and memory safety for every pattern *)
Section total.
Context (flags : Z).

(** A terminated string without a trailing backslash that could quote the
    terminator. *)
Fixpoint safe (l : list ascii) : bool :=
  match l with
  | [] => false
  | c :: l' =>
      if c =c NUL then bool_decide (l' = [])
      else match l' with
           | [] => false
           | d :: _ => (noescape flags || negb (c =c "\"%char) || negb (d =c NUL)) && safe l'
           end
  end.

Lemma safe_cons l : safe l = true -> exists c l', l = c :: l'.
Proof. destruct l as [|c l']; [done|eauto]. Qed.

Lemma safe_tail c l : safe (c :: l) = true -> (c =c NUL) = false -> safe l = true.
Proof. cbn [safe]. intros H Hc. rewrite Hc in H. destruct l; [done|]. by apply andb_true_iff in H as [_ ?]. Qed.

Lemma safe_nul l : safe (NUL :: l) = true -> l = [].
Proof. cbn [safe]. rewrite is_char_refl. apply bool_decide_eq_true_1. Qed.

Lemma safe_quote l :
  safe ("\"%char :: l) = true -> noescape flags = false ->
  exists d l', l = d :: l' /\ (d =c NUL) = false.
Proof.
  cbn [safe]. intros H Hn. rewrite (is_char_neq "\"%char NUL) in H by done. destruct l as [|d l]; [done|].
  rewrite Hn, is_char_refl in H. apply andb_true_iff in H as [H _]. exists d, l.
  split; [done|]. by apply negb_true_iff.
Qed.

Lemma cc_key_total p : forall before key,
  safe p = true -> exists key' q, cc_key before p key = Some (key', q) /\ safe q = true /\ (length q <= length p)%nat.
Proof.
  induction p as [|c p IH]; intros before key Hp; [done|]. simpl.
  destruct (c =c NUL) eqn:Hc; [by eexists _, _|].
  destruct (before =c "]"%char); [by eexists _, _|].
  destruct (IH c (Z.lor (uwrap 64 (Z.shiftl key 8)) (Z.of_nat (code c))) (safe_tail c p Hp Hc))
    as (key' & q & He & Hq & Hl).
  exists key', q. split; [done|]. split; [done|]. lia.
Qed.

(** The result of reading one element of a bracket expression at [p]. *)
Definition read_ok (p : list ascii) (r : option (option (bool * list ascii))) : Prop :=
  match r with
  | None => False
  | Some None => True
  | Some (Some (_, q)) => safe q = true /\ (length q < length p)%nat
  end.

Lemma rangematch_cc_total p ch : safe p = true -> read_ok p (rangematch_cc p ch).
Proof.
  intros Hp. unfold rangematch_cc. destruct p as [|a p]; [done|].
  destruct (a =c "["%char) eqn:Ha; cbn [negb]; [|done]. apply is_char_true in Ha as ->.
  apply safe_tail in Hp; [|done]. destruct p as [|b p]; [done|].
  destruct (b =c ":"%char) eqn:Hb; cbn [negb]; [|done]. apply is_char_true in Hb as ->.
  apply safe_tail in Hp; [|done]. destruct (cc_key_total p ":"%char 0 Hp) as (key & q & -> & Hq & Hl).
  destruct (cc_find key cc_classes); [|done]. split; [done|]. simpl. lia.
Qed.

Lemma range_char_total test c p :
  safe (c :: p) = true -> (c =c NUL) = false -> read_ok (c :: p) (range_char flags test (c :: p)).
Proof.
  intros Hs Hc. apply safe_tail in Hs; [|done]. unfold range_char.
  destruct p as [|d p]; [done|].
  destruct (d =c "-"%char) eqn:Hd; [|simpl; split; [done|lia]].
  apply is_char_true in Hd as ->. pose proof (safe_tail _ _ Hs eq_refl) as Hp. destruct p as [|e p]; [done|].
  destruct (e =c NUL) eqn:He; [simpl; split; [done|lia]|].
  destruct (e =c "]"%char); [simpl; split; [done|lia]|]. cbn [orb].
  destruct ((e =c "\"%char) && negb (noescape flags)) eqn:Hq.
  - apply andb_true_iff in Hq as [->%is_char_true Hn%negb_true_iff].
    destruct (safe_quote _ Hp Hn) as (f & p' & -> & Hf). apply safe_tail in Hp; [|done].
    rewrite fold_special, Hf by done. split; [by apply safe_tail in Hp|]. simpl. lia.
  - rewrite fold_special, He by done. split; [by apply safe_tail in Hp|]. simpl. lia.
Qed.

Definition range_ok (p : list ascii) (r : option range_result) : Prop :=
  match r with
  | None => False
  | Some (RANGE_MATCH q) => safe q = true /\ (length q <= length p)%nat
  | Some _ => True
  end.

Lemma range_ok_le p q r : (length q <= length p)%nat -> range_ok q r -> range_ok p r.
Proof. intros Hl. destruct r as [[]|]; simpl; try done. intros [? ?]. split; [done|lia]. Qed.

Lemma range_loop_total fuel : forall test negate p first ok,
  safe p = true -> (length p <= fuel)%nat -> range_ok p (range_loop flags fuel test negate p first ok).
Proof.
  induction fuel as [|fuel IH]; intros test negate p first ok Hp Hf;
    (destruct p as [|c p]; [done|]); [simpl in Hf; lia|].
  assert (Hgo : forall q r, read_ok q r -> (length q <= length (c :: p))%nat ->
    range_ok (c :: p) match r with
    | None => None
    | Some None => Some RANGE_ERROR
    | Some (Some (hit, rest)) => range_loop flags fuel test negate rest false (ok || hit)
    end).
  { intros q [[[hit rest]|]|] Hr Hq; [|done..]. destruct Hr as [Hr Hl]. simpl in Hf.
    apply (range_ok_le _ rest); [simpl in *; lia|]. apply IH; [done|]. simpl in *. lia. }
  cbn [range_loop]. destruct ((c =c "]"%char) && negb first) eqn:Hb.
  - apply andb_true_iff in Hb as [->%is_char_true _]. destruct (xorb ok negate); [|done].
    split; [by apply safe_tail in Hp|]. simpl. lia.
  - destruct (c =c NUL) eqn:Hc; [done|]. destruct ((c =c "/"%char) && pathname flags); [done|].
    destruct ((c =c "\"%char) && negb (noescape flags)) eqn:Hq.
    + apply andb_true_iff in Hq as [->%is_char_true Hn%negb_true_iff].
      destruct (safe_quote _ Hp Hn) as (d & p' & -> & Hd). apply safe_tail in Hp; [|done].
      apply (Hgo (d :: p')); [by apply range_char_total|simpl; lia].
    + pose proof (rangematch_cc_total (c :: p) test Hp) as Hcc.
      destruct (rangematch_cc (c :: p) test) as [[[hit rest]|]|]; [|by apply (Hgo (c :: p)), Nat.le_refl; apply range_char_total|done].
      apply (Hgo (c :: p) (Some (Some (hit, rest))) Hcc). done.
Qed.

Lemma rangematch_total p test : safe p = true -> range_ok p (rangematch flags p test).
Proof.
  intros Hp. unfold rangematch. destruct p as [|c p]; [done|].
  destruct ((c =c "!"%char) || (c =c "^"%char)) eqn:Hn; [|by apply range_loop_total].
  apply (range_ok_le _ p); [simpl; lia|]. apply range_loop_total; [|done].
  apply (safe_tail c); [done|]. apply orb_true_iff in Hn as [Hn|Hn]; apply is_char_true in Hn; by subst c.
Qed.

Lemma skip_stars_total p :
  safe p = true -> exists c q, skip_stars flags p = Some (c :: q) /\ safe (c :: q) = true /\ (length q < length p)%nat.
Proof.
  induction p as [|c p IH]; [done|]. intros Hp. cbn [skip_stars]. rewrite fold_special by done.
  destruct (c =c "*"%char) eqn:Hc; [|exists c, p; simpl; auto].
  apply is_char_true in Hc as ->. destruct (IH (safe_tail _ _ Hp eq_refl)) as (d & q & Hs & Hq & Hl).
  exists d, q. split; [done|]. split; [done|]. simpl. lia.
Qed.

Lemma strchr_found s : forall before b q, clean s ->
  strchr_slash before (s ++ [NUL]) = Some (Some (b, q)) -> exists t, q = t ++ [NUL] /\ clean t.
Proof.
  induction s as [|d s IH]; intros before b q Hs; [done|]. simpl.
  destruct (d =c "/"%char); [intros [= <- <-]; by exists (d :: s)|].
  apply Forall_cons in Hs as [Hd Hs]. rewrite Hd. by apply IH.
Qed.

Lemma star_loop_total f s : forall sc before,
  (forall b t, clean t -> exists r, f b (t ++ [NUL]) = Some r) -> clean s ->
  exists r, star_loop flags f sc before (s ++ [NUL]) = Some r.
Proof.
  induction s as [|d s IH]; intros sc before Hf Hs; cbn [app star_loop]; (destruct (sc =c NUL); [by eexists|]).
  - destruct (Hf before [] Hs) as [r Hr]. cbn [app] in Hr. rewrite Hr. destruct (r =? 0); [by eexists|].
    rewrite (fold_id flags NUL) by done. by eexists.
  - destruct (Hf before (d :: s) Hs) as [r Hr]. cbn [app] in Hr. rewrite Hr. destruct (r =? 0); [by eexists|].
    destruct ((foldcase flags d =c "/"%char) && pathname flags); [by eexists|].
    apply Forall_cons in Hs as [_ Hs]. by apply IH.
Qed.

Lemma fnm_loop_total recurse fuel : forall p before s,
  (forall q b t, safe q = true -> clean t -> exists r, recurse q b (t ++ [NUL]) = Some r) ->
  safe p = true -> clean s -> (length p <= fuel)%nat ->
  exists r, fnm_loop flags recurse fuel p before (s ++ [NUL]) = Some r.
Proof.
  induction fuel as [|fuel IH]; intros p before s Hrec Hp Hs Hf; (destruct p as [|c p]; [done|]); [simpl in Hf; lia|].
  simpl in Hf. destruct (s ++ [NUL]) as [|d s1] eqn:Hd; [by apply app_eq_nil in Hd as [_ ?]|].
  assert (Hs1 : (d =c NUL) = false -> exists t, s1 = t ++ [NUL] /\ clean t).
  { intros Hn. destruct s as [|d' s']; [by injection Hd as <- <-|]. injection Hd as <- <-.
    apply Forall_cons in Hs as [_ Hs]. by exists s'. }
  assert (Hnext : (d =c NUL) = false -> forall q, safe q = true -> (length q <= length p)%nat ->
    exists r, fnm_loop flags recurse fuel q (Some d) s1 = Some r).
  { intros (t & -> & Ht)%Hs1 q Hq Hl. apply IH; [done..|lia]. }
  assert (Hnorm : forall e q, (e =c NUL) = false -> safe q = true -> (length q <= length p)%nat ->
    exists r, (if negb (foldcase flags e =c foldcase flags d) then Some FNM_NOMATCH
               else fnm_loop flags recurse fuel q (Some d) s1) = Some r).
  { intros e q He Hq Hl. destruct (foldcase flags e =c foldcase flags d) eqn:Heq; simpl; [|by eexists].
    apply Hnext; try done. apply is_char_true in Heq. rewrite <- (fold_special flags d NUL), <- Heq by done.
    by rewrite fold_special. }
  cbn [fnm_loop]. rewrite (fold_special flags c NUL) by done. destruct (c =c NUL) eqn:Hc.
  { repeat case_match; by eexists. }
  pose proof (safe_tail c p Hp Hc) as Hp'.
  rewrite (fold_special flags c "?"%char), (fold_special flags d NUL) by done. destruct (c =c "?"%char).
  { destruct (d =c NUL); [by eexists|]. destruct ((foldcase flags d =c "/"%char) && _); [by eexists|].
    destruct (hidden_dot _ _ _); [by eexists|]. by apply Hnext. }
  rewrite (fold_special flags c "*"%char) by done. destruct (c =c "*"%char).
  { destruct (skip_stars_total p Hp') as (e & q & -> & Hq & Hl). rewrite <- Hd.
    pose proof (strchr_total s before Hs) as Ht. pose proof (strchr_found s before) as Hfound.
    destruct (hidden_dot _ _ _); [by eexists|].
    destruct (foldcase flags e =c NUL); [repeat case_match; first [done|by eexists]|].
    destruct ((foldcase flags e =c "/"%char) && _); [|apply star_loop_total; [|done]; intros b t Htc; by apply Hrec].
    destruct (strchr_slash before (s ++ [NUL])) as [[[b rest]|]|]; [|by eexists|done].
    destruct (Hfound b rest Hs eq_refl) as (t & -> & Htc). apply IH; [done..|simpl; lia]. }
  rewrite (fold_special flags c "["%char) by done. destruct (c =c "["%char).
  { destruct (d =c NUL) eqn:Hdn; [by eexists|]. destruct ((foldcase flags d =c "/"%char) && _); [by eexists|].
    destruct (hidden_dot _ _ _); [by eexists|].
    pose proof (rangematch_total p (foldcase flags d) Hp') as Hr.
    destruct (rangematch flags p (foldcase flags d)) as [[| |q]|]; [by apply Hnorm|by eexists| |done].
    destruct Hr as [Hq Hl]. by apply Hnext. }
  rewrite (fold_special flags c "\"%char) by done. destruct (c =c "\"%char) eqn:Hb; [|by apply Hnorm].
  apply is_char_true in Hb as ->. destruct (noescape flags) eqn:Hn; [by apply Hnorm|]. simpl negb. cbv iota.
  destruct (safe_quote p Hp Hn) as (e & q & -> & He). apply Hnorm; [done| |simpl; lia]. by apply safe_tail in Hp'.
Qed.

Lemma fnmatchx_total r : forall p before s,
  safe p = true -> clean s -> exists res, fnmatchx flags r p before (s ++ [NUL]) = Some res.
Proof.
  induction r as [|r IH]; intros p before s Hp Hs; [by eexists|]. by apply fnm_loop_total.
Qed.
End total.

(** C34: fnmatch ends and stays inside both strings for every pattern, valid or
    not, that does not end in a backslash (or with FNM_NOESCAPE), with any
    flags: it returns a result. *)
Theorem fnmatch_total (flags : Z) (pattern s : string) :
  safe flags (cstr pattern) = true -> no_nul s = true ->
  exists r, fnmatch flags (cstr pattern) (cstr s) = Some r.
Proof.
  intros Hp Hs. apply fnmatchx_total; [done|].
  apply Forall_forall. intros c Hc. unfold no_nul in Hs. rewrite forallb_forall in Hs.
  apply negb_true_iff, Hs. by apply list_elem_of_In.
Qed.

(** An unclosed bracket expression. *)
Lemma fnmatch_total_witness : exists r, fnmatch 0 (cstr "*[a-z[:alp") (cstr "x[a") = Some r.
Proof. by apply (fnmatch_total 0 "*[a-z[:alp" "x[a"). Defined.

(** A trailing backslash quotes the terminator: the call reads past the end
    of the pattern.  Letters in front of "xdigit" are accepted. *)
Lemma fnmatch_trailing_backslash :
  fnmatch 0 (cstr "\") (cstr EmptyString) = None /\ fnmatch 0 (cstr "[\") (cstr "a") = None.
Proof. by vm_compute. Qed.

Lemma fnmatch_class_prefix : fnmatch 0 (cstr "[[:nonxdigit:]]") (cstr "a") = Some 0.
Proof. by vm_compute. Qed.
