(* ===== verification/Text.v ===== *)
(** * Lines and numbers as text

    What system_database_priv.c, netdb_ent.c and the inet functions use of
    <stdio.h>, <stdlib.h> and <string.h>: fgets on a file that is the list of
    the characters not yet read, strchr and the cutting of a field in place,
    atoi, and the decimal conversion of printf. *)

From stdpp Require Import base list strings sets.
From Stdlib Require Import ZArith Lia Ascii.
From S2P Require Import Prelude CString.

Local Open Scope nat_scope.

Definition newline : ascii := ascii_of_nat 10.

(** ** fgets *)

(** Up to [n] characters of the file, a newline being the last; the line and
    what is left. *)
Fixpoint read_line (n : nat) (file : list ascii) : list ascii * list ascii :=
  match n, file with
  | O, _ | _, [] => ([], file)
  | S n', c :: file' =>
      if bool_decide (c = newline) then ([c], file')
      else let '(line, rest) := read_line n' file' in (c :: line, rest)
  end.

(** [fgets(buf, size, file)]; [None] is NULL, at the end of the file or for
    a size below 2 (as newlib has it).  Reading a file does not fail. *)
Definition fgets (buf : list ascii) (size : Z) (file : list ascii) : option (list ascii * list ascii) :=
  if (size <? 2)%Z then None
  else match file with
       | [] => None
       | _ => let '(line, rest) := read_line (Z.to_nat size - 1) file in
              Some (line ++ NUL :: drop (length line + 1) buf, rest)
       end.

Lemma read_line_all n line rest :
  newline ∉ line -> length line < n ->
  read_line n (line ++ newline :: rest) = (line ++ [newline], rest).
Proof.
  revert n. induction line as [|c line IH]; intros n Hn Hl; (destruct n as [|n]; [simpl in Hl; lia|]); simpl.
  - done.
  - apply not_elem_of_cons in Hn as [Hc Hn]. rewrite bool_decide_eq_false_2 by congruence.
    rewrite IH by (done || simpl in Hl; lia). done.
Qed.

Lemma fgets_line buf size line rest :
  newline ∉ line -> (Z.of_nat (length line) + 1 < size)%Z ->
  fgets buf size (line ++ newline :: rest) = Some (line ++ newline :: NUL :: drop (length line + 2) buf, rest).
Proof.
  intros Hn Hl. unfold fgets. ztests. destruct (line ++ newline :: rest) eqn:He.
  { by apply app_eq_nil in He as [_ ?]. }
  rewrite <- He, read_line_all by (done || lia). rewrite length_app. simpl.
  rewrite <- app_assoc. simpl. by replace (length line + 1 + 1) with (length line + 2) by lia.
Qed.

Lemma read_line_shorter n file line rest :
  read_line (S n) file = (line, rest) -> file <> [] -> length rest < length file.
Proof.
  revert n line. induction file as [|c file IH]; intros n line; [done|]. cbn [read_line].
  case_bool_decide; [intros [= <- <-] _; simpl; lia|].
  destruct (read_line n file) as [line' rest'] eqn:He. intros [= <- <-] _. destruct n as [|n].
  - destruct file; injection He as <- <-; simpl; lia.
  - destruct file as [|d file]; [injection He as <- <-; simpl; lia|].
    specialize (IH n line' He ltac:(done)). simpl in *. lia.
Qed.

Lemma fgets_shorter buf size file buf' rest :
  fgets buf size file = Some (buf', rest) -> length rest < length file.
Proof.
  unfold fgets. destruct (size <? 2)%Z eqn:Hs; [done|]. apply Z.ltb_ge in Hs.
  destruct file as [|c file]; [done|].
  destruct (read_line (Z.to_nat size - 1) (c :: file)) as [line r] eqn:He. intros [= <- <-].
  replace (Z.to_nat size - 1) with (S (Z.to_nat size - 2)) in He by lia. by eapply read_line_shorter.
Qed.

(** ** strchr and fields *)

(** The distance to the first [c], looking no further than the terminator;
    [None] is NULL. *)
Fixpoint strchr (s : list ascii) (c : ascii) : option nat :=
  match s with
  | [] => None
  | d :: s' =>
      if bool_decide (d = c) then Some 0
      else if bool_decide (d = NUL) then None
      else S <$> strchr s' c
  end.

(** The string at offset [p] of a buffer. *)
Fixpoint upto_nul (s : list ascii) : list ascii :=
  match s with
  | [] => []
  | d :: s' => if bool_decide (d = NUL) then [] else d :: upto_nul s'
  end.
Definition str_at (buf : list ascii) (p : nat) : list ascii := upto_nul (drop p buf).

(** [q = strchr(p, c); *q = 0]: the buffer after it, and [q]. *)
Definition cut (buf : list ascii) (p : nat) (c : ascii) : option (list ascii * nat) :=
  match strchr (drop p buf) c with
  | None => None
  | Some k => Some (<[p + k := NUL]> buf, p + k)
  end.

Lemma strchr_app f c rest :
  c ∉ f -> NUL ∉ f -> strchr (f ++ c :: rest) c = Some (length f).
Proof.
  induction f as [|d f IH]; intros Hc Hn; simpl; [by rewrite bool_decide_eq_true_2|].
  apply not_elem_of_cons in Hc as [Hdc Hc]. apply not_elem_of_cons in Hn as [Hdn Hn].
  rewrite !bool_decide_eq_false_2 by congruence. by rewrite IH.
Qed.

Lemma strchr_none f c rest :
  c ∉ f -> c <> NUL -> strchr (f ++ NUL :: rest) c = None.
Proof.
  intros Hc Hn. induction f as [|d f IH]; simpl.
  - rewrite bool_decide_eq_false_2 by congruence. done.
  - apply not_elem_of_cons in Hc as [Hdc Hc]. rewrite bool_decide_eq_false_2 by congruence.
    case_bool_decide; [done|]. by rewrite IH.
Qed.

Lemma upto_nul_app f rest : NUL ∉ f -> upto_nul (f ++ NUL :: rest) = f.
Proof.
  induction f as [|d f IH]; intros Hn; simpl; [done|].
  apply not_elem_of_cons in Hn as [Hd Hn]. rewrite bool_decide_eq_false_2 by congruence. by rewrite IH.
Qed.

Lemma str_at_app pre f post p : p = length pre -> NUL ∉ f -> str_at (pre ++ f ++ NUL :: post) p = f.
Proof. intros -> Hn. unfold str_at. rewrite drop_app_length. by apply upto_nul_app. Qed.

Lemma cut_app pre f c post p :
  p = length pre -> c ∉ f -> NUL ∉ f ->
  cut (pre ++ f ++ c :: post) p c = Some (pre ++ f ++ NUL :: post, p + length f).
Proof.
  intros -> Hc Hn. unfold cut. rewrite drop_app_length, strchr_app by done.
  rewrite insert_app_r, insert_app_r_alt by lia. by rewrite Nat.sub_diag.
Qed.

(** Regrouping a buffer, and the length of its front. *)
Ltac bufeq := repeat first [progress simpl | rewrite <- app_assoc]; reflexivity.
Ltac buflen := repeat first [progress simpl | rewrite length_app]; lia.

Lemma cut_at pre f c post buf p :
  buf = pre ++ f ++ c :: post -> p = length pre -> c ∉ f -> NUL ∉ f ->
  cut buf p c = Some (pre ++ f ++ NUL :: post, p + length f).
Proof. intros ->. apply cut_app. Qed.

Lemma str_at_pre pre f post buf p :
  buf = pre ++ f ++ NUL :: post -> p = length pre -> NUL ∉ f -> str_at buf p = f.
Proof. intros ->. apply str_at_app. Qed.

(** ** Numbers *)

Definition digit_char (d : Z) : ascii := ascii_of_nat (Z.to_nat (48 + d)).
Definition digit_val (c : ascii) : Z := (Z.of_nat (code c) - 48)%Z.

Fixpoint digits_val (s : list ascii) (acc : Z) : Z :=
  match s with
  | c :: s' => if isdigit c then digits_val s' (10 * acc + digit_val c) else acc
  | [] => acc
  end%Z.

Fixpoint skip_space (s : list ascii) : list ascii :=
  match s with
  | c :: s' => if isspace c then skip_space s' else s
  | [] => []
  end.

(** [atoi]; the behaviour for a value out of the range of int is not defined
    by C, it wraps around here. *)
Definition atoi (s : list ascii) : Z :=
  match skip_space s with
  | [] => 0%Z
  | c :: s' =>
      swrap 32 (if bool_decide (c = "-"%char) then - digits_val s' 0
                else if bool_decide (c = "+"%char) then digits_val s' 0
                else digits_val (c :: s') 0)%Z
  end.

(** The digits of a number in reverse, [fuel] more than there are. *)
Fixpoint rev_dec (fuel : nat) (n : Z) : list ascii :=
  match fuel with
  | O => []
  | S f => digit_char (n mod 10) :: if (n <? 10)%Z then [] else rev_dec f (n / 10)
  end.
(** What printf writes for [%u] (up to 20 digits). *)
Definition dec (n : Z) : list ascii := rev (rev_dec 20 n).

Lemma digit_char_spec d : (0 <= d < 10)%Z -> isdigit (digit_char d) = true /\ digit_val (digit_char d) = d.
Proof.
  intros Hd. assert (d ∈ [0; 1; 2; 3; 4; 5; 6; 7; 8; 9]%Z) as Hin by (rewrite !elem_of_cons; lia).
  rewrite !elem_of_cons, elem_of_nil in Hin.
  repeat destruct Hin as [->|Hin]; done.
Qed.

Lemma digits_val_app s t acc :
  forallb isdigit s = true -> digits_val (s ++ t) acc = digits_val t (digits_val s acc).
Proof.
  revert acc. induction s as [|c s IH]; intros acc Hs; simpl; [done|].
  simpl in Hs. apply andb_true_iff in Hs as [Hc Hs]. rewrite Hc. by apply IH.
Qed.

Lemma rev_dec_spec fuel : forall n,
  (0 <= n < 10 ^ Z.of_nat fuel)%Z ->
  forallb isdigit (rev (rev_dec fuel n)) = true /\ digits_val (rev (rev_dec fuel n)) 0 = n /\
  (1 <= fuel -> rev_dec fuel n <> []).
Proof.
  induction fuel as [|fuel IH]; intros n Hn; [simpl; split; [done|]; simpl in Hn; lia|].
  rewrite Nat2Z.inj_succ, Z.pow_succ_r in Hn by lia. cbn [rev_dec].
  destruct (digit_char_spec (n mod 10) ltac:(apply Z.mod_pos_bound; lia)) as [Hd Hv].
  destruct (Z.ltb_spec n 10) as [Hlt|Hge].
  - simpl. rewrite Hd, Hv. split; [done|]. split; [|done]. rewrite Z.mod_small by lia. lia.
  - cbn [rev]. destruct (IH (n / 10)%Z) as (Hall & Hval & _).
    { split; [apply Z.div_pos; lia|]. apply Z.div_lt_upper_bound; lia. }
    rewrite forallb_app, Hall. simpl. rewrite Hd. split; [done|]. split; [|done].
    rewrite digits_val_app by done. rewrite Hval. simpl. rewrite Hd, Hv. pose proof (Z.div_mod n 10). lia.
Qed.

Lemma dec_digits n : (0 <= n < 10 ^ 20)%Z -> forallb isdigit (dec n) = true /\ digits_val (dec n) 0 = n /\ dec n <> [].
Proof.
  intros Hn. destruct (rev_dec_spec 20 n Hn) as (Hd & Hv & Hne). split; [done|]. split; [done|].
  unfold dec. intros He. apply (f_equal (@rev ascii)) in He. rewrite rev_involutive in He. by apply Hne; [lia|].
Qed.

Lemma digit_not c d : isdigit c = true -> isdigit d = false -> c <> d.
Proof. intros Hc Hd ->. congruence. Qed.

Lemma digits_no s d : forallb isdigit s = true -> isdigit d = false -> d ∉ s.
Proof.
  intros Hs Hd Hin. rewrite forallb_forall in Hs. apply list_elem_of_In in Hin.
  rewrite (Hs d Hin) in Hd. done.
Qed.

Lemma isspace_digit c : isdigit c = true -> isspace c = false.
Proof.
  intros H. pose proof (ascii_forall (fun c => negb (isdigit c) || negb (isspace c)) eq_refl c) as Hc.
  simpl in Hc. rewrite H in Hc. by apply negb_true_iff.
Qed.

Lemma atoi_dec n : (0 <= n < 2147483648)%Z -> atoi (dec n) = n.
Proof.
  intros Hn. destruct (dec_digits n) as (Hd & Hv & Hne); [split; [lia|]; etrans; [apply Hn|]; done|].
  unfold atoi. destruct (dec n) as [|c s]; [done|]. simpl in Hd. apply andb_true_iff in Hd as [Hc Hs].
  cbn [skip_space]. rewrite isspace_digit by done.
  rewrite !bool_decide_eq_false_2 by (by apply digit_not). rewrite Hv. apply swrap32_id. lia.
Qed.
