(* ===== verification/SysDb.v ===== *)
(** * The group and user databases

    options/system_database_r/system_database_priv.c with its callers
    system_database_r.c and system_database.c.  The caller's buffer is a list
    of characters; the string pointers of an entry are offsets into it, and
    what the entry says is read from the buffer after the call. *)

From stdpp Require Import base list strings sets.
From Stdlib Require Import ZArith Lia Ascii.
From S2P Require Import Prelude CString Text.

Local Open Scope nat_scope.

(** [struct group]; gr_mem is the offset of the array in the buffer and its
    cells, NULL being [None]. *)
Record group := mk_group {
  gr_name : option nat;
  gr_passwd : option nat;
  gr_gid : Z;
  gr_mem : option (Z * list (option nat));
}.

Record passwd := mk_passwd {
  pw_name : option nat;
  pw_passwd : option nat;
  pw_uid : Z;
  pw_gid : Z;
  pw_comment : option nat;
  pw_gecos : option nat;
  pw_dir : option nat;
  pw_shell : option nat;
}.

(** *result after a call. *)
Inductive out_ptr := Untouched | Null | Entry.

Definition colon : ascii := ":"%char.
Definition comma : ascii := ","%char.

(** gid_t and uid_t are unsigned short. *)
Definition id_none : Z := 65535.
Definition to_id (z : Z) : Z := uwrap 16 z.

(** [count(s, c)] *)
Fixpoint count (s : list ascii) (c : ascii) : nat :=
  match s with
  | [] => 0
  | d :: s' =>
      if bool_decide (d = NUL) then 0
      else (if bool_decide (d = c) then 1 else 0) + count s' c
  end.

(** One turn of the loop over the lines: the entry and the buffer after it,
    and whether the loop goes on. *)
Inductive verdict := Skip | Found | Erange.

Section lookup.
Context {E : Type} (parse_line : E -> list ascii -> E * list ascii * verdict).
Context (size : Z).

Fixpoint db_loop (fuel : nat) (e : E) (buf file : list ascii) : res unit * E * list ascii * out_ptr :=
  match fuel with
  | O => (Ok tt, e, buf, Null)
  | S fuel' =>
      match fgets buf size file with
      | None => (Ok tt, e, buf, Null)
      | Some (buf1, file1) =>
          match parse_line e buf1 with
          | (e', buf2, Skip) => db_loop fuel' e' buf2 file1
          | (e', buf2, Found) => (Ok tt, e', buf2, Entry)
          | (e', buf2, Erange) => (Err ERANGE, e', buf2, Untouched)
          end
      end
  end.
End lookup.

(** ** Groups *)
Section group_lookup.
(** sizeof(char * ) and the address of the buffer. *)
Context (ptr : Z) (base : Z) (bufsize : Z).
Context (name : option string) (gid : Z).

(** The loop that fills gr_mem: the buffer and the cells. *)
Fixpoint members_loop (n : nat) (buf : list ascii) (p : nat) : list ascii * list (option nat) :=
  match n with
  | O => (buf, [])
  | S n' =>
      match cut buf p comma with
      | None => (buf, [Some p])
      | Some (buf', q) => let '(b, cells) := members_loop n' buf' (q + 1) in (b, Some p :: cells)
      end
  end.

Definition ROUND_UP (x align : Z) : Z := ((x + align - 1) / align * align)%Z.

Definition min_size (q nmemb : nat) : Z :=
  swrap 32 (Z.of_nat q + 1 + Z.of_nat nmemb * ptr + 32).

(** The end of the line of an entry that is wanted: the members. *)
Definition parse_members (grp : group) (buf : list ascii) (p : nat) : group * list ascii * verdict :=
  match cut buf p newline with
  | None => (grp, buf, Erange)
  | Some (buf1, q) =>
      let nmemb := if p =? q then 0 else 1 + count (drop p buf1) comma in
      if (bufsize <? uwrap (8 * ptr) (min_size q nmemb))%Z then (grp, buf1, Erange)
      else
        let at_ := (ROUND_UP (base + Z.of_nat q + 1) 16 - base)%Z in
        let '(buf2, cells) := members_loop nmemb buf1 p in
        (mk_group (gr_name grp) (gr_passwd grp) (gr_gid grp) (Some (at_, cells ++ [None])), buf2, Found)
  end.

Definition parse_group (grp : group) (buf : list ascii) : group * list ascii * verdict :=
  if bool_decide (head buf = Some NUL) then (grp, buf, Erange)
  else if bool_decide (head buf = Some newline) then (grp, buf, Skip)
  else
    match cut buf 0 colon with
    | None => (grp, buf, Erange)
    | Some (buf1, q) =>
        if negb (bool_decide (name = None)) && negb (bool_decide (Some (str_at buf1 0) = chars <$> name))
        then (grp, buf1, Skip)
        else
          let grp1 := mk_group (Some 0) (gr_passwd grp) (gr_gid grp) (gr_mem grp) in
          let p := q + 1 in
          match cut buf1 p colon with
          | None => (grp1, buf1, Erange)
          | Some (buf2, q) =>
              let grp2 := mk_group (Some 0) (Some p) (gr_gid grp) (gr_mem grp) in
              let p2 := q + 1 in
              match cut buf2 p2 colon with
              | None => (grp2, buf2, Erange)
              | Some (buf3, q) =>
                  if bool_decide (name = None) && negb (atoi (str_at buf3 p2) =? gid)%Z
                  then (grp2, buf3, Skip)
                  else
                    parse_members
                      (mk_group (Some 0) (Some p) (to_id (atoi (str_at buf3 p2))) (gr_mem grp)) buf3 (q + 1)
              end
          end
    end.

(** [args] is whether grp and buffer are not NULL, [result] whether result is
    not; [file] is /etc/group, [None] when it cannot be opened. *)
Definition z_getgr_r (args result : bool) (file : option (list ascii)) (grp : group) (buf : list ascii)
  : res unit * group * list ascii * out_ptr :=
  if (bool_decide (name = None) && (gid =? id_none)%Z) || negb args || negb result then
    (Err EINVAL, grp, buf, if result then Null else Untouched)
  else if (bufsize <? 2)%Z then (Err ERANGE, grp, buf, Untouched)
  else
    match file with
    | None => (Err EIO, grp, buf, Untouched)
    | Some text => db_loop parse_group (swrap 32 bufsize) (length text) grp buf text
    end.
End group_lookup.

(** ** Users *)
Section user_lookup.
Context (bufsize : Z) (name : option string) (uid : Z).

Definition set_pw_name v p :=
  mk_passwd v (pw_passwd p) (pw_uid p) (pw_gid p) (pw_comment p) (pw_gecos p) (pw_dir p) (pw_shell p).
Definition set_pw_passwd v p :=
  mk_passwd (pw_name p) v (pw_uid p) (pw_gid p) (pw_comment p) (pw_gecos p) (pw_dir p) (pw_shell p).
Definition set_pw_uid v p :=
  mk_passwd (pw_name p) (pw_passwd p) v (pw_gid p) (pw_comment p) (pw_gecos p) (pw_dir p) (pw_shell p).
Definition set_pw_gid v p :=
  mk_passwd (pw_name p) (pw_passwd p) (pw_uid p) v (pw_comment p) (pw_gecos p) (pw_dir p) (pw_shell p).
Definition set_pw_gecos v p :=
  mk_passwd (pw_name p) (pw_passwd p) (pw_uid p) (pw_gid p) None v (pw_dir p) (pw_shell p).
Definition set_pw_dir v p :=
  mk_passwd (pw_name p) (pw_passwd p) (pw_uid p) (pw_gid p) (pw_comment p) (pw_gecos p) v (pw_shell p).
Definition set_pw_shell v p :=
  mk_passwd (pw_name p) (pw_passwd p) (pw_uid p) (pw_gid p) (pw_comment p) (pw_gecos p) (pw_dir p) v.

(** The fields behind the uid of a line that is wanted. *)
Definition parse_user_rest (pwd : passwd) (buf : list ascii) (p : nat) : passwd * list ascii * verdict :=
  match cut buf p colon with
  | None => (pwd, buf, Erange)
  | Some (buf, q) =>
      let pwd := set_pw_gid (to_id (atoi (str_at buf p))) pwd in
      let p := q + 1 in
      match cut buf p colon with
      | None => (pwd, buf, Erange)
      | Some (buf, q) =>
          let pwd := set_pw_gecos (Some p) pwd in
          let p := q + 1 in
          match cut buf p colon with
          | None => (pwd, buf, Erange)
          | Some (buf, q) =>
              let pwd := set_pw_dir (Some p) pwd in
              let p := q + 1 in
              match cut buf p newline with
              | None => (pwd, buf, Erange)
              | Some (buf, q) => (set_pw_shell (Some p) pwd, buf, Found)
              end
          end
      end
  end.

Definition parse_user (pwd : passwd) (buf : list ascii) : passwd * list ascii * verdict :=
  if bool_decide (head buf = Some NUL) then (pwd, buf, Erange)
  else if bool_decide (head buf = Some newline) then (pwd, buf, Skip)
  else
    match cut buf 0 colon with
    | None => (pwd, buf, Erange)
    | Some (buf, q) =>
        if negb (bool_decide (name = None)) && negb (bool_decide (Some (str_at buf 0) = chars <$> name))
        then (pwd, buf, Skip)
        else
          let pwd := set_pw_name (Some 0) pwd in
          let p := q + 1 in
          match cut buf p colon with
          | None => (pwd, buf, Erange)
          | Some (buf, q) =>
              let pwd := set_pw_passwd (Some p) pwd in
              let p := q + 1 in
              match cut buf p colon with
              | None => (pwd, buf, Erange)
              | Some (buf, q) =>
                  if bool_decide (name = None) && negb (atoi (str_at buf p) =? uid)%Z
                  then (pwd, buf, Skip)
                  else parse_user_rest (set_pw_uid (to_id (atoi (str_at buf p))) pwd) buf (q + 1)
              end
          end
    end.

Definition z_getpw_r (args result : bool) (file : option (list ascii)) (pwd : passwd) (buf : list ascii)
  : res unit * passwd * list ascii * out_ptr :=
  if (bool_decide (name = None) && (uid =? id_none)%Z) || negb args || negb result then
    (Err EINVAL, pwd, buf, if result then Null else Untouched)
  else if (bufsize <? 2)%Z then (Err ERANGE, pwd, buf, Untouched)
  else
    match file with
    | None => (Err EIO, pwd, buf, Untouched)
    | Some text => db_loop parse_user (swrap 32 bufsize) (length text) pwd buf text
    end.
End user_lookup.

(** ** The public functions *)

Definition getgrnam_r (ptr base bufsize : Z) (name : option string) :=
  z_getgr_r ptr base bufsize name id_none.
Definition getgrgid_r (ptr base bufsize : Z) (gid : Z) := z_getgr_r ptr base bufsize None gid.
Definition getpwnam_r (bufsize : Z) (name : option string) := z_getpw_r bufsize name id_none.
Definition getpwuid_r (bufsize : Z) (uid : Z) := z_getpw_r bufsize None uid.

(** The static entry and line buffer of system_database.c. *)
Record sys_state := mk_sys {
  gr : group;
  gr_line_buf : list ascii;
  pw : passwd;
  pw_line_buf : list ascii;
}.

(** The pointer that is returned: the local [result], which nothing has
    initialised when the lookup left it alone. *)
Definition returned (ret : res unit) (out : out_ptr) : res bool :=
  match ret with
  | Err e => Err e
  | Ok _ => Ok (match out with Entry => true | _ => false end)
  end.

Definition getgrgid (ptr base : Z) (file : option (list ascii)) (gid : Z) (st : sys_state) : res bool * sys_state :=
  let '(ret, g, b, out) :=
    z_getgr_r ptr base (Z.of_nat (length (gr_line_buf st))) None gid true true file (gr st) (gr_line_buf st) in
  (returned ret out, mk_sys g b (pw st) (pw_line_buf st)).

Definition getgrnam (ptr base : Z) (file : option (list ascii)) (name : option string) (st : sys_state)
  : res bool * sys_state :=
  match name with
  | None => (Ok false, st)
  | Some _ =>
      let '(ret, g, b, out) :=
        z_getgr_r ptr base (Z.of_nat (length (gr_line_buf st))) name id_none true true file (gr st) (gr_line_buf st) in
      (returned ret out, mk_sys g b (pw st) (pw_line_buf st))
  end.

Definition getpwnam (file : option (list ascii)) (name : option string) (st : sys_state) : res bool * sys_state :=
  match name with
  | None => (Ok false, st)
  | Some _ =>
      let '(ret, p, b, out) :=
        z_getpw_r (Z.of_nat (length (pw_line_buf st))) name id_none true true file (pw st) (pw_line_buf st) in
      (returned ret out, mk_sys (gr st) (gr_line_buf st) p b)
  end.

Definition getpwuid (file : option (list ascii)) (uid : Z) (st : sys_state) : res bool * sys_state :=
  let '(ret, p, b, out) :=
    z_getpw_r (Z.of_nat (length (pw_line_buf st))) None uid true true file (pw st) (pw_line_buf st) in
  (returned ret out, mk_sys (gr st) (gr_line_buf st) p b).

(** ** Database files *)

(** A line of /etc/group. *)
Record gr_line := mk_gr_line {
  g_name : list ascii;
  g_pass : list ascii;
  g_id : Z;
  g_mem : list (list ascii);
}.

Fixpoint join (sep : ascii) (ms : list (list ascii)) : list ascii :=
  match ms with
  | [] => []
  | [m] => m
  | m :: ms' => m ++ sep :: join sep ms'
  end.

Definition print_gr (e : gr_line) : list ascii :=
  g_name e ++ colon :: g_pass e ++ colon :: dec (g_id e) ++ colon :: join comma (g_mem e).

Definition field_ok (f : list ascii) : bool :=
  bool_decide (colon ∉ f) && bool_decide (NUL ∉ f) && bool_decide (newline ∉ f).

Definition member_ok (m : list ascii) : bool :=
  negb (bool_decide (m = [])) && bool_decide (comma ∉ m) && bool_decide (NUL ∉ m) && bool_decide (newline ∉ m).

Definition gr_ok (e : gr_line) : bool :=
  field_ok (g_name e) && field_ok (g_pass e) && (0 <=? g_id e)%Z && (g_id e <? 65536)%Z &&
  forallb member_ok (g_mem e).

(** A line of /etc/passwd. *)
Record pw_line := mk_pw_line {
  u_name : list ascii;
  u_pass : list ascii;
  u_id : Z;
  u_gid : Z;
  u_gecos : list ascii;
  u_dir : list ascii;
  u_shell : list ascii;
}.

Definition print_pw (e : pw_line) : list ascii :=
  u_name e ++ colon :: u_pass e ++ colon :: dec (u_id e) ++ colon :: dec (u_gid e) ++ colon ::
  u_gecos e ++ colon :: u_dir e ++ colon :: u_shell e.

Definition pw_ok (e : pw_line) : bool :=
  field_ok (u_name e) && field_ok (u_pass e) && (0 <=? u_id e)%Z && (u_id e <? 65536)%Z &&
  (0 <=? u_gid e)%Z && (u_gid e <? 65536)%Z &&
  field_ok (u_gecos e) && field_ok (u_dir e) && bool_decide (NUL ∉ u_shell e) && bool_decide (newline ∉ u_shell e).

Definition print_file {L} (print : L -> list ascii) (lines : list L) : list ascii :=
  lines ≫= fun l => print l ++ [newline].

(** Whether a line with this name and number is the one that is looked for. *)
Definition wanted (name : option string) (id : Z) (lname : list ascii) (lid : Z) : bool :=
  match name with
  | Some n => bool_decide (lname = chars n)
  | None => (lid =? id)%Z
  end.

Lemma field_ok_spec f : field_ok f = true -> (colon ∉ f) /\ (NUL ∉ f) /\ (newline ∉ f).
Proof.
  unfold field_ok. rewrite !andb_true_iff. intros [[?%bool_decide_eq_true_1 ?%bool_decide_eq_true_1]
    ?%bool_decide_eq_true_1]. done.
Qed.

Lemma dec_field n : (0 <= n < 65536)%Z -> field_ok (dec n) = true.
Proof.
  intros Hn. destruct (dec_digits n) as (Hd & _ & _); [split; [lia|]; etrans; [apply Hn|]; done|].
  unfold field_ok. rewrite !bool_decide_eq_true_2 by (by apply digits_no). done.
Qed.

Lemma head_ok n rest :
  field_ok n = true -> head (n ++ colon :: rest) <> Some NUL /\ head (n ++ colon :: rest) <> Some newline.
Proof.
  intros (_ & Hn & Hl)%field_ok_spec. destruct n as [|c n]; [done|]. simpl.
  apply not_elem_of_cons in Hn as [? _]. apply not_elem_of_cons in Hl as [? _]. split; congruence.
Qed.

(** The first line that is wanted decides; the lines are short enough for
    the buffer to hold them whole. *)
Section db.
Context {E L : Type} (parse_line : E -> list ascii -> E * list ascii * verdict).
Context (print : L -> list ascii) (ok want : L -> bool).
Context (size : Z).

Definition line_fits (l : L) : Prop :=
  ok l = true /\ (newline ∉ print l) /\ (Z.of_nat (length (print l)) + 1 < size)%Z.

(** What the parser does with a line: it skips it unless it is wanted. *)
Context (Hskip : forall e l junk, line_fits l -> want l = false ->
  exists e' buf', parse_line e (print l ++ newline :: NUL :: junk) = (e', buf', Skip)).

Lemma db_loop_find lines l rest : forall fuel e buf,
  Forall line_fits (lines ++ [l]) -> Forall (fun x => want x = false) lines -> want l = true ->
  length (print_file print (lines ++ l :: rest)) <= fuel ->
  exists e' junk fuel', 
    db_loop parse_line size fuel e buf (print_file print (lines ++ l :: rest)) =
    match parse_line e' (print l ++ newline :: NUL :: junk) with
    | (e2, buf2, Skip) => db_loop parse_line size fuel' e2 buf2 (print_file print rest)
    | (e2, buf2, Found) => (Ok tt, e2, buf2, Entry)
    | (e2, buf2, Erange) => (Err ERANGE, e2, buf2, Untouched)
    end.
Proof.
  induction lines as [|l0 lines IH]; intros fuel e buf Hfit Hno Hl Hfuel; simpl app in *;
    unfold print_file in *; rewrite bind_cons in *; rewrite <- app_assoc in *;
    apply Forall_cons in Hfit as [Hfit0 Hfit]; pose proof Hfit0 as (_ & Hnl & Hlen);
    (destruct fuel as [|fuel]; [rewrite !length_app in Hfuel; simpl in Hfuel; lia|]);
    cbn [db_loop app]; rewrite fgets_line by done.
  - by exists e, (drop (length (print l) + 2) buf), fuel.
  - apply Forall_cons in Hno as [Hno0 Hno].
    destruct (Hskip e l0 (drop (length (print l0) + 2) buf) Hfit0 Hno0) as (e' & buf' & ->).
    apply IH; try done. rewrite !length_app in Hfuel. simpl in Hfuel. lia.
Qed.

Lemma db_loop_none lines : forall fuel e buf,
  Forall line_fits lines -> Forall (fun x => want x = false) lines ->
  exists e' buf', db_loop parse_line size fuel e buf (print_file print lines) = (Ok tt, e', buf', Null).
Proof.
  induction lines as [|l0 lines IH]; intros fuel e buf Hfit Hno.
  - destruct fuel; simpl; [eauto|]. unfold fgets, print_file. simpl. destruct (size <? 2)%Z; eauto.
  - destruct fuel as [|fuel]; [simpl; eauto|].
    apply Forall_cons in Hfit as [Hfit0 Hfit]. apply Forall_cons in Hno as [Hno0 Hno]. pose proof Hfit0 as (_ & Hnl & Hlen).
    unfold print_file. rewrite bind_cons, <- app_assoc. cbn [db_loop app]. rewrite fgets_line by done.
    destruct (Hskip e l0 (drop (length (print l0) + 2) buf) Hfit0 Hno0) as (e' & buf' & ->). by apply IH.
Qed.
End db.

Lemma gr_ok_spec e :
  gr_ok e = true ->
  field_ok (g_name e) = true /\ field_ok (g_pass e) = true /\ (0 <= g_id e < 65536)%Z /\
  field_ok (dec (g_id e)) = true /\ Forall (fun m => member_ok m = true) (g_mem e).
Proof.
  unfold gr_ok. rewrite !andb_true_iff. intros ((((? & ?) & ?%Z.leb_le) & ?%Z.ltb_lt) & Hm).
  rewrite forallb_forall in Hm. do 2 (split; [done|]). split; [done|]. split; [by apply dec_field|].
  apply Forall_forall. intros m Hin. apply Hm. by apply list_elem_of_In.
Qed.

(** The test of the name. *)
Lemma name_test name n :
  negb (bool_decide (name = None)) && negb (bool_decide (Some n = chars <$> name)) =
    match name with Some s => negb (bool_decide (n = chars s)) | None => false end.
Proof.
  destruct name as [s|]; simpl; [|done]. f_equal. apply bool_decide_ext. split; [by intros [=]|by intros ->].
Qed.

Section groups.
Context (ptr base bufsize : Z) (name : option string) (gid : Z).

(** The buffer when the name, the password and the number are cut. *)
Definition cut_gr (e : gr_line) (rest : list ascii) : list ascii :=
  (g_name e ++ NUL :: g_pass e ++ NUL :: dec (g_id e) ++ [NUL]) ++ rest.
Definition pass_at (e : gr_line) : nat := length (g_name e) + 1.
Definition mem_at (e : gr_line) : nat := pass_at e + length (g_pass e) + 1 + length (dec (g_id e)) + 1.

Lemma parse_group_line grp e rest :
  gr_ok e = true ->
  (wanted name gid (g_name e) (g_id e) = false ->
   exists grp' buf', parse_group ptr base bufsize name gid grp (print_gr e ++ rest) = (grp', buf', Skip)) /\
  (wanted name gid (g_name e) (g_id e) = true ->
   parse_group ptr base bufsize name gid grp (print_gr e ++ rest) =
     parse_members ptr base bufsize (mk_group (Some 0) (Some (pass_at e)) (g_id e) (gr_mem grp))
       (cut_gr e (join comma (g_mem e) ++ rest)) (mem_at e)).
Proof.
  intros (Hn & Hp & Hid & Hd & _)%gr_ok_spec.
  pose proof (head_ok (g_name e) (g_pass e ++ colon :: dec (g_id e) ++ colon :: join comma (g_mem e) ++ rest) Hn) as [Hh1 Hh2].
  apply field_ok_spec in Hn as (Hn1 & Hn2 & _), Hp as (Hp1 & Hp2 & _), Hd as (Hd1 & Hd2 & _).
  assert (Hbuf : print_gr e ++ rest =
    g_name e ++ colon :: g_pass e ++ colon :: dec (g_id e) ++ colon :: join comma (g_mem e) ++ rest)
    by (unfold print_gr; bufeq).
  unfold parse_group. rewrite Hbuf, !(bool_decide_eq_false_2 (head _ = _)) by done.
  rewrite (cut_at [] (g_name e) colon (g_pass e ++ colon :: dec (g_id e) ++ colon :: join comma (g_mem e) ++ rest))
    by (done || bufeq || buflen). cbv beta iota.
  rewrite (str_at_pre [] (g_name e) (g_pass e ++ colon :: dec (g_id e) ++ colon :: join comma (g_mem e) ++ rest)), name_test
    by (done || bufeq || buflen).
  rewrite (cut_at (g_name e ++ [NUL]) (g_pass e) colon (dec (g_id e) ++ colon :: join comma (g_mem e) ++ rest))
    by (done || bufeq || buflen).
  rewrite (cut_at (g_name e ++ NUL :: g_pass e ++ [NUL]) (dec (g_id e)) colon (join comma (g_mem e) ++ rest))
    by (done || bufeq || buflen).
  rewrite (str_at_pre (g_name e ++ NUL :: g_pass e ++ [NUL]) (dec (g_id e)) (join comma (g_mem e) ++ rest))
    by (done || bufeq || buflen).
  rewrite atoi_dec by lia. unfold to_id. rewrite uwrap_id by (unfold in_u; apply andb_true_iff; lia).
  assert (Hfin : forall g, parse_members ptr base bufsize g
      ((g_name e ++ NUL :: g_pass e ++ [NUL]) ++ dec (g_id e) ++ NUL :: join comma (g_mem e) ++ rest)
      (length (g_name e) + 1 + length (g_pass e) + 1 + length (dec (g_id e)) + 1) =
    parse_members ptr base bufsize g (cut_gr e (join comma (g_mem e) ++ rest)) (mem_at e)).
  { intros g. unfold cut_gr, mem_at, pass_at. f_equal. bufeq. }
  unfold wanted. destruct name as [s|]; simpl bool_decide.
  - case_bool_decide as Hs; split; try done; intros _; simpl; [|by eexists _, _].
    apply Hfin.
  - destruct (g_id e =? gid)%Z; split; try done; intros _; [|by eexists _, _]. simpl. apply Hfin.
Qed.

Lemma member_ok_spec m : member_ok m = true -> m <> [] /\ (comma ∉ m) /\ (NUL ∉ m) /\ (newline ∉ m).
Proof.
  unfold member_ok. rewrite !andb_true_iff. intros [[[?%negb_true_iff%bool_decide_eq_false_1
    ?%bool_decide_eq_true_1] ?%bool_decide_eq_true_1] ?%bool_decide_eq_true_1]. done.
Qed.

(** Where the members start. *)
Fixpoint offsets (p : nat) (ms : list (list ascii)) : list nat :=
  match ms with [] => [] | m :: ms' => p :: offsets (p + length m + 1) ms' end.

Lemma join_cons sep m m' ms : join sep (m :: m' :: ms) = m ++ sep :: join sep (m' :: ms).
Proof. done. Qed.

Lemma members_loop_spec ms : forall pre post,
  Forall (fun m => member_ok m = true) ms -> ms <> [] ->
  members_loop (length ms) (pre ++ join comma ms ++ NUL :: post) (length pre) =
    (pre ++ join NUL ms ++ NUL :: post, Some <$> offsets (length pre) ms).
Proof.
  induction ms as [|m ms IH]; intros pre post Hok Hne; [done|].
  apply Forall_cons in Hok as [Hm Hok]. apply member_ok_spec in Hm as (_ & Hc & Hn & _). destruct ms as [|m' ms].
  - cbn [length members_loop join]. unfold cut. rewrite drop_app_length, strchr_none by done. done.
  - change (length (m :: m' :: ms)) with (S (length (m' :: ms))). cbn [members_loop].
    rewrite join_cons, <- app_assoc. cbn [app].
    rewrite cut_app by done.
    assert (Hp : length pre + length m + 1 = length (pre ++ m ++ [NUL])) by (rewrite !length_app; simpl; lia).
    rewrite Hp. replace (pre ++ m ++ NUL :: join comma (m' :: ms) ++ NUL :: post)
      with ((pre ++ m ++ [NUL]) ++ join comma (m' :: ms) ++ NUL :: post) by (rewrite <- !app_assoc; done).
    rewrite IH by done.
    rewrite join_cons, <- Hp. f_equal. rewrite <- !app_assoc. done.
Qed.

Lemma members_read ms : forall pre post,
  Forall (fun m => member_ok m = true) ms ->
  str_at (pre ++ join NUL ms ++ NUL :: post) <$> offsets (length pre) ms = ms.
Proof.
  induction ms as [|m ms IH]; intros pre post Hok; [done|].
  apply Forall_cons in Hok as [Hm Hok]. apply member_ok_spec in Hm as (_ & _ & Hn & _).
  cbn [offsets fmap list_fmap]. destruct ms as [|m' ms]; [by rewrite str_at_app|].
  rewrite join_cons, <- app_assoc. cbn [app]. rewrite str_at_app by done. f_equal.
  replace (length pre + length m + 1) with (length (pre ++ m ++ [NUL])) by (rewrite !length_app; simpl; lia).
  replace (pre ++ m ++ NUL :: join NUL (m' :: ms) ++ NUL :: post)
    with ((pre ++ m ++ [NUL]) ++ join NUL (m' :: ms) ++ NUL :: post) by (rewrite <- !app_assoc; done).
  by apply IH.
Qed.

Lemma count_app m s : comma ∉ m -> NUL ∉ m -> count (m ++ s) comma = count s comma.
Proof.
  induction m as [|c m IH]; intros Hc Hn; [done|]. simpl.
  apply not_elem_of_cons in Hc as [? ?]. apply not_elem_of_cons in Hn as [? ?].
  rewrite !bool_decide_eq_false_2 by congruence. by rewrite IH.
Qed.

Lemma count_members ms post :
  Forall (fun m => member_ok m = true) ms -> ms <> [] ->
  1 + count (join comma ms ++ NUL :: post) comma = length ms.
Proof.
  induction ms as [|m ms IH]; intros Hok Hne; [done|].
  apply Forall_cons in Hok as [Hm Hok]. apply member_ok_spec in Hm as (_ & Hc & Hn & _).
  destruct ms as [|m' ms]; [cbn [join]; by rewrite count_app|].
  rewrite join_cons, <- app_assoc, count_app by done. cbn [app].
  change (length (m :: m' :: ms)) with (S (length (m' :: ms))). rewrite <- (IH Hok ltac:(done)). done.
Qed.

Lemma join_clean sep ms :
  sep <> newline -> sep <> NUL -> Forall (fun m => member_ok m = true) ms ->
  (newline ∉ join sep ms) /\ (NUL ∉ join sep ms) /\ (join sep ms = [] -> ms = []).
Proof.
  intros H1 H2. induction ms as [|m ms IH]; intros Hok; [split; [set_solver|]; split; [set_solver|done]|].
  apply Forall_cons in Hok as [Hm Hok]. apply member_ok_spec in Hm as (He & _ & Hn & Hl).
  destruct ms as [|m' ms]; [done|]. destruct (IH Hok) as (Hl' & Hn' & _).
  rewrite join_cons. rewrite !not_elem_of_app, !not_elem_of_cons. do 2 (split; [by auto|]).
  intros [? _]%app_eq_nil. done.
Qed.

(** What the buffer of a caller has to hold for a line. *)
Definition gr_need (e : gr_line) : Z :=
  (Z.of_nat (length (print_gr e)) + 1 + Z.of_nat (length (g_mem e)) * ptr + 32)%Z.

(** The entry the caller gets: its strings are those of the line, the member
    array ends with NULL, is aligned, lies behind the strings and inside the
    buffer. *)
Definition describes_group (g : group) (buf : list ascii) (e : gr_line) : Prop :=
  (str_at buf <$> gr_name g = Some (g_name e) /\ str_at buf <$> gr_passwd g = Some (g_pass e) /\
   gr_gid g = g_id e) /\
  exists at_ cells,
    gr_mem g = Some (at_, (Some <$> cells) ++ [None]) /\ str_at buf <$> cells = g_mem e /\
    ((base + at_) mod 16 = 0)%Z /\ (Z.of_nat (length (print_gr e)) < at_)%Z /\
    (at_ + ptr * (Z.of_nat (length cells) + 1) <= bufsize)%Z.

Lemma round_up_spec x : (x <= ROUND_UP x 16 < x + 16)%Z /\ (ROUND_UP x 16 mod 16 = 0)%Z.
Proof.
  unfold ROUND_UP. split; [|by apply Z.mod_mul]. pose proof (Z.div_mod (x + 16 - 1) 16).
  pose proof (Z.mod_pos_bound (x + 16 - 1) 16). lia.
Qed.

Lemma offsets_length p ms : length (offsets p ms) = length ms.
Proof. revert p. induction ms as [|m ms IH]; intros p; simpl; [done|]. by rewrite IH. Qed.

Lemma members_length ms :
  Forall (fun m => member_ok m = true) ms -> length ms <= length (join comma ms).
Proof.
  intros Hm. induction Hm as [|m ms Hm Hms IH]; [done|].
  apply member_ok_spec in Hm as (He & _). destruct m as [|c m]; [done|]. destruct ms; [simpl; lia|].
  rewrite join_cons, length_app. simpl in *. lia.
Qed.

(** An empty list of members has no name in it, another has one more than
    commas. *)
Lemma members_counted ms p q post :
  Forall (fun m => member_ok m = true) ms -> p + length (join comma ms) = q ->
  (if p =? q then 0 else 1 + count (join comma ms ++ NUL :: post) comma) = length ms.
Proof.
  intros Hm Hq. destruct (Nat.eqb_spec p q) as [He|He].
  - destruct (join_clean comma ms) as (_ & _ & Hnil); [done..|].
    rewrite Hnil; [done|]. apply length_zero_iff_nil. lia.
  - apply count_members; [done|]. intros ->. simpl in Hq. lia.
Qed.

Lemma parse_members_spec g e junk :
  (ptr = 4 \/ ptr = 8)%Z -> (bufsize < 2 ^ 27)%Z -> gr_ok e = true ->
  (Z.of_nat (length (print_gr e)) < bufsize)%Z ->
  exists g' buf',
    parse_members ptr base bufsize (mk_group (Some 0) (Some (pass_at e)) (g_id e) g)
      (cut_gr e (join comma (g_mem e) ++ newline :: junk)) (mem_at e) =
    (g', buf', if (gr_need e <=? bufsize)%Z then Found else Erange) /\
    ((gr_need e <= bufsize)%Z -> describes_group g' buf' e).
Proof.
  intros Hptr Hsize Hok Hlen. pose proof (gr_ok_spec e Hok) as (Hn & Hp & Hid & Hd & Hm).
  apply field_ok_spec in Hn as (_ & Hn & _), Hp as (_ & Hp & _), Hd as (_ & Hd & _).
  destruct (join_clean comma (g_mem e)) as (Hjl & Hjn & Hjnil); [done..|].
  set (pre := g_name e ++ NUL :: g_pass e ++ NUL :: dec (g_id e) ++ [NUL]).
  assert (Hpre : mem_at e = length pre) by (unfold mem_at, pass_at, pre; buflen).
  assert (Hq : mem_at e + length (join comma (g_mem e)) = length (print_gr e))
    by (unfold mem_at, pass_at, print_gr; buflen).
  unfold parse_members, cut_gr. fold pre.
  rewrite (cut_app pre (join comma (g_mem e)) newline junk) by done. rewrite Hq.
  assert (Hnm : (if mem_at e =? length (print_gr e) then 0
    else 1 + count (drop (mem_at e) (pre ++ join comma (g_mem e) ++ NUL :: junk)) comma) = length (g_mem e)).
  { rewrite Hpre, drop_app_length, <- Hpre. by apply members_counted. }
  rewrite Hnm. fold (min_size ptr).
  pose proof (members_length _ Hm) as Hmem.
  assert (Hmin : uwrap (8 * ptr) (min_size ptr (length (print_gr e)) (length (g_mem e))) = gr_need e).
  { assert (Hr : (0 <= gr_need e < 2 ^ 31)%Z) by (unfold gr_need; destruct Hptr as [->| ->]; lia).
    unfold min_size. change (swrap 32 _) with (swrap 32 (gr_need e)). rewrite swrap32_id by lia.
    apply uwrap_id. unfold in_u. destruct Hptr as [->| ->]; apply andb_true_iff; simpl; lia. }
  rewrite Hmin, Z.leb_antisym. destruct (Z.ltb_spec bufsize (gr_need e)) as [Hbad|Hfit].
  { eexists _, _. split; [done|]. lia. }
  assert (Hloop : members_loop (length (g_mem e)) (pre ++ join comma (g_mem e) ++ NUL :: junk) (mem_at e) =
    (pre ++ join NUL (g_mem e) ++ NUL :: junk, Some <$> offsets (length pre) (g_mem e))).
  { rewrite Hpre. destruct (g_mem e) as [|m ms] eqn:Hms; [done|]. by apply members_loop_spec. }
  rewrite Hloop. eexists _, _. split; [done|]. intros _.
  split.
  - cbn [gr_name gr_passwd gr_gid fmap option_fmap option_map]. split; [f_equal|split; [f_equal|done]].
    + apply (str_at_pre [] (g_name e) (g_pass e ++ NUL :: dec (g_id e) ++ NUL :: join NUL (g_mem e) ++ NUL :: junk));
        [unfold pre; bufeq|done..].
    + apply (str_at_pre (g_name e ++ [NUL]) (g_pass e) (dec (g_id e) ++ NUL :: join NUL (g_mem e) ++ NUL :: junk));
        [unfold pre; bufeq|unfold pass_at; buflen|done].
  - eexists _, _. split; [done|]. split; [by apply members_read|].
    destruct (round_up_spec (base + Z.of_nat (length (print_gr e)) + 1)) as [[Hlo Hhi] Hal].
    rewrite offsets_length. split; [by rewrite Zplus_minus|]. split; [lia|].
    unfold gr_need in Hfit. destruct Hptr as [->| ->]; lia.
Qed.
End groups.

Lemma find_split {A} (f : A -> bool) (l : list A) x :
  find f l = Some x -> exists l1 l2, l = l1 ++ x :: l2 /\ Forall (fun y => f y = false) l1 /\ f x = true.
Proof.
  induction l as [|a l IH]; [done|]. simpl. destruct (f a) eqn:Ha.
  - intros [= ->]. by exists [], l.
  - intros (l1 & l2 & -> & Hno & Hx)%IH. exists (a :: l1), l2. split; [done|]. split; [by constructor|done].
Qed.

Lemma find_split_none {A} (f : A -> bool) (l : list A) : find f l = None -> Forall (fun y => f y = false) l.
Proof.
  induction l as [|a l IH]; simpl; [by constructor|]. destruct (f a) eqn:Ha; [done|]. intros H. by constructor; auto.
Qed.

Lemma print_gr_newline e : gr_ok e = true -> newline ∉ print_gr e.
Proof.
  intros (Hn & Hp & _ & Hd & Hm)%gr_ok_spec.
  apply field_ok_spec in Hn as (_ & _ & Hn), Hp as (_ & _ & Hp), Hd as (_ & _ & Hd).
  destruct (join_clean comma (g_mem e)) as (Hj & _ & _); [done..|].
  unfold print_gr. rewrite !not_elem_of_app, !not_elem_of_cons, !not_elem_of_app, !not_elem_of_cons,
    !not_elem_of_app, !not_elem_of_cons. done.
Qed.

(** C26: For a group file each line of which fits the caller's buffer with its
    newline and terminator (a longer line is read as two, long_line_is_two),
    with numbers below 2^16, a buffer of 2 to 2^27 bytes and a name or a
    number to look for: a lookup returns the first line with the name (or the
    number), its strings and members are those of the line, and the member
    array is aligned, inside the buffer and behind the strings; a buffer with
    no room for the array gives ERANGE, and a name that no line has gives no
    entry. *)
Theorem z_getgr_r_spec (ptr base bufsize : Z) (name : option string) (gid : Z) (lines : list gr_line)
  (g : group) (buf : list ascii) :
  (ptr = 4 \/ ptr = 8)%Z -> (2 <= bufsize < 2 ^ 27)%Z ->
  (name <> None \/ gid <> id_none) ->
  Forall (fun l => gr_ok l = true /\ (Z.of_nat (length (print_gr l)) + 1 < bufsize)%Z) lines ->
  exists g' buf',
  match find (fun l => wanted name gid (g_name l) (g_id l)) lines with
  | None => z_getgr_r ptr base bufsize name gid true true (Some (print_file print_gr lines)) g buf
            = (Ok tt, g', buf', Null)
  | Some e =>
      z_getgr_r ptr base bufsize name gid true true (Some (print_file print_gr lines)) g buf =
        (if gr_need ptr e <=? bufsize then (Ok tt, g', buf', Entry) else (Err ERANGE, g', buf', Untouched))%Z /\
      ((gr_need ptr e <= bufsize)%Z -> describes_group ptr base bufsize g' buf' e)
  end.
Proof.
  intros Hptr Hsize Hkey Hlines. unfold z_getgr_r. 
  assert (Harg : bool_decide (name = None) && (gid =? id_none)%Z = false).
  { destruct name as [n|]; [done|]. destruct Hkey as [?|Hkey]; [done|]. by apply Z.eqb_neq. }
  rewrite Harg, ltb_false by lia. cbn [negb orb]. rewrite swrap32_id by lia.
  set (want := fun l => wanted name gid (g_name l) (g_id l)).
  assert (Hfit : Forall (line_fits print_gr gr_ok bufsize) lines).
  { eapply Forall_impl; [done|]. intros l [Hok Hl]. split; [done|]. split; [by apply print_gr_newline|lia]. }
  assert (Hskip : forall g l junk, line_fits print_gr gr_ok bufsize l -> want l = false ->
    exists g' buf', parse_group ptr base bufsize name gid g (print_gr l ++ newline :: NUL :: junk) = (g', buf', Skip)).
  { intros g0 l junk (Hok & _) Hw. by apply (parse_group_line ptr base bufsize name gid g0 l). }
  destruct (find want lines) as [e|] eqn:Hfind.
  - destruct (find_split _ _ _ Hfind) as (l1 & l2 & -> & Hno & Hw).
    assert (Hfit1 : Forall (line_fits print_gr gr_ok bufsize) (l1 ++ [e])).
    { rewrite cons_middle, app_assoc in Hfit. by apply Forall_app in Hfit as [? _]. }
    pose proof Hfit1 as [_ [(Hok & _ & Hl) _]%Forall_cons]%Forall_app.
    edestruct (db_loop_find (parse_group ptr base bufsize name gid) print_gr gr_ok want bufsize Hskip l1 e l2)
      as (g1 & junk & fuel & ->); [done..|].
    destruct (parse_group_line ptr base bufsize name gid g1 e (newline :: NUL :: junk) Hok) as [_ Hp].
    rewrite (Hp Hw). destruct (parse_members_spec ptr base bufsize (gr_mem g1) e (NUL :: junk))
      as (g2 & buf2 & -> & Hd); [done|lia|done|lia|].
    exists g2, buf2. split; [|done]. by destruct (gr_need ptr e <=? bufsize)%Z.
  - apply find_split_none in Hfind.
    by apply (db_loop_none (parse_group ptr base bufsize name gid) print_gr gr_ok want bufsize Hskip).
Qed.

(** "root:x:0:" and "users:x:100:ann,bob" *)
Definition demo_groups : list gr_line :=
  [mk_gr_line (chars "root") (chars "x") 0 [];
   mk_gr_line (chars "users") (chars "x") 100 [chars "ann"; chars "bob"]].

Definition empty_group : group := mk_group None None 0 None.

Lemma z_getgr_r_spec_witness :
  exists g buf,
    z_getgr_r 8 4096 128 (Some "users"%string) id_none true true (Some (print_file print_gr demo_groups))
      empty_group [] = (Ok tt, g, buf, Entry) /\
    describes_group 8 4096 128 g buf (mk_gr_line (chars "users") (chars "x") 100 [chars "ann"; chars "bob"]).
Proof.
  destruct (z_getgr_r_spec 8 4096 128 (Some "users"%string) id_none demo_groups empty_group []) as (g & buf & He & Hd).
  - by right.
  - lia.
  - by left.
  - repeat (apply Forall_cons_2; [split; [by vm_compute|vm_compute; done]|]). constructor.
  - exists g, buf. split; [exact He|]. by apply Hd.
Defined.

(** ** The user database *)
Section users.
Context (bufsize : Z) (name : option string) (uid : Z).

Lemma pw_ok_spec e :
  pw_ok e = true ->
  field_ok (u_name e) = true /\ field_ok (u_pass e) = true /\ (0 <= u_id e < 65536)%Z /\
  (0 <= u_gid e < 65536)%Z /\ field_ok (u_gecos e) = true /\ field_ok (u_dir e) = true /\
  (NUL ∉ u_shell e) /\ (newline ∉ u_shell e).
Proof.
  unfold pw_ok. rewrite !andb_true_iff, !Z.leb_le, !Z.ltb_lt, !bool_decide_eq_true. tauto.
Qed.

(** The entry the caller gets. *)
Definition describes_user (p : passwd) (buf : list ascii) (e : pw_line) : Prop :=
  str_at buf <$> pw_name p = Some (u_name e) /\ str_at buf <$> pw_passwd p = Some (u_pass e) /\
  pw_uid p = u_id e /\ pw_gid p = u_gid e /\ str_at buf <$> pw_gecos p = Some (u_gecos e) /\
  str_at buf <$> pw_dir p = Some (u_dir e) /\ str_at buf <$> pw_shell p = Some (u_shell e).

Definition pw_tail (e : pw_line) (rest : list ascii) : list ascii :=
  dec (u_gid e) ++ colon :: u_gecos e ++ colon :: u_dir e ++ colon :: u_shell e ++ newline :: rest.

(** The fields behind the uid; [pre] is what has been cut. *)
Lemma parse_user_rest_spec p e pre rest :
  pw_ok e = true ->
  let b := length pre in
  let b1 := b + length (dec (u_gid e)) + 1 in
  let b2 := b1 + length (u_gecos e) + 1 in
  let b3 := b2 + length (u_dir e) + 1 in
  parse_user_rest p (pre ++ pw_tail e rest) b =
    (mk_passwd (pw_name p) (pw_passwd p) (pw_uid p) (u_gid e) None (Some b1) (Some b2) (Some b3),
     pre ++ dec (u_gid e) ++ NUL :: u_gecos e ++ NUL :: u_dir e ++ NUL :: u_shell e ++ NUL :: rest, Found).
Proof.
  intros (_ & _ & _ & Hgid & Hge & Hd & Hs1 & Hs2)%pw_ok_spec b b1 b2 b3.
  pose proof (dec_field (u_gid e) Hgid) as Hg. unfold pw_tail, parse_user_rest.
  apply field_ok_spec in Hg as (Hg1 & Hg2 & _), Hge as (Hge1 & Hge2 & _), Hd as (Hd1 & Hd2 & _).
  rewrite (cut_at pre (dec (u_gid e)) colon (u_gecos e ++ colon :: u_dir e ++ colon :: u_shell e ++ newline :: rest))
    by (done || bufeq || buflen).
  rewrite (str_at_pre pre (dec (u_gid e)) (u_gecos e ++ colon :: u_dir e ++ colon :: u_shell e ++ newline :: rest))
    by (done || bufeq || buflen).
  rewrite atoi_dec by lia. unfold to_id. rewrite uwrap_id by (unfold in_u; apply andb_true_iff; lia).
  rewrite (cut_at (pre ++ dec (u_gid e) ++ [NUL]) (u_gecos e) colon (u_dir e ++ colon :: u_shell e ++ newline :: rest))
    by (done || bufeq || unfold b; buflen).
  rewrite (cut_at (pre ++ dec (u_gid e) ++ NUL :: u_gecos e ++ [NUL]) (u_dir e) colon (u_shell e ++ newline :: rest))
    by (done || bufeq || unfold b; buflen).
  rewrite (cut_at (pre ++ dec (u_gid e) ++ NUL :: u_gecos e ++ NUL :: u_dir e ++ [NUL]) (u_shell e) newline rest)
    by (done || bufeq || unfold b; buflen).
  do 2 f_equal. bufeq.
Qed.

(** The front of the line when the name, the password and the uid are cut. *)
Definition user_pre (e : pw_line) : list ascii :=
  u_name e ++ NUL :: u_pass e ++ NUL :: dec (u_id e) ++ [NUL].

Lemma parse_user_found p e rest :
  pw_ok e = true ->
  pw_name p = Some 0 -> pw_passwd p = Some (length (u_name e) + 1) -> pw_uid p = u_id e ->
  exists p' buf', parse_user_rest p (user_pre e ++ pw_tail e rest) (length (user_pre e)) = (p', buf', Found) /\
    describes_user p' buf' e.
Proof.
  intros Hok Hp1 Hp2 Hp3. rewrite parse_user_rest_spec by done. eexists _, _. split; [done|].
  pose proof (pw_ok_spec e Hok) as (Hn & Hp & Hid & Hgid & Hge & Hdir & Hs & _).
  apply field_ok_spec in Hn as (_ & Hn & _), Hp as (_ & Hp & _), Hge as (_ & Hge & _), Hdir as (_ & Hdir & _).
  set (tail := dec (u_gid e) ++ NUL :: u_gecos e ++ NUL :: u_dir e ++ NUL :: u_shell e ++ NUL :: rest).
  unfold describes_user. cbn [pw_name pw_passwd pw_uid pw_gid pw_gecos pw_dir pw_shell fmap option_fmap option_map].
  rewrite Hp1, Hp2, Hp3. cbn [option_map]. unfold user_pre. repeat split.
  - apply (f_equal Some), (str_at_pre [] (u_name e) (u_pass e ++ NUL :: dec (u_id e) ++ NUL :: tail)); [bufeq|done..].
  - apply (f_equal Some), (str_at_pre (u_name e ++ [NUL]) (u_pass e) (dec (u_id e) ++ NUL :: tail)); [bufeq|buflen|done].
  - apply (f_equal Some), (str_at_pre (user_pre e ++ dec (u_gid e) ++ [NUL]) (u_gecos e) (u_dir e ++ NUL :: u_shell e ++ NUL :: rest));
      [unfold tail, user_pre; bufeq|unfold user_pre; buflen|done].
  - apply (f_equal Some), (str_at_pre (user_pre e ++ dec (u_gid e) ++ NUL :: u_gecos e ++ [NUL]) (u_dir e) (u_shell e ++ NUL :: rest));
      [unfold tail, user_pre; bufeq|unfold user_pre; buflen|done].
  - apply (f_equal Some), (str_at_pre (user_pre e ++ dec (u_gid e) ++ NUL :: u_gecos e ++ NUL :: u_dir e ++ [NUL]) (u_shell e) rest);
      [unfold tail, user_pre; bufeq|unfold user_pre; buflen|done].
Qed.

Lemma parse_user_line p e rest :
  pw_ok e = true ->
  (wanted name uid (u_name e) (u_id e) = false ->
   exists p' buf', parse_user name uid p (print_pw e ++ newline :: rest) = (p', buf', Skip)) /\
  (wanted name uid (u_name e) (u_id e) = true ->
   exists p' buf', parse_user name uid p (print_pw e ++ newline :: rest) = (p', buf', Found) /\
     describes_user p' buf' e).
Proof.
  intros Hok. pose proof (pw_ok_spec e Hok) as (Hn & Hp & Hid & Hgid & Hge & Hdir & Hs & _).
  pose proof (dec_field (u_id e) Hid) as Hd. pose proof (dec_field (u_gid e) Hgid) as Hdg.
  pose proof (head_ok (u_name e) (u_pass e ++ colon :: dec (u_id e) ++ colon :: pw_tail e rest) Hn) as [Hh1 Hh2].
  apply field_ok_spec in Hn as (Hn1 & Hn2 & _), Hp as (Hp1 & Hp2 & _), Hd as (Hd1 & Hd2 & _), Hdg as (_ & Hdg & _),
    Hge as (_ & Hge & _), Hdir as (_ & Hdir & _).
  assert (Hbuf : print_pw e ++ newline :: rest =
    u_name e ++ colon :: u_pass e ++ colon :: dec (u_id e) ++ colon :: pw_tail e rest)
    by (unfold print_pw, pw_tail; bufeq).
  unfold parse_user. rewrite Hbuf, !(bool_decide_eq_false_2 (head _ = _)) by done.
  rewrite (cut_at [] (u_name e) colon (u_pass e ++ colon :: dec (u_id e) ++ colon :: pw_tail e rest))
    by (done || bufeq || buflen). cbv beta iota.
  rewrite (str_at_pre [] (u_name e) (u_pass e ++ colon :: dec (u_id e) ++ colon :: pw_tail e rest)), name_test
    by (done || bufeq || buflen).
  rewrite (cut_at (u_name e ++ [NUL]) (u_pass e) colon (dec (u_id e) ++ colon :: pw_tail e rest))
    by (done || bufeq || buflen).
  rewrite (cut_at (u_name e ++ NUL :: u_pass e ++ [NUL]) (dec (u_id e)) colon (pw_tail e rest))
    by (done || bufeq || buflen).
  rewrite (str_at_pre (u_name e ++ NUL :: u_pass e ++ [NUL]) (dec (u_id e)) (pw_tail e rest))
    by (done || bufeq || buflen).
  rewrite atoi_dec by lia. unfold to_id. rewrite uwrap_id by (unfold in_u; apply andb_true_iff; lia).
  assert (Hfin : forall p, pw_name p = Some 0 -> pw_passwd p = Some (length (u_name e) + 1) -> pw_uid p = u_id e ->
    exists p' buf', parse_user_rest p
      ((u_name e ++ NUL :: u_pass e ++ [NUL]) ++ dec (u_id e) ++ NUL :: pw_tail e rest)
      (length (u_name e) + 1 + length (u_pass e) + 1 + length (dec (u_id e)) + 1) = (p', buf', Found) /\
    describes_user p' buf' e).
  { intros p0 H0 H1 H2.
    replace ((u_name e ++ NUL :: u_pass e ++ [NUL]) ++ dec (u_id e) ++ NUL :: pw_tail e rest)
      with (user_pre e ++ pw_tail e rest) by (unfold user_pre; bufeq).
    replace (length (u_name e) + 1 + length (u_pass e) + 1 + length (dec (u_id e)) + 1)
      with (length (user_pre e)) by (unfold user_pre; buflen).
    by apply parse_user_found. }
  unfold wanted. destruct name as [s|]; simpl bool_decide.
  - case_bool_decide as Hsn; split; try done; intros _; simpl; [|by eexists _, _]. by apply Hfin.
  - destruct (u_id e =? uid)%Z; split; try done; intros _; [|by eexists _, _]. simpl. by apply Hfin.
Qed.
End users.

Lemma print_pw_newline e : pw_ok e = true -> newline ∉ print_pw e.
Proof.
  intros (Hn & Hp & Hid & Hgid & Hge & Hdir & _ & Hs)%pw_ok_spec.
  pose proof (dec_field (u_id e) Hid) as Hd. pose proof (dec_field (u_gid e) Hgid) as Hdg.
  apply field_ok_spec in Hn as (_ & _ & Hn), Hp as (_ & _ & Hp), Hd as (_ & _ & Hd), Hdg as (_ & _ & Hdg),
    Hge as (_ & _ & Hge), Hdir as (_ & _ & Hdir).
  unfold print_pw. repeat first [rewrite not_elem_of_app | rewrite not_elem_of_cons]. repeat split; done.
Qed.

(** A lookup in a user file returns the first line with the name (or the
    number) that is asked for, every field as the line has it, and no entry
    when no line has it. *)
Theorem z_getpw_r_spec (bufsize : Z) (name : option string) (uid : Z) (lines : list pw_line)
  (p : passwd) (buf : list ascii) :
  (2 <= bufsize < 2 ^ 31)%Z -> (name <> None \/ uid <> id_none) ->
  Forall (fun l => pw_ok l = true /\ (Z.of_nat (length (print_pw l)) + 1 < bufsize)%Z) lines ->
  exists p' buf',
  match find (fun l => wanted name uid (u_name l) (u_id l)) lines with
  | None => z_getpw_r bufsize name uid true true (Some (print_file print_pw lines)) p buf = (Ok tt, p', buf', Null)
  | Some e => z_getpw_r bufsize name uid true true (Some (print_file print_pw lines)) p buf = (Ok tt, p', buf', Entry) /\
              describes_user p' buf' e
  end.
Proof.
  intros Hsize Hkey Hlines. unfold z_getpw_r.
  assert (Harg : bool_decide (name = None) && (uid =? id_none)%Z = false).
  { destruct name as [n|]; [done|]. destruct Hkey as [?|Hkey]; [done|]. by apply Z.eqb_neq. }
  rewrite Harg, ltb_false by lia. cbn [negb orb]. rewrite swrap32_id by lia.
  set (want := fun l => wanted name uid (u_name l) (u_id l)).
  assert (Hfit : Forall (line_fits print_pw pw_ok bufsize) lines).
  { eapply Forall_impl; [done|]. intros l [Hok Hl]. split; [done|]. split; [by apply print_pw_newline|lia]. }
  assert (Hskip : forall p l junk, line_fits print_pw pw_ok bufsize l -> want l = false ->
    exists p' buf', parse_user name uid p (print_pw l ++ newline :: NUL :: junk) = (p', buf', Skip)).
  { intros p0 l junk (Hok & _) Hw. by apply (parse_user_line name uid p0 l). }
  destruct (find want lines) as [e|] eqn:Hfind.
  - destruct (find_split _ _ _ Hfind) as (l1 & l2 & -> & Hno & Hw).
    assert (Hfit1 : Forall (line_fits print_pw pw_ok bufsize) (l1 ++ [e])).
    { rewrite cons_middle, app_assoc in Hfit. by apply Forall_app in Hfit as [? _]. }
    pose proof Hfit1 as [_ [(Hok & _ & Hl) _]%Forall_cons]%Forall_app.
    edestruct (db_loop_find (parse_user name uid) print_pw pw_ok want bufsize Hskip l1 e l2)
      as (p1 & junk & fuel & ->); [done..|].
    destruct (parse_user_line name uid p1 e (NUL :: junk) Hok) as [_ Hp].
    destruct (Hp Hw) as (p2 & buf2 & -> & Hd). by exists p2, buf2.
  - apply find_split_none in Hfind.
    by apply (db_loop_none (parse_user name uid) print_pw pw_ok want bufsize Hskip).
Qed.

Definition demo_users : list pw_line :=
  [mk_pw_line (chars "root") (chars "x") 0 0 (chars "root") (chars "/root") (chars "/bin/sh");
   mk_pw_line (chars "ann") (chars "x") 1000 100 [] (chars "/home/ann") (chars "/bin/sh")].
Definition empty_passwd : passwd := mk_passwd None None 0 0 None None None None.

Lemma z_getpw_r_spec_witness :
  exists p buf,
    z_getpw_r 128 None 1000 true true (Some (print_file print_pw demo_users)) empty_passwd [] = (Ok tt, p, buf, Entry) /\
    describes_user p buf
      (mk_pw_line (chars "ann") (chars "x") 1000 100 [] (chars "/home/ann") (chars "/bin/sh")).
Proof.
  apply (z_getpw_r_spec 128 None 1000 demo_users empty_passwd []).
  - lia.
  - by right.
  - repeat (apply Forall_cons_2; [split; [by vm_compute|vm_compute; done]|]). constructor.
Defined.

(** The errors: a call that returns EIO, or ERANGE for a small buffer or for
    a file with a line without fields, leaves *result as it was, where a
    caller that only looks at it would take the old value for an entry. *)
Lemma z_getgr_r_errors ptr base bufsize name gid result file g buf ret g' buf' out :
  z_getgr_r ptr base bufsize name gid true result file g buf = (ret, g', buf', out) ->
  match ret with
  | Ok _ => result = true /\ out <> Untouched
  | Err e => (e = EINVAL /\ out = if result then Null else Untouched) \/ ((e = ERANGE \/ e = EIO) /\ out = Untouched)
  end.
Proof.
  unfold z_getgr_r. destruct (bool_decide (name = None) && (gid =? id_none)%Z); cbn [orb negb].
  { intros [= <- <- <- <-]. auto. }
  destruct result; cbn [orb negb]; [|intros [= <- <- <- <-]; auto].
  destruct (bufsize <? 2)%Z; [intros [= <- <- <- <-]; auto|].
  destruct file as [text|]; [|intros [= <- <- <- <-]; auto].
  generalize (length text) as fuel. intros fuel. revert g buf text.
  induction fuel as [|fuel IH]; intros g0 buf0 text; simpl; [intros [= <- <- <- <-]; done|].
  destruct (fgets buf0 (swrap 32 bufsize) text) as [[b1 t1]|]; [|intros [= <- <- <- <-]; done].
  destruct (parse_group ptr base bufsize name gid g0 b1) as [[g1 b2] []];
    [apply IH|intros [= <- <- <- <-]; done|intros [= <- <- <- <-]; auto].
Qed.

(** The rest of a line that is too long for the buffer is read as a line of
    its own: a member called "root:x:0:" becomes a group. *)
Lemma long_line_is_two :
  let file := chars "staff:x:50:a,b,ccccccccccccccccccccccccccc,root:x:7:" ++ [newline] in
  exists g buf, z_getgr_r 4 0 44 (Some "root"%string) id_none true true (Some file) empty_group [] =
                (Ok tt, g, buf, Entry) /\ gr_gid g = 7%Z.
Proof. eexists _, _. split; [vm_compute; reflexivity|]. done. Qed.
