(* ===== verification/Netdb.v ===== *)
(** * The network databases

    options/networking/netdb_ent.c: the files /etc/hosts, /etc/networks,
    /etc/protocols and /etc/services, read line by line.  An open file is the
    list of the characters not yet read; the pointers of an entry are offsets
    into the line of its database, and a returned entry is what the static
    result holds at that moment. *)

From stdpp Require Import base list strings sets.
From Stdlib Require Import ZArith Lia Ascii.
From S2P Require Import Prelude CString Text.

Local Open Scope nat_scope.

Definition NETDB_LINE_MAX : Z := 256.

Inductive db_id := Hosts | Networks | Protocols | Services.

#[export] Instance db_id_eq_dec : EqDecision db_id.
Proof. solve_decision. Defined.

(** [struct netdb_file] *)
Record netdb_file := mk_db {
  fp : option (list ascii);
  stayopen : bool;
  line : list ascii;
}.

Record netdb := mk_netdb {
  hosts_db : netdb_file;
  networks_db : netdb_file;
  protocols_db : netdb_file;
  services_db : netdb_file;
  netdb_active : option db_id;
}.

Definition db_get (st : netdb) (db : db_id) : netdb_file :=
  match db with
  | Hosts => hosts_db st
  | Networks => networks_db st
  | Protocols => protocols_db st
  | Services => services_db st
  end.

Definition db_set (st : netdb) (db : db_id) (f : netdb_file) : netdb :=
  match db with
  | Hosts => mk_netdb f (networks_db st) (protocols_db st) (services_db st) (netdb_active st)
  | Networks => mk_netdb (hosts_db st) f (protocols_db st) (services_db st) (netdb_active st)
  | Protocols => mk_netdb (hosts_db st) (networks_db st) f (services_db st) (netdb_active st)
  | Services => mk_netdb (hosts_db st) (networks_db st) (protocols_db st) f (netdb_active st)
  end.

Definition set_active (st : netdb) (a : option db_id) : netdb :=
  mk_netdb (hosts_db st) (networks_db st) (protocols_db st) (services_db st) a.
Definition set_fp (st : netdb) (db : db_id) (f : option (list ascii)) : netdb :=
  db_set st db (mk_db f (stayopen (db_get st db)) (line (db_get st db))).
Definition set_stayopen (st : netdb) (db : db_id) (b : bool) : netdb :=
  db_set st db (mk_db (fp (db_get st db)) b (line (db_get st db))).

(** ** Opening and closing *)

Definition netdb_release (st : netdb) (db : db_id) : netdb :=
  let st1 := match fp (db_get st db) with Some _ => set_fp st db None | None => st end in
  if bool_decide (netdb_active st1 = Some db) then set_active st1 None else st1.

Definition release_other (db other : db_id) (st : netdb) : netdb :=
  if negb (bool_decide (fp (db_get st other) = None)) && negb (bool_decide (db = other)) &&
     negb (stayopen (db_get st other))
  then netdb_release st other else st.

Definition netdb_release_others (st : netdb) (db : db_id) : netdb :=
  release_other db Services (release_other db Protocols (release_other db Networks (release_other db Hosts st))).

Section files.
(** The files: [None] cannot be opened. *)
Context (files : db_id -> option (list ascii)).

Definition netdb_open (st : netdb) (db : db_id) : netdb :=
  match fp (db_get st db) with
  | Some _ => st
  | None =>
      let st1 := set_fp (netdb_release_others st db) db (files db) in
      match files db with Some _ => set_active st1 (Some db) | None => st1 end
  end.

Definition netdb_close (st : netdb) (db : db_id) : netdb :=
  if negb (bool_decide (fp (db_get st db) = None)) && negb (stayopen (db_get st db))
  then netdb_release st db else st.

Definition netdb_rewind (st : netdb) (db : db_id) : netdb :=
  let st1 := netdb_open st db in
  match fp (db_get st1 db) with
  | None => st1
  | Some _ => set_fp st1 db (files db)
  end.

(** ** Lines *)

Definition space : ascii := " "%char.
Definition tab : ascii := ascii_of_nat 9.
Definition hash : ascii := "#"%char.
Definition slash : ascii := "/"%char.
Definition is_ws (c : ascii) : bool := bool_decide (c = space) || bool_decide (c = tab).

Fixpoint ws_prefix (s : list ascii) : nat :=
  match s with
  | c :: s' => if is_ws c then S (ws_prefix s') else 0
  | [] => 0
  end.
Definition skip_ws (buf : list ascii) (p : nat) : nat := p + ws_prefix (drop p buf).
Definition char_at (buf : list ascii) (p : nat) : ascii := default NUL (buf !! p).

Definition is_comment_or_blank (buf : list ascii) : bool :=
  let c := char_at buf (skip_ws buf 0) in
  bool_decide (c = NUL) || bool_decide (c = newline) || bool_decide (c = hash).

Definition trim_newline (buf : list ascii) : list ascii :=
  match cut buf 0 newline with Some (buf', _) => buf' | None => buf end.

(** The end of a field: the first space, or the first tab when there is no
    space; the buffer with the field cut, and the start of the next. *)
Definition cut_ws (buf : list ascii) (p : nat) : option (list ascii * nat) :=
  match (match cut buf p space with Some r => Some r | None => cut buf p tab end) with
  | Some (buf', q) => Some (buf', skip_ws buf' (q + 1))
  | None => None
  end.

(** The common part of the four parsers: the offsets of the first and of the
    second field and of what follows; [None] is "return false". *)
Definition split_line (buf : list ascii) : list ascii * option (nat * nat * option nat) :=
  let first := skip_ws buf 0 in
  if bool_decide (char_at buf first = NUL) then (buf, None)
  else
    match cut_ws buf first with
    | None => (buf, None)
    | Some (buf1, second) =>
        if bool_decide (char_at buf1 second = NUL) then (buf1, None)
        else
          match cut_ws buf1 second with
          | None => (buf1, Some (first, second, None))
          | Some (buf2, aliases) => (buf2, Some (first, second, Some aliases))
          end
    end.

(** The loop that fills an alias array of eight cells, the last for NULL. *)
Fixpoint alias_loop (n : nat) (buf : list ascii) (tok : nat) : list ascii * list nat :=
  match n with
  | O => (buf, [])
  | S n' =>
      match cut_ws buf tok with
      | None => (buf, [tok])
      | Some (buf', tok') => let '(b, als) := alias_loop n' buf' tok' in (b, tok :: als)
      end
  end.

Definition read_aliases (buf : list ascii) (aliases : option nat) : list ascii * list nat :=
  match aliases with
  | Some a => if bool_decide (char_at buf a = NUL) then (buf, []) else alias_loop 7 buf a
  | None => (buf, [])
  end.

(** strtoul(s, NULL, 10), with unsigned long of [w] bits. *)
Definition strtoul (w : Z) (s : list ascii) : Z :=
  let sat v := Z.min v (2 ^ w - 1) in
  match skip_space s with
  | [] => 0%Z
  | c :: s' =>
      if bool_decide (c = "-"%char) then
        (if 2 ^ w - 1 <? digits_val s' 0 then 2 ^ w - 1 else uwrap w (- digits_val s' 0))%Z
      else if bool_decide (c = "+"%char) then sat (digits_val s' 0)
      else sat (digits_val (c :: s') 0)
  end%Z.

(** ** The four parsers *)

Record hostent := mk_hostent { h_name : nat; h_aliases : list nat; h_addr : list Z }.
Record netent := mk_netent { n_name : nat; n_aliases : list nat; n_net : Z }.
Record protoent := mk_protoent { p_name : nat; p_aliases : list nat; p_proto : Z }.
Record servent := mk_servent { s_name : nat; s_aliases : list nat; s_port : Z; s_proto : nat }.

(** inet_pton(AF_INET, ...) of the network stack: the four bytes, or
    [None]; the width of unsigned long; the byte order; the value of AF_INET. *)
Context (inet_pton : list ascii -> option (list Z)) (ulong : Z) (little_endian : bool) (AF_INET : Z).

Definition htons (x : Z) : Z :=
  if little_endian then ((x mod 256) * 256 + x / 256)%Z else x.

Definition parse_hosts_line (buf : list ascii) : list ascii * option hostent :=
  match split_line buf with
  | (buf1, None) => (buf1, None)
  | (buf1, Some (addr, name, aliases)) =>
      match inet_pton (str_at buf1 addr) with
      | None => (buf1, None)
      | Some bytes =>
          let '(buf2, als) := read_aliases buf1 aliases in
          (buf2, Some (mk_hostent name als bytes))
      end
  end.

Definition parse_networks_line (buf : list ascii) : list ascii * option netent :=
  match split_line buf with
  | (buf1, None) => (buf1, None)
  | (buf1, Some (name, netstr, aliases)) =>
      let net := strtoul ulong (str_at buf1 netstr) in
      let '(buf2, als) := read_aliases buf1 aliases in
      (buf2, Some (mk_netent name als (uwrap 32 net)))
  end.

Definition parse_protocols_line (buf : list ascii) : list ascii * option protoent :=
  match split_line buf with
  | (buf1, None) => (buf1, None)
  | (buf1, Some (name, numstr, aliases)) =>
      let num := strtoul ulong (str_at buf1 numstr) in
      let '(buf2, als) := read_aliases buf1 aliases in
      (buf2, Some (mk_protoent name als (swrap 32 num)))
  end.

Definition parse_services_line (buf : list ascii) : list ascii * option servent :=
  match split_line buf with
  | (buf1, None) => (buf1, None)
  | (buf1, Some (name, portproto, aliases)) =>
      match cut buf1 portproto slash with
      | None => (buf1, None)
      | Some (buf2, q) =>
          let port := strtoul ulong (str_at buf2 portproto) in
          let '(buf3, als) := read_aliases buf2 aliases in
          (buf3, Some (mk_servent name als (htons (uwrap 16 port)) (q + 1)))
      end
  end.

(** ** Reading entries *)
Section entries.
Context {E : Type} (parse : list ascii -> list ascii * option E) (keep : list ascii -> E -> bool).

(** The loop over the lines: the first entry that [keep] accepts, the line
    buffer and what is left of the file. *)
Fixpoint entry_loop (fuel : nat) (buf file : list ascii) : option E * list ascii * list ascii :=
  match fuel with
  | O => (None, buf, file)
  | S fuel' =>
      match fgets buf NETDB_LINE_MAX file with
      | None => (None, buf, file)
      | Some (buf1, file1) =>
          let buf2 := trim_newline buf1 in
          if is_comment_or_blank buf2 then entry_loop fuel' buf2 file1
          else
            match parse buf2 with
            | (buf3, None) => entry_loop fuel' buf3 file1
            | (buf3, Some e) =>
                if keep buf3 e then (Some e, buf3, file1) else entry_loop fuel' buf3 file1
            end
      end
  end.

(** The loop on an open database. *)
Definition read_entries (st : netdb) (db : db_id) : option E * netdb :=
  match fp (db_get st db) with
  | None => (None, st)
  | Some file =>
      let '(e, buf, rest) := entry_loop (length file) (line (db_get st db)) file in
      (e, db_set st db (mk_db (Some rest) (stayopen (db_get st db)) buf))
  end.
End entries.

(** get*ent *)
Definition getent {E} (parse : list ascii -> list ascii * option E) (st : netdb) (db : db_id) : option E * netdb :=
  let st1 := netdb_open st db in
  match fp (db_get st1 db) with
  | None => (None, st1)
  | Some _ =>
      let '(e, st2) := read_entries parse (fun _ _ => true) st1 db in
      match e with
      | Some _ => (e, if stayopen (db_get st2 db) then st2 else set_fp st2 db None)
      | None => (None, netdb_close st2 db)
      end
  end.

Definition gethostent st := getent parse_hosts_line st Hosts.
Definition getnetent st := getent parse_networks_line st Networks.
Definition getprotoent st := getent parse_protocols_line st Protocols.
Definition getservent st := getent parse_services_line st Services.

(** set*ent and end*ent *)
Definition setent (st : netdb) (db : db_id) (stay : bool) : netdb := netdb_rewind (set_stayopen st db stay) db.
Definition endent (st : netdb) (db : db_id) : netdb := set_stayopen (netdb_release st db) db false.

Definition sethostent st stay := setent st Hosts stay.
Definition endhostent st := endent st Hosts.
Definition setnetent st stay := setent st Networks stay.
Definition endnetent st := endent st Networks.
Definition setprotoent st stay := setent st Protocols stay.
Definition endprotoent st := endent st Protocols.
Definition setservent st stay := setent st Services stay.
Definition endservent st := endent st Services.

(** ** Lookups *)

(** The scan of a file from its start. *)
Definition scan_db {E} (parse : list ascii -> list ascii * option E) (keep : list ascii -> E -> bool)
  (st : netdb) (db : db_id) : option E * netdb :=
  let st1 := netdb_rewind st db in
  match fp (db_get st1 db) with
  | None => (None, st1)
  | Some _ =>
      let '(e, st2) := read_entries parse keep st1 db in
      (e, if stayopen (db_get st2 db) then st2 else set_fp st2 db None)
  end.

(** [name != NULL && strcmp(p, name) != 0] does not hold. *)
Definition name_is (name : option string) (s : list ascii) : bool :=
  match name with Some n => bool_decide (s = chars n) | None => true end.

(** The result of a network lookup is a line of the file or the built-in
    entry. *)
Inductive net_found := FromFile (e : netent) | Fallback (name : string) (net : Z).

Definition fallback : list (string * Z) := [("loopback"%string, 127%Z)].

Fixpoint lookup_network_fallback (table : list (string * Z)) (name : option string) (net : Z) (match_net : bool)
  : option net_found :=
  match table with
  | [] => None
  | (n, v) :: table' =>
      if negb (name_is name (chars n)) then lookup_network_fallback table' name net match_net
      else if match_net && negb (v =? net)%Z then lookup_network_fallback table' name net match_net
      else Some (Fallback n v)
  end.

Definition scan_networks (st : netdb) (name : option string) (net : Z) (match_net : bool) : option net_found * netdb :=
  let '(e, st1) := scan_db parse_networks_line
    (fun buf e => name_is name (str_at buf (n_name e)) && negb (match_net && negb (n_net e =? net)%Z)) st Networks in
  (match e with Some e => Some (FromFile e) | None => lookup_network_fallback fallback name net match_net end, st1).

Definition getnetbyaddr (st : netdb) (net type : Z) : option net_found * netdb :=
  if negb (type =? AF_INET)%Z then (None, st) else scan_networks st None net true.
Definition getnetbyname (st : netdb) (name : option string) : option net_found * netdb :=
  match name with None => (None, st) | Some _ => scan_networks st name 0 false end.

Definition scan_protocols (st : netdb) (name : option string) (proto : Z) (match_proto : bool)
  : option protoent * netdb :=
  scan_db parse_protocols_line
    (fun buf e => name_is name (str_at buf (p_name e)) && negb (match_proto && negb (p_proto e =? proto)%Z))
    st Protocols.

Definition getprotobyname (st : netdb) (name : option string) : option protoent * netdb :=
  match name with None => (None, st) | Some _ => scan_protocols st name 0 false end.
Definition getprotobynumber (st : netdb) (proto : Z) : option protoent * netdb :=
  scan_protocols st None proto true.

Definition scan_services (st : netdb) (name : option string) (port : Z) (proto : option string)
  : option servent * netdb :=
  scan_db parse_services_line
    (fun buf e => name_is name (str_at buf (s_name e)) &&
       negb (bool_decide (name = None) && negb (s_port e =? port)%Z) &&
       name_is proto (str_at buf (s_proto e)))
    st Services.

Definition getservbyname (st : netdb) (name proto : option string) : option servent * netdb :=
  match name with None => (None, st) | Some _ => scan_services st name 0 proto end.
Definition getservbyport (st : netdb) (port : Z) (proto : option string) : option servent * netdb :=
  scan_services st None port proto.
End files.

(** ** Lines as a database has them

    Words separated by one or more spaces, or by one or more tabs; the
    aliases come with the width of the gap in front of them, less one. *)
Definition word_ok (w : list ascii) : bool :=
  negb (bool_decide (w = [])) && bool_decide (space ∉ w) && bool_decide (tab ∉ w) &&
  bool_decide (NUL ∉ w) && bool_decide (newline ∉ w).

Definition sep_ok (sep : ascii) : bool := is_ws sep.

(** The words behind the first, each behind a gap whose first character is
    [h]: the separator, or the terminator once the word before is cut. *)
Fixpoint tail (h sep : ascii) (ws : list (nat * list ascii)) : list ascii :=
  match ws with
  | [] => []
  | (g, w) :: ws' => h :: replicate g sep ++ w ++ tail h sep ws'
  end.

Fixpoint tail_at (p : nat) (ws : list (nat * list ascii)) : list nat :=
  match ws with
  | [] => []
  | (g, w) :: ws' => p + 1 + g :: tail_at (p + 1 + g + length w) ws'
  end.

Lemma word_ok_spec w :
  word_ok w = true -> w <> [] /\ (space ∉ w) /\ (tab ∉ w) /\ (NUL ∉ w) /\ (newline ∉ w).
Proof.
  unfold word_ok. rewrite !andb_true_iff, negb_true_iff, !bool_decide_eq_true, bool_decide_eq_false. tauto.
Qed.

Lemma sep_cases sep : sep_ok sep = true -> sep = space \/ sep = tab.
Proof. unfold sep_ok, is_ws. rewrite orb_true_iff, !bool_decide_eq_true. done. Qed.

Lemma word_head w : word_ok w = true -> exists c w', w = c :: w' /\ is_ws c = false /\ c <> NUL /\ c <> newline.
Proof.
  intros (Hne & Hs & Ht & Hn & Hl)%word_ok_spec. destruct w as [|c w]; [done|]. exists c, w.
  rewrite !not_elem_of_cons in *. split; [done|]. unfold is_ws. rewrite !bool_decide_eq_false_2 by naive_solver.
  naive_solver.
Qed.

(** What stands behind a word: nothing, or a gap and a word. *)
Lemma ws_prefix_gap sep g rest :
  sep_ok sep = true -> match rest with c :: _ => is_ws c = false | [] => True end ->
  ws_prefix (replicate g sep ++ rest) = g.
Proof.
  intros Hs Hr. induction g as [|g IH]; simpl.
  - destruct rest as [|c rest]; [done|]. simpl. by rewrite Hr.
  - unfold sep_ok in Hs. by rewrite Hs, IH.
Qed.

Lemma skip_ws_gap pre sep g rest buf p :
  buf = pre ++ replicate g sep ++ rest -> p = length pre ->
  sep_ok sep = true -> match rest with c :: _ => is_ws c = false | [] => True end ->
  skip_ws buf p = p + g.
Proof. intros -> -> Hs Hr. unfold skip_ws. by rewrite drop_app_length, ws_prefix_gap. Qed.

Definition words_ok (ws : list (nat * list ascii)) : Prop := Forall (fun x => word_ok (snd x) = true) ws.

Lemma tail_no c sep ws :
  words_ok ws -> c <> sep -> (forall w, word_ok w = true -> c ∉ w) -> c ∉ tail sep sep ws.
Proof.
  intros Hw Hc Hno. induction Hw as [|[g w] ws Hw Hws IH]; [set_solver|]. simpl in *.
  rewrite not_elem_of_cons, !not_elem_of_app, elem_of_replicate. specialize (Hno w Hw). naive_solver.
Qed.

Lemma cut_none pre f c junk buf p :
  buf = pre ++ f ++ NUL :: junk -> p = length pre -> c ∉ f -> c <> NUL -> cut buf p c = None.
Proof. intros -> -> Hc Hn. unfold cut. by rewrite drop_app_length, strchr_none. Qed.

Lemma word_not_space w : word_ok w = true -> space ∉ w.
Proof. intros (_ & ? & _)%word_ok_spec. done. Qed.
Lemma word_not_nul w : word_ok w = true -> NUL ∉ w.
Proof. intros (_ & _ & _ & ? & _)%word_ok_spec. done. Qed.
Lemma word_not_newline w : word_ok w = true -> newline ∉ w.
Proof. intros (_ & _ & _ & _ & ?)%word_ok_spec. done. Qed.

Lemma cut_ws_last pre w junk buf p :
  buf = pre ++ w ++ NUL :: junk -> p = length pre -> word_ok w = true -> cut_ws buf p = None.
Proof.
  intros Hb Hp (_ & Hs & Ht & _)%word_ok_spec. unfold cut_ws.
  by rewrite (cut_none pre w space junk buf p), (cut_none pre w tab junk buf p).
Qed.

Lemma cut_ws_word pre w sep g w2 ws junk buf p :
  buf = pre ++ w ++ tail sep sep ((g, w2) :: ws) ++ NUL :: junk -> p = length pre ->
  sep_ok sep = true -> word_ok w = true -> words_ok ((g, w2) :: ws) ->
  cut_ws buf p =
    Some (pre ++ w ++ NUL :: replicate g sep ++ w2 ++ tail sep sep ws ++ NUL :: junk, p + length w + 1 + g).
Proof.
  intros -> -> Hsep Hw Hws. pose proof (word_ok_spec w Hw) as (_ & Hsp & Htb & Hnul & _).
  assert (Hw2 : word_ok w2 = true) by (by apply Forall_cons in Hws as [? _]).
  destruct (word_head w2 Hw2) as (c & w2' & -> & Hc & _).
  set (rest := replicate g sep ++ (c :: w2') ++ tail sep sep ws ++ NUL :: junk).
  assert (Hcut : cut_ws (pre ++ w ++ tail sep sep ((g, c :: w2') :: ws) ++ NUL :: junk) (length pre) =
    match cut (pre ++ w ++ sep :: rest) (length pre) sep with
    | Some (buf', q) => Some (buf', skip_ws buf' (q + 1))
    | None => None
    end).
  { assert (Hb : pre ++ w ++ tail sep sep ((g, c :: w2') :: ws) ++ NUL :: junk = pre ++ w ++ sep :: rest)
      by (unfold rest; bufeq).
    unfold cut_ws. rewrite Hb. destruct (sep_cases sep Hsep) as [->| ->].
    - by rewrite cut_app.
    - rewrite (cut_none pre (w ++ tail tab tab ((g, c :: w2') :: ws)) space junk); [done| |done| |done].
      + unfold rest. bufeq.
      + apply not_elem_of_app. split; [done|]. apply tail_no; [done..|]. apply word_not_space. }
  rewrite Hcut, cut_app by (done || destruct (sep_cases sep Hsep) as [->| ->]; done).
  rewrite (skip_ws_gap (pre ++ w ++ [NUL]) sep g ((c :: w2') ++ tail sep sep ws ++ NUL :: junk));
    [done|unfold rest; bufeq|buflen|done|done].
Qed.

(** The aliases from the word [w] on. *)
Lemma alias_loop_spec ws : forall n pre w sep junk buf p,
  buf = pre ++ w ++ tail sep sep ws ++ NUL :: junk -> p = length pre ->
  sep_ok sep = true -> word_ok w = true -> words_ok ws -> length ws < n ->
  alias_loop n buf p = (pre ++ w ++ tail NUL sep ws ++ NUL :: junk, p :: tail_at (p + length w) ws).
Proof.
  induction ws as [|[g w2] ws IH]; intros n pre w sep junk buf p Hb Hp Hsep Hw Hws Hn;
    (destruct n as [|n]; [simpl in Hn; lia|]); cbn [alias_loop].
  - simpl in Hb. rewrite (cut_ws_last pre w junk buf p) by done. by rewrite Hb.
  - rewrite (cut_ws_word pre w sep g w2 ws junk buf p) by done. apply Forall_cons in Hws as [Hw2 Hws].
    simpl in Hn. erewrite (IH n (pre ++ w ++ NUL :: replicate g sep) w2 sep junk); [|bufeq|..|lia]; try done.
    + f_equal. bufeq.
    + rewrite !length_app. simpl. rewrite length_replicate. lia.
Qed.

Lemma tail_read ws : forall pre sep junk,
  words_ok ws -> str_at (pre ++ tail NUL sep ws ++ NUL :: junk) <$> tail_at (length pre) ws = snd <$> ws.
Proof.
  induction ws as [|[g w] ws IH]; intros pre sep junk Hws; [done|].
  apply Forall_cons in Hws as [Hw Hws]. simpl in Hw. cbn [tail_at fmap list_fmap]. f_equal.
  - destruct ws as [|[g2 w2] ws].
    + apply (str_at_pre (pre ++ NUL :: replicate g sep) w junk); [simpl; rewrite app_nil_r; bufeq| |by apply word_not_nul].
      rewrite !length_app. simpl. rewrite length_replicate. lia.
    + apply (str_at_pre (pre ++ NUL :: replicate g sep) w (replicate g2 sep ++ w2 ++ tail NUL sep ws ++ NUL :: junk));
        [bufeq| |by apply word_not_nul]. rewrite !length_app. simpl. rewrite length_replicate. lia.
  - specialize (IH (pre ++ NUL :: replicate g sep ++ w) sep junk Hws).
    replace (length (pre ++ NUL :: replicate g sep ++ w)) with (length pre + 1 + g + length w) in IH
      by (rewrite !length_app; simpl; rewrite length_app, length_replicate; lia).
    etrans; [|exact IH]. f_equal. f_equal. bufeq.
Qed.

(** A line: leading blanks, the first word, a gap, the second word and the
    aliases, at most the seven the arrays hold. *)
Record raw_line := mk_raw {
  r_sep : ascii;
  r_lead : nat;
  r_first : list ascii;
  r_gap : nat;
  r_second : list ascii;
  r_aliases : list (nat * list ascii);
}.

Definition raw_text (r : raw_line) : list ascii :=
  replicate (r_lead r) (r_sep r) ++ r_first r ++ tail (r_sep r) (r_sep r) ((r_gap r, r_second r) :: r_aliases r).

Definition raw_ok (r : raw_line) : bool :=
  sep_ok (r_sep r) && word_ok (r_first r) && negb (bool_decide (head (r_first r) = Some hash)) &&
  word_ok (r_second r) && forallb (fun x => word_ok (snd x)) (r_aliases r) &&
  (length (r_aliases r) <=? 7).

(** The front of the line when the first word is cut, the place of the
    second word, and what is behind it while the aliases are not cut. *)
Definition raw_front (r : raw_line) : list ascii :=
  replicate (r_lead r) (r_sep r) ++ r_first r ++ NUL :: replicate (r_gap r) (r_sep r).
Definition second_at (r : raw_line) : nat := length (raw_front r).

Definition rest_text (sep : ascii) (ws : list (nat * list ascii)) (junk : list ascii) : list ascii :=
  match ws with
  | [] => NUL :: junk
  | (g, w) :: ws' => NUL :: replicate g sep ++ w ++ tail sep sep ws' ++ NUL :: junk
  end.
Definition rest_at (p : nat) (ws : list (nat * list ascii)) : option nat :=
  match ws with [] => None | (g, _) :: _ => Some (p + 1 + g) end.

Lemma raw_ok_spec r :
  raw_ok r = true ->
  sep_ok (r_sep r) = true /\ word_ok (r_first r) = true /\ head (r_first r) <> Some hash /\
  word_ok (r_second r) = true /\ words_ok (r_aliases r) /\ length (r_aliases r) <= 7.
Proof.
  unfold raw_ok. rewrite !andb_true_iff, negb_true_iff, bool_decide_eq_false, Nat.leb_le.
  intros (((((? & ?) & ?) & ?) & Ha) & ?). repeat (split; [done|]). split; [|done].
  rewrite forallb_forall in Ha. apply Forall_forall. intros x Hx. apply Ha. by apply list_elem_of_In.
Qed.

Lemma char_at_app pre c rest buf p : buf = pre ++ c :: rest -> p = length pre -> char_at buf p = c.
Proof. intros -> ->. unfold char_at. by rewrite lookup_app_r, Nat.sub_diag by done. Qed.

Lemma split_line_spec r junk :
  raw_ok r = true ->
  split_line (raw_text r ++ NUL :: junk) =
    ((raw_front r ++ r_second r) ++ rest_text (r_sep r) (r_aliases r) junk,
     Some (r_lead r, second_at r, rest_at (second_at r + length (r_second r)) (r_aliases r))).
Proof.
  intros (Hsep & Hf & _ & Hs & Hal & _)%raw_ok_spec.
  destruct (word_head _ Hf) as (c & f' & Hfe & Hc & Hcn & _). destruct (word_head _ Hs) as (d & s' & Hse & Hd & Hdn & _).
  set (sep := r_sep r) in *. set (lead := replicate (r_lead r) sep).
  assert (Hskip : skip_ws (raw_text r ++ NUL :: junk) 0 = r_lead r).
  { unfold raw_text. rewrite (skip_ws_gap [] sep (r_lead r)
      (r_first r ++ tail sep sep ((r_gap r, r_second r) :: r_aliases r) ++ NUL :: junk)); [done| |done..|].
    - simpl. rewrite <- app_assoc. bufeq.
    - by rewrite Hfe. }
  unfold split_line. rewrite Hskip.
  rewrite (char_at_app lead c (f' ++ tail sep sep ((r_gap r, r_second r) :: r_aliases r) ++ NUL :: junk));
    [|unfold raw_text; rewrite Hfe; bufeq|by unfold lead; rewrite length_replicate].
  rewrite (bool_decide_eq_false_2 (c = NUL)) by done.
  rewrite (cut_ws_word lead (r_first r) sep (r_gap r) (r_second r) (r_aliases r) junk);
    [|unfold raw_text; bufeq|by unfold lead; rewrite length_replicate|done|done|by constructor].
  assert (Hat : r_lead r + length (r_first r) + 1 + r_gap r = second_at r).
  { unfold second_at, raw_front. rewrite !length_app. simpl. rewrite !length_replicate. lia. }
  rewrite Hat.
  rewrite (char_at_app (raw_front r) d (s' ++ tail sep sep (r_aliases r) ++ NUL :: junk));
    [|unfold raw_front; rewrite Hse; bufeq|done].
  rewrite (bool_decide_eq_false_2 (d = NUL)) by done.
  destruct (r_aliases r) as [|[g a] als].
  - rewrite (cut_ws_last (raw_front r) (r_second r) junk); [|unfold raw_front; bufeq|done|done].
    f_equal. unfold raw_front, rest_text. bufeq.
  - rewrite (cut_ws_word (raw_front r) (r_second r) sep g a als junk); [|unfold raw_front; bufeq|done..].
    f_equal. unfold rest_text. bufeq.
Qed.

Lemma read_aliases_spec pre sep ws junk :
  sep_ok sep = true -> words_ok ws -> length ws <= 7 ->
  read_aliases (pre ++ rest_text sep ws junk) (rest_at (length pre) ws) =
    (pre ++ tail NUL sep ws ++ NUL :: junk, tail_at (length pre) ws).
Proof.
  intros Hsep Hws Hlen. destruct ws as [|[g a] ws]; [done|]. apply Forall_cons in Hws as [Ha Hws]. simpl in Ha, Hlen.
  destruct (word_head _ Ha) as (c & a' & -> & Hc & Hcn & _).
  unfold rest_text, rest_at, read_aliases.
  rewrite (char_at_app (pre ++ NUL :: replicate g sep) c (a' ++ tail sep sep ws ++ NUL :: junk));
    [|bufeq|rewrite !length_app; simpl; rewrite length_replicate; lia].
  rewrite bool_decide_eq_false_2 by done.
  rewrite (alias_loop_spec ws 7 (pre ++ NUL :: replicate g sep) (c :: a') sep junk);
    [f_equal; bufeq|bufeq|rewrite !length_app; simpl; rewrite length_replicate; lia|done..|lia].
Qed.

(** ** What a database promises

    A database has lines; its parser finds in the text of a line the entry
    the line stands for. *)
Class NetDb {E L} (parse : list ascii -> list ascii * option E) (text : L -> list ascii) (ok : L -> bool)
  (describes : E -> list ascii -> L -> Prop) : Prop := {
  text_clean : forall l, ok l = true -> (newline ∉ text l) /\ (NUL ∉ text l);
  text_not_blank : forall l junk, ok l = true -> is_comment_or_blank (text l ++ NUL :: junk) = false;
  parse_text : forall l junk, ok l = true ->
    exists buf e, parse (text l ++ NUL :: junk) = (buf, Some e) /\ describes e buf l;
}.

(** A file: entries, comments and blank lines. *)
Inductive file_item (L : Type) :=
  | Line (l : L)
  | Comment (blanks : nat) (words : list ascii)
  | Blank (blanks : nat).
Arguments Line {L} _.
Arguments Comment {L} _ _.
Arguments Blank {L} _.

Section file.
Context {E L : Type} (parse : list ascii -> list ascii * option E) (text : L -> list ascii) (ok : L -> bool).
Context (describes : E -> list ascii -> L -> Prop).
Context `{Hdb : !NetDb parse text ok describes}.

Definition item_text (it : file_item L) : list ascii :=
  match it with
  | Line l => text l
  | Comment n ws => replicate n space ++ hash :: ws
  | Blank n => replicate n space
  end.

Definition item_ok (it : file_item L) : bool :=
  (Z.of_nat (length (item_text it)) + 1 <? NETDB_LINE_MAX)%Z &&
  match it with
  | Line l => ok l
  | Comment _ ws => bool_decide (newline ∉ ws) && bool_decide (NUL ∉ ws)
  | Blank _ => true
  end.

Definition print_items (its : list (file_item L)) : list ascii := its ≫= fun it => item_text it ++ [newline].

Fixpoint lines_of (its : list (file_item L)) : list L :=
  match its with
  | [] => []
  | Line l :: its' => l :: lines_of its'
  | _ :: its' => lines_of its'
  end.

(** The first line with a property, and the items behind it. *)
Fixpoint first_line (w : L -> bool) (its : list (file_item L)) : option (L * list (file_item L)) :=
  match its with
  | [] => None
  | Line l :: its' => if w l then Some (l, its') else first_line w its'
  | _ :: its' => first_line w its'
  end.

Lemma replicate_no (c d : ascii) n : c <> d -> c ∉ replicate n d.
Proof. intros Hc [-> _]%elem_of_replicate. done. Qed.

Lemma item_clean it : item_ok it = true -> (newline ∉ item_text it) /\ (NUL ∉ item_text it).
Proof.
  intros [_ Hok]%andb_true_iff. destruct it as [l|n ws|n]; simpl.
  - by apply text_clean.
  - apply andb_true_iff in Hok as [H1%bool_decide_eq_true_1 H2%bool_decide_eq_true_1].
    rewrite !not_elem_of_app, !not_elem_of_cons. by repeat split; try done; apply replicate_no.
  - by split; apply replicate_no.
Qed.

Lemma trim_text t junk : newline ∉ t -> NUL ∉ t -> trim_newline (t ++ newline :: junk) = t ++ NUL :: junk.
Proof. intros H1 H2. unfold trim_newline. by rewrite (cut_at [] t newline junk). Qed.

Lemma blank_item it junk :
  item_ok it = true ->
  is_comment_or_blank (item_text it ++ NUL :: junk) = match it with Line _ => false | _ => true end.
Proof.
  intros [_ Hok]%andb_true_iff. destruct it as [l|n ws|n]; [by apply (text_not_blank l junk)| |]; unfold is_comment_or_blank.
  - simpl. rewrite (skip_ws_gap [] space n (hash :: ws ++ NUL :: junk)) by (done || bufeq).
    rewrite (char_at_app (replicate n space) hash (ws ++ NUL :: junk)) by (bufeq || by rewrite length_replicate).
    by rewrite orb_true_r.
  - simpl. rewrite (skip_ws_gap [] space n (NUL :: junk)) by done.
    by rewrite (char_at_app (replicate n space) NUL junk) by (bufeq || by rewrite length_replicate).
Qed.

Section scan.
Context (keep : list ascii -> E -> bool) (w : L -> bool).
Context (Hkeep : forall e buf l, ok l = true -> describes e buf l -> keep buf e = w l).

Lemma entry_loop_spec its : forall fuel buf,
  forallb item_ok its = true -> length (print_items its) <= fuel ->
  match first_line w its with
  | Some (l, rest) => exists e buf',
      entry_loop parse keep fuel buf (print_items its) = (Some e, buf', print_items rest) /\ describes e buf' l
  | None => exists buf', entry_loop parse keep fuel buf (print_items its) = (None, buf', [])
  end.
Proof.
  induction its as [|it its IH]; intros fuel buf Hok Hfuel.
  { exists buf. by destruct fuel. }
  simpl in Hok. apply andb_true_iff in Hok as [Hit Hok].
  assert (Hlen : (Z.of_nat (length (item_text it)) + 1 < NETDB_LINE_MAX)%Z)
    by (apply andb_true_iff in Hit as [?%Z.ltb_lt _]; done).
  destruct (item_clean it Hit) as [Hnl Hnul].
  unfold print_items in *. rewrite bind_cons, length_app, length_app in Hfuel.
  destruct fuel as [|fuel]; [simpl in Hfuel; lia|].
  rewrite bind_cons, <- app_assoc. cbn [entry_loop app]. rewrite fgets_line by done.
  rewrite trim_text, blank_item by done.
  specialize (IH fuel). destruct it as [l|n ws|n]; cbn [first_line]; try (apply IH; [done|simpl in Hfuel; lia]).
  apply andb_true_iff in Hit as [_ Hl].
  destruct (parse_text l (NUL :: drop (length (text l) + 2) buf) Hl) as (buf' & e & Hp & Hd).
  simpl item_text. rewrite Hp, (Hkeep e buf' l Hl Hd). destruct (w l); [by eexists _, _|].
  apply IH; [done|simpl in Hfuel; lia].
Qed.
End scan.
End file.

(** ** The state of the databases *)

Lemma db_get_set st db f : db_get (db_set st db f) db = f.
Proof. by destruct db. Qed.

Lemma db_get_other st db db' f : db <> db' -> db_get (db_set st db' f) db = db_get st db.
Proof. by destruct db, db'. Qed.

Lemma db_get_active st db a : db_get (set_active st a) db = db_get st db.
Proof. by destruct db. Qed.

Lemma release_other_get db other st : db_get (release_other db other st) db = db_get st db.
Proof.
  unfold release_other. destruct (bool_decide (db = other)) eqn:Ho; [by rewrite andb_false_r|].
  apply bool_decide_eq_false_1 in Ho. destruct (_ && _); [|done]. unfold netdb_release, set_fp.
  repeat case_match; by rewrite ?db_get_active, ?db_get_other.
Qed.

Section ops.
Context (files : db_id -> option (list ascii)).

(** set*ent leaves the database at the start of its file. *)
Lemma rewind_get st db content :
  files db = Some content ->
  db_get (netdb_rewind files st db) db = mk_db (Some content) (stayopen (db_get st db)) (line (db_get st db)).
Proof.
  intros Hf. unfold netdb_rewind, netdb_open. destruct (fp (db_get st db)) as [x|] eqn:Hfp.
  - rewrite Hfp. unfold set_fp. by rewrite db_get_set, Hf.
  - rewrite Hf. unfold set_fp, netdb_release_others.
    rewrite !db_get_active, !db_get_set. cbn [fp]. rewrite db_get_set. cbn [stayopen line]. by rewrite !release_other_get.
Qed.

Lemma setent_get st db stay content :
  files db = Some content ->
  db_get (setent files st db stay) db = mk_db (Some content) stay (line (db_get st db)).
Proof.
  intros Hf. unfold setent. rewrite (rewind_get _ _ content) by done.
  unfold set_stayopen. by rewrite db_get_set.
Qed.

Section calls.
Context {E L : Type} (parse : list ascii -> list ascii * option E) (text : L -> list ascii) (ok : L -> bool).
Context (describes : E -> list ascii -> L -> Prop).
Context `{Hdb : !NetDb parse text ok describes}.
Context (db : db_id).

(** [n] calls of get*ent: the entries, each with the line buffer that its
    strings are in when the call returns. *)
Fixpoint getents (n : nat) (st : netdb) : list (option (E * list ascii)) * netdb :=
  match n with
  | O => ([], st)
  | S n' =>
      let '(e, st1) := getent files parse st db in
      let '(es, st2) := getents n' st1 in
      (((fun e => (e, line (db_get st1 db))) <$> e) :: es, st2)
  end.

(** What a call gives for a line of the file. *)
Definition answers (l : L) (o : option (E * list ascii)) : Prop :=
  exists e buf, o = Some (e, buf) /\ describes e buf l.

Lemma getent_open st its stay buf :
  db_get st db = mk_db (Some (print_items text its)) stay buf -> forallb (item_ok text ok) its = true ->
  match first_line (fun _ => true) its with
  | Some (l, rest) => exists e st' buf', getent files parse st db = (Some e, st') /\ describes e buf' l /\
      db_get st' db = mk_db (if stay then Some (print_items text rest) else None) stay buf'
  | None => exists st', getent files parse st db = (None, st') /\
      fp (db_get st' db) = (if stay then Some [] else None) /\ stayopen (db_get st' db) = stay
  end.
Proof.
  intros Hst Hok. unfold getent, netdb_open, read_entries. rewrite Hst. cbn [fp]. rewrite Hst. cbn [fp line stayopen].
  pose proof (entry_loop_spec parse text ok describes (fun _ _ => true) (fun _ => true) ltac:(done)
    its (length (print_items text its)) buf Hok ltac:(done)) as Hloop.
  destruct (first_line (fun _ => true) its) as [[l rest]|].
  - destruct Hloop as (e & buf' & -> & Hd). rewrite db_get_set. cbn [stayopen]. destruct stay.
    + eexists _, _, _. split; [done|]. split; [exact Hd|]. by rewrite db_get_set.
    + eexists _, _, _. split; [done|]. split; [exact Hd|]. unfold set_fp. by rewrite !db_get_set.
  - destruct Hloop as (buf' & ->). eexists. split; [done|]. unfold netdb_close. rewrite db_get_set. cbn [fp stayopen].
    destruct stay; simpl; [by rewrite db_get_set|]. unfold netdb_release, set_fp. rewrite db_get_set. cbn [fp].
    case_match; by rewrite ?db_get_active, !db_get_set.
Qed.

Lemma first_line_any (its : list (file_item L)) :
  match first_line (fun _ => true) its with
  | Some (l, rest) => lines_of its = l :: lines_of rest /\ length rest < length its /\
      (forallb (item_ok text ok) its = true -> forallb (item_ok text ok) rest = true)
  | None => lines_of its = []
  end.
Proof.
  induction its as [|it its IH]; [done|]. destruct it as [l|n ws|n]; cbn [first_line lines_of].
  - split; [done|]. split; [simpl; lia|]. simpl. by intros [_ ?]%andb_true_iff.
  - destruct (first_line _ its) as [[l rest]|]; [|done]. destruct IH as (He & Hl & Ho).
    split; [done|]. split; [simpl; lia|]. simpl. intros [_ ?]%andb_true_iff. auto.
  - destruct (first_line _ its) as [[l rest]|]; [|done]. destruct IH as (He & Hl & Ho).
    split; [done|]. split; [simpl; lia|]. simpl. intros [_ ?]%andb_true_iff. auto.
Qed.

Lemma getents_spec n : forall its st buf,
  length its <= n -> db_get st db = mk_db (Some (print_items text its)) true buf ->
  forallb (item_ok text ok) its = true ->
  exists outs st', getents (length (lines_of its) + 1) st = (outs ++ [None], st') /\
    Forall2 answers (lines_of its) outs.
Proof.
  induction n as [n IH] using lt_wf_ind. intros its st buf Hn Hst Hok.
  pose proof (getent_open st its true buf Hst Hok) as Hget. pose proof (first_line_any its) as Hfirst.
  destruct (first_line (fun _ => true) its) as [[l rest]|].
  - destruct Hget as (e & st1 & buf1 & Hg & Hd & Hst1). destruct Hfirst as (-> & Hlt & Hrest).
    destruct (IH (length rest) ltac:(lia) rest st1 buf1 ltac:(lia) Hst1 (Hrest Hok)) as (outs & st2 & Hr & Hf).
    cbn [length Nat.add getents]. rewrite Hg, Hr, Hst1. cbn [line fmap option_fmap option_map].
    eexists (_ :: outs), st2. split; [done|]. constructor; [|done]. by exists e, buf1.
  - rewrite Hfirst. destruct Hget as (st1 & Hg & _). simpl. rewrite Hg. by exists [], st1.
Qed.

(** A lookup scans the file from its start. *)
Lemma scan_db_spec keep (w : L -> bool) st its :
  (forall e buf l, ok l = true -> describes e buf l -> keep buf e = w l) ->
  files db = Some (print_items text its) -> forallb (item_ok text ok) its = true ->
  match find w (lines_of its) with
  | Some l => exists e st', scan_db files parse keep st db = (Some e, st') /\ describes e (line (db_get st' db)) l
  | None => exists st', scan_db files parse keep st db = (None, st')
  end.
Proof.
  intros Hkeep Hf Hok. unfold scan_db, read_entries. rewrite (rewind_get st db _ Hf). cbn [fp].
  cbn [fp line stayopen].
  pose proof (entry_loop_spec parse text ok describes keep w Hkeep its (length (print_items text its))
    (line (db_get st db)) Hok ltac:(done)) as Hloop.
  assert (Hfind : find w (lines_of its) = fst <$> first_line w its).
  { clear. induction its as [|[l|n ws|n] its IH]; simpl; [done| |done|done]. destruct (w l); [done|]. apply IH. }
  rewrite Hfind. destruct (first_line w its) as [[l rest]|]; cbn [fmap option_fmap option_map fst].
  - destruct Hloop as (e & buf' & -> & Hd). eexists e, _. split; [done|].
    rewrite db_get_set. cbn [stayopen]. destruct (stayopen (db_get st db)); [by rewrite db_get_set|].
    unfold set_fp. by rewrite !db_get_set.
  - destruct Hloop as (buf' & ->). by eexists.
Qed.
End calls.
End ops.

(** ** The lines of the four databases *)

Lemma first_read r x y :
  raw_ok r = true -> str_at ((raw_front r ++ x) ++ y) (r_lead r) = r_first r.
Proof.
  intros (_ & Hf & _)%raw_ok_spec.
  apply (str_at_pre (replicate (r_lead r) (r_sep r)) (r_first r) (replicate (r_gap r) (r_sep r) ++ x ++ y));
    [unfold raw_front; bufeq|by rewrite length_replicate|by apply word_not_nul].
Qed.

Lemma second_read r w y : NUL ∉ w -> str_at ((raw_front r ++ w) ++ NUL :: y) (second_at r) = w.
Proof. intros Hw. apply (str_at_pre (raw_front r) w y); [bufeq|done|done]. Qed.

Lemma rest_text_nul sep ws junk : exists y, rest_text sep ws junk = NUL :: y.
Proof. destruct ws as [|[g w] ws]; simpl; eauto. Qed.

Lemma tail_nul sep ws junk : exists y, tail NUL sep ws ++ NUL :: junk = NUL :: y.
Proof. destruct ws as [|[g w] ws]; simpl; eauto. Qed.

Lemma raw_clean r : raw_ok r = true -> (newline ∉ raw_text r) /\ (NUL ∉ raw_text r).
Proof.
  intros (Hsep & Hf & _ & Hs & Hal & _)%raw_ok_spec. unfold raw_text.
  assert (Hws : words_ok ((r_gap r, r_second r) :: r_aliases r)) by (by constructor).
  destruct (sep_cases _ Hsep) as [->| ->]; rewrite !not_elem_of_app;
    (split; [split; [by apply replicate_no|]|split; [by apply replicate_no|]]);
    (split; [by first [apply word_not_newline|apply word_not_nul]|]);
    apply tail_no; try done; first [apply word_not_newline|apply word_not_nul].
Qed.

Lemma raw_not_blank r junk : raw_ok r = true -> is_comment_or_blank (raw_text r ++ NUL :: junk) = false.
Proof.
  intros (Hsep & Hf & Hh & _)%raw_ok_spec. unfold is_comment_or_blank.
  destruct (word_head _ Hf) as (c & f & Hfe & Hc & Hn & Hl). rewrite Hfe in Hh. simpl in Hh.
  set (rest := f ++ tail (r_sep r) (r_sep r) ((r_gap r, r_second r) :: r_aliases r) ++ NUL :: junk).
  assert (Hb : raw_text r ++ NUL :: junk = replicate (r_lead r) (r_sep r) ++ c :: rest)
    by (unfold raw_text, rest; rewrite Hfe; bufeq).
  rewrite Hb, (skip_ws_gap [] (r_sep r) (r_lead r) (c :: rest)) by done.
  rewrite (char_at_app (replicate (r_lead r) (r_sep r)) c rest) by (done || by rewrite length_replicate).
  rewrite !bool_decide_eq_false_2 by congruence. done.
Qed.

(** The aliases behind a front that is cut. *)
Lemma aliases_read r pre junk :
  raw_ok r = true ->
  exists als, read_aliases (pre ++ rest_text (r_sep r) (r_aliases r) junk) (rest_at (length pre) (r_aliases r)) =
    (pre ++ tail NUL (r_sep r) (r_aliases r) ++ NUL :: junk, als) /\
    str_at (pre ++ tail NUL (r_sep r) (r_aliases r) ++ NUL :: junk) <$> als = snd <$> r_aliases r.
Proof.
  intros (Hsep & _ & _ & _ & Hal & Hlen)%raw_ok_spec. rewrite read_aliases_spec by done.
  eexists. split; [done|]. by apply tail_read.
Qed.

Lemma strtoul_dec w n : (32 <= w)%Z -> (0 <= n < 2 ^ 32)%Z -> strtoul w (dec n) = n.
Proof.
  intros Hw Hn. destruct (dec_digits n) as (Hd & Hv & Hne); [split; [lia|]; etrans; [apply Hn|]; done|].
  assert (2 ^ 32 <= 2 ^ w)%Z by (apply Z.pow_le_mono_r; lia).
  unfold strtoul. destruct (dec n) as [|c s]; [done|]. simpl in Hd. apply andb_true_iff in Hd as [Hc Hs].
  cbn [skip_space]. rewrite isspace_digit by done.
  rewrite !bool_decide_eq_false_2 by (by apply digit_not). rewrite Hv. lia.
Qed.

(** Networks and protocols: a name, a number and aliases. *)
Record num_line := mk_num {
  nl_sep : ascii; nl_lead : nat; nl_name : list ascii; nl_gap : nat; nl_num : Z;
  nl_aliases : list (nat * list ascii);
}.
Definition num_raw (l : num_line) : raw_line :=
  mk_raw (nl_sep l) (nl_lead l) (nl_name l) (nl_gap l) (dec (nl_num l)) (nl_aliases l).
Definition num_text (l : num_line) : list ascii := raw_text (num_raw l).
Definition num_ok (l : num_line) : bool := raw_ok (num_raw l) && (0 <=? nl_num l)%Z && (nl_num l <? 2 ^ 31)%Z.

Definition describes_net (e : netent) (buf : list ascii) (l : num_line) : Prop :=
  str_at buf (n_name e) = nl_name l /\ n_net e = nl_num l /\ str_at buf <$> n_aliases e = snd <$> nl_aliases l.
Definition describes_proto (e : protoent) (buf : list ascii) (l : num_line) : Prop :=
  str_at buf (p_name e) = nl_name l /\ p_proto e = nl_num l /\ str_at buf <$> p_aliases e = snd <$> nl_aliases l.

(** Services: a name, a port and a protocol, aliases. *)
Record serv_line := mk_serv {
  sl_sep : ascii; sl_lead : nat; sl_name : list ascii; sl_gap : nat; sl_port : Z; sl_proto : list ascii;
  sl_aliases : list (nat * list ascii);
}.
Definition serv_raw (l : serv_line) : raw_line :=
  mk_raw (sl_sep l) (sl_lead l) (sl_name l) (sl_gap l) (dec (sl_port l) ++ slash :: sl_proto l) (sl_aliases l).
Definition serv_text (l : serv_line) : list ascii := raw_text (serv_raw l).
Definition serv_ok (l : serv_line) : bool := raw_ok (serv_raw l) && (0 <=? sl_port l)%Z && (sl_port l <? 2 ^ 16)%Z.

Definition describes_serv (little_endian : bool) (e : servent) (buf : list ascii) (l : serv_line) : Prop :=
  str_at buf (s_name e) = sl_name l /\ s_port e = htons little_endian (sl_port l) /\
  str_at buf (s_proto e) = sl_proto l /\ str_at buf <$> s_aliases e = snd <$> sl_aliases l.

(** Hosts: the text of an address, a name, aliases. *)
Record host_line := mk_host {
  hl_sep : ascii; hl_lead : nat; hl_addr : list ascii; hl_gap : nat; hl_name : list ascii;
  hl_aliases : list (nat * list ascii);
}.
Definition host_raw (l : host_line) : raw_line :=
  mk_raw (hl_sep l) (hl_lead l) (hl_addr l) (hl_gap l) (hl_name l) (hl_aliases l).
Definition host_text (l : host_line) : list ascii := raw_text (host_raw l).
Definition host_ok (inet_pton : list ascii -> option (list Z)) (l : host_line) : bool :=
  raw_ok (host_raw l) && bool_decide (is_Some (inet_pton (hl_addr l))).

Definition describes_host (inet_pton : list ascii -> option (list Z)) (e : hostent) (buf : list ascii) (l : host_line)
  : Prop :=
  inet_pton (hl_addr l) = Some (h_addr e) /\ str_at buf (h_name e) = hl_name l /\
  str_at buf <$> h_aliases e = snd <$> hl_aliases l.

Section instances.

(** The fields of a line as split_line leaves them. *)
Lemma split_read r junk :
  raw_ok r = true ->
  exists y, split_line (raw_text r ++ NUL :: junk) =
    ((raw_front r ++ r_second r) ++ NUL :: y,
     Some (r_lead r, second_at r, rest_at (second_at r + length (r_second r)) (r_aliases r))) /\
    rest_text (r_sep r) (r_aliases r) junk = NUL :: y.
Proof.
  intros Hr. destruct (rest_text_nul (r_sep r) (r_aliases r) junk) as [y Hy]. exists y.
  split; [|done]. rewrite split_line_spec by done. by rewrite Hy.
Qed.

#[export] Instance host_db inet_pton :
  NetDb (parse_hosts_line inet_pton) host_text (host_ok inet_pton) (describes_host inet_pton).
Proof.
  split; [intros l [Hr _]%andb_true_iff; by apply raw_clean|intros l junk [Hr _]%andb_true_iff; by apply raw_not_blank|].
  intros l junk [Hr [bytes Hb]%bool_decide_eq_true_1]%andb_true_iff. unfold host_text, parse_hosts_line.
  destruct (split_read (host_raw l) junk Hr) as (y & -> & Hy). pose proof (raw_ok_spec _ Hr) as (_ & _ & _ & Hs & _).
  rewrite (first_read (host_raw l)) by done. cbn [r_first host_raw]. rewrite Hb, <- Hy.
  destruct (aliases_read (host_raw l) (raw_front (host_raw l) ++ r_second (host_raw l)) junk Hr) as (als & Ha & Hals).
  rewrite length_app in Ha. fold (second_at (host_raw l)) in Ha. rewrite Ha.
  eexists _, _. split; [done|]. split; [done|]. split; [|done].
  destruct (tail_nul (r_sep (host_raw l)) (r_aliases (host_raw l)) junk) as [z ->].
  cbn [h_name]. rewrite second_read; [done|]. by apply word_not_nul.
Qed.

Context (ulong : Z) (little_endian : bool) (Hulong : (32 <= ulong)%Z).

(** The fields of a line with a number. *)
Lemma num_fields l junk :
  num_ok l = true ->
  exists buf1 al buf als,
    split_line (num_text l ++ NUL :: junk) = (buf1, Some (nl_lead l, second_at (num_raw l), al)) /\
    strtoul ulong (str_at buf1 (second_at (num_raw l))) = nl_num l /\ (0 <= nl_num l < 2 ^ 31)%Z /\
    read_aliases buf1 al = (buf, als) /\ str_at buf (nl_lead l) = nl_name l /\
    str_at buf <$> als = snd <$> nl_aliases l.
Proof.
  intros [[Hr H0%Z.leb_le]%andb_true_iff H1%Z.ltb_lt]%andb_true_iff. unfold num_text.
  destruct (split_read (num_raw l) junk Hr) as (y & -> & Hy). pose proof (raw_ok_spec _ Hr) as (_ & _ & _ & Hs & _).
  destruct (aliases_read (num_raw l) (raw_front (num_raw l) ++ r_second (num_raw l)) junk Hr) as (als & Ha & Hals).
  rewrite length_app in Ha. fold (second_at (num_raw l)) in Ha.
  eexists _, _, _, als. split; [done|]. split.
  { rewrite second_read by (by apply word_not_nul). apply strtoul_dec; lia. }
  split; [done|]. rewrite <- Hy, Ha. split; [done|]. split; [by apply (first_read (num_raw l))|done].
Qed.

#[export] Instance net_db : NetDb (parse_networks_line ulong) num_text num_ok describes_net.
Proof.
  split; [intros l [[Hr _]%andb_true_iff _]%andb_true_iff; by apply raw_clean
    |intros l junk [[Hr _]%andb_true_iff _]%andb_true_iff; by apply raw_not_blank|].
  intros l junk (buf1 & al & buf & als & Hsp & Hn & Hr & Ha & H1 & H2)%(fun H => num_fields l junk H).
  unfold parse_networks_line. rewrite Hsp, Hn, Ha. eexists _, _. split; [done|]. split; [done|]. split; [|done].
  cbn [n_net]. by rewrite uwrap32_id by lia.
Qed.

#[export] Instance proto_db : NetDb (parse_protocols_line ulong) num_text num_ok describes_proto.
Proof.
  split; [intros l [[Hr _]%andb_true_iff _]%andb_true_iff; by apply raw_clean
    |intros l junk [[Hr _]%andb_true_iff _]%andb_true_iff; by apply raw_not_blank|].
  intros l junk (buf1 & al & buf & als & Hsp & Hn & Hr & Ha & H1 & H2)%(fun H => num_fields l junk H).
  unfold parse_protocols_line. rewrite Hsp, Hn, Ha. eexists _, _. split; [done|]. split; [done|]. split; [|done].
  cbn [p_proto]. by rewrite swrap32_id by lia.
Qed.

#[export] Instance serv_db :
  NetDb (parse_services_line ulong little_endian) serv_text serv_ok (describes_serv little_endian).
Proof.
  split; [intros l [[Hr _]%andb_true_iff _]%andb_true_iff; by apply raw_clean
    |intros l junk [[Hr _]%andb_true_iff _]%andb_true_iff; by apply raw_not_blank|].
  intros l junk [[Hr H0%Z.leb_le]%andb_true_iff H1%Z.ltb_lt]%andb_true_iff.
  unfold serv_text, parse_services_line.
  destruct (split_read (serv_raw l) junk Hr) as (y & -> & Hy). pose proof (raw_ok_spec _ Hr) as (_ & _ & _ & Hs & _).
  destruct (dec_digits (sl_port l)) as (Hdig & _ & _); [split; [lia|]; etrans; [apply H1|]; done|].
  set (front := raw_front (serv_raw l)) in *. set (port := dec (sl_port l)) in *.
  assert (Hpn : NUL ∉ sl_proto l).
  { apply word_not_nul in Hs. simpl in Hs. rewrite not_elem_of_app, not_elem_of_cons in Hs. tauto. }
  rewrite (cut_at front port slash (sl_proto l ++ NUL :: y));
    [|simpl; unfold port; bufeq|done|by apply digits_no|by apply digits_no].
  rewrite (str_at_pre front port (sl_proto l ++ NUL :: y)) by (done || by apply digits_no).
  unfold port at 2. rewrite strtoul_dec by (done || lia).
  assert (Hb : front ++ port ++ NUL :: sl_proto l ++ NUL :: y =
    (front ++ port ++ NUL :: sl_proto l) ++ rest_text (r_sep (serv_raw l)) (r_aliases (serv_raw l)) junk)
    by (rewrite Hy; bufeq).
  assert (Hlen : second_at (serv_raw l) + length (r_second (serv_raw l)) = length (front ++ port ++ NUL :: sl_proto l)).
  { unfold second_at. fold front. simpl. fold port. rewrite !length_app. simpl. done. }
  rewrite Hb, Hlen. destruct (aliases_read (serv_raw l) (front ++ port ++ NUL :: sl_proto l) junk Hr) as (als & -> & Hals).
  eexists _, _. split; [done|]. destruct (tail_nul (r_sep (serv_raw l)) (r_aliases (serv_raw l)) junk) as [z Hz].
  rewrite Hz in Hals |- *.
  split; [|split; [|split; [|exact Hals]]]; cbn [s_name s_port s_proto].
  - etrans; [|by apply (first_read (serv_raw l) (port ++ NUL :: sl_proto l) (NUL :: z))]. unfold front. by rewrite <- !app_assoc.
  - rewrite uwrap_id; [done|]. unfold in_u. apply andb_true_iff. lia.
  - apply (str_at_pre (front ++ port ++ [NUL]) (sl_proto l) z); [bufeq|unfold second_at; fold front; buflen|done].
Qed.
End instances.

(** ** Enumeration and lookup *)

(** set*ent(1) and then get*ent until it returns NULL: the entries of the
    file, in its order. *)
Definition enumerates {E L} (files : db_id -> option (list ascii)) (parse : list ascii -> list ascii * option E)
  (text : L -> list ascii) (ok : L -> bool) (describes : E -> list ascii -> L -> Prop) (db : db_id) : Prop :=
  forall its st, files db = Some (print_items text its) -> forallb (item_ok text ok) its = true ->
  exists outs st',
    getents files parse db (length (lines_of its) + 1) (setent files st db true) = (outs ++ [None], st') /\
    Forall2 (answers describes) (lines_of its) outs.

Lemma enumerate {E L} files (parse : list ascii -> list ascii * option E) (text : L -> list ascii) ok describes
  `{!NetDb parse text ok describes} db : enumerates files parse text ok describes db.
Proof.
  intros its st Hf Hok.
  by apply (getents_spec files parse text ok describes db (length its) its _ (line (db_get st db)));
    [|apply setent_get|].
Qed.

(** C25: For files of comments, blank lines and entries in the plain form: at
    most 254 characters a line, one kind of separator (spaces or tabs) in a
    line, no blank or comment behind the last word, at most seven aliases,
    numbers below 2^31 (ports below 2^16) and, for hosts, addresses that
    inet_pton accepts: with the database kept open the calls of get*ent return
    the entries of the hosts, networks, protocols and services files in order,
    names, numbers, addresses and aliases as the lines have them, and then
    NULL.  Lines in other forms are misread (netdb_mixed_blanks,
    netdb_trailing_blank). *)
Theorem netdb_enumerates (files : db_id -> option (list ascii)) (inet_pton : list ascii -> option (list Z))
  (ulong : Z) (little_endian : bool) :
  (32 <= ulong)%Z ->
  enumerates files (parse_hosts_line inet_pton) host_text (host_ok inet_pton) (describes_host inet_pton) Hosts /\
  enumerates files (parse_networks_line ulong) num_text num_ok describes_net Networks /\
  enumerates files (parse_protocols_line ulong) num_text num_ok describes_proto Protocols /\
  enumerates files (parse_services_line ulong little_endian) serv_text serv_ok (describes_serv little_endian) Services.
Proof.
  intros Hw. split; [apply enumerate, host_db|]. split; [apply enumerate, net_db; done|].
  split; [apply enumerate, proto_db; done|apply enumerate, serv_db; done].
Qed.

(** "# services", "ssh 22/tcp", "domain  53/udp dns" *)
Definition demo_services : list (file_item serv_line) :=
  [Comment 0 (chars " services"); Line (mk_serv space 0 (chars "ssh") 0 22 (chars "tcp") []);
   Blank 1; Line (mk_serv space 0 (chars "domain") 1 53 (chars "udp") [(0, chars "dns")])].
Definition demo_files (db : db_id) : option (list ascii) :=
  match db with Services => Some (print_items serv_text demo_services) | _ => None end.
Definition no_db : netdb_file := mk_db None false [].
Definition netdb_init : netdb := mk_netdb no_db no_db no_db no_db None.

Lemma netdb_enumerates_witness :
  exists outs st',
    getents demo_files (parse_services_line 32 true) Services 3 (setservent demo_files netdb_init true) =
      (outs ++ [None], st') /\
    Forall2 (answers (describes_serv true)) (lines_of demo_services) outs.
Proof.
  destruct (netdb_enumerates demo_files (fun _ => None) 32 true ltac:(lia)) as (_ & _ & _ & H).
  apply (H demo_services netdb_init); [done|by vm_compute].
Defined.

Lemma chars_inj s t : chars s = chars t -> t = s.
Proof.
  intros H. apply (f_equal String.string_of_list_ascii) in H. unfold chars in H.
  by rewrite !String.string_of_list_ascii_of_string in H.
Qed.

(** the lookups by name and by number return the first line of the file
    that has what is asked for, from any state of the databases; a network
    that no line has may be the built-in "loopback". *)
Theorem netdb_lookups (files : db_id -> option (list ascii)) (ulong : Z) (little_endian : bool) (st : netdb)
  (servs : list (file_item serv_line)) (protos nets : list (file_item num_line)) :
  (32 <= ulong)%Z ->
  files Services = Some (print_items serv_text servs) -> forallb (item_ok serv_text serv_ok) servs = true ->
  files Protocols = Some (print_items num_text protos) -> forallb (item_ok num_text num_ok) protos = true ->
  files Networks = Some (print_items num_text nets) -> forallb (item_ok num_text num_ok) nets = true ->
  (forall name proto,
     match find (fun l => name_is (Some name) (sl_name l) && name_is proto (sl_proto l)) (lines_of servs) with
     | Some l => exists e st', getservbyname files ulong little_endian st (Some name) proto = (Some e, st') /\
         describes_serv little_endian e (line (services_db st')) l
     | None => exists st', getservbyname files ulong little_endian st (Some name) proto = (None, st')
     end) /\
  (forall port proto,
     match find (fun l => (htons little_endian (sl_port l) =? port)%Z && name_is proto (sl_proto l)) (lines_of servs) with
     | Some l => exists e st', getservbyport files ulong little_endian st port proto = (Some e, st') /\
         describes_serv little_endian e (line (services_db st')) l
     | None => exists st', getservbyport files ulong little_endian st port proto = (None, st')
     end) /\
  (forall name,
     match find (fun l => name_is (Some name) (nl_name l)) (lines_of protos) with
     | Some l => exists e st', getprotobyname files ulong st (Some name) = (Some e, st') /\
         describes_proto e (line (protocols_db st')) l
     | None => exists st', getprotobyname files ulong st (Some name) = (None, st')
     end) /\
  (forall proto,
     match find (fun l => nl_num l =? proto)%Z (lines_of protos) with
     | Some l => exists e st', getprotobynumber files ulong st proto = (Some e, st') /\
         describes_proto e (line (protocols_db st')) l
     | None => exists st', getprotobynumber files ulong st proto = (None, st')
     end) /\
  (forall name,
     match find (fun l => name_is (Some name) (nl_name l)) (lines_of nets) with
     | Some l => exists e st', getnetbyname files ulong st (Some name) = (Some (FromFile e), st') /\
         describes_net e (line (networks_db st')) l
     | None => exists st', getnetbyname files ulong st (Some name) =
         (if bool_decide (name = "loopback"%string) then Some (Fallback "loopback" 127) else None, st')
     end).
Proof.
  intros Hw Hs Hsok Hp Hpok Hn Hnok.
  pose proof (serv_db ulong little_endian Hw) as Hsdb. pose proof (proto_db ulong Hw) as Hpdb.
  pose proof (net_db ulong Hw) as Hndb. repeat split.
  - intros name proto.
    apply (scan_db_spec files _ serv_text serv_ok (describes_serv little_endian) Services); [|done..].
    intros e buf l _ (-> & _ & -> & _). by rewrite andb_true_r.
  - intros port proto.
    apply (scan_db_spec files _ serv_text serv_ok (describes_serv little_endian) Services); [|done..].
    intros e buf l _ (_ & -> & -> & _). cbn [name_is]. rewrite (bool_decide_eq_true_2 (@None string = None)) by done.
    cbn [andb]. by rewrite negb_involutive.
  - intros name. apply (scan_db_spec files _ num_text num_ok describes_proto Protocols); [|done..].
    intros e buf l _ (-> & _ & _). by rewrite andb_true_r.
  - intros proto. apply (scan_db_spec files _ num_text num_ok describes_proto Protocols); [|done..].
    intros e buf l _ (_ & -> & _). cbn [name_is andb]. by rewrite negb_involutive.
  - intros name.
    pose proof (scan_db_spec files (parse_networks_line ulong) num_text num_ok describes_net Networks
      (fun buf e => name_is (Some name) (str_at buf (n_name e)) && negb (false && negb (n_net e =? 0)%Z))
      (fun l => name_is (Some name) (nl_name l)) st nets) as Hscan.
    unfold getnetbyname, scan_networks. destruct (find _ (lines_of nets)) as [l|].
    + destruct Hscan as (e & st' & -> & Hd); [|done..|by eexists _, _].
      intros e buf l' _ (-> & _ & _). by rewrite andb_true_r.
    + destruct Hscan as (st' & ->); [|done..|]. { intros e buf l' _ (-> & _ & _). by rewrite andb_true_r. }
      exists st'. f_equal. cbn [fallback lookup_network_fallback name_is].
      case_bool_decide as Hc; case_bool_decide as Hn'; try done.
      * destruct Hn'. by apply chars_inj.
      * by subst name.
Qed.

Definition demo_protocols : list (file_item num_line) :=
  [Line (mk_num tab 0 (chars "icmp") 0 1 []); Line (mk_num tab 0 (chars "tcp") 0 6 [(1, chars "TCP")])].
Definition demo_dbs (db : db_id) : option (list ascii) :=
  match db with
  | Services => Some (print_items serv_text demo_services)
  | Protocols => Some (print_items num_text demo_protocols)
  | Networks => Some []
  | Hosts => None
  end.

Lemma netdb_lookups_witness :
  (exists e st', getservbyport demo_dbs 32 true netdb_init (htons true 53) (Some "udp"%string) = (Some e, st') /\
     describes_serv true e (line (services_db st')) (mk_serv space 0 (chars "domain") 1 53 (chars "udp") [(0, chars "dns")])) /\
  (exists st', getnetbyname demo_dbs 32 netdb_init (Some "loopback"%string) = (Some (Fallback "loopback" 127), st')).
Proof.
  destruct (netdb_lookups demo_dbs 32 true netdb_init demo_services demo_protocols []) as (_ & Hport & _ & _ & Hnet);
    [lia|done|by vm_compute|done|by vm_compute|done|done|].
  split; [exact (Hport (htons true 53) (Some "udp"%string))|exact (Hnet "loopback"%string)].
Defined.

(** Without set*ent(1) each call of get*ent opens the file again: it returns
    the first entry every time, and a loop until NULL does not end. *)
Lemma getent_repeats {E L} files (parse : list ascii -> list ascii * option E) (text : L -> list ascii) ok describes
  `{!NetDb parse text ok describes} db its l rest n : forall st,
  files db = Some (print_items text its) -> forallb (item_ok text ok) its = true ->
  first_line (fun _ => true) its = Some (l, rest) ->
  fp (db_get st db) = None -> stayopen (db_get st db) = false ->
  exists outs st', getents files parse db n st = (outs, st') /\ length outs = n /\
    Forall (answers describes l) outs.
Proof.
  induction n as [|n IH]; intros st Hf Hok Hl Hfp Hst; [by exists [], st|]. cbn [getents].
  assert (Hopen : db_get (netdb_open files st db) db =
    mk_db (Some (print_items text its)) false (line (db_get st db))).
  { unfold netdb_open. rewrite Hfp, Hf. unfold set_fp, netdb_release_others.
    rewrite !db_get_active, !db_get_set, !release_other_get. by rewrite Hst. }
  assert (Hg : getent files parse st db = getent files parse (netdb_open files st db) db).
  { assert (Ho : netdb_open files (netdb_open files st db) db = netdb_open files st db)
      by (unfold netdb_open at 1; by rewrite Hopen).
    unfold getent. by rewrite Ho. }
  pose proof (getent_open files parse text ok describes db (netdb_open files st db) its false _ Hopen Hok) as Hget.
  rewrite Hl in Hget. destruct Hget as (e & st1 & buf1 & Hg1 & Hd & Hst1). rewrite Hg, Hg1.
  destruct (IH st1 Hf Hok Hl) as (outs & st2 & -> & Hlen & Hall); [by rewrite Hst1..|].
  eexists _, _. split; [done|]. split; [by simpl; f_equal|]. constructor; [|done].
  exists e, buf1. by rewrite Hst1.
Qed.

(** Lines the parsers do not take as meant: a tab before a space joins
    the first two words (here the protocol "tcp" with number 6 becomes one
    with a tab in its name and number 0); a blank at the end is an empty
    alias, and a comment behind an entry is aliases. *)
Lemma netdb_mixed_blanks :
  snd (parse_protocols_line 32 (chars "tcp" ++ tab :: chars "6 TCP" ++ [NUL])) =
    Some (mk_protoent 0 [] 0).
Proof. by vm_compute. Qed.

Lemma netdb_trailing_blank :
  let '(buf, e) := parse_protocols_line 32 (chars "tcp 6 TCP # net" ++ [space; NUL]) in
  match e with Some e => str_at buf <$> p_aliases e | None => [] end = [chars "TCP"; chars "#"; chars "net"; []].
Proof. by vm_compute. Qed.
