(* ===== verification/Inet.v ===== *)
(** * Internet addresses as text

    options/networking/inet_addr.c and inet_ntoa.c.  An in_addr_t is a 32-bit
    number; its bytes in memory depend on the byte order of the machine. *)

From stdpp Require Import base list strings sets.
From Stdlib Require Import ZArith Lia Ascii.
From S2P Require Import Prelude CString Text.

Local Open Scope Z_scope.

(** INET_ADDRSTRLEN, which POSIX sets to 16. *)
Definition INET_ADDRSTRLEN : nat := 16.

Definition dot : ascii := "."%char.

(** The first loop, [n] turns from its end: [Some None] is "return -1",
    otherwise dots, digits and len. *)
Fixpoint addr_scan (n : nat) (cp : list ascii) (subdigits dots digits len : Z)
  : option (option (Z * Z * Z)) :=
  match n with
  | O => Some (Some (dots, digits, len))
  | S n' =>
      if 3 <? subdigits then Some None
      else
        match cp with
        | [] => None
        | c :: cp' =>
            if bool_decide (c = NUL) then Some (Some (dots, digits, len))
            else if bool_decide (c = dot) then
              if subdigits =? 0 then Some None
              else addr_scan n' cp' 0 (dots + 1) digits (len + 1)
            else if isdigit c then addr_scan n' cp' (subdigits + 1) dots (digits + 1) (len + 1)
            else if isspace c then Some (Some (dots, digits, len))
            else Some None
        end
  end.

(** The second loop: [n] characters are left. *)
Fixpoint addr_value (n : nat) (cp : list ascii) (val tmp : Z) : option Z :=
  match n with
  | O => Some val
  | S n' =>
      match cp with
      | [] => None
      | c :: cp' =>
          let tmp1 := if bool_decide (c = dot) then tmp else swrap 32 (swrap 32 (tmp * 10) + digit_val c) in
          if bool_decide (c = dot) || (n' =? 0)%nat
          then addr_value n' cp' (Z.lor (uwrap 32 (Z.shiftl val 8)) (uwrap 32 tmp1)) 0
          else addr_value n' cp' val tmp1
      end
  end.

Section order.
Context (little_endian : bool).

Definition bswap (x : Z) : Z :=
  (x mod 256) * 16777216 + (x / 256 mod 256) * 65536 + (x / 65536 mod 256) * 256 + x / 16777216.
Definition htonl (x : Z) : Z := if little_endian then bswap x else x.

(** (in_addr_t)-1 *)
Definition INADDR_NONE : Z := 4294967295.

(** [None] reads past the end of the text. *)
Definition inet_addr (cp : option (list ascii)) : option Z :=
  match cp with
  | None => Some INADDR_NONE
  | Some cp =>
      match addr_scan (INET_ADDRSTRLEN + 1) cp 0 0 0 0 with
      | None => None
      | Some None => Some INADDR_NONE
      | Some (Some (dots, digits, len)) =>
          if negb (dots =? 3) || (digits <? 4) then Some INADDR_NONE
          else htonl <$> addr_value (Z.to_nat len) cp 0 0
      end
  end.

(** The byte [i] of the object that holds [x]. *)
Definition byte_of (x : Z) (i : Z) : Z :=
  if little_endian then x / 256 ^ i mod 256 else x / 256 ^ (3 - i) mod 256.

Definition dotted (a b c d : Z) : list ascii := dec a ++ dot :: dec b ++ dot :: dec c ++ dot :: dec d.

(** snprintf cuts the text to the buffer. *)
Definition inet_ntoa (x : Z) : list ascii :=
  take (INET_ADDRSTRLEN - 1) (dotted (byte_of x 0) (byte_of x 1) (byte_of x 2) (byte_of x 3)) ++ [NUL].
End order.

(** ** Scanning numbers *)

Lemma digit_range c : isdigit c = true -> 0 <= digit_val c < 10.
Proof.
  unfold isdigit, in_range, digit_val. rewrite andb_true_iff, !Nat.leb_le. lia.
Qed.

(** A byte has one to three digits. *)
Lemma dec_byte n : 0 <= n < 256 -> forallb isdigit (dec n) = true /\ digits_val (dec n) 0 = n /\
  (1 <= length (dec n) <= 3)%nat.
Proof.
  intros Hn.
  assert (Hall : forallb (fun k => let s := dec (Z.of_nat k) in
    forallb isdigit s && (digits_val s 0 =? Z.of_nat k) && (1 <=? length s)%nat && (length s <=? 3)%nat)
    (seq 0 256) = true) by (by vm_compute).
  rewrite forallb_forall in Hall. specialize (Hall (Z.to_nat n)).
  rewrite Z2Nat.id in Hall by lia. rewrite !andb_true_iff, Z.eqb_eq, !Nat.leb_le in Hall.
  destruct Hall as [[[? ?] ?] ?]; [apply in_seq; lia|]. done.
Qed.

Lemma addr_scan_digits ds : forall n rest sub dots digits len,
  forallb isdigit ds = true -> 0 <= sub -> sub + Z.of_nat (length ds) <= 4 ->
  addr_scan (n + length ds) (ds ++ rest) sub dots digits len =
    addr_scan n rest (sub + Z.of_nat (length ds)) dots (digits + Z.of_nat (length ds)) (len + Z.of_nat (length ds)).
Proof.
  induction ds as [|c ds IH]; intros n rest sub dots digits len Hd Hs Hl.
  - simpl. by rewrite !Z.add_0_r, Nat.add_0_r.
  - simpl in Hd. apply andb_true_iff in Hd as [Hc Hd]. cbn [length] in *.
    replace (n + S (length ds))%nat with (S (n + length ds)) by lia. cbn [addr_scan app].
    rewrite ltb_false, !bool_decide_eq_false_2, Hc by (lia || by apply digit_not).
    rewrite IH by (done || lia). f_equal; lia.
Qed.

Lemma addr_value_digits ds : forall n rest val tmp k,
  forallb isdigit ds = true -> 0 <= tmp < 10 ^ k -> 0 <= k -> k + Z.of_nat (length ds) <= 5 -> (1 <= n)%nat ->
  addr_value (n + length ds) (ds ++ rest) val tmp = addr_value n rest val (digits_val ds tmp).
Proof.
  induction ds as [|c ds IH]; intros n rest val tmp k Hd Ht Hk Hl Hn.
  - simpl. by rewrite Nat.add_0_r.
  - simpl in Hd. apply andb_true_iff in Hd as [Hc Hd]. cbn [length] in *.
    replace (n + S (length ds))%nat with (S (n + length ds)) by lia. cbn [addr_value app].
    rewrite (bool_decide_eq_false_2 (c = dot)) by (by apply digit_not).
    destruct (Nat.eqb_spec (n + length ds) 0) as [|_]; [lia|]. cbn [orb].
    cbn [digits_val]. rewrite Hc. pose proof (digit_range c Hc) as Hr.
    assert (10 ^ k <= 10 ^ 4) by (apply Z.pow_le_mono_r; lia). change (10 ^ 4) with 10000 in *.
    rewrite (swrap32_id (tmp * 10)), swrap32_id by lia. replace (tmp * 10) with (10 * tmp) by lia.
    apply (IH n rest val _ (k + 1)); [done| |lia|lia|done].
    rewrite Z.pow_add_r by lia. lia.
Qed.

(** The end of a number: a dot, or the last character. *)
Lemma addr_value_dot n rest val tmp :
  addr_value (S n) (dot :: rest) val tmp =
    addr_value n rest (Z.lor (uwrap 32 (Z.shiftl val 8)) (uwrap 32 tmp)) 0.
Proof. done. Qed.

(** A number behind which a dot stands. *)
Lemma addr_value_octet a n rest val :
  0 <= a < 256 ->
  addr_value (S n + length (dec a)) (dec a ++ dot :: rest) val 0 =
    addr_value n rest (Z.lor (uwrap 32 (Z.shiftl val 8)) a) 0.
Proof.
  intros Ha. destruct (dec_byte a Ha) as (Hd & Hv & Hl).
  rewrite (addr_value_digits (dec a) (S n) (dot :: rest) val 0 0) by (done || lia).
  rewrite addr_value_dot, Hv. by rewrite (uwrap32_id a) by lia.
Qed.

Lemma addr_value_last a rest val :
  0 <= a < 256 ->
  addr_value (length (dec a)) (dec a ++ rest) val 0 = Some (Z.lor (uwrap 32 (Z.shiftl val 8)) a).
Proof.
  intros Ha. destruct (dec_byte a Ha) as (Hd & Hv & Hl).
  destruct (dec a) as [|c ds] using rev_ind; [simpl in Hl; lia|]. clear IHds.
  rewrite forallb_app in Hd. apply andb_true_iff in Hd as [Hds Hc]. simpl in Hc. rewrite andb_true_r in Hc.
  rewrite length_app in *. simpl in Hl |- *. rewrite <- app_assoc. cbn [app].
  rewrite digits_val_app in Hv by done. cbn [digits_val] in Hv. rewrite Hc in Hv.
  replace (length ds + 1)%nat with (1 + length ds)%nat by lia.
  rewrite (addr_value_digits ds 1 (c :: rest) val 0 0) by (done || lia).
  cbn [addr_value]. rewrite (bool_decide_eq_false_2 (c = dot)) by (by apply digit_not). cbn [orb Nat.eqb].
  pose proof (digit_range c Hc) as Hr.
  rewrite (swrap32_id (digits_val ds 0 * 10)), swrap32_id by lia. replace (digits_val ds 0 * 10 + digit_val c) with a by lia.
  by rewrite (uwrap32_id a) by lia.
Qed.

Lemma lor_byte v a : 0 <= v < 2 ^ 24 -> 0 <= a < 256 -> Z.lor (uwrap 32 (Z.shiftl v 8)) a = v * 256 + a.
Proof.
  intros Hv Ha. rewrite Z.shiftl_mul_pow2 by lia. change (2 ^ 8) with 256. rewrite uwrap32_id by lia.
  apply Z.bits_inj'. intros i Hi. rewrite Z.lor_spec.
  destruct (Z.lt_ge_cases i 8) as [Hlt|Hge].
  - change 256 with (2 ^ 8) at 1. rewrite Z.mul_pow2_bits_low by lia. cbn [orb].
    replace (v * 256 + a) with (a + v * 2 ^ 8) by lia.
    rewrite <- (Z.mod_pow2_bits_low (a + v * 2 ^ 8) 8 i), Z.mod_add by lia.
    by rewrite (Z.mod_small a (2 ^ 8)) by lia.
  - assert (Hd : forall x, Z.testbit x i = Z.testbit (x / 2 ^ 8) (i - 8)).
    { intros x. rewrite Z.div_pow2_bits by lia. f_equal. lia. }
    rewrite (Hd (v * 256)), (Hd a), (Hd (v * 256 + a)). change (2 ^ 8) with 256.
    rewrite Z.div_mul by lia. rewrite (Z.div_small a 256) by lia.
    replace (v * 256 + a) with (a + v * 256) by lia. rewrite Z.div_add by lia.
    rewrite (Z.div_small a 256), Z.bits_0, orb_false_r by lia. done.
Qed.

Lemma addr_scan_octet a n rest dots digits len :
  0 <= a < 256 ->
  addr_scan (S n + length (dec a)) (dec a ++ dot :: rest) 0 dots digits len =
    addr_scan n rest 0 (dots + 1) (digits + Z.of_nat (length (dec a))) (len + Z.of_nat (length (dec a)) + 1).
Proof.
  intros Ha. destruct (dec_byte a Ha) as (Hd & _ & Hl).
  rewrite (addr_scan_digits (dec a) (S n) (dot :: rest)) by (done || lia). cbn [addr_scan].
  rewrite ltb_false by lia. rewrite (bool_decide_eq_false_2 (dot = NUL)), (bool_decide_eq_true_2 (dot = dot)) by done.
  by rewrite eqb_false by lia.
Qed.

Lemma addr_scan_last a n rest dots digits len :
  0 <= a < 256 ->
  addr_scan (S n + length (dec a)) (dec a ++ NUL :: rest) 0 dots digits len =
    Some (Some (dots, digits + Z.of_nat (length (dec a)), len + Z.of_nat (length (dec a)))).
Proof.
  intros Ha. destruct (dec_byte a Ha) as (Hd & _ & Hl).
  rewrite (addr_scan_digits (dec a) (S n) (NUL :: rest)) by (done || lia). cbn [addr_scan].
  rewrite ltb_false by lia. by rewrite (bool_decide_eq_true_2 (NUL = NUL)).
Qed.

(** inet_addr reads a dotted address. *)
Lemma inet_addr_dotted le a b c d rest :
  0 <= a < 256 -> 0 <= b < 256 -> 0 <= c < 256 -> 0 <= d < 256 ->
  inet_addr le (Some (dotted a b c d ++ NUL :: rest)) = Some (htonl le (((a * 256 + b) * 256 + c) * 256 + d)).
Proof.
  intros Ha Hb Hc Hd. destruct (dec_byte a Ha) as (_ & _ & Hla), (dec_byte b Hb) as (_ & _ & Hlb),
    (dec_byte c Hc) as (_ & _ & Hlc), (dec_byte d Hd) as (_ & _ & Hld).
  set (la := length (dec a)) in *. set (lb := length (dec b)) in *.
  set (lc := length (dec c)) in *. set (ld := length (dec d)) in *.
  assert (Htext : dotted a b c d ++ NUL :: rest =
    dec a ++ dot :: dec b ++ dot :: dec c ++ dot :: dec d ++ NUL :: rest) by (unfold dotted; bufeq).
  unfold inet_addr. rewrite Htext.
  set (k := (INET_ADDRSTRLEN + 1 - (la + lb + lc + ld + 4))%nat).
  replace (INET_ADDRSTRLEN + 1)%nat with (S (S (S (S k + ld) + lc) + lb) + la)%nat
    by (unfold k, INET_ADDRSTRLEN; lia).
  unfold la, lb, lc, ld. rewrite !addr_scan_octet, addr_scan_last by done. fold la lb lc ld.
  rewrite eqb_true, ltb_false by lia. cbn [negb orb].
  match goal with |- context [Z.to_nat ?e] => replace (Z.to_nat e) with (S (S (S ld + lc) + lb) + la)%nat by lia end.
  unfold la, lb, lc, ld. rewrite !addr_value_octet, addr_value_last by done.
  simpl fmap. f_equal. f_equal. rewrite (lor_byte 0 a), (lor_byte _ b), (lor_byte _ c), (lor_byte _ d) by lia. lia.
Qed.

Lemma low_byte v b : 0 <= b < 256 -> (v * 256 + b) mod 256 = b /\ (v * 256 + b) / 256 = v.
Proof.
  intros Hb. rewrite Z.add_comm, Z.mod_add, Z.div_add by lia.
  rewrite Z.mod_small, Z.div_small by lia. lia.
Qed.

Lemma bswap_bytes a b c d :
  0 <= a < 256 -> 0 <= b < 256 -> 0 <= c < 256 -> 0 <= d < 256 ->
  bswap (((a * 256 + b) * 256 + c) * 256 + d) = ((d * 256 + c) * 256 + b) * 256 + a.
Proof.
  intros Ha Hb Hc Hd. unfold bswap. change 65536 with (256 * 256). change 16777216 with (256 * (256 * 256)).
  rewrite <- !Z.div_div by lia.
  rewrite !(proj2 (low_byte _ d Hd)), !(proj1 (low_byte _ d Hd)), !(proj2 (low_byte _ c Hc)),
    !(proj1 (low_byte _ c Hc)), !(proj2 (low_byte _ b Hb)), !(proj1 (low_byte _ b Hb)). lia.
Qed.

(** A number from its bytes. *)
Lemma bytes_join x :
  0 <= x < 2 ^ 32 ->
  ((x / 16777216 mod 256 * 256 + x / 65536 mod 256) * 256 + x / 256 mod 256) * 256 + x / 1 mod 256 = x.
Proof.
  intros Hx. rewrite Z.div_1_r. change 65536 with (256 * 256). change 16777216 with (256 * (256 * 256)).
  rewrite <- !Z.div_div by lia. rewrite (Z.mod_small (x / 256 / 256 / 256)).
  - pose proof (Z.div_mod x 256). pose proof (Z.div_mod (x / 256) 256). pose proof (Z.div_mod (x / 256 / 256) 256). lia.
  - split; [repeat apply Z.div_pos; lia|]. rewrite !Z.div_div by lia. apply Z.div_lt_upper_bound; lia.
Qed.

(** Inet_addr reads back what inet_ntoa writes, for every address and
    either byte order; the text fits the buffer. *)
Theorem inet_round_trip (little_endian : bool) (x : Z) :
  0 <= x < 2 ^ 32 -> inet_addr little_endian (Some (inet_ntoa little_endian x)) = Some x.
Proof.
  intros Hx. unfold inet_ntoa.
  assert (Hb : forall i, 0 <= byte_of little_endian x i < 256)
    by (intros i; unfold byte_of; case_match; by apply Z.mod_pos_bound).
  pose proof (dec_byte _ (Hb 0)) as (_ & _ & H0). pose proof (dec_byte _ (Hb 1)) as (_ & _ & H1).
  pose proof (dec_byte _ (Hb 2)) as (_ & _ & H2). pose proof (dec_byte _ (Hb 3)) as (_ & _ & H3).
  rewrite take_ge.
  2: { unfold dotted. repeat first [progress cbn [length] | rewrite length_app]. unfold INET_ADDRSTRLEN. lia. }
  rewrite inet_addr_dotted by done. f_equal. unfold htonl. destruct little_endian.
  - rewrite bswap_bytes by done. by apply bytes_join.
  - by apply bytes_join.
Qed.

(** 127.0.0.1 in network order on a little-endian machine. *)
Lemma inet_round_trip_witness : inet_addr true (Some (inet_ntoa true 16777343)) = Some 16777343.
Proof. apply (inet_round_trip true 16777343). lia. Defined.

(** What inet_addr takes that is no address: numbers above 255 run into the
    next byte, and the last number may be missing. *)
Lemma inet_addr_too_big : inet_addr false (Some (cstr "1.2.3.999")) = inet_addr false (Some (cstr "1.2.3.231")).
Proof. by vm_compute. Qed.

Lemma inet_addr_no_last : inet_addr false (Some (cstr "1.22.3.")) = Some (1 * 65536 + 22 * 256 + 3).
Proof. by vm_compute. Qed.
