(* ===== verification/Sockaddr.v ===== *)
(** * Socket addresses

    include/zephyr/posix/net/conversion.h and the calls of
    options/networking that convert addresses: bind.c, connect.c, sendto.c,
    getnameinfo.c, accept.c, getpeername.c, getsockname.c and recvfrom.c.

    An object in memory is the list of its bytes.  The layouts of the POSIX
    and of the native structures, which belong to the C library and to the
    network stack, and the values of the address families are parameters; the
    calls into the network stack are arguments.  [None] is an access outside
    an object.  Assertions are compiled out, as is the default. *)

From stdpp Require Import base list.
From Stdlib Require Import ZArith Lia.
From S2P Require Import Prelude.

Local Open Scope nat_scope.

(** ** Fields *)

Record field := mk_field { f_off : nat; f_size : nat }.

#[export] Instance field_eq_dec : EqDecision field.
Proof. solve_decision. Defined.

Definition in_object (size : nat) (f : field) : bool := f_off f + f_size f <=? size.
Definition disjoint_fields (f g : field) : bool :=
  (f_off f + f_size f <=? f_off g) || (f_off g + f_size g <=? f_off f).

Definition get (obj : list Z) (f : field) : option (list Z) :=
  if in_object (length obj) f then Some (take (f_size f) (drop (f_off f) obj)) else None.

(** The field overwritten; [v] has its size. *)
Definition put (obj : list Z) (f : field) (v : list Z) : list Z :=
  take (f_off f) obj ++ v ++ drop (f_off f + f_size f) obj.

(** POSIX_NET_FIELD_LAYOUT_EQ *)
Definition field_layout_eq (f g : field) : bool :=
  (f_size f =? f_size g) && (f_off f =? f_off g).

Section order.
Context (little_endian : bool).

Fixpoint le_val (bs : list Z) : Z :=
  match bs with [] => 0 | b :: bs' => b + 256 * le_val bs' end%Z.
Fixpoint le_bytes (n : nat) (v : Z) : list Z :=
  match n with O => [] | S n' => (v mod 256)%Z :: le_bytes n' (v / 256) end.

(** An unsigned integer in memory, and one of [n] bytes with the value [v]
    (its low bytes). *)
Definition int_val (bs : list Z) : Z := le_val (if little_endian then bs else rev bs).
Definition int_bytes (n : nat) (v : Z) : list Z :=
  if little_endian then le_bytes n v else rev (le_bytes n v).

(** ** Copying a structure field by field *)

(** An integer, an integer cast to a byte, or the bytes of an array. *)
Inductive copy :=
  | CInt (from to : field)
  | CInt8 (from to : field)
  | CBytes (from to : field).

Definition copy_from (c : copy) : field := match c with CInt f _ | CInt8 f _ | CBytes f _ => f end.
Definition copy_to (c : copy) : field := match c with CInt _ t | CInt8 _ t | CBytes _ t => t end.

(** What is written into the destination, which is zero before. *)
Definition copied (c : copy) (src : list Z) : list Z :=
  let n := f_size (copy_to c) in
  match c with
  | CInt _ _ => int_bytes n (int_val src)
  | CInt8 _ _ => int_bytes n (int_val src mod 256)%Z
  | CBytes f t => let m := Nat.min (f_size f) (f_size t) in take m src ++ replicate (n - m) 0%Z
  end.

Fixpoint copy_fields (cs : list copy) (obj out : list Z) : option (list Z) :=
  match cs with
  | [] => Some out
  | c :: cs' =>
      match get obj (copy_from c) with
      | None => None
      | Some src => copy_fields cs' obj (put out (copy_to c) (copied c src))
      end
  end.

(** The result of a conversion: whether it is the object that was passed (a
    cast) or the buffer, the bytes there, and *buf_len.  The buffer has room
    for [room] bytes. *)
Definition convert (same : bool) (size : nat) (cs : list copy) (obj : list Z) (room : nat)
  : option (bool * list Z * nat) :=
  if same then Some (true, obj, size)
  else if room <? size then None
  else match copy_fields cs obj (replicate size 0%Z) with
       | None => None
       | Some out => Some (false, out, size)
       end.

(** ** The structures *)

Record in_layout := mk_in { in_size : nat; sin_family : field; sin_port : field; sin_addr : field }.
Record in6_layout := mk_in6 {
  in6_size : nat; sin6_family : field; sin6_port : field; sin6_flowinfo : field; sin6_addr : field;
  sin6_scope_id : field }.
Record un_layout := mk_un { un_size : nat; sun_family : field; sun_path : field }.

(** The layouts of one side and its address families. *)
Record abi := mk_abi {
  l_in : in_layout; l_in6 : in6_layout; l_un : un_layout;
  AF_INET : Z; AF_INET6 : Z; AF_UNIX : Z }.

Context (posix zephyr : abi).
(** sa_family, at the same place in every address; the families that only the
    network stack has, with the sizes of their addresses. *)
Context (sa_family : field) (native_size : Z -> option nat).

Definition posix_sockaddr_in_layout_eq : bool :=
  let z := l_in zephyr in let p := l_in posix in
  (AF_INET posix =? AF_INET zephyr)%Z && (in_size z =? in_size p) &&
  field_layout_eq (sin_family z) (sin_family p) && field_layout_eq (sin_port z) (sin_port p) &&
  field_layout_eq (sin_addr z) (sin_addr p).

Definition posix_sockaddr_in6_layout_eq : bool :=
  let z := l_in6 zephyr in let p := l_in6 posix in
  (AF_INET6 posix =? AF_INET6 zephyr)%Z && (in6_size z =? in6_size p) &&
  field_layout_eq (sin6_family z) (sin6_family p) && field_layout_eq (sin6_port z) (sin6_port p) &&
  field_layout_eq (sin6_flowinfo z) (sin6_flowinfo p) && field_layout_eq (sin6_addr z) (sin6_addr p) &&
  field_layout_eq (sin6_scope_id z) (sin6_scope_id p).

Definition posix_sockaddr_un_layout_eq : bool :=
  let z := l_un zephyr in let p := l_un posix in
  (AF_UNIX posix =? AF_UNIX zephyr)%Z && (un_size z =? un_size p) &&
  field_layout_eq (sun_family z) (sun_family p) && field_layout_eq (sun_path z) (sun_path p).

Definition in_copies (from to : in_layout) : list copy :=
  [CInt (sin_family from) (sin_family to); CInt (sin_port from) (sin_port to);
   CInt (sin_addr from) (sin_addr to)].
Definition in6_copies (scope : field -> field -> copy) (from to : in6_layout) : list copy :=
  [CInt (sin6_family from) (sin6_family to); CInt (sin6_port from) (sin6_port to);
   CInt (sin6_flowinfo from) (sin6_flowinfo to); scope (sin6_scope_id from) (sin6_scope_id to);
   CBytes (sin6_addr from) (sin6_addr to)].
Definition un_copies (from to : un_layout) : list copy :=
  [CInt (sun_family from) (sun_family to); CBytes (sun_path from) (sun_path to)].

Definition posix_sockaddr_in_to_zephyr (obj : list Z) (room : nat) :=
  convert posix_sockaddr_in_layout_eq (in_size (l_in zephyr)) (in_copies (l_in posix) (l_in zephyr)) obj room.
Definition zephyr_sockaddr_in_to_posix (obj : list Z) (room : nat) :=
  convert posix_sockaddr_in_layout_eq (in_size (l_in posix)) (in_copies (l_in zephyr) (l_in posix)) obj room.
Definition posix_sockaddr_in6_to_zephyr (obj : list Z) (room : nat) :=
  convert posix_sockaddr_in6_layout_eq (in6_size (l_in6 zephyr))
    (in6_copies CInt8 (l_in6 posix) (l_in6 zephyr)) obj room.
Definition zephyr_sockaddr_in6_to_posix (obj : list Z) (room : nat) :=
  convert posix_sockaddr_in6_layout_eq (in6_size (l_in6 posix))
    (in6_copies CInt (l_in6 zephyr) (l_in6 posix)) obj room.
Definition posix_sockaddr_un_to_zephyr (obj : list Z) (room : nat) :=
  convert posix_sockaddr_un_layout_eq (un_size (l_un zephyr)) (un_copies (l_un posix) (l_un zephyr)) obj room.
Definition zephyr_sockaddr_un_to_posix (obj : list Z) (room : nat) :=
  convert posix_sockaddr_un_layout_eq (un_size (l_un posix)) (un_copies (l_un zephyr) (l_un posix)) obj room.

(** addr->sa_family *)
Definition family_of (obj : list Z) : option Z := int_val <$> get obj sa_family.

Definition posix_sockaddr_to_zephyr (addr : list Z) (addrlen room : nat) : option (bool * list Z * nat) :=
  match family_of addr with
  | None => None
  | Some fam =>
      if (fam =? AF_INET posix)%Z then posix_sockaddr_in_to_zephyr addr room
      else if (fam =? AF_INET6 posix)%Z then posix_sockaddr_in6_to_zephyr addr room
      else if (fam =? AF_UNIX posix)%Z then posix_sockaddr_un_to_zephyr addr room
      else match native_size fam with
           | Some n => Some (true, addr, n)
           | None => Some (true, addr, addrlen)
           end
  end.

(** [buf_len] is *buf_len before the call. *)
Definition zephyr_sockaddr_to_posix (zaddr : list Z) (zaddrlen buf_len room : nat) : option (bool * list Z * nat) :=
  match family_of zaddr with
  | None => None
  | Some fam =>
      if (fam =? AF_INET posix)%Z then zephyr_sockaddr_in_to_posix zaddr room
      else if (fam =? AF_INET6 posix)%Z then zephyr_sockaddr_in6_to_posix zaddr room
      else if (fam =? AF_UNIX posix)%Z then zephyr_sockaddr_un_to_posix zaddr room
      else Some (true, zaddr, Nat.min zaddrlen buf_len)
  end.

(** ** The calls *)

(** sizeof(struct sockaddr_storage). *)
Context (storage : nat).

(** What is passed to zsock_bind, zsock_connect, zsock_sendto or
    zsock_getnameinfo: the address and its length. *)
Definition pass_address (addr : list Z) (addrlen : nat) : option (list Z * nat) :=
  match posix_sockaddr_to_zephyr addr addrlen storage with
  | Some (_, zaddr, zlen) => Some (zaddr, zlen)
  | None => None
  end.

Inductive sock_err := EDESTADDRREQ.

Section outgoing.
Context {R : Type} (zsock : option (list Z * nat) -> R).

(** bind and connect; the outer [None] is an access outside an object. *)
Definition bind (addr : option (list Z)) (addrlen : nat) : option (R + sock_err) :=
  match addr with
  | None => Some (inr EDESTADDRREQ)
  | Some a => (fun p => inl (zsock (Some p))) <$> pass_address a addrlen
  end.
Definition connect := bind.

(** sendto and getnameinfo *)
Definition sendto (addr : option (list Z)) (addrlen : nat) : option R :=
  match addr with
  | None => Some (zsock None)
  | Some a => (fun p => zsock (Some p)) <$> pass_address a addrlen
  end.
Definition getnameinfo := sendto.
End outgoing.

(** The end of accept, getpeername, getsockname and recvfrom: [zaddr] and
    [zaddrlen] are what the network stack has given, [addr] is the caller's
    buffer of *addrlen bytes; the buffer and *addrlen after the call. *)
Definition return_address (zaddr : list Z) (zaddrlen : nat) (addr : list Z) : option (list Z * nat) :=
  let addrlen := length addr in
  match zephyr_sockaddr_to_posix zaddr zaddrlen addrlen addrlen with
  | None => None
  | Some (res_is_zaddr, res, out_len) =>
      if res_is_zaddr then
        if (addrlen <? out_len) || (length res <? out_len) then None
        else Some (take out_len res ++ drop out_len addr, out_len)
      else Some (res ++ drop (length res) addr, out_len)
  end.

Section incoming.
(** The call of the network stack: the result, and the address when the
    result is not negative. *)
Context (zsock_ret : Z) (zaddr : list Z) (zaddrlen : nat).

(** [addr] is [None] when addr or addrlen is NULL; the result and the
    caller's buffer and length. *)
Definition accept (addr : option (list Z)) : option (Z * option (list Z * nat)) :=
  match addr with
  | None => Some (zsock_ret, None)
  | Some a =>
      if (zsock_ret <? 0)%Z then Some (zsock_ret, Some (a, length a))
      else match return_address zaddr zaddrlen a with
           | None => None
           | Some p => Some (zsock_ret, Some p)
           end
  end.
Definition getpeername := accept.
Definition getsockname := accept.
Definition recvfrom := accept.
End incoming.
End order.

(** ** Integers and fields *)

Definition bytes_ok (bs : list Z) : Prop := Forall (fun b => 0 <= b < 256)%Z bs.

Lemma le_val_range bs : bytes_ok bs -> (0 <= le_val bs < 256 ^ Z.of_nat (length bs))%Z.
Proof.
  induction 1 as [|b bs Hb Hbs IH]; simpl; [lia|].
  change (Z.pos (Pos.of_succ_nat (length bs))) with (Z.of_nat (S (length bs))).
  rewrite Nat2Z.inj_succ, Z.pow_succ_r by lia. lia.
Qed.

Lemma le_val_bytes n v : (0 <= v < 256 ^ Z.of_nat n)%Z -> le_val (le_bytes n v) = v.
Proof.
  revert v. induction n as [|n IH]; intros v Hv; simpl in *; [lia|].
  change (Z.pos (Pos.of_succ_nat n)) with (Z.of_nat (S n)) in Hv.
  rewrite Nat2Z.inj_succ, Z.pow_succ_r in Hv by lia.
  rewrite IH; [pose proof (Z.div_mod v 256); lia|].
  split; [apply Z.div_pos; lia|apply Z.div_lt_upper_bound; lia].
Qed.

Lemma length_le_bytes n v : length (le_bytes n v) = n.
Proof. revert v. induction n as [|n IH]; intros v; simpl; [done|]. by rewrite IH. Qed.

Lemma le_bytes_ok n v : bytes_ok (le_bytes n v).
Proof.
  revert v. induction n as [|n IH]; intros v; simpl; constructor; [by apply Z.mod_pos_bound|apply IH].
Qed.

Lemma length_put obj f v :
  in_object (length obj) f = true -> length v = f_size f -> length (put obj f v) = length obj.
Proof.
  unfold in_object. intros Hf%Nat.leb_le Hv. unfold put. rewrite !length_app, length_take, length_drop. lia.
Qed.

Lemma get_put_same obj f v :
  in_object (length obj) f = true -> length v = f_size f -> get (put obj f v) f = Some v.
Proof.
  intros Hf Hv. unfold get. rewrite length_put, Hf by done. f_equal. unfold put.
  unfold in_object in Hf. apply Nat.leb_le in Hf.
  rewrite drop_app_length' by (rewrite length_take; lia). by rewrite take_app_length' by lia.
Qed.

Lemma get_put_other obj f g v :
  in_object (length obj) f = true -> length v = f_size f -> disjoint_fields f g = true ->
  get (put obj f v) g = get obj g.
Proof.
  intros Hf Hv Hd. unfold get. rewrite length_put by done.
  destruct (in_object (length obj) g) eqn:Hg; [|done]. f_equal.
  unfold in_object, disjoint_fields in *. rewrite orb_true_iff, !Nat.leb_le in *. unfold put.
  apply list_eq. intros i. destruct (decide (i < f_size g)) as [Hi|Hi]; [|by rewrite !lookup_take_ge by lia].
  rewrite !lookup_take_lt by lia. rewrite !lookup_drop.
  destruct Hd as [Hd|Hd].
  - rewrite lookup_app_r by (rewrite length_take; lia). rewrite length_take.
    rewrite lookup_app_r by lia. rewrite lookup_drop. f_equal. lia.
  - rewrite lookup_app_l by (rewrite length_take; lia). by rewrite lookup_take_lt by lia.
Qed.

Section order_lemmas.
Context (little_endian : bool).

Lemma int_val_bytes n v :
  (0 <= v < 256 ^ Z.of_nat n)%Z -> int_val little_endian (int_bytes little_endian n v) = v.
Proof.
  intros Hv. unfold int_val, int_bytes. destruct little_endian; [|rewrite rev_involutive]; by apply le_val_bytes.
Qed.

Lemma int_val_pos bs : bytes_ok bs -> (0 <= int_val little_endian bs)%Z.
Proof.
  intros Hb. unfold int_val. destruct little_endian; apply le_val_range; [done|].
  by apply Forall_rev.
Qed.

Lemma length_copied c src : length src = f_size (copy_from c) -> length (copied little_endian c src) = f_size (copy_to c).
Proof.
  intros Hs. destruct c as [f t|f t|f t]; simpl in *; unfold int_bytes.
  1-2: destruct little_endian; by rewrite ?length_rev, length_le_bytes.
  rewrite length_app, length_take, length_replicate. lia.
Qed.

Lemma bytes_copied c src : bytes_ok src -> bytes_ok (copied little_endian c src).
Proof.
  intros Hs. unfold bytes_ok. destruct c as [f t|f t|f t]; simpl; unfold int_bytes.
  1-2: destruct little_endian; [|apply Forall_rev]; apply le_bytes_ok.
  apply Forall_app. split; [by apply Forall_take|]. apply Forall_replicate. lia.
Qed.

Lemma length_get obj f src : get obj f = Some src -> length src = f_size f /\ (bytes_ok obj -> bytes_ok src).
Proof.
  unfold get, in_object. destruct (Nat.leb_spec (f_off f + f_size f) (length obj)); [|done]. intros [= <-].
  split; [rewrite length_take, length_drop; lia|]. intros Hb. by apply Forall_take, Forall_drop.
Qed.

Lemma bytes_put obj f v : bytes_ok obj -> bytes_ok v -> bytes_ok (put obj f v).
Proof. intros Ho Hv. unfold put. repeat apply Forall_app_2; [by apply Forall_take|done|by apply Forall_drop]. Qed.

(** ** Conversions keep the fields *)

(** A field can be copied: the source is in the object, and its value fits
    the destination. *)
Definition fits (obj : list Z) (c : copy) : bool :=
  match get obj (copy_from c) with
  | None => false
  | Some src =>
      match c with
      | CInt _ t => (int_val little_endian src <? 256 ^ Z.of_nat (f_size t))%Z
      | CInt8 _ t => (int_val little_endian src <? 256)%Z && (1 <=? f_size t)
      | CBytes f t => f_size f =? f_size t
      end
  end.

(** The field has the same value in both objects. *)
Definition agree (obj out : list Z) (c : copy) : Prop :=
  match c with
  | CBytes f t => get out t = get obj f
  | CInt f t | CInt8 f t => int_val little_endian <$> get out t = int_val little_endian <$> get obj f
  end.

(** The destinations lie in the object and do not overlap. *)
Fixpoint dests_ok (size : nat) (cs : list copy) : bool :=
  match cs with
  | [] => true
  | c :: cs' => in_object size (copy_to c) &&
      forallb (fun d => disjoint_fields (copy_to c) (copy_to d)) cs' && dests_ok size cs'
  end.

Lemma disjoint_sym f g : disjoint_fields f g = disjoint_fields g f.
Proof. unfold disjoint_fields. by rewrite orb_comm. Qed.

Lemma copied_agree obj out c src :
  bytes_ok obj -> get obj (copy_from c) = Some src -> fits obj c = true ->
  get out (copy_to c) = Some (copied little_endian c src) -> agree obj out c.
Proof.
  intros Hb Hs Hf Ho. destruct (length_get obj (copy_from c) src Hs) as [Hlen Hsb]. specialize (Hsb Hb).
  pose proof (int_val_pos src Hsb). unfold fits in Hf. rewrite Hs in Hf.
  destruct c as [f t|f t|f t]; cbn [copy_from copy_to agree copied] in *; rewrite Ho, Hs;
    cbn [fmap option_fmap option_map].
  - apply Z.ltb_lt in Hf. simpl. by rewrite int_val_bytes.
  - apply andb_true_iff in Hf as [Hf%Z.ltb_lt Ht%Nat.leb_le]. simpl. rewrite Z.mod_small by lia.
    rewrite int_val_bytes; [done|]. split; [lia|]. eapply Z.lt_le_trans; [exact Hf|].
    change 256%Z with (256 ^ 1)%Z at 1. apply Z.pow_le_mono_r; lia.
  - apply Nat.eqb_eq in Hf. rewrite <- Hf, Nat.min_id, Nat.sub_diag, app_nil_r. by rewrite take_ge by lia.
Qed.

Lemma copy_fields_spec cs obj : forall out,
  dests_ok (length out) cs = true -> forallb (fits obj) cs = true -> bytes_ok obj -> bytes_ok out ->
  exists out', copy_fields little_endian cs obj out = Some out' /\ length out' = length out /\ bytes_ok out' /\
    Forall (agree obj out') cs /\
    forall g, forallb (fun d => disjoint_fields (copy_to d) g) cs = true -> get out' g = get out g.
Proof.
  induction cs as [|c cs IH]; intros out Hd Hf Hb Ho; simpl in *.
  { by exists out. }
  apply andb_true_iff in Hd as [[Hin Hdis]%andb_true_iff Hd]. apply andb_true_iff in Hf as [Hf Hfs].
  pose proof Hf as Hsrc. unfold fits in Hsrc. destruct (get obj (copy_from c)) as [src|] eqn:Hs; [|done]. clear Hsrc.
  destruct (length_get obj (copy_from c) src Hs) as [Hlen Hsb].
  pose proof (length_copied c src Hlen) as Hl.
  pose proof (length_put out (copy_to c) _ Hin Hl) as Hlp.
  destruct (IH (put out (copy_to c) (copied little_endian c src))) as (out' & He & Hlo & Hbo & Hag & Hkeep).
  - by rewrite Hlp.
  - done.
  - done.
  - apply bytes_put; [done|]. by apply bytes_copied, Hsb.
  - exists out'. split; [done|]. split; [by rewrite Hlo|]. split; [done|]. split.
    + constructor; [|done]. apply (copied_agree obj out' c src); [done..|].
      rewrite Hkeep; [by apply get_put_same|].
      rewrite forallb_forall in Hdis |- *. intros d Hin'. rewrite disjoint_sym. by apply Hdis.
    + intros g [Hcg Hg]%andb_true_iff. rewrite Hkeep by done. by apply get_put_other.
Qed.

(** The two paths of a conversion: a cast, which needs equal layouts, and
    the copy. *)
Lemma convert_spec same size cs obj room :
  (same = true -> Forall (fun c => copy_from c = copy_to c) cs) ->
  dests_ok size cs = true -> forallb (fits obj) cs = true -> bytes_ok obj -> size <= room ->
  exists cast out, convert little_endian same size cs obj room = Some (cast, out, size) /\
    Forall (agree obj out) cs /\ bytes_ok out /\ (if cast then out = obj else length out = size).
Proof.
  intros Hsame Hd Hf Hb Hroom. unfold convert. destruct same.
  - eexists true, obj. split; [done|]. split; [|done]. eapply Forall_impl; [by apply Hsame|].
    intros c Hc. destruct c as [f t|f t|f t]; simpl in *; by rewrite Hc.
  - destruct (Nat.ltb_spec room size); [lia|].
    destruct (copy_fields_spec cs obj (replicate size 0%Z)) as (out & -> & Hl & Hbo & Hag & _);
      [by rewrite length_replicate|done|done|apply Forall_replicate; lia|].
    eexists false, out. rewrite length_replicate in Hl. done.
Qed.

Lemma field_layout_eq_spec f g : field_layout_eq f g = true -> f = g.
Proof.
  unfold field_layout_eq. rewrite andb_true_iff, !Nat.eqb_eq. destruct f, g; simpl. intros [-> ->]. done.
Qed.

(** ** There and back *)

Definition flip (c : copy) : copy :=
  match c with CInt f t | CInt8 f t => CInt t f | CBytes f t => CBytes t f end.

(** The field a copy is from is the same in both objects. *)
Definition kept (obj out : list Z) (c : copy) : Prop :=
  match c with
  | CBytes f _ => get out f = get obj f
  | CInt f _ | CInt8 f _ => int_val little_endian <$> get out f = int_val little_endian <$> get obj f
  end.

Lemma int_val_fits obj f src :
  bytes_ok obj -> get obj f = Some src -> (int_val little_endian src < 256 ^ Z.of_nat (f_size f))%Z.
Proof.
  intros Hb [Hl Hs]%length_get. specialize (Hs Hb). unfold int_val. rewrite <- Hl.
  destruct little_endian; [by apply le_val_range|]. rewrite <- length_rev. by apply le_val_range, Forall_rev.
Qed.

Lemma fits_flip obj zobj c :
  bytes_ok obj -> fits obj c = true -> agree obj zobj c -> fits zobj (flip c) = true.
Proof.
  intros Hb Hf Ha. unfold fits in Hf. destruct (get obj (copy_from c)) as [src|] eqn:Hs; [|done].
  pose proof (int_val_fits obj _ src Hb Hs) as Hr.
  destruct c as [f t|f t|f t]; cbn [copy_from flip agree] in *; rewrite Hs in Ha; unfold fits; cbn [copy_from].
  3: { rewrite Ha. apply Nat.eqb_eq in Hf. by apply Nat.eqb_eq. }
  all: destruct (get zobj t) as [z|] eqn:Hz; [|done]; injection Ha as ->; by apply Z.ltb_lt.
Qed.

Lemma agree_trans obj zobj out c : agree obj zobj c -> agree zobj out (flip c) -> kept obj out c.
Proof. destruct c as [f t|f t|f t]; simpl; intros H1 H2; by rewrite H2. Qed.

Section abis.
Context (posix zephyr : abi) (sa_family : field) (native_size : Z -> option nat).

(** The conversion of an address family: whether the layouts are equal, the
    sizes of the structures, and the fields copied to the native one. *)
Record conv := mk_conv { cv_same : bool; cv_zsize : nat; cv_psize : nat; cv_copies : list copy }.

Definition conv_of (fam : Z) : option conv :=
  if (fam =? AF_INET posix)%Z then
    Some (mk_conv (posix_sockaddr_in_layout_eq posix zephyr) (in_size (l_in zephyr)) (in_size (l_in posix))
            (in_copies (l_in posix) (l_in zephyr)))
  else if (fam =? AF_INET6 posix)%Z then
    Some (mk_conv (posix_sockaddr_in6_layout_eq posix zephyr) (in6_size (l_in6 zephyr)) (in6_size (l_in6 posix))
            (in6_copies CInt8 (l_in6 posix) (l_in6 zephyr)))
  else if (fam =? AF_UNIX posix)%Z then
    Some (mk_conv (posix_sockaddr_un_layout_eq posix zephyr) (un_size (l_un zephyr)) (un_size (l_un posix))
            (un_copies (l_un posix) (l_un zephyr)))
  else None.

(** The layouts make sense: the fields of each structure lie in it and do
    not overlap, and the family comes first, where sa_family is. *)
Definition conv_ok (cv : conv) : bool :=
  dests_ok (cv_zsize cv) (cv_copies cv) && dests_ok (cv_psize cv) (map flip (cv_copies cv)) &&
  match cv_copies cv with
  | CInt f t :: _ => bool_decide (f = sa_family) && bool_decide (t = sa_family)
  | _ => false
  end.

Lemma to_zephyr_conv fam cv addr addrlen room :
  family_of little_endian sa_family addr = Some fam -> conv_of fam = Some cv ->
  posix_sockaddr_to_zephyr little_endian posix zephyr sa_family native_size addr addrlen room =
    convert little_endian (cv_same cv) (cv_zsize cv) (cv_copies cv) addr room.
Proof.
  intros Hf. unfold conv_of, posix_sockaddr_to_zephyr. rewrite Hf.
  repeat (destruct (fam =? _)%Z; [by intros [= <-]|]). done.
Qed.

Lemma to_posix_conv fam cv zaddr zaddrlen len room :
  family_of little_endian sa_family zaddr = Some fam -> conv_of fam = Some cv ->
  zephyr_sockaddr_to_posix little_endian posix zephyr sa_family zaddr zaddrlen len room =
    convert little_endian (cv_same cv) (cv_psize cv) (map flip (cv_copies cv)) zaddr room.
Proof.
  intros Hf. unfold conv_of, zephyr_sockaddr_to_posix. rewrite Hf.
  repeat (destruct (fam =? _)%Z; [by intros [= <-]|]). done.
Qed.

(** Equal layouts have the fields at the same places. *)
Lemma conv_same fam cv :
  conv_of fam = Some cv -> cv_same cv = true -> Forall (fun c => copy_from c = copy_to c) (cv_copies cv).
Proof.
  unfold conv_of. intros Hc Hs.
  repeat (destruct (fam =? _)%Z; [injection Hc as <-; simpl in Hs|]); [..|done];
    repeat (apply andb_true_iff in Hs as [Hs ?]);
    repeat match goal with H : field_layout_eq _ _ = true |- _ => apply field_layout_eq_spec in H end;
    repeat constructor; simpl; congruence.
Qed.

Lemma conv_same_flip fam cv :
  conv_of fam = Some cv -> cv_same cv = true ->
  Forall (fun c => copy_from c = copy_to c) (map flip (cv_copies cv)).
Proof.
  intros Hc Hs. pose proof (conv_same fam cv Hc Hs) as H. apply Forall_fmap. eapply Forall_impl; [exact H|].
  intros [f t|f t|f t] He; simpl in *; by rewrite He.
Qed.
End abis.
End order_lemmas.

(** C28: A POSIX socket address that is converted to the native structure and
    back keeps its family, port, address, flow label, scope and path, and the
    native form has them too, whether the two layouts are equal and the
    pointers are cast or not and the fields are copied one by one; provided
    that each value fits its destination (a scope id is at most 255, the only
    byte that is copied), that addresses and sun_path have the same size in
    both layouts, that the fields of each structure do not overlap, and that
    the family field is at the same place in both. *)
Theorem sockaddr_round_trip (little_endian : bool) (posix zephyr : abi) (sa_family : field)
  (native_size : Z -> option nat) (obj : list Z) (addrlen storage len room : nat) (fam : Z) (cv : conv) :
  family_of little_endian sa_family obj = Some fam -> conv_of posix zephyr fam = Some cv ->
  conv_ok sa_family cv = true -> bytes_ok obj -> forallb (fits little_endian obj) (cv_copies cv) = true ->
  cv_zsize cv <= storage -> cv_psize cv <= room ->
  exists cast zobj cast' out,
    posix_sockaddr_to_zephyr little_endian posix zephyr sa_family native_size obj addrlen storage =
      Some (cast, zobj, cv_zsize cv) /\
    Forall (agree little_endian obj zobj) (cv_copies cv) /\
    zephyr_sockaddr_to_posix little_endian posix zephyr sa_family zobj (cv_zsize cv) len room =
      Some (cast', out, cv_psize cv) /\
    Forall (kept little_endian obj out) (cv_copies cv).
Proof.
  intros Hfam Hcv [[Hd1 Hd2]%andb_true_iff Hhead]%andb_true_iff Hb Hfit Hst Hroom.
  destruct (convert_spec little_endian (cv_same cv) (cv_zsize cv) (cv_copies cv) obj storage)
    as (cast & zobj & Hz & Hag & Hzb & _); [by apply (conv_same posix zephyr fam)|done..|].
  assert (Hzfam : family_of little_endian sa_family zobj = Some fam).
  { destruct (cv_copies cv) as [|[f t|f t|f t] cs]; try done.
    apply andb_true_iff in Hhead as [->%bool_decide_eq_true_1 ->%bool_decide_eq_true_1].
    apply Forall_cons in Hag as [Hag _]. unfold family_of in *. simpl in Hag. by rewrite Hag. }
  assert (Hfit' : forallb (fits little_endian zobj) (map flip (cv_copies cv)) = true).
  { rewrite forallb_forall in Hfit |- *. intros c' (c & <- & Hc)%in_map_iff.
    apply (fits_flip little_endian obj); [done|by apply Hfit|].
    rewrite Forall_forall in Hag. apply Hag. by apply list_elem_of_In. }
  destruct (convert_spec little_endian (cv_same cv) (cv_psize cv) (map flip (cv_copies cv)) zobj room)
    as (cast' & out & Ho & Hag' & _); [by apply (conv_same_flip posix zephyr fam)|done..|].
  exists cast, zobj, cast', out.
  rewrite (to_zephyr_conv little_endian posix zephyr sa_family native_size fam cv) by done.
  rewrite (to_posix_conv little_endian posix zephyr sa_family fam cv) by done.
  split; [done|]. split; [done|]. split; [done|].
  apply Forall_forall. intros c Hc. rewrite Forall_forall in Hag. rewrite Forall_forall in Hag'.
  apply (agree_trans little_endian obj zobj); [by apply Hag|]. apply Hag', list_elem_of_fmap. by exists c.
Qed.

(** The structures of this repository and those of the network stack, where
    the scope is a byte and there is no separate place for a flow label. *)
Definition demo_posix : abi :=
  mk_abi (mk_in 8 (mk_field 0 2) (mk_field 2 2) (mk_field 4 4))
    (mk_in6 28 (mk_field 0 2) (mk_field 2 2) (mk_field 24 4) (mk_field 4 16) (mk_field 20 4))
    (mk_un 24 (mk_field 0 2) (mk_field 2 22)) 1 2 3.
Definition demo_zephyr : abi :=
  mk_abi (mk_in 8 (mk_field 0 2) (mk_field 2 2) (mk_field 4 4))
    (mk_in6 28 (mk_field 0 2) (mk_field 2 2) (mk_field 20 4) (mk_field 4 16) (mk_field 24 1))
    (mk_un 24 (mk_field 0 2) (mk_field 2 22)) 1 2 3.
(** fe80::1, port 80, scope 3 *)
Definition demo_in6 : list Z :=
  [2; 0; 0; 80; 254; 128; 0; 0; 0; 0; 0; 0; 0; 0; 0; 0; 0; 0; 0; 1; 3; 0; 0; 0; 9; 0; 0; 0]%Z.

Lemma sockaddr_round_trip_witness :
  exists cast zobj cast' out,
    posix_sockaddr_to_zephyr true demo_posix demo_zephyr (mk_field 0 2) (fun _ => None) demo_in6 28 32 =
      Some (cast, zobj, 28) /\
    Forall (agree true demo_in6 zobj) (in6_copies CInt8 (l_in6 demo_posix) (l_in6 demo_zephyr)) /\
    zephyr_sockaddr_to_posix true demo_posix demo_zephyr (mk_field 0 2) zobj 28 28 28 = Some (cast', out, 28) /\
    Forall (kept true demo_in6 out) (in6_copies CInt8 (l_in6 demo_posix) (l_in6 demo_zephyr)).
Proof.
  apply (sockaddr_round_trip true demo_posix demo_zephyr (mk_field 0 2) (fun _ => None) demo_in6 28 32 28 28 2
    (mk_conv false 28 28 (in6_copies CInt8 (l_in6 demo_posix) (l_in6 demo_zephyr)))).
  - done.
  - done.
  - by vm_compute.
  - repeat (apply Forall_cons_2; [lia|]). constructor.
  - by vm_compute.
  - simpl. lia.
  - simpl. lia.
Defined.

(** A prefix of an object has the fields that lie in it. *)
Lemma get_prefix obj out n f :
  n <= length obj -> n <= length out -> in_object n f = true -> get (take n obj ++ drop n out) f = get obj f.
Proof.
  unfold in_object. intros Ho Hu Hf. unfold get, in_object. rewrite length_app, length_take, length_drop.
  apply Nat.leb_le in Hf. rewrite !(proj2 (Nat.leb_le _ _)) by lia. f_equal.
  rewrite drop_app_le by (rewrite length_take; lia). rewrite take_app_le by (rewrite length_drop, length_take; lia).
  apply list_eq. intros i. destruct (decide (i < f_size f)); [|by rewrite !lookup_take_ge by lia].
  rewrite !lookup_take_lt, !lookup_drop by lia. by rewrite lookup_take_lt by lia.
Qed.

Lemma dests_ok_in size cs c : dests_ok size cs = true -> c ∈ cs -> in_object size (copy_to c) = true.
Proof.
  induction cs as [|d cs IH]; intros Hd Hc; [by apply elem_of_nil in Hc|]. simpl in Hd.
  apply andb_true_iff in Hd as [[Hd _]%andb_true_iff Hcs]. apply elem_of_cons in Hc as [->|Hc]; auto.
Qed.

Lemma agree_get le obj out out' c : get out' (copy_to c) = get out (copy_to c) -> agree le obj out c -> agree le obj out' c.
Proof. destruct c as [f t|f t|f t]; simpl; intros ->; done. Qed.

Section bounds.
Context (little_endian : bool) (posix zephyr : abi) (sa_family : field).

(** C38: accept (and getpeername, getsockname and recvfrom) with a buffer
    that holds the POSIX address of the family writes that address and
    nothing behind it, and reports its length; for a family without a POSIX
    structure the address is cut to the buffer, whatever its length. *)
Theorem accept_in_bounds (ret : Z) (zaddr : list Z) (zaddrlen : nat) (addr : list Z) (fam : Z) :
  (0 <= ret)%Z -> bytes_ok zaddr -> family_of little_endian sa_family zaddr = Some fam ->
  match conv_of posix zephyr fam with
  | Some cv =>
      conv_ok sa_family cv = true -> forallb (fits little_endian zaddr) (map flip (cv_copies cv)) = true ->
      cv_psize cv <= length zaddr -> cv_psize cv <= length addr ->
      exists addr', accept little_endian posix zephyr sa_family ret zaddr zaddrlen (Some addr) =
          Some (ret, Some (addr', cv_psize cv)) /\
        length addr' = length addr /\ drop (cv_psize cv) addr' = drop (cv_psize cv) addr /\
        Forall (agree little_endian zaddr addr') (map flip (cv_copies cv))
  | None =>
      zaddrlen <= length zaddr ->
      let n := Nat.min zaddrlen (length addr) in
      accept little_endian posix zephyr sa_family ret zaddr zaddrlen (Some addr) =
        Some (ret, Some (take n zaddr ++ drop n addr, n))
  end.
Proof.
  intros Hret Hb Hfam. unfold accept, return_address. rewrite ltb_false by lia.
  destruct (conv_of posix zephyr fam) as [cv|] eqn:Hcv.
  - intros [[_ Hd]%andb_true_iff _]%andb_true_iff Hfit Hz Ha.
    rewrite (to_posix_conv little_endian posix zephyr sa_family fam cv) by done.
    destruct (convert_spec little_endian (cv_same cv) (cv_psize cv) (map flip (cv_copies cv)) zaddr (length addr))
      as (cast & out & -> & Hag & _ & Hout); [by apply (conv_same_flip posix zephyr fam)|done..|].
    assert (Hlen : cv_psize cv <= length out) by (destruct cast; [by rewrite Hout|lia]).
    assert (Hres : (if cast then
        if (length addr <? cv_psize cv) || (length out <? cv_psize cv) then None
        else Some (take (cv_psize cv) out ++ drop (cv_psize cv) addr, cv_psize cv)
      else Some (out ++ drop (length out) addr, cv_psize cv)) =
      Some (take (cv_psize cv) out ++ drop (cv_psize cv) addr, cv_psize cv)).
    { destruct cast; [|by rewrite Hout, take_ge by lia].
      destruct (Nat.ltb_spec (length addr) (cv_psize cv)), (Nat.ltb_spec (length out) (cv_psize cv)); done || lia. }
    rewrite Hres. eexists. split; [done|]. split; [rewrite length_app, length_take, length_drop; lia|].
    split; [by rewrite drop_app_length' by (rewrite length_take; lia)|].
    rewrite Forall_forall in Hag |- *. intros c Hc. apply (agree_get _ _ out); [|by apply Hag].
    apply get_prefix; [lia|lia|by eapply dests_ok_in].
  - intros Hz. unfold zephyr_sockaddr_to_posix. rewrite Hfam. unfold conv_of in Hcv.
    repeat (destruct (fam =? _)%Z; [done|]).
    destruct (Nat.ltb_spec (length addr) (Nat.min zaddrlen (length addr)));
      destruct (Nat.ltb_spec (length zaddr) (Nat.min zaddrlen (length addr))); done || lia.
Qed.

(** A shorter buffer is written past its end, where POSIX has the address
    cut to it. *)
Lemma accept_overflows ret zaddr zaddrlen addr :
  (0 <= ret)%Z -> family_of little_endian sa_family zaddr = Some (AF_INET posix) ->
  length addr < in_size (l_in posix) ->
  accept little_endian posix zephyr sa_family ret zaddr zaddrlen (Some addr) = None.
Proof.
  intros Hret Hfam Hlen. unfold accept, return_address, zephyr_sockaddr_to_posix. rewrite ltb_false, Hfam by lia.
  rewrite Z.eqb_refl. unfold zephyr_sockaddr_in_to_posix, convert.
  destruct (posix_sockaddr_in_layout_eq posix zephyr); rewrite (proj2 (Nat.ltb_lt _ _)) by done; done.
Qed.
End bounds.

(** An IPv4 peer address. *)
Definition demo_in : list Z := [1; 0; 31; 144; 192; 168; 0; 7]%Z.

Lemma accept_in_bounds_witness :
  exists addr', accept true demo_posix demo_zephyr (mk_field 0 2) 5 demo_in 8 (Some (replicate 16 255%Z)) =
      Some (5%Z, Some (addr', 8)) /\
    length addr' = 16 /\ drop 8 addr' = replicate 8 255%Z /\
    Forall (agree true demo_in addr') (in_copies (l_in demo_zephyr) (l_in demo_posix)).
Proof.
  apply (accept_in_bounds true demo_posix demo_zephyr (mk_field 0 2) 5 demo_in 8 (replicate 16 255%Z) 1).
  - lia.
  - repeat (apply Forall_cons_2; [lia|]). constructor.
  - done.
  - by vm_compute.
  - by vm_compute.
  - simpl. lia.
  - simpl. lia.
Defined.

(** The length the caller gives is not looked at for the known families: two
    bytes are enough to pass an address of which the rest is read behind
    them. *)
Lemma bind_ignores_length native addrlen :
  posix_sockaddr_to_zephyr true demo_posix demo_zephyr (mk_field 0 2) native demo_in addrlen 128 =
    Some (true, demo_in, 8).
Proof. by vm_compute. Qed.
