(* ===== verification/Double.v ===== *)
(** * Double precision arithmetic

    The C type [double] and the operations strfmon.c uses on it, as the
    Standard Library's binary64 ([SpecFloat] with a precision of 53 bits and
    exponents below 1024), rounding to nearest even and evaluating in the type
    itself.  The lemmas say when an operation is exact: a sum or product that
    has a representation with 53 bits is that representation. *)

From stdpp Require Import base list.
From Stdlib Require Import ZArith Lia SpecFloat.
From S2P Require Import Prelude.

Local Open Scope Z_scope.

Definition double : Type := spec_float.
Definition dmul : double -> double -> double := SFmul 53 1024.
Definition dadd : double -> double -> double := SFadd 53 1024.
Definition dsub : double -> double -> double := SFsub 53 1024.
Definition dneg : double -> double := SFopp.
Definition dlt : double -> double -> bool := SFltb.
Definition dzero : double := S754_zero false.

(** The conversion [(double)z] of an integer. *)
Definition of_int (z : Z) : double := binary_normalize 53 1024 z 0 false.

(** The conversion [(uint64_t)x], which discards the fraction and is
    undefined ([None]) when what is left is not a uint64_t. *)
Definition trunc_u64 (x : double) : option Z :=
  match x with
  | S754_zero _ => Some 0
  | S754_finite s m e =>
      let q := if e <? 0 then Z.pos m / 2 ^ (- e) else Z.pos m * 2 ^ e in
      if s then (if q =? 0 then Some 0 else None)
      else if q <? 2 ^ 64 then Some q else None
  | S754_infinity _ | S754_nan => None
  end.

(** ** Digits and exponents *)

Lemma digits2_bounds p : 2 ^ (Z.pos (digits2_pos p) - 1) <= Z.pos p < 2 ^ Z.pos (digits2_pos p).
Proof.
  induction p as [p IH|p IH|]; simpl digits2_pos; [| |simpl; lia];
    rewrite Pos2Z.inj_succ; replace (Z.succ (Z.pos (digits2_pos p)) - 1) with (Z.pos (digits2_pos p)) by lia;
    (assert (2 ^ Z.pos (digits2_pos p) = 2 * 2 ^ (Z.pos (digits2_pos p) - 1))
      by (rewrite <- Z.pow_succ_r by lia; f_equal; lia));
    rewrite Z.pow_succ_r by lia; lia.
Qed.

Lemma digits2_le p n : 0 <= n -> Z.pos p < 2 ^ n -> Z.pos (digits2_pos p) <= n.
Proof.
  intros Hn Hp. destruct (digits2_bounds p) as [Hl _].
  destruct (Z.le_gt_cases (Z.pos (digits2_pos p)) n) as [|Hgt]; [done|].
  assert (2 ^ n <= 2 ^ (Z.pos (digits2_pos p) - 1)) by (apply Z.pow_le_mono_r; lia). lia.
Qed.

(** A shifted mantissa. *)
Definition shifted (p : positive) (k : Z) : positive := Z.to_pos (Z.pos p * 2 ^ k).

Lemma shifted_Z p k : 0 <= k -> Z.pos (shifted p k) = Z.pos p * 2 ^ k.
Proof. intros Hk. unfold shifted. rewrite Z2Pos.id; [done|]. assert (0 < 2 ^ k) by lia. nia. Qed.

Lemma shifted_0 p : shifted p 0 = p.
Proof. apply Pos2Z.inj. rewrite shifted_Z by lia. lia. Qed.

Lemma shifted_shifted p j k : 0 <= j -> 0 <= k -> shifted (shifted p j) k = shifted p (j + k).
Proof. intros. apply Pos2Z.inj. rewrite !shifted_Z, Z.pow_add_r by lia. lia. Qed.

Lemma shifted_succ p k : 0 <= k -> shifted p (Z.succ k) = xO (shifted p k).
Proof. intros. apply Pos2Z.inj. rewrite Pos2Z.inj_xO, !shifted_Z, Z.pow_succ_r by lia. lia. Qed.

Lemma digits2_shifted p k : 0 <= k -> Z.pos (digits2_pos (shifted p k)) = Z.pos (digits2_pos p) + k.
Proof.
  revert k. apply natlike_ind; [rewrite shifted_0; lia|]. intros k Hk IH.
  rewrite shifted_succ by done. simpl. rewrite Pos2Z.inj_succ. lia.
Qed.

(** ** Exact rounding *)

(** Shifting zeros out loses nothing. *)
Lemma shr_exact n p j :
  0 <= j ->
  iter_pos shr_1 n (Build_shr_record (Z.pos (shifted p (j + Z.pos n))) false false)
  = Build_shr_record (Z.pos (shifted p j)) false false.
Proof.
  revert p j. induction n as [n IH|n IH|]; intros p j Hj; simpl iter_pos.
  - replace (j + Z.pos n~1) with (Z.succ (j + Z.pos n + Z.pos n)) by lia.
    rewrite shifted_succ by lia. simpl shr_1. rewrite IH by lia. by apply IH.
  - replace (j + Z.pos n~0) with (j + Z.pos n + Z.pos n) by lia. rewrite IH by lia. by apply IH.
  - replace (j + 1) with (Z.succ j) by lia. rewrite shifted_succ by lia. done.
Qed.

(** The exponent binary64 gives to the value [p * 2^e]. *)
Definition cexp (p : positive) (e : Z) : Z := fexp 53 1024 (Z.pos (digits2_pos p) + e).

Lemma cexp_shifted p k e : 0 <= k -> cexp (shifted p k) (e - k) = cexp p e.
Proof. intros Hk. unfold cexp. rewrite digits2_shifted by done. f_equal. lia. Qed.

Lemma cexp_le p e : Z.pos p < 2 ^ 53 -> -1074 <= e -> cexp p e <= e.
Proof. intros Hp He. apply digits2_le in Hp; [|lia]. unfold cexp, fexp, emin. lia. Qed.

Lemma shr_fexp_exact p e c :
  c <= e -> cexp p e = e ->
  shr_fexp 53 1024 (Z.pos (shifted p (e - c))) c loc_Exact = (Build_shr_record (Z.pos p) false false, e).
Proof.
  intros Hc He. unfold shr_fexp. change (Zdigits2 (Z.pos ?q)) with (Z.pos (digits2_pos q)).
  rewrite digits2_shifted by lia. replace (Z.pos (digits2_pos p) + (e - c) + c) with (Z.pos (digits2_pos p) + e) by lia.
  change (fexp 53 1024 (Z.pos (digits2_pos p) + e)) with (cexp p e). rewrite He. simpl shr_record_of_loc.
  destruct (e - c) as [|n|n] eqn:Hn; [| |lia].
  - rewrite shifted_0. simpl. by replace c with e by lia.
  - unfold shr. pose proof (shr_exact n p 0 ltac:(lia)) as H. rewrite Z.add_0_l, shifted_0 in H. rewrite H.
    by replace (c + Z.pos n) with e by lia.
Qed.

(** A value with a canonical representation [p * 2^e] is rounded to it,
    whatever the exponent it is computed with. *)
Lemma round_aux_exact s p e c :
  c <= e -> cexp p e = e -> e <= 971 ->
  binary_round_aux 53 1024 s (Z.pos (shifted p (e - c))) c loc_Exact = S754_finite s p e.
Proof.
  intros Hc He Hm. unfold binary_round_aux. rewrite shr_fexp_exact by done. cbn [shr_m loc_of_shr_record round_nearest_even].
  pose proof (shr_fexp_exact p e e ltac:(lia) He) as H. rewrite Z.sub_diag, shifted_0 in H. rewrite H. cbn [shr_m].
  replace (e <=? 1024 - 53) with true by (symmetry; apply Z.leb_le; lia). done.
Qed.

(** The canonical representation of [p * 2^e]. *)
Definition canon (s : bool) (p : positive) (e : Z) : double := S754_finite s (shifted p (e - cexp p e)) (cexp p e).

Lemma cexp_canon p e : cexp p e <= e -> cexp (shifted p (e - cexp p e)) (cexp p e) = cexp p e.
Proof. intros H. rewrite <- (cexp_shifted p (e - cexp p e) e) at 3 by lia. f_equal. lia. Qed.

Lemma iter_xO p d : Pos.iter xO p d = shifted p (Z.pos d).
Proof.
  induction d as [|d IH] using Pos.peano_ind; [by apply Pos2Z.inj; rewrite shifted_Z by lia; simpl; lia|].
  rewrite Pos.iter_succ, IH, Pos2Z.inj_succ, shifted_succ by lia. done.
Qed.

Lemma binary_round_exact s p k e :
  0 <= k -> cexp p e <= e -> cexp p e <= 971 ->
  binary_round 53 1024 s (shifted p k) (e - k) = canon s p e.
Proof.
  intros Hk He Hm. unfold binary_round. fold (cexp (shifted p k) (e - k)). rewrite cexp_shifted by done.
  pose proof (round_aux_exact s _ _ (cexp p e) (Z.le_refl _) (cexp_canon p e He) Hm) as Hr.
  unfold shl_align. destruct (cexp p e - (e - k)) as [|d|d] eqn:Hd.
  - replace (shifted p k) with (shifted (shifted p (e - cexp p e)) (cexp p e - cexp p e))
      by (rewrite Z.sub_diag, shifted_0; f_equal; lia).
    by replace (e - k) with (cexp p e) by lia.
  - pose proof (round_aux_exact s _ (cexp p e) (e - k) ltac:(lia) (cexp_canon p e He) Hm) as Hr'.
    rewrite shifted_shifted in Hr' by lia. by replace (e - cexp p e + (cexp p e - (e - k))) with k in Hr' by lia.
  - rewrite iter_xO, shifted_shifted by lia. rewrite Z.sub_diag, shifted_0 in Hr.
    by replace (k + Z.pos d) with (e - cexp p e) by lia.
Qed.

(** *** Conversion from an integer *)

Lemma of_int_exact p k : 0 <= k <= 971 -> Z.pos p < 2 ^ 53 -> of_int (Z.pos p * 2 ^ k) = canon false p k.
Proof.
  intros Hk Hp. pose proof (cexp_le p k Hp ltac:(lia)) as Hc. unfold of_int.
  rewrite <- shifted_Z by lia. simpl binary_normalize.
  rewrite <- (binary_round_exact false p k k) by lia. by rewrite Z.sub_diag.
Qed.

(** *** Product *)

Lemma dmul_exact s1 p1 e1 s2 p2 e2 p e :
  e1 + e2 <= cexp p e <= e -> cexp p e <= 971 ->
  Z.pos p1 * Z.pos p2 = Z.pos p * 2 ^ (e - (e1 + e2)) ->
  dmul (S754_finite s1 p1 e1) (S754_finite s2 p2 e2) = canon (xorb s1 s2) p e.
Proof.
  intros [Hc He] Hm Hp. unfold dmul, SFmul. rewrite Pos2Z.inj_mul, Hp, <- shifted_Z by lia.
  pose proof (round_aux_exact (xorb s1 s2) _ _ (e1 + e2) Hc (cexp_canon p e He) Hm) as Hr.
  rewrite shifted_shifted in Hr by lia.
  by replace (e - cexp p e + (cexp p e - (e1 + e2))) with (e - (e1 + e2)) in Hr by lia.
Qed.

(** *** Difference *)

(** The mantissa of [p * 2^e] at a smaller exponent. *)
Lemma shl_align_le p e c : c <= e -> fst (shl_align p e c) = shifted p (e - c).
Proof.
  intros Hc. unfold shl_align. destruct (c - e) as [|d|d] eqn:Hd; [|lia|].
  - simpl. replace (e - c) with 0 by lia. by rewrite shifted_0.
  - simpl. rewrite iter_xO. f_equal. lia.
Qed.

Lemma dsub_exact p1 e1 p2 e2 p e c :
  c = Z.min e1 e2 -> c <= e -> cexp p e <= e -> cexp p e <= 971 ->
  Z.pos p1 * 2 ^ (e1 - c) - Z.pos p2 * 2 ^ (e2 - c) = Z.pos p * 2 ^ (e - c) ->
  dsub (S754_finite false p1 e1) (S754_finite false p2 e2) = canon false p e.
Proof.
  intros -> Hc He Hm Hp. unfold dsub, SFsub, cond_Zopp. rewrite !shl_align_le, !shifted_Z, Hp by lia.
  rewrite <- shifted_Z by lia. simpl binary_normalize.
  rewrite <- (binary_round_exact false p (e - Z.min e1 e2) e) by lia. f_equal. lia.
Qed.

Lemma dsub_same p1 e1 p2 e2 c :
  c = Z.min e1 e2 -> Z.pos p1 * 2 ^ (e1 - c) = Z.pos p2 * 2 ^ (e2 - c) ->
  dsub (S754_finite false p1 e1) (S754_finite false p2 e2) = dzero.
Proof.
  intros -> Hp. unfold dsub, SFsub, cond_Zopp. rewrite !shl_align_le, !shifted_Z, Hp by lia.
  by rewrite Z.sub_diag.
Qed.

(** *** Comparison *)

(** Canonical floats are compared by value. *)
Lemma canon_range p e : cexp p e = e -> Z.pos p < 2 ^ 53 /\ (e = -1074 \/ 2 ^ 52 <= Z.pos p).
Proof.
  intros He. unfold cexp, fexp, emin in He. destruct (digits2_bounds p) as [Hl Hu]. split.
  - eapply Z.lt_le_trans; [exact Hu|]. apply Z.pow_le_mono_r; lia.
  - destruct (Z.eq_dec e (-1074)) as [|Hn]; [by left|right].
    replace 52 with (Z.pos (digits2_pos p) - 1) by lia. done.
Qed.

Lemma scale_lt p1 e1 p2 e2 c :
  c <= e1 -> e1 < e2 -> Z.pos p1 < 2 ^ 53 -> 2 ^ 52 <= Z.pos p2 -> Z.pos p1 * 2 ^ (e1 - c) < Z.pos p2 * 2 ^ (e2 - c).
Proof.
  intros Hc He H1 H2. replace (e2 - c) with ((e2 - e1 - 1) + 1 + (e1 - c)) by lia. rewrite !Z.pow_add_r by lia.
  rewrite !Z.mul_assoc. apply Z.mul_lt_mono_pos_r; [apply Z.pow_pos_nonneg; lia|].
  assert (0 < 2 ^ (e2 - e1 - 1)) by (apply Z.pow_pos_nonneg; lia). change (2 ^ 53) with (2 * 2 ^ 52) in H1. nia.
Qed.

Lemma dlt_canon p1 e1 p2 e2 c :
  cexp p1 e1 = e1 -> cexp p2 e2 = e2 -> c <= e1 -> c <= e2 ->
  dlt (S754_finite false p1 e1) (S754_finite false p2 e2)
  = (Z.pos p1 * 2 ^ (e1 - c) <? Z.pos p2 * 2 ^ (e2 - c)).
Proof.
  intros H1 H2 Hc1 Hc2. unfold dlt, SFltb, SFcompare.
  destruct (canon_range p1 e1 H1) as [Hu1 Hl1], (canon_range p2 e2 H2) as [Hu2 Hl2].
  assert (Hmin : forall p e, cexp p e = e -> -1074 <= e) by (unfold cexp, fexp, emin; lia).
  pose proof (Hmin _ _ H1). pose proof (Hmin _ _ H2).
  destruct (Z.compare_spec e1 e2) as [->|Hlt|Hgt].
  - fold (Pos.compare p1 p2). assert (0 < 2 ^ (e2 - c)) by (apply Z.pow_pos_nonneg; lia).
    destruct (Pos.compare_spec p1 p2); symmetry; (apply Z.ltb_lt || apply Z.ltb_ge); nia.
  - symmetry. apply Z.ltb_lt. assert (2 ^ 52 <= Z.pos p2) by (destruct Hl2; [lia|done]).
    by apply scale_lt.
  - symmetry. apply Z.ltb_ge. assert (2 ^ 52 <= Z.pos p1) by (destruct Hl1; [lia|done]).
    apply Z.lt_le_incl. by apply scale_lt.
Qed.

Lemma dlt_zero_l p e : dlt dzero (S754_finite false p e) = true.
Proof. done. Qed.
