(* ===== verification/Strfmon.v ===== *)
(** * Monetary formatting (c_lib_ext/strfmon.c)

    [strfmon] with its format parser and the conversion of one amount.  A
    format is the list of its characters, read as NUL at its end; the memory
    the output goes to is a list of characters whose first [maxsize] are the
    caller's buffer and the others are not; an amount is a [double].  What the
    C standard leaves undefined (a missing argument, the conversion of a value
    too large to uint64_t, a division by zero) is an outcome of its own. *)

From stdpp Require Import base list strings.
From Stdlib Require Import ZArith Lia Ascii SpecFloat.
From S2P Require Import Prelude CString Text Double.

Local Open Scope Z_scope.

(** ** The format specifier *)

Record strfmon_format_spec := {
  field_width : Z;
  left_precision : Z;
  right_precision : Z;
  fill_char : ascii;
  numeric_fill : ascii;
  int_curr_symbol : list ascii;
  use_numeric_fill : bool;
  use_international : bool;
  left_justify : bool;
  disable_grouping : bool;
  use_currency_symbol : bool;
  use_parens : bool;
  force_sign : bool
}.

(** The members of [struct lconv] that are used; each is a [char]. *)
Record lconv := { int_frac_digits : Z; frac_digits : Z }.

Definition blank : ascii := " "%char.

Definition peek (p : list ascii) : ascii := hd NUL p.

Fixpoint read_digits (value : Z) (p : list ascii) : Z * list ascii :=
  match p with
  | c :: p' =>
      if isdigit c then read_digits (swrap 8 (value * 10 + digit_val c)) p' else (value, p)
  | [] => (value, p)
  end.

(** The number and the format after it; -1 when there is no digit. *)
Definition read_number (p : list ascii) : Z * list ascii :=
  if isdigit (peek p) then read_digits 0 p else (-1, p).

Definition spec_default : strfmon_format_spec := {|
  field_width := 0; left_precision := 0; right_precision := -1;
  fill_char := blank; numeric_fill := blank; int_curr_symbol := replicate 4 NUL;
  use_numeric_fill := false; use_international := false; left_justify := false;
  disable_grouping := false; use_currency_symbol := true; use_parens := false; force_sign := false |}.

(** Assignments to members of the specifier. *)
Definition set_flag (f : ascii) (sp : strfmon_format_spec) : option strfmon_format_spec :=
  let '(Build_strfmon_format_spec fw lp rp fc nf ic un ui lj dg uc up fs) := sp in
  if bool_decide (f = "^"%char) then Some (Build_strfmon_format_spec fw lp rp fc nf ic un ui lj true uc up fs)
  else if bool_decide (f = "+"%char) then Some (Build_strfmon_format_spec fw lp rp fc nf ic un ui lj dg uc up true)
  else if bool_decide (f = "("%char) then Some (Build_strfmon_format_spec fw lp rp fc nf ic un ui lj dg uc true fs)
  else if bool_decide (f = "!"%char) then Some (Build_strfmon_format_spec fw lp rp fc nf ic un ui lj dg false up fs)
  else if bool_decide (f = "-"%char) then Some (Build_strfmon_format_spec fw lp rp fc nf ic un ui true dg uc up fs)
  else None.

Definition set_numeric_fill (c : ascii) (sp : strfmon_format_spec) : strfmon_format_spec :=
  let '(Build_strfmon_format_spec fw lp rp fc _ ic _ ui lj dg uc up fs) := sp in
  Build_strfmon_format_spec fw lp rp fc c ic true ui lj dg uc up fs.
Definition set_field_width (v : Z) (sp : strfmon_format_spec) : strfmon_format_spec :=
  let '(Build_strfmon_format_spec _ lp rp fc nf ic un ui lj dg uc up fs) := sp in
  Build_strfmon_format_spec v lp rp fc nf ic un ui lj dg uc up fs.
Definition set_left_precision (v : Z) (sp : strfmon_format_spec) : strfmon_format_spec :=
  let '(Build_strfmon_format_spec fw _ rp fc nf ic un ui lj dg uc up fs) := sp in
  Build_strfmon_format_spec fw v rp fc nf ic un ui lj dg uc up fs.
Definition set_right_precision (v : Z) (sp : strfmon_format_spec) : strfmon_format_spec :=
  let '(Build_strfmon_format_spec fw lp _ fc nf ic un ui lj dg uc up fs) := sp in
  Build_strfmon_format_spec fw lp v fc nf ic un ui lj dg uc up fs.
Definition set_international (b : bool) (sp : strfmon_format_spec) : strfmon_format_spec :=
  let '(Build_strfmon_format_spec fw lp rp fc nf ic un _ lj dg uc up fs) := sp in
  Build_strfmon_format_spec fw lp rp fc nf ic un b lj dg uc up fs.

(** The loop over the flags; [None] is [return false]. *)
Fixpoint flags_loop (sp : strfmon_format_spec) (p : list ascii) : option (strfmon_format_spec * list ascii) :=
  match p with
  | [] => Some (sp, p)
  | c :: p' =>
      if bool_decide (c = "="%char) then
        match p' with
        | [] => None
        | d :: p'' => if bool_decide (d = NUL) then None else flags_loop (set_numeric_fill d sp) p''
        end
      else match set_flag c sp with
           | Some sp' => flags_loop sp' p'
           | None => Some (sp, p)
           end
  end.

(** A precision after its mark, which digits must follow. *)
Definition read_precision (mark : ascii) (set : Z -> strfmon_format_spec -> strfmon_format_spec)
    (sp : strfmon_format_spec) (p : list ascii) : option (strfmon_format_spec * list ascii) :=
  if bool_decide (peek p = mark) then
    let '(v, p') := read_number (tail p) in
    if v <? 0 then None else Some (set v sp, p')
  else Some (sp, p).

Section Parse.
Variable CHAR_MAX : Z.

(** The precision of the locale, 2 when it has none; it is stored in an
    int8_t. *)
Definition default_precision (digits : Z) (sp : strfmon_format_spec) : strfmon_format_spec :=
  if right_precision sp <? 0 then set_right_precision (if digits =? CHAR_MAX then 2 else swrap 8 digits) sp
  else sp.

Definition strfmon_parse_format (lc : lconv) (p : list ascii) : option (strfmon_format_spec * list ascii) :=
  match flags_loop spec_default p with
  | None => None
  | Some (sp, p) =>
      let '(w, p) := read_number p in
      let sp := set_field_width (if w <? 0 then 0 else w) sp in
      match read_precision "#"%char set_left_precision sp p with
      | None => None
      | Some (sp, p) =>
          match read_precision "."%char set_right_precision sp p with
          | None => None
          | Some (sp, p) =>
              if bool_decide (peek p = "i"%char) then
                Some (default_precision (int_frac_digits lc) (set_international true sp), tail p)
              else if bool_decide (peek p = "n"%char) then
                Some (default_precision (frac_digits lc) (set_international false sp), tail p)
              else None
          end
      end
  end.
End Parse.

(** ** The output *)

(** [s] and [maxsize]: the memory from the caller's pointer on, the distance
    written and the room left. *)
Record outp := { o_mem : list ascii; o_s : nat; o_size : nat }.

Definition putc_if_space (ch : ascii) (o : outp) : outp :=
  match o_size o with
  | O => o
  | S size => {| o_mem := <[o_s o := ch]> (o_mem o); o_s := S (o_s o); o_size := size |}
  end.

Definition put_times (n : Z) (ch : ascii) (o : outp) : outp := Nat.iter (Z.to_nat n) (putc_if_space ch) o.

(** ** One amount *)

Definition half : double := S754_finite false 4503599627370496 (-53).
Definition eps : double := S754_finite false 4951760157141521 (-92).

(** 10^n as the loops [iscale *= 10ULL] compute it. *)
Definition u64_pow10 (n : Z) : Z := Nat.iter (Z.to_nat n) (fun v => uwrap 64 (v * 10)) 1.

(** The scaled amount rounded to an integer; [None] when its conversion is
    undefined. *)
Definition round_scaled (scaled : double) : option Z :=
  match trunc_u64 scaled with
  | None => None
  | Some scaled_int =>
      let frac := dsub scaled (of_int scaled_int) in
      Some (if dlt (dadd half eps) frac then uwrap 64 (scaled_int + 1)
            else if dlt (dsub half eps) frac && dlt frac (dadd half eps) then
              if Z.odd scaled_int then uwrap 64 (scaled_int + 1) else scaled_int
            else scaled_int)
  end.

Fixpoint digits_loop (fuel : nat) (t int_digits : Z) : Z :=
  match fuel with
  | O => int_digits
  | S fuel' => if 0 <? t then digits_loop fuel' (t / 10) (int_digits + 1) else int_digits
  end.

(** A uint64_t has at most 20 digits. *)
Definition count_digits (int_part : Z) : Z :=
  if int_part =? 0 then 1 else digits_loop 20 int_part 0.

Fixpoint int_loop (fuel : nat) (cur divisor : Z) (o : outp) : outp :=
  match fuel with
  | O => o
  | S fuel' =>
      if 0 <? divisor then
        int_loop fuel' cur (divisor / 10) (putc_if_space (digit_char ((cur / divisor) mod 10)) o)
      else o
  end.

(** [(char)('0' + (int)digit)]. *)
Definition digit_cast (digit : Z) : ascii := ascii_of_nat (Z.to_nat (uwrap 8 (48 + swrap 32 digit))).

(** The fraction, [n] digits to go; [None] when it divides by zero. *)
Fixpoint frac_loop (n : nat) (curf ddiv : Z) (o : outp) : option outp :=
  match n with
  | O => Some o
  | S n' =>
      if ddiv =? 0 then None
      else frac_loop n' (curf mod ddiv) (if 0 <? ddiv then ddiv / 10 else ddiv)
             (putc_if_space (digit_cast (curf / ddiv)) o)
  end.

Definition strfmon_one (o : outp) (sp : strfmon_format_spec) (val : double) : option outp :=
  let right := if right_precision sp <? 0 then 2 else right_precision sp in
  let negative := dlt val dzero in
  let absval := if negative then dneg val else val in
  let iscale := u64_pow10 right in
  match round_scaled (dmul absval (of_int iscale)) with
  | None => None
  | Some scaled_int =>
      if iscale =? 0 then None
      else
        let int_part := scaled_int / iscale in
        let frac_part := scaled_int mod iscale in
        let int_digits := count_digits int_part in
        let left_prec := if left_precision sp <? 0 then 0 else left_precision sp in
        let int_display_digits := if int_digits <? left_prec then left_prec else int_digits in
        let frac_chars := if 0 <? right then right else 0 in
        let sign_lead :=
          if negative then 1 else if force_sign sp || (0 <? left_prec) then 1 else 0 in
        let sign_trail := if negative && use_parens sp then 1 else 0 in
        let number_len :=
          sign_lead + int_display_digits + (if frac_chars =? 0 then 0 else 1 + frac_chars) + sign_trail in
        let field_width := if field_width sp <? 0 then 0 else field_width sp in
        let pad := if number_len <? field_width then field_width - number_len else 0 in
        let o := if left_justify sp then o else put_times pad (fill_char sp) o in
        let o := if sign_lead =? 0 then o
                 else putc_if_space (if negative && use_parens sp then "("%char
                                     else if negative then "-"%char
                                     else if force_sign sp then "+"%char else " "%char) o in
        let o := put_times (int_display_digits - int_digits) (numeric_fill sp) o in
        let o := if int_part =? 0 then putc_if_space "0"%char o
                 else int_loop 20 int_part (u64_pow10 (int_digits - 1)) o in
        match (if 0 <? frac_chars then
                 frac_loop (Z.to_nat frac_chars) frac_part (u64_pow10 (frac_chars - 1))
                   (putc_if_space "."%char o)
               else Some o) with
        | None => None
        | Some o =>
            let o := if sign_trail =? 0 then o else putc_if_space ")"%char o in
            Some (if left_justify sp then put_times pad (fill_char sp) o else o)
        end
  end.

(** ** strfmon *)

Definition percent : ascii := "%"%char.

Section Strfmon.
Variable CHAR_MAX : Z.
Variable lc : lconv.

(** Where the loop leaves the output, and whether it left with EINVAL. *)
Fixpoint format_loop (fuel : nat) (prev : ascii) (format : list ascii) (args : list double) (o : outp)
    : outcome (outp * bool) :=
  match fuel with
  | O => NoFuel
  | S fuel' =>
      let ch := peek format in
      if bool_decide (ch = NUL) then Returns (o, false)
      else if bool_decide (ch = percent) && negb (bool_decide (prev = percent))
              && bool_decide (peek (tail format) = NUL) then Returns (o, true)
      else if (bool_decide (ch = percent) && bool_decide (prev = percent))
              || (negb (bool_decide (ch = percent)) && negb (bool_decide (prev = percent))) then
        format_loop fuel' ch (tail format) args (putc_if_space ch o)
      else if bool_decide (ch = percent) then format_loop fuel' ch (tail format) args o
      else match strfmon_parse_format CHAR_MAX lc format with
           | None => Returns (o, true)
           | Some (sp, format') =>
               match args with
               | [] => Undefined
               | val :: args' =>
                   match strfmon_one o sp val with
                   | None => Undefined
                   | Some o' => format_loop fuel' ch format' args' o'
                   end
               end
           end
  end.

(** The value returned (-1 with errno) and the memory. *)
Definition strfmon (mem : list ascii) (maxsize : nat) (format : list ascii) (args : list double)
    : outcome (res Z * list ascii) :=
  match maxsize with
  | O => Returns (Err E2BIG, mem)
  | _ =>
      match format_loop (S (length format)) NUL format args {| o_mem := mem; o_s := 0; o_size := maxsize |} with
      | Returns (o, einval) =>
          let mem' := match o_size o with O => o_mem o | _ => <[o_s o := NUL]> (o_mem o) end in
          Returns (if einval then Err EINVAL else Ok (Z.of_nat (o_s o)), mem')
      | Undefined => Undefined
      | NoFuel => NoFuel
      end
  end.
End Strfmon.

(** ** Writing *)

Definition emit (o : outp) (l : list ascii) : outp := foldl (fun o c => putc_if_space c o) o l.

Lemma emit_app o l k : emit o (l ++ k) = emit (emit o l) k.
Proof. apply foldl_app. Qed.

Lemma emit_one o c : putc_if_space c o = emit o [c].
Proof. done. Qed.

Lemma put_times_emit n ch o : put_times n ch o = emit o (replicate (Z.to_nat n) ch).
Proof.
  unfold put_times. induction (Z.to_nat n) as [|k IH]; [done|].
  rewrite Nat.iter_succ, IH, emit_one, <- emit_app. f_equal. by rewrite <- replicate_S_end.
Qed.

(** As much of the text as there is room for. *)
Lemma emit_spec o l :
  (o_s o + o_size o <= length (o_mem o))%nat ->
  let n := Nat.min (o_size o) (length l) in
  emit o l = {| o_mem := take (o_s o) (o_mem o) ++ take n l ++ drop (o_s o + n) (o_mem o);
                o_s := o_s o + n; o_size := o_size o - n |}.
Proof.
  revert o. induction l as [|c l IH]; intros [mem s size] Hl; simpl in Hl |- *.
  - rewrite Nat.min_0_r, Nat.add_0_r, Nat.sub_0_r. simpl. by rewrite take_drop.
  - destruct size as [|size]; simpl.
    + assert (IH' := IH {| o_mem := mem; o_s := s; o_size := 0 |} ltac:(simpl; lia)). simpl in IH'.
      unfold putc_if_space. simpl. rewrite IH'. by rewrite Nat.add_0_r, take_drop.
    + unfold putc_if_space. simpl. rewrite IH by (simpl; rewrite length_insert; lia). simpl. f_equal.
      * rewrite (take_S_r _ _ c) by (apply list_lookup_insert_eq; lia).
        rewrite take_insert_ge by lia. rewrite drop_insert_lt by lia. rewrite <- app_assoc. simpl.
        do 3 f_equal. by rewrite Nat.add_succ_r.
      * lia.
Qed.

(** ** Digits *)

(** The last [k] digits of a number. *)
Fixpoint fixdec (k : nat) (n : Z) : list ascii :=
  match k with
  | O => []
  | S k' => digit_char ((n / 10 ^ Z.of_nat k') mod 10) :: fixdec k' n
  end.

Lemma fixdec_length k n : length (fixdec k n) = k.
Proof. induction k; simpl; congruence. Qed.

Lemma fixdec_snoc k n : 0 <= n -> fixdec (S k) n = fixdec k (n / 10) ++ [digit_char (n mod 10)].
Proof.
  intros Hn. induction k as [|k IH]; [simpl; by rewrite Z.div_1_r|].
  change (fixdec (S (S k)) n) with (digit_char ((n / 10 ^ Z.of_nat (S k)) mod 10) :: fixdec (S k) n).
  rewrite IH. simpl app. simpl fixdec. do 2 f_equal.
  rewrite Nat2Z.inj_succ, Z.pow_succ_r, Z.div_div by lia. done.
Qed.

Lemma fixdec_mod k j n : (k <= j)%nat -> fixdec k (n mod 10 ^ Z.of_nat j) = fixdec k n.
Proof.
  intros Hk. induction k as [|k IH]; [done|]. simpl. rewrite IH by lia. f_equal. f_equal.
  replace (Z.of_nat j) with (Z.of_nat k + Z.succ (Z.of_nat (j - S k))) by lia.
  rewrite Z.pow_add_r, Z.pow_succ_r by lia.
  assert (0 < 10 ^ Z.of_nat k) by (apply Z.pow_pos_nonneg; lia).
  assert (0 < 10 ^ Z.of_nat (j - S k)) by (apply Z.pow_pos_nonneg; lia).
  rewrite Z.rem_mul_r by lia. rewrite (Z.mul_comm (10 ^ Z.of_nat k)), Z.div_add by lia.
  rewrite (Z.div_small (n mod _)) by (apply Z.mod_pos_bound; lia).
  rewrite Z.add_0_l. apply Z.mod_mod_divide. by exists (10 ^ Z.of_nat (j - S k)); lia.
Qed.

Lemma rev_dec_fixdec fuel n : 0 <= n -> rev (rev_dec fuel n) = fixdec (length (rev_dec fuel n)) n.
Proof.
  revert n. induction fuel as [|fuel IH]; intros n Hn; [done|]. cbn [rev_dec rev length].
  rewrite fixdec_snoc by done. f_equal. destruct (Z.ltb_spec n 10); [done|].
  apply IH. by apply Z.div_pos.
Qed.

Lemma digits_loop_length fuel t acc :
  0 < t < 10 ^ Z.of_nat fuel -> digits_loop fuel t acc = acc + Z.of_nat (length (rev_dec fuel t)).
Proof.
  revert t acc. induction fuel as [|fuel IH]; intros t acc Ht; [simpl in Ht; lia|].
  rewrite Nat2Z.inj_succ, Z.pow_succ_r in Ht by lia. cbn [digits_loop rev_dec length]. ztests.
  destruct (Z.ltb_spec t 10) as [Hlt|Hge].
  - rewrite Z.div_small by lia. destruct fuel; simpl; lia.
  - rewrite IH; [lia|]. split; [apply Z.div_str_pos; lia|]. apply Z.div_lt_upper_bound; lia.
Qed.

Lemma rev_dec_length fuel n : (length (rev_dec fuel n) <= fuel)%nat.
Proof.
  revert n. induction fuel as [|fuel IH]; intros n; simpl; [lia|].
  destruct (n <? 10); simpl; [lia|]. specialize (IH (n / 10)). lia.
Qed.

Lemma dec_length n : (1 <= length (dec n) <= 20)%nat.
Proof. unfold dec. rewrite length_rev. split; [cbn [rev_dec length]; lia|]. apply (rev_dec_length 20). Qed.

Lemma dec_fixdec n : 0 <= n -> dec n = fixdec (length (dec n)) n.
Proof. intros Hn. unfold dec. rewrite length_rev. by apply rev_dec_fixdec. Qed.

Lemma count_digits_spec n : 0 <= n < 2 ^ 64 -> count_digits n = Z.of_nat (length (dec n)).
Proof.
  intros Hn. unfold count_digits. destruct (Z.eqb_spec n 0) as [->|Hne]; [done|].
  rewrite digits_loop_length by (change (10 ^ Z.of_nat 20) with 100000000000000000000; lia).
  unfold dec. rewrite length_rev. lia.
Qed.

Lemma u64_pow10_spec n : 0 <= n <= 19 -> u64_pow10 n = 10 ^ n.
Proof.
  intros Hn. assert (forall k, (k <= 19)%nat -> u64_pow10 (Z.of_nat k) = 10 ^ Z.of_nat k) as H.
  { intros k Hk. do 20 (destruct k as [|k]; [done|]). lia. }
  specialize (H (Z.to_nat n)). rewrite Z2Nat.id in H by lia. apply H. lia.
Qed.

Lemma int_loop_spec fuel k n o :
  0 <= n -> (k < fuel)%nat ->
  int_loop fuel n (10 ^ Z.of_nat k) o = emit o (fixdec (S k) n).
Proof.
  revert k o. induction fuel as [|fuel IH]; intros k o Hn Hk; [lia|].
  assert (0 < 10 ^ Z.of_nat k) by (apply Z.pow_pos_nonneg; lia). cbn [int_loop]. ztests.
  destruct k as [|k].
  - change (10 ^ Z.of_nat 0 / 10) with 0. by destruct fuel.
  - rewrite Nat2Z.inj_succ, Z.pow_succ_r by lia.
    replace (10 * 10 ^ Z.of_nat k / 10) with (10 ^ Z.of_nat k) by (rewrite Z.mul_comm, Z.div_mul; lia).
    rewrite IH by lia. change (fixdec (S (S k)) n) with (digit_char ((n / 10 ^ Z.of_nat (S k)) mod 10) :: fixdec (S k) n).
    by rewrite Nat2Z.inj_succ, Z.pow_succ_r by lia.
Qed.

Lemma digit_cast_small d : 0 <= d < 10 -> digit_cast d = digit_char d.
Proof.
  intros Hd. unfold digit_cast, digit_char. rewrite swrap32_id by lia. unfold uwrap.
  rewrite Z.mod_small by (change (2 ^ 8) with 256; lia). done.
Qed.

Lemma frac_loop_spec k f o :
  0 <= f < 10 ^ Z.of_nat k ->
  frac_loop k f (match k with O => 1 | S k' => 10 ^ Z.of_nat k' end) o = Some (emit o (fixdec k f)).
Proof.
  revert f o. induction k as [|k IH]; intros f o Hf; [done|].
  rewrite Nat2Z.inj_succ, Z.pow_succ_r in Hf by lia.
  assert (Hp : 0 < 10 ^ Z.of_nat k) by (apply Z.pow_pos_nonneg; lia). cbn [frac_loop]. ztests.
  assert (0 <= f / 10 ^ Z.of_nat k < 10).
  { split; [apply Z.div_pos; lia|]. apply Z.div_lt_upper_bound; lia. }
  rewrite digit_cast_small by done. pose proof (Z.mod_pos_bound f (10 ^ Z.of_nat k) Hp) as Hm.
  specialize (IH (f mod 10 ^ Z.of_nat k) (putc_if_space (digit_char (f / 10 ^ Z.of_nat k)) o) Hm).
  rewrite fixdec_mod in IH by lia. simpl fixdec. rewrite (Z.mod_small (f / _)) by done.
  destruct k as [|k]; [done|]. rewrite Nat2Z.inj_succ, Z.pow_succ_r by lia.
  replace (10 * 10 ^ Z.of_nat k / 10) with (10 ^ Z.of_nat k) by (rewrite Z.mul_comm, Z.div_mul; lia).
  rewrite Nat2Z.inj_succ, Z.pow_succ_r in IH by lia. rewrite IH. done.
Qed.

(** ** The text of an amount *)

(** An amount of [n] units of 10^-r, as the format describes it. *)
Definition sign_text (sp : strfmon_format_spec) (negative : bool) : list ascii :=
  if negative then [if use_parens sp then "("%char else "-"%char]
  else if force_sign sp then ["+"%char]
  else if 0 <? left_precision sp then [" "%char] else [].

Definition number_text (sp : strfmon_format_spec) (negative : bool) (n r : Z) : list ascii :=
  let int := dec (n / 10 ^ r) in
  sign_text sp negative
  ++ replicate (Z.to_nat (left_precision sp) - length int) (numeric_fill sp) ++ int
  ++ (if 0 <? r then "."%char :: fixdec (Z.to_nat r) (n mod 10 ^ r) else [])
  ++ (if negative && use_parens sp then [")"%char] else []).

Definition amount_text (sp : strfmon_format_spec) (negative : bool) (n r : Z) : list ascii :=
  let number := number_text sp negative n r in
  let padding := replicate (Z.to_nat (field_width sp) - length number) (fill_char sp) in
  if left_justify sp then number ++ padding else padding ++ number.

(** The precision the conversion uses. *)
Definition precision (sp : strfmon_format_spec) : Z :=
  if right_precision sp <? 0 then 2 else right_precision sp.
Definition dabs (val : double) : double := if dlt val dzero then dneg val else val.

Lemma int_text_spec n o :
  0 <= n < 2 ^ 64 ->
  (if n =? 0 then putc_if_space "0"%char o
   else int_loop 20 n (u64_pow10 (Z.of_nat (length (dec n)) - 1)) o) = emit o (dec n).
Proof.
  intros Hn. destruct (Z.eqb_spec n 0) as [->|Hne]; [done|]. pose proof (dec_length n) as Hl.
  rewrite u64_pow10_spec by lia. replace (Z.of_nat (length (dec n)) - 1) with (Z.of_nat (length (dec n) - 1)) by lia.
  rewrite int_loop_spec by lia. replace (S (length (dec n) - 1)) with (length (dec n)) by lia.
  by rewrite <- dec_fixdec by lia.
Qed.

Lemma frac_text_spec r n o :
  0 <= r <= 19 ->
  (if 0 <? r then frac_loop (Z.to_nat r) (n mod 10 ^ r) (u64_pow10 (r - 1)) (putc_if_space "."%char o) else Some o)
  = Some (emit o (if 0 <? r then "."%char :: fixdec (Z.to_nat r) (n mod 10 ^ r) else [])).
Proof.
  intros Hr. destruct (Z.ltb_spec 0 r) as [Hpos|]; [|done]. rewrite u64_pow10_spec by lia.
  pose proof (Z.mod_pos_bound n (10 ^ r) ltac:(apply Z.pow_pos_nonneg; lia)) as Hm.
  pose proof (frac_loop_spec (Z.to_nat r) (n mod 10 ^ r) (putc_if_space "."%char o)) as H.
  rewrite Z2Nat.id in H by lia. specialize (H Hm). destruct (Z.to_nat r) as [|k] eqn:Hk; [lia|].
  by replace (r - 1) with (Z.of_nat k) by lia.
Qed.

Lemma round_scaled_range x n : round_scaled x = Some n -> 0 <= n < 2 ^ 64.
Proof.
  unfold round_scaled. destruct (trunc_u64 x) as [t|] eqn:Ht; [|done].
  assert (0 <= t < 2 ^ 64) as Hr.
  { unfold trunc_u64 in Ht. destruct x as [| | |s m e]; simplify_eq; [lia|].
    destruct s; [split_cases; lia|].
    assert (0 <= (if e <? 0 then Z.pos m / 2 ^ (- e) else Z.pos m * 2 ^ e)).
    { destruct (Z.ltb_spec e 0); [apply Z.div_pos; [lia|apply Z.pow_pos_nonneg; lia]|].
      assert (0 < 2 ^ e) by (apply Z.pow_pos_nonneg; lia). lia. }
    destruct (Z.ltb_spec (if e <? 0 then Z.pos m / 2 ^ (- e) else Z.pos m * 2 ^ e) (2 ^ 64)); simplify_eq. lia. }
  pose proof (uwrap_range 64 (t + 1) ltac:(lia)). intros [= <-]. by repeat case_match.
Qed.

(** The signs, as the conversion counts and writes them. *)
Definition lead_len (sp : strfmon_format_spec) (negative : bool) (left_prec : Z) : Z :=
  if negative then 1 else if force_sign sp || (0 <? left_prec) then 1 else 0.

Lemma sign_text_spec sp negative o :
  let lead := lead_len sp negative (if left_precision sp <? 0 then 0 else left_precision sp) in
  lead = Z.of_nat (length (sign_text sp negative)) /\
  (if lead =? 0 then o
   else putc_if_space (if negative && use_parens sp then "("%char
                       else if negative then "-"%char
                       else if force_sign sp then "+"%char else " "%char) o) = emit o (sign_text sp negative).
Proof.
  unfold lead_len, sign_text. destruct negative; simpl; [by destruct (use_parens sp)|].
  destruct (force_sign sp); simpl; [done|].
  destruct (Z.ltb_spec (left_precision sp) 0); ztests; [done|].
  by destruct (Z.ltb_spec 0 (left_precision sp)).
Qed.

Lemma number_text_length sp negative n r :
  0 <= r ->
  Z.of_nat (length (number_text sp negative n r))
  = Z.of_nat (length (sign_text sp negative))
    + Z.max (left_precision sp) (Z.of_nat (length (dec (n / 10 ^ r))))
    + (if 0 <? r then 1 + r else 0) + (if negative && use_parens sp then 1 else 0).
Proof.
  intros Hr. unfold number_text. rewrite !length_app, length_replicate.
  destruct (Z.ltb_spec 0 r); destruct (negative && use_parens sp); simpl; rewrite ?fixdec_length; lia.
Qed.

Lemma pad_spec width len ch o :
  put_times (if Z.of_nat len <? (if width <? 0 then 0 else width)
             then (if width <? 0 then 0 else width) - Z.of_nat len else 0) ch o
  = emit o (replicate (Z.to_nat width - len) ch).
Proof.
  rewrite put_times_emit. do 2 f_equal.
  destruct (Z.ltb_spec width 0); [ztests; lia|]. destruct (Z.ltb_spec (Z.of_nat len) width); lia.
Qed.

(** The conversion writes the text of the scaled and rounded amount. *)
Lemma strfmon_one_spec o sp val n :
  0 <= precision sp <= 19 ->
  round_scaled (dmul (dabs val) (of_int (10 ^ precision sp))) = Some n ->
  strfmon_one o sp val = Some (emit o (amount_text sp (dlt val dzero) n (precision sp))).
Proof.
  intros Hp Hr. unfold strfmon_one. fold (precision sp) (dabs val).
  rewrite u64_pow10_spec by done. rewrite Hr. pose proof (round_scaled_range _ _ Hr) as Hn.
  set (r := precision sp) in *. assert (0 < 10 ^ r) by (apply Z.pow_pos_nonneg; lia).
  rewrite (eqb_false (10 ^ r) 0) by lia.
  assert (0 <= n / 10 ^ r < 2 ^ 64) as Hi.
  { split; [apply Z.div_pos; lia|]. apply Z.div_lt_upper_bound; [lia|]. nia. }
  rewrite count_digits_spec by done. set (neg := dlt val dzero).
  pose proof (number_text_length sp neg n r ltac:(lia)) as Hlen. pose proof (dec_length (n / 10 ^ r)) as Hl.
  replace (if 0 <? r then r else 0) with r by (destruct (Z.ltb_spec 0 r); lia). cbv zeta.
  set (left_prec := if left_precision sp <? 0 then 0 else left_precision sp).
  fold (lead_len sp neg left_prec).
  pose proof (fun o => proj1 (sign_text_spec sp neg o)) as Hs1. pose proof (fun o => proj2 (sign_text_spec sp neg o)) as Hs2.
  cbv zeta in Hs1, Hs2. fold left_prec in Hs1, Hs2. rewrite Hs2. rewrite (Hs1 o). clear Hs1 Hs2.
  set (L := length (dec (n / 10 ^ r))) in *.
  assert (Hd : (if Z.of_nat L <? left_prec then left_prec else Z.of_nat L) = Z.max (left_precision sp) (Z.of_nat L)).
  { unfold left_prec. destruct (Z.ltb_spec (left_precision sp) 0); destruct (Z.ltb_spec (Z.of_nat L) (left_precision sp)); ztests; lia. }
  rewrite Hd. clear Hd. rewrite int_text_spec by done. rewrite frac_text_spec by done.
  replace (if r =? 0 then 0 else 1 + r) with (if 0 <? r then 1 + r else 0)
    by (destruct (Z.ltb_spec 0 r); ztests; lia).
  rewrite <- Hlen. clear Hlen. rewrite !pad_spec, put_times_emit.
  replace (Z.to_nat (Z.max (left_precision sp) (Z.of_nat L) - Z.of_nat L)) with (Z.to_nat (left_precision sp) - L)%nat by lia.
  unfold amount_text. set (pad := replicate _ (fill_char sp)). unfold number_text. fold L.
  f_equal. destruct (left_justify sp), (neg && use_parens sp); simpl (_ =? _); cbv iota;
    rewrite ?emit_one, <- ?emit_app; f_equal; by rewrite <- ?app_assoc, ?app_nil_r.
Qed.

(** ** Rounding *)

Lemma half_eps : dadd half eps = S754_finite false 4503599627379503 (-53) /\
                 dsub half eps = S754_finite false 9007199254722978 (-54).
Proof. by vm_compute. Qed.

Lemma dlt_scaled q f r e a g :
  cexp q f = f -> cexp a g = g -> f <= e -> e <= 0 -> g <= 0 -> Z.pos q = r * 2 ^ (e - f) ->
  dlt (S754_finite false a g) (S754_finite false q f) = (Z.pos a * 2 ^ (- e) <? r * 2 ^ (- g)) /\
  dlt (S754_finite false q f) (S754_finite false a g) = (r * 2 ^ (- g) <? Z.pos a * 2 ^ (- e)).
Proof.
  intros Hq Ha Hf He Hg Hr. set (c := Z.min f g).
  rewrite (dlt_canon a g q f c), (dlt_canon q f a g c) by (done || lia).
  assert (Hl : Z.pos q * 2 ^ (f - c) = r * 2 ^ (e - c)).
  { rewrite Hr, <- Z.mul_assoc, <- Z.pow_add_r by lia. do 2 f_equal. lia. }
  assert (Hs : forall x y, (x * 2 ^ (g - c) <? y * 2 ^ (e - c)) = (x * 2 ^ (- e) <? y * 2 ^ (- g)) /\
                           (y * 2 ^ (e - c) <? x * 2 ^ (g - c)) = (y * 2 ^ (- g) <? x * 2 ^ (- e))).
  { intros x y. assert (0 < 2 ^ (- c)) by (apply Z.pow_pos_nonneg; lia).
    assert (Hx : x * 2 ^ (g - c) * (2 ^ (- g) * 2 ^ (- e)) = x * 2 ^ (- e) * 2 ^ (- c)).
    { rewrite (Z.mul_comm (2 ^ (- g))), Z.mul_assoc, <- !Z.mul_assoc, <- !Z.pow_add_r by lia. do 2 f_equal. lia. }
    assert (Hy : y * 2 ^ (e - c) * (2 ^ (- g) * 2 ^ (- e)) = y * 2 ^ (- g) * 2 ^ (- c)).
    { rewrite <- !Z.mul_assoc, <- !Z.pow_add_r by lia. do 2 f_equal. lia. }
    assert (0 < 2 ^ (- g) * 2 ^ (- e)) by (apply Z.mul_pos_pos; apply Z.pow_pos_nonneg; lia).
    split; apply Bool.eq_iff_eq_true; rewrite !Z.ltb_lt; split; intros Hlt; nia. }
  rewrite Hl. apply Hs.
Qed.

(** The fraction of a double that is not an integer is computed exactly. *)
Lemma frac_spec m e :
  cexp m e = e -> e < 0 -> Z.pos m / 2 ^ (- e) < 2 ^ 64 ->
  let F := Z.pos m / 2 ^ (- e) in
  let r := Z.pos m mod 2 ^ (- e) in
  let frac := dsub (S754_finite false m e) (of_int F) in
  (r = 0 /\ frac = dzero) \/
  exists q f, frac = S754_finite false q f /\ cexp q f = f /\ f <= e /\ Z.pos q = r * 2 ^ (e - f).
Proof.
  intros Hc He HF F r frac. assert (HD : 0 < 2 ^ (- e)) by (apply Z.pow_pos_nonneg; lia).
  pose proof (Z.div_mod (Z.pos m) (2 ^ (- e)) ltac:(lia)) as Hm. fold F r in Hm.
  pose proof (Z.mod_pos_bound (Z.pos m) (2 ^ (- e)) HD) as Hr. fold r in Hr.
  destruct (canon_range m e Hc) as [Hu _].
  assert (Hmin : -1074 <= e) by (unfold cexp, fexp, emin in Hc; lia).
  destruct F as [|p|p] eqn:HFp; [| |pose proof (Z.div_pos (Z.pos m) (2 ^ (- e)) ltac:(lia) HD); lia].
  - right. exists m, e. split; [done|]. split; [done|]. split; [lia|]. rewrite Z.sub_diag. lia.
  - assert (Hp : Z.pos p < 2 ^ 53) by nia.
    assert (Hpc := cexp_le p 0 Hp ltac:(lia)).
    assert (Ho : of_int (Z.pos p) = canon false p 0).
    { rewrite <- (of_int_exact p 0) by (lia || done). f_equal. lia. }
    subst frac. rewrite Ho. unfold canon. set (e2 := cexp p 0) in *.
    assert (Hshift : Z.pos (shifted p (0 - e2)) * 2 ^ (e2 - Z.min e e2) = Z.pos p * 2 ^ (- e) * 2 ^ (e - Z.min e e2)).
    { rewrite shifted_Z, <- !Z.mul_assoc, <- !Z.pow_add_r by lia. do 2 f_equal. lia. }
    destruct r as [|q|q] eqn:Hrq; [left|right|lia].
    + split; [done|]. eapply dsub_same; [done|]. rewrite Hshift, Hm. lia.
    + assert (Hq : cexp q e <= e) by (apply cexp_le; lia).
      exists (shifted q (e - cexp q e)), (cexp q e). split.
      { eapply (dsub_exact m e _ e2 q e (Z.min e e2)); [done|lia|done|lia|]. rewrite Hshift, Hm. lia. }
      split; [by apply cexp_canon|]. split; [done|]. by rewrite shifted_Z by lia.
Qed.

(** [n / d] rounded to the nearest integer, ties to even. *)
Definition half_even (n d : Z) : Z :=
  let q := n / d in
  let r := n mod d in
  if 2 * r <? d then q else if d <? 2 * r then q + 1 else if Z.even q then q else q + 1.

(** What the three comparisons with the fraction [r / 2^k] decide. *)
Definition round_frac (F r k : Z) : Z :=
  if 4503599627379503 * 2 ^ k <? r * 2 ^ 53 then F + 1
  else if (9007199254722978 * 2 ^ k <? r * 2 ^ 54) && (r * 2 ^ 53 <? 4503599627379503 * 2 ^ k)
  then if Z.odd F then F + 1 else F
  else F.

Lemma round_scaled_frac m e :
  cexp m e = e -> e < 0 ->
  round_scaled (S754_finite false m e)
  = Some (round_frac (Z.pos m / 2 ^ (- e)) (Z.pos m mod 2 ^ (- e)) (- e)).
Proof.
  intros Hc He. destruct (canon_range m e Hc) as [Hu _].
  assert (HD : 0 < 2 ^ (- e)) by (apply Z.pow_pos_nonneg; lia).
  assert (HF : 0 <= Z.pos m / 2 ^ (- e) < 2 ^ 53).
  { split; [apply Z.div_pos; lia|]. apply Z.div_lt_upper_bound; nia. }
  pose proof (frac_spec m e Hc He ltac:(lia)) as Hf. cbv zeta in Hf.
  unfold round_scaled, trunc_u64. ztests. rewrite !(uwrap_id 64) by (unfold in_u; ztests; done).
  destruct half_eps as [-> ->]. f_equal. unfold round_frac. destruct Hf as [[-> ->]|(q & f & -> & Hq & Hfe & Hqr)].
  - rewrite !Z.mul_0_l. ztests. done.
  - destruct (dlt_scaled q f _ e 4503599627379503 (-53) Hq ltac:(done) Hfe ltac:(lia) ltac:(lia) Hqr) as [-> ->].
    by destruct (dlt_scaled q f _ e 9007199254722978 (-54) Hq ltac:(done) Hfe ltac:(lia) ltac:(lia) Hqr) as [-> _].
Qed.

Lemma round_frac_near F r k :
  0 <= r < 2 ^ k -> 2 * 10 ^ 12 * Z.abs ((round_frac F r k - F) * 2 ^ k - r) <= (10 ^ 12 + 3) * 2 ^ k.
Proof.
  intros Hr. unfold round_frac. set (D := 2 ^ k) in *.
  change (2 ^ 53) with 9007199254740992. change (2 ^ 54) with 18014398509481984. change (10 ^ 12) with 1000000000000.
  destruct (Z.ltb_spec (4503599627379503 * D) (r * 9007199254740992)); [lia|].
  destruct (Z.ltb_spec (9007199254722978 * D) (r * 18014398509481984));
    destruct (Z.ltb_spec (r * 9007199254740992) (4503599627379503 * D)); simpl; [|lia..].
  destruct (Z.odd F); lia.
Qed.

(** With at most 39 fraction bits no fraction but one half is within the
    margin. *)
Lemma round_frac_even m k :
  0 <= k <= 39 -> round_frac (m / 2 ^ k) (m mod 2 ^ k) k = half_even m (2 ^ k).
Proof.
  intros Hk. unfold round_frac, half_even. pose proof (Z.mod_pos_bound m (2 ^ k) ltac:(apply Z.pow_pos_nonneg; lia)) as Hr.
  assert (HD : 2 ^ k <= 2 ^ 39) by (apply Z.pow_le_mono_r; lia).
  assert (Hev : 2 ^ k = 1 \/ exists h, 2 ^ k = 2 * h).
  { destruct (Z.eq_dec k 0) as [->|]; [by left|right]. exists (2 ^ (k - 1)). by rewrite <- Z.pow_succ_r, Z.sub_1_r, Z.succ_pred by lia. }
  set (D := 2 ^ k) in *. set (r := m mod D) in *. set (q := m / D). change (2 ^ 39) with 549755813888 in HD.
  change (2 ^ 53) with 9007199254740992. change (2 ^ 54) with 18014398509481984. rewrite <- Z.negb_even.
  destruct Hev as [Hev|[h Hev]].
  - replace r with 0 by lia. rewrite Hev. done.
  - destruct (Z.ltb_spec (2 * r) D); [by ztests|].
    destruct (Z.ltb_spec D (2 * r)); ztests; [done|]. simpl. by destruct (Z.even q).
Qed.

Lemma round_scaled_integer m e :
  0 <= e -> Z.pos m < 2 ^ 53 -> Z.pos m * 2 ^ e < 2 ^ 64 -> cexp m e = e ->
  round_scaled (S754_finite false m e) = Some (Z.pos m * 2 ^ e).
Proof.
  intros He Hm Hlt Hc. unfold round_scaled, trunc_u64. ztests.
  assert (e <= 64). { destruct (Z.le_gt_cases e 64); [done|]. assert (2 ^ 64 <= 2 ^ e) by (apply Z.pow_le_mono_r; lia). nia. }
  rewrite of_int_exact by (done || lia). unfold canon. rewrite Hc, Z.sub_diag, shifted_0.
  rewrite (dsub_same m e m e e) by (done || lia). done.
Qed.

(** Strfmon rounds the scaled amount, a positive double [M / D] with [D] a power
    of two that fits a uint64_t, to an integer that is nearest up to a margin of
    10^-12; when the fraction has at most 39 bits (an amount of 8192 or more)
    it is the nearest integer, ties going to the even one. *)
Theorem strfmon_rounds m e :
  valid_binary 53 1024 (S754_finite false m e) = true ->
  let M := Z.pos m * 2 ^ (Z.max 0 e) in
  let D := 2 ^ (Z.max 0 (- e)) in
  M < D * 2 ^ 64 ->
  exists N, round_scaled (S754_finite false m e) = Some N /\
    2 * 10 ^ 12 * Z.abs (N * D - M) <= (10 ^ 12 + 3) * D /\
    (-39 <= e -> N = half_even M D).
Proof.
  intros Hv M D HM. simpl in Hv. apply andb_true_iff in Hv as [Hc _]. apply Z.eqb_eq in Hc. fold (cexp m e) in Hc.
  destruct (canon_range m e Hc) as [Hu _]. destruct (Z.le_gt_cases 0 e) as [He|He].
  - subst M D. rewrite (Z.max_r 0 e), (Z.max_l 0 (- e)), Z.mul_1_l in * by lia. exists (Z.pos m * 2 ^ e).
    split; [by apply round_scaled_integer|]. simpl (2 ^ 0). split; [lia|].
    intros _. unfold half_even. by rewrite Z.div_1_r, Z.mod_1_r.
  - subst M D. rewrite (Z.max_l 0 e), (Z.max_r 0 (- e)), Z.mul_1_r in * by lia. eexists. split; [by apply round_scaled_frac|].
    assert (HD : 0 < 2 ^ (- e)) by (apply Z.pow_pos_nonneg; lia).
    pose proof (Z.mod_pos_bound (Z.pos m) (2 ^ (- e)) HD) as Hr.
    pose proof (round_frac_near (Z.pos m / 2 ^ (- e)) _ (- e) Hr) as Hn.
    pose proof (Z.div_mod (Z.pos m) (2 ^ (- e)) ltac:(lia)). split; [|intros; apply round_frac_even; lia].
    etrans; [|exact Hn]. apply Z.eq_le_incl. f_equal. f_equal. lia.
Qed.

Lemma strfmon_rounds_witness :
  exists N, round_scaled (S754_finite false 7601541808350298 (-34)) = Some N /\
    2 * 10 ^ 12 * Z.abs (N * 2 ^ 34 - 7601541808350298) <= (10 ^ 12 + 3) * 2 ^ 34 /\
    (-39 <= -34 -> N = half_even 7601541808350298 (2 ^ 34)).
Proof. exact (strfmon_rounds 7601541808350298 (-34) eq_refl ltac:(vm_compute; reflexivity)). Defined.

(** A whole number of units is scaled and printed exactly. *)
Lemma digits2_mul p q :
  Z.pos (digits2_pos p) + Z.pos (digits2_pos q) - 1 <= Z.pos (digits2_pos (p * q)).
Proof.
  destruct (digits2_bounds p) as [Hp _], (digits2_bounds q) as [Hq _], (digits2_bounds (p * q)) as [_ Hpq].
  rewrite Pos2Z.inj_mul in Hpq.
  destruct (Z.le_gt_cases (Z.pos (digits2_pos p) + Z.pos (digits2_pos q) - 1) (Z.pos (digits2_pos (p * q)))) as [|Hlt]; [done|].
  assert (2 ^ Z.pos (digits2_pos (p * q)) <= 2 ^ (Z.pos (digits2_pos p) - 1) * 2 ^ (Z.pos (digits2_pos q) - 1)).
  { rewrite <- Z.pow_add_r by lia. apply Z.pow_le_mono_r; lia. }
  assert (0 < 2 ^ (Z.pos (digits2_pos q) - 1)) by (apply Z.pow_pos_nonneg; lia). nia.
Qed.

Lemma of_int_small p : Z.pos p < 2 ^ 53 -> of_int (Z.pos p) = canon false p 0.
Proof. intros Hp. rewrite <- (of_int_exact p 0) by (done || lia). f_equal. lia. Qed.

Lemma round_scaled_canon p : Z.pos p < 2 ^ 53 -> round_scaled (canon false p 0) = Some (Z.pos p).
Proof.
  intros Hp. pose proof (cexp_le p 0 Hp ltac:(lia)) as Hc. pose proof (cexp_canon p 0 Hc) as Hcc.
  unfold canon. destruct (canon_range _ _ Hcc) as [Hu _]. destruct (Z.eq_dec (cexp p 0) 0) as [H0|H0].
  - rewrite H0 in *. rewrite Z.sub_diag, shifted_0 in *. rewrite round_scaled_integer by (done || lia). f_equal. lia.
  - rewrite round_scaled_frac by (done || lia). rewrite shifted_Z by lia.
    replace (0 - cexp p 0) with (- cexp p 0) by lia.
    rewrite Z.div_mul, Z.mod_mul by (apply Z.pow_nonzero; lia). unfold round_frac. rewrite !Z.mul_0_l.
    assert (0 < 2 ^ (- cexp p 0)) by (apply Z.pow_pos_nonneg; lia). by ztests.
Qed.

Lemma round_scaled_whole v r :
  0 <= v -> 0 <= r <= 19 -> v * 10 ^ r < 2 ^ 53 ->
  round_scaled (dmul (of_int v) (of_int (10 ^ r))) = Some (v * 10 ^ r).
Proof.
  intros Hv Hr Hlt. destruct v as [|p|p]; [|..|lia].
  { assert (forall k, (k <= 19)%nat -> round_scaled (dmul (of_int 0) (of_int (10 ^ Z.of_nat k))) = Some 0) as H.
    { intros k Hk. do 20 (destruct k as [|k]; [done|]). lia. }
    specialize (H (Z.to_nat r)). rewrite Z2Nat.id in H by lia. apply H. lia. }
  assert (0 < 10 ^ r) by (apply Z.pow_pos_nonneg; lia). destruct (10 ^ r) as [|w|w] eqn:Hw; [lia| |lia].
  assert (Hp : Z.pos p < 2 ^ 53) by nia. assert (Hw' : Z.pos w < 2 ^ 53) by nia.
  rewrite !of_int_small by done. unfold canon at 1 2.
  pose proof (cexp_le p 0 Hp ltac:(lia)). pose proof (cexp_le w 0 Hw' ltac:(lia)).
  pose proof (cexp_le (p * w) 0 Hlt ltac:(lia)) as Hpw.
  rewrite (dmul_exact _ _ _ _ _ _ (p * w) 0).
  - by apply round_scaled_canon.
  - split; [|done]. pose proof (digits2_mul p w). unfold cexp, fexp, emin. lia.
  - lia.
  - rewrite !shifted_Z by lia. rewrite Pos2Z.inj_mul.
    replace (0 - (cexp p 0 + cexp w 0)) with ((0 - cexp p 0) + (0 - cexp w 0)) by lia. rewrite Z.pow_add_r by lia. lia.
Qed.

(** ** Bounds *)

(** The output only moves forward within its room: what was written and what
    is past the room stay as they are. *)
Record grows (o o' : outp) : Prop := {
  grows_end : (o_s o' + o_size o' = o_s o + o_size o)%nat;
  grows_s : (o_s o <= o_s o')%nat;
  grows_length : length (o_mem o') = length (o_mem o);
  grows_before : take (o_s o) (o_mem o') = take (o_s o) (o_mem o);
  grows_after : drop (o_s o + o_size o) (o_mem o') = drop (o_s o + o_size o) (o_mem o)
}.

#[export] Instance grows_preorder : PreOrder grows.
Proof.
  split; [by intros o; constructor|]. intros o1 o2 o3 [E1 S1 L1 B1 A1] [E2 S2 L2 B2 A2]. constructor; [lia..|congruence| |].
  - apply (f_equal (take (o_s o1))) in B2. rewrite !take_take, !Nat.min_l in B2 by lia. congruence.
  - rewrite E1 in A2. congruence.
Qed.

Lemma putc_grows ch o : grows o (putc_if_space ch o).
Proof.
  destruct o as [mem s size]. unfold putc_if_space. simpl. destruct size as [|size]; [done|].
  constructor; simpl; [lia..| | |]; [by rewrite length_insert|by rewrite take_insert_ge by lia|by rewrite drop_insert_lt by lia].
Qed.

Lemma putc_grows' ch o o' : grows o o' -> grows o (putc_if_space ch o').
Proof. intros H. etrans; [exact H|apply putc_grows]. Qed.

Lemma put_times_grows n ch o o' : grows o o' -> grows o (put_times n ch o').
Proof. intros H. unfold put_times. induction (Z.to_nat n) as [|k IH]; [done|]. by apply putc_grows'. Qed.

Lemma int_loop_grows fuel cur d o o' : grows o o' -> grows o (int_loop fuel cur d o').
Proof.
  revert d o'. induction fuel as [|fuel IH]; intros d o' H; simpl; [done|].
  destruct (0 <? d); [|done]. apply IH. by apply putc_grows'.
Qed.

Lemma frac_loop_grows k cur d o o' o'' : grows o o' -> frac_loop k cur d o' = Some o'' -> grows o o''.
Proof.
  revert cur d o'. induction k as [|k IH]; intros cur d o' H; simpl; [by intros [= <-]|].
  destruct (d =? 0); [done|]. apply IH. by apply putc_grows'.
Qed.

Lemma grows_if (b : bool) o o1 o2 : grows o o1 -> grows o o2 -> grows o (if b then o1 else o2).
Proof. by destruct b. Qed.

Ltac grow :=
  repeat first [assumption | reflexivity | apply putc_grows' | apply put_times_grows | apply int_loop_grows | apply grows_if].

Lemma strfmon_one_grows o sp val o' : strfmon_one o sp val = Some o' -> grows o o'.
Proof.
  unfold strfmon_one. destruct (round_scaled _) as [n|]; [|done]. destruct (_ =? 0); [done|]. cbv zeta.
  match goal with |- match ?e with _ => _ end = _ -> _ => destruct e as [o1|] eqn:Ho1; [|done] end.
  intros [= <-]. enough (grows o o1) by grow.
  destruct (0 <? (if 0 <? _ then _ else 0)).
  - eapply frac_loop_grows; [|exact Ho1]. grow.
  - apply (inj Some) in Ho1 as <-. grow.
Qed.

Section Loop.
Variable CHAR_MAX : Z.
Variable lc : lconv.

Lemma format_loop_grows fuel prev format args o o' einval :
  format_loop CHAR_MAX lc fuel prev format args o = Returns (o', einval) -> grows o o'.
Proof.
  revert prev format args o. induction fuel as [|fuel IH]; intros prev format args o; simpl; [done|].
  case_match; [by intros [= <- <-]|]. case_match; [by intros [= <- <-]|].
  case_match; [intros H'; etrans; [apply (putc_grows (peek format))|by eapply IH]|].
  case_match; [by apply IH|]. case_match; [|by intros [= <- <-]]. case_match. case_match; [done|].
  destruct (strfmon_one o _ _) as [o1|] eqn:Ho1; [|done]. intros H'.
  etrans; [by eapply strfmon_one_grows|by eapply IH].
Qed.

(** ** Termination *)

Lemma read_number_le p v p' : read_number p = (v, p') -> (length p' <= length p)%nat.
Proof.
  assert (forall acc, (length (snd (read_digits acc p)) <= length p)%nat) as Hd.
  { induction p as [|c p IH]; intros acc; simpl; [lia|]. destruct (isdigit c); simpl; [|lia]. specialize (IH (swrap 8 (acc * 10 + digit_val c))). lia. }
  unfold read_number. destruct (isdigit _); [|intros [= <- <-]; lia].
  intros H. specialize (Hd 0). by rewrite H in Hd.
Qed.

Lemma flags_loop_le n : forall p sp sp' p',
  (length p <= n)%nat -> flags_loop sp p = Some (sp', p') -> (length p' <= length p)%nat.
Proof.
  induction n as [|n IH]; intros p sp sp' p' Hn H; (destruct p as [|c p]; [by injection H as <- <-|]); simpl in Hn; [lia|].
  cbn [flags_loop] in H. case_bool_decide.
  - destruct p as [|d p]; [done|]. case_bool_decide; [done|]. apply IH in H; simpl in *; lia.
  - destruct (set_flag c sp); [apply IH in H; simpl in *; lia|]. by injection H as <- <-.
Qed.

Lemma read_precision_le mark set sp p sp' p' :
  read_precision mark set sp p = Some (sp', p') -> (length p' <= length p)%nat.
Proof.
  unfold read_precision. case_bool_decide; [|by intros [= <- <-]].
  destruct (read_number (tail p)) as [v p1] eqn:Hr. apply read_number_le in Hr.
  destruct (v <? 0); intros [= <- <-]. destruct p; simpl in *; lia.
Qed.

Lemma parse_format_shorter p sp p' :
  strfmon_parse_format CHAR_MAX lc p = Some (sp, p') -> (length p' < length p)%nat.
Proof.
  unfold strfmon_parse_format. destruct (flags_loop spec_default p) as [[sp1 p1]|] eqn:H1; [|done].
  apply (flags_loop_le (length p)) in H1; [|done]. destruct (read_number p1) as [w p2] eqn:H2. apply read_number_le in H2.
  destruct (read_precision "#"%char _ _ _) as [[sp3 p3]|] eqn:H3; [|done]. apply read_precision_le in H3.
  destruct (read_precision "."%char _ _ _) as [[sp4 p4]|] eqn:H4; [|done]. apply read_precision_le in H4.
  assert (forall c, c <> NUL -> peek p4 = c -> (length (tail p4) < length p4)%nat) as Ht
    by (destruct p4; simpl; [by intros c Hc <-|lia]).
  case_bool_decide as Hi; [intros [= <- <-]; specialize (Ht "i"%char ltac:(done) Hi); lia|].
  case_bool_decide as Hi'; [intros [= <- <-]; specialize (Ht "n"%char ltac:(done) Hi'); lia|done].
Qed.

Lemma format_loop_returns fuel prev format args o :
  (length format < fuel)%nat -> format_loop CHAR_MAX lc fuel prev format args o <> NoFuel.
Proof.
  revert prev format args o. induction fuel as [|fuel IH]; intros prev format args o Hl; [lia|]. simpl.
  case_bool_decide as Hnul; [done|]. assert (length (tail format) < fuel)%nat by (destruct format; simpl in *; [done|lia]).
  repeat (case_match; try done; try by apply IH).
  apply IH. eapply Nat.lt_le_trans; [by eapply parse_format_shorter|lia].
Qed.

(** strfmon ends, whatever the format: one round of its loop per character
    of the format is enough, as every round consumes at least one. *)
Lemma strfmon_ends mem maxsize format args : strfmon CHAR_MAX lc mem maxsize format args <> NoFuel.
Proof.
  unfold strfmon. destruct maxsize as [|n]; [done|].
  pose proof (format_loop_returns (S (length format)) NUL format args {| o_mem := mem; o_s := 0; o_size := S n |} ltac:(lia)).
  by destruct (format_loop _ _ _ _ _ _ _) as [[o einval]| |].
Qed.

(** C37: Whatever the format and the arguments, in every call whose arithmetic
    C defines (precisions above 19 and scaled amounts beyond a uint64_t can
    leave it undefined), strfmon writes only within the first maxsize
    characters and returns at most maxsize, with a terminator when it returns
    less. *)
Theorem strfmon_in_bounds mem maxsize format args r mem' :
  (maxsize <= length mem)%nat ->
  strfmon CHAR_MAX lc mem maxsize format args = Returns (r, mem') ->
  length mem' = length mem /\ drop maxsize mem' = drop maxsize mem /\
  (forall n, r = Ok n -> 0 <= n <= Z.of_nat maxsize /\ (n < Z.of_nat maxsize -> mem' !! Z.to_nat n = Some NUL)).
Proof.
  intros Hm. unfold strfmon. destruct maxsize as [|k] eqn:Hk; [by intros [= <- <-]|]. rewrite <- Hk in *.
  destruct (format_loop _ _ _ _ _ _ _) as [[o einval]| |] eqn:Ho; [|done..].
  apply format_loop_grows in Ho as [E S L B A]. simpl in E, L, A. intros [= <- <-].
  destruct (o_size o) as [|size] eqn:Hs.
  - split; [done|]. split; [done|]. intros n. destruct einval; intros [= <-]. lia.
  - split; [by rewrite length_insert|]. split; [by rewrite drop_insert_lt by lia|].
    intros n. destruct einval; intros [= <-]. split; [lia|]. intros _. rewrite Nat2Z.id.
    apply list_lookup_insert_eq. lia.
Qed.
End Loop.

(** ** Format specifiers as text *)

(** What a specifier of the parser satisfies, [rp] being the precision taken
    from the locale when the format has none. *)
Definition spec_wf (sp : strfmon_format_spec) : bool :=
  (0 <=? field_width sp) && (field_width sp <? 128) && (0 <=? left_precision sp) && (left_precision sp <? 128)
  && (0 <=? right_precision sp) && (right_precision sp <? 128)
  && bool_decide (fill_char sp = blank) && bool_decide (int_curr_symbol sp = replicate 4 NUL)
  && negb (bool_decide (numeric_fill sp = NUL))
  && (use_numeric_fill sp || bool_decide (numeric_fill sp = blank)).

Definition flag_text (b : bool) (c : ascii) : list ascii := if b then [c] else [].

Definition spec_text (sp : strfmon_format_spec) : list ascii :=
  flag_text (disable_grouping sp) "^"%char ++ flag_text (force_sign sp) "+"%char
  ++ flag_text (use_parens sp) "("%char ++ flag_text (negb (use_currency_symbol sp)) "!"%char
  ++ flag_text (left_justify sp) "-"%char
  ++ (if use_numeric_fill sp then ["="%char; numeric_fill sp] else [])
  ++ (if 0 <? field_width sp then dec (field_width sp) else [])
  ++ (if 0 <? left_precision sp then "#"%char :: dec (left_precision sp) else [])
  ++ "."%char :: dec (right_precision sp)
  ++ [if use_international sp then "i"%char else "n"%char].

(** *** Numbers *)

Lemma read_digits_app s rest acc :
  forallb isdigit s = true -> read_digits acc (s ++ rest) = read_digits (fst (read_digits acc s)) rest.
Proof.
  revert acc. induction s as [|c s IH]; intros acc Hs; simpl; [done|].
  simpl in Hs. apply andb_true_iff in Hs as [Hc Hs]. rewrite Hc. by apply IH.
Qed.

Lemma read_digits_stop acc rest : isdigit (peek rest) = false -> read_digits acc rest = (acc, rest).
Proof. destruct rest as [|c rest]; [done|]. simpl. by intros ->. Qed.

Lemma read_digits_dec v : 0 <= v < 128 -> fst (read_digits 0 (dec v)) = v.
Proof.
  intros Hv. assert (forallb (fun k => fst (read_digits 0 (dec (Z.of_nat k))) =? Z.of_nat k) (seq 0 128) = true) as H
    by (vm_compute; reflexivity).
  rewrite forallb_forall in H. specialize (H (Z.to_nat v)). rewrite Z2Nat.id in H by lia.
  apply Z.eqb_eq, H, in_seq. lia.
Qed.

Lemma dec_small v : 0 <= v < 128 -> forallb isdigit (dec v) = true /\ exists c s, dec v = c :: s /\ isdigit c = true.
Proof.
  intros Hv. destruct (dec_digits v) as (Hd & _ & Hne); [change (10 ^ 20) with 100000000000000000000; lia|].
  split; [done|]. destruct (dec v) as [|c s]; [done|]. exists c, s. split; [done|].
  simpl in Hd. by apply andb_true_iff in Hd as [? _].
Qed.

Lemma read_number_dec v rest :
  0 <= v < 128 -> isdigit (peek rest) = false -> read_number (dec v ++ rest) = (v, rest).
Proof.
  intros Hv Hr. destruct (dec_small v Hv) as (Hd & c & s & Hc & Hdig). unfold read_number.
  replace (peek (dec v ++ rest)) with c by (by rewrite Hc). rewrite Hdig.
  by rewrite read_digits_app, read_digits_dec, read_digits_stop by done.
Qed.

Lemma read_precision_dec mark set sp v rest :
  0 <= v < 128 -> isdigit (peek rest) = false ->
  read_precision mark set sp (mark :: dec v ++ rest) = Some (set v sp, rest).
Proof.
  intros Hv Hr. unfold read_precision. simpl peek. rewrite bool_decide_eq_true_2 by done. simpl tail.
  rewrite read_number_dec by done. by ztests.
Qed.

(** *** Flags *)

Lemma set_flag_stop c sp :
  isdigit c || bool_decide (c = "#"%char) || bool_decide (c = "."%char) = true ->
  set_flag c sp = None /\ c <> "="%char.
Proof.
  intros Hc. assert (forall d, isdigit d || bool_decide (d = "#"%char) || bool_decide (d = "."%char) = false -> c <> d) as Hne
    by (intros d Hd ->; congruence).
  destruct sp. unfold set_flag. rewrite !bool_decide_eq_false_2 by (apply Hne; done). split; [done|by apply Hne].
Qed.

Lemma flags_loop_stop sp c p :
  isdigit c || bool_decide (c = "#"%char) || bool_decide (c = "."%char) = true ->
  flags_loop sp (c :: p) = Some (sp, c :: p).
Proof.
  intros Hc. destruct (set_flag_stop c sp Hc) as [Hs Hne]. cbn [flags_loop].
  rewrite bool_decide_eq_false_2 by done. by rewrite Hs.
Qed.

(** The text after the flags, and what the flags leave to be set. *)
Definition tail_text (sp : strfmon_format_spec) (rest : list ascii) : list ascii :=
  (if 0 <? field_width sp then dec (field_width sp) else [])
  ++ (if 0 <? left_precision sp then "#"%char :: dec (left_precision sp) else [])
  ++ "."%char :: dec (right_precision sp)
  ++ (if use_international sp then "i"%char else "n"%char) :: rest.

Definition flags_of (sp : strfmon_format_spec) : strfmon_format_spec :=
  set_international false (set_field_width 0 (set_left_precision 0 (set_right_precision (-1) sp))).

Lemma spec_wf_spec sp :
  spec_wf sp = true ->
  (0 <= field_width sp < 128 /\ 0 <= left_precision sp < 128 /\ 0 <= right_precision sp < 128) /\
  fill_char sp = blank /\ int_curr_symbol sp = replicate 4 NUL /\ numeric_fill sp <> NUL /\
  (use_numeric_fill sp = false -> numeric_fill sp = blank).
Proof.
  unfold spec_wf. rewrite !andb_true_iff, !Z.leb_le, !Z.ltb_lt, negb_true_iff, orb_true_iff, !bool_decide_eq_true, bool_decide_eq_false.
  intros H. destruct_and!. repeat split; try done. intros Hf. destruct_or!; congruence.
Qed.

Lemma spec_text_tail sp rest :
  spec_text sp ++ rest =
  flag_text (disable_grouping sp) "^"%char ++ flag_text (force_sign sp) "+"%char
  ++ flag_text (use_parens sp) "("%char ++ flag_text (negb (use_currency_symbol sp)) "!"%char
  ++ flag_text (left_justify sp) "-"%char
  ++ (if use_numeric_fill sp then ["="%char; numeric_fill sp] else []) ++ tail_text sp rest.
Proof. unfold spec_text, tail_text. rewrite <- !app_assoc. simpl. by rewrite <- !app_assoc. Qed.

Lemma tail_text_head sp rest :
  spec_wf sp = true ->
  exists c p, tail_text sp rest = c :: p /\ isdigit c || bool_decide (c = "#"%char) || bool_decide (c = "."%char) = true.
Proof.
  intros ((Hf & Hl & Hr) & _)%spec_wf_spec. unfold tail_text. destruct (0 <? field_width sp).
  - destruct (dec_small _ Hf) as (_ & c & s & -> & Hc). eexists _, _. split; [done|]. by rewrite Hc.
  - destruct (0 <? left_precision sp); eexists _, _; (split; [done|]); done.
Qed.

Lemma flags_loop_text sp rest :
  spec_wf sp = true -> flags_loop spec_default (spec_text sp ++ rest) = Some (flags_of sp, tail_text sp rest).
Proof.
  intros Hwf. destruct (tail_text_head sp rest Hwf) as (c & p & Ht & Hc). rewrite spec_text_tail, Ht.
  apply spec_wf_spec in Hwf as (_ & Hfill & Hsym & Hnul & Hnf).
  destruct sp as [fw lp rp fc nf ic un ui lj dg uc up fs]. simpl in *. subst fc ic.
  assert (Hstop := fun sp => flags_loop_stop sp c p Hc). revert Hstop. generalize (c :: p). intros T Hstop.
  destruct un; [|rewrite Hnf by done]; destruct dg, fs, up, uc, lj; simpl; rewrite ?(bool_decide_eq_false_2 (nf = NUL)) by done;
    rewrite Hstop; done.
Qed.

(** The format parser reads back every specifier it can represent: the text
    of a specifier with widths and precisions up to 127, followed by anything,
    is parsed to that specifier and leaves what follows. *)
Lemma strfmon_parse_round_trip CHAR_MAX lc sp rest :
  spec_wf sp = true -> strfmon_parse_format CHAR_MAX lc (spec_text sp ++ rest) = Some (sp, rest).
Proof.
  intros Hwf. unfold strfmon_parse_format. rewrite flags_loop_text by done.
  apply spec_wf_spec in Hwf as ((Hf & Hl & Hr) & _).
  assert (Hw : read_number (tail_text sp rest) = (if 0 <? field_width sp then field_width sp else -1, tail_text (set_field_width 0 sp) rest)).
  { destruct sp as [fw lp rp fc nf ic un ui lj dg uc up fs]. unfold tail_text. simpl in *.
    destruct (Z.ltb_spec 0 fw); [apply read_number_dec; [lia|]|]; by destruct (0 <? lp). }
  rewrite Hw. clear Hw. destruct sp as [fw lp rp fc nf ic un ui lj dg uc up fs]. simpl in *.
  replace (if (if 0 <? fw then fw else -1) <? 0 then 0 else if 0 <? fw then fw else -1) with fw
    by (destruct (Z.ltb_spec 0 fw); ztests; lia).
  unfold flags_of. simpl. unfold tail_text. simpl.
  assert (isdigit (if ui then "i"%char else "n"%char) = false) by (by destruct ui).
  assert (Hlp : read_precision "#"%char set_left_precision (Build_strfmon_format_spec fw 0 (-1) fc nf ic un false lj dg uc up fs)
      ((if 0 <? lp then "#"%char :: dec lp else []) ++ "."%char :: dec rp ++ (if ui then "i"%char else "n"%char) :: rest)
    = Some (Build_strfmon_format_spec fw lp (-1) fc nf ic un false lj dg uc up fs,
            "."%char :: dec rp ++ (if ui then "i"%char else "n"%char) :: rest)).
  { destruct (Z.ltb_spec 0 lp); [by apply (read_precision_dec "#"%char)|]. by replace lp with 0 by lia. }
  rewrite Hlp, read_precision_dec by done. destruct ui; simpl; unfold default_precision; simpl; by ztests.
Qed.

Lemma strfmon_parse_round_trip_witness :
  strfmon_parse_format 127 {| int_frac_digits := 127; frac_digits := 127 |} (cstr "(=*11#5.2n left"%string)
  = Some (Build_strfmon_format_spec 11 5 2 blank "*"%char (replicate 4 NUL) true false false false true true false,
          cstr " left"%string).
Proof.
  exact (strfmon_parse_round_trip 127 {| int_frac_digits := 127; frac_digits := 127 |}
    (Build_strfmon_format_spec 11 5 2 blank "*"%char (replicate 4 NUL) true false false false true true false)
    (cstr " left"%string) eq_refl).
Defined.

(** What holds of the specifier throughout the parse. *)
Definition spec_partial (sp : strfmon_format_spec) : Prop :=
  (0 <= field_width sp < 128 /\ 0 <= left_precision sp < 128 /\ -128 <= right_precision sp < 128) /\
  fill_char sp = blank /\ int_curr_symbol sp = replicate 4 NUL /\ numeric_fill sp <> NUL /\
  (use_numeric_fill sp = false -> numeric_fill sp = blank).

Ltac partial sp H :=
  destruct sp, H as ((? & ? & ?) & ? & ? & ? & ?); repeat split; simpl in *; (done || lia || auto).

Lemma spec_partial_wf sp : spec_partial sp -> 0 <= right_precision sp -> spec_wf sp = true.
Proof.
  intros ((Hf & Hl & Hr) & Hfc & Hic & Hnf & Hun) H. unfold spec_wf. rewrite Hfc, Hic. ztests.
  rewrite (bool_decide_eq_false_2 (numeric_fill sp = NUL)) by done. simpl.
  destruct (use_numeric_fill sp); [done|]. simpl. by rewrite Hun.
Qed.

Lemma read_digits_range p acc : -128 <= acc < 128 -> -128 <= fst (read_digits acc p) < 128.
Proof.
  revert acc. induction p as [|c p IH]; intros acc Ha; simpl; [done|]. destruct (isdigit c); [|done].
  apply IH. pose proof (swrap_range 8 (acc * 10 + digit_val c) ltac:(lia)). simpl in *. lia.
Qed.

Lemma read_number_range p v p' : read_number p = (v, p') -> -128 <= v < 128.
Proof.
  unfold read_number. destruct (isdigit _); [|intros [= <- _]; lia].
  intros H. pose proof (read_digits_range p 0 ltac:(lia)) as Hr. by rewrite H in Hr.
Qed.

Lemma set_flag_partial c sp sp' : spec_partial sp -> set_flag c sp = Some sp' -> spec_partial sp'.
Proof. destruct sp. unfold set_flag. intros H. by repeat case_bool_decide; intros [= <-]. Qed.

Lemma flags_loop_partial n : forall p sp sp' p',
  (length p <= n)%nat -> spec_partial sp -> flags_loop sp p = Some (sp', p') -> spec_partial sp'.
Proof.
  induction n as [|n IH]; intros p sp sp' p' Hn Hsp H; (destruct p as [|c p]; [by injection H as <- <-|]); simpl in Hn; [lia|].
  cbn [flags_loop] in H. case_bool_decide.
  - destruct p as [|d p]; [done|]. case_bool_decide; [done|]. apply IH in H; [done|simpl in *; lia|].
    partial sp Hsp.
  - destruct (set_flag c sp) as [sp1|] eqn:Hs; [|by injection H as <- <-].
    apply IH in H; [done|simpl in *; lia|by eapply set_flag_partial].
Qed.

Lemma read_precision_partial mark set sp p sp' p' :
  (forall v, 0 <= v < 128 -> spec_partial (set v sp)) -> spec_partial sp ->
  read_precision mark set sp p = Some (sp', p') -> spec_partial sp'.
Proof.
  intros Hset Hsp. unfold read_precision. case_bool_decide; [|by intros [= <- <-]].
  destruct (read_number (tail p)) as [v p1] eqn:Hr. apply read_number_range in Hr.
  destruct (Z.ltb_spec v 0); intros [= <- <-]. apply Hset. lia.
Qed.

Definition locale_digits (CHAR_MAX d : Z) : bool := (d =? CHAR_MAX) || ((0 <=? d) && (d <? 128)).

Lemma default_precision_wf CHAR_MAX d sp :
  locale_digits CHAR_MAX d = true -> spec_partial sp -> spec_wf (default_precision CHAR_MAX d sp) = true.
Proof.
  intros Hd Hsp. unfold default_precision. destruct (Z.ltb_spec (right_precision sp) 0); [|by apply spec_partial_wf].
  assert (Hv : 0 <= (if d =? CHAR_MAX then 2 else swrap 8 d) < 128).
  { unfold locale_digits in Hd. destruct (d =? CHAR_MAX); [lia|]. simpl in Hd.
    apply andb_true_iff in Hd as [H1%Z.leb_le H2%Z.ltb_lt]. rewrite swrap_id; [lia|lia|]. unfold in_s. simpl. by ztests. }
  apply spec_partial_wf; [partial sp Hsp|destruct sp; simpl; lia].
Qed.

(** C39: Every specifier the format parser accepts is well formed: the width and
    both precisions are between 0 and 127, the fill character is not NUL and is
    a space unless the format names one; so the int8_t members never hold a
    negative number, however long the digits of the format. *)
Theorem strfmon_parse_wf CHAR_MAX lc p sp p' :
  locale_digits CHAR_MAX (int_frac_digits lc) = true -> locale_digits CHAR_MAX (frac_digits lc) = true ->
  strfmon_parse_format CHAR_MAX lc p = Some (sp, p') -> spec_wf sp = true.
Proof.
  intros Hi Hn. unfold strfmon_parse_format. destruct (flags_loop spec_default p) as [[sp1 p1]|] eqn:H1; [|done].
  apply (flags_loop_partial (length p)) in H1; [|done|by repeat split; simpl; (done || lia)].
  destruct (read_number p1) as [w p2] eqn:H2. apply read_number_range in H2.
  assert (H3 : spec_partial (set_field_width (if w <? 0 then 0 else w) sp1)).
  { assert (0 <= (if w <? 0 then 0 else w) < 128) by (destruct (Z.ltb_spec w 0); lia). partial sp1 H1. }
  destruct (read_precision "#"%char _ _ _) as [[sp3 p3]|] eqn:H4; [|done].
  apply read_precision_partial in H4; [|intros v Hv; partial sp1 H3|done].
  destruct (read_precision "."%char _ _ _) as [[sp4 p4]|] eqn:H5; [|done].
  apply read_precision_partial in H5; [|intros v Hv; partial sp3 H4|done].
  case_bool_decide; [intros [= <- <-]; apply default_precision_wf; [done|by destruct sp4]|].
  case_bool_decide; [intros [= <- <-]; apply default_precision_wf; [done|by destruct sp4]|done].
Qed.

Lemma strfmon_parse_wf_witness :
  spec_wf (Build_strfmon_format_spec 0 44 2 blank "0"%char (replicate 4 NUL) true true false false true false false) = true.
Proof.
  apply (strfmon_parse_wf 255 {| int_frac_digits := 255; frac_digits := 2 |} (chars "=0200#300i rest"%string) _ (chars " rest"%string));
    vm_compute; reflexivity.
Defined.

(** ** Formatting *)

(** A format is made of ordinary characters and of conversions, each with its
    argument. *)
Inductive piece :=
| Lit (c : ascii)
| Conv (sp : strfmon_format_spec) (val : double).

Definition piece_format (x : piece) : list ascii :=
  match x with Lit c => [c] | Conv sp _ => percent :: spec_text sp end.
Definition piece_args (x : piece) : list double :=
  match x with Lit _ => [] | Conv _ val => [val] end.

(** The amount in units of the last digit printed, as the product of doubles. *)
Definition scaled_amount (sp : strfmon_format_spec) (val : double) : double :=
  dmul (dabs val) (of_int (10 ^ right_precision sp)).

(** A double that is not negative as the fraction [M / D]. *)
Definition dnum (m : positive) (e : Z) : Z := Z.pos m * 2 ^ (Z.max 0 e).
Definition dden (e : Z) : Z := 2 ^ (Z.max 0 (- e)).

(** It is finite, and its integral part fits a uint64_t. *)
Definition fits_u64 (x : double) : bool :=
  match x with
  | S754_zero _ => true
  | S754_finite false m e => valid_binary 53 1024 x && (dnum m e <? dden e * 2 ^ 64)
  | _ => false
  end.

(** [N] is the integer nearest to [x], up to a margin of 10^-12 around one
    half; with at most 39 fraction bits it is the nearest, ties to even. *)
Definition rounds_to (x : double) (N : Z) : Prop :=
  match x with
  | S754_zero _ => N = 0
  | S754_finite false m e =>
      2 * 10 ^ 12 * Z.abs (N * dden e - dnum m e) <= (10 ^ 12 + 3) * dden e /\
      (-39 <= e -> N = half_even (dnum m e) (dden e))
  | _ => False
  end.

Lemma round_scaled_rounds x : fits_u64 x = true -> exists N, round_scaled x = Some N /\ rounds_to x N.
Proof.
  destruct x as [s|s| |[] m e]; try done.
  - intros _. exists 0. by destruct s.
  - intros [Hv Hlt%Z.ltb_lt]%andb_true_iff. exact (strfmon_rounds m e Hv Hlt).
Qed.

(** What is printed of a piece: the character, or the amount rounded to its
    precision and laid out. *)
Definition piece_prints (x : piece) (text : list ascii) : Prop :=
  match x with
  | Lit c => text = [c]
  | Conv sp val =>
      exists N, rounds_to (scaled_amount sp val) N /\ text = amount_text sp (dlt val dzero) N (right_precision sp)
  end.

Definition piece_ok (x : piece) : bool :=
  match x with
  | Lit c => negb (bool_decide (c = NUL)) && negb (bool_decide (c = percent))
  | Conv sp val => spec_wf sp && (right_precision sp <=? 19) && fits_u64 (scaled_amount sp val)
  end.

Lemma spec_text_head sp rest :
  spec_wf sp = true -> peek (spec_text sp ++ rest) <> NUL /\ peek (spec_text sp ++ rest) <> percent.
Proof.
  intros Hwf. destruct (tail_text_head sp rest Hwf) as (c & p & Ht & Hc). rewrite spec_text_tail, Ht.
  destruct (disable_grouping sp); [done|]. destruct (force_sign sp); [done|]. destruct (use_parens sp); [done|].
  destruct (use_currency_symbol sp); [|done]. destruct (left_justify sp); [done|]. destruct (use_numeric_fill sp); [done|].
  simpl. split; intros ->; done.
Qed.

Lemma precision_wf sp : spec_wf sp = true -> precision sp = right_precision sp.
Proof. intros ((_ & _ & Hr) & _)%spec_wf_spec. unfold precision. by ztests. Qed.

Section Prints.
Variable CHAR_MAX : Z.
Variable lc : lconv.

Lemma format_loop_prints ps fuel prev o :
  forallb piece_ok ps = true -> prev <> percent -> (length (ps ≫= piece_format) < fuel)%nat ->
  exists texts, Forall2 piece_prints ps texts /\
  format_loop CHAR_MAX lc fuel prev (ps ≫= piece_format) (ps ≫= piece_args) o
  = Returns (emit o (concat texts), false).
Proof.
  revert fuel prev o. induction ps as [|x ps IH]; intros fuel prev o Hok Hprev Hfuel; (destruct fuel as [|fuel]; [lia|]).
  { exists []. by split; [constructor|]. }
  simpl in Hok. apply andb_true_iff in Hok as [Hx Hps]. destruct x as [c|sp val]; simpl in Hx.
  - apply andb_true_iff in Hx as [H1%negb_true_iff H2%negb_true_iff].
    rewrite !bind_cons in *. cbn [piece_format piece_args app length format_loop] in *.
    change (peek (c :: ?l)) with c. rewrite H1, H2.
    rewrite (bool_decide_eq_false_2 (prev = percent)) by done. simpl.
    apply bool_decide_eq_false in H2.
    destruct (IH fuel c (putc_if_space c o)) as (texts & Ht & ->); [done|done|lia|].
    exists ([c] :: texts). split; [by constructor|done].
  - apply andb_true_iff in Hx as [[Hwf Hr%Z.leb_le]%andb_true_iff (n & Hn & Hround)%round_scaled_rounds].
    pose proof (spec_wf_spec sp Hwf) as ((_ & _ & Hr0) & _).
    rewrite bind_cons in *. set (rest := ps ≫= piece_format) in *. cbn [piece_format piece_args app] in *.
    destruct (spec_text_head sp rest Hwf) as [Hh1 Hh2]. simpl in Hfuel. rewrite length_app in Hfuel.
    assert (0 < length (spec_text sp))%nat by (unfold spec_text; rewrite !length_app; simpl; lia).
    destruct fuel as [|fuel]; [lia|]. cbn [format_loop]. change (peek (percent :: ?l)) with percent. simpl tail.
    rewrite (bool_decide_eq_false_2 (percent = NUL)), (bool_decide_eq_true_2 (percent = percent)),
      (bool_decide_eq_false_2 (prev = percent)), !(bool_decide_eq_false_2 (peek (spec_text sp ++ rest) = _)) by done.
    cbn [andb orb negb]. rewrite (strfmon_parse_round_trip CHAR_MAX lc sp rest Hwf).
    rewrite bind_cons. cbn [piece_args app].
    rewrite (strfmon_one_spec o sp val n); rewrite ?precision_wf by done; [|lia|done].
    destruct (IH fuel (peek (spec_text sp ++ rest)) (emit o (amount_text sp (dlt val dzero) n (right_precision sp)))) as (texts & Ht & Heq);
      [done|done|lia|].
    exists (amount_text sp (dlt val dzero) n (right_precision sp) :: texts). split; [constructor; [by exists n|done]|].
    simpl concat. rewrite emit_app. exact Heq.
Qed.

(** C36: A format of ordinary characters and of conversions in one form (the
    flags in the order ^ + ( ! - =f, then width, #left precision and the
    .right precision, which is always written; widths and left precisions
    below 128, right precisions up to 19, amounts whose scaled value fits a
    uint64_t) is printed piece by piece: the characters as they are, and each
    amount laid out with its sign, fill, digits and padding, its digits being
    those of the integer nearest to the amount times the power of ten as a
    double product, up to a margin of 10^-12 around one half, and exactly the
    nearest with ties to even when the product has at most 39 fraction bits.
    The text is cut at maxsize, and terminated if there is room left; strfmon
    returns the length of what it wrote, also when the text was cut. *)
Theorem strfmon_prints mem maxsize ps :
  forallb piece_ok ps = true -> (0 < maxsize <= length mem)%nat ->
  exists texts, Forall2 piece_prints ps texts /\
  let text := concat texts in
  let n := Nat.min maxsize (length text) in
  strfmon CHAR_MAX lc mem maxsize (ps ≫= piece_format) (ps ≫= piece_args)
  = Returns (Ok (Z.of_nat n),
             take n text ++ (if (n <? maxsize)%nat then NUL :: drop (S n) mem else drop n mem)).
Proof.
  intros Hok Hm. cbv zeta. unfold strfmon. destruct maxsize as [|k] eqn:Hk; [lia|]. rewrite <- Hk in *.
  destruct (format_loop_prints ps (S (length (ps ≫= piece_format))) NUL {| o_mem := mem; o_s := 0; o_size := maxsize |})
    as (texts & Ht & ->); [done|done|lia|].
  exists texts. split; [exact Ht|]. rewrite emit_spec by (simpl; lia). simpl.
  set (text := concat texts). set (n := Nat.min maxsize (length text)).
  do 2 f_equal. assert (Hn : length (take n text) = n) by (rewrite length_take; lia).
  destruct (maxsize - n)%nat as [|j] eqn:Hj; destruct (Nat.ltb_spec n maxsize); [lia|done| |lia].
  rewrite <- Hn at 1. rewrite insert_app_r_alt by lia. rewrite Nat.sub_diag.
  destruct (lookup_lt_is_Some_2 mem n ltac:(lia)) as [c Hc]. by rewrite (drop_S mem c n Hc).
Qed.
End Prints.

(** The "C" locale, and -123.45 printed with "%n" padded to 11 characters in
    a sentence, with and without room for all of it. *)
Definition c_locale : lconv := {| int_frac_digits := 127; frac_digits := 127 |}.
Definition minus_123_45 : double := S754_finite true 8687021468732621 (-46).
Definition spec_11 : strfmon_format_spec :=
  Build_strfmon_format_spec 11 0 2 blank blank (replicate 4 NUL) false false false false true false false.

Lemma strfmon_prints_witness :
  strfmon 127 c_locale (replicate 20 "~"%char) 16 (chars "owed%11.2n."%string) [minus_123_45]
  = Returns (Ok 16, chars "owed    -123.45.~~~~"%string) /\
  exists texts, Forall2 piece_prints ((Lit <$> chars "owed"%string) ++ [Conv spec_11 minus_123_45; Lit "."%char]) texts /\
    strfmon 127 c_locale (replicate 20 "~"%char) 16 (chars "owed%11.2n."%string) [minus_123_45]
    = Returns (Ok (Z.of_nat (Nat.min 16 (length (concat texts)))),
               take (Nat.min 16 (length (concat texts))) (concat texts) ++
               (if (Nat.min 16 (length (concat texts)) <? 16)%nat
                then NUL :: drop (S (Nat.min 16 (length (concat texts)))) (replicate 20 "~"%char)
                else drop (Nat.min 16 (length (concat texts))) (replicate 20 "~"%char))).
Proof.
  split; [vm_compute; reflexivity|].
  exact (strfmon_prints 127 c_locale (replicate 20 "~"%char) 16
           ((Lit <$> chars "owed"%string) ++ [Conv spec_11 minus_123_45; Lit "."%char]) eq_refl ltac:(simpl; lia)).
Defined.

Lemma strfmon_in_bounds_witness :
  length (chars "-123.~~~"%string) = length (replicate 8 "~"%char) /\
  drop 5 (chars "-123.~~~"%string) = drop 5 (replicate 8 "~"%char) /\
  (forall n, Ok 5 = Ok n -> 0 <= n <= Z.of_nat 5 /\
     (n < Z.of_nat 5 -> chars "-123.~~~"%string !! Z.to_nat n = Some NUL)).
Proof.
  apply (strfmon_in_bounds 127 c_locale (replicate 8 "~"%char) 5 (chars "%n"%string) [minus_123_45]);
    [simpl; lia|vm_compute; reflexivity].
Defined.

(** A whole number of units whose scaled value is below 2^53 is printed
    exactly. *)
Lemma amount_whole sp v :
  spec_wf sp = true -> right_precision sp <= 19 -> 0 <= v -> v * 10 ^ right_precision sp < 2 ^ 53 ->
  round_scaled (scaled_amount sp (of_int v)) = Some (v * 10 ^ right_precision sp).
Proof.
  intros ((_ & _ & Hr) & _)%spec_wf_spec Hp Hv Hlt. unfold scaled_amount, dabs.
  assert (Hneg : dlt (of_int v) dzero = false).
  { destruct v as [|p|p]; [done| |lia]. rewrite of_int_small; [done|].
    assert (0 < 10 ^ right_precision sp) by (apply Z.pow_pos_nonneg; lia). nia. }
  rewrite Hneg. apply round_scaled_whole; (done || lia).
Qed.

(** ** Where the code departs from the specification of strfmon *)

(** A precision above 20 divides by zero whatever the amount: the power of ten
    has wrapped around and its quotients reach zero before the digits end. *)
Lemma frac_loop_undefined k cur d o : 0 <= d < 10 ^ Z.of_nat k -> frac_loop (S k) cur d o = None.
Proof.
  revert cur d o. induction k as [|k IH]; intros cur d o Hd.
  - simpl in Hd. replace d with 0 by lia. done.
  - rewrite Nat2Z.inj_succ, Z.pow_succ_r in Hd by lia.
    change (frac_loop (S (S k)) cur d o) with (if d =? 0 then None
      else frac_loop (S k) (cur mod d) (if 0 <? d then d / 10 else d) (putc_if_space (digit_cast (cur / d)) o)).
    destruct (Z.eqb_spec d 0); [done|]. ztests. apply IH. split; [apply Z.div_pos; lia|]. apply Z.div_lt_upper_bound; lia.
Qed.

Lemma u64_pow10_range n : 0 <= u64_pow10 n < 2 ^ 64.
Proof.
  unfold u64_pow10. destruct (Z.to_nat n) as [|k]; [simpl; lia|]. rewrite Nat.iter_succ. apply (uwrap_range 64). lia.
Qed.

Lemma strfmon_precision_undefined o sp val : 21 <= right_precision sp -> strfmon_one o sp val = None.
Proof.
  intros Hr. unfold strfmon_one. rewrite (ltb_false (right_precision sp) 0) by lia.
  destruct (round_scaled _) as [n|]; [|done]. destruct (_ =? 0); [done|]. cbv zeta.
  rewrite !(ltb_true 0 (right_precision sp)) by lia. cbv iota.
  replace (Z.to_nat (right_precision sp)) with (S (Z.to_nat (right_precision sp - 1))) by lia.
  rewrite frac_loop_undefined; [done|]. rewrite Z2Nat.id by lia.
  pose proof (u64_pow10_range (right_precision sp - 1)).
  assert (10 ^ 20 <= 10 ^ (right_precision sp - 1)) by (apply Z.pow_le_mono_r; lia).
  change (10 ^ 20) with 100000000000000000000 in *. change (2 ^ 64) with 18446744073709551616 in *. lia.
Qed.

(** After an escaped percent sign the next ordinary character is taken for the
    start of a conversion. *)
Lemma strfmon_escape_swallows CHAR_MAX lc mem maxsize rest args :
  (0 < maxsize)%nat -> peek rest <> NUL -> peek rest <> percent ->
  strfmon_parse_format CHAR_MAX lc rest = None ->
  exists mem', strfmon CHAR_MAX lc mem maxsize (percent :: percent :: rest) args = Returns (Err EINVAL, mem').
Proof.
  intros Hm Hn Hp Hparse. unfold strfmon. destruct maxsize as [|k]; [lia|]. destruct rest as [|c rest]; [done|].
  cbn [length format_loop]. simpl tail. change (peek (?x :: ?l)) with x in *.
  rewrite !(bool_decide_eq_false_2 (c = _)) by done. cbn -[strfmon_parse_format]. rewrite Hparse. by eexists.
Qed.

Lemma strfmon_escape_swallows_text :
  strfmon 127 c_locale (replicate 8 "~"%char) 8 (chars "5%% off"%string) [] = Returns (Err EINVAL, chars "5%"%string ++ NUL :: replicate 5 "~"%char).
Proof. vm_compute. reflexivity. Qed.

(** A width of more than 127 wraps around and may be dropped. *)
Lemma strfmon_width_dropped :
  strfmon_parse_format 127 c_locale (chars "200n"%string) = strfmon_parse_format 127 c_locale (chars "n"%string).
Proof. vm_compute. reflexivity. Qed.
