(* ===== verification/FileSys.v ===== *)
(** * Directories and file status (file_system/fs.c, file_system_r/file_system_r.c)

    Directory streams, readdir and readdir_r with the entries they write, the
    calls that change a name, and file status.  The kernel's file system is an
    interface: the class [FileSystem] has its calls, [FileSystemLaws] what its
    documentation says of directory objects.  The static entry of readdir is its
    [d_name], and a write outside of it has no result; the caller's entry of
    readdir_r is memory whose first [DNAME] characters are [d_name]. *)

From stdpp Require Import base gmap list strings.
From Stdlib Require Import ZArith Lia Ascii.
From S2P Require Import Prelude CString Text.

Local Open Scope nat_scope.

Definition path : Type := list ascii.

(** The kernel calls, on the state [K] of the file system and directory
    objects [D]; a failing call has a negative error number. *)
Class FileSystem (K D : Type) := {
  dir_init : D;
  fs_opendir : K -> D -> path -> K * D * option errno;
  fs_readdir : K -> D -> K * D * (list ascii + errno);
  fs_closedir : K -> D -> K * option errno;
  fs_rename : K -> path -> path -> K * option errno;
  fs_unlink : K -> path -> K * option errno;
  fs_mkdir : K -> path -> K * option errno;
  fs_stat : K -> path -> (Z * Z) + errno;
  fs_statvfs : K -> path -> Z + errno;
  zvfs_fstat : K -> Z -> (Z * Z) + errno
}.

(** What an open directory object has left, and what a directory holds.  The
    end of a directory is an empty name; the kernel's entry has room for names
    of up to [max_file_name] characters. *)
Class FileSystemLaws (K D : Type) `{FileSystem K D} (max_file_name : nat) := {
  listing : K -> path -> option (list (list ascii));
  remaining : K -> D -> list (list ascii) -> Prop;
  fs_opendir_ok k p names :
    listing k p = Some names ->
    exists k' d, fs_opendir k dir_init p = (k', d, None) /\ remaining k' d names;
  fs_opendir_fails k p :
    listing k p = None -> exists k' d e, fs_opendir k dir_init p = (k', d, Some e);
  fs_readdir_next k d n names :
    remaining k d (n :: names) ->
    exists k' d', fs_readdir k d = (k', d', inl n) /\ remaining k' d' names /\
                  n <> [] /\ (NUL ∉ n) /\ length n <= max_file_name;
  fs_readdir_end k d : remaining k d [] -> exists k' d', fs_readdir k d = (k', d', inl [])
}.

Section Directories.
Context {K D : Type} `{FileSystem K D}.
(** [MAX_FILE_NAME] and the size of [d_name], [NAME_MAX + 1]. *)
Variable MAX_FILE_NAME DNAME : nat.
(** [sizeof(de.name)] of the kernel's entry. *)
Variable DENAME : nat.
(** Which free descriptor [zvfs_fs_desc_alloc] hands out, if any. *)
Variable zvfs_fs_desc_alloc : gmap Z D -> option Z.

(** The file system, the directory streams, and the static entry. *)
Record world := { w_fs : K; w_desc : gmap Z D; w_pdirent : list ascii }.

Definition set_fs (k : K) (w : world) : world := {| w_fs := k; w_desc := w_desc w; w_pdirent := w_pdirent w |}.

Definition opendir (w : world) (dirname : path) : world * res Z :=
  match zvfs_fs_desc_alloc (w_desc w) with
  | None => (w, Err EMFILE)
  | Some ptr =>
      let '(k, d, rc) := fs_opendir (w_fs w) dir_init dirname in
      match rc with
      | Some e => (set_fs k w, Err e)
      | None => ({| w_fs := k; w_desc := <[ptr := d]> (w_desc w); w_pdirent := w_pdirent w |}, Ok ptr)
      end
  end.

(** A call on a stream that is not open has undefined behaviour: [None]. *)
Definition closedir (w : world) (dirp : option Z) : option (world * res unit) :=
  match dirp with
  | None => Some (w, Err EBADF)
  | Some ptr =>
      match w_desc w !! ptr with
      | None => None
      | Some d =>
          let '(k, rc) := fs_closedir (w_fs w) d in
          Some ({| w_fs := k; w_desc := delete ptr (w_desc w); w_pdirent := w_pdirent w |},
                match rc with Some e => Err e | None => Ok tt end)
      end
  end.

(** [memcpy(d_name, name, rc)] and the terminator. *)
Definition copy_name (mem name : list ascii) (rc : nat) : list ascii :=
  <[rc := NUL]> (take rc name ++ drop rc mem).

(** [Ok true] is the static entry, [Ok false] is NULL with errno as it was;
    [None] is a stream that is not open or a write outside of [d_name]. *)
Definition readdir (w : world) (dirp : option Z) : option (world * res bool) :=
  match dirp with
  | None => Some (w, Err EBADF)
  | Some ptr =>
      match w_desc w !! ptr with
      | None => None
      | Some d =>
          let '(k, d', r) := fs_readdir (w_fs w) d in
          let w' := {| w_fs := k; w_desc := <[ptr := d']> (w_desc w); w_pdirent := w_pdirent w |} in
          match r with
          | inr e => Some (w', Err e)
          | inl [] => Some (w', Ok false)
          | inl name =>
              let rc := if (length name <? MAX_FILE_NAME) then length name else MAX_FILE_NAME - 1 in
              if length (w_pdirent w) <=? rc then None
              else Some ({| w_fs := k; w_desc := <[ptr := d']> (w_desc w);
                            w_pdirent := copy_name (w_pdirent w) name rc |}, Ok true)
          end
      end
  end.

(** [strncpy(dst, src, n)] at the start of a memory. *)
Definition strncpy (mem src : list ascii) (n : nat) : list ascii :=
  take n (src ++ replicate n NUL) ++ drop n mem.

(** [readdir_r(dirp, entry, result)] with [entry] the memory of the caller's
    entry and [result] not NULL when [has_result]: the return value (0 is
    [None]), the entry, and what is stored in [*result] ([Some true] is the
    entry, [Some false] is NULL, [None] is nothing). *)
Definition readdir_r (w : world) (dirp : option Z) (entry : option (list ascii)) (has_result : bool)
    : option (world * option errno * option (list ascii) * option bool) :=
  if negb has_result then Some (w, Some EINVAL, entry, None)
  else match entry with
       | None => Some (w, Some EINVAL, entry, Some false)
       | Some mem =>
           match dirp with
           | None => Some (w, Some EBADF, entry, Some false)
           | Some ptr =>
               match w_desc w !! ptr with
               | None => None
               | Some d =>
                   let '(k, d', r) := fs_readdir (w_fs w) d in
                   let w' := {| w_fs := k; w_desc := <[ptr := d']> (w_desc w); w_pdirent := w_pdirent w |} in
                   match r with
                   | inr e => Some (w', Some e, entry, Some false)
                   | inl name =>
                       let mem' := <[DNAME - 1 := NUL]> (strncpy mem name (Nat.min DNAME DENAME)) in
                       Some (w', None, Some mem', Some (negb (bool_decide (hd NUL mem' = NUL))))
                   end
               end
           end
       end.

Definition status (k : K) (w : world) (rc : option errno) : world * res unit :=
  (set_fs k w, match rc with Some e => Err e | None => Ok tt end).

Definition rename (w : world) (old new : path) : world * res unit :=
  let '(k, rc) := fs_rename (w_fs w) old new in status k w rc.
Definition unlink (w : world) (p : path) : world * res unit :=
  let '(k, rc) := fs_unlink (w_fs w) p in status k w rc.
Definition rmdir (w : world) (p : path) : world * res unit := unlink w p.
Definition mkdir (w : world) (p : path) (mode : Z) : world * res unit :=
  let '(k, rc) := fs_mkdir (w_fs w) p in status k w rc.

(** ** File status *)

Record stat_buf := { st_mode : Z; st_size : Z; st_blksize : Z; st_blocks : Z }.
Definition stat_zero : stat_buf := {| st_mode := 0; st_size := 0; st_blksize := 0; st_blocks := 0 |}.

Variable FS_DIR_ENTRY_FILE FS_DIR_ENTRY_DIR S_IFREG S_IFDIR : Z.
(** The number of bits of size_t, and whether _XOPEN_SOURCE is defined. *)
Variable W : Z.
Variable xopen : bool.

(** The buffer is [None] for NULL; the result has the buffer after the call.
    [None] is a division by zero. *)
Definition stat (w : world) (p : path) (buf : option stat_buf) : option (res unit * option stat_buf) :=
  match buf with
  | None => Some (Err EBADF, buf)
  | Some _ =>
      match fs_statvfs (w_fs w) p with
      | inr e => Some (Err e, buf)
      | inl f_bsize =>
          match fs_stat (w_fs w) p with
          | inr e => Some (Err e, buf)
          | inl (type, size) =>
              let mode :=
                if (type =? FS_DIR_ENTRY_FILE)%Z then Some (if xopen then S_IFREG else 0%Z)
                else if (type =? FS_DIR_ENTRY_DIR)%Z then Some (if xopen then S_IFDIR else 0%Z)
                else None in
              match mode with
              | None => Some (Err EIO, Some stat_zero)
              | Some m =>
                  if xopen then
                    if (f_bsize =? 0)%Z then None
                    else Some (Ok tt, Some {| st_mode := m; st_size := size; st_blksize := f_bsize;
                                              st_blocks := uwrap W (size + f_bsize - 1) / f_bsize |})
                  else Some (Ok tt, Some {| st_mode := m; st_size := size; st_blksize := 0; st_blocks := 0 |})
              end
          end
      end
  end.

Definition fstat (w : world) (fildes : Z) (buf : option stat_buf) : res unit * option stat_buf :=
  match buf with
  | None => (Err EFAULT, buf)
  | Some _ =>
      match zvfs_fstat (w_fs w) fildes with
      | inr e => (Err e, buf)
      | inl (size, mode) => (Ok tt, Some {| st_mode := mode; st_size := size; st_blksize := 0; st_blocks := 0 |})
      end
  end.

(** ** What readdir writes *)

Lemma copy_name_spec mem name rc :
  rc <= length name -> rc < length mem -> copy_name mem name rc = take rc name ++ NUL :: drop (S rc) mem.
Proof.
  intros Hn Hl. assert (length (take rc name) = rc) as Ht by (rewrite length_take; lia).
  unfold copy_name. rewrite insert_app_r_alt, Ht, Nat.sub_diag by lia.
  destruct (lookup_lt_is_Some_2 mem _ Hl) as [c Hc]. by rewrite (drop_S mem c _ Hc).
Qed.

Lemma copy_name_text mem name rc :
  rc <= length name -> rc < length mem -> NUL ∉ name -> str_at (copy_name mem name rc) 0 = take rc name.
Proof.
  intros Hl Hr Hn. rewrite copy_name_spec by done. apply (str_at_app []); [done|].
  intros Hin. apply elem_of_take in Hin as (i & Hi & _). by eapply Hn, list_elem_of_lookup_2.
Qed.

(** What readdir makes of a name: MAX_FILE_NAME characters are too many. *)
Definition cut_name (n : list ascii) : list ascii := take (MAX_FILE_NAME - 1) n.

Lemma cut_name_short n : length n < MAX_FILE_NAME -> cut_name n = n.
Proof. intros Hl. apply take_ge. lia. Qed.

(** The length readdir computes. *)
Lemma name_length n :
  0 < MAX_FILE_NAME ->
  let rc := if length n <? MAX_FILE_NAME then length n else MAX_FILE_NAME - 1 in
  rc <= length n /\ rc < MAX_FILE_NAME /\ take rc n = cut_name n.
Proof.
  intros Hm. destruct (Nat.ltb_spec (length n) MAX_FILE_NAME); simpl; [|split_and!; done || lia].
  split; [done|]. split; [done|]. rewrite cut_name_short by done. by rewrite firstn_all.
Qed.

(** Reading a stream to its end, each entry being read before the next call. *)
Fixpoint read_all (fuel : nat) (w : world) (ptr : Z) : option (list (list ascii) * world) :=
  match fuel with
  | O => None
  | S fuel' =>
      match readdir w (Some ptr) with
      | Some (w', Ok true) =>
          match read_all fuel' w' ptr with
          | Some (names, w'') => Some (str_at (w_pdirent w') 0 :: names, w'')
          | None => None
          end
      | Some (w', Ok false) => Some ([], w')
      | _ => None
      end
  end.

(** Only the entry of the stream and the characters of the static entry
    change. *)
Definition same_elsewhere (ptr : Z) (w w' : world) : Prop :=
  (exists d', w_desc w' = <[ptr := d']> (w_desc w)) /\ length (w_pdirent w') = length (w_pdirent w).

#[export] Instance same_elsewhere_trans ptr : Transitive (same_elsewhere ptr).
Proof.
  intros w1 w2 w3 ([d1 H1] & L1) ([d2 H2] & L2). split; [|congruence].
  exists d2. by rewrite H2, H1, insert_insert_eq.
Qed.

Context `{!FileSystemLaws K D MAX_FILE_NAME}.
Hypothesis max_pos : 0 < MAX_FILE_NAME.
Hypothesis desc_alloc_fresh : forall t ptr, zvfs_fs_desc_alloc t = Some ptr -> t !! ptr = None.

Lemma readdir_next w ptr d n names :
  w_desc w !! ptr = Some d -> remaining (w_fs w) d (n :: names) -> MAX_FILE_NAME <= length (w_pdirent w) ->
  exists w' d', readdir w (Some ptr) = Some (w', Ok true) /\ str_at (w_pdirent w') 0 = cut_name n /\
    w_desc w' !! ptr = Some d' /\ remaining (w_fs w') d' names /\ same_elsewhere ptr w w'.
Proof.
  intros Hd Hr Hm. destruct (fs_readdir_next _ _ _ _ Hr) as (k & d' & Hk & Hr' & Hne & Hnul & Hl).
  unfold readdir. rewrite Hd, Hk. destruct (name_length n max_pos) as (H1 & H2 & H3).
  set (rc := if length n <? MAX_FILE_NAME then length n else MAX_FILE_NAME - 1) in *.
  rewrite (proj2 (Nat.leb_gt (length (w_pdirent w)) rc)) by lia. destruct n as [|c n]; [done|].
  eexists _, d'. split; [done|]. cbn [w_pdirent w_desc w_fs].
  rewrite copy_name_text, H3, lookup_insert_eq by (done || lia). split_and!; [done|done|done|].
  split; [by eexists|]. cbn [w_pdirent]. rewrite copy_name_spec by lia.
  rewrite length_app, length_take. cbn [length]. rewrite length_drop. cbn [length] in *. lia.
Qed.

Lemma readdir_end w ptr d :
  w_desc w !! ptr = Some d -> remaining (w_fs w) d [] ->
  exists w', readdir w (Some ptr) = Some (w', Ok false) /\ same_elsewhere ptr w w'.
Proof.
  intros Hd Hr. destruct (fs_readdir_end _ _ Hr) as (k & d' & Hk). unfold readdir. rewrite Hd, Hk.
  eexists. split; [done|]. split; [by eexists|done].
Qed.

Lemma read_all_spec names : forall w ptr d,
  w_desc w !! ptr = Some d -> remaining (w_fs w) d names -> MAX_FILE_NAME <= length (w_pdirent w) ->
  exists w', read_all (S (length names)) w ptr = Some (cut_name <$> names, w') /\ same_elsewhere ptr w w'.
Proof.
  induction names as [|n names IH]; intros w ptr d Hd Hr Hm; cbn [read_all length].
  - destruct (readdir_end w ptr d Hd Hr) as (w' & -> & Hs). by eexists.
  - destruct (readdir_next w ptr d n names Hd Hr Hm) as (w1 & d1 & -> & Hn & Hd1 & Hr1 & Hs1).
    destruct (IH w1 ptr d1 Hd1 Hr1) as (w2 & Hall & Hs2); [destruct Hs1 as [_ ->]; done|].
    cbn [read_all] in Hall. rewrite Hall. eexists. rewrite Hn. split; [done|]. by etrans.
Qed.

(** C40: On a file system whose entries have names of up to MAX_FILE_NAME
    characters, with a d_name of at least MAX_FILE_NAME characters: opening a
    directory and reading it to the end yields the names the file system lists
    for it, in order, each cut to MAX_FILE_NAME - 1 characters, so that names
    shorter than MAX_FILE_NAME are unchanged; no character is written outside
    of d_name, and closing gives the descriptor back. *)
Theorem readdir_enumerates w p names ptr :
  listing (w_fs w) p = Some names -> zvfs_fs_desc_alloc (w_desc w) = Some ptr ->
  MAX_FILE_NAME <= length (w_pdirent w) ->
  exists w1 w2 w3 r,
    opendir w p = (w1, Ok ptr) /\ read_all (S (length names)) w1 ptr = Some (cut_name <$> names, w2) /\
    (Forall (fun n => length n < MAX_FILE_NAME) names -> cut_name <$> names = names) /\
    closedir w2 (Some ptr) = Some (w3, r) /\ w_desc w3 = w_desc w.
Proof.
  intros Hl Ha Hm. destruct (fs_opendir_ok _ _ _ Hl) as (k & d & Ho & Hr).
  pose proof (desc_alloc_fresh _ _ Ha) as Hfresh. unfold opendir. rewrite Ha, Ho.
  set (w1 := {| w_fs := k; w_desc := <[ptr := d]> (w_desc w); w_pdirent := w_pdirent w |}).
  destruct (read_all_spec names w1 ptr d) as (w2 & Hall & [d2 Hd2] & _); [apply lookup_insert_eq|done..|].
  simpl w_desc in Hd2. rewrite insert_insert_eq in Hd2.
  unfold closedir. destruct (fs_closedir (w_fs w2) d2) as [k3 rc] eqn:Hc.
  eexists w1, w2, _, _. split; [done|]. split; [done|]. split.
  { clear. induction 1 as [|n ns Hn Hns IH]; [done|]. rewrite fmap_cons, IH. by rewrite cut_name_short. }
  rewrite Hd2, lookup_insert_eq, Hc. split; [done|]. simpl. by rewrite delete_insert_id.
Qed.

(** When no descriptor is free, or the directory cannot be opened, opendir
    fails and takes no descriptor. *)
Lemma opendir_fails w p :
  zvfs_fs_desc_alloc (w_desc w) = None \/ listing (w_fs w) p = None ->
  exists w' e, opendir w p = (w', Err e) /\ w_desc w' = w_desc w.
Proof.
  unfold opendir. destruct (zvfs_fs_desc_alloc (w_desc w)) as [ptr|]; [|by eexists _, _].
  intros [|Hl]; [done|]. destruct (fs_opendir_fails _ _ Hl) as (k & d & e & ->). by eexists _, _.
Qed.

(** A name longer than d_name (and shorter than MAX_FILE_NAME) would be written
    past its end: the call is undefined. *)
Lemma readdir_overflows w ptr d n names :
  w_desc w !! ptr = Some d -> remaining (w_fs w) d (n :: names) ->
  length (w_pdirent w) <= length n < MAX_FILE_NAME -> readdir w (Some ptr) = None.
Proof.
  intros Hd Hr Hn. destruct (fs_readdir_next _ _ _ _ Hr) as (k & d' & Hk & _ & Hne & _ & Hl).
  unfold readdir. rewrite Hd, Hk. rewrite (proj2 (Nat.ltb_lt _ _) (proj2 Hn)).
  rewrite (proj2 (Nat.leb_le _ _) (proj1 Hn)). by destruct n.
Qed.

(** An entry does not survive a call on another stream. *)
Lemma readdir_shares_entry w p1 p2 d1 d2 n1 n2 l1 l2 :
  p1 <> p2 -> cut_name n1 <> cut_name n2 -> w_desc w !! p1 = Some d1 -> w_desc w !! p2 = Some d2 ->
  remaining (w_fs w) d1 (n1 :: l1) -> MAX_FILE_NAME <= length (w_pdirent w) ->
  (forall w', readdir w (Some p1) = Some (w', Ok true) -> remaining (w_fs w') d2 (n2 :: l2)) ->
  exists w1 w2, readdir w (Some p1) = Some (w1, Ok true) /\ str_at (w_pdirent w1) 0 = cut_name n1 /\
    readdir w1 (Some p2) = Some (w2, Ok true) /\ str_at (w_pdirent w2) 0 <> cut_name n1.
Proof.
  intros Hp Hn H1 H2 Hr1 Hm Hr2. destruct (readdir_next w p1 d1 n1 l1 H1 Hr1 Hm) as (w1 & d1' & Hw1 & Hn1 & _ & _ & Hs).
  destruct Hs as [[d' Hd'] Hlen].
  destruct (readdir_next w1 p2 d2 n2 l2) as (w2 & d2' & Hw2 & Hn2 & _).
  - by rewrite Hd', lookup_insert_ne.
  - by apply Hr2.
  - by rewrite Hlen.
  - exists w1, w2. split; [done|]. split; [done|]. split; [done|]. congruence.
Qed.

(** ** readdir_r *)

Lemma upto_nul_pad name k : NUL ∉ name -> upto_nul (name ++ replicate k NUL) = name.
Proof.
  intros Hn. destruct k as [|k]; [|by apply upto_nul_app]. rewrite app_nil_r.
  induction name as [|c name IH]; [done|]. apply not_elem_of_cons in Hn as [Hc Hn]. simpl.
  rewrite bool_decide_eq_false_2 by congruence. by rewrite IH.
Qed.

Lemma upto_nul_nil l : upto_nul l = [] <-> hd NUL l = NUL.
Proof. destruct l as [|c l]; [done|]. simpl. case_bool_decide; simpl; naive_solver. Qed.

(** The entry holds as much of the name as fits before the terminator, and
    nothing past d_name is written. *)
Lemma readdir_r_copy mem name :
  2 <= DNAME <= length mem -> NUL ∉ name -> length name < DENAME ->
  let mem' := <[DNAME - 1 := NUL]> (strncpy mem name (Nat.min DNAME DENAME)) in
  drop DNAME mem' = drop DNAME mem /\ str_at mem' 0 = take (DNAME - 1) name /\
  (hd NUL mem' = NUL <-> name = []).
Proof.
  intros Hm Hn Hl mem'. set (k := Nat.min DNAME DENAME) in *.
  assert (Hlen : length (take k (name ++ replicate k NUL)) = k).
  { rewrite length_take, length_app, length_replicate. lia. }
  split; [|assert (Hstr : str_at mem' 0 = take (DNAME - 1) name)].
  - subst mem'. rewrite drop_insert_lt by lia. unfold strncpy. rewrite drop_app_ge, drop_drop by lia. f_equal. lia.
  - subst mem'. unfold str_at, strncpy. rewrite drop_0. destruct (Nat.le_gt_cases DNAME (length name)) as [Hlong|Hshort].
    + assert (Hk : k = DNAME) by lia. rewrite Hk in *. rewrite insert_app_l by lia.
      rewrite take_app_le by lia. replace DNAME with (S (DNAME - 1)) at 2 by lia.
      destruct (lookup_lt_is_Some_2 name (DNAME - 1) ltac:(lia)) as [c Hc]. rewrite (take_S_r _ _ c) by done.
      rewrite insert_app_r_alt by (rewrite length_take; lia). rewrite length_take, Nat.min_l, Nat.sub_diag by lia.
      simpl. rewrite <- app_assoc. apply upto_nul_app. intros Hin. by apply elem_of_take in Hin as (i & ? & _); eapply Hn, list_elem_of_lookup_2.
    + rewrite take_ge with (l := name) by lia.
      assert (Hz : exists rest, <[DNAME - 1 := NUL]> (take k (name ++ replicate k NUL) ++ drop k mem) = name ++ NUL :: rest).
      { rewrite take_app_ge by lia. rewrite take_replicate. destruct (Nat.min (k - length name) k) as [|j] eqn:Hj; [lia|].
        rewrite <- app_assoc. destruct (Nat.eq_dec (DNAME - 1) (length name)) as [He|He].
        - rewrite insert_app_r_alt, He, Nat.sub_diag by lia. simpl. by eexists.
        - rewrite insert_app_r_alt by lia. destruct (DNAME - 1 - length name) as [|i] eqn:Hi; [lia|]. simpl. by eexists. }
      destruct Hz as [rest ->]. by apply upto_nul_app.
  - split; [done|]. rewrite <- upto_nul_nil. change (upto_nul mem') with (str_at mem' 0). rewrite Hstr.
    destruct (DNAME - 1) eqn:?; [lia|]. by destruct name.
Qed.

(** A call that finds a name gives as much of it as fits in the caller's
    entry; at the end of the directory *result is NULL and 0 is returned. *)
Lemma readdir_r_spec w ptr d n names mem :
  w_desc w !! ptr = Some d -> remaining (w_fs w) d (n :: names) -> 2 <= DNAME <= length mem -> MAX_FILE_NAME < DENAME ->
  exists w' d' mem', readdir_r w (Some ptr) (Some mem) true = Some (w', None, Some mem', Some true) /\
    str_at mem' 0 = take (DNAME - 1) n /\ drop DNAME mem' = drop DNAME mem /\ w_pdirent w' = w_pdirent w /\
    w_desc w' !! ptr = Some d' /\ remaining (w_fs w') d' names.
Proof.
  intros Hd Hr Hm HD. destruct (fs_readdir_next _ _ _ _ Hr) as (k & d' & Hk & Hr' & Hne & Hnul & Hl).
  destruct (readdir_r_copy mem n Hm Hnul ltac:(lia)) as (Hdrop & Hstr & Hhd).
  unfold readdir_r. simpl. rewrite Hd, Hk. rewrite bool_decide_eq_false_2 by (rewrite Hhd; done).
  eexists _, d', _. split; [done|]. simpl w_desc. rewrite lookup_insert_eq. done.
Qed.

Lemma readdir_r_end w ptr d mem :
  w_desc w !! ptr = Some d -> remaining (w_fs w) d [] -> 2 <= DNAME <= length mem -> 0 < DENAME ->
  exists w' mem', readdir_r w (Some ptr) (Some mem) true = Some (w', None, Some mem', Some false).
Proof.
  intros Hd Hr Hm HD. destruct (fs_readdir_end _ _ Hr) as (k & d' & Hk).
  destruct (readdir_r_copy mem [] Hm ltac:(by apply not_elem_of_nil) ltac:(simpl; lia)) as (_ & _ & Hhd).
  unfold readdir_r. simpl. rewrite Hd, Hk. rewrite bool_decide_eq_true_2 by (by apply Hhd). by eexists _, _.
Qed.

(** ** Status *)

(** The blocks are those of the file system that the size needs. *)
Lemma stat_blocks w p b bs type size m :
  xopen = true -> fs_statvfs (w_fs w) p = inl bs -> fs_stat (w_fs w) p = inl (type, size) ->
  (type = FS_DIR_ENTRY_FILE /\ m = S_IFREG \/ type = FS_DIR_ENTRY_DIR /\ type <> FS_DIR_ENTRY_FILE /\ m = S_IFDIR) ->
  (0 <= size)%Z -> (0 < bs)%Z -> (size + bs <= 2 ^ W)%Z ->
  exists n, stat w p (Some b) = Some (Ok tt, Some {| st_mode := m; st_size := size; st_blksize := bs; st_blocks := n |}) /\
    ((n - 1) * bs < size <= n * bs)%Z.
Proof.
  intros Hx Hv Hs Ht Hsz Hbs Hw. unfold stat. rewrite Hv, Hs, Hx.
  unfold uwrap. rewrite Z.mod_small by lia. exists ((size + bs - 1) / bs)%Z.
  pose proof (Z.div_mod (size + bs - 1) bs ltac:(lia)). pose proof (Z.mod_pos_bound (size + bs - 1) bs Hbs).
  split; [|nia]. destruct Ht as [[-> ->]|(-> & Hne & ->)].
  - rewrite Z.eqb_refl. by ztests.
  - rewrite (eqb_false FS_DIR_ENTRY_DIR FS_DIR_ENTRY_FILE) by done. rewrite Z.eqb_refl. by ztests.
Qed.

(** An entry that is neither a file nor a directory is reported as an input
    error, and the caller's buffer has been cleared by then. *)
Lemma stat_other w p b bs type size :
  fs_statvfs (w_fs w) p = inl bs -> fs_stat (w_fs w) p = inl (type, size) ->
  type <> FS_DIR_ENTRY_FILE -> type <> FS_DIR_ENTRY_DIR ->
  stat w p (Some b) = Some (Err EIO, Some stat_zero).
Proof. intros Hv Hs H1 H2. unfold stat. rewrite Hv, Hs. by ztests. Qed.
End Directories.

(** ** A file system *)

(** A table of directories; a directory object holds the names not read yet. *)
Definition good_name (max : nat) (n : list ascii) : bool :=
  negb (bool_decide (n = [])) && negb (bool_decide (NUL ∈ n)) && (length n <=? max).

Definition table : Type := list (path * list (list ascii)).

Fixpoint table_find (t : table) (p : path) : option (list (list ascii)) :=
  match t with
  | [] => None
  | (q, names) :: t' => if bool_decide (q = p) then Some names else table_find t' p
  end.

Section Table.
Variable max : nat.

Definition table_listing (t : table) (p : path) : option (list (list ascii)) :=
  match table_find t p with
  | Some names => if forallb (good_name max) names then Some names else None
  | None => None
  end.

#[export] Instance table_fs : FileSystem table (list (list ascii)) := {
  dir_init := [];
  fs_opendir t d p := match table_listing t p with Some names => (t, names, None) | None => (t, d, Some ENOENT) end;
  fs_readdir t d := match d with [] => (t, [], inl []) | n :: d' => (t, d', inl n) end;
  fs_closedir t d := (t, None);
  fs_rename t p q := (t, Some ENOENT);
  fs_unlink t p := (t, Some ENOENT);
  fs_mkdir t p := (t, Some ENOSPC);
  fs_stat t p := inr ENOENT;
  fs_statvfs t p := inr ENOENT;
  zvfs_fstat t fd := inr EBADF
}.

#[export] Instance table_fs_laws : FileSystemLaws table (list (list ascii)) max.
Proof.
  refine {| listing := table_listing; remaining t d names := d = names /\ forallb (good_name max) names = true |}.
  - intros t p names Hl. simpl. rewrite Hl. eexists _, _. split; [done|]. split; [done|].
    unfold table_listing in Hl. by repeat case_match; simplify_eq.
  - intros t p Hl. simpl. rewrite Hl. by eexists _, _, _.
  - intros t d n names [-> Hn]. simpl. eexists _, _. split; [done|]. simpl in Hn.
    apply andb_true_iff in Hn as [Hg Hn]. split; [done|]. unfold good_name in Hg.
    apply andb_true_iff in Hg as [[H1%negb_true_iff H2%negb_true_iff]%andb_true_iff H3%Nat.leb_le].
    by apply bool_decide_eq_false in H1, H2.
  - intros t d [-> _]. simpl. by eexists _, _.
Defined.
End Table.

Definition root_table : table := [(chars "/"%string, [chars "etc"%string; chars "LONGNAME.TXT"%string])].
Definition one_desc (t : gmap Z (list (list ascii))) : option Z :=
  match t !! 0%Z with None => Some 0%Z | Some _ => None end.
Definition root_world : @world table (list (list ascii)) :=
  {| w_fs := root_table; w_desc := ∅; w_pdirent := replicate 16 "~"%char |}.

Lemma one_desc_fresh t ptr : one_desc t = Some ptr -> t !! ptr = None.
Proof. unfold one_desc. destruct (t !! 0%Z) eqn:Ht; [done|]. by intros [= <-]. Qed.

Lemma readdir_enumerates_witness :
  exists w1 w2 w3 r,
    @opendir _ _ (table_fs 12) one_desc root_world (chars "/"%string) = (w1, Ok 0%Z) /\
    @read_all _ _ (table_fs 12) 12 3 w1 0%Z = Some ([chars "etc"%string; chars "LONGNAME.TX"%string], w2) /\
    (Forall (fun n => length n < 12) [chars "etc"%string; chars "LONGNAME.TXT"%string] ->
     cut_name 12 <$> [chars "etc"%string; chars "LONGNAME.TXT"%string] = [chars "etc"%string; chars "LONGNAME.TXT"%string]) /\
    @closedir _ _ (table_fs 12) w2 (Some 0%Z) = Some (w3, r) /\ w_desc w3 = w_desc root_world.
Proof.
  apply (@readdir_enumerates _ _ (table_fs 12) 12 one_desc (table_fs_laws 12) ltac:(lia) one_desc_fresh
           root_world (chars "/"%string) [chars "etc"%string; chars "LONGNAME.TXT"%string] 0%Z);
    [vm_compute; reflexivity|vm_compute; reflexivity|simpl; lia].
Defined.

(** ** File types (sys/stat.h) *)

Section Modes.
(** The kernel's constants of the types and their mask. *)
Context (S_IFMT S_IFBLK S_IFCHR S_IFDIR S_IFIFO S_IFREG S_IFLNK S_IFSOCK S_IFSHM : Z).

Definition S_ISBLK (m : Z) : bool := (Z.land m S_IFMT =? S_IFBLK)%Z.
Definition S_ISCHR (m : Z) : bool := (Z.land m S_IFMT =? S_IFCHR)%Z.
Definition S_ISDIR (m : Z) : bool := (Z.land m S_IFMT =? S_IFDIR)%Z.
Definition S_ISFIFO (m : Z) : bool := (Z.land m S_IFMT =? S_IFIFO)%Z.
Definition S_ISREG (m : Z) : bool := (Z.land m S_IFMT =? S_IFREG)%Z.
Definition S_ISLNK (m : Z) : bool := (Z.land m S_IFMT =? S_IFLNK)%Z.
Definition S_ISSOCK (m : Z) : bool := (Z.land m S_IFMT =? S_IFSOCK)%Z.
Definition S_TYPEISSHM (st_mode : Z) : bool := (Z.land st_mode S_IFMT =? S_IFSHM)%Z.

Definition file_types (m : Z) : list bool :=
  [S_ISBLK m; S_ISCHR m; S_ISDIR m; S_ISFIFO m; S_ISREG m; S_ISLNK m; S_ISSOCK m; S_TYPEISSHM m].

(** With distinct constants a mode has at most one type, and the permission
    bits do not change it. *)
Lemma file_type_unique m i j :
  NoDup [S_IFBLK; S_IFCHR; S_IFDIR; S_IFIFO; S_IFREG; S_IFLNK; S_IFSOCK; S_IFSHM] ->
  file_types m !! i = Some true -> file_types m !! j = Some true -> i = j.
Proof.
  intros Hnd Hi Hj. set (l := [S_IFBLK; S_IFCHR; S_IFDIR; S_IFIFO; S_IFREG; S_IFLNK; S_IFSOCK; S_IFSHM]) in *.
  assert (forall k, file_types m !! k = Some true -> l !! k = Some (Z.land m S_IFMT)) as Hk.
  { intros k. change (file_types m) with ((fun c => Z.land m S_IFMT =? c)%Z <$> l). rewrite list_lookup_fmap.
    destruct (l !! k) as [c|]; [|done]. simpl. intros [= ->%Z.eqb_eq]. done. }
  by eapply NoDup_lookup; [exact Hnd|apply Hk|apply Hk].
Qed.

Lemma file_type_perm m perm : Z.land perm S_IFMT = 0%Z -> file_types (Z.lor m perm) = file_types m.
Proof. intros Hp. unfold file_types, S_ISBLK, S_ISCHR, S_ISDIR, S_ISFIFO, S_ISREG, S_ISLNK, S_ISSOCK, S_TYPEISSHM. by rewrite Z.land_lor_distr_l, Hp, Z.lor_0_r. Qed.
End Modes.
