(* ===== verification/Shell.v ===== *)
(** * Shell commands (shell/env.c, shell/uname.c, single_process/uname.c)

    The commands env get, env set and env unset over the environment of [Env],
    and uname over the option parser of [Getopt].  What a command prints is a
    list of texts. *)

From stdpp Require Import base gmap list strings.
From Stdlib Require Import ZArith Lia Ascii.
From S2P Require Import Prelude CString Env Getopt.

Local Open Scope Z_scope.

Definition EXIT_SUCCESS : Z := 0.
Definition EXIT_FAILURE : Z := 1.

(** ** env *)

Section EnvCommands.
Context (ptr_size : Z) (track_alloc : bool).

(** [argv] has the name of the command first. *)
Definition cmd_env_get (st : env_state) (argv : list string) : Z * list string :=
  match argv with
  | [_] => (EXIT_SUCCESS, match environ st with Some es => e_str <$> es | None => [] end)
  | [_; name] =>
      (EXIT_SUCCESS, match getenv st (Some name) with Some value => [value] | None => [] end)
  | _ => (EXIT_FAILURE, [])
  end.

Fixpoint shell_name_loop (first : bool) (name : string) : bool :=
  match name with
  | EmptyString => true
  | String c name' =>
      if bool_decide (c = "_"%char) then shell_name_loop false name'
      else if isalpha c then shell_name_loop false name'
      else if negb first && isdigit c then shell_name_loop false name'
      else false
  end.

Definition is_shell_env_name (name : string) : bool :=
  match name with EmptyString => false | _ => shell_name_loop true name end.

(** The last two arguments are the outcomes of the allocations of setenv. *)
Definition cmd_env_set (st : env_state) (argv : list string) (ra re : bool) : env_state * Z * list string :=
  let set name value :=
    if negb (is_shell_env_name name) then (st, EXIT_SUCCESS, ["bad name"%string])
    else match setenv ptr_size track_alloc st (Some name) value 1 ra re with
         | (st', Ok _) => (st', EXIT_SUCCESS, [])
         | (st', Err _) => (st', EXIT_FAILURE, [])
         end in
  match argv with
  | [_; arg] => match split_eq arg with
                | Some (name, value) => set name (Some value)
                | None => set arg None
                end
  | [_; name; value] => set name (Some value)
  | _ => (st, EXIT_FAILURE, [])
  end.

Fixpoint unset_loop (st : env_state) (names : list string) : env_state :=
  match names with
  | [] => st
  | name :: names' => unset_loop (fst (unsetenv ptr_size track_alloc st (Some name))) names'
  end.

Definition cmd_env_unset (st : env_state) (argv : list string) : env_state * Z :=
  (unset_loop st (tail argv), EXIT_SUCCESS).

(** *** The commands and the environment *)

Lemma shell_name_valid first name c : shell_name_loop first name = true -> isalnum c = false -> c <> "_"%char -> str_contains c name = false.
Proof.
  intros Hn Hc Hu. revert first Hn. induction name as [|d name IH]; intros first Hn; [done|]. simpl in *.
  assert (isalnum d = true -> d <> c) as Hd by (intros H ->; congruence). unfold isalnum in Hd.
  case_bool_decide as Hdu; [subst d; case_bool_decide; [done|by eapply IH]|].
  destruct (isalpha d); [rewrite bool_decide_eq_false_2 by (apply not_eq_sym || idtac; naive_solver); by eapply IH|].
  destruct first; [done|]. simpl in Hn. destruct (isdigit d); [|done].
  rewrite bool_decide_eq_false_2 by naive_solver. by eapply IH.
Qed.

Lemma is_shell_env_name_no_eq name : is_shell_env_name name = true -> str_contains eq_char name = false.
Proof. destruct name as [|c name]; [done|]. intros Hn. by apply (shell_name_valid true _ eq_char Hn). Qed.

Lemma is_shell_env_name_valid name : is_shell_env_name name = true -> valid_name name = true.
Proof. intros Hn. unfold valid_name. rewrite is_shell_env_name_no_eq by done. by destruct name. Qed.

(** The two forms of env set. *)
Definition set_args (form : bool) (name value : string) : list string :=
  if form then ["set"; (name +:+ String eq_char value)]%string else ["set"; name; value]%string.

(** env set defines the variable and nothing else: env get then prints the
    value, and other variables as before. *)
Lemma env_set_get st form name value ra re st' out :
  env_wf st -> is_shell_env_name name = true ->
  cmd_env_set st (set_args form name value) ra re = (st', EXIT_SUCCESS, out) ->
  env_wf st' /\ cmd_env_get st' ["get"%string; name] = (EXIT_SUCCESS, [value]) /\
  (forall other, other <> name -> cmd_env_get st' ["get"%string; other] = cmd_env_get st ["get"%string; other]).
Proof.
  intros Hwf Hn Hset. pose proof (is_shell_env_name_valid name Hn) as Hv.
  assert (Hset' : exists r, setenv ptr_size track_alloc st (Some name) (Some value) 1 ra re = (st', Ok r)).
  { destruct form; cbn -[setenv split_eq is_shell_env_name] in Hset;
      rewrite ?split_eq_app in Hset by (by apply is_shell_env_name_no_eq);
      rewrite Hn in Hset; cbn -[setenv] in Hset;
      (destruct (setenv _ _ _ _ _ _ _ _) as [st1 [r|e]]; [|discriminate Hset]); simplify_eq; by exists r. }
  destruct Hset' as [r Hr]. apply z_setenv_spec in Hr as (Hwf' & _ & Hm); [|done]. simpl in Hm.
  split; [done|]. unfold cmd_env_get, getenv. split.
  - by rewrite (proj1 (z_getenv_refines st' name 0 Hwf')), Hm, lookup_insert_eq.
  - intros other Ho. by rewrite (proj1 (z_getenv_refines st' other 0 Hwf')), (proj1 (z_getenv_refines st other 0 Hwf)), Hm, lookup_insert_ne.
Qed.

(** A name the shell does not take is reported and nothing is set. *)
Lemma env_set_bad_name st name value ra re :
  is_shell_env_name name = false ->
  cmd_env_set st (set_args false name value) ra re = (st, EXIT_SUCCESS, ["bad name"%string]).
Proof. intros Hn. unfold cmd_env_set, set_args. by rewrite Hn. Qed.

(** A name without a value is an error and nothing is set. *)
Lemma env_set_no_value st name ra re :
  is_shell_env_name name = true -> split_eq name = None ->
  cmd_env_set st ["set"%string; name] ra re = (st, EXIT_FAILURE, []).
Proof. intros Hn Hs. unfold cmd_env_set. by rewrite Hs, Hn. Qed.

(** env unset removes every variable it names. *)
Lemma unset_loop_spec names : forall st,
  env_wf st -> Forall (fun n => valid_name n = true) names ->
  env_wf (unset_loop st names) /\
  forall n, env_map (unset_loop st names) !! n = if bool_decide (n ∈ names) then None else env_map st !! n.
Proof.
  induction names as [|m names IH]; intros st Hwf Hv; cbn [unset_loop].
  { split; [done|]. intros n. by rewrite bool_decide_eq_false_2 by apply not_elem_of_nil. }
  apply Forall_cons in Hv as [Hm Hv]. destruct (unsetenv _ _ st (Some m)) as [st1 r] eqn:Hu. simpl.
  apply z_unsetenv_spec in Hu as [Hwf1 Hu]; [|done]. rewrite Hm in Hu. destruct Hu as [_ Hmap].
  destruct (IH st1 Hwf1 Hv) as [Hwf2 Hall]. split; [done|]. intros n. rewrite Hall, Hmap.
  destruct (decide (n = m)) as [->|Hne].
  - rewrite lookup_delete_eq, (bool_decide_eq_true_2 (m ∈ m :: names)) by set_solver. by case_bool_decide.
  - rewrite lookup_delete_ne by done. by rewrite (bool_decide_ext (n ∈ m :: names) (n ∈ names)) by set_solver.
Qed.

Lemma env_unset_get st names n :
  env_wf st -> Forall (fun n => valid_name n = true) names -> n ∈ names ->
  cmd_env_get (fst (cmd_env_unset st ("unset"%string :: names))) ["get"%string; n] = (EXIT_SUCCESS, []).
Proof.
  intros Hwf Hv Hn. simpl. destruct (unset_loop_spec names st Hwf Hv) as [Hwf' Hall].
  unfold getenv. rewrite (proj1 (z_getenv_refines _ n 0 Hwf')), Hall. by rewrite bool_decide_eq_true_2.
Qed.
End EnvCommands.

(** ** uname *)

Record utsname := { sysname : string; nodename : string; release : string; version : string; machine : string }.

Section Uname.
(** The names the build gives, [CONFIG_BOARD], the size of the member
    [nodename], and the host name of the network stack when
    CONFIG_NET_HOSTNAME_ENABLE is set. *)
Context (z_name : utsname) (CONFIG_BOARD : string) (node_size : nat) (net_hostname : option string).
(** CONFIG_ZEPHYR_GETOPT and CONFIG_ZEPHYR_GETOPT_LONG. *)
Context (getopt_enabled long_enabled : bool).

(** The host name is copied by strncpy and terminated. *)
Definition uname : utsname :=
  match net_hostname with
  | None => z_name
  | Some h => {| sysname := sysname z_name; nodename := String.substring 0 (node_size - 1) h;
                 release := release z_name; version := version z_name; machine := machine z_name |}
  end.

Definition UNAME_KERNEL : Z := 1.
Definition UNAME_NODE : Z := 2.
Definition UNAME_RELEASE : Z := 4.
Definition UNAME_VERSION : Z := 8.
Definition UNAME_MACHINE : Z := 16.
Definition UNAME_PLATFORM : Z := 32.
Definition UNAME_UNKNOWN : Z := 64.
Definition UNAME_ALL : Z :=
  Z.lor UNAME_KERNEL (Z.lor UNAME_NODE (Z.lor UNAME_RELEASE (Z.lor UNAME_VERSION (Z.lor UNAME_MACHINE UNAME_PLATFORM)))).

Definition optstring : string := "asonrvmpi"%string.

Definition getopt_r (argv : list string) (st : getopt_state) : option (getopt_state * Z) :=
  if getopt_enabled then zephyr_getopt argv long_enabled optstring None false false st else Some (st, -1).

(** The variants with a table of long options, for any caller. *)
Definition getopt_long_r (argv : list string) (optstring : string) (longopts : list option_) (want_index : bool)
  (st : getopt_state) : option (getopt_state * Z) :=
  if getopt_enabled then zephyr_getopt argv long_enabled optstring (Some longopts) want_index false st else Some (st, -1).
Definition getopt_long_only_r (argv : list string) (optstring : string) (longopts : list option_) (want_index : bool)
  (st : getopt_state) : option (getopt_state * Z) :=
  if getopt_enabled then zephyr_getopt argv long_enabled optstring (Some longopts) want_index true st else Some (st, -1).

(** One option: the set of the fields and the bad argument. *)
Definition uname_option (option optopt : Z) (set badarg : Z) : Z * Z :=
  let opt c := option =? int_of_char c in
  if opt "a"%char then (UNAME_ALL, badarg)
  else if opt "o"%char || opt "s"%char then (Z.lor set UNAME_KERNEL, badarg)
  else if opt "n"%char then (Z.lor set UNAME_NODE, badarg)
  else if opt "r"%char then (Z.lor set UNAME_RELEASE, badarg)
  else if opt "v"%char then (Z.lor set UNAME_VERSION, badarg)
  else if opt "m"%char then (Z.lor set UNAME_MACHINE, badarg)
  else if opt "p"%char then (if set =? UNAME_ALL then set else Z.lor set UNAME_UNKNOWN, badarg)
  else if opt "i"%char then (Z.lor set UNAME_PLATFORM, badarg)
  else (set, swrap 8 optopt).

Fixpoint uname_options (fuel : nat) (argv : list string) (st : getopt_state) (set badarg : Z)
    : outcome (getopt_state * Z * Z) :=
  match fuel with
  | O => NoFuel
  | S fuel' =>
      match getopt_r argv st with
      | None => Undefined
      | Some (st', option) =>
          if option =? -1 then Returns (st', set, badarg)
          else let '(set', badarg') := uname_option option (optopt st') set badarg in
               uname_options fuel' argv st' set' badarg'
      end
  end.

Definition uname_texts (set : Z) (info : utsname) : list string :=
  let field bit text := if flag_set set bit then [(text +:+ " ")%string] else [] in
  field UNAME_KERNEL (sysname info) ++ field UNAME_NODE (nodename info) ++ field UNAME_RELEASE (release info)
  ++ field UNAME_VERSION (version info) ++ field UNAME_MACHINE (machine info)
  ++ field UNAME_PLATFORM CONFIG_BOARD ++ field UNAME_UNKNOWN "unknown"%string ++ [String (ascii_of_nat 10) EmptyString].

Inductive uname_result :=
| Printed (texts : list string)
| ExtraOperand
| IllegalOption (c : Z).

(** [opterr] holds the state of the option parser and is not initialised:
    [prev] and [next] are what it happens to hold. *)
Definition uname_cmd_handler (fuel : nat) (argv : list string) (prev next : Z) : outcome uname_result :=
  match uname_options fuel argv (mk_getopt None prev next 1 0 0 ∅) 0 0 with
  | Returns (st, set, badarg) =>
      if negb (argc argv =? optind st) then Returns ExtraOperand
      else if negb (badarg =? 0) then Returns (IllegalOption badarg)
      else Returns (Printed (uname_texts (if set =? 0 then UNAME_KERNEL else set) uname))
  | Undefined => Undefined
  | NoFuel => NoFuel
  end.

(** *** What uname prints *)

(** The fields the options of the command line select, in turn. *)
Definition select (set : Z) (c : ascii) : Z := fst (uname_option (int_of_char c) 0 set 0).

Lemma uname_option_known c optopt set :
  c ∈ chars optstring -> uname_option (int_of_char c) optopt set 0 = (select set c, 0).
Proof. intros Hc. unfold select. simpl in Hc. rewrite !elem_of_cons, elem_of_nil in Hc. by repeat destruct Hc as [->|Hc]. Qed.

(** The bit of a field is set when its letter, or an [a], is among the
    options. *)
Definition wants (letters cs : list ascii) : bool := existsb (fun c => bool_decide (c ∈ "a"%char :: letters)) cs.

Lemma select_bit i letters cs set :
  (i, letters) ∈ [(0, ["s"%char; "o"%char]); (1, ["n"%char]); (2, ["r"%char]); (3, ["v"%char]); (4, ["m"%char]); (5, ["i"%char])] ->
  Forall (fun c => c ∈ chars optstring) cs ->
  Z.testbit (foldl select set cs) i = Z.testbit set i || wants letters cs.
Proof.
  intros Hi. revert set. induction cs as [|c cs IH]; intros set Hcs; simpl; [by rewrite orb_false_r|].
  apply Forall_cons in Hcs as [Hc Hcs]. rewrite IH by done. rewrite orb_assoc. f_equal.
  assert (Hp : select set "p"%char = set \/ select set "p"%char = Z.lor set 64).
  { unfold select, uname_option. simpl. destruct (set =? UNAME_ALL); [by left|by right]. }
  assert (Hlor : forall b, Z.testbit (Z.lor set b) i = Z.testbit set i || Z.testbit b i) by (intros; apply Z.lor_spec).
  rewrite !elem_of_cons, elem_of_nil in Hi. simpl in Hc. rewrite !elem_of_cons, elem_of_nil in Hc.
  repeat destruct Hi as [Hi|Hi]; try done; injection Hi as -> ->;
    repeat destruct Hc as [->|Hc]; try done;
    first [ destruct Hp as [->| ->]; rewrite ?Hlor; simpl; by rewrite ?orb_false_r
          | unfold select, uname_option; simpl fst; rewrite Hlor; simpl; by rewrite ?orb_false_r
          | simpl; by rewrite ?orb_true_r ].
Qed.

(** The first call, with what [opterr] holds: it is as if the state had been
    initialised, unless it holds the position 1 already. *)
Hypothesis enabled : getopt_enabled = true.

Lemma getopt_fresh argv prev next :
  prev <> 1 ->
  getopt_r argv (mk_getopt None prev next 1 0 0 ∅) = getopt_r argv (mk_getopt None 1 1 1 0 0 ∅).
Proof.
  intros Hp. unfold getopt_r. rewrite enabled. unfold zephyr_getopt. cbv zeta. cbn [optind optind_prev].
  change (1 <? 1) with false. cbv iota. cbn [optind optind_prev]. by rewrite (eqb_false 1 prev) by lia.
Qed.

Lemma uname_options_fresh fuel argv prev next set badarg :
  prev <> 1 ->
  uname_options fuel argv (mk_getopt None prev next 1 0 0 ∅) set badarg
  = uname_options fuel argv (mk_getopt None 1 1 1 0 0 ∅) set badarg.
Proof. intros Hp. destruct fuel as [|fuel]; [done|]. cbn [uname_options]. by rewrite getopt_fresh. Qed.

(** The loop over calls that report known options. *)
Lemma uname_options_run argv cs : forall st evs st' set fuel,
  Forall (fun c => c ∈ chars optstring) cs ->
  getopt_calls (getopt_r argv) (length cs) st = Some (evs, st') ->
  Forall2 answers ((fun c => (int_of_char c, None)) <$> cs) evs ->
  uname_options (length cs + fuel) argv st set 0 = uname_options fuel argv st' (foldl select set cs) 0.
Proof.
  induction cs as [|c cs IH]; intros st evs st' set fuel Hcs Hcalls Ha.
  - simpl in Hcalls. by injection Hcalls as <- <-.
  - apply Forall_cons in Hcs as [Hc Hcs]. cbn [length getopt_calls] in Hcalls.
    destruct (getopt_r argv st) as [[st1 r]|] eqn:Hr; [|done].
    destruct (getopt_calls (getopt_r argv) (length cs) st1) as [[evs1 st2]|] eqn:Hc1; [|done]. injection Hcalls as <- <-.
    apply Forall2_cons in Ha as [[Hr1 _] Ha]. simpl in Hr1. subst r.
    cbn [length Nat.add uname_options foldl]. rewrite Hr.
    rewrite (eqb_false (int_of_char c) (-1)) by (unfold int_of_char; lia).
    rewrite uname_option_known by done. by eapply IH.
Qed.
Lemma getopt_r_enabled argv : getopt_r argv = zephyr_getopt argv long_enabled optstring None false false.
Proof. unfold getopt_r. by rewrite enabled. Qed.

Lemma flags_item_ok cs :
  cs <> EmptyString -> Z.of_nat (String.length cs) < 65535 -> Forall (fun c => c ∈ chars optstring) (chars cs) ->
  item_ok long_enabled optstring None (Flags cs).
Proof.
  intros Hne Hl Hcs. split; [done|]. split; [done|]. apply forallb_forall. intros c Hc.
  rewrite Forall_forall in Hcs. specialize (Hcs c). apply list_elem_of_In in Hc. specialize (Hcs Hc).
  simpl in Hcs. rewrite !elem_of_cons, elem_of_nil in Hcs. by repeat destruct Hcs as [->|Hcs].
Qed.

Lemma flags_events css :
  (Flags <$> css) ≫= events = (fun c => (int_of_char c, None) : event) <$> (css ≫= chars).
Proof. induction css as [|cs css IH]; [done|]. cbn [fmap list_fmap]. rewrite !bind_cons, IH. by rewrite fmap_app. Qed.

Lemma flags_render css : (Flags <$> css) ≫= render = String minus <$> css.
Proof. induction css as [|cs css IH]; [done|]. cbn [fmap list_fmap]. rewrite bind_cons. simpl. by f_equal. Qed.

(** The loop ends at the end of a command line of known options, having seen
    each of them. *)
Lemma uname_options_spec prog css fuel prev next :
  prev <> 1 -> Z.of_nat (length css) < 65535 ->
  Forall (fun cs => cs <> EmptyString /\ Z.of_nat (String.length cs) < 65535 /\ Forall (fun c => c ∈ chars optstring) (chars cs)) css ->
  (length (css ≫= chars) < fuel)%nat ->
  let argv := prog :: (String minus <$> css) in
  exists st, uname_options fuel argv (mk_getopt None prev next 1 0 0 ∅) 0 0
             = Returns (st, foldl select 0 (css ≫= chars), 0) /\ optind st = argc argv.
Proof.
  intros Hp Hl Hcss Hfuel argv. rewrite uname_options_fresh by done. set (its := Flags <$> css).
  assert (Hr : its ≫= render = String minus <$> css) by apply flags_render.
  assert (Hev := flags_events css). fold its in Hev.
  destruct (items_run argv long_enabled optstring None false its (mk_getopt None 1 1 1 0 0 ∅) 1)
    as (evs & st' & Hcalls & Ha & Hb).
  - lia.
  - rewrite Hr, length_fmap. lia.
  - intros n a Hn. replace (Z.to_nat (1 + Z.of_nat n)) with (S n) by lia. rewrite Hr in Hn. done.
  - apply Forall_fmap. eapply Forall_impl; [exact Hcss|]. intros cs (H1 & H2 & H3). by apply flags_item_ok.
  - repeat split; simpl; auto.
  - rewrite Hev in Hcalls, Ha. rewrite length_fmap in Hcalls. rewrite Hr, length_fmap in Hb.
    destruct (call_tail argv long_enabled optstring None false st' (1 + Z.of_nat (length css)) [] 0) as (st'' & Hend & Ho);
      [lia|apply drop_ge; unfold argv; simpl; rewrite length_fmap; lia|done|done|].
    exists st''. split; [|rewrite Ho; unfold argc, argv; cbn [length]; rewrite length_fmap; lia].
    rewrite <- getopt_r_enabled in Hcalls, Hend.
    replace fuel with (length (css ≫= chars) + S (fuel - length (css ≫= chars) - 1))%nat by lia.
    erewrite uname_options_run; [|by apply Forall_bind; eapply Forall_impl; [exact Hcss|]; naive_solver|exact Hcalls|exact Ha].
    cbn [uname_options]. by rewrite Hend.
Qed.

Lemma select_nonzero cs set : Forall (fun c => c ∈ chars optstring) cs -> cs <> [] -> 0 <= set -> 0 < foldl select set cs.
Proof.
  assert (Hs : forall c set, c ∈ chars optstring -> 0 <= set -> 0 < select set c).
  { intros c s0 Hc H0. assert (Hlor : forall b, 0 < b -> 0 < Z.lor s0 b).
    { intros b Hb. assert (0 <= Z.lor s0 b) by (apply Z.lor_nonneg; lia).
      assert (Z.lor s0 b <> 0) by (intros [_ ?]%Z.lor_eq_0_iff; lia). lia. }
    simpl in Hc. rewrite !elem_of_cons, elem_of_nil in Hc.
    repeat destruct Hc as [->|Hc]; try done; unfold select, uname_option; simpl fst; try (by apply Hlor); try done.
    simpl. destruct (Z.eqb_spec s0 UNAME_ALL) as [->|]; [done|by apply Hlor]. }
  intros Hcs Hne. revert set. induction cs as [|c cs IH]; intros set H0; [done|].
  apply Forall_cons in Hcs as [Hc Hcs]. simpl. specialize (Hs c set Hc H0).
  destruct cs as [|d cs]; [done|]. apply IH; [done|done|lia].
Qed.

(** The set the fields are printed from. *)
Definition final (cs : list ascii) : Z := if bool_decide (cs = []) then UNAME_KERNEL else foldl select 0 cs.

Lemma final_set cs :
  Forall (fun c => c ∈ chars optstring) cs ->
  (if foldl select 0 cs =? 0 then UNAME_KERNEL else foldl select 0 cs) = final cs.
Proof.
  intros Hcs. unfold final. destruct (decide (cs = [])) as [->|He]; [done|].
  pose proof (select_nonzero cs 0 Hcs He ltac:(lia)). rewrite bool_decide_eq_false_2 by done. by ztests.
Qed.

Lemma field_bit i letters cs :
  (i, letters) ∈ [(0, ["s"%char; "o"%char]); (1, ["n"%char]); (2, ["r"%char]); (3, ["v"%char]); (4, ["m"%char]); (5, ["i"%char])] ->
  Forall (fun c => c ∈ chars optstring) cs ->
  flag_set (final cs) (2 ^ i) = wants letters cs || ((i =? 0) && bool_decide (cs = [])).
Proof.
  intros Hi Hcs. assert (0 <= i) by (rewrite !elem_of_cons, elem_of_nil in Hi; naive_solver lia).
  rewrite flag_set_pow2 by done. unfold final. destruct (decide (cs = [])) as [->|He].
  - change UNAME_KERNEL with (2 ^ 0). simpl. rewrite andb_true_r, Z.eqb_sym. by apply (Z.pow2_bits_eqb 0).
  - rewrite !bool_decide_eq_false_2 by done. rewrite (select_bit i letters cs 0 Hi Hcs), Z.bits_0, andb_false_r. by rewrite orb_false_r.
Qed.

Lemma unknown_p cs :
  Forall (fun c => c ∈ chars optstring) cs -> flag_set (final cs) UNAME_UNKNOWN = true -> "p"%char ∈ cs.
Proof.
  intros Hcs. change UNAME_UNKNOWN with (2 ^ 6). rewrite flag_set_pow2 by done. unfold final.
  case_bool_decide; [done|]. intros Hb. destruct (decide ("p"%char ∈ cs)) as [|Hp]; [done|]. exfalso.
  assert (Hf : forall set, Z.testbit set 6 = false -> Z.testbit (foldl select set cs) 6 = false).
  { clear - Hcs Hp. induction cs as [|c cs IH]; intros set Hset; [done|]. apply Forall_cons in Hcs as [Hc Hcs]. simpl.
    apply not_elem_of_cons in Hp as [Hpc Hp]. apply IH; [done|done|].
    assert (Hlor : forall b, Z.testbit b 6 = false -> Z.testbit (Z.lor set b) 6 = false)
      by (intros b Hb'; by rewrite Z.lor_spec, Hset, Hb').
    simpl in Hc. rewrite !elem_of_cons, elem_of_nil in Hc.
    repeat destruct Hc as [->|Hc]; try done; unfold select, uname_option; simpl fst; try (by apply Hlor); done. }
  rewrite Hf in Hb by done. done.
Qed.

(** uname, given clusters of the options it knows, prints in a fixed order
    the fields whose letter or -a is among them, the system name when there
    are none, and "unknown" only for -p.  The loop over the options ends; the
    variable that holds the parser's state is not initialised, and must not
    hold the position 1 by chance. *)
Theorem uname_prints prog css fuel prev next :
  prev <> 1 -> Z.of_nat (length css) < 65535 ->
  Forall (fun cs => cs <> EmptyString /\ Z.of_nat (String.length cs) < 65535 /\ Forall (fun c => c ∈ chars optstring) (chars cs)) css ->
  (length (css ≫= chars) < fuel)%nat ->
  let cs := css ≫= chars in
  let field (b : bool) text := if b then [(text +:+ " ")%string] else [] in
  exists unknown,
    uname_cmd_handler fuel (prog :: (String minus <$> css)) prev next
    = Returns (Printed (field (wants ["s"%char; "o"%char] cs || bool_decide (cs = [])) (sysname uname)
        ++ field (wants ["n"%char] cs) (nodename uname) ++ field (wants ["r"%char] cs) (release uname)
        ++ field (wants ["v"%char] cs) (version uname) ++ field (wants ["m"%char] cs) (machine uname)
        ++ field (wants ["i"%char] cs) CONFIG_BOARD ++ field unknown "unknown"%string
        ++ [String (ascii_of_nat 10) EmptyString])) /\
    (unknown = true -> "p"%char ∈ cs).
Proof.
  intros Hp Hl Hcss Hfuel cs field.
  destruct (uname_options_spec prog css fuel prev next Hp Hl Hcss Hfuel) as (st & Hrun & Ho).
  assert (Hcs : Forall (fun c => c ∈ chars optstring) cs) by (apply Forall_bind; eapply Forall_impl; [exact Hcss|]; naive_solver).
  unfold uname_cmd_handler. rewrite Hrun, Ho, Z.eqb_refl. change (0 =? 0) with true. cbn [negb]. fold cs.
  rewrite final_set by done. unfold uname_texts.
  change UNAME_KERNEL with (2 ^ 0). change UNAME_NODE with (2 ^ 1). change UNAME_RELEASE with (2 ^ 2).
  change UNAME_VERSION with (2 ^ 3). change UNAME_MACHINE with (2 ^ 4). change UNAME_PLATFORM with (2 ^ 5).
  rewrite (field_bit 0 ["s"%char; "o"%char] cs), (field_bit 1 ["n"%char] cs), (field_bit 2 ["r"%char] cs),
    (field_bit 3 ["v"%char] cs), (field_bit 4 ["m"%char] cs), (field_bit 5 ["i"%char] cs) by (done || set_solver).
  eexists. split; [by rewrite !orb_false_r|]. intros Hu. by apply unknown_p.
Qed.

(** *** An unknown option *)

Lemma uname_options_never argv n : forall st evs st' set badarg,
  getopt_calls (getopt_r argv) n st = Some (evs, st') -> Forall (fun e => fst e = QUESTION) evs ->
  uname_options n argv st set badarg = NoFuel.
Proof.
  induction n as [|n IH]; intros st evs st' set badarg Hc Hq; [done|]. cbn [getopt_calls uname_options] in *.
  destruct (getopt_r argv st) as [[st1 r]|]; [|done].
  destruct (getopt_calls (getopt_r argv) n st1) as [[evs1 st2]|] eqn:Hc1; [|done]. injection Hc as <- <-.
  apply Forall_cons in Hq as [Hr Hq]. simpl in Hr. subst r. change (QUESTION =? -1) with false. cbv iota.
  destruct (uname_option _ _ _ _) as [set' badarg']. by eapply IH.
Qed.

(** The parser stays in front of an option it does not know, so the command
    never returns, however long it runs. *)
Lemma uname_hangs prog c suf fuel prev next :
  prev <> 1 -> known optstring c = false -> c <> minus -> c <> NUL ->
  uname_cmd_handler fuel [prog; String minus (String c suf)] prev next = NoFuel.
Proof.
  intros Hp Hk Hm Hn. unfold uname_cmd_handler. rewrite uname_options_fresh by done.
  destruct (getopt_stuck [prog; String minus (String c suf)] long_enabled optstring None false 1 c suf fuel
              (mk_getopt None 1 1 1 0 0 ∅)) as (evs & st' & Hc & _ & Hq);
    [lia|done|done|done|done|repeat split; simpl; auto|].
  rewrite <- getopt_r_enabled in Hc. by rewrite (uname_options_never _ _ _ _ _ _ _ Hc Hq).
Qed.
End Uname.

Definition demo_name : utsname :=
  {| sysname := "Zephyr"; nodename := "zephyr"; release := "4.3.0"; version := "v4.3.0"; machine := "arm" |}%string.

Lemma uname_prints_witness :
  exists unknown,
    uname_cmd_handler demo_name "qemu"%string 65 (Some "board"%string) true true 8
      ("uname"%string :: (String minus <$> ["rs"%string; "n"%string])) 0 0
    = Returns (Printed (["Zephyr "; "board "; "4.3.0 "]%string
               ++ (if unknown : bool then ["unknown "%string] else []) ++ [String (ascii_of_nat 10) EmptyString])) /\
    (unknown = true -> "p"%char ∈ ["r"%char; "s"%char; "n"%char]).
Proof.
  apply (uname_prints demo_name "qemu"%string 65 (Some "board"%string) true true eq_refl "uname"%string
           ["rs"%string; "n"%string] 8 0 0); [lia|simpl; lia| |simpl; lia].
  repeat constructor; try done; simpl; try lia; set_solver.
Defined.

(** When the variable holds the position 1 by chance, the options before the
    place it holds besides are passed over: -sn prints the node name only. *)
Lemma uname_uninitialised :
  uname_cmd_handler demo_name "qemu"%string 65 None true true 8 ["uname"; "-sn"]%string 1 2
  = Returns (Printed ["zephyr "; String (ascii_of_nat 10) EmptyString]%string).
Proof. vm_compute. reflexivity. Qed.
