(* ===== verification/SysConf.v ===== *)
(** * Configuration strings and the log mask
    (single_process/confstr.c, xsi_system_logging/syslog.c)

    [confstr] with the buffer it fills, as memory from the caller's pointer
    on; the log mask, and which messages [vsyslog] hands to the logging of
    the kernel. *)

From stdpp Require Import base list strings.
From Stdlib Require Import ZArith Lia Ascii.
From S2P Require Import Prelude CString Text.

Local Open Scope Z_scope.

(** ** confstr *)

Definition _CS_PATH : Z := 0.
Definition _CS_POSIX_V7_ILP32_OFF32_CFLAGS : Z := 1.
Definition _CS_POSIX_V7_ILP32_OFF32_LDFLAGS : Z := 2.
Definition _CS_POSIX_V7_ILP32_OFF32_LIBS : Z := 3.
Definition _CS_POSIX_V7_ILP32_OFFBIG_CFLAGS : Z := 4.
Definition _CS_POSIX_V7_ILP32_OFFBIG_LDFLAGS : Z := 5.
Definition _CS_POSIX_V7_ILP32_OFFBIG_LIBS : Z := 6.
Definition _CS_POSIX_V7_LP64_OFF64_CFLAGS : Z := 7.
Definition _CS_POSIX_V7_LP64_OFF64_LDFLAGS : Z := 8.
Definition _CS_POSIX_V7_LP64_OFF64_LIBS : Z := 9.
Definition _CS_POSIX_V7_LPBIG_OFFBIG_CFLAGS : Z := 10.
Definition _CS_POSIX_V7_LPBIG_OFFBIG_LDFLAGS : Z := 11.
Definition _CS_POSIX_V7_LPBIG_OFFBIG_LIBS : Z := 12.
Definition _CS_POSIX_V7_WIDTH_RESTRICTED_ENVS : Z := 13.
Definition _CS_POSIX_V7_THREADS_CFLAGS : Z := 14.
Definition _CS_POSIX_V7_THREADS_LDFLAGS : Z := 15.
Definition _CS_V7_ENV : Z := 16.

(** The three cases the strings are chosen by. *)
Inductive target := X86_64 | Lp64 | Other.

Definition Z_CS_PATH : string := "/bin:/usr/bin".
Definition Z_CS_ENV : string := "POSIXLY_CORRECT=1".
Definition Z_CS_LP64_OFF64_CFLAGS (t : target) : string :=
  match t with X86_64 => "-m64" | Lp64 | Other => EmptyString end.
Definition Z_CS_LP64_OFF64_LDFLAGS (t : target) : string :=
  match t with X86_64 => "-m64" | Lp64 | Other => EmptyString end.
Definition Z_CS_WIDTH_RESTRICTED (t : target) : string :=
  match t with X86_64 | Lp64 => "POSIX_V7_LP64_OFF64" | Other => EmptyString end.

(** [buf] is [None] for NULL. *)
Definition confstr_copy (val : string) (buf : option (list ascii)) (len : nat) : option (list ascii) * nat :=
  let n := (String.length val + 1)%nat in
  match buf with
  | Some mem =>
      match len with
      | O => (buf, n)
      | S _ =>
          let copy := Nat.min (n - 1) (len - 1) in
          (Some (<[copy := NUL]> (take copy (chars val) ++ drop copy mem)), n)
      end
  | None => (buf, n)
  end.

Definition confstr_value (t : target) (name : Z) : option string :=
  if name =? _CS_PATH then Some Z_CS_PATH
  else if bool_decide (name ∈ [_CS_POSIX_V7_ILP32_OFF32_CFLAGS; _CS_POSIX_V7_ILP32_OFF32_LDFLAGS;
            _CS_POSIX_V7_ILP32_OFF32_LIBS; _CS_POSIX_V7_ILP32_OFFBIG_CFLAGS; _CS_POSIX_V7_ILP32_OFFBIG_LDFLAGS;
            _CS_POSIX_V7_ILP32_OFFBIG_LIBS; _CS_POSIX_V7_LPBIG_OFFBIG_CFLAGS; _CS_POSIX_V7_LPBIG_OFFBIG_LDFLAGS;
            _CS_POSIX_V7_LPBIG_OFFBIG_LIBS; _CS_POSIX_V7_THREADS_CFLAGS; _CS_POSIX_V7_LP64_OFF64_LIBS;
            _CS_POSIX_V7_THREADS_LDFLAGS]) then Some EmptyString
  else if name =? _CS_POSIX_V7_LP64_OFF64_CFLAGS then Some (Z_CS_LP64_OFF64_CFLAGS t)
  else if name =? _CS_POSIX_V7_LP64_OFF64_LDFLAGS then Some (Z_CS_LP64_OFF64_LDFLAGS t)
  else if name =? _CS_POSIX_V7_WIDTH_RESTRICTED_ENVS then Some (Z_CS_WIDTH_RESTRICTED t)
  else if name =? _CS_V7_ENV then Some Z_CS_ENV
  else None.

(** The result, 0 with errno when it is an error, and the buffer. *)
Definition confstr (t : target) (name : Z) (buf : option (list ascii)) (len : nat)
    : res nat * option (list ascii) :=
  match confstr_value t name with
  | None => (Err EINVAL, buf)
  | Some val => let '(buf', n) := confstr_copy val buf len in (Ok n, buf')
  end.

Lemma confstr_value_known t name : is_Some (confstr_value t name) <-> 0 <= name <= 16.
Proof.
  split.
  - intros [v Hv]. unfold confstr_value in Hv. repeat case_match; try done;
      rewrite ?Z.eqb_eq, ?bool_decide_eq_true in *; try (subst; vm_compute; intuition congruence).
    rewrite !elem_of_cons, elem_of_nil in *.
    match goal with H : _ \/ _ |- _ => repeat destruct H as [->|H] end; try (vm_compute; intuition congruence).
  - intros Hn. assert (forall k, (k <= 16)%nat -> is_Some (confstr_value t (Z.of_nat k))) as H.
    { intros k Hk. do 17 (destruct k as [|k]; [by eexists|]). lia. }
    specialize (H (Z.to_nat name)). rewrite Z2Nat.id in H by lia. apply H. lia.
Qed.

Lemma confstr_value_no_nul t name v : confstr_value t name = Some v -> NUL ∉ chars v.
Proof.
  intros Hv. assert (Hn : forallb (fun c => negb (bool_decide (c = NUL))) (chars v) = true).
  { unfold confstr_value in Hv. repeat case_match; simplify_eq; try done; by destruct t. }
  rewrite forallb_forall in Hn. intros Hin%list_elem_of_In%Hn. by rewrite bool_decide_eq_true_2 in Hin.
Qed.

(** confstr returns the size of the string with its terminator whatever the
    buffer, and leaves in the buffer as much of it as fits, terminated; a
    string that was cut is told from the result, which is then above len. *)
Lemma confstr_spec t name v mem len :
  confstr_value t name = Some v -> (0 < len <= length mem)%nat ->
  exists mem', confstr t name (Some mem) len = (Ok (String.length v + 1)%nat, Some mem') /\
    str_at mem' 0 = take (len - 1) (chars v) /\ drop len mem' = drop len mem /\ length mem' = length mem.
Proof.
  intros Hv Hl. unfold confstr. rewrite Hv. unfold confstr_copy. destruct len as [|k]; [lia|].
  assert (Hlen : length (chars v) = String.length v) by (clear; induction v; simpl; congruence).
  replace (String.length v + 1 - 1)%nat with (length (chars v)) by lia. replace (S k - 1)%nat with k by lia.
  set (c := Nat.min (length (chars v)) k). eexists. split; [done|].
  assert (Htk : length (take c (chars v)) = c) by (rewrite length_take; lia).
  destruct (lookup_lt_is_Some_2 mem c ltac:(lia)) as [x Hx]. rewrite (drop_S mem x c Hx).
  rewrite insert_app_r_alt, Htk, Nat.sub_diag by lia. simpl insert. split; [|split].
  - replace (take k (chars v)) with (take c (chars v)).
    + apply (str_at_app []); [done|]. intros Hin. apply (confstr_value_no_nul t name v Hv).
      apply elem_of_take in Hin as (i & Hi & _). by eapply list_elem_of_lookup_2.
    + unfold c. destruct (Nat.le_gt_cases k (length (chars v))); [by rewrite Nat.min_r by lia|].
      rewrite Nat.min_l by lia. by rewrite !take_ge by lia.
  - rewrite drop_app_ge by lia. rewrite Htk. replace (S k - c)%nat with (S (k - c)) by lia. simpl.
    rewrite drop_drop. f_equal. lia.
  - rewrite length_app, Htk. simpl. rewrite length_drop. lia.
Qed.

(** ** The log mask *)

Definition LOG_EMERG : Z := 0.
Definition LOG_ALERT : Z := 1.
Definition LOG_CRIT : Z := 2.
Definition LOG_ERR : Z := 3.
Definition LOG_WARNING : Z := 4.
Definition LOG_NOTICE : Z := 5.
Definition LOG_INFO : Z := 6.
Definition LOG_DEBUG : Z := 7.

Definition LOG_MASK (mask : Z) : Z := Z.land mask (Z.ones (LOG_DEBUG + 1)).

Section Syslog.
(** The levels of the kernel's logging. *)
Variable LOG_LEVEL_ERR LOG_LEVEL_WRN LOG_LEVEL_INF LOG_LEVEL_DBG : Z.

Definition syslog_priority_to_zephyr_log_level (priority : Z) : option Z :=
  if bool_decide (priority ∈ [LOG_EMERG; LOG_ALERT; LOG_CRIT; LOG_ERR]) then Some LOG_LEVEL_ERR
  else if priority =? LOG_WARNING then Some LOG_LEVEL_WRN
  else if (priority =? LOG_NOTICE) || (priority =? LOG_INFO) then Some LOG_LEVEL_INF
  else if priority =? LOG_DEBUG then Some LOG_LEVEL_DBG
  else None.

(** The mask starts as a static variable does. *)
Definition syslog_mask_init : Z := 0.

(** The mask after the call, a uint8_t, and the one before it. *)
Definition setlogmask (syslog_mask maskpri : Z) : Z * Z := (uwrap 8 maskpri, syslog_mask).

(** The message that is handed on, with its level. *)
Definition vsyslog (syslog_mask priority : Z) (message : string) : option (Z * string) :=
  match syslog_priority_to_zephyr_log_level priority with
  | None => None
  | Some level => if Z.land (Z.shiftl 1 level) syslog_mask =? 0 then None else Some (level, message)
  end.

Definition syslog := vsyslog.

(** A message is handed on exactly when the bit of its level, not the bit of
    its priority, is in the mask. *)
Lemma vsyslog_spec mask priority level message :
  syslog_priority_to_zephyr_log_level priority = Some level -> 0 <= level ->
  vsyslog mask priority message = if Z.testbit mask level then Some (level, message) else None.
Proof.
  intros Hp Hl. unfold vsyslog. rewrite Hp. pose proof (flag_set_pow2 mask level Hl) as Hf. unfold flag_set in Hf.
  rewrite Z.shiftl_mul_pow2, Z.mul_1_l, Z.land_comm by done. destruct (Z.land mask (2 ^ level) =? 0); by rewrite <- Hf.
Qed.

Lemma setlogmask_returns mask a b : fst (setlogmask mask a) = uwrap 8 a /\ snd (setlogmask (fst (setlogmask mask a)) b) = uwrap 8 a.
Proof. done. Qed.

(** Until setlogmask is called nothing is logged. *)
Lemma syslog_starts_silent priority message : vsyslog syslog_mask_init priority message = None.
Proof.
  unfold vsyslog. destruct (syslog_priority_to_zephyr_log_level priority); [|done]. by rewrite Z.land_0_r.
Qed.
End Syslog.

(** With the levels 1 to 4 of the kernel, the mask of a priority does not let
    messages of that priority pass: LOG_MASK (LOG_DEBUG) stops them. *)
Lemma log_mask_debug message : vsyslog 1 2 3 4 (fst (setlogmask 0 (LOG_MASK LOG_DEBUG))) LOG_DEBUG message = None.
Proof. vm_compute. reflexivity. Qed.
