(* ===== verification/RecordLock.v ===== *)
(** * Record locks (zvfs_record_lock.c of the patch zvfs-fcntl-record-lock)

    The locks fcntl sets on ranges of a file: a table of slots, one per open
    file that has locks, each with an array of locks and a count.  The file's
    position and size are read through the kernel's fs_tell and fs_seek, which
    are parameters; off_t has [W] bits.  A call that waits is a request that
    is tried again after every sleep. *)

From stdpp Require Import base list sets.
From Stdlib Require Import ZArith Lia.
From S2P Require Import Prelude Fcntl.

Local Open Scope Z_scope.

Definition ZVFS_F_GETLK : Z := 5.
Definition ZVFS_F_SETLK : Z := 6.
Definition ZVFS_F_SETLKW : Z := 7.
Definition ZVFS_F_RDLCK : Z := 1.
Definition ZVFS_F_WRLCK : Z := 2.
Definition ZVFS_F_UNLCK : Z := 3.
Definition ZVFS_SEEK_SET : Z := 0.
Definition ZVFS_SEEK_CUR : Z := 1.
Definition ZVFS_SEEK_END : Z := 2.

Record lock_entry := mk_lock { lk_start : Z; lk_end : Z; lk_type : Z; lk_pid : Z }.

#[export] Instance lock_entry_eq_dec : EqDecision lock_entry.
Proof. solve_decision. Defined.

(** A slot; its mutex makes the calls on it single steps. *)
Record lock_state := mk_lstate { ls_obj : option Z; ls_count : nat; ls_locks : list lock_entry }.

(** The locks in use. *)
Definition held (st : lock_state) : list lock_entry := take (ls_count st) (ls_locks st).

(** ** Ranges and types *)

Definition record_lock_regions_overlap (a_start a_end b_start b_end : Z) : bool :=
  (a_start <? b_end) && (b_start <? a_end).

Definition record_lock_types_conflict (new_type existing_type : Z) : bool :=
  if (existing_type =? ZVFS_F_UNLCK) || (new_type =? ZVFS_F_UNLCK) then false
  else if (new_type =? ZVFS_F_RDLCK) && (existing_type =? ZVFS_F_RDLCK) then false
  else true.

(** ** The array of locks *)

(** The loop that closes the gaps: [n] entries to go from [read_idx]. *)
Fixpoint remove_loop (start end_ pid : Z) (n read_idx write_idx : nat) (locks : list lock_entry)
    : list lock_entry * nat :=
  match n with
  | O => (locks, write_idx)
  | S n' =>
      match locks !! read_idx with
      | None => (locks, write_idx)
      | Some lock =>
          if (lk_pid lock =? pid) && record_lock_regions_overlap (lk_start lock) (lk_end lock) start end_ then
            remove_loop start end_ pid n' (S read_idx) write_idx locks
          else
            remove_loop start end_ pid n' (S read_idx) (S write_idx)
              (if (write_idx =? read_idx)%nat then locks else <[write_idx := lock]> locks)
      end
  end.

Definition record_lock_remove_overlapping (st : lock_state) (start end_ pid : Z) : lock_state :=
  let '(locks, count) := remove_loop start end_ pid (ls_count st) 0 0 (ls_locks st) in
  mk_lstate (ls_obj st) count locks.

Fixpoint find_loop (start end_ type pid : Z) (locks : list lock_entry) : option lock_entry :=
  match locks with
  | [] => None
  | lock :: locks' =>
      if negb (record_lock_regions_overlap (lk_start lock) (lk_end lock) start end_) then find_loop start end_ type pid locks'
      else if lk_pid lock =? pid then find_loop start end_ type pid locks'
      else if record_lock_types_conflict type (lk_type lock) then Some lock
      else find_loop start end_ type pid locks'
  end.

Definition record_lock_find_conflict (st : lock_state) (start end_ type pid : Z) : option lock_entry :=
  find_loop start end_ type pid (held st).

Definition record_lock_add (st : lock_state) (start end_ type pid : Z) : lock_state * res unit :=
  if (length (ls_locks st) <=? ls_count st)%nat then (st, Err ENOLCK)
  else (mk_lstate (ls_obj st) (S (ls_count st)) (<[ls_count st := mk_lock start end_ type pid]> (ls_locks st)), Ok tt).

(** One round of the loop of record_lock_apply; [None] is a wait. *)
Definition apply_round (st : lock_state) (start end_ type pid : Z) (wait : bool) : lock_state * option (res unit) :=
  let st := record_lock_remove_overlapping st start end_ pid in
  match record_lock_find_conflict st start end_ type pid with
  | None => let '(st', r) := record_lock_add st start end_ type pid in (st', Some r)
  | Some _ => if wait then (st, None) else (st, Some (Err EAGAIN))
  end.

(** The process of the caller: getpid of multi_process.c, or 1. *)
Definition record_lock_pid (multi_process : bool) : Z := if multi_process then 42 else 1.

(** ** The range of a request *)

Section Range.
Context {F : Type} (fs_tell : F -> Z) (fs_seek : F -> Z -> Z -> F * Z).
Context (FS_SEEK_SET FS_SEEK_END : Z) (W : Z).

Definition ZVFS_RECORD_LOCK_RANGE_END : Z := swrap W 9223372036854775807.

(** [inr None] is a failure that leaves errno as it is. *)
Definition record_lock_file_size (f : F) : F * (Z + option errno) :=
  let cur := fs_tell f in
  if cur <? 0 then (f, inr None)
  else let '(f1, rc) := fs_seek f 0 FS_SEEK_END in
       if rc <? 0 then (f1, inr None)
       else let end_ := fs_tell f1 in
            if end_ <? 0 then (f1, inr None)
            else let '(f2, rc) := fs_seek f1 cur FS_SEEK_SET in
                 if rc <? 0 then (f2, inr None) else (f2, inl end_).

Definition range_base (f : F) (whence : Z) : F * (Z + option errno) :=
  if whence =? ZVFS_SEEK_SET then (f, inl 0)
  else if whence =? ZVFS_SEEK_CUR then (f, if fs_tell f <? 0 then inr None else inl (fs_tell f))
  else if whence =? ZVFS_SEEK_END then record_lock_file_size f
  else (f, inr (Some EINVAL)).

(** The start and the end of the range; off_t wraps around. *)
Definition record_lock_resolve_range (f : F) (fl : flock) : F * (Z * Z + option errno) :=
  match range_base f (l_whence fl) with
  | (f', inr e) => (f', inr e)
  | (f', inl base) =>
      (f', if l_start fl <? 0 then inr (Some EINVAL)
           else let start := swrap W (base + l_start fl) in
                if l_len fl <? 0 then inr (Some EINVAL)
                else if l_len fl =? 0 then inl (start, ZVFS_RECORD_LOCK_RANGE_END)
                else let end_ := swrap W (start + l_len fl) in
                     if end_ <? start then inr (Some EINVAL) else inl (start, end_))
  end.

(** ** Requests *)

(** What a call does: it returns, or it waits with a request. *)
Record request := mk_request { rq_start : Z; rq_end : Z; rq_type : Z; rq_pid : Z }.

Inductive lock_result :=
| LDone (r : res unit)
| LFail
| LWaits (rq : request).

Definition record_lock_apply (st : lock_state) (f : F) (fl : flock) (pid : Z) (wait : bool)
    : lock_state * F * lock_result :=
  match record_lock_resolve_range f fl with
  | (f', inr (Some e)) => (st, f', LDone (Err e))
  | (f', inr None) => (st, f', LFail)
  | (f', inl (start, end_)) =>
      if l_type fl =? ZVFS_F_UNLCK then (record_lock_remove_overlapping st start end_ pid, f', LDone (Ok tt))
      else if negb (l_type fl =? ZVFS_F_RDLCK) && negb (l_type fl =? ZVFS_F_WRLCK) then (st, f', LDone (Err EINVAL))
      else match apply_round st start end_ (l_type fl) pid wait with
           | (st', Some r) => (st', f', LDone r)
           | (st', None) => (st', f', LWaits (mk_request start end_ (l_type fl) pid))
           end
  end.

Definition record_lock_getlk (st : lock_state) (f : F) (fl : flock) (pid : Z) : F * flock * lock_result :=
  match record_lock_resolve_range f fl with
  | (f', inr (Some e)) => (f', fl, LDone (Err e))
  | (f', inr None) => (f', fl, LFail)
  | (f', inl (start, end_)) =>
      if l_type fl =? ZVFS_F_UNLCK then (f', fl, LDone (Err EINVAL))
      else if negb (l_type fl =? ZVFS_F_RDLCK) && negb (l_type fl =? ZVFS_F_WRLCK) then (f', fl, LDone (Err EINVAL))
      else match record_lock_find_conflict st start end_ (l_type fl) pid with
           | None => (f', mk_flock ZVFS_F_UNLCK (l_whence fl) (l_start fl) (l_len fl) 0, LDone (Ok tt))
           | Some c =>
               (f', mk_flock (lk_type c) ZVFS_SEEK_SET (lk_start c)
                      (if lk_end c =? ZVFS_RECORD_LOCK_RANGE_END then 0 else swrap W (lk_end c - lk_start c)) (lk_pid c),
                LDone (Ok tt))
           end
  end.

(** ** The table of slots *)

(** The search for the slot of an object: its index, or a slot that is free. *)
Fixpoint slot_loop (slots : list lock_state) (obj : Z) (i : nat) (free_slot : option nat) : nat + option nat :=
  match slots with
  | [] => inr free_slot
  | s :: slots' =>
      if bool_decide (ls_obj s = Some obj) then inl i
      else slot_loop slots' obj (S i)
             (if bool_decide (ls_obj s = None) && bool_decide (free_slot = None) then Some i else free_slot)
  end.

(** Taking the free slot.  The source searches and takes without a lock;
    [record_lock_state_get] is the call of one thread alone, and [claim_race]
    shows two. *)
Definition slot_claim (slots : list lock_state) (obj : Z) (i : nat) : list lock_state :=
  alter (fun s => mk_lstate (Some obj) 0 (ls_locks s)) i slots.

Definition record_lock_state_get (slots : list lock_state) (obj : Z) (create : bool) : list lock_state * option nat :=
  match slot_loop slots obj 0 None with
  | inl i => (slots, Some i)
  | inr free_slot =>
      if negb create then (slots, None)
      else match free_slot with
           | None => (slots, None)
           | Some i => (slot_claim slots obj i, Some i)
           end
  end.

Definition zvfs_record_lock_drop_obj (slots : list lock_state) (obj : Z) : list lock_state :=
  match snd (record_lock_state_get slots obj false) with
  | None => slots
  | Some i => alter (fun s => mk_lstate None 0 (ls_locks s)) i slots
  end.

(** The file descriptor entry: whether it is a regular file, its object and
    whether that is a directory. *)
Record fd_entry := { fe_regular : bool; fe_obj : option Z; fe_is_dir : bool }.

(** Returns the slot too, for a call that waits. *)
Definition zvfs_record_lock_fcntl (slots : list lock_state) (f : F) (entry : option fd_entry) (cmd : Z)
    (fl : option flock) (pid : Z) : list lock_state * F * option flock * option nat * lock_result :=
  match entry, fl with
  | Some entry, Some l =>
      if negb (fe_regular entry) then (slots, f, fl, None, LDone (Err EOPNOTSUPP))
      else match fe_obj entry with
           | None => (slots, f, fl, None, LDone (Err EBADF))
           | Some obj =>
               if fe_is_dir entry then (slots, f, fl, None, LDone (Err EBADF))
               else let '(slots, idx) := record_lock_state_get slots obj true in
                    match idx with
                    | None => (slots, f, fl, None, LDone (Err ENOLCK))
                    | Some i =>
                        match slots !! i with
                        | None => (slots, f, fl, None, LDone (Err ENOLCK))
                        | Some st =>
                            if cmd =? ZVFS_F_GETLK then
                              let '(f', l', r) := record_lock_getlk st f l pid in (slots, f', Some l', Some i, r)
                            else if (cmd =? ZVFS_F_SETLK) || (cmd =? ZVFS_F_SETLKW) then
                              let '(st', f', r) := record_lock_apply st f l pid (cmd =? ZVFS_F_SETLKW) in
                              (<[i := st']> slots, f', fl, Some i, r)
                            else (slots, f, fl, Some i, LDone (Err EINVAL))
                        end
                    end
           end
  | _, _ => (slots, f, fl, None, LDone (Err EINVAL))
  end.

(** A waiting call after its sleep. *)
Definition retry (slots : list lock_state) (i : nat) (rq : request) : list lock_state * option (res unit) :=
  match slots !! i with
  | None => (slots, None)
  | Some st =>
      let '(st', r) := apply_round st (rq_start rq) (rq_end rq) (rq_type rq) (rq_pid rq) true in
      (<[i := st']> slots, r)
  end.

(** ** The locks as a system of calls *)

(** The table between two calls, and the waiting calls with their slots.  A
    call runs alone up to its end or to its wait, and a closing runs alone:
    the source holds the mutex of the slot for the array of locks, and no lock
    for the search of the slot. *)
Record lock_system := { sys_slots : list lock_state; sys_waiting : list (nat * request) }.

Inductive lock_step : lock_system -> lock_system -> Prop :=
| step_call slots ws f entry cmd fl pid slots' f' fl' idx r :
    zvfs_record_lock_fcntl slots f entry cmd fl pid = (slots', f', fl', idx, r) ->
    lock_step {| sys_slots := slots; sys_waiting := ws |}
      {| sys_slots := slots';
         sys_waiting := match r, idx with LWaits rq, Some i => ws ++ [(i, rq)] | _, _ => ws end |}
| step_retry slots ws k i rq slots' r :
    ws !! k = Some (i, rq) -> retry slots i rq = (slots', r) ->
    lock_step {| sys_slots := slots; sys_waiting := ws |}
      {| sys_slots := slots'; sys_waiting := match r with None => ws | Some _ => delete k ws end |}
| step_drop slots ws obj :
    lock_step {| sys_slots := slots; sys_waiting := ws |}
      {| sys_slots := zvfs_record_lock_drop_obj slots obj; sys_waiting := ws |}.
End Range.

(** The table at start: no slot is in use. *)
Definition slots_init (nslots nlocks : nat) : list lock_state :=
  replicate nslots (mk_lstate None 0 (replicate nlocks (mk_lock 0 0 0 0))).
Definition system_init (nslots nlocks : nat) : lock_system :=
  {| sys_slots := slots_init nslots nlocks; sys_waiting := [] |}.

(** ** Removing and adding *)

(** An own lock that meets the range. *)
Definition own_overlap (start end_ pid : Z) (l : lock_entry) : bool :=
  (lk_pid l =? pid) && record_lock_regions_overlap (lk_start l) (lk_end l) start end_.

Lemma remove_loop_spec start end_ pid n : forall r w locks,
  (w <= r)%nat -> (r + n <= length locks)%nat ->
  let '(locks', c) := remove_loop start end_ pid n r w locks in
  length locks' = length locks /\ (c <= r + n)%nat /\
  take c locks' = take w locks ++ filter (fun l => own_overlap start end_ pid l = false) (take n (drop r locks)).
Proof.
  induction n as [|n IH]; intros r w locks Hw Hn; cbn [remove_loop].
  - rewrite take_0, filter_nil, app_nil_r. split_and!; [done|lia|done].
  - destruct (lookup_lt_is_Some_2 locks r) as [l Hl]; [lia|]. rewrite Hl.
    rewrite (drop_S _ _ _ Hl). cbn [take]. fold (own_overlap start end_ pid l).
    destruct (own_overlap start end_ pid l) eqn:Ho.
    + rewrite filter_cons_False by (by rewrite Ho). specialize (IH (S r) w locks).
      destruct (remove_loop _ _ _ _ _ _ _). destruct IH as (?&?&?); lia || (split_and!; [done|lia|done]).
    + rewrite filter_cons_True by done.
      set (locks1 := if (w =? r)%nat then locks else <[w:=l]> locks).
      assert (Hlen : length locks1 = length locks) by (unfold locks1; case_match; by rewrite ?length_insert).
      assert (Hd : drop (S r) locks1 = drop (S r) locks).
      { unfold locks1. case_match; [done|]. rewrite drop_insert_lt by lia. done. }
      assert (Ht : take (S w) locks1 = take w locks ++ [l]).
      { unfold locks1. destruct (Nat.eqb_spec w r) as [->|]; [by apply take_S_r|].
        rewrite (take_S_r _ _ l) by (apply list_lookup_insert_eq; lia).
        by rewrite take_insert_ge. }
      specialize (IH (S r) (S w) locks1). destruct (remove_loop _ _ _ _ _ _ _).
      destruct IH as (?&?&HT); [lia..|]. split_and!; [congruence|lia|].
      rewrite HT, Ht, Hd, <- app_assoc. done.
Qed.

(** Closing the gaps keeps, in order, the locks that are of other processes
    or do not meet the range. *)
Lemma remove_overlapping_held st start end_ pid :
  (ls_count st <= length (ls_locks st))%nat ->
  let st' := record_lock_remove_overlapping st start end_ pid in
  held st' = filter (fun l => own_overlap start end_ pid l = false) (held st) /\
  ls_obj st' = ls_obj st /\ length (ls_locks st') = length (ls_locks st) /\ (ls_count st' <= ls_count st)%nat.
Proof.
  intros Hc. unfold record_lock_remove_overlapping.
  pose proof (remove_loop_spec start end_ pid (ls_count st) 0 0 (ls_locks st)) as H.
  destruct (remove_loop _ _ _ _ _ _ _) as [locks c]. destruct H as (?&?&Ht); [lia..|].
  unfold held. cbn. rewrite Ht. done.
Qed.

Lemma add_held st start end_ type pid st' r :
  record_lock_add st start end_ type pid = (st', r) ->
  (st' = st /\ r = Err ENOLCK /\ (length (ls_locks st) <= ls_count st)%nat) \/
  (held st' = held st ++ [mk_lock start end_ type pid] /\ r = Ok tt /\ ls_obj st' = ls_obj st /\
   length (ls_locks st') = length (ls_locks st) /\ ls_count st' = S (ls_count st) /\
   (ls_count st < length (ls_locks st))%nat).
Proof.
  unfold record_lock_add. destruct (Nat.leb_spec (length (ls_locks st)) (ls_count st)); intros [= <- <-]; [by left|].
  right. unfold held. cbn [ls_count ls_locks ls_obj]. rewrite length_insert. split_and!; try done.
  rewrite (take_S_r _ _ (mk_lock start end_ type pid)) by (by apply list_lookup_insert_eq).
  by rewrite take_insert_ge.
Qed.

(** ** Conflicts *)

Lemma find_loop_None start end_ type pid ls :
  find_loop start end_ type pid ls = None <->
  Forall (fun l => record_lock_regions_overlap (lk_start l) (lk_end l) start end_ = true -> lk_pid l <> pid ->
                   record_lock_types_conflict type (lk_type l) = false) ls.
Proof.
  induction ls as [|l ls IH]; [done|]. cbn [find_loop]. rewrite Forall_cons, <- IH.
  destruct (record_lock_regions_overlap _ _ _ _); cbn [negb]; [|naive_solver].
  destruct (Z.eqb_spec (lk_pid l) pid); [naive_solver|].
  destruct (record_lock_types_conflict _ _); naive_solver.
Qed.

Lemma find_loop_Some start end_ type pid ls c :
  find_loop start end_ type pid ls = Some c ->
  c ∈ ls /\ record_lock_regions_overlap (lk_start c) (lk_end c) start end_ = true /\ lk_pid c <> pid /\
  record_lock_types_conflict type (lk_type c) = true.
Proof.
  induction ls as [|l ls IH]; [done|]. cbn [find_loop]. rewrite elem_of_cons.
  destruct (record_lock_regions_overlap (lk_start l) (lk_end l) start end_) eqn:Ho; cbn [negb];
    [|intros H; destruct (IH H); auto].
  destruct (Z.eqb_spec (lk_pid l) pid); [intros H; destruct (IH H); auto|].
  destruct (record_lock_types_conflict type (lk_type l)) eqn:?; [|intros H; destruct (IH H); auto].
  intros [= <-]. auto.
Qed.

(** ** The invariant of a slot *)

Definition lock_compatible (a b : lock_entry) : Prop :=
  record_lock_regions_overlap (lk_start a) (lk_end a) (lk_start b) (lk_end b) = true ->
  lk_pid a <> lk_pid b /\ lk_type a = ZVFS_F_RDLCK /\ lk_type b = ZVFS_F_RDLCK.

Definition lock_type_ok (t : Z) : Prop := t = ZVFS_F_RDLCK \/ t = ZVFS_F_WRLCK.

Record slot_ok (st : lock_state) : Prop := {
  slot_count : (ls_count st <= length (ls_locks st))%nat;
  slot_types : Forall (fun l => lock_type_ok (lk_type l)) (held st);
  slot_pairs : ForallOrdPairs lock_compatible (held st);
}.

#[local] Instance lock_compatible_sym : Symmetric lock_compatible.
Proof.
  unfold lock_compatible, record_lock_regions_overlap. intros a b H Ho.
  apply andb_true_iff in Ho as [H1 H2]. rewrite H1, H2 in H. destruct (H eq_refl) as (? & ? & ?). auto.
Qed.

Lemma Forall_filter {A} (Q P : A -> Prop) `{forall x, Decision (P x)} l : Forall Q l -> Forall Q (filter P l).
Proof. rewrite !Forall_forall. intros HQ x Hx. apply list_elem_of_filter in Hx as [_ Hx]. auto. Qed.

Lemma FOP_filter {A} (R : A -> A -> Prop) (P : A -> Prop) `{forall x, Decision (P x)} l :
  ForallOrdPairs R l -> ForallOrdPairs R (filter P l).
Proof.
  induction 1 as [|a l Ha Hl IH]; [constructor|]. rewrite filter_cons. case_decide; [|done].
  constructor; [|done]. by apply Forall_filter.
Qed.

Lemma FOP_snoc {A} (R : A -> A -> Prop) l x :
  ForallOrdPairs R l -> Forall (fun a => R a x) l -> ForallOrdPairs R (l ++ [x]).
Proof.
  induction 1 as [|a l Ha Hl IH]; cbn; intros HF; [repeat constructor|].
  apply Forall_cons in HF as [? ?]. constructor; [|auto].
  apply Forall_app. auto.
Qed.

Lemma held_count0 o locks : held (mk_lstate o 0 locks) = [].
Proof. done. Qed.

Lemma slot_ok_empty o locks : slot_ok (mk_lstate o 0 locks).
Proof. split; rewrite ?held_count0; [cbn; lia|constructor..]. Qed.

Lemma slot_ok_remove st start end_ pid :
  slot_ok st -> slot_ok (record_lock_remove_overlapping st start end_ pid).
Proof.
  intros [Hc Ht Hp]. pose proof (remove_overlapping_held st start end_ pid Hc) as (Hh & _ & Hl & ?).
  split; [rewrite Hl; lia| |]; rewrite Hh; [by apply Forall_filter|by apply FOP_filter].
Qed.

(** After removing and finding no conflict, the new lock fits. *)
Lemma no_conflict_compatible st start end_ type pid :
  slot_ok st -> lock_type_ok type ->
  let st' := record_lock_remove_overlapping st start end_ pid in
  record_lock_find_conflict st' start end_ type pid = None ->
  Forall (fun a => lock_compatible a (mk_lock start end_ type pid)) (held st').
Proof.
  intros [Hc Ht Hp] Hty. cbn zeta. unfold record_lock_find_conflict.
  pose proof (remove_overlapping_held st start end_ pid Hc) as (Hh & _). rewrite Hh, find_loop_None.
  rewrite !Forall_forall. intros Hn a Ha Ho. cbn [lk_start lk_end lk_pid lk_type] in *.
  specialize (Hn a Ha Ho). apply list_elem_of_filter in Ha as [Hown Ha].
  unfold own_overlap in Hown. rewrite Ho, andb_true_r in Hown. apply Z.eqb_neq in Hown.
  specialize (Hn Hown). rewrite Forall_forall in Ht. specialize (Ht a Ha).
  split; [done|]. unfold record_lock_types_conflict in Hn.
  destruct Hty as [-> | ->], Ht as [Ht|Ht]; cbv beta in Ht; rewrite Ht in *; done.
Qed.

Lemma apply_round_ok st start end_ type pid wait st' r :
  slot_ok st -> lock_type_ok type -> apply_round st start end_ type pid wait = (st', r) -> slot_ok st'.
Proof.
  intros Hs Hty. unfold apply_round. pose proof (no_conflict_compatible st start end_ type pid Hs Hty) as Hn.
  pose proof (slot_ok_remove st start end_ pid Hs) as Hs1. cbn zeta in Hn.
  destruct (record_lock_find_conflict _ _ _ _ _) as [c|] eqn:Hf; [destruct wait; by intros [= <- <-]|].
  destruct (record_lock_add _ _ _ _ _) as [st2 r2] eqn:Ha. intros [= <- <-].
  apply add_held in Ha as [(-> & _)|(Hh & _ & _ & Hl & Hc & ?)]; [done|].
  destruct Hs1 as [? Ht Hp]. split; [lia| |]; rewrite Hh.
  - apply Forall_app. split; [done|]. by apply Forall_singleton.
  - apply FOP_snoc; auto.
Qed.

(** ** The table *)

Section Table.
Context {F : Type} (fs_tell : F -> Z) (fs_seek : F -> Z -> Z -> F * Z).
Context (FS_SEEK_SET FS_SEEK_END : Z) (W : Z).

Abbreviation resolve := (record_lock_resolve_range fs_tell fs_seek FS_SEEK_SET FS_SEEK_END W).
Abbreviation apply_ := (record_lock_apply fs_tell fs_seek FS_SEEK_SET FS_SEEK_END W).
Abbreviation getlk := (record_lock_getlk fs_tell fs_seek FS_SEEK_SET FS_SEEK_END W).
Abbreviation fcntl_ := (zvfs_record_lock_fcntl fs_tell fs_seek FS_SEEK_SET FS_SEEK_END W).
Abbreviation step := (lock_step fs_tell fs_seek FS_SEEK_SET FS_SEEK_END W).

Lemma types_ok_tests t :
  negb (t =? ZVFS_F_RDLCK) && negb (t =? ZVFS_F_WRLCK) = false -> lock_type_ok t.
Proof.
  unfold lock_type_ok. destruct (Z.eqb_spec t ZVFS_F_RDLCK), (Z.eqb_spec t ZVFS_F_WRLCK); cbn; auto; done.
Qed.

Lemma apply_ok st f fl pid wait st' f' r :
  slot_ok st -> apply_ st f fl pid wait = (st', f', r) ->
  slot_ok st' /\ forall rq, r = LWaits rq -> lock_type_ok (rq_type rq).
Proof.
  intros Hs. unfold record_lock_apply. destruct (resolve f fl) as [f1 [[start end_]|[e|]]];
    [|intros [= <- <- <-]; done..].
  destruct (_ =? _); [intros [= <- <- <-]; split; [by apply slot_ok_remove|done]|].
  destruct (negb _ && _) eqn:Ht; [intros [= <- <- <-]; done|]. apply types_ok_tests in Ht.
  destruct (apply_round _ _ _ _ _ _) as [st1 [r1|]] eqn:Ha; intros [= <- <- <-];
    (split; [by eapply apply_round_ok|]); [done|by intros rq [= <-]].
Qed.

(** The slots are in order and no two are of the same object. *)
Record slots_ok (slots : list lock_state) : Prop := {
  so_slots : Forall slot_ok slots;
  so_objs : forall i j a b o, slots !! i = Some a -> slots !! j = Some b ->
              ls_obj a = Some o -> ls_obj b = Some o -> i = j;
}.

Lemma slot_loop_spec obj : forall slots i free,
  match slot_loop slots obj i free with
  | inl k => exists j s, k = (i + j)%nat /\ slots !! j = Some s /\ ls_obj s = Some obj
  | inr r => Forall (fun s => ls_obj s <> Some obj) slots /\
             match r with
             | None => free = None /\ Forall (fun s => ls_obj s <> None) slots
             | Some k => free = Some k \/ exists j s, k = (i + j)%nat /\ slots !! j = Some s /\ ls_obj s = None
             end
  end.
Proof.
  induction slots as [|s slots IH]; intros i free; cbn [slot_loop].
  - split; [constructor|]. destruct free; [by left|]. by split; [|constructor].
  - case_bool_decide; [exists 0%nat, s; split_and!; [lia|done|done]|].
    match goal with |- context [slot_loop slots obj (S i) ?fr] => set (free' := fr) end. specialize (IH (S i) free').
    destruct (slot_loop _ _ _ _) as [k|[k|]].
    + destruct IH as (j & x & -> & ? & ?). exists (S j), x. split_and!; [lia|done|done].
    + destruct IH as [? [Hf|(j & x & -> & ? & ?)]]; (split; [by constructor|]).
      * unfold free' in Hf. do 2 case_bool_decide; cbn in Hf; try (by left).
        right. injection Hf as <-. exists 0%nat, s. split_and!; [lia|done|done].
      * right. exists (S j), x. split_and!; [lia|done|done].
    + destruct IH as [? [Hf ?]]. split; [by constructor|]. unfold free' in Hf.
      do 2 case_bool_decide; cbn in Hf; try done; subst; (split; [done|by constructor]).
Qed.

Lemma alter_slots_ok slots i s o :
  slots_ok slots -> slots !! i = Some s ->
  (forall o', o = Some o' -> Forall (fun s : lock_state => ls_obj s <> Some o') slots) ->
  slots_ok (alter (fun s : lock_state => mk_lstate o 0 (ls_locks s)) i slots).
Proof.
  intros [Hs Ho] Hi Hfresh. split.
  - apply Forall_alter; [done|]. intros x Hx _. apply slot_ok_empty.
  - assert (Hnew : forall j a b o', i <> j -> alter (fun s : lock_state => mk_lstate o 0 (ls_locks s)) i slots !! i = Some a ->
                     slots !! j = Some b -> ls_obj a = Some o' -> ls_obj b = Some o' -> False).
    { intros j a b o' Hij Ha Hb H1 H2. rewrite list_lookup_alter_eq, Hi in Ha. cbn in Ha. injection Ha as <-.
      cbn in H1. subst o. specialize (Hfresh _ eq_refl). rewrite Forall_lookup in Hfresh. by eapply Hfresh. }
    intros j k a b o' Ha Hb H1 H2. destruct (decide (j = i)) as [->|], (decide (k = i)) as [->|]; [done|..].
    + rewrite list_lookup_alter_ne in Hb by done. by destruct (Hnew k a b o').
    + rewrite list_lookup_alter_ne in Ha by done. by destruct (Hnew j b a o').
    + rewrite list_lookup_alter_ne in Ha, Hb by done. eauto.
Qed.

Lemma state_get_ok slots obj create slots' idx :
  slots_ok slots -> record_lock_state_get slots obj create = (slots', idx) ->
  slots_ok slots' /\ match idx with
                     | Some i => exists s, slots' !! i = Some s /\ ls_obj s = Some obj
                     | None => slots' = slots /\ Forall (fun s => ls_obj s <> Some obj) slots /\
                               (create = true -> Forall (fun s => ls_obj s <> None) slots)
                     end.
Proof.
  intros Hs. unfold record_lock_state_get. pose proof (slot_loop_spec obj slots 0 None) as H.
  destruct (slot_loop _ _ _ _) as [k|fr].
  - intros [= <- <-]. split; [done|]. destruct H as (j & s & -> & ?). eauto.
  - destruct H as [Hf H]. destruct create; cbn [negb]; [|intros [= <- <-]; split_and!; done].
    destruct fr as [k|]; intros [= <- <-].
    + destruct H as [|(j & s & -> & Hj & ?)]; [done|]. cbn. split.
      * eapply alter_slots_ok; [done..|]. by intros o' [= <-].
      * eexists. split; [rewrite list_lookup_alter_eq; by rewrite Hj|done].
    + destruct H. split_and!; done.
Qed.

Lemma insert_slots_ok slots i s s' :
  slots_ok slots -> slots !! i = Some s -> slot_ok s' -> ls_obj s' = ls_obj s -> slots_ok (<[i := s']> slots).
Proof.
  intros [Hs Ho] Hi Hs' Hobj. split; [by apply Forall_insert|].
  assert (Hsame : forall j a, <[i := s']> slots !! j = Some a ->
                    exists a', slots !! j = Some a' /\ ls_obj a' = ls_obj a).
  { intros j a Ha. apply list_lookup_insert_Some in Ha as [(-> & <- & ?)|[_ Ha]]; eauto. }
  intros j k a b o Ha Hb H1 H2. destruct (Hsame _ _ Ha) as (a' & ? & ?), (Hsame _ _ Hb) as (b' & ? & ?).
  eapply (Ho j k a' b' o); congruence.
Qed.

Lemma remove_obj st start end_ pid : ls_obj (record_lock_remove_overlapping st start end_ pid) = ls_obj st.
Proof. unfold record_lock_remove_overlapping. by destruct (remove_loop _ _ _ _ _ _ _). Qed.

Lemma apply_round_obj st start end_ type pid wait st' r :
  apply_round st start end_ type pid wait = (st', r) -> ls_obj st' = ls_obj st.
Proof.
  unfold apply_round. pose proof (remove_obj st start end_ pid) as Ho.
  destruct (record_lock_find_conflict _ _ _ _ _); [destruct wait; intros [= <- <-]; done|].
  destruct (record_lock_add _ _ _ _ _) eqn:Ha. apply add_held in Ha. intros [= <- <-].
  destruct Ha as [(-> & _)|(_ & _ & H & _)]; congruence.
Qed.

Lemma apply_obj st f fl pid wait st' f' r :
  apply_ st f fl pid wait = (st', f', r) -> ls_obj st' = ls_obj st.
Proof.
  unfold record_lock_apply. destruct (resolve f fl) as [f1 [[start end_]|[e|]]]; [|intros [= <- <- <-]; done..].
  destruct (_ =? _); [intros [= <- <- <-]; apply remove_obj|].
  destruct (negb _ && _); [intros [= <- <- <-]; done|].
  destruct (apply_round _ _ _ _ _ _) as [st1 [r1|]] eqn:Ha; intros [= <- <- <-]; by apply apply_round_obj in Ha.
Qed.

Lemma fcntl_ok slots f entry cmd fl pid slots' f' fl' idx r :
  slots_ok slots -> fcntl_ slots f entry cmd fl pid = (slots', f', fl', idx, r) ->
  slots_ok slots' /\ forall rq, r = LWaits rq -> lock_type_ok (rq_type rq).
Proof.
  intros Hs. unfold zvfs_record_lock_fcntl. destruct entry as [entry|], fl as [l|];
    [|intros [= <- <- <- <- <-]; done..].
  destruct (negb _); [intros [= <- <- <- <- <-]; done|]. destruct (fe_obj entry) as [obj|];
    [|intros [= <- <- <- <- <-]; done]. destruct (fe_is_dir entry); [intros [= <- <- <- <- <-]; done|].
  destruct (record_lock_state_get slots obj true) as [slots1 idx1] eqn:Hg.
  apply state_get_ok in Hg as [Hs1 Hi]; [|done]. destruct idx1 as [i|]; [|intros [= <- <- <- <- <-]; done].
  destruct Hi as (st & Hi & _). rewrite Hi.
  destruct (cmd =? ZVFS_F_GETLK).
  { unfold record_lock_getlk. destruct (resolve f l) as [? [[]|[]]]; repeat case_match; intros; simplify_eq; done. }
  destruct (_ || _); [|intros [= <- <- <- <- <-]; done].
  destruct (record_lock_apply _ _ _ _ _ _ _ _ _ _) as [[st' f1] r1] eqn:Ha. intros [= <- <- <- <- <-].
  pose proof (apply_obj _ _ _ _ _ _ _ _ Ha). apply apply_ok in Ha as [Hst Hr].
  - split; [|done]. by eapply insert_slots_ok.
  - eapply Forall_lookup_1; [apply Hs1|done].
Qed.

Lemma retry_ok slots i rq slots' r :
  slots_ok slots -> lock_type_ok (rq_type rq) -> retry slots i rq = (slots', r) -> slots_ok slots'.
Proof.
  intros Hs Ht. unfold retry. destruct (slots !! i) as [st|] eqn:Hi; [|by intros [= <- <-]].
  destruct (apply_round _ _ _ _ _ _) as [st' r'] eqn:Ha. intros [= <- <-].
  eapply insert_slots_ok; [done..| |by eapply apply_round_obj].
  eapply apply_round_ok; [eapply Forall_lookup_1; [apply Hs|done]|done..].
Qed.

Lemma drop_ok slots obj : slots_ok slots -> slots_ok (zvfs_record_lock_drop_obj slots obj).
Proof.
  intros Hs. unfold zvfs_record_lock_drop_obj.
  destruct (record_lock_state_get slots obj false) as [slots' [i|]] eqn:Hg; [|done]. cbn [snd].
  assert (slots' = slots) as ->.
  { unfold record_lock_state_get in Hg. cbn in Hg. by destruct (slot_loop _ _ _ _); simplify_eq. }
  apply state_get_ok in Hg as [_ (s & Hi & _)]; [|done]. by eapply alter_slots_ok.
Qed.

Definition system_ok (s : lock_system) : Prop :=
  slots_ok (sys_slots s) /\ Forall (fun w => lock_type_ok (rq_type (snd w))) (sys_waiting s).

Lemma step_ok s s' : step s s' -> system_ok s -> system_ok s'.
Proof.
  intros Hst [Hs Hw]. destruct Hst as [? ? ? ? ? ? ? ? ? ? idx r Hf|? ? k ? ? ? r Hk Hr|]; cbn in *.
  - apply fcntl_ok in Hf as [? Hr]; [|done]. split; cbn; [done|].
    destruct r as [| |rq], idx; try done. apply Forall_app. split; [done|]. apply Forall_singleton. cbn. auto.
  - assert (Ht := Forall_lookup_1 _ _ _ _ Hw Hk). cbn in Ht. split; cbn; [by eapply retry_ok|].
    destruct r; [by apply Forall_delete|done].
  - split; cbn; [by apply drop_ok|done].
Qed.

Lemma init_ok n m : system_ok (system_init n m).
Proof.
  split; [|constructor]. cbn. unfold slots_init. split.
  - apply Forall_replicate. apply slot_ok_empty.
  - intros i j a b o Ha Hb. apply lookup_replicate in Ha as [-> _]. done.
Qed.
End Table.

(** ** What the locks exclude *)

(** A lock holds a byte of the file. *)
Definition covers (l : lock_entry) (b : Z) : bool := (lk_start l <=? b) && (b <? lk_end l).

Lemma covers_overlap a c b :
  covers a b = true -> covers c b = true ->
  record_lock_regions_overlap (lk_start a) (lk_end a) (lk_start c) (lk_end c) = true.
Proof. unfold covers, record_lock_regions_overlap. rewrite !andb_true_iff, !Z.leb_le, !Z.ltb_lt. lia. Qed.

Lemma FOP_lookup {A} (R : A -> A -> Prop) `{!Symmetric R} l : ForallOrdPairs R l ->
  forall i j a b, l !! i = Some a -> l !! j = Some b -> i <> j -> R a b.
Proof.
  induction 1 as [|x l Hx Hl IH]; intros [|i] [|j] a b Ha Hb Hij; try done; cbn in *; simplify_eq.
  - by eapply Forall_lookup_1 in Hx.
  - symmetry. by eapply Forall_lookup_1 in Hx.
  - eapply IH; [done..|congruence].
Qed.

(** C13: For calls of fcntl, closings and retries of waiting calls that
    execute one at a time, in any order, by whatever processes, from an empty
    table: two locks of an open file that hold the same byte are read locks of
    different processes, no array of locks is overrun and no file has two
    slots.  The source looks for a slot, takes it and gives it back without a
    lock: claim_race shows two calls at the same time that are both granted a
    write lock of the same bytes. *)
Theorem record_locks_exclude {F} (fs_tell : F -> Z) fs_seek FS_SEEK_SET FS_SEEK_END W nslots nlocks s :
  star (lock_step fs_tell fs_seek FS_SEEK_SET FS_SEEK_END W) (system_init nslots nlocks) s ->
  (forall i st j k a b byte, sys_slots s !! i = Some st -> held st !! j = Some a -> held st !! k = Some b ->
     j <> k -> covers a byte = true -> covers b byte = true ->
     lk_pid a <> lk_pid b /\ lk_type a = ZVFS_F_RDLCK /\ lk_type b = ZVFS_F_RDLCK) /\
  (forall i st, sys_slots s !! i = Some st -> (ls_count st <= length (ls_locks st))%nat) /\
  (forall i j a b o, sys_slots s !! i = Some a -> sys_slots s !! j = Some b ->
     ls_obj a = Some o -> ls_obj b = Some o -> i = j).
Proof.
  intros Hstar. assert (system_ok s) as [[Hs Ho] _].
  { eapply (star_invariant _ system_ok); [intros; by eapply step_ok|done|apply init_ok]. }
  split_and!; [|intros i st Hi; by apply (Forall_lookup_1 _ _ _ _ Hs Hi)|done].
  intros i st j k a b byte Hi Ha Hb Hjk Ca Cb.
  pose proof (slot_pairs _ (Forall_lookup_1 _ _ _ _ Hs Hi)) as Hp.
  apply (FOP_lookup _ _ Hp j k a b); [done..|]. by eapply covers_overlap.
Qed.

(** Two processes read-lock overlapping ranges of a file. *)
Definition wit_tell (f : Z) : Z := f.
Definition wit_seek (f off whence : Z) : Z * Z := (if whence =? 2 then 100 + off else off, 0).
Definition wit_entry : option fd_entry := Some {| fe_regular := true; fe_obj := Some 7; fe_is_dir := false |}.
Definition wit_fl (type start len : Z) : option flock := Some (mk_flock type ZVFS_SEEK_SET start len 0).

Definition wit_system : lock_system :=
  {| sys_slots := [mk_lstate (Some 7) 2 [mk_lock 0 10 ZVFS_F_RDLCK 1; mk_lock 5 15 ZVFS_F_RDLCK 2]; mk_lstate None 0 (replicate 2 (mk_lock 0 0 0 0))];
     sys_waiting := [] |}.

Lemma record_locks_exclude_witness :
  star (lock_step wit_tell wit_seek 0 2 64) (system_init 2 2) wit_system /\
  lk_type (mk_lock 5 15 ZVFS_F_RDLCK 2) = ZVFS_F_RDLCK.
Proof.
  assert (Hs : star (lock_step wit_tell wit_seek 0 2 64) (system_init 2 2) wit_system).
  { eapply star_snoc; [eapply star_snoc; [apply star_nil|]|].
    - eapply (step_call _ _ _ _ _ _ _ 0 wit_entry ZVFS_F_SETLK (wit_fl ZVFS_F_RDLCK 0 10) 1 _ 0
               (wit_fl ZVFS_F_RDLCK 0 10) (Some 0%nat) (LDone (Ok tt))).
      vm_compute. reflexivity.
    - apply (step_call _ _ _ _ _ _ _ 0 wit_entry ZVFS_F_SETLK (wit_fl ZVFS_F_RDLCK 5 10) 2 _ 0
               (wit_fl ZVFS_F_RDLCK 5 10) (Some 0%nat) (LDone (Ok tt))).
      vm_compute. reflexivity. }
  split; [exact Hs|].
  destruct (record_locks_exclude wit_tell wit_seek 0 2 64 2 2 wit_system Hs) as [H _].
  exact (proj2 (proj2 (H 0%nat _ 0%nat 1%nat _ _ 7 eq_refl eq_refl eq_refl ltac:(lia) eq_refl eq_refl))).
Defined.

(** ** Setting and testing a lock *)

(** A lock of another process with a byte in common, one of the two to write:
    what excludes a new lock. *)
Definition excludes (start end_ type pid : Z) (l : lock_entry) : Prop :=
  lk_pid l <> pid /\ (lk_start l < end_ /\ start < lk_end l) /\ (type = ZVFS_F_WRLCK \/ lk_type l = ZVFS_F_WRLCK).

(** A lock of the process itself that meets the range. *)
Definition own_met (start end_ pid : Z) (l : lock_entry) : Prop :=
  lk_pid l = pid /\ lk_start l < end_ /\ start < lk_end l.

#[export] Instance own_met_dec start end_ pid l : Decision (own_met start end_ pid l).
Proof. unfold own_met. apply _. Defined.

(** The type of the lock a process has on a byte. *)
Fixpoint type_at (ls : list lock_entry) (pid b : Z) : option Z :=
  match ls with
  | [] => None
  | l :: ls' => if (lk_pid l =? pid) && covers l b then Some (lk_type l) else type_at ls' pid b
  end.

(** The byte is under an own lock that meets the range. *)
Definition swept (ls : list lock_entry) (start end_ pid b : Z) : bool :=
  existsb (fun l => bool_decide (own_met start end_ pid l) && covers l b) ls.

Lemma own_overlap_met start end_ pid l : own_overlap start end_ pid l = bool_decide (own_met start end_ pid l).
Proof.
  apply eq_true_iff_eq. rewrite bool_decide_eq_true. unfold own_overlap, record_lock_regions_overlap, own_met.
  by rewrite !andb_true_iff, Z.eqb_eq, !Z.ltb_lt.
Qed.

(** The locks that are left, as the specification counts them. *)
Lemma remove_count st start end_ pid :
  (ls_count st <= length (ls_locks st))%nat ->
  ls_count (record_lock_remove_overlapping st start end_ pid) =
  length (filter (fun l => ~ own_met start end_ pid l) (held st)).
Proof.
  intros Hc. destruct (remove_overlapping_held st start end_ pid Hc) as (Hh & _ & Hl & Hn).
  rewrite (list_filter_iff _ (fun l => own_overlap start end_ pid l = false)).
  - rewrite <- Hh. unfold held. rewrite length_take, Hl. lia.
  - intros l. by rewrite own_overlap_met, bool_decide_eq_false.
Qed.

(** The search finds the first lock that excludes the request. *)
Lemma find_excludes start end_ type pid ls :
  lock_type_ok type -> Forall (fun l => lock_type_ok (lk_type l)) ls ->
  match find_loop start end_ type pid ls with
  | None => Forall (fun l => ~ excludes start end_ type pid l) ls
  | Some c => exists l1 l2, ls = l1 ++ c :: l2 /\ excludes start end_ type pid c /\
                Forall (fun l => ~ excludes start end_ type pid l) l1
  end.
Proof.
  intros Hty. induction 1 as [|l ls Hl Hls IH]; [constructor|]. cbn [find_loop].
  assert (excludes start end_ type pid l <-> record_lock_regions_overlap (lk_start l) (lk_end l) start end_ = true /\
            (lk_pid l =? pid) = false /\ record_lock_types_conflict type (lk_type l) = true) as He.
  { unfold excludes, record_lock_regions_overlap. rewrite andb_true_iff, !Z.ltb_lt, Z.eqb_neq.
    destruct Hty as [-> | ->], Hl as [-> | ->]; cbv [record_lock_types_conflict]; simpl; naive_solver. }
  destruct (record_lock_regions_overlap (lk_start l) (lk_end l) start end_), (lk_pid l =? pid),
    (record_lock_types_conflict type (lk_type l)); cbn [negb];
    try (exists [], ls; split; [done|split; [by apply He|by apply Forall_nil]]);
    (destruct (find_loop start end_ type pid ls) as [c|];
     [destruct IH as (l1 & l2 & -> & ? & ?); exists (l :: l1), l2; split; [done|split; [done|]]|];
     apply Forall_cons; (split; [rewrite He; naive_solver|done])).
Qed.

Lemma type_at_app l1 l2 pid b :
  type_at (l1 ++ l2) pid b = match type_at l1 pid b with Some t => Some t | None => type_at l2 pid b end.
Proof. induction l1 as [|l l1 IH]; [done|]. cbn. by destruct (_ && _). Qed.

Lemma find_conflict_remove st start end_ type pid :
  (ls_count st <= length (ls_locks st))%nat ->
  record_lock_find_conflict (record_lock_remove_overlapping st start end_ pid) start end_ type pid =
  record_lock_find_conflict st start end_ type pid.
Proof.
  intros Hc. unfold record_lock_find_conflict.
  rewrite (proj1 (remove_overlapping_held st start end_ pid Hc)).
  induction (held st) as [|l ls IH]; [done|]. rewrite filter_cons.
  destruct (own_overlap start end_ pid l) eqn:Ho.
  - rewrite decide_False, IH by done. unfold own_overlap in Ho. apply andb_true_iff in Ho as [Hp Ho].
    cbn [find_loop]. by rewrite Ho, Hp.
  - rewrite decide_True by done. cbn [find_loop]. by rewrite IH.
Qed.

(** At most one own lock holds a byte. *)
Lemma compatible_type_at l ls b :
  Forall (lock_compatible l) ls -> covers l b = true -> type_at ls (lk_pid l) b = None.
Proof.
  intros Hl Hc. induction Hl as [|x ls Hx Hl IH]; [done|]. cbn [type_at].
  destruct (Z.eqb_spec (lk_pid x) (lk_pid l)) as [He|]; cbn [andb]; [|done].
  destruct (covers x b) eqn:Hxb; [|done]. destruct (Hx (covers_overlap _ _ _ Hc Hxb)). congruence.
Qed.

Lemma swept_type_at ls start end_ pid b : swept ls start end_ pid b = true -> type_at ls pid b <> None.
Proof.
  unfold swept. induction ls as [|l ls IH]; [done|]. cbn [existsb type_at]. rewrite <- own_overlap_met. unfold own_overlap at 1.
  destruct (lk_pid l =? pid), (covers l b); cbn; try done; rewrite ?andb_false_r; exact IH.
Qed.

(** The locks left after the removal. *)
Lemma type_at_remove st start end_ pid q b :
  slot_ok st ->
  type_at (held (record_lock_remove_overlapping st start end_ pid)) q b =
  if (q =? pid) && swept (held st) start end_ pid b then None else type_at (held st) q b.
Proof.
  intros [Hc _ Hp]. rewrite (proj1 (remove_overlapping_held st start end_ pid Hc)).
  induction Hp as [|l ls Hl Hp IH]; [cbn; by rewrite andb_false_r|]. rewrite filter_cons.
  pose proof (compatible_type_at l ls b Hl) as Hn. pose proof (swept_type_at ls start end_ pid b) as Hs.
  cbn [swept existsb type_at]. fold (swept ls start end_ pid b). rewrite <- own_overlap_met.
  destruct (own_overlap start end_ pid l) eqn:Ho; cbn [andb orb].
  - rewrite decide_False, IH by done. unfold own_overlap in Ho. apply andb_true_iff in Ho as [Hpl _].
    apply Z.eqb_eq in Hpl. rewrite Hpl in *. rewrite (Z.eqb_sym pid q). destruct (Z.eqb_spec q pid) as [->|]; [|done].
    destruct (covers l b); cbn; [|done]. rewrite Hn by done. by destruct (swept _ _ _ _ _).
  - rewrite decide_True by done. cbn [type_at]. rewrite IH.
    destruct (Z.eqb_spec q pid) as [->|]; [|done]. cbn [andb]. destruct (swept _ _ _ _ _); [|done].
    destruct (Z.eqb_spec (lk_pid l) pid) as [<-|]; [|done]. cbn [andb].
    destruct (covers l b); [|done]. by destruct (Hs eq_refl (Hn eq_refl)).
Qed.

Lemma swept_in_range st start end_ pid b :
  start <= b < end_ -> type_at (held st) pid b <> None -> swept (held st) start end_ pid b = true.
Proof.
  intros Hb. unfold swept. induction (held st) as [|l ls IH]; [done|]. cbn [type_at existsb].
  destruct ((lk_pid l =? pid) && covers l b) eqn:Hl; [|intros H; by rewrite IH, orb_true_r].
  intros _. apply orb_true_iff. left. apply andb_true_iff in Hl as [Hp Hc]. rewrite <- own_overlap_met. unfold own_overlap. rewrite Hp, Hc.
  unfold record_lock_regions_overlap, covers in *. rewrite !andb_true_iff, ?Z.leb_le, !Z.ltb_lt in *. lia.
Qed.

Lemma type_at_add st start end_ type pid q b :
  slot_ok st ->
  type_at (held (record_lock_remove_overlapping st start end_ pid) ++ [mk_lock start end_ type pid]) q b =
  if q =? pid then
    if (start <=? b) && (b <? end_) then Some type
    else if swept (held st) start end_ pid b then None else type_at (held st) q b
  else type_at (held st) q b.
Proof.
  intros Hs. rewrite type_at_app, type_at_remove by done. cbn [type_at lk_pid lk_type].
  rewrite (Z.eqb_sym pid q). destruct (Z.eqb_spec q pid) as [->|]; cbn [andb]; [|by destruct (type_at _ _ _)].
  unfold covers. cbn [lk_start lk_end].
  destruct ((start <=? b) && (b <? end_)) eqn:Hb; [|by destruct (swept _ _ _ _ _); [|destruct (type_at _ _ _)]].
  destruct (swept _ _ _ _ _) eqn:Hsw; [done|].
  destruct (type_at (held st) pid b) eqn:Ht; [|done].
  rewrite swept_in_range in Hsw; [done| |by rewrite Ht].
  rewrite andb_true_iff, Z.leb_le, Z.ltb_lt in Hb. done.
Qed.

Definition granted (r : lock_result) : bool := match r with LDone (Ok _) => true | _ => false end.

(** What a round of F_SETLK and F_SETLKW does to the bytes. *)
Lemma apply_round_spec st start end_ type pid wait :
  slot_ok st ->
  let '(st', r) := apply_round st start end_ type pid wait in
  (forall q b, type_at (held st') q b =
     if q =? pid then
       if bool_decide (r = Some (Ok tt)) && ((start <=? b) && (b <? end_)) then Some type
       else if swept (held st) start end_ pid b then None else type_at (held st) q b
     else type_at (held st) q b) /\
  match record_lock_find_conflict st start end_ type pid with
  | Some _ => r = if wait then None else Some (Err EAGAIN)
  | None => r = Some (if (length (ls_locks st) <=? ls_count (record_lock_remove_overlapping st start end_ pid))%nat
                      then Err ENOLCK else Ok tt)
  end.
Proof.
  intros Hs. unfold apply_round. rewrite find_conflict_remove by apply Hs.
  assert (Hrem : forall q b, type_at (held (record_lock_remove_overlapping st start end_ pid)) q b =
    if q =? pid then if swept (held st) start end_ pid b then None else type_at (held st) q b
    else type_at (held st) q b).
  { intros q b. rewrite type_at_remove by done. destruct (q =? pid); [|done]. by destruct (swept _ _ _ _ _). }
  destruct (record_lock_find_conflict _ _ _ _ _); [destruct wait; by split|].
  destruct (record_lock_add _ _ _ _ _) as [st2 r] eqn:Ha.
  destruct (remove_overlapping_held st start end_ pid (slot_count _ Hs)) as (_ & _ & Hl & _).
  apply add_held in Ha as [(-> & -> & ?)|(Hh & -> & _ & _ & _ & ?)].
  - split; [done|]. destruct (Nat.leb_spec (length (ls_locks st)) (ls_count (record_lock_remove_overlapping st start end_ pid))); [done|lia].
  - split; [|destruct (Nat.leb_spec (length (ls_locks st)) (ls_count (record_lock_remove_overlapping st start end_ pid))); [lia|done]].
    intros q b. rewrite Hh, type_at_add by done. done.
Qed.

(** C33: F_SETLK, F_SETLKW and F_GETLK of a read or write lock whose range
    resolves, in a table in order, for a call that runs alone.  The locks of
    other processes stay; on success the process has a lock of the type on
    every byte of the range; its other bytes keep their locks, unless they
    were under one of its locks that met the range, which is dropped whole,
    whatever the call returns.  When no lock of another process has a byte in
    common with the range while one of the two is to write, the call succeeds
    if there is room for one more lock (ENOLCK otherwise) and F_GETLK says
    F_UNLCK; else F_SETLK is EAGAIN, F_SETLKW waits, and F_GETLK reports the
    first such lock: its type, start, process, and its length, or 0 when it
    extends to the end; F_GETLK changes nothing. *)
Theorem setlk_spec {F} (fs_tell : F -> Z) fs_seek FS_SEEK_SET FS_SEEK_END W st f fl pid wait f' start end_ :
  slot_ok st ->
  record_lock_resolve_range fs_tell fs_seek FS_SEEK_SET FS_SEEK_END W f fl = (f', inl (start, end_)) ->
  l_type fl = ZVFS_F_RDLCK \/ l_type fl = ZVFS_F_WRLCK ->
  let '(st', f'', r) := record_lock_apply fs_tell fs_seek FS_SEEK_SET FS_SEEK_END W st f fl pid wait in
  let '(g, fl', r') := record_lock_getlk fs_tell fs_seek FS_SEEK_SET FS_SEEK_END W st f fl pid in
  slot_ok st' /\ f'' = f' /\ g = f' /\ r' = LDone (Ok tt) /\
  (forall q b, q <> pid -> type_at (held st') q b = type_at (held st) q b) /\
  (forall b, type_at (held st') pid b =
     if granted r && ((start <=? b) && (b <? end_)) then Some (l_type fl)
     else if swept (held st) start end_ pid b then None else type_at (held st) pid b) /\
  ((Forall (fun l => ~ excludes start end_ (l_type fl) pid l) (held st) /\
    r = LDone (if decide (length (ls_locks st) <= length (filter (fun l => ~ own_met start end_ pid l) (held st)))%nat
               then Err ENOLCK else Ok tt) /\
    fl' = mk_flock ZVFS_F_UNLCK (l_whence fl) (l_start fl) (l_len fl) 0) \/
   (exists l1 c l2, held st = l1 ++ c :: l2 /\ excludes start end_ (l_type fl) pid c /\
    Forall (fun l => ~ excludes start end_ (l_type fl) pid l) l1 /\
    r = (if wait then LWaits (mk_request start end_ (l_type fl) pid) else LDone (Err EAGAIN)) /\
    fl' = mk_flock (lk_type c) ZVFS_SEEK_SET (lk_start c)
            (if decide (lk_end c = swrap W (2 ^ 63 - 1)) then 0 else swrap W (lk_end c - lk_start c)) (lk_pid c))).
Proof.
  intros Hs Hr Hty. unfold record_lock_apply, record_lock_getlk. rewrite Hr.
  rewrite (proj2 (Z.eqb_neq (l_type fl) ZVFS_F_UNLCK)) by (destruct Hty as [-> | ->]; done).
  replace (negb (l_type fl =? ZVFS_F_RDLCK) && negb (l_type fl =? ZVFS_F_WRLCK)) with false
    by (destruct Hty as [-> | ->]; done).
  pose proof (apply_round_spec st start end_ (l_type fl) pid wait Hs) as Hround.
  destruct (apply_round _ _ _ _ _ _) as [st' r] eqn:Ha. destruct Hround as [Hat Hres].
  assert (Hok : slot_ok st') by (by eapply apply_round_ok).
  assert (Hq : forall q b, q <> pid -> type_at (held st') q b = type_at (held st) q b).
  { intros q b Hq. rewrite Hat. by rewrite (proj2 (Z.eqb_neq q pid)). }
  assert (Hp := fun b => Hat pid b). setoid_rewrite Z.eqb_refl in Hp.
  rewrite remove_count in Hres by apply Hs. pose proof (find_excludes start end_ (l_type fl) pid _ Hty (slot_types _ Hs)) as He.
  unfold record_lock_find_conflict in *. destruct (find_loop start end_ (l_type fl) pid (held st)) as [c|].
  - destruct He as (l1 & l2 & Heq & Hc & Hl1).
    assert (Hlen : (if lk_end c =? ZVFS_RECORD_LOCK_RANGE_END W then 0 else swrap W (lk_end c - lk_start c)) =
                   if decide (lk_end c = swrap W (2 ^ 63 - 1)) then 0 else swrap W (lk_end c - lk_start c)).
    { change (ZVFS_RECORD_LOCK_RANGE_END W) with (swrap W (2 ^ 63 - 1)).
      destruct (decide (lk_end c = _)) as [->|Hn]; [by rewrite Z.eqb_refl|by rewrite (proj2 (Z.eqb_neq _ _) Hn)]. }
    destruct wait; subst r; split_and!; try done; right; exists l1, c, l2; by rewrite <- Hlen.
  - destruct (_ <=? _)%nat eqn:Hle; subst r; split_and!; try done; left; split_and!; try done.
    + apply Nat.leb_le in Hle. by rewrite decide_True.
    + apply Nat.leb_gt in Hle. rewrite decide_False; [done|lia].
Qed.

Lemma setlk_spec_witness :
  record_lock_find_conflict (mk_lstate (Some 7) 1 [mk_lock 0 10 ZVFS_F_RDLCK 1; mk_lock 0 0 0 0]) 5 15 ZVFS_F_WRLCK 2 =
    Some (mk_lock 0 10 ZVFS_F_RDLCK 1) /\
  exists st', record_lock_apply wit_tell wit_seek 0 2 64 (mk_lstate (Some 7) 1 [mk_lock 0 10 ZVFS_F_RDLCK 1; mk_lock 0 0 0 0])
    0 (mk_flock ZVFS_F_WRLCK ZVFS_SEEK_SET 5 10 0) 2 true = (st', 0, LWaits (mk_request 5 15 ZVFS_F_WRLCK 2)).
Proof.
  split; [reflexivity|].
  pose proof (setlk_spec wit_tell wit_seek 0 2 64 (mk_lstate (Some 7) 1 [mk_lock 0 10 ZVFS_F_RDLCK 1; mk_lock 0 0 0 0])
    0 (mk_flock ZVFS_F_WRLCK ZVFS_SEEK_SET 5 10 0) 2 true 0 5 15) as H.
  assert (Hok : slot_ok (mk_lstate (Some 7) 1 [mk_lock 0 10 ZVFS_F_RDLCK 1; mk_lock 0 0 0 0])).
  { split; [cbn; lia|cbn; repeat constructor; by left|cbn; repeat constructor]. }
  specialize (H Hok eq_refl (or_intror eq_refl)).
  destruct (record_lock_apply _ _ _ _ _ _ _ _ _ _) as [[st' f''] r].
  destruct (record_lock_getlk _ _ _ _ _ _ _ _ _) as [[g fl'] r'].
  destruct H as (_ & -> & _ & _ & _ & _ & [[H _]|(l1 & c & l2 & _ & _ & _ & -> & _)]); [|by exists st'].
  exfalso. apply Forall_cons in H as [H _]. apply H. unfold excludes. cbn. split_and!; [done|lia|lia|by left].
Defined.

(** Searching and taking a slot are two steps in the source.  Both threads find
    the first slot free for the same file; when the first has its write lock,
    the second takes the slot again, which forgets that lock, and is granted a
    write lock of the same bytes. *)
Lemma claim_race :
  let s0 := slots_init 2 2 in
  slot_loop s0 7 0 None = inr (Some 0%nat) /\
  let '(s1, _, _, i1, r1) := zvfs_record_lock_fcntl wit_tell wit_seek 0 2 64 s0 0 wit_entry ZVFS_F_SETLK (wit_fl ZVFS_F_WRLCK 0 10) 1 in
  i1 = Some 0%nat /\ r1 = LDone (Ok tt) /\
  let s2 := slot_claim s1 7 0 in
  exists st st', s2 !! 0%nat = Some st /\
    record_lock_apply wit_tell wit_seek 0 2 64 st 0 (mk_flock ZVFS_F_WRLCK ZVFS_SEEK_SET 0 10 0) 2 false = (st', 0, LDone (Ok tt)) /\
    held st' = [mk_lock 0 10 ZVFS_F_WRLCK 2].
Proof. split; [reflexivity|]. vm_compute. split; [done|]. split; [done|]. eexists _, _. done. Qed.

(** All calls have the process number of [record_lock_pid], so none waits or
    meets a conflict. *)
Lemma single_process_no_conflict multi_process st start end_ type :
  Forall (fun l => lk_pid l = record_lock_pid multi_process) (held st) ->
  record_lock_find_conflict st start end_ type (record_lock_pid multi_process) = None.
Proof. intros H. apply find_loop_None. eapply Forall_impl; [exact H|]. cbn. done. Qed.

(** With a 32-bit off_t the end of a lock to the end of the file is -1, and
    the lock holds no byte. *)
Lemma to_the_end_32 pid byte type : covers (mk_lock 0 (ZVFS_RECORD_LOCK_RANGE_END 32) type pid) byte = false.
Proof.
  unfold covers. cbn [lk_start lk_end]. replace (ZVFS_RECORD_LOCK_RANGE_END 32) with (-1) by reflexivity.
  destruct (Z.leb_spec 0 byte), (Z.ltb_spec byte (-1)); cbn; done || lia.
Qed.

(** Unlocking the middle of a lock drops all of it. *)
Lemma unlock_middle :
  held (record_lock_remove_overlapping (mk_lstate (Some 7) 1 [mk_lock 0 100 ZVFS_F_WRLCK 1]) 40 60 1) = [].
Proof. reflexivity. Qed.

(** A lock that is refused has cost the process the lock it had. *)
Lemma refused_lock_drops_own :
  let st := mk_lstate (Some 7) 2 [mk_lock 0 10 ZVFS_F_RDLCK 1; mk_lock 0 10 ZVFS_F_RDLCK 2] in
  apply_round st 0 10 ZVFS_F_WRLCK 1 false =
    (mk_lstate (Some 7) 1 [mk_lock 0 10 ZVFS_F_RDLCK 2; mk_lock 0 10 ZVFS_F_RDLCK 2], Some (Err EAGAIN)).
Proof. reflexivity. Qed.
