(* ===== verification/Tss.v ===== *)
(** * Thread-specific data (threads_base/key.c over kernel/tss.c of the patch k-tss)

    Keys are objects of a static pool whose use is recorded in the words of a
    bitmap; a thread has a list of the values it has set, each of which is
    also in the list of its key.  pthread_key_t has [KW] bits.  Every call runs
    under a spin lock, so it is one step; the block k_malloc returns is an
    argument of the call. *)

From stdpp Require Import base list gmap.
From Stdlib Require Import ZArith Lia.
From S2P Require Import Prelude.

Local Open Scope Z_scope.

Definition K_THREAD_KEY_ANY (PW : Z) : Z := 2 ^ PW - 1.

(** [struct k_thread_key_obj]: the blocks of key_data_l and the destructor. *)
Record key_obj (D : Type) := mk_key_obj { ko_data : list Z; ko_dtor : option D }.
Arguments mk_key_obj {D}. Arguments ko_data {D}. Arguments ko_dtor {D}.

(** [struct k_thread_key_data], with the address of its block. *)
Record key_data := mk_key_data { kd_addr : Z; kd_key : Z; kd_val : Z }.

Record tss (D : Type) := mk_tss {
  allocation_bitmap : list Z;
  pool : list (key_obj D);
  key_list : gmap Z (list key_data);
}.
Arguments mk_tss {D}. Arguments allocation_bitmap {D}. Arguments pool {D}. Arguments key_list {D}.

Section Tss.
Context {D : Type} (BITS_PER_LONG KEYS_MAX : nat) (KW PW : Z).

(** The pool in memory: the address of its object [i], and the kernel's test
    that a pointer is the address of an object of it. *)
Context (key_ptr : nat -> Z) (key_index : Z -> nat) (IS_ARRAY_ELEMENT : Z -> bool).

(** ** The bitmap *)

Fixpoint lsb_loop (n : nat) (i op : Z) : Z :=
  match n with
  | O => -1
  | S n' => if negb (Z.land op 1 =? 0) then i + 1 else lsb_loop n' (i + 1) (Z.shiftr op 1)
  end.

Definition find_lsb_set_l (op : Z) : Z := if op =? 0 then 0 else lsb_loop BITS_PER_LONG 0 op.

Definition K_TSS_LAST_WORD_MASK : Z :=
  if (KEYS_MAX mod BITS_PER_LONG =? 0)%nat then 2 ^ Z.of_nat BITS_PER_LONG - 1
  else 2 ^ Z.of_nat (KEYS_MAX mod BITS_PER_LONG) - 1.

Definition k_thread_key_is_allocated (bitmap : list Z) (key_index : nat) : bool :=
  match bitmap !! (key_index / BITS_PER_LONG)%nat with
  | None => false
  | Some word => flag_set word (2 ^ Z.of_nat (key_index mod BITS_PER_LONG))
  end.

Definition k_thread_key_is_valid (s : tss D) (key : Z) : bool :=
  IS_ARRAY_ELEMENT key && k_thread_key_is_allocated (allocation_bitmap s) (key_index key).

(** The complement of a word of the bitmap, the last one masked. *)
Definition free_word (words word_index : nat) (w : Z) : Z :=
  let word := 2 ^ Z.of_nat BITS_PER_LONG - 1 - w in
  if (word_index =? words - 1)%nat then Z.land word K_TSS_LAST_WORD_MASK else word.

Fixpoint alloc_loop (words word_index : nat) (bitmap : list Z) : option (list Z * nat) :=
  match bitmap with
  | [] => None
  | w :: bitmap' =>
      let bit_index := find_lsb_set_l (free_word words word_index w) - 1 in
      if bit_index <? 0 then
        match alloc_loop words (S word_index) bitmap' with
        | None => None
        | Some (bitmap'', i) => Some (w :: bitmap'', i)
        end
      else Some (Z.lor w (2 ^ bit_index) :: bitmap', (word_index * BITS_PER_LONG + Z.to_nat bit_index)%nat)
  end.

Definition k_thread_key_alloc (bitmap : list Z) : option (list Z * nat) := alloc_loop (length bitmap) 0 bitmap.

Definition k_thread_key_free (bitmap : list Z) (key_index : nat) : list Z :=
  alter (fun w => Z.ldiff w (2 ^ Z.of_nat (key_index mod BITS_PER_LONG))) (key_index / BITS_PER_LONG)%nat bitmap.

(** ** Keys *)

Definition z_impl_k_thread_key_create (s : tss D) (destructor : option D) : tss D * res Z :=
  match k_thread_key_alloc (allocation_bitmap s) with
  | None => (s, Err ENOMEM)
  | Some (bitmap, i) => (mk_tss bitmap (<[i := mk_key_obj [] destructor]> (pool s)) (key_list s), Ok (key_ptr i))
  end.

(** The first key in use, for K_THREAD_KEY_ANY. *)
Fixpoint any_loop (word_index : nat) (bitmap : list Z) : option nat :=
  match bitmap with
  | [] => None
  | w :: bitmap' =>
      let bit_index := find_lsb_set_l w - 1 in
      if bit_index <? 0 then any_loop (S word_index) bitmap'
      else Some (word_index * BITS_PER_LONG + Z.to_nat bit_index)%nat
  end.

Definition key_free (s : tss D) (i : nat) : tss D :=
  mk_tss (k_thread_key_free (allocation_bitmap s) i) (pool s) (key_list s).

Definition z_impl_k_thread_key_delete (s : tss D) (key : Z) : tss D * res unit :=
  if key =? K_THREAD_KEY_ANY PW then
    match any_loop 0 (allocation_bitmap s) with
    | None => (s, Err ENOENT)
    | Some i => (key_free s i, Ok tt)
    end
  else if negb (k_thread_key_is_valid s key) then (s, Err EINVAL)
  else match pool s !! key_index key with
       | None => (s, Err EINVAL)
       | Some obj => if (length (ko_data obj) =? 0)%nat then (key_free s (key_index key), Ok tt) else (s, Err EBUSY)
       end.

(** ** Values *)

Definition thread_list (s : tss D) (t : Z) : list key_data := default [] (key_list s !! t).

(** The loop over the thread's list that replaces the value of the key. *)
Fixpoint set_loop (key value : Z) (l : list key_data) : option (list key_data) :=
  match l with
  | [] => None
  | d :: l' =>
      if kd_key d =? key then Some (mk_key_data (kd_addr d) (kd_key d) value :: l')
      else match set_loop key value l' with
           | None => None
           | Some l'' => Some (d :: l'')
           end
  end.

Definition z_impl_k_thread_setspecific (s : tss D) (t key value : Z) (mem : option Z) : tss D * res unit :=
  if negb (k_thread_key_is_valid s key) then (s, Err EINVAL)
  else match set_loop key value (thread_list s t) with
       | Some l => (mk_tss (allocation_bitmap s) (pool s) (<[t := l]> (key_list s)), Ok tt)
       | None =>
           match mem with
           | None => (s, Err ENOMEM)
           | Some a =>
               (mk_tss (allocation_bitmap s)
                  (alter (fun o => mk_key_obj (ko_data o ++ [a]) (ko_dtor o)) (key_index key) (pool s))
                  (<[t := thread_list s t ++ [mk_key_data a key value]]> (key_list s)), Ok tt)
           end
       end.

Fixpoint get_loop (key : Z) (l : list key_data) : option Z :=
  match l with
  | [] => None
  | d :: l' => if kd_key d =? key then Some (kd_val d) else get_loop key l'
  end.

Definition dtor_of (s : tss D) (key : Z) : option D :=
  match pool s !! key_index key with Some o => ko_dtor o | None => None end.

(** The key, its value and its destructor; K_THREAD_KEY_ANY takes the first
    value of the thread out of the lists. *)
Definition z_impl_k_thread_qspecific (s : tss D) (t key : Z) : tss D * res (Z * Z * option D) :=
  if key =? K_THREAD_KEY_ANY PW then
    match thread_list s t with
    | [] => (s, Err ENOENT)
    | d :: l =>
        (mk_tss (allocation_bitmap s)
           (alter (fun o => mk_key_obj (filter (fun a => a <> kd_addr d) (ko_data o)) (ko_dtor o)) (key_index (kd_key d)) (pool s))
           (<[t := l]> (key_list s)),
         Ok (kd_key d, kd_val d, dtor_of s (kd_key d)))
    end
  else if negb (k_thread_key_is_valid s key) then (s, Err EINVAL)
  else match get_loop key (thread_list s t) with
       | None => (s, Err EINVAL)
       | Some v => (s, Ok (key, v, dtor_of s key))
       end.

Definition k_thread_popspecific (s : tss D) (t : Z) : tss D * res (Z * Z * option D) :=
  z_impl_k_thread_qspecific s t (K_THREAD_KEY_ANY PW).

Definition k_thread_getspecific (s : tss D) (t key : Z) : tss D * res Z :=
  let '(s', r) := z_impl_k_thread_qspecific s t key in
  (s', match r with Ok (_, v, _) => Ok v | Err e => Err e end).

(** The list of a new thread. *)
Definition z_setup_new_thread (s : tss D) (t : Z) : tss D :=
  mk_tss (allocation_bitmap s) (pool s) (<[t := []]> (key_list s)).

(** The values of an exiting thread (z_thread_cancel_actuate): the calls of
    destructors are recorded, [run] is what a destructor does to the storage. *)
Fixpoint exit_loop (run : D -> Z -> tss D -> tss D) (fuel : nat) (s : tss D) (t : Z) (calls : list (D * Z))
    : option (tss D * list (D * Z)) :=
  match fuel with
  | O => None
  | S fuel' =>
      match k_thread_popspecific s t with
      | (s', Err _) => Some (s', calls)
      | (s', Ok (_, v, None)) => exit_loop run fuel' s' t calls
      | (s', Ok (_, v, Some d)) => exit_loop run fuel' (run d v s') t (calls ++ [(d, v)])
      end
  end.

(** ** The POSIX calls *)

Definition pthread_key_create (s : tss D) (destructor : option D) : tss D * res Z :=
  match z_impl_k_thread_key_create s destructor with
  | (s', Err e) => (s', Err e)
  | (s', Ok kkey) => (s', Ok (uwrap KW kkey))
  end.

Definition pthread_key_delete (s : tss D) (key : Z) : tss D * res unit := z_impl_k_thread_key_delete s key.

Definition pthread_setspecific (s : tss D) (t key value : Z) (mem : option Z) : tss D * res unit :=
  z_impl_k_thread_setspecific s t key value mem.

(** NULL is 0. *)
Definition pthread_getspecific (s : tss D) (t key : Z) : tss D * Z :=
  match k_thread_getspecific s t key with
  | (s', Err _) => (s', 0)
  | (s', Ok v) => (s', v)
  end.

(** ** The bitmap records which keys are in use *)

Context (HBPL : (0 < BITS_PER_LONG)%nat).
Abbreviation BPL := (Z.of_nat BITS_PER_LONG).
Abbreviation allocated := k_thread_key_is_allocated.

Lemma lsb_loop_spec n : forall i op, 0 < op < 2 ^ Z.of_nat n ->
  exists b, 0 <= b < Z.of_nat n /\ lsb_loop n i op = i + b + 1 /\ Z.testbit op b = true /\
            forall j, 0 <= j < b -> Z.testbit op j = false.
Proof.
  induction n as [|n IH]; intros i op Hop; [cbn in Hop; lia|]. cbn [lsb_loop].
  assert (Hodd : negb (Z.land op 1 =? 0) = Z.testbit op 0) by exact (flag_set_pow2 op 0 ltac:(lia)).
  rewrite Hodd. destruct (Z.testbit op 0) eqn:H0.
  - exists 0. split_and!; [lia..|done|lia].
  - assert (Hhalf : op = 2 * Z.shiftr op 1).
    { rewrite <- Z.div2_spec. pose proof (Z.div2_odd op) as H. rewrite <- Z.bit0_odd, H0 in H. cbn in H. lia. }
    rewrite Nat2Z.inj_succ, Z.pow_succ_r in Hop by lia.
    destruct (IH (i + 1) (Z.shiftr op 1)) as (b & Hb & -> & Ht & Hlow); [lia|].
    exists (b + 1). rewrite Z.shiftr_spec in Ht by lia. split_and!; [lia..|done|].
    intros j Hj. destruct (decide (j = 0)) as [->|]; [done|].
    specialize (Hlow (j - 1)). rewrite Z.shiftr_spec in Hlow by lia. replace (j - 1 + 1) with j in Hlow by lia.
    apply Hlow. lia.
Qed.

Definition word_ok (w : Z) : Prop := 0 <= w < 2 ^ BPL.

(** The first set bit, if there is one. *)
Lemma find_lsb_spec op : word_ok op ->
  (find_lsb_set_l op - 1 <? 0) = (op =? 0) /\
  (op <> 0 -> exists b, 0 <= b < BPL /\ find_lsb_set_l op - 1 = b /\ Z.testbit op b = true /\
              forall j, 0 <= j < b -> Z.testbit op j = false).
Proof.
  unfold word_ok, find_lsb_set_l. intros Hop. destruct (Z.eqb_spec op 0) as [->|Hne]; [done|].
  destruct (lsb_loop_spec BITS_PER_LONG 0 op) as (b & Hb & -> & Ht & Hl); [lia|].
  split; [apply Z.ltb_ge; lia|]. intros _. exists b. split_and!; [lia..|done|done].
Qed.

Lemma allocated_cons w bm i :
  allocated (w :: bm) i =
  if (i <? BITS_PER_LONG)%nat then Z.testbit w (Z.of_nat i) else allocated bm (i - BITS_PER_LONG).
Proof.
  unfold k_thread_key_is_allocated. destruct (Nat.ltb_spec i BITS_PER_LONG).
  - rewrite Nat.div_small, Nat.mod_small by lia. cbn. apply flag_set_pow2. lia.
  - remember (i - BITS_PER_LONG)%nat as j eqn:Hj. replace i with (j + 1 * BITS_PER_LONG)%nat by lia.
    rewrite Nat.div_add, Nat.Div0.mod_add by lia. by rewrite Nat.add_1_r.
Qed.

Lemma free_word_spec words widx w b :
  word_ok w -> (KEYS_MAX <= words * BITS_PER_LONG < KEYS_MAX + BITS_PER_LONG)%nat -> (widx < words)%nat ->
  0 <= b < BPL ->
  Z.testbit (free_word words widx w) b = negb (Z.testbit w b) && (Z.of_nat widx * BPL + b <? Z.of_nat KEYS_MAX).
Proof.
  unfold word_ok. intros Hw HN Hidx Hb. unfold free_word.
  assert (Hc : 2 ^ BPL - 1 - w = Z.ldiff (Z.ones BPL) w).
  { rewrite <- Z.sub_nocarry_ldiff; [rewrite Z.ones_equiv; lia|].
    destruct (decide (w = 0)) as [->|]; [done|]. apply Z.ldiff_ones_r_low; [lia|]. apply Z.log2_lt_pow2; lia. }
  rewrite Hc. assert (Hbit : Z.testbit (Z.ldiff (Z.ones BPL) w) b = negb (Z.testbit w b)).
  { rewrite Z.ldiff_spec, Z.ones_spec_low by lia. done. }
  destruct (Nat.eqb_spec widx (words - 1)) as [->|Hlast].
  - rewrite Z.land_spec, Hbit. f_equal. unfold K_TSS_LAST_WORD_MASK.
    assert (Hmod : (KEYS_MAX mod BITS_PER_LONG = 0 /\ KEYS_MAX = words * BITS_PER_LONG)%nat \/
                   (KEYS_MAX mod BITS_PER_LONG = KEYS_MAX - (words - 1) * BITS_PER_LONG /\
                    KEYS_MAX mod BITS_PER_LONG <> 0)%nat).
    { destruct (decide (KEYS_MAX = words * BITS_PER_LONG)%nat) as [->|].
      - left. rewrite Nat.Div0.mod_mul. done.
      - right. replace KEYS_MAX with ((KEYS_MAX - (words - 1) * BITS_PER_LONG) + (words - 1) * BITS_PER_LONG)%nat at 1 3 by nia.
        rewrite Nat.Div0.mod_add. rewrite Nat.mod_small by nia. split; nia. }
    destruct Hmod as [[-> HK]|[-> Hne]]; cbn [Nat.eqb].
    + rewrite Z.sub_1_r, <- Z.ones_equiv, Z.ones_spec_low by lia. symmetry. apply Z.ltb_lt. nia.
    + destruct (Nat.eqb_spec (KEYS_MAX - (words - 1) * BITS_PER_LONG) 0); [lia|].
      rewrite Z.sub_1_r, <- Z.ones_equiv.
      destruct (Z.ltb_spec (Z.of_nat (words - 1) * BPL + b) (Z.of_nat KEYS_MAX)).
      * apply Z.ones_spec_low. nia.
      * apply Z.ones_spec_high. nia.
  - rewrite Hbit. replace (_ <? _) with true by (symmetry; apply Z.ltb_lt; nia). by rewrite andb_true_r.
Qed.

Lemma lor_pow2_ok w b : word_ok w -> 0 <= b < BPL -> word_ok (Z.lor w (2 ^ b)).
Proof.
  unfold word_ok. intros Hw Hb. assert (Hp : 0 < 2 ^ b) by (apply Z.pow_pos_nonneg; lia).
  assert (0 <= Z.lor w (2 ^ b)) by (apply Z.lor_nonneg; lia). split; [done|].
  destruct (decide (Z.lor w (2 ^ b) = 0)) as [->|]; [apply Z.pow_pos_nonneg; lia|].
  apply Z.log2_lt_pow2; [lia|]. rewrite Z.log2_lor, Z.log2_pow2 by lia.
  destruct (decide (w = 0)) as [->|]; [cbn; lia|]. assert (Z.log2 w < BPL) by (apply Z.log2_lt_pow2; lia). lia.
Qed.

Lemma lor_pow2_bit w b i : 0 <= b -> 0 <= i -> Z.testbit (Z.lor w (2 ^ b)) i = (i =? b) || Z.testbit w i.
Proof. intros. rewrite Z.lor_spec, Z.pow2_bits_eqb, (Z.eqb_sym b) by lia. apply orb_comm. Qed.

Lemma free_word_ok words widx w : word_ok w -> word_ok (free_word words widx w).
Proof.
  unfold word_ok, free_word. intros Hw. case_match; [|lia]. split; [apply Z.land_nonneg; lia|].
  destruct (decide (Z.land (2 ^ BPL - 1 - w) K_TSS_LAST_WORD_MASK = 0)) as [->|Hne]; [lia|].
  assert (Hle : Z.log2 (Z.land (2 ^ BPL - 1 - w) K_TSS_LAST_WORD_MASK) <= Z.log2 (2 ^ BPL - 1 - w)).
  { etransitivity; [apply Z.log2_land; [lia|]|apply Z.le_min_l].
    unfold K_TSS_LAST_WORD_MASK. case_match; [lia|]. assert (0 < 2 ^ Z.of_nat (KEYS_MAX mod BITS_PER_LONG)); lia. }
  assert (0 <= Z.land (2 ^ BPL - 1 - w) K_TSS_LAST_WORD_MASK) by (apply Z.land_nonneg; lia).
  apply Z.log2_lt_pow2; [lia|]. eapply Z.le_lt_trans; [exact Hle|].
  assert (2 ^ BPL - 1 - w <> 0) by (intros He; rewrite He in Hne; cbn in Hne; done).
  apply Z.log2_lt_pow2; lia.
Qed.

Lemma alloc_loop_spec words :
  (KEYS_MAX <= words * BITS_PER_LONG < KEYS_MAX + BITS_PER_LONG)%nat ->
  forall bm widx, Forall word_ok bm -> (widx + length bm = words)%nat ->
  match alloc_loop words widx bm with
  | None => forall i, (widx * BITS_PER_LONG + i < KEYS_MAX)%nat -> allocated bm i = true
  | Some (bm', k) =>
      exists i, k = (widx * BITS_PER_LONG + i)%nat /\ (k < KEYS_MAX)%nat /\ allocated bm i = false /\
        length bm' = length bm /\ Forall word_ok bm' /\
        forall j, allocated bm' j = (j =? i)%nat || allocated bm j
  end.
Proof.
  intros HN. induction bm as [|w bm IH]; intros widx Hbm Hlen; cbn [alloc_loop].
  - cbn in Hlen. intros i Hi. nia.
  - apply Forall_cons in Hbm as [Hw Hbm]. cbn [length] in Hlen.
    pose proof (free_word_ok words widx w Hw) as Hfw. destruct (find_lsb_spec _ Hfw) as [-> Hlsb].
    assert (Hbits : forall b, 0 <= b < BPL -> Z.testbit (free_word words widx w) b =
              negb (Z.testbit w b) && (Z.of_nat widx * BPL + b <? Z.of_nat KEYS_MAX)).
    { intros b Hb. apply free_word_spec; [done..|lia|done]. }
    destruct (Z.eqb_spec (free_word words widx w) 0) as [H0|H0].
    + specialize (IH (S widx) Hbm ltac:(lia)).
      assert (Hfull : forall b, 0 <= b < BPL -> Z.of_nat widx * BPL + b < Z.of_nat KEYS_MAX -> Z.testbit w b = true).
      { intros b Hb HK. specialize (Hbits b Hb). rewrite H0, Z.testbit_0_l, (proj2 (Z.ltb_lt _ _) HK), andb_true_r in Hbits.
        by destruct (Z.testbit w b). }
      destruct (alloc_loop words (S widx) bm) as [[bm' k]|].
      * destruct IH as (i & -> & HK & Ha & Hl & Hok & Hall). exists (BITS_PER_LONG + i)%nat.
        split_and!; [lia|lia| |cbn; lia|by constructor|].
        -- rewrite allocated_cons, (proj2 (Nat.ltb_ge _ _)) by lia.
           by replace (BITS_PER_LONG + i - BITS_PER_LONG)%nat with i by lia.
        -- intros j. rewrite !allocated_cons. destruct (Nat.ltb_spec j BITS_PER_LONG) as [Hj|Hj].
           ++ by rewrite (proj2 (Nat.eqb_neq j (BITS_PER_LONG + i))) by lia.
           ++ rewrite Hall. f_equal. destruct (Nat.eqb_spec (j - BITS_PER_LONG) i), (Nat.eqb_spec j (BITS_PER_LONG + i)); lia || done.
      * intros i Hi. rewrite allocated_cons. destruct (Nat.ltb_spec i BITS_PER_LONG); [apply Hfull; lia|apply IH; lia].
    + destruct (Hlsb H0) as (b & Hb & -> & Ht & _). rewrite Hbits in Ht by done.
      apply andb_true_iff in Ht as [Hfree HK]. apply Z.ltb_lt in HK. apply negb_true_iff in Hfree.
      exists (Z.to_nat b). split_and!; [lia|nia| |done| |].
      * rewrite allocated_cons, (proj2 (Nat.ltb_lt _ _)) by lia. by rewrite Z2Nat.id by lia.
      * constructor; [by apply lor_pow2_ok|done].
      * intros j. rewrite !allocated_cons. destruct (Nat.ltb_spec j BITS_PER_LONG).
        -- rewrite lor_pow2_bit by lia. f_equal. destruct (Z.eqb_spec (Z.of_nat j) b), (Nat.eqb_spec j (Z.to_nat b)); lia || done.
        -- by rewrite (proj2 (Nat.eqb_neq j (Z.to_nat b))) by lia.
Qed.

Record bitmap_ok (bm : list Z) : Prop := {
  bm_words : Forall word_ok bm;
  bm_length : (KEYS_MAX <= length bm * BITS_PER_LONG < KEYS_MAX + BITS_PER_LONG)%nat;
  bm_bits : forall i, allocated bm i = true -> (i < KEYS_MAX)%nat;
}.

(** A key that is not in use, if there is one. *)
Lemma alloc_spec bm : bitmap_ok bm ->
  match k_thread_key_alloc bm with
  | None => forall i, (i < KEYS_MAX)%nat -> allocated bm i = true
  | Some (bm', k) => (k < KEYS_MAX)%nat /\ allocated bm k = false /\ bitmap_ok bm' /\
                     forall j, allocated bm' j = (j =? k)%nat || allocated bm j
  end.
Proof.
  intros [Hw Hl Hb]. unfold k_thread_key_alloc. pose proof (alloc_loop_spec _ Hl bm 0 Hw eq_refl) as H.
  destruct (alloc_loop _ _ _) as [[bm' k]|]; [|done]. destruct H as (i & -> & HK & Ha & Hl' & Hw' & Hall).
  cbn in *. split_and!; [done..| |done]. split; [done|by rewrite Hl'|].
  intros j Hj. rewrite Hall in Hj. apply orb_true_iff in Hj as [Hj|Hj]; [apply Nat.eqb_eq in Hj; lia|by apply Hb].
Qed.

Lemma ldiff_ok w m : word_ok w -> 0 <= m -> word_ok (Z.ldiff w m).
Proof.
  unfold word_ok. intros Hw Hm. replace (Z.ldiff w m) with (Z.ldiff w m mod 2 ^ BPL); [apply Z.mod_pos_bound; lia|].
  apply Z.bits_inj'. intros n Hn. destruct (decide (n < BPL)); [by apply Z.mod_pow2_bits_low|].
  rewrite Z.mod_pow2_bits_high, Z.ldiff_spec by lia. rewrite <- (Z.mod_small w (2 ^ BPL)) by lia.
  by rewrite Z.mod_pow2_bits_high by lia.
Qed.

Lemma free_spec bm k : bitmap_ok bm ->
  bitmap_ok (k_thread_key_free bm k) /\
  forall j, allocated (k_thread_key_free bm k) j = allocated bm j && negb (j =? k)%nat.
Proof.
  intros [Hw Hl Hb].
  assert (Hall : forall j, allocated (k_thread_key_free bm k) j = allocated bm j && negb (j =? k)%nat).
  { intros j. unfold k_thread_key_free, k_thread_key_is_allocated.
    pose proof (Nat.div_mod_eq j BITS_PER_LONG). pose proof (Nat.div_mod_eq k BITS_PER_LONG).
    destruct (decide (j / BITS_PER_LONG = k / BITS_PER_LONG)%nat) as [He|Hne].
    - rewrite He, list_lookup_alter_eq. destruct (bm !! _) as [w|]; [|done]. cbn.
      rewrite !flag_set_pow2, Z.ldiff_spec, Z.pow2_bits_eqb by lia. f_equal. f_equal.
      destruct (Z.eqb_spec (Z.of_nat (k mod BITS_PER_LONG)) (Z.of_nat (j mod BITS_PER_LONG))), (Nat.eqb_spec j k); subst; lia || done.
    - rewrite list_lookup_alter_ne by done. destruct (Nat.eqb_spec j k) as [->|]; [done|]. by rewrite andb_true_r. }
  split; [|done]. split.
  - apply Forall_alter; [done|]. intros w _ Hwd. apply ldiff_ok; [done|]. apply Z.pow_nonneg. lia.
  - unfold k_thread_key_free. by rewrite length_alter.
  - intros i. rewrite Hall. intros [Hi _]%andb_true_iff. by apply Hb.
Qed.

(** ** The invariant *)

(** The pool is where its objects are, and IS_ARRAY_ELEMENT tells. *)
Context (Hindex : forall i, (i < KEYS_MAX)%nat -> key_index (key_ptr i) = i).
Context (Helem : forall key, IS_ARRAY_ELEMENT key = true <-> exists i, (i < KEYS_MAX)%nat /\ key = key_ptr i).
Context (Hany : forall i, (i < KEYS_MAX)%nat -> key_ptr i <> K_THREAD_KEY_ANY PW).

Abbreviation live := k_thread_key_is_valid.

Lemma live_spec s key :
  live s key = true <-> exists i, (i < KEYS_MAX)%nat /\ key = key_ptr i /\ allocated (allocation_bitmap s) i = true.
Proof.
  unfold k_thread_key_is_valid. rewrite andb_true_iff, Helem. split.
  - intros [(i & Hi & ->) Ha]. rewrite Hindex in Ha by done. eauto.
  - intros (i & Hi & -> & Ha). rewrite Hindex by done. eauto.
Qed.

Lemma live_ptr s i : (i < KEYS_MAX)%nat -> live s (key_ptr i) = allocated (allocation_bitmap s) i.
Proof.
  intros Hi. unfold k_thread_key_is_valid. rewrite Hindex by done.
  by rewrite (proj2 (Helem (key_ptr i))) by eauto.
Qed.

(** The blocks and keys of a thread's values. *)
Definition shape (s : tss D) (t : Z) : list (Z * Z) := (fun d => (kd_addr d, kd_key d)) <$> thread_list s t.

Record tss_ok (s : tss D) : Prop := {
  ok_bitmap : bitmap_ok (allocation_bitmap s);
  ok_pool : length (pool s) = KEYS_MAX;
  ok_thread : forall t a k, (a, k) ∈ shape s t ->
    exists i o, (i < KEYS_MAX)%nat /\ k = key_ptr i /\ allocated (allocation_bitmap s) i = true /\
                pool s !! i = Some o /\ a ∈ ko_data o;
  ok_key : forall i o a, pool s !! i = Some o -> allocated (allocation_bitmap s) i = true -> a ∈ ko_data o ->
    exists t, (a, key_ptr i) ∈ shape s t;
  ok_nodup : forall t, NoDup (snd <$> shape s t);
  ok_addr : forall t1 t2 a k1 k2, (a, k1) ∈ shape s t1 -> (a, k2) ∈ shape s t2 -> t1 = t2 /\ k1 = k2;
}.

(** A block that is in no list. *)
Definition fresh_block (s : tss D) (a : Z) : Prop := forall t k, (a, k) ∉ shape s t.

Definition tss_init (words : nat) (objs : list (key_obj D)) : tss D := mk_tss (replicate words 0) objs ∅.

Lemma allocated_zeros n i : allocated (replicate n 0) i = false.
Proof.
  unfold k_thread_key_is_allocated. destruct (replicate n 0 !! _) as [w|] eqn:Hw; [|done].
  apply lookup_replicate in Hw as [-> _]. rewrite flag_set_pow2 by lia. apply Z.testbit_0_l.
Qed.

Lemma tss_init_ok words objs :
  length objs = KEYS_MAX -> (KEYS_MAX <= words * BITS_PER_LONG < KEYS_MAX + BITS_PER_LONG)%nat ->
  tss_ok (tss_init words objs).
Proof.
  intros Hl Hw. split; cbn; try done.
  - split; [apply Forall_replicate; unfold word_ok; lia|by rewrite length_replicate|].
    intros i. by rewrite allocated_zeros.
  - intros t a k. unfold shape, thread_list. cbn. rewrite lookup_empty. by intros ?%elem_of_nil.
  - intros i o a _. by rewrite allocated_zeros.
  - intros t. unfold shape, thread_list. cbn. rewrite lookup_empty. constructor.
  - intros t1 t2 a k1 k2. unfold shape, thread_list. cbn. rewrite lookup_empty. by intros ?%elem_of_nil.
Qed.

(** The value of a key in a thread. *)
Definition value_of (s : tss D) (t key : Z) : option Z := get_loop key (thread_list s t).

Lemma get_loop_None key l : get_loop key l = None <-> key ∉ kd_key <$> l.
Proof.
  induction l as [|d l IH]; cbn; [split; [intros _; apply not_elem_of_nil|done]|].
  rewrite not_elem_of_cons. destruct (Z.eqb_spec (kd_key d) key); [split; [done|by intros [? _]]|].
  rewrite IH. split; [split; congruence|tauto].
Qed.

Lemma shape_keys s t : snd <$> shape s t = kd_key <$> thread_list s t.
Proof. unfold shape. by rewrite <- list_fmap_compose. Qed.

Lemma value_of_None s t key : value_of s t key = None <-> forall a, (a, key) ∉ shape s t.
Proof.
  unfold value_of. rewrite get_loop_None, <- shape_keys. split.
  - intros Hn a Ha. apply Hn, list_elem_of_fmap. by exists (a, key).
  - intros Hn [[a k] [He Ha]]%list_elem_of_fmap. cbn in He. subst k. by apply (Hn a).
Qed.

(** A key that is not in use has no values, in no thread. *)
Lemma dead_key_no_value s t key : tss_ok s -> live s key = false -> value_of s t key = None.
Proof.
  intros Hs Hl. apply value_of_None. intros a Ha. apply (ok_thread _ Hs) in Ha as (i & o & Hi & -> & Hal & _).
  rewrite live_ptr in Hl by done. congruence.
Qed.

Lemma set_loop_spec key v l :
  match set_loop key v l with
  | None => get_loop key l = None
  | Some l' => get_loop key l <> None /\ (fun d => (kd_addr d, kd_key d)) <$> l' = (fun d => (kd_addr d, kd_key d)) <$> l /\
               forall k, get_loop k l' = if k =? key then Some v else get_loop k l
  end.
Proof.
  induction l as [|d l IH]; [done|]. cbn [set_loop get_loop].
  destruct (Z.eqb_spec (kd_key d) key) as [He|Hne].
  - split_and!; [done..|]. intros k. cbn. rewrite He, (Z.eqb_sym key). by destruct (k =? key).
  - destruct (set_loop key v l) as [l'|]; [|done]. destruct IH as (? & Hsh & Hg).
    split_and!; [done|cbn; by rewrite Hsh|]. intros k. cbn. rewrite Hg.
    destruct (Z.eqb_spec (kd_key d) k), (Z.eqb_spec k key); congruence || done.
Qed.

Lemma get_loop_app k l d :
  get_loop k (l ++ [d]) = match get_loop k l with Some v => Some v | None => if kd_key d =? k then Some (kd_val d) else None end.
Proof. induction l as [|x l IH]; [done|]. cbn [app get_loop]. by destruct (kd_key x =? k). Qed.

(** ** The calls, one by one *)

Lemma create_spec s d : tss_ok s ->
  match z_impl_k_thread_key_create s d with
  | (s', Err e) => s' = s /\ e = ENOMEM /\ forall i, (i < KEYS_MAX)%nat -> live s (key_ptr i) = true
  | (s', Ok k) =>
      tss_ok s' /\ (exists i, (i < KEYS_MAX)%nat /\ k = key_ptr i) /\ live s k = false /\
      (forall k', live s' k' = (k' =? k) || live s k') /\
      (forall k', dtor_of s' k' = if bool_decide (key_index k' = key_index k) then d else dtor_of s k') /\
      key_list s' = key_list s
  end.
Proof.
  intros [Hb Hp Ht Hk Hn Ha]. unfold z_impl_k_thread_key_create. pose proof (alloc_spec _ Hb) as Hal.
  destruct (k_thread_key_alloc _) as [[bm i]|];
    [|split_and!; [done..|]; intros i Hi; by rewrite live_ptr, Hal].
  destruct Hal as (Hi & Hfree & Hbm & Hall).
  assert (Hlive : forall k', live (mk_tss bm (<[i:=mk_key_obj [] d]> (pool s)) (key_list s)) k' =
                             (k' =? key_ptr i) || live s k').
  { intros k'. apply eq_true_iff_eq. rewrite orb_true_iff, Z.eqb_eq, !live_spec. cbn. split.
    - intros (j & Hj & -> & Hal). rewrite Hall, orb_true_iff, Nat.eqb_eq in Hal. destruct Hal as [->|]; [by left|right; eauto].
    - intros [->|(j & Hj & -> & Hal)]; [exists i|exists j]; (split_and!; [done..|]); rewrite Hall, orb_true_iff, Nat.eqb_eq; auto. }
  split_and!; [|eauto|by rewrite live_ptr|done| |done].
  - split; cbn; try done; [by rewrite length_insert| |].
    + intros t a k Hin. destruct (Ht t a k Hin) as (j & o & Hj & -> & Hal & Ho & Hao). exists j, o.
      split_and!; [done..|by rewrite Hall, Hal, orb_true_r| |done].
      rewrite list_lookup_insert_ne by congruence. done.
    + intros j o a Ho Hal Hao. apply list_lookup_insert_Some in Ho as [(-> & <- & _)|[Hne Ho]]; [by apply elem_of_nil in Hao|].
      rewrite Hall, orb_true_iff, Nat.eqb_eq in Hal. destruct Hal as [->|Hal]; [done|]. by eapply Hk.
  - intros k'. unfold dtor_of. cbn. rewrite Hindex by done. case_bool_decide as He.
    + by rewrite He, list_lookup_insert_eq by lia.
    + by rewrite list_lookup_insert_ne by done.
Qed.

Lemma delete_spec s key : tss_ok s -> key <> K_THREAD_KEY_ANY PW ->
  match z_impl_k_thread_key_delete s key with
  | (s', Err e) => s' = s /\ ((e = EINVAL /\ live s key = false) \/
                              (e = EBUSY /\ live s key = true /\ exists t, value_of s t key <> None))
  | (s', Ok _) =>
      tss_ok s' /\ live s key = true /\ (forall t, value_of s t key = None) /\
      (forall k', live s' k' = live s k' && negb (k' =? key)) /\
      pool s' = pool s /\ key_list s' = key_list s
  end.
Proof.
  intros Hok Hne. pose proof Hok as [Hb Hp Ht Hk Hn Ha]. unfold z_impl_k_thread_key_delete.
  rewrite (proj2 (Z.eqb_neq _ _) Hne). destruct (live s key) eqn:Hl; cbn [negb]; [|split; [done|by left]].
  apply live_spec in Hl as (i & Hi & -> & Hal). rewrite Hindex by done.
  destruct (lookup_lt_is_Some_2 (pool s) i) as [o Ho]; [lia|]. rewrite Ho.
  destruct (ko_data o) as [|a l] eqn:Hd; cbn [length Nat.eqb].
  - destruct (free_spec _ i Hb) as [Hb' Hall].
    assert (Hnone : forall t, value_of s t (key_ptr i) = None).
    { intros t. apply value_of_None. intros a Hin. apply Ht in Hin as (j & o' & Hj & He & _ & Ho' & Hao).
      assert (i = j) as <- by (by rewrite <- (Hindex i), <- (Hindex j), He by done).
      rewrite Ho in Ho'. injection Ho' as <-. rewrite Hd in Hao. by apply elem_of_nil in Hao. }
    assert (Hlive : forall k', live (key_free s i) k' = live s k' && negb (k' =? key_ptr i)).
    { intros k'. apply eq_true_iff_eq. rewrite andb_true_iff, negb_true_iff, Z.eqb_neq, !live_spec. cbn. split.
      - intros (j & Hj & -> & Hj'). rewrite Hall, andb_true_iff, negb_true_iff, Nat.eqb_neq in Hj'. destruct Hj' as [? Hji].
        split; [eauto|]. intros He. apply Hji. by rewrite <- (Hindex i), <- (Hindex j), He by done.
      - intros [(j & Hj & -> & Hj') Hji]. exists j. split_and!; [done..|].
        rewrite Hall, Hj'. apply negb_true_iff, Nat.eqb_neq. congruence. }
    split_and!; [|done..].
    split; cbn; try done.
    + intros t a k Hin. destruct (Ht t a k Hin) as (j & o' & Hj & -> & Hal' & ?). exists j, o'.
      split_and!; [done..| |tauto|tauto]. rewrite Hall, Hal'. apply negb_true_iff, Nat.eqb_neq. intros ->.
      by apply (proj1 (value_of_None s t (key_ptr i)) (Hnone t) a).
    + intros j o' a Ho' Hal'. rewrite Hall in Hal'. apply andb_true_iff in Hal' as [? _]. by apply Hk.
  - split; [done|]. right. split_and!; [done..|].
    destruct (Hk i o a) as [t Hin]; [done..|rewrite Hd; by left|]. exists t. intros Hv.
    by apply (proj1 (value_of_None s t (key_ptr i)) Hv a).
Qed.

Lemma tss_ok_shape s l :
  tss_ok s -> (forall t, shape (mk_tss (allocation_bitmap s) (pool s) l) t = shape s t) ->
  tss_ok (mk_tss (allocation_bitmap s) (pool s) l).
Proof.
  intros [Hb Hp Ht Hk Hn Ha] Hsh. split; cbn; try done; intros *; rewrite ?Hsh; eauto.
  intros Ho Hal Hin. destruct (Hk _ _ _ Ho Hal Hin) as [t ?]. exists t. by rewrite Hsh.
Qed.

Lemma thread_list_insert bm p (m : gmap Z (list key_data)) t l t' :
  thread_list (mk_tss bm p (<[t := l]> m) : tss D) t' = if t' =? t then l else default [] (m !! t').
Proof.
  unfold thread_list. cbn. destruct (Z.eqb_spec t' t) as [->|].
  - by rewrite lookup_insert_eq.
  - by rewrite lookup_insert_ne.
Qed.

Lemma set_add_ok s t i v a o :
  tss_ok s -> (i < KEYS_MAX)%nat -> allocated (allocation_bitmap s) i = true -> pool s !! i = Some o ->
  value_of s t (key_ptr i) = None -> fresh_block s a ->
  tss_ok (mk_tss (allocation_bitmap s)
    (alter (fun o => mk_key_obj (ko_data o ++ [a]) (ko_dtor o)) i (pool s))
    (<[t := thread_list s t ++ [mk_key_data a (key_ptr i) v]]> (key_list s))).
Proof.
  intros [Hb Hp Ht Hk Hn Ha] Hi Hal Ho Hv Hfresh. set (s' := mk_tss _ _ _).
  assert (Hsh : forall t', shape s' t' = if t' =? t then shape s t ++ [(a, key_ptr i)] else shape s t').
  { intros t'. unfold s', shape. rewrite thread_list_insert. destruct (Z.eqb_spec t' t); [|done]. by rewrite fmap_app. }
  assert (Hin : forall t' b k, (b, k) ∈ shape s' t' <-> (b, k) ∈ shape s t' \/ (t' = t /\ b = a /\ k = key_ptr i)).
  { intros t' b k. rewrite Hsh. destruct (Z.eqb_spec t' t) as [->|]; [|naive_solver].
    rewrite elem_of_app, list_elem_of_singleton. naive_solver. }
  assert (Hpl : forall j o', pool s' !! j = Some o' <->
            (j = i /\ o' = mk_key_obj (ko_data o ++ [a]) (ko_dtor o)) \/ (j <> i /\ pool s !! j = Some o')).
  { intros j o'. unfold s'. cbn. destruct (decide (j = i)) as [->|].
    - rewrite list_lookup_alter_eq, Ho. cbn. naive_solver.
    - rewrite list_lookup_alter_ne by done. naive_solver. }
  split; [done|unfold s'; cbn; by rewrite length_alter|..].
  - intros t' b k [Hbk|(-> & -> & ->)]%Hin.
    + destruct (Ht _ _ _ Hbk) as (j & o' & Hj & -> & Hal' & Ho' & Hbo). destruct (decide (j = i)) as [->|].
      * exists i, (mk_key_obj (ko_data o ++ [a]) (ko_dtor o)). split_and!; [done..|apply Hpl; auto|].
        cbn. rewrite Ho in Ho'. injection Ho' as <-. apply elem_of_app. by left.
      * exists j, o'. split_and!; [done..|apply Hpl; auto|done].
    + exists i, (mk_key_obj (ko_data o ++ [a]) (ko_dtor o)). split_and!; [done..|apply Hpl; auto|].
      cbn. apply elem_of_app. right. by apply list_elem_of_singleton.
  - intros j o' b Ho' Hal' Hb'. apply Hpl in Ho' as [[-> ->]|[Hne Ho']]; cbn in Hb'.
    + apply elem_of_app in Hb' as [Hb'| ->%list_elem_of_singleton].
      * destruct (Hk i o b Ho Hal Hb') as [t' ?]. exists t'. apply Hin. auto.
      * exists t. apply Hin. auto.
    + destruct (Hk j o' b Ho' Hal' Hb') as [t' ?]. exists t'. apply Hin. auto.
  - intros t'. rewrite Hsh. destruct (Z.eqb_spec t' t) as [->|]; [|done]. rewrite fmap_app. apply NoDup_app.
    split_and!; [done| |apply NoDup_singleton]. intros k Hkin ->%list_elem_of_singleton.
    apply list_elem_of_fmap in Hkin as [[b k'] [He Hbk]]. cbn in He. subst k'.
    by apply (proj1 (value_of_None s t (key_ptr i)) Hv b).
  - intros t1 t2 b k1 k2 [H1|(-> & -> & ->)]%Hin [H2|(-> & He & ->)]%Hin; subst; eauto;
      by destruct (Hfresh _ _ ltac:(eassumption)).
Qed.

Lemma set_spec s t key v mem : tss_ok s -> (forall a, mem = Some a -> fresh_block s a) ->
  match z_impl_k_thread_setspecific s t key v mem with
  | (s', Err e) => s' = s /\ ((e = EINVAL /\ live s key = false) \/
                              (e = ENOMEM /\ live s key = true /\ value_of s t key = None /\ mem = None))
  | (s', Ok _) =>
      tss_ok s' /\ live s key = true /\ (value_of s t key <> None \/ mem <> None) /\
      allocation_bitmap s' = allocation_bitmap s /\
      (forall k, dtor_of s' k = dtor_of s k) /\
      (forall t' k, value_of s' t' k = if (t' =? t) && (k =? key) then Some v else value_of s t' k)
  end.
Proof.
  intros Hok Hmem. unfold z_impl_k_thread_setspecific.
  destruct (live s key) eqn:Hl; cbn [negb]; [|split; [done|by left]].
  pose proof (set_loop_spec key v (thread_list s t)) as Hset. fold (value_of s t key) in Hset.
  destruct (set_loop key v (thread_list s t)) as [l|].
  - destruct Hset as (Hv & Hsh & Hg). split_and!; [|done|by left|done|done|].
    + apply tss_ok_shape; [done|]. intros t'. unfold shape. rewrite thread_list_insert.
      destruct (Z.eqb_spec t' t) as [->|]; [exact Hsh|done].
    + intros t' k. unfold value_of. rewrite thread_list_insert. destruct (Z.eqb_spec t' t) as [->|]; [apply Hg|done].
  - destruct mem as [a|]; [|split; [done|right; split_and!; done]].
    apply live_spec in Hl as (i & Hi & -> & Hal). rewrite Hindex by done.
    destruct (lookup_lt_is_Some_2 (pool s) i) as [o Ho]; [by rewrite (ok_pool _ Hok)|].
    split_and!; [eapply set_add_ok; eauto|done|by right|done| |].
    + intros k. unfold dtor_of. cbn. destruct (decide (key_index k = i)) as [->|].
      * rewrite list_lookup_alter_eq. by destruct (pool s !! i).
      * by rewrite list_lookup_alter_ne.
    + intros t' k. unfold value_of. rewrite thread_list_insert. destruct (Z.eqb_spec t' t) as [->|]; [|done].
      rewrite get_loop_app. cbn [andb kd_key kd_val]. rewrite (Z.eqb_sym k). destruct (Z.eqb_spec (key_ptr i) k) as [<-|].
      * fold (value_of s t (key_ptr i)). by rewrite Hset.
      * by destruct (get_loop k (thread_list s t)).
Qed.

Lemma pop_ok s t d l :
  tss_ok s -> thread_list s t = d :: l ->
  tss_ok (mk_tss (allocation_bitmap s)
    (alter (fun o => mk_key_obj (filter (fun a => a <> kd_addr d) (ko_data o)) (ko_dtor o)) (key_index (kd_key d)) (pool s))
    (<[t := l]> (key_list s))).
Proof.
  intros [Hb Hp Ht Hk Hn Ha] Hd. set (s' := mk_tss _ _ _).
  assert (Hst : shape s t = (kd_addr d, kd_key d) :: ((fun d => (kd_addr d, kd_key d)) <$> l)) by (unfold shape; by rewrite Hd).
  assert (Hd0 : (kd_addr d, kd_key d) ∈ shape s t) by (rewrite Hst; by left).
  assert (Hnd : kd_key d ∉ snd <$> ((fun d => (kd_addr d, kd_key d)) <$> l)).
  { specialize (Hn t). rewrite Hst in Hn. cbn in Hn. by apply NoDup_cons in Hn as [? _]. }
  assert (Hin : forall t' b k, (b, k) ∈ shape s' t' <-> (b, k) ∈ shape s t' /\ b <> kd_addr d).
  { intros t' b k. unfold s', shape at 1. rewrite thread_list_insert. destruct (Z.eqb_spec t' t) as [->|Hne].
    - rewrite Hst, elem_of_cons. split; [|naive_solver].
      intros Hbk. split; [by right|]. intros ->. assert (Hbk' : (kd_addr d, k) ∈ shape s t) by (rewrite Hst; by right).
      destruct (Ha _ _ _ _ _ Hbk' Hd0) as [_ ->]. apply Hnd, list_elem_of_fmap. by exists (kd_addr d, kd_key d).
    - fold (thread_list s t'). fold (shape s t'). split; [|naive_solver]. intros Hbk. split; [done|]. intros ->.
      by destruct (Ha _ _ _ _ _ Hbk Hd0) as [? _]. }
  destruct (Ht _ _ _ Hd0) as (i & o & Hi & He & Hal & Ho & Hao).
  assert (Hidx : key_index (kd_key d) = i) by (rewrite He; by apply Hindex).
  assert (Hback : forall j o' b, pool s' !! j = Some o' -> allocated (allocation_bitmap s) j = true -> b ∈ ko_data o' ->
            exists o0, pool s !! j = Some o0 /\ b ∈ ko_data o0 /\ b <> kd_addr d).
  { intros j o' b. unfold s'. cbn. rewrite Hidx. destruct (decide (j = i)) as [->|Hji].
    - rewrite list_lookup_alter_eq, Ho. intros [= <-] _ [? ?]%list_elem_of_filter. eauto.
    - rewrite list_lookup_alter_ne by done. intros Ho' Hj Hbo. exists o'. split_and!; [done..|]. intros ->.
      destruct (Hk _ _ _ Ho' Hj Hbo) as [t' Ht']. destruct (Ha _ _ _ _ _ Ht' Hd0) as [_ Hkk].
      apply Hji. rewrite <- (Hindex i), <- (Hindex j), Hkk, He by (done || by apply (bm_bits _ Hb)). done. }
  assert (Hforth : forall j o0 b, pool s !! j = Some o0 -> b ∈ ko_data o0 -> b <> kd_addr d ->
            exists o', pool s' !! j = Some o' /\ b ∈ ko_data o').
  { intros j o0 b Ho0 Hbo Hne. unfold s'. cbn. rewrite Hidx. destruct (decide (j = i)) as [->|Hji].
    - rewrite list_lookup_alter_eq, Ho0. eexists. split; [done|]. cbn. by apply list_elem_of_filter.
    - rewrite list_lookup_alter_ne by done. eauto. }
  split; [done|unfold s'; cbn; by rewrite length_alter|..].
  - intros t' b k [Hbk Hne]%Hin. destruct (Ht _ _ _ Hbk) as (j & o' & Hj & -> & Hal' & Ho' & Hbo).
    destruct (Hforth _ _ _ Ho' Hbo Hne) as (o1 & ? & ?). eauto 10.
  - intros j o' b Ho' Hal' Hbo. destruct (Hback _ _ _ Ho' Hal' Hbo) as (o0 & Ho0 & Hb0 & Hne).
    destruct (Hk _ _ _ Ho0 Hal' Hb0) as [t' ?]. exists t'. by apply Hin.
  - intros t'. unfold s', shape. rewrite thread_list_insert. destruct (Z.eqb_spec t' t) as [->|]; [|apply Hn].
    specialize (Hn t). rewrite Hst in Hn. cbn in Hn. by apply NoDup_cons in Hn as [_ ?].
  - intros t1 t2 b k1 k2 [H1 _]%Hin [H2 _]%Hin. eauto.
Qed.

Lemma pop_spec s t : tss_ok s ->
  match thread_list s t with
  | [] => k_thread_popspecific s t = (s, Err ENOENT)
  | d :: l =>
      exists s', k_thread_popspecific s t = (s', Ok (kd_key d, kd_val d, dtor_of s (kd_key d))) /\ tss_ok s' /\
        allocation_bitmap s' = allocation_bitmap s /\
        (forall t', thread_list s' t' = if t' =? t then l else thread_list s t') /\
        (forall k, dtor_of s' k = dtor_of s k)
  end.
Proof.
  intros Hok. unfold k_thread_popspecific, z_impl_k_thread_qspecific. rewrite Z.eqb_refl.
  destruct (thread_list s t) as [|d l] eqn:Hd; [done|]. eexists. split_and!; [done|by apply pop_ok|done|..].
  - intros t'. rewrite thread_list_insert. done.
  - intros k. unfold dtor_of. cbn. destruct (decide (key_index k = key_index (kd_key d))) as [->|].
    + rewrite list_lookup_alter_eq. by destruct (pool s !! _).
    + by rewrite list_lookup_alter_ne.
Qed.

Lemma get_spec s t key : tss_ok s -> key <> K_THREAD_KEY_ANY PW ->
  pthread_getspecific s t key = (s, default 0 (value_of s t key)).
Proof.
  intros Hok Hne. unfold pthread_getspecific, k_thread_getspecific, z_impl_k_thread_qspecific.
  rewrite (proj2 (Z.eqb_neq _ _) Hne). pose proof (dead_key_no_value s t key Hok) as Hdead.
  destruct (live s key); cbn [negb]; [|by rewrite Hdead].
  unfold value_of. by destruct (get_loop key (thread_list s t)).
Qed.

(** ** Exiting threads *)

(** The destructor calls due for a list of values. *)
Definition due_calls (s : tss D) (l : list key_data) : list (D * Z) :=
  omap (fun d => (fun f => (f, kd_val d)) <$> dtor_of s (kd_key d)) l.

(** A destructor that sets no value and leaves the keys in use alone. *)
Definition quiet (run : D -> Z -> tss D -> tss D) : Prop :=
  forall f v s, tss_ok s ->
    tss_ok (run f v s) /\ (forall t, thread_list (run f v s) t = thread_list s t) /\
    (forall k, live s k = true -> dtor_of (run f v s) k = dtor_of s k).

Lemma due_calls_ext s s' t :
  tss_ok s -> (forall k, live s k = true -> dtor_of s' k = dtor_of s k) ->
  forall l, l ⊆ thread_list s t -> due_calls s' l = due_calls s l.
Proof.
  intros Hok Hd. induction l as [|d l IH]; intros Hl; [done|]. unfold due_calls in *. cbn [omap list_omap].
  rewrite IH by (intros x Hx; apply Hl; by right).
  assert (Hlive : live s (kd_key d) = true).
  { destruct (ok_thread _ Hok t (kd_addr d) (kd_key d)) as (i & o & Hi & -> & Ha & _); [|by rewrite live_ptr].
    unfold shape. apply list_elem_of_fmap. exists d. split; [done|]. apply Hl. by left. }
  by rewrite Hd.
Qed.

Lemma exit_loop_spec run : quiet run -> forall fuel s t calls,
  tss_ok s -> (length (thread_list s t) < fuel)%nat ->
  exists s', exit_loop run fuel s t calls = Some (s', calls ++ due_calls s (thread_list s t)) /\ tss_ok s' /\
    forall t', thread_list s' t' = if t' =? t then [] else thread_list s t'.
Proof.
  intros Hq. induction fuel as [|fuel IH]; intros s t calls Hok Hf; [lia|]. cbn [exit_loop].
  pose proof (pop_spec s t Hok) as Hpop. destruct (thread_list s t) as [|d l] eqn:Hl.
  - rewrite Hpop. exists s. rewrite app_nil_r. split_and!; [done..|]. intros t'. by destruct (Z.eqb_spec t' t) as [->|].
  - destruct Hpop as (s1 & -> & Hok1 & Hbm & Htl & Hdt). cbn [length] in Hf.
    assert (Hlive : forall k, live s1 k = live s k) by (intros k; unfold k_thread_key_is_valid; by rewrite Hbm).
    assert (Hnext : forall s2 calls', tss_ok s2 -> (forall t', thread_list s2 t' = thread_list s1 t') ->
      (forall k, live s1 k = true -> dtor_of s2 k = dtor_of s1 k) ->
      exists s', exit_loop run fuel s2 t calls' = Some (s', calls' ++ due_calls s l) /\ tss_ok s' /\
        forall t', thread_list s' t' = if t' =? t then [] else thread_list s t').
    { intros s2 calls' Hok2 Htl2 Hdt2. destruct (IH s2 t calls' Hok2) as (s' & He & Hok' & Htl').
      - rewrite Htl2, Htl, Z.eqb_refl. lia.
      - exists s'. split_and!; [|done|].
        + rewrite He, Htl2, Htl, Z.eqb_refl. do 3 f_equal.
          apply (due_calls_ext s s2 t Hok); [|rewrite Hl; set_solver].
          intros k Hk. rewrite Hdt2 by (by rewrite Hlive). apply Hdt.
        + intros t'. rewrite Htl', Htl2, Htl. by destruct (t' =? t). }
    unfold due_calls. cbn [omap list_omap]. destruct (dtor_of s (kd_key d)) as [f|]; cbn [fmap option_fmap option_map].
    + destruct (Hq f (kd_val d) s1 Hok1) as (Hok2 & Htl2 & Hdt2).
      destruct (Hnext _ (calls ++ [(f, kd_val d)]) Hok2 Htl2 Hdt2) as (s' & -> & H). exists s'. split; [|done].
      by rewrite <- app_assoc.
    + destruct (Hnext s1 calls Hok1) as (s' & -> & H); [done..|]. exists s'. done.
Qed.

(** ** What the calls promise *)

(** Keys with their destructors, and values. *)
Record spec := mk_spec { sp_keys : gmap Z (option D); sp_vals : gmap (Z * Z) Z }.

Inductive call :=
| CCreate (d : option D)
| CDelete (key : Z)
| CSet (t key v : Z) (mem : option Z)
| CGet (t key : Z).

Inductive reply :=
| RKey (r : res Z)
| RUnit (r : res unit)
| RVal (v : Z).

Inductive spec_step : spec -> call -> reply -> spec -> Prop :=
| spec_create a d k : sp_keys a !! k = None -> (forall t, sp_vals a !! (t, k) = None) ->
    spec_step a (CCreate d) (RKey (Ok k)) (mk_spec (<[k := d]> (sp_keys a)) (sp_vals a))
| spec_create_full a d : size (sp_keys a) = KEYS_MAX -> spec_step a (CCreate d) (RKey (Err ENOMEM)) a
| spec_delete a k d : sp_keys a !! k = Some d -> (forall t, sp_vals a !! (t, k) = None) ->
    spec_step a (CDelete k) (RUnit (Ok tt)) (mk_spec (delete k (sp_keys a)) (sp_vals a))
| spec_delete_busy a k d t : sp_keys a !! k = Some d -> sp_vals a !! (t, k) <> None ->
    spec_step a (CDelete k) (RUnit (Err EBUSY)) a
| spec_delete_invalid a k : sp_keys a !! k = None -> spec_step a (CDelete k) (RUnit (Err EINVAL)) a
| spec_set a t k v mem d : sp_keys a !! k = Some d -> sp_vals a !! (t, k) <> None \/ mem <> None ->
    spec_step a (CSet t k v mem) (RUnit (Ok tt)) (mk_spec (sp_keys a) (<[(t, k) := v]> (sp_vals a)))
| spec_set_nomem a t k v d : sp_keys a !! k = Some d -> sp_vals a !! (t, k) = None ->
    spec_step a (CSet t k v None) (RUnit (Err ENOMEM)) a
| spec_set_invalid a t k v mem : sp_keys a !! k = None -> spec_step a (CSet t k v mem) (RUnit (Err EINVAL)) a
| spec_get a t k : spec_step a (CGet t k) (RVal (default 0 (sp_vals a !! (t, k)))) a.

Definition exec_call (s : tss D) (c : call) : tss D * reply :=
  match c with
  | CCreate d => let '(s', r) := pthread_key_create s d in (s', RKey r)
  | CDelete k => let '(s', r) := pthread_key_delete s k in (s', RUnit r)
  | CSet t k v mem => let '(s', r) := pthread_setspecific s t k v mem in (s', RUnit r)
  | CGet t k => let '(s', v) := pthread_getspecific s t k in (s', RVal v)
  end.

(** k_malloc returns a block that is not in use; no caller names the
    kernel's wildcard. *)
Definition call_ok (s : tss D) (c : call) : Prop :=
  match c with
  | CCreate _ => True
  | CDelete k | CGet _ k => k <> K_THREAD_KEY_ANY PW
  | CSet _ _ _ mem => forall a, mem = Some a -> fresh_block s a
  end.

Record represents (s : tss D) (a : spec) : Prop := {
  rep_keys : forall k, sp_keys a !! k = if live s k then Some (dtor_of s k) else None;
  rep_vals : forall t k, sp_vals a !! (t, k) = value_of s t k;
}.

(** Addresses of the pool fit in pthread_key_t. *)
Context (Hwidth : forall i, (i < KEYS_MAX)%nat -> uwrap KW (key_ptr i) = key_ptr i).

Lemma full_size s a : represents s a -> (forall i, (i < KEYS_MAX)%nat -> live s (key_ptr i) = true) ->
  size (sp_keys a) = KEYS_MAX.
Proof.
  intros [Hk _] Hall. rewrite <- size_dom.
  assert (dom (sp_keys a) = list_to_set (key_ptr <$> seq 0 KEYS_MAX)) as ->.
  { apply set_eq. intros k. rewrite elem_of_dom, Hk, elem_of_list_to_set, list_elem_of_fmap.
    setoid_rewrite elem_of_seq. split.
    - destruct (live s k) eqn:Hl; [intros _|by intros [? ?]]. apply live_spec in Hl as (i & ? & -> & _). exists i. split; [done|lia].
    - intros (i & -> & Hi). rewrite Hall by lia. eauto. }
  rewrite size_list_to_set; [by rewrite length_fmap, length_seq|].
  apply NoDup_fmap_2_strong; [|apply NoDup_seq]. intros x y Hx Hy He. rewrite elem_of_seq in Hx, Hy.
  by rewrite <- (Hindex x), <- (Hindex y), He by lia.
Qed.

Lemma rep_dead s a k : represents s a -> live s k = false -> sp_keys a !! k = None.
Proof. intros [Hk _] Hl. by rewrite Hk, Hl. Qed.

Lemma rep_live s a k : represents s a -> live s k = true -> sp_keys a !! k = Some (dtor_of s k).
Proof. intros [Hk _] Hl. by rewrite Hk, Hl. Qed.

Lemma sim_create s a d : tss_ok s -> represents s a ->
  let '(s', r) := exec_call s (CCreate d) in tss_ok s' /\ exists a', spec_step a (CCreate d) r a' /\ represents s' a'.
Proof.
  intros Hok Hrep. cbn [exec_call]. unfold pthread_key_create. pose proof (create_spec s d Hok) as H.
  destruct (z_impl_k_thread_key_create s d) as [s' [k|e]].
  - destruct H as (Hok' & (i & Hi & ->) & Hdead & Hlive & Hd & Hkl). rewrite Hwidth by done. split; [done|].
    eexists. split; [apply spec_create; [by eapply rep_dead|]|].
    + intros t. rewrite (rep_vals _ _ Hrep). by apply dead_key_no_value.
    + split; cbn; [|intros t k; rewrite (rep_vals _ _ Hrep); unfold value_of, thread_list; by rewrite Hkl].
      intros k. rewrite Hlive, Hd. destruct (Z.eqb_spec k (key_ptr i)) as [->|Hne]; cbn [orb].
      * rewrite lookup_insert_eq. by rewrite bool_decide_true.
      * rewrite lookup_insert_ne, (rep_keys _ _ Hrep) by done. destruct (live s k) eqn:Hl; [|done].
        apply live_spec in Hl as (j & Hj & -> & _). rewrite bool_decide_false; [done|]. rewrite !Hindex by done. congruence.
  - destruct H as (-> & -> & Hall). split; [done|]. exists a. split; [|done]. apply spec_create_full. by eapply full_size.
Qed.

Lemma sim_delete s a k : tss_ok s -> represents s a -> call_ok s (CDelete k) ->
  let '(s', r) := exec_call s (CDelete k) in tss_ok s' /\ exists a', spec_step a (CDelete k) r a' /\ represents s' a'.
Proof.
  intros Hok Hrep Hne. cbn [exec_call call_ok] in *. unfold pthread_key_delete. pose proof (delete_spec s k Hok Hne) as H.
  destruct (z_impl_k_thread_key_delete s k) as [s' [[]|e]].
  - destruct H as (Hok' & Hl & Hv & Hlive & Hp & Hkl). split; [done|].
    eexists. split; [eapply spec_delete; [by eapply rep_live|]|].
    + intros t. by rewrite (rep_vals _ _ Hrep).
    + split; cbn; [|intros t k'; rewrite (rep_vals _ _ Hrep); unfold value_of, thread_list; by rewrite Hkl].
      intros k'. rewrite Hlive. unfold dtor_of. rewrite Hp. destruct (Z.eqb_spec k' k) as [->|].
      * by rewrite lookup_delete_eq, andb_false_r.
      * by rewrite lookup_delete_ne, (rep_keys _ _ Hrep), andb_true_r by done.
  - destruct H as (-> & [[-> Hl]|(-> & Hl & t & Hv)]); (split; [done|exists a; split; [|done]]).
    + apply spec_delete_invalid. by eapply rep_dead.
    + eapply (spec_delete_busy a k _ t); [by eapply rep_live|]. by rewrite (rep_vals _ _ Hrep).
Qed.

Lemma sim_set s a t k v mem : tss_ok s -> represents s a -> call_ok s (CSet t k v mem) ->
  let '(s', r) := exec_call s (CSet t k v mem) in
  tss_ok s' /\ exists a', spec_step a (CSet t k v mem) r a' /\ represents s' a'.
Proof.
  intros Hok Hrep Hmem. cbn [exec_call call_ok] in *. unfold pthread_setspecific.
  pose proof (set_spec s t k v mem Hok Hmem) as H.
  destruct (z_impl_k_thread_setspecific s t k v mem) as [s' [[]|e]].
  - destruct H as (Hok' & Hl & Hc & Hbm & Hd & Hval). split; [done|].
    eexists. split; [eapply spec_set; [by eapply rep_live|by rewrite (rep_vals _ _ Hrep)]|].
    split; cbn.
    + intros k'. rewrite (rep_keys _ _ Hrep), Hd. unfold k_thread_key_is_valid. by rewrite Hbm.
    + intros t' k'. rewrite Hval. destruct (Z.eqb_spec t' t) as [->|], (Z.eqb_spec k' k) as [->|]; cbn [andb].
      * by rewrite lookup_insert_eq.
      * by rewrite lookup_insert_ne, (rep_vals _ _ Hrep) by congruence.
      * by rewrite lookup_insert_ne, (rep_vals _ _ Hrep) by congruence.
      * by rewrite lookup_insert_ne, (rep_vals _ _ Hrep) by congruence.
  - destruct H as (-> & [[-> Hl]|(-> & Hl & Hv & ->)]); (split; [done|exists a; split; [|done]]).
    + apply spec_set_invalid. by eapply rep_dead.
    + eapply spec_set_nomem; [by eapply rep_live|]. by rewrite (rep_vals _ _ Hrep).
Qed.

Lemma sim_call s a c : tss_ok s -> represents s a -> call_ok s c ->
  let '(s', r) := exec_call s c in tss_ok s' /\ exists a', spec_step a c r a' /\ represents s' a'.
Proof.
  intros Hok Hrep Hc. destruct c; [by apply sim_create|by apply sim_delete|by apply sim_set|].
  cbn [exec_call call_ok] in *. rewrite get_spec by done. split; [done|]. exists a. split; [|done].
  rewrite <- (rep_vals _ _ Hrep). constructor.
Qed.

(** A run of calls with their replies. *)
Inductive tss_run : tss D -> list (call * reply) -> tss D -> Prop :=
| run_nil s : tss_run s [] s
| run_cons s c s' r l s'' : call_ok s c -> exec_call s c = (s', r) -> tss_run s' l s'' -> tss_run s ((c, r) :: l) s''.

Inductive spec_run : spec -> list (call * reply) -> spec -> Prop :=
| srun_nil a : spec_run a [] a
| srun_cons a c r a' l a'' : spec_step a c r a' -> spec_run a' l a'' -> spec_run a ((c, r) :: l) a''.

Lemma run_refines s l s' : tss_run s l s' -> forall a, tss_ok s -> represents s a ->
  tss_ok s' /\ exists a', spec_run a l a' /\ represents s' a'.
Proof.
  induction 1 as [|s c s' r l s'' Hc He _ IH]; intros a Hok Hrep; [split; [done|]; exists a; split; [constructor|done]|].
  pose proof (sim_call s a c Hok Hrep Hc) as Hsim. rewrite He in Hsim. destruct Hsim as (Hok' & a' & Hst & Hrep').
  destruct (IH a' Hok' Hrep') as (? & a'' & ? & ?). split; [done|]. exists a''. split; [by econstructor|done].
Qed.

(** ** Failures *)

Lemma create_error s d e : tss_ok s ->
  snd (pthread_key_create s d) = Err e <-> e = ENOMEM /\ forall i, (i < KEYS_MAX)%nat -> live s (key_ptr i) = true.
Proof.
  intros Hok. unfold pthread_key_create. pose proof (create_spec s d Hok) as Hc.
  destruct (z_impl_k_thread_key_create s d) as [s' [k|e']]; cbn.
  - split; [done|]. intros [_ Hall]. destruct Hc as (_ & (i & Hin & ->) & Hdead & _). by rewrite Hall in Hdead.
  - destruct Hc as (_ & -> & Hall). split; [by intros [= <-]|by intros [-> _]].
Qed.

Lemma delete_error s k e : tss_ok s -> k <> K_THREAD_KEY_ANY PW ->
  snd (pthread_key_delete s k) = Err e <->
  (e = EINVAL /\ live s k = false) \/ (e = EBUSY /\ live s k = true /\ exists t, value_of s t k <> None).
Proof.
  intros Hok Hk. unfold pthread_key_delete. pose proof (delete_spec s k Hok Hk) as Hd.
  destruct (z_impl_k_thread_key_delete s k) as [s' [[]|e']]; cbn.
  - split; [done|]. destruct Hd as (_ & -> & Hv & _). intros [[_ ?]|(_ & _ & t & Ht)]; [done|by rewrite Hv in Ht].
  - destruct Hd as [_ Hd]. split; [by intros [= <-]|]. intros H. f_equal.
    destruct Hd as [[-> Hd]|(-> & Hd & _)], H as [[-> H]|(-> & H & _)]; congruence.
Qed.

Lemma set_error s t k v mem e : tss_ok s -> (forall a, mem = Some a -> fresh_block s a) ->
  snd (pthread_setspecific s t k v mem) = Err e <->
  (e = EINVAL /\ live s k = false) \/ (e = ENOMEM /\ live s k = true /\ value_of s t k = None /\ mem = None).
Proof.
  intros Hok Hm. unfold pthread_setspecific. pose proof (set_spec s t k v mem Hok Hm) as Hs.
  destruct (z_impl_k_thread_setspecific s t k v mem) as [s' [[]|e']]; cbn.
  - split; [done|]. destruct Hs as (_ & -> & Hv & _). intros [[_ ?]|(_ & _ & ? & ?)]; [done|]. destruct Hv; congruence.
  - destruct Hs as [_ Hs]. split; [by intros [= <-]|]. intros H. f_equal.
    destruct Hs as [[-> Hs]|(-> & Hs & _)], H as [[-> H]|(-> & H & _)]; congruence.
Qed.

Lemma failure_unchanged s c s' r e : tss_ok s -> call_ok s c -> exec_call s c = (s', r) ->
  r = RKey (Err e) \/ r = RUnit (Err e) -> s' = s.
Proof.
  intros Hok Hcok Hex Hr. destruct c as [d|k|t k v mem|t k]; cbn in Hex, Hcok.
  - unfold pthread_key_create in Hex. pose proof (create_spec s d Hok) as Hc.
    destruct (z_impl_k_thread_key_create s d) as [s1 [k|e']]; simplify_eq; [naive_solver|]. by destruct Hc as [-> _].
  - unfold pthread_key_delete in Hex. pose proof (delete_spec s k Hok Hcok) as Hc.
    destruct (z_impl_k_thread_key_delete s k) as [s1 [[]|e']]; simplify_eq; [naive_solver|]. by destruct Hc as [-> _].
  - unfold pthread_setspecific in Hex. pose proof (set_spec s t k v mem Hok Hcok) as Hc.
    destruct (z_impl_k_thread_setspecific s t k v mem) as [s1 [[]|e']]; simplify_eq; [naive_solver|]. by destruct Hc as [-> _].
  - destruct (pthread_getspecific s t k) in Hex. simplify_eq. naive_solver.
Qed.
End Tss.

(** ** The properties *)

(** The pool of keys in memory: its objects have distinct addresses, none is
    the wildcard, all fit in pthread_key_t, and IS_ARRAY_ELEMENT and the
    pointer difference [key_index] tell them. *)
Record pool_layout (KEYS_MAX : nat) (KW PW : Z) (key_ptr : nat -> Z) (key_index : Z -> nat)
    (IS_ARRAY_ELEMENT : Z -> bool) : Prop := {
  lay_index : forall i, (i < KEYS_MAX)%nat -> key_index (key_ptr i) = i;
  lay_elem : forall key, IS_ARRAY_ELEMENT key = true <-> exists i, (i < KEYS_MAX)%nat /\ key = key_ptr i;
  lay_any : forall i, (i < KEYS_MAX)%nat -> key_ptr i <> K_THREAD_KEY_ANY PW;
  lay_width : forall i, (i < KEYS_MAX)%nat -> uwrap KW (key_ptr i) = key_ptr i;
}.

(** A word count that is DIV_ROUND_UP(KEYS_MAX, BITS_PER_LONG). *)
Definition words_for (BITS_PER_LONG KEYS_MAX words : nat) : Prop :=
  (KEYS_MAX <= words * BITS_PER_LONG < KEYS_MAX + BITS_PER_LONG)%nat.

Lemma reachable_ok {D} BPL N KW PW key_ptr key_index IS_ARRAY_ELEMENT words (objs : list (key_obj D)) l s :
  (0 < BPL)%nat -> pool_layout N KW PW key_ptr key_index IS_ARRAY_ELEMENT ->
  length objs = N -> words_for BPL N words ->
  tss_run BPL N KW PW key_ptr key_index IS_ARRAY_ELEMENT (tss_init words objs) l s ->
  tss_ok BPL N key_ptr s /\
  exists a, spec_run N (mk_spec ∅ ∅) l a /\ represents BPL key_index IS_ARRAY_ELEMENT s a.
Proof.
  intros HB [Hi He Ha Hw] Hl Hwd Hrun. eapply run_refines in Hrun as (Hok & a & Hsr & Hrep); [by eauto|done..| |].
  - by apply tss_init_ok.
  - split; cbn.
    + intros k. rewrite lookup_empty. unfold k_thread_key_is_valid. cbn. by rewrite allocated_zeros, andb_false_r.
    + intros t k. unfold value_of, thread_list. cbn. by rewrite !lookup_empty.
Qed.


(** Three keys at 16-byte objects from address 4096, in two words of two bits. *)
Definition wit_ptr (i : nat) : Z := 4096 + 16 * Z.of_nat i.
Definition wit_index (k : Z) : nat := Z.to_nat ((k - 4096) / 16).
Definition wit_elem (k : Z) : bool := (k =? 4096) || (k =? 4112) || (k =? 4128).
Definition wit_objs : list (key_obj Z) := replicate 3 (mk_key_obj [] None).
Definition wit_exec := exec_call (D := Z) 2 3 32 32 wit_ptr wit_index wit_elem.
Definition wit_calls : list call :=
  [CCreate (Some 9); CCreate None; CCreate None; CCreate None; CSet 1 4112 55 (Some 77); CGet 1 4112; CDelete 4112].

(** The replies, and the storage after the calls. *)
Fixpoint wit_go (s : tss Z) (cs : list call) : list (call * reply) * tss Z :=
  match cs with
  | [] => ([], s)
  | c :: cs' => let '(s', r) := wit_exec s c in let '(l, s'') := wit_go s' cs' in ((c, r) :: l, s'')
  end.

Lemma wit_layout : pool_layout 3 32 32 wit_ptr wit_index wit_elem.
Proof.
  assert (Hcase : forall i, (i < 3)%nat -> i = 0%nat \/ i = 1%nat \/ i = 2%nat) by lia.
  split.
  - intros i [-> |[-> | ->]]%Hcase; reflexivity.
  - intros k. unfold wit_elem, wit_ptr. rewrite !orb_true_iff, !Z.eqb_eq. split.
    + intros [[-> | ->]| ->]; [exists 0%nat|exists 1%nat|exists 2%nat]; lia.
    + intros (i & Hi & ->). lia.
  - intros i [-> |[-> | ->]]%Hcase; vm_compute; lia.
  - intros i [-> |[-> | ->]]%Hcase; reflexivity.
Qed.

Fixpoint wit_ok (s : tss Z) (cs : list call) : Prop :=
  match cs with
  | [] => True
  | c :: cs' => call_ok 32 s c /\ wit_ok (fst (wit_exec s c)) cs'
  end.

Lemma wit_go_run cs : forall s, wit_ok s cs ->
  tss_run 2 3 32 32 wit_ptr wit_index wit_elem s (fst (wit_go s cs)) (snd (wit_go s cs)).
Proof.
  induction cs as [|c cs IH]; intros s Hok; cbn [wit_go]; [apply run_nil|]. cbn [wit_ok] in Hok. destruct Hok as [Hc Hok].
  specialize (IH _ Hok). destruct (wit_exec s c) as [s' r] eqn:He. cbn [fst] in IH.
  destruct (wit_go s' cs) as [l s'']. eapply run_cons; [exact Hc|exact He|exact IH].
Qed.

Lemma fresh_empty (s : tss Z) a : key_list s = ∅ -> fresh_block s a.
Proof. intros He t k. unfold shape, thread_list. rewrite He, lookup_empty. apply not_elem_of_nil. Qed.

Lemma wit_run :
  tss_run 2 3 32 32 wit_ptr wit_index wit_elem (tss_init 2 wit_objs)
    (fst (wit_go (tss_init 2 wit_objs) wit_calls)) (snd (wit_go (tss_init 2 wit_objs) wit_calls)).
Proof.
  apply wit_go_run. cbn [wit_ok wit_calls call_ok]. split_and!; try done.
  intros a _. apply fresh_empty. vm_compute. reflexivity.
Qed.




(** C35: An exiting thread destroys its values.  After any run from the empty
    storage, provided that the destructors set no values and leave the keys in
    use alone: the loop ends within one more round than the thread has values,
    having called the destructor of every key that has one, once, in the order
    the values were first set, with the thread's value (also when that is
    NULL); the thread has no value left, so that it does not keep a key from
    being deleted, and other threads keep theirs. *)
Theorem exit_runs_destructors {D} BPL N KW PW key_ptr key_index IS_ARRAY_ELEMENT words (objs : list (key_obj D))
    l s run t fuel :
  (0 < BPL)%nat -> pool_layout N KW PW key_ptr key_index IS_ARRAY_ELEMENT ->
  length objs = N -> words_for BPL N words ->
  tss_run BPL N KW PW key_ptr key_index IS_ARRAY_ELEMENT (tss_init words objs) l s ->
  quiet BPL N key_ptr key_index IS_ARRAY_ELEMENT run ->
  (length (thread_list s t) < fuel)%nat ->
  exists s', exit_loop BPL PW key_index IS_ARRAY_ELEMENT run fuel s t [] =
      Some (s', omap (fun d => (fun f => (f, kd_val d)) <$> dtor_of key_index s (kd_key d)) (thread_list s t)) /\
    tss_ok BPL N key_ptr s' /\ (forall k, value_of s' t k = None) /\
    (forall t' k, t' <> t -> value_of s' t' k = value_of s t' k).
Proof.
  intros HB Hlay Hl Hw Hrun Hq Hf. eapply reachable_ok in Hrun as [Hok _]; [|done..]. destruct Hlay as [Hi He Ha Hwd].
  destruct (exit_loop_spec BPL N PW key_ptr key_index IS_ARRAY_ELEMENT HB Hi He Ha run Hq fuel s t [] Hok Hf)
    as (s' & Hex & Hok' & Htl).
  exists s'. split_and!; [exact Hex|done|..].
  - intros k. unfold value_of. by rewrite Htl, Z.eqb_refl.
  - intros t' k Hne. unfold value_of. by rewrite Htl, (proj2 (Z.eqb_neq _ _) Hne).
Qed.

Lemma exit_runs_destructors_witness :
  exists s', exit_loop 2 32 wit_index wit_elem (fun _ _ s => s) 2
    (snd (wit_go (tss_init 2 wit_objs) (take 4 wit_calls ++ [CSet 1 4096 55 (Some 77)]))) 1 [] =
    Some (s', [(9, 55)]) /\ value_of s' 1 4096 = None.
Proof.
  pose proof (wit_go_run (take 4 wit_calls ++ [CSet 1 4096 55 (Some 77)]) (tss_init 2 wit_objs)) as Hrun.
  assert (Hok : wit_ok (tss_init 2 wit_objs) (take 4 wit_calls ++ [CSet 1 4096 55 (Some 77)])).
  { cbn [wit_ok wit_calls call_ok take app]. split_and!; try done. intros a _. apply fresh_empty. vm_compute. reflexivity. }
  destruct (exit_runs_destructors 2 3 32 32 wit_ptr wit_index wit_elem 2 wit_objs _ _ (fun _ _ s => s) 1 2 ltac:(lia) wit_layout eq_refl
              ltac:(unfold words_for; lia) (Hrun Hok)) as (s' & He & _ & Hv & _); [by intros ? ? ? ?|by vm_compute; lia|].
  exists s'. split; [exact He|apply Hv].
Defined.
