(* ===== verification/Options.v ===== *)
(** * Options and limits (posix_features.h, posix_limits.h, sys/sysconf.h, single_process/sysconf.c)

    The option macros the configuration defines, and sysconf twice over: the
    function of sysconf.c and the macros of sys/sysconf.h, of which the
    configuration chooses one.  The configuration is a pair of functions from
    the names of options to whether they are set and to their numbers. *)

From stdpp Require Import base list strings.
From Stdlib Require Import ZArith Lia.
From S2P Require Import Prelude.

Local Open Scope Z_scope.


(** ** Limits *)

Definition _POSIX_RE_DUP_MAX : Z := 255.
Definition _POSIX_SS_REPL_MAX : Z := 4.
Definition _POSIX_TRACE_NAME_MAX : Z := 8.
Definition _POSIX_TRACE_SYS_MAX : Z := 8.
Definition _POSIX_TRACE_USER_EVENT_MAX : Z := 32.
Definition _POSIX_AIO_LISTIO_MAX : Z := 2.
Definition _POSIX_AIO_MAX : Z := 1.
Definition _POSIX_ARG_MAX : Z := 4096.
Definition _POSIX_CHILD_MAX : Z := 25.
Definition _POSIX_LOGIN_NAME_MAX : Z := 9.
Definition _POSIX_NGROUPS_MAX : Z := 8.
Definition _POSIX_MQ_PRIO_MAX : Z := 32.
Definition _POSIX_THREAD_DESTRUCTOR_ITERATIONS : Z := 4.
Definition _POSIX_SIGQUEUE_MAX : Z := 32.
Definition _POSIX_STREAM_MAX : Z := 8.
Definition _POSIX_SYMLOOP_MAX : Z := 8.
Definition _POSIX_TTY_NAME_MAX : Z := 9.
Definition _POSIX_TZNAME_MAX : Z := 6.
Definition _POSIX2_BC_BASE_MAX : Z := 99.
Definition _POSIX2_BC_DIM_MAX : Z := 2048.
Definition _POSIX2_BC_SCALE_MAX : Z := 99.
Definition _POSIX2_BC_STRING_MAX : Z := 1000.
Definition _POSIX2_COLL_WEIGHTS_MAX : Z := 2.
Definition _POSIX2_EXPR_NEST_MAX : Z := 32.

(** ** Names *)

(** The enumeration of sys/sysconf.h, in its order. *)
Inductive sc_name :=
| SC_ADVISORY_INFO | SC_ASYNCHRONOUS_IO | SC_BARRIERS | SC_CLOCK_SELECTION | SC_CPUTIME | SC_FSYNC | SC_IPV6
| SC_JOB_CONTROL | SC_MAPPED_FILES | SC_MEMLOCK | SC_MEMLOCK_RANGE | SC_MEMORY_PROTECTION | SC_MESSAGE_PASSING
| SC_MONOTONIC_CLOCK | SC_PRIORITIZED_IO | SC_PRIORITY_SCHEDULING | SC_RAW_SOCKETS | SC_RE_DUP_MAX
| SC_READER_WRITER_LOCKS | SC_REALTIME_SIGNALS | SC_REGEXP | SC_SAVED_IDS | SC_SEMAPHORES
| SC_SHARED_MEMORY_OBJECTS | SC_SHELL | SC_SPAWN | SC_SPIN_LOCKS | SC_SPORADIC_SERVER | SC_SS_REPL_MAX
| SC_SYNCHRONIZED_IO | SC_THREAD_ATTR_STACKADDR | SC_THREAD_ATTR_STACKSIZE | SC_THREAD_CPUTIME
| SC_THREAD_PRIO_INHERIT | SC_THREAD_PRIO_PROTECT | SC_THREAD_PRIORITY_SCHEDULING | SC_THREAD_PROCESS_SHARED
| SC_THREAD_ROBUST_PRIO_INHERIT | SC_THREAD_ROBUST_PRIO_PROTECT | SC_THREAD_SAFE_FUNCTIONS
| SC_THREAD_SPORADIC_SERVER | SC_THREADS | SC_TIMEOUTS | SC_TIMERS | SC_TRACE | SC_TRACE_EVENT_FILTER
| SC_TRACE_EVENT_NAME_MAX | SC_TRACE_INHERIT | SC_TRACE_LOG | SC_TRACE_NAME_MAX | SC_TRACE_SYS_MAX
| SC_TRACE_USER_EVENT_MAX | SC_TYPED_MEMORY_OBJECTS | SC_VERSION | SC_V7_ILP32_OFF32 | SC_V7_ILP32_OFFBIG
| SC_V7_LP64_OFF64 | SC_V7_LPBIG_OFFBIG | SC_V6_ILP32_OFF32 | SC_V6_ILP32_OFFBIG | SC_V6_LP64_OFF64
| SC_V6_LPBIG_OFFBIG | SC_BC_BASE_MAX | SC_BC_DIM_MAX | SC_BC_SCALE_MAX | SC_BC_STRING_MAX | SC_2_C_BIND
| SC_2_C_DEV | SC_2_CHAR_TERM | SC_COLL_WEIGHTS_MAX | SC_DELAYTIMER_MAX | SC_EXPR_NEST_MAX | SC_2_FORT_DEV
| SC_2_FORT_RUN | SC_LINE_MAX | SC_2_LOCALEDEF | SC_2_PBS | SC_2_PBS_ACCOUNTING | SC_2_PBS_CHECKPOINT
| SC_2_PBS_LOCATE | SC_2_PBS_MESSAGE | SC_2_PBS_TRACK | SC_2_SW_DEV | SC_2_UPE | SC_2_VERSION | SC_XOPEN_CRYPT
| SC_XOPEN_ENH_I18N | SC_XOPEN_REALTIME | SC_XOPEN_REALTIME_THREADS | SC_XOPEN_SHM | SC_XOPEN_STREAMS
| SC_XOPEN_UNIX | SC_XOPEN_UUCP | SC_XOPEN_VERSION | SC_CLK_TCK | SC_GETGR_R_SIZE_MAX | SC_GETPW_R_SIZE_MAX
| SC_AIO_LISTIO_MAX | SC_AIO_MAX | SC_AIO_PRIO_DELTA_MAX | SC_ARG_MAX | SC_ATEXIT_MAX | SC_CHILD_MAX
| SC_HOST_NAME_MAX | SC_IOV_MAX | SC_LOGIN_NAME_MAX | SC_NGROUPS_MAX | SC_MQ_OPEN_MAX | SC_MQ_PRIO_MAX
| SC_OPEN_MAX | SC_PAGE_SIZE | SC_PAGESIZE | SC_THREAD_DESTRUCTOR_ITERATIONS | SC_THREAD_KEYS_MAX
| SC_THREAD_STACK_MIN | SC_THREAD_THREADS_MAX | SC_RTSIG_MAX | SC_SEM_NSEMS_MAX | SC_SEM_VALUE_MAX
| SC_SIGQUEUE_MAX | SC_STREAM_MAX | SC_SYMLOOP_MAX | SC_TIMER_MAX | SC_TTY_NAME_MAX | SC_TZNAME_MAX.

(** The numbers of the names: the enumerators count from 0. *)
Definition sc_names : list sc_name :=
  [SC_ADVISORY_INFO; SC_ASYNCHRONOUS_IO; SC_BARRIERS; SC_CLOCK_SELECTION; SC_CPUTIME; SC_FSYNC; SC_IPV6;
   SC_JOB_CONTROL; SC_MAPPED_FILES; SC_MEMLOCK; SC_MEMLOCK_RANGE; SC_MEMORY_PROTECTION; SC_MESSAGE_PASSING;
   SC_MONOTONIC_CLOCK; SC_PRIORITIZED_IO; SC_PRIORITY_SCHEDULING; SC_RAW_SOCKETS; SC_RE_DUP_MAX;
   SC_READER_WRITER_LOCKS; SC_REALTIME_SIGNALS; SC_REGEXP; SC_SAVED_IDS; SC_SEMAPHORES;
   SC_SHARED_MEMORY_OBJECTS; SC_SHELL; SC_SPAWN; SC_SPIN_LOCKS; SC_SPORADIC_SERVER; SC_SS_REPL_MAX;
   SC_SYNCHRONIZED_IO; SC_THREAD_ATTR_STACKADDR; SC_THREAD_ATTR_STACKSIZE; SC_THREAD_CPUTIME;
   SC_THREAD_PRIO_INHERIT; SC_THREAD_PRIO_PROTECT; SC_THREAD_PRIORITY_SCHEDULING; SC_THREAD_PROCESS_SHARED;
   SC_THREAD_ROBUST_PRIO_INHERIT; SC_THREAD_ROBUST_PRIO_PROTECT; SC_THREAD_SAFE_FUNCTIONS;
   SC_THREAD_SPORADIC_SERVER; SC_THREADS; SC_TIMEOUTS; SC_TIMERS; SC_TRACE; SC_TRACE_EVENT_FILTER;
   SC_TRACE_EVENT_NAME_MAX; SC_TRACE_INHERIT; SC_TRACE_LOG; SC_TRACE_NAME_MAX; SC_TRACE_SYS_MAX;
   SC_TRACE_USER_EVENT_MAX; SC_TYPED_MEMORY_OBJECTS; SC_VERSION; SC_V7_ILP32_OFF32; SC_V7_ILP32_OFFBIG;
   SC_V7_LP64_OFF64; SC_V7_LPBIG_OFFBIG; SC_V6_ILP32_OFF32; SC_V6_ILP32_OFFBIG; SC_V6_LP64_OFF64;
   SC_V6_LPBIG_OFFBIG; SC_BC_BASE_MAX; SC_BC_DIM_MAX; SC_BC_SCALE_MAX; SC_BC_STRING_MAX; SC_2_C_BIND;
   SC_2_C_DEV; SC_2_CHAR_TERM; SC_COLL_WEIGHTS_MAX; SC_DELAYTIMER_MAX; SC_EXPR_NEST_MAX; SC_2_FORT_DEV;
   SC_2_FORT_RUN; SC_LINE_MAX; SC_2_LOCALEDEF; SC_2_PBS; SC_2_PBS_ACCOUNTING; SC_2_PBS_CHECKPOINT;
   SC_2_PBS_LOCATE; SC_2_PBS_MESSAGE; SC_2_PBS_TRACK; SC_2_SW_DEV; SC_2_UPE; SC_2_VERSION; SC_XOPEN_CRYPT;
   SC_XOPEN_ENH_I18N; SC_XOPEN_REALTIME; SC_XOPEN_REALTIME_THREADS; SC_XOPEN_SHM; SC_XOPEN_STREAMS;
   SC_XOPEN_UNIX; SC_XOPEN_UUCP; SC_XOPEN_VERSION; SC_CLK_TCK; SC_GETGR_R_SIZE_MAX; SC_GETPW_R_SIZE_MAX;
   SC_AIO_LISTIO_MAX; SC_AIO_MAX; SC_AIO_PRIO_DELTA_MAX; SC_ARG_MAX; SC_ATEXIT_MAX; SC_CHILD_MAX;
   SC_HOST_NAME_MAX; SC_IOV_MAX; SC_LOGIN_NAME_MAX; SC_NGROUPS_MAX; SC_MQ_OPEN_MAX; SC_MQ_PRIO_MAX; SC_OPEN_MAX;
   SC_PAGE_SIZE; SC_PAGESIZE; SC_THREAD_DESTRUCTOR_ITERATIONS; SC_THREAD_KEYS_MAX; SC_THREAD_STACK_MIN;
   SC_THREAD_THREADS_MAX; SC_RTSIG_MAX; SC_SEM_NSEMS_MAX; SC_SEM_VALUE_MAX; SC_SIGQUEUE_MAX; SC_STREAM_MAX;
   SC_SYMLOOP_MAX; SC_TIMER_MAX; SC_TTY_NAME_MAX; SC_TZNAME_MAX].

Definition sc_num (name : sc_name) : nat :=
  match name with
  | SC_ADVISORY_INFO => 0 | SC_ASYNCHRONOUS_IO => 1 | SC_BARRIERS => 2 | SC_CLOCK_SELECTION => 3
  | SC_CPUTIME => 4 | SC_FSYNC => 5 | SC_IPV6 => 6 | SC_JOB_CONTROL => 7 | SC_MAPPED_FILES => 8
  | SC_MEMLOCK => 9 | SC_MEMLOCK_RANGE => 10 | SC_MEMORY_PROTECTION => 11 | SC_MESSAGE_PASSING => 12
  | SC_MONOTONIC_CLOCK => 13 | SC_PRIORITIZED_IO => 14 | SC_PRIORITY_SCHEDULING => 15 | SC_RAW_SOCKETS => 16
  | SC_RE_DUP_MAX => 17 | SC_READER_WRITER_LOCKS => 18 | SC_REALTIME_SIGNALS => 19 | SC_REGEXP => 20
  | SC_SAVED_IDS => 21 | SC_SEMAPHORES => 22 | SC_SHARED_MEMORY_OBJECTS => 23 | SC_SHELL => 24 | SC_SPAWN => 25
  | SC_SPIN_LOCKS => 26 | SC_SPORADIC_SERVER => 27 | SC_SS_REPL_MAX => 28 | SC_SYNCHRONIZED_IO => 29
  | SC_THREAD_ATTR_STACKADDR => 30 | SC_THREAD_ATTR_STACKSIZE => 31 | SC_THREAD_CPUTIME => 32
  | SC_THREAD_PRIO_INHERIT => 33 | SC_THREAD_PRIO_PROTECT => 34 | SC_THREAD_PRIORITY_SCHEDULING => 35
  | SC_THREAD_PROCESS_SHARED => 36 | SC_THREAD_ROBUST_PRIO_INHERIT => 37 | SC_THREAD_ROBUST_PRIO_PROTECT => 38
  | SC_THREAD_SAFE_FUNCTIONS => 39 | SC_THREAD_SPORADIC_SERVER => 40 | SC_THREADS => 41 | SC_TIMEOUTS => 42
  | SC_TIMERS => 43 | SC_TRACE => 44 | SC_TRACE_EVENT_FILTER => 45 | SC_TRACE_EVENT_NAME_MAX => 46
  | SC_TRACE_INHERIT => 47 | SC_TRACE_LOG => 48 | SC_TRACE_NAME_MAX => 49 | SC_TRACE_SYS_MAX => 50
  | SC_TRACE_USER_EVENT_MAX => 51 | SC_TYPED_MEMORY_OBJECTS => 52 | SC_VERSION => 53 | SC_V7_ILP32_OFF32 => 54
  | SC_V7_ILP32_OFFBIG => 55 | SC_V7_LP64_OFF64 => 56 | SC_V7_LPBIG_OFFBIG => 57 | SC_V6_ILP32_OFF32 => 58
  | SC_V6_ILP32_OFFBIG => 59 | SC_V6_LP64_OFF64 => 60 | SC_V6_LPBIG_OFFBIG => 61 | SC_BC_BASE_MAX => 62
  | SC_BC_DIM_MAX => 63 | SC_BC_SCALE_MAX => 64 | SC_BC_STRING_MAX => 65 | SC_2_C_BIND => 66 | SC_2_C_DEV => 67
  | SC_2_CHAR_TERM => 68 | SC_COLL_WEIGHTS_MAX => 69 | SC_DELAYTIMER_MAX => 70 | SC_EXPR_NEST_MAX => 71
  | SC_2_FORT_DEV => 72 | SC_2_FORT_RUN => 73 | SC_LINE_MAX => 74 | SC_2_LOCALEDEF => 75 | SC_2_PBS => 76
  | SC_2_PBS_ACCOUNTING => 77 | SC_2_PBS_CHECKPOINT => 78 | SC_2_PBS_LOCATE => 79 | SC_2_PBS_MESSAGE => 80
  | SC_2_PBS_TRACK => 81 | SC_2_SW_DEV => 82 | SC_2_UPE => 83 | SC_2_VERSION => 84 | SC_XOPEN_CRYPT => 85
  | SC_XOPEN_ENH_I18N => 86 | SC_XOPEN_REALTIME => 87 | SC_XOPEN_REALTIME_THREADS => 88 | SC_XOPEN_SHM => 89
  | SC_XOPEN_STREAMS => 90 | SC_XOPEN_UNIX => 91 | SC_XOPEN_UUCP => 92 | SC_XOPEN_VERSION => 93
  | SC_CLK_TCK => 94 | SC_GETGR_R_SIZE_MAX => 95 | SC_GETPW_R_SIZE_MAX => 96 | SC_AIO_LISTIO_MAX => 97
  | SC_AIO_MAX => 98 | SC_AIO_PRIO_DELTA_MAX => 99 | SC_ARG_MAX => 100 | SC_ATEXIT_MAX => 101
  | SC_CHILD_MAX => 102 | SC_HOST_NAME_MAX => 103 | SC_IOV_MAX => 104 | SC_LOGIN_NAME_MAX => 105
  | SC_NGROUPS_MAX => 106 | SC_MQ_OPEN_MAX => 107 | SC_MQ_PRIO_MAX => 108 | SC_OPEN_MAX => 109
  | SC_PAGE_SIZE => 110 | SC_PAGESIZE => 111 | SC_THREAD_DESTRUCTOR_ITERATIONS => 112
  | SC_THREAD_KEYS_MAX => 113 | SC_THREAD_STACK_MIN => 114 | SC_THREAD_THREADS_MAX => 115 | SC_RTSIG_MAX => 116
  | SC_SEM_NSEMS_MAX => 117 | SC_SEM_VALUE_MAX => 118 | SC_SIGQUEUE_MAX => 119 | SC_STREAM_MAX => 120
  | SC_SYMLOOP_MAX => 121 | SC_TIMER_MAX => 122 | SC_TTY_NAME_MAX => 123 | SC_TZNAME_MAX => 124
  end%nat.

Lemma sc_num_lookup name : sc_names !! sc_num name = Some name.
Proof. by destruct name. Qed.

#[export] Instance sc_name_eq_dec : EqDecision sc_name.
Proof.
  intros a b. destruct (decide (sc_num a = sc_num b)) as [He|Hne]; [left|right; congruence].
  apply (inj Some). by rewrite <- !sc_num_lookup, He.
Defined.

(** What an expression of the headers is: a value, a mistake (it names a macro
    that is not defined, so that it does not compile), or EINVAL. *)
Inductive answer := Value (v : Z) | Undefined | Invalid.

#[export] Instance answer_eq_dec : EqDecision answer.
Proof. solve_decision. Defined.

Definition defined (m : option Z) : answer := match m with Some v => Value v | None => Undefined end.
Definition positive (m : option Z) : bool := match m with Some v => 0 <? v | None => false end.

(** The kernel's COND_CODE_1 with an option that is set or not. *)
Definition COND_CODE_1 {A} (flag : bool) (x y : A) : A := if flag then x else y.

Section Config.
Context (on : string -> bool) (cval : string -> Z).

(** What COND_CODE_1 makes of a flag that is an expression and not a number,
    and macros that only a C library may define. *)
Context (cond : bool -> bool) (_POSIX2_C_DEV _POSIX2_VERSION : option Z).

(** ** Option macros *)

Definition _POSIX_VERSION : Z := 200809.
Definition if_set (flag : bool) (v : Z) : option Z := if flag then Some v else None.

Definition _POSIX_ASYNCHRONOUS_IO : option Z := if_set (on "POSIX_ASYNCHRONOUS_IO") _POSIX_VERSION.
Definition _POSIX_BARRIERS : option Z := if_set (on "POSIX_BARRIERS") _POSIX_VERSION.
Definition _POSIX_CLOCK_SELECTION : option Z := if_set (on "POSIX_CLOCK_SELECTION") _POSIX_VERSION.
Definition _POSIX_CPUTIME : option Z := if_set (on "POSIX_CPUTIME") _POSIX_VERSION.
Definition _POSIX_FSYNC : option Z := if_set (on "POSIX_FSYNC") _POSIX_VERSION.
Definition _POSIX_IPV6 : option Z := if_set (on "POSIX_IPV6") _POSIX_VERSION.
Definition _POSIX_MAPPED_FILES : option Z := if_set (on "POSIX_MAPPED_FILES") _POSIX_VERSION.
Definition _POSIX_MEMLOCK : option Z := if_set (on "POSIX_MEMLOCK") _POSIX_VERSION.
Definition _POSIX_MEMLOCK_RANGE : option Z := if_set (on "POSIX_MEMLOCK_RANGE") _POSIX_VERSION.
Definition _POSIX_MEMORY_PROTECTION : option Z := if_set (on "POSIX_MEMORY_PROTECTION") _POSIX_VERSION.
Definition _POSIX_MESSAGE_PASSING : option Z := if_set (on "POSIX_MESSAGE_PASSING") _POSIX_VERSION.
Definition _POSIX_MONOTONIC_CLOCK : option Z := if_set (on "POSIX_MONOTONIC_CLOCK") _POSIX_VERSION.
Definition _POSIX_RAW_SOCKETS : option Z := if_set (on "POSIX_RAW_SOCKETS") _POSIX_VERSION.
Definition _POSIX_READER_WRITER_LOCKS : option Z := if_set (on "POSIX_RW_LOCKS") _POSIX_VERSION.
Definition _POSIX_REALTIME_SIGNALS : option Z := if_set (on "POSIX_REALTIME_SIGNALS") _POSIX_VERSION.
Definition _POSIX_SEMAPHORES : option Z := if_set (on "POSIX_SEMAPHORES") _POSIX_VERSION.
Definition _POSIX_SHARED_MEMORY_OBJECTS : option Z := if_set (on "POSIX_SHARED_MEMORY_OBJECTS") _POSIX_VERSION.
Definition _POSIX_SPIN_LOCKS : option Z := if_set (on "POSIX_SPIN_LOCKS") _POSIX_VERSION.
Definition _POSIX_SYNCHRONIZED_IO : option Z := if_set (on "POSIX_SYNCHRONIZED_IO") _POSIX_VERSION.
Definition _POSIX_THREAD_ATTR_STACKADDR : option Z := if_set (on "POSIX_THREAD_ATTR_STACKADDR") _POSIX_VERSION.
Definition _POSIX_THREAD_ATTR_STACKSIZE : option Z := if_set (on "POSIX_THREAD_ATTR_STACKSIZE") _POSIX_VERSION.
Definition _POSIX_THREAD_CPUTIME : option Z := if_set (on "POSIX_THREAD_CPUTIME") _POSIX_VERSION.
Definition _POSIX_THREAD_PRIO_INHERIT : option Z := if_set (on "POSIX_THREAD_PRIO_INHERIT") _POSIX_VERSION.
Definition _POSIX_THREAD_PRIO_PROTECT : option Z := if_set (on "POSIX_THREAD_PRIO_PROTECT") _POSIX_VERSION.
Definition _POSIX_THREAD_SAFE_FUNCTIONS : option Z := if_set (on "POSIX_FILE_SYSTEM_R" && on "POSIX_C_LANG_SUPPORT_R") _POSIX_VERSION.

(** These four are undefined and defined again, last under POSIX_THREADS. *)
Definition _POSIX_THREADS : option Z := if_set (on "POSIX_THREADS") _POSIX_VERSION.
Definition _POSIX_THREAD_PROCESS_SHARED : option Z := if_set (on "POSIX_THREADS") _POSIX_VERSION.
Definition _POSIX_PRIORITY_SCHEDULING : option Z := if_set (on "POSIX_THREADS") _POSIX_VERSION.
Definition _POSIX_THREAD_PRIORITY_SCHEDULING : option Z := if_set (on "POSIX_THREADS") _POSIX_VERSION.

Definition _POSIX_TIMEOUTS : option Z := if_set (on "POSIX_TIMERS") _POSIX_VERSION.
Definition _POSIX_TIMERS : option Z := if_set (on "POSIX_TIMERS") _POSIX_VERSION.
Definition _POSIX2_C_BIND : option Z := Some _POSIX_VERSION.
Definition _XOPEN_VERSION : option Z := if_set (on "XSI") 700.
Definition _XOPEN_REALTIME : option Z :=
  if on "XSI_REALTIME" ||
     (on "POSIX_FSYNC" && on "POSIX_MEMLOCK" && on "POSIX_MEMLOCK_RANGE" && on "POSIX_MESSAGE_PASSING" &&
      on "POSIX_PRIORITY_SCHEDULING" && on "POSIX_SHARED_MEMORY_OBJECTS" && on "POSIX_SYNCHRONIZED_IO")
  then _XOPEN_VERSION else None.
Definition _XOPEN_REALTIME_THREADS : option Z :=
  if on "XSI_REALTIME_THREADS" ||
     (on "POSIX_THREAD_PRIO_INHERIT" && on "POSIX_THREAD_PRIO_PROTECT" && on "POSIX_THREAD_PRIORITY_SCHEDULING")
  then _XOPEN_VERSION else None.
Definition _XOPEN_STREAMS : option Z := if on "XSI_STREAMS" then _XOPEN_VERSION else None.
Definition _XOPEN_UNIX : option Z := if on "XSI" then _XOPEN_VERSION else None.

(** ** sysconf, the function *)

(** The cases from _SC_ADVISORY_INFO to _SC_THREAD_SAFE_FUNCTIONS. *)
Definition sysconf_cases1 (name : sc_name) : option answer :=
  match name with
  | SC_ADVISORY_INFO => Some (Value (-1))
  | SC_ASYNCHRONOUS_IO => Some (COND_CODE_1 (on "POSIX_ASYNCHRONOUS_IO") (Value _POSIX_VERSION) (Value (-1)))
  | SC_BARRIERS => Some (COND_CODE_1 (on "POSIX_BARRIERS") (Value _POSIX_VERSION) (Value (-1)))
  | SC_CLOCK_SELECTION => Some (COND_CODE_1 (on "POSIX_CLOCK_SELECTION") (Value _POSIX_VERSION) (Value (-1)))
  | SC_CPUTIME => Some (COND_CODE_1 (on "POSIX_CPUTIME") (Value _POSIX_VERSION) (Value (-1)))
  | SC_FSYNC => Some (COND_CODE_1 (on "POSIX_FSYNC") (Value _POSIX_VERSION) (Value (-1)))
  | SC_IPV6 => Some (COND_CODE_1 (on "NET_IPV6") (Value _POSIX_VERSION) (Value (-1)))
  | SC_JOB_CONTROL => Some (Value (-1))
  | SC_MAPPED_FILES => Some (COND_CODE_1 (on "POSIX_MAPPED_FILES") (Value _POSIX_VERSION) (Value (-1)))
  | SC_MEMLOCK => Some (COND_CODE_1 (on "POSIX_MEMLOCK") (Value _POSIX_VERSION) (Value (-1)))
  | SC_MEMLOCK_RANGE => Some (COND_CODE_1 (on "POSIX_MEMLOCK_RANGE") (Value _POSIX_VERSION) (Value (-1)))
  | SC_MEMORY_PROTECTION =>
      Some (COND_CODE_1 (on "POSIX_MEMORY_PROTECTION") (Value _POSIX_VERSION) (Value (-1)))
  | SC_MESSAGE_PASSING => Some (COND_CODE_1 (on "POSIX_MESSAGE_PASSING") (Value _POSIX_VERSION) (Value (-1)))
  | SC_MONOTONIC_CLOCK => Some (COND_CODE_1 (on "POSIX_MONOTONIC_CLOCK") (Value _POSIX_VERSION) (Value (-1)))
  | SC_PRIORITIZED_IO => Some (Value (-1))
  | SC_PRIORITY_SCHEDULING =>
      Some (COND_CODE_1 (on "POSIX_PRIORITY_SCHEDULING") (Value _POSIX_VERSION) (Value (-1)))
  | SC_RAW_SOCKETS => Some (COND_CODE_1 (on "NET_SOCKETS_PACKET") (Value _POSIX_VERSION) (Value (-1)))
  | SC_RE_DUP_MAX => Some (Value _POSIX_RE_DUP_MAX)
  | SC_READER_WRITER_LOCKS => Some (COND_CODE_1 (on "POSIX_RW_LOCKS") (Value _POSIX_VERSION) (Value (-1)))
  | SC_REALTIME_SIGNALS | SC_REGEXP | SC_SAVED_IDS => Some (Value (-1))
  | SC_SEMAPHORES => Some (COND_CODE_1 (on "POSIX_SEMAPHORES") (Value _POSIX_VERSION) (Value (-1)))
  | SC_SHARED_MEMORY_OBJECTS =>
      Some (COND_CODE_1 (on "POSIX_SHARED_MEMORY_OBJECTS") (Value _POSIX_VERSION) (Value (-1)))
  | SC_SHELL | SC_SPAWN => Some (Value (-1))
  | SC_SPIN_LOCKS => Some (COND_CODE_1 (on "POSIX_SPIN_LOCKS") (Value _POSIX_VERSION) (Value (-1)))
  | SC_SPORADIC_SERVER => Some (Value (-1))
  | SC_SS_REPL_MAX => Some (Value _POSIX_SS_REPL_MAX)
  | SC_SYNCHRONIZED_IO => Some (Value (-1))
  | SC_THREAD_ATTR_STACKADDR =>
      Some (COND_CODE_1 (on "POSIX_THREAD_ATTR_STACKADDR") (Value _POSIX_VERSION) (Value (-1)))
  | SC_THREAD_ATTR_STACKSIZE =>
      Some (COND_CODE_1 (on "POSIX_THREAD_ATTR_STACKSIZE") (Value _POSIX_VERSION) (Value (-1)))
  | SC_THREAD_CPUTIME => Some (Value (-1))
  | SC_THREAD_PRIO_INHERIT =>
      Some (COND_CODE_1 (on "POSIX_THREAD_PRIO_INHERIT") (Value _POSIX_VERSION) (Value (-1)))
  | SC_THREAD_PRIO_PROTECT => Some (Value (-1))
  | SC_THREAD_PRIORITY_SCHEDULING =>
      Some (COND_CODE_1 (on "POSIX_THREAD_PRIORITY_SCHEDULING") (Value _POSIX_VERSION) (Value (-1)))
  | SC_THREAD_PROCESS_SHARED | SC_THREAD_ROBUST_PRIO_INHERIT | SC_THREAD_ROBUST_PRIO_PROTECT =>
      Some (Value (-1))
  | SC_THREAD_SAFE_FUNCTIONS =>
      Some (COND_CODE_1 (on "POSIX_FILE_LOCKING" && on "POSIX_FILE_SYSTEM_R" && on "POSIX_C_LANG_SUPPORT") (Value _POSIX_VERSION) (Value (-1)))
  | _ => None
  end.

(** The cases from _SC_THREAD_SPORADIC_SERVER to _SC_XOPEN_VERSION. *)
Definition sysconf_cases2 (name : sc_name) : option answer :=
  match name with
  | SC_THREAD_SPORADIC_SERVER => Some (Value (-1))
  | SC_THREADS => Some (COND_CODE_1 (on "POSIX_THREADS") (Value _POSIX_VERSION) (Value (-1)))
  | SC_TIMEOUTS => Some (COND_CODE_1 (on "POSIX_TIMEOUTS") (Value _POSIX_VERSION) (Value (-1)))
  | SC_TIMERS => Some (COND_CODE_1 (on "POSIX_TIMERS") (Value _POSIX_VERSION) (Value (-1)))
  | SC_TRACE | SC_TRACE_EVENT_FILTER => Some (Value (-1))
  | SC_TRACE_EVENT_NAME_MAX => Some (Value _POSIX_TRACE_NAME_MAX)
  | SC_TRACE_INHERIT | SC_TRACE_LOG => Some (Value (-1))
  | SC_TRACE_NAME_MAX => Some (Value _POSIX_TRACE_NAME_MAX)
  | SC_TRACE_SYS_MAX => Some (Value _POSIX_TRACE_SYS_MAX)
  | SC_TRACE_USER_EVENT_MAX => Some (Value _POSIX_TRACE_USER_EVENT_MAX)
  | SC_TYPED_MEMORY_OBJECTS => Some (Value (-1))
  | SC_VERSION => Some (Value _POSIX_VERSION)
  | SC_V7_ILP32_OFF32 | SC_V7_ILP32_OFFBIG | SC_V7_LP64_OFF64 | SC_V7_LPBIG_OFFBIG | SC_BC_BASE_MAX |
     SC_BC_DIM_MAX | SC_BC_SCALE_MAX | SC_BC_STRING_MAX | SC_2_C_BIND => Some (Value (-1))
  | SC_2_C_DEV => Some (COND_CODE_1 (cond (positive _POSIX2_C_DEV)) (defined _POSIX2_C_DEV) (Value (-1)))
  | SC_2_CHAR_TERM | SC_COLL_WEIGHTS_MAX => Some (Value (-1))
  | SC_DELAYTIMER_MAX => Some (COND_CODE_1 (on "POSIX_TIMERS") (Value (cval "POSIX_DELAYTIMER_MAX")) (Value 0))
  | SC_EXPR_NEST_MAX | SC_2_FORT_DEV | SC_2_FORT_RUN | SC_LINE_MAX | SC_2_LOCALEDEF | SC_2_PBS |
     SC_2_PBS_ACCOUNTING | SC_2_PBS_CHECKPOINT | SC_2_PBS_LOCATE | SC_2_PBS_MESSAGE | SC_2_PBS_TRACK |
     SC_2_SW_DEV | SC_2_UPE => Some (Value (-1))
  | SC_2_VERSION => Some (COND_CODE_1 (cond (positive _POSIX2_VERSION)) (defined _POSIX2_VERSION) (Value (-1)))
  | SC_XOPEN_CRYPT | SC_XOPEN_ENH_I18N => Some (Value (-1))
  | SC_XOPEN_REALTIME => Some (COND_CODE_1 (on "XSI_REALTIME") (defined _XOPEN_VERSION) (Value (-1)))
  | SC_XOPEN_REALTIME_THREADS =>
      Some (COND_CODE_1 (on "XSI_REALTIME_THREADS") (defined _XOPEN_VERSION) (Value (-1)))
  | SC_XOPEN_SHM => Some (Value (-1))
  | SC_XOPEN_STREAMS => Some (COND_CODE_1 (on "XSI_STREAMS") (defined _XOPEN_STREAMS) (Value (-1)))
  | SC_XOPEN_UNIX => Some (COND_CODE_1 (on "XSI") (defined _XOPEN_UNIX) (Value (-1)))
  | SC_XOPEN_UUCP => Some (Value (-1))
  | SC_XOPEN_VERSION => Some (COND_CODE_1 (on "XSI") (defined _XOPEN_VERSION) (Value 0))
  | _ => None
  end.

(** The cases from _SC_CLK_TCK on. *)
Definition sysconf_cases3 (name : sc_name) : option answer :=
  match name with
  | SC_CLK_TCK => Some (Value 100)
  | SC_GETGR_R_SIZE_MAX | SC_GETPW_R_SIZE_MAX => Some (Value 0)
  | SC_AIO_LISTIO_MAX => Some (Value _POSIX_AIO_LISTIO_MAX)
  | SC_AIO_MAX => Some (Value _POSIX_AIO_MAX)
  | SC_AIO_PRIO_DELTA_MAX => Some (Value 0)
  | SC_ARG_MAX => Some (Value _POSIX_ARG_MAX)
  | SC_ATEXIT_MAX => Some (Value 32)
  | SC_CHILD_MAX => Some (Value _POSIX_CHILD_MAX)
  | SC_HOST_NAME_MAX =>
      Some (COND_CODE_1 (on "POSIX_NETWORKING") (Value (cval "POSIX_HOST_NAME_MAX")) (Value 0))
  | SC_IOV_MAX => Some (Value 16)
  | SC_LOGIN_NAME_MAX => Some (Value _POSIX_LOGIN_NAME_MAX)
  | SC_NGROUPS_MAX => Some (Value _POSIX_NGROUPS_MAX)
  | SC_MQ_OPEN_MAX =>
      Some (COND_CODE_1 (on "POSIX_MESSAGE_PASSING") (Value (cval "POSIX_MQ_OPEN_MAX")) (Value 0))
  | SC_MQ_PRIO_MAX => Some (Value _POSIX_MQ_PRIO_MAX)
  | SC_OPEN_MAX => Some (Value (cval "POSIX_OPEN_MAX"))
  | SC_PAGE_SIZE => Some (Value (cval "POSIX_PAGE_SIZE"))
  | SC_THREAD_DESTRUCTOR_ITERATIONS => Some (Value _POSIX_THREAD_DESTRUCTOR_ITERATIONS)
  | SC_THREAD_KEYS_MAX =>
      Some (COND_CODE_1 (on "POSIX_THREADS") (Value (cval "POSIX_THREAD_KEYS_MAX")) (Value 0))
  | SC_THREAD_STACK_MIN => Some (Value 0)
  | SC_THREAD_THREADS_MAX =>
      Some (COND_CODE_1 (on "POSIX_THREADS") (Value (cval "POSIX_THREAD_THREADS_MAX")) (Value 0))
  | SC_RTSIG_MAX => Some (COND_CODE_1 (on "POSIX_REALTIME_SIGNALS") (Value (cval "POSIX_RTSIG_MAX")) (Value 0))
  | SC_SEM_NSEMS_MAX =>
      Some (COND_CODE_1 (on "POSIX_SEMAPHORES") (Value (cval "POSIX_SEM_NSEMS_MAX")) (Value 0))
  | SC_SEM_VALUE_MAX =>
      Some (COND_CODE_1 (on "POSIX_SEMAPHORES") (Value (cval "POSIX_SEM_VALUE_MAX")) (Value 0))
  | SC_SIGQUEUE_MAX => Some (Value _POSIX_SIGQUEUE_MAX)
  | SC_STREAM_MAX => Some (Value _POSIX_STREAM_MAX)
  | SC_SYMLOOP_MAX => Some (Value _POSIX_SYMLOOP_MAX)
  | SC_TIMER_MAX => Some (COND_CODE_1 (on "POSIX_TIMERS") (Value (cval "POSIX_TIMER_MAX")) (Value 0))
  | SC_TTY_NAME_MAX => Some (Value _POSIX_TTY_NAME_MAX)
  | SC_TZNAME_MAX => Some (Value _POSIX_TZNAME_MAX)
  | _ => None
  end.

Definition sysconf_name (name : sc_name) : answer :=
  match sysconf_cases1 name with
  | Some a => a
  | None =>
      match sysconf_cases2 name with
      | Some a => a
      | None => match sysconf_cases3 name with Some a => a | None => Invalid end
      end
  end.

Definition sysconf (name : Z) : answer :=
  if name <? 0 then Invalid
  else match sc_names !! Z.to_nat name with Some n => sysconf_name n | None => Invalid end.

(** ** sysconf, the macros *)

(** __z_posix_sysconf_SC_ADVISORY_INFO to __z_posix_sysconf_SC_THREAD_SAFE_FUNCTIONS. *)
Definition z_posix_sysconf1 (name : sc_name) : option answer :=
  match name with
  | SC_ADVISORY_INFO => Some (Value (-1))
  | SC_ASYNCHRONOUS_IO =>
      Some (COND_CODE_1 (on "POSIX_ASYNCHRONOUS_IO") (defined _POSIX_ASYNCHRONOUS_IO) (Value (-1)))
  | SC_BARRIERS => Some (COND_CODE_1 (on "POSIX_BARRIERS") (defined _POSIX_BARRIERS) (Value (-1)))
  | SC_CLOCK_SELECTION =>
      Some (COND_CODE_1 (on "POSIX_CLOCK_SELECTION") (defined _POSIX_CLOCK_SELECTION) (Value (-1)))
  | SC_CPUTIME => Some (COND_CODE_1 (on "POSIX_CPUTIME") (defined _POSIX_CPUTIME) (Value (-1)))
  | SC_FSYNC => Some (COND_CODE_1 (on "POSIX_FSYNC") (defined _POSIX_FSYNC) (Value (-1)))
  | SC_IPV6 => Some (COND_CODE_1 (on "NET_IPV6") (Value _POSIX_VERSION) (Value (-1)))
  | SC_JOB_CONTROL => Some (Value (-1))
  | SC_MAPPED_FILES => Some (COND_CODE_1 (on "POSIX_MAPPED_FILES") (defined _POSIX_MAPPED_FILES) (Value (-1)))
  | SC_MEMLOCK => Some (COND_CODE_1 (on "POSIX_MEMLOCK") (defined _POSIX_MEMLOCK) (Value (-1)))
  | SC_MEMLOCK_RANGE =>
      Some (COND_CODE_1 (on "POSIX_MEMLOCK_RANGE") (defined _POSIX_MEMLOCK_RANGE) (Value (-1)))
  | SC_MEMORY_PROTECTION =>
      Some (COND_CODE_1 (on "POSIX_MEMORY_PROTECTION") (defined _POSIX_MEMORY_PROTECTION) (Value (-1)))
  | SC_MESSAGE_PASSING =>
      Some (COND_CODE_1 (on "POSIX_MESSAGE_PASSING") (defined _POSIX_MESSAGE_PASSING) (Value (-1)))
  | SC_MONOTONIC_CLOCK =>
      Some (COND_CODE_1 (on "POSIX_MONOTONIC_CLOCK") (defined _POSIX_MONOTONIC_CLOCK) (Value (-1)))
  | SC_PRIORITIZED_IO => Some (Value (-1))
  | SC_PRIORITY_SCHEDULING =>
      Some (COND_CODE_1 (on "POSIX_PRIORITY_SCHEDULING") (defined _POSIX_PRIORITY_SCHEDULING) (Value (-1)))
  | SC_RAW_SOCKETS => Some (COND_CODE_1 (on "NET_SOCKETS_PACKET") (defined _POSIX_RAW_SOCKETS) (Value (-1)))
  | SC_RE_DUP_MAX => Some (Value _POSIX_RE_DUP_MAX)
  | SC_READER_WRITER_LOCKS =>
      Some (COND_CODE_1 (on "POSIX_RW_LOCKS") (defined _POSIX_READER_WRITER_LOCKS) (Value (-1)))
  | SC_REALTIME_SIGNALS | SC_REGEXP | SC_SAVED_IDS => Some (Value (-1))
  | SC_SEMAPHORES => Some (COND_CODE_1 (on "POSIX_SEMAPHORES") (defined _POSIX_SEMAPHORES) (Value (-1)))
  | SC_SHARED_MEMORY_OBJECTS =>
      Some (COND_CODE_1 (on "POSIX_SHARED_MEMORY_OBJECTS") (defined _POSIX_SHARED_MEMORY_OBJECTS) (Value (-1)))
  | SC_SHELL | SC_SPAWN => Some (Value (-1))
  | SC_SPIN_LOCKS => Some (COND_CODE_1 (on "POSIX_SPIN_LOCKS") (defined _POSIX_SPIN_LOCKS) (Value (-1)))
  | SC_SPORADIC_SERVER => Some (Value (-1))
  | SC_SS_REPL_MAX => Some (Value _POSIX_SS_REPL_MAX)
  | SC_SYNCHRONIZED_IO => Some (Value (-1))
  | SC_THREAD_ATTR_STACKADDR =>
      Some (COND_CODE_1 (on "POSIX_THREAD_ATTR_STACKADDR") (defined _POSIX_THREAD_ATTR_STACKADDR) (Value (-1)))
  | SC_THREAD_ATTR_STACKSIZE =>
      Some (COND_CODE_1 (on "POSIX_THREAD_ATTR_STACKSIZE") (defined _POSIX_THREAD_ATTR_STACKSIZE) (Value (-1)))
  | SC_THREAD_CPUTIME => Some (Value (-1))
  | SC_THREAD_PRIO_INHERIT =>
      Some (COND_CODE_1 (on "POSIX_THREAD_PRIO_INHERIT") (defined _POSIX_THREAD_PRIO_INHERIT) (Value (-1)))
  | SC_THREAD_PRIO_PROTECT => Some (Value (-1))
  | SC_THREAD_PRIORITY_SCHEDULING =>
      Some (COND_CODE_1 (on "POSIX_THREAD_PRIORITY_SCHEDULING") (defined _POSIX_THREAD_PRIORITY_SCHEDULING) (Value (-1)))
  | SC_THREAD_PROCESS_SHARED | SC_THREAD_ROBUST_PRIO_INHERIT | SC_THREAD_ROBUST_PRIO_PROTECT =>
      Some (Value (-1))
  | SC_THREAD_SAFE_FUNCTIONS =>
      Some (COND_CODE_1 (cond (on "POSIX_FILE_SYSTEM_R" && on "POSIX_C_LANG_SUPPORT_R")) (defined _POSIX_THREAD_SAFE_FUNCTIONS) (Value (-1)))
  | _ => None
  end.

(** __z_posix_sysconf_SC_THREAD_SPORADIC_SERVER to __z_posix_sysconf_SC_XOPEN_VERSION. *)
Definition z_posix_sysconf2 (name : sc_name) : option answer :=
  match name with
  | SC_THREAD_SPORADIC_SERVER => Some (Value (-1))
  | SC_THREADS => Some (COND_CODE_1 (on "POSIX_THREADS") (defined _POSIX_THREADS) (Value (-1)))
  | SC_TIMEOUTS => Some (COND_CODE_1 (on "POSIX_TIMERS") (defined _POSIX_TIMEOUTS) (Value (-1)))
  | SC_TIMERS => Some (COND_CODE_1 (on "POSIX_TIMERS") (defined _POSIX_TIMERS) (Value (-1)))
  | SC_TRACE | SC_TRACE_EVENT_FILTER => Some (Value (-1))
  | SC_TRACE_EVENT_NAME_MAX => Some (Value _POSIX_TRACE_NAME_MAX)
  | SC_TRACE_INHERIT | SC_TRACE_LOG => Some (Value (-1))
  | SC_TRACE_NAME_MAX => Some (Value _POSIX_TRACE_NAME_MAX)
  | SC_TRACE_SYS_MAX => Some (Value _POSIX_TRACE_SYS_MAX)
  | SC_TRACE_USER_EVENT_MAX => Some (Value _POSIX_TRACE_USER_EVENT_MAX)
  | SC_TYPED_MEMORY_OBJECTS => Some (Value (-1))
  | SC_VERSION => Some (COND_CODE_1 (on "POSIX_SYSTEM_INTERFACES") (Value _POSIX_VERSION) (Value 0))
  | SC_V6_ILP32_OFF32 | SC_V6_ILP32_OFFBIG | SC_V6_LP64_OFF64 | SC_V6_LPBIG_OFFBIG | SC_V7_ILP32_OFF32 |
     SC_V7_ILP32_OFFBIG | SC_V7_LP64_OFF64 | SC_V7_LPBIG_OFFBIG => Some (Value (-1))
  | SC_BC_BASE_MAX => Some (Value _POSIX2_BC_BASE_MAX)
  | SC_BC_DIM_MAX => Some (Value _POSIX2_BC_DIM_MAX)
  | SC_BC_SCALE_MAX => Some (Value _POSIX2_BC_SCALE_MAX)
  | SC_BC_STRING_MAX => Some (Value _POSIX2_BC_STRING_MAX)
  | SC_2_C_BIND => Some (defined _POSIX2_C_BIND)
  | SC_2_C_DEV => Some (COND_CODE_1 (cond (positive _POSIX2_C_DEV)) (defined _POSIX2_C_DEV) (Value (-1)))
  | SC_2_CHAR_TERM => Some (Value (-1))
  | SC_COLL_WEIGHTS_MAX => Some (Value _POSIX2_COLL_WEIGHTS_MAX)
  | SC_DELAYTIMER_MAX => Some (COND_CODE_1 (on "POSIX_TIMERS") (Value (cval "POSIX_DELAYTIMER_MAX")) (Value 0))
  | SC_EXPR_NEST_MAX => Some (Value _POSIX2_EXPR_NEST_MAX)
  | SC_2_FORT_DEV | SC_2_FORT_RUN | SC_LINE_MAX | SC_2_LOCALEDEF | SC_2_PBS | SC_2_PBS_ACCOUNTING |
     SC_2_PBS_CHECKPOINT | SC_2_PBS_LOCATE | SC_2_PBS_MESSAGE | SC_2_PBS_TRACK | SC_2_SW_DEV | SC_2_UPE =>
      Some (Value (-1))
  | SC_2_VERSION => Some (COND_CODE_1 (cond (positive _POSIX2_VERSION)) (defined _POSIX2_VERSION) (Value (-1)))
  | SC_XOPEN_CRYPT | SC_XOPEN_ENH_I18N => Some (Value (-1))
  | SC_XOPEN_REALTIME => Some (COND_CODE_1 (on "XSI_REALTIME") (defined _XOPEN_VERSION) (Value (-1)))
  | SC_XOPEN_REALTIME_THREADS | SC_XOPEN_SHM => Some (Value (-1))
  | SC_XOPEN_STREAMS => Some (COND_CODE_1 (on "XSI_STREAMS") (defined _XOPEN_STREAMS) (Value (-1)))
  | SC_XOPEN_UNIX => Some (COND_CODE_1 (on "XSI") (defined _XOPEN_UNIX) (Value (-1)))
  | SC_XOPEN_UUCP => Some (Value (-1))
  | SC_XOPEN_VERSION => Some (COND_CODE_1 (on "XSI") (defined _XOPEN_VERSION) (Value 0))
  | _ => None
  end.

(** __z_posix_sysconf_SC_CLK_TCK to the end. *)
Definition z_posix_sysconf3 (name : sc_name) : option answer :=
  match name with
  | SC_CLK_TCK => Some (Value 100)
  | SC_GETGR_R_SIZE_MAX =>
      Some (COND_CODE_1 (on "POSIX_SYSTEM_DATABASE_R") (Value (cval "POSIX_GETGR_R_SIZE_MAX")) (Value 0))
  | SC_GETPW_R_SIZE_MAX =>
      Some (COND_CODE_1 (on "POSIX_SYSTEM_DATABASE_R") (Value (cval "POSIX_GETPW_R_SIZE_MAX")) (Value 0))
  | SC_AIO_LISTIO_MAX => Some (Value _POSIX_AIO_LISTIO_MAX)
  | SC_AIO_MAX => Some (Value _POSIX_AIO_MAX)
  | SC_AIO_PRIO_DELTA_MAX => Some (Value 0)
  | SC_ARG_MAX => Some (Value _POSIX_ARG_MAX)
  | SC_ATEXIT_MAX => Some (Value 32)
  | SC_CHILD_MAX => Some (Value _POSIX_CHILD_MAX)
  | SC_HOST_NAME_MAX =>
      Some (COND_CODE_1 (on "POSIX_NETWORKING") (Value (cval "POSIX_HOST_NAME_MAX")) (Value 0))
  | SC_IOV_MAX => Some (Value 16)
  | SC_LOGIN_NAME_MAX => Some (Value _POSIX_LOGIN_NAME_MAX)
  | SC_NGROUPS_MAX => Some (Value _POSIX_NGROUPS_MAX)
  | SC_MQ_OPEN_MAX =>
      Some (COND_CODE_1 (on "POSIX_MESSAGE_PASSING") (Value (cval "POSIX_MQ_OPEN_MAX")) (Value 0))
  | SC_MQ_PRIO_MAX => Some (Value _POSIX_MQ_PRIO_MAX)
  | SC_OPEN_MAX => Some (Value (cval "POSIX_OPEN_MAX"))
  | SC_PAGE_SIZE | SC_PAGESIZE => Some (Value (cval "POSIX_PAGE_SIZE"))
  | SC_THREAD_DESTRUCTOR_ITERATIONS => Some (Value _POSIX_THREAD_DESTRUCTOR_ITERATIONS)
  | SC_THREAD_KEYS_MAX =>
      Some (COND_CODE_1 (on "POSIX_THREADS") (Value (cval "POSIX_THREAD_KEYS_MAX")) (Value 0))
  | SC_THREAD_STACK_MIN => Some (Value 0)
  | SC_THREAD_THREADS_MAX =>
      Some (COND_CODE_1 (on "POSIX_THREADS") (Value (cval "POSIX_THREAD_THREADS_MAX")) (Value 0))
  | SC_RTSIG_MAX => Some (COND_CODE_1 (on "POSIX_REALTIME_SIGNALS") (Value (cval "POSIX_RTSIG_MAX")) (Value 0))
  | SC_SEM_NSEMS_MAX =>
      Some (COND_CODE_1 (on "POSIX_SEMAPHORES") (Value (cval "POSIX_SEM_NSEMS_MAX")) (Value 0))
  | SC_SEM_VALUE_MAX =>
      Some (COND_CODE_1 (on "POSIX_SEMAPHORES") (Value (cval "POSIX_SEM_VALUE_MAX")) (Value 0))
  | SC_SIGQUEUE_MAX => Some (Value _POSIX_SIGQUEUE_MAX)
  | SC_STREAM_MAX => Some (Value _POSIX_STREAM_MAX)
  | SC_SYMLOOP_MAX => Some (Value _POSIX_SYMLOOP_MAX)
  | SC_TIMER_MAX => Some (COND_CODE_1 (on "POSIX_TIMERS") (Value (cval "POSIX_TIMER_MAX")) (Value 0))
  | SC_TTY_NAME_MAX => Some (Value _POSIX_TTY_NAME_MAX)
  | SC_TZNAME_MAX => Some (Value _POSIX_TZNAME_MAX)
  | _ => None
  end.

(** [sysconf(x)] with the macros: the name is pasted to the prefix. *)
Definition sysconf_macro (name : sc_name) : answer :=
  match z_posix_sysconf1 name with
  | Some a => a
  | None =>
      match z_posix_sysconf2 name with
      | Some a => a
      | None => match z_posix_sysconf3 name with Some a => a | None => Undefined end
      end
  end.
End Config.

(** ** The two agree, but for these *)

(** The names for which some configuration has the function and the macro
    answer differently. *)
Definition divergent : list sc_name :=
  [SC_THREAD_SAFE_FUNCTIONS; SC_TIMEOUTS; SC_VERSION; SC_V6_ILP32_OFF32; SC_V6_ILP32_OFFBIG; SC_V6_LP64_OFF64;
   SC_V6_LPBIG_OFFBIG; SC_BC_BASE_MAX; SC_BC_DIM_MAX; SC_BC_SCALE_MAX; SC_BC_STRING_MAX; SC_2_C_BIND;
   SC_COLL_WEIGHTS_MAX; SC_EXPR_NEST_MAX; SC_XOPEN_REALTIME_THREADS; SC_GETGR_R_SIZE_MAX; SC_GETPW_R_SIZE_MAX;
   SC_PAGESIZE].

Lemma sysconf_agrees on cval cond c_dev version name :
  name ∉ divergent -> sysconf_macro on cval cond c_dev version name <> Undefined ->
  sysconf_name on cval cond c_dev version name = sysconf_macro on cval cond c_dev version name.
Proof.
  intros Hn. apply (bool_decide_eq_false_2 _) in Hn. revert Hn.
  destruct name; cbv; try done; intros _; repeat case_match; done || congruence.
Qed.

(** A configuration in which they differ for all of these. *)
Definition odd_config (option : string) : bool :=
  bool_decide (option ∈ ["POSIX_FILE_LOCKING"; "POSIX_FILE_SYSTEM_R"; "POSIX_C_LANG_SUPPORT"; "POSIX_TIMERS"; "XSI";
                         "XSI_REALTIME_THREADS"; "POSIX_SYSTEM_DATABASE_R"]).

Lemma divergent_differs cond name :
  cond false = false -> name ∈ divergent ->
  sysconf_macro odd_config (fun _ => 1) cond None None name <> Undefined /\
  sysconf_name odd_config (fun _ => 1) cond None None name <> sysconf_macro odd_config (fun _ => 1) cond None None name.
Proof.
  intros Hc Hn. unfold divergent in Hn. rewrite !elem_of_cons, elem_of_nil in Hn.
  repeat destruct Hn as [->|Hn]; try done; try (by vm_compute).
  unfold sysconf_name, sysconf_macro. cbn [sysconf_cases1 z_posix_sysconf1].
  replace (odd_config "POSIX_FILE_SYSTEM_R" && odd_config "POSIX_C_LANG_SUPPORT_R") with false by reflexivity.
  rewrite Hc. by vm_compute.
Qed.

(** The names the enumeration has and the function does not know. *)
Definition unknown_names : list sc_name :=
  [SC_V6_ILP32_OFF32; SC_V6_ILP32_OFFBIG; SC_V6_LP64_OFF64; SC_V6_LPBIG_OFFBIG; SC_PAGESIZE].

Lemma sysconf_name_invalid on cval cond c_dev version name :
  sysconf_name on cval cond c_dev version name = Invalid <-> name ∈ unknown_names.
Proof.
  rewrite <- (bool_decide_eq_true (name ∈ unknown_names)).
  destruct name; cbv; split; try done; repeat case_match; done.
Qed.

Lemma sysconf_invalid on cval cond c_dev version n :
  sysconf on cval cond c_dev version n = Invalid <->
  n < 0 \/ 125 <= n \/ exists name, sc_names !! Z.to_nat n = Some name /\ name ∈ unknown_names.
Proof.
  unfold sysconf. destruct (Z.ltb_spec n 0) as [Hn|Hn]; [split; auto|].
  assert (Hlen : length sc_names = 125%nat) by reflexivity.
  destruct (sc_names !! Z.to_nat n) as [name|] eqn:Hl.
  - rewrite sysconf_name_invalid. apply lookup_lt_Some in Hl as Hlt. split; [eauto|].
    intros [?|[?|(name' & [= <-] & ?)]]; [lia|lia|done].
  - apply lookup_ge_None in Hl. split; [intros _; right; left; lia|done].
Qed.

(** The two implementations of sysconf agree.  For every configuration,
    the function of sysconf.c and the macros of sys/sysconf.h give the same
    value for every name, where the macro compiles at all, except for 18
    names; for each of these some configuration makes them differ.  The
    function answers EINVAL exactly for numbers outside the enumeration and
    for five of its names, which include _SC_PAGESIZE. *)
Theorem sysconf_equivalent (cond : bool -> bool) :
  cond false = false ->
  (forall name, name ∉ divergent <->
     forall on cval c_dev version, sysconf_macro on cval cond c_dev version name <> Undefined ->
       sysconf_name on cval cond c_dev version name = sysconf_macro on cval cond c_dev version name) /\
  (forall on cval c_dev version n, sysconf on cval cond c_dev version n = Invalid <->
     n < 0 \/ 125 <= n \/ exists name, sc_names !! Z.to_nat n = Some name /\ name ∈ unknown_names).
Proof.
  intros Hc. split.
  - intros name. split; [intros Hn on cval c_dev version; by apply sysconf_agrees|].
    intros H Hn. destruct (divergent_differs cond name Hc Hn) as [Hu Hd]. by apply Hd, H.
  - intros on cval c_dev version n. apply sysconf_invalid.
Qed.

Lemma sysconf_equivalent_witness :
  sysconf_name (fun _ => true) (fun _ => 7) (fun b => b) None None SC_MQ_OPEN_MAX = Value 7 /\
  sysconf_macro (fun _ => true) (fun _ => 7) (fun b => b) None None SC_MQ_OPEN_MAX = Value 7 /\
  sysconf (fun _ => true) (fun _ => 7) (fun b => b) None None 111 = Invalid.
Proof.
  destruct (sysconf_equivalent (fun b => b) eq_refl) as [H1 H2].
  assert (Hm : sysconf_macro (fun _ => true) (fun _ => 7) (fun b => b) None None SC_MQ_OPEN_MAX = Value 7) by reflexivity.
  split_and!; [|exact Hm|].
  - rewrite <- Hm. apply (proj1 (H1 SC_MQ_OPEN_MAX)); [by apply (bool_decide_unpack _)|by rewrite Hm].
  - apply H2. right. right. exists SC_PAGESIZE. split; [reflexivity|by apply (bool_decide_unpack _)].
Defined.

(** ** What the option macros announce *)

(** The option macro of a name of sysconf. *)
Definition option_macro (on : string -> bool) (name : sc_name) : option Z :=
  match name with
  | SC_ASYNCHRONOUS_IO => _POSIX_ASYNCHRONOUS_IO on
  | SC_BARRIERS => _POSIX_BARRIERS on
  | SC_CLOCK_SELECTION => _POSIX_CLOCK_SELECTION on
  | SC_CPUTIME => _POSIX_CPUTIME on
  | SC_FSYNC => _POSIX_FSYNC on
  | SC_IPV6 => _POSIX_IPV6 on
  | SC_MAPPED_FILES => _POSIX_MAPPED_FILES on
  | SC_MEMLOCK => _POSIX_MEMLOCK on
  | SC_MEMLOCK_RANGE => _POSIX_MEMLOCK_RANGE on
  | SC_MEMORY_PROTECTION => _POSIX_MEMORY_PROTECTION on
  | SC_MESSAGE_PASSING => _POSIX_MESSAGE_PASSING on
  | SC_MONOTONIC_CLOCK => _POSIX_MONOTONIC_CLOCK on
  | SC_PRIORITY_SCHEDULING => _POSIX_PRIORITY_SCHEDULING on
  | SC_RAW_SOCKETS => _POSIX_RAW_SOCKETS on
  | SC_READER_WRITER_LOCKS => _POSIX_READER_WRITER_LOCKS on
  | SC_REALTIME_SIGNALS => _POSIX_REALTIME_SIGNALS on
  | SC_SEMAPHORES => _POSIX_SEMAPHORES on
  | SC_SHARED_MEMORY_OBJECTS => _POSIX_SHARED_MEMORY_OBJECTS on
  | SC_SPIN_LOCKS => _POSIX_SPIN_LOCKS on
  | SC_SYNCHRONIZED_IO => _POSIX_SYNCHRONIZED_IO on
  | SC_THREADS => _POSIX_THREADS on
  | SC_THREAD_ATTR_STACKADDR => _POSIX_THREAD_ATTR_STACKADDR on
  | SC_THREAD_ATTR_STACKSIZE => _POSIX_THREAD_ATTR_STACKSIZE on
  | SC_THREAD_CPUTIME => _POSIX_THREAD_CPUTIME on
  | SC_THREAD_PRIO_INHERIT => _POSIX_THREAD_PRIO_INHERIT on
  | SC_THREAD_PRIO_PROTECT => _POSIX_THREAD_PRIO_PROTECT on
  | SC_THREAD_PRIORITY_SCHEDULING => _POSIX_THREAD_PRIORITY_SCHEDULING on
  | SC_THREAD_PROCESS_SHARED => _POSIX_THREAD_PROCESS_SHARED on
  | SC_THREAD_SAFE_FUNCTIONS => _POSIX_THREAD_SAFE_FUNCTIONS on
  | SC_TIMEOUTS => _POSIX_TIMEOUTS on
  | SC_TIMERS => _POSIX_TIMERS on
  | SC_2_C_BIND => _POSIX2_C_BIND
  | SC_XOPEN_REALTIME => _XOPEN_REALTIME on
  | SC_XOPEN_REALTIME_THREADS => _XOPEN_REALTIME_THREADS on
  | SC_XOPEN_STREAMS => _XOPEN_STREAMS on
  | SC_XOPEN_UNIX => _XOPEN_UNIX on
  | SC_XOPEN_VERSION => _XOPEN_VERSION on
  | _ => None
  end.

(** Options whose macro can be defined while sysconf says they are missing. *)
Definition unreported : list sc_name :=
  [SC_IPV6; SC_PRIORITY_SCHEDULING; SC_RAW_SOCKETS; SC_REALTIME_SIGNALS; SC_SYNCHRONIZED_IO; SC_THREAD_CPUTIME;
   SC_THREAD_PRIO_PROTECT; SC_THREAD_PRIORITY_SCHEDULING; SC_THREAD_PROCESS_SHARED; SC_THREAD_SAFE_FUNCTIONS;
   SC_TIMEOUTS; SC_2_C_BIND; SC_XOPEN_REALTIME; SC_XOPEN_REALTIME_THREADS].

(** An option whose macro is defined is reported by the function with the
    value of the macro, the ones of [unreported] aside. *)
Lemma options_reported on cval cond c_dev version name v :
  name ∉ unreported -> option_macro on name = Some v -> sysconf_name on cval cond c_dev version name = Value v.
Proof.
  intros Hn. apply (bool_decide_eq_false_2 _) in Hn. revert Hn.
  destruct name; cbv; try done; intros _; repeat case_match; intros; simplify_eq; done.
Qed.

(** Realtime signals are configured and announced, and sysconf denies them. *)
Lemma realtime_signals_denied on cval cond c_dev version :
  on "POSIX_REALTIME_SIGNALS" = true ->
  option_macro on SC_REALTIME_SIGNALS = Some 200809 /\
  sysconf_name on cval cond c_dev version SC_REALTIME_SIGNALS = Value (-1).
Proof. intros H. unfold option_macro, _POSIX_REALTIME_SIGNALS, if_set. by rewrite H. Qed.
