(* ===== verification/Memory.v ===== *)
(** * Memory mapping and locking
    (mapped_files/mmap.c, memlock_range/mlock.c, memlock/mlockall.c, memory_protection/mprotect.c)

    The kernel's memory management, its state [K] and its calls are
    parameters; so is zvfs_ioctl, through which a descriptor is mapped.  For a
    shared memory object that call is shm_ioctl of [Shm]. *)

From stdpp Require Import base list gmap.
From Stdlib Require Import ZArith Lia.
From S2P Require Import Prelude Shm.

Local Open Scope Z_scope.

Section Mmap.
Context {K : Type}.
(** k_mem_map with a length and flags, k_mem_map_phys_bare with a physical
    address, a length and flags, k_mem_unmap, arch_page_phys_get (whether the
    page is mapped), k_mem_pin and k_mem_unpin. *)
Context (k_mem_map : K -> Z -> Z -> K * option Z).
Context (k_mem_map_phys_bare : K -> Z -> Z -> Z -> K * option Z).
Context (k_mem_unmap : K -> Z -> Z -> K) (arch_page_phys_get : K -> Z -> bool).
Context (k_mem_pin k_mem_unpin : K -> Z -> Z -> K).
(** zvfs_ioctl(fd, ZFD_IOCTL_MMAP, addr, len, prot, flags, off, &virt): the
    address stored in virt ([None] is NULL), or the error. *)
Context (zvfs_ioctl_mmap : K -> Z -> Z -> Z -> Z -> Z -> Z -> K * res (option Z)).
Context (PROT_WRITE PROT_EXEC MAP_FIXED MAP_SHARED MAP_PRIVATE MAP_ANONYMOUS : Z).
Context (K_MEM_PERM_RW K_MEM_PERM_EXEC K_MEM_DIRECT_MAP : Z).
(** Whether there are an MMU and demand paging, and _page_size. *)
Context (mmu demand_paging : bool) (page_size : Z).

Definition bit (b : bool) (f : Z) : Z := if b then f else 0.

(** [None] is -1. *)
Definition p2z (prot pflags : Z) : option Z :=
  let rw := flag_set prot PROT_WRITE in
  let ex := flag_set prot PROT_EXEC in
  let fixed := flag_set pflags MAP_FIXED in
  let shared := flag_set pflags MAP_SHARED in
  let private := flag_set pflags MAP_PRIVATE in
  if negb (xorb shared private) then None
  else Some (Z.lor (Z.lor (bit rw K_MEM_PERM_RW) (bit ex K_MEM_PERM_EXEC)) (bit fixed K_MEM_DIRECT_MAP)).

(** The result is the address; NULL, which a descriptor's ioctl may leave,
    is 0. *)
Definition mmap (k : K) (addr len prot flags fd off : Z) : K * res Z :=
  match p2z prot flags with
  | None => (k, Err EINVAL)
  | Some zflags =>
      if len =? 0 then (k, Err EINVAL)
      else
        let fd := if flag_set flags MAP_ANONYMOUS then -1 else fd in
        if 0 <? fd then
          match zvfs_ioctl_mmap k fd addr len prot flags off with
          | (k', Err e) => (k', Err e)
          | (k', Ok virt) => (k', Ok (default 0 virt))
          end
        else if negb mmu then (k, Err ENOTSUP)
        else
          let '(k', virt) :=
            if negb (flag_set flags MAP_FIXED) then k_mem_map k len zflags
            else k_mem_map_phys_bare k addr (ROUND_UP len page_size) zflags in
          match virt with
          | None => (k', Err ENOMEM)
          | Some v => (k', Ok v)
          end
  end.

Definition msync (k : K) (addr length flags : Z) : K * res unit := (k, Ok tt).

Definition munmap (k : K) (addr len : Z) : K * res unit :=
  if len =? 0 then (k, Err EINVAL)
  else if negb mmu then (k, Err ENOTSUP)
  else (if arch_page_phys_get k addr then k_mem_unmap k addr (ROUND_UP len page_size) else k, Ok tt).

Definition mlock (k : K) (addr len : Z) : K * res unit :=
  if demand_paging then (k_mem_pin k addr len, Ok tt) else (k, Err ENOTSUP).
Definition munlock (k : K) (addr len : Z) : K * res unit :=
  if demand_paging then (k_mem_unpin k addr len, Ok tt) else (k, Err ENOTSUP).

Definition mlockall (k : K) (flags : Z) : K * res unit := (k, Err ENOSYS).
Definition munlockall (k : K) : K * res unit := (k, Err ENOSYS).
Definition mprotect (k : K) (addr len prot : Z) : K * res unit := (k, Err ENOSYS).

(** ** What a mapping comes from *)

(** The request is refused before anything is called. *)
Definition bad_request (len flags : Z) : bool :=
  (len =? 0) || Bool.eqb (flag_set flags MAP_SHARED) (flag_set flags MAP_PRIVATE).

Lemma p2z_None prot flags :
  p2z prot flags = None <-> flag_set flags MAP_SHARED = flag_set flags MAP_PRIVATE.
Proof.
  unfold p2z. destruct (flag_set flags MAP_SHARED), (flag_set flags MAP_PRIVATE); cbn; split; done.
Qed.

(** Every outcome of mmap: refused, the descriptor's, anonymous, physical. *)
Lemma mmap_cases k addr len prot flags fd off :
  mmap k addr len prot flags fd off =
  if bad_request len flags then (k, Err EINVAL)
  else if negb (flag_set flags MAP_ANONYMOUS) && (0 <? fd) then
    let '(k', r) := zvfs_ioctl_mmap k fd addr len prot flags off in
    (k', match r with Ok virt => Ok (default 0 virt) | Err e => Err e end)
  else if negb mmu then (k, Err ENOTSUP)
  else
    let zflags := default 0 (p2z prot flags) in
    let '(k', virt) := if flag_set flags MAP_FIXED then k_mem_map_phys_bare k addr (ROUND_UP len page_size) zflags
                       else k_mem_map k len zflags in
    (k', match virt with None => Err ENOMEM | Some v => Ok v end).
Proof.
  unfold mmap, bad_request. destruct (p2z prot flags) as [zf|] eqn:Hz.
  - assert (Hne : flag_set flags MAP_SHARED <> flag_set flags MAP_PRIVATE) by (rewrite <- p2z_None, Hz; done).
    rewrite (proj2 (eqb_false_iff _ _) Hne), orb_false_r.
    destruct (len =? 0); [done|].
    assert (Hanon : forall b, (if negb mmu then (k, Err ENOTSUP)
      else let '(k', virt) := if negb b then k_mem_map k len zf
                              else k_mem_map_phys_bare k addr (ROUND_UP len page_size) zf in
           match virt with None => (k', Err ENOMEM) | Some v => (k', Ok v) end) =
      (if negb mmu then (k, Err ENOTSUP)
       else let '(k', virt) := if b then k_mem_map_phys_bare k addr (ROUND_UP len page_size) zf
                               else k_mem_map k len zf in
            (k', match virt with None => Err ENOMEM | Some v => Ok v end)) :> K * res Z).
    { intros b. destruct mmu, b; cbn; try done;
        [by destruct (k_mem_map_phys_bare k addr _ zf) as [? [?|]]|by destruct (k_mem_map k len zf) as [? [?|]]]. }
    destruct (flag_set flags MAP_ANONYMOUS); cbn [negb andb default].
    + apply Hanon.
    + destruct (0 <? fd); [by destruct (zvfs_ioctl_mmap _ _ _ _ _ _ _) as [? [?|?]]|apply Hanon].
  - rewrite (proj1 (p2z_None prot flags) Hz), eqb_reflx, orb_true_r. done.
Qed.

(** Descriptor 0 is not mapped, nor is a bad descriptor an error: both get
    anonymous memory. *)
Lemma mmap_descriptor_zero k addr len prot flags fd off :
  fd <= 0 -> mmap k addr len prot flags fd off = mmap k addr len prot flags (-1) off.
Proof. intros Hfd. rewrite !mmap_cases, (proj2 (Z.ltb_ge 0 fd) Hfd). change (0 <? -1) with false. rewrite andb_false_r. reflexivity. Qed.
End Mmap.

(** ** Mapping shared memory *)

Section ShmMap.
Context (W : Z) (mmu : bool) (page_size : Z) (page_phys_get : Z -> bool) (MAP_FIXED : Z).

(** zvfs_ioctl for the descriptors [fds] of shared memory objects; another
    descriptor is EBADF. *)
Definition shm_zvfs_ioctl (fds : Z -> option Z) (st : shms) (fd addr len prot flags off : Z)
    : shms * res (option Z) :=
  match fds fd with
  | None => (st, Err EBADF)
  | Some a =>
      match shm_ioctl W mmu page_size MAP_FIXED st a (ZFD_IOCTL_MMAP len flags off) with
      | None => (st, Err EBADF)
      | Some (st', Err e) => (st', Err e)
      | Some (st', Ok (RetVirt v)) => (st', Ok (Some v))
      | Some (st', Ok _) => (st', Ok None)
      end
  end.
End ShmMap.

(** A successful mapping of a shared memory object is a part of its memory:
    it starts at a page and the object has all its bytes; the mapping is
    shared or private, not both, and not at an address of the caller's
    choice. *)
Lemma mmap_shm_in_object W mmu page_size MAP_FIXED MAP_SHARED MAP_PRIVATE MAP_ANONYMOUS PROT_WRITE PROT_EXEC
    RW EXEC DIRECT map_anon map_phys fds st addr len prot flags fd off st' v :
  0 < W -> 0 < len < 2 ^ W -> 0 <= off < 2 ^ W -> len + off < 2 ^ W -> 0 < fd -> flag_set flags MAP_ANONYMOUS = false ->
  mmap map_anon map_phys (shm_zvfs_ioctl W mmu page_size MAP_FIXED fds) PROT_WRITE PROT_EXEC MAP_FIXED
    MAP_SHARED MAP_PRIVATE MAP_ANONYMOUS RW EXEC DIRECT mmu page_size st addr len prot flags fd off = (st', Ok v) ->
  exists a o m, fds fd = Some a /\ shm_heap st !! a = Some o /\ mem o = Some m /\ st' = st /\ v = m + off /\
    off + len <= size o /\ Z.land off (page_size - 1) = 0 /\ flag_set flags MAP_FIXED = false /\
    flag_set flags MAP_SHARED <> flag_set flags MAP_PRIVATE.
Proof.
  intros HW Hlen Hoff Hsum Hfd Hanon. rewrite mmap_cases, Hanon. cbn [negb andb].
  rewrite (proj2 (Z.ltb_lt 0 fd) Hfd). unfold bad_request. rewrite (proj2 (Z.eqb_neq len 0)) by lia. cbn [orb].
  destruct (Bool.eqb (flag_set flags MAP_SHARED) (flag_set flags MAP_PRIVATE)) eqn:Heq; [done|].
  apply eqb_false_iff in Heq. unfold shm_zvfs_ioctl, shm_ioctl.
  destruct (fds fd) as [a|] eqn:Ha; [|done]. destruct (shm_heap st !! a) as [o|] eqn:Ho; [|done].
  unfold shm_mmap. destruct (len =? 0); [done|]. rewrite (proj2 (Z.ltb_ge off 0)) by lia. cbn [orb].
  destruct (flag_set flags MAP_FIXED); [done|]. destruct (Z.eqb_spec (Z.land off (page_size - 1)) 0); [|done]. cbn [orb negb].
  assert (Hu : uwrap W (len + uwrap W off) = len + off).
  { unfold uwrap. rewrite (Z.mod_small off), Z.mod_small by lia. done. }
  rewrite Hu. destruct (Z.ltb_spec (size o) (len + off)); [done|]. destruct mmu; [|done].
  destruct (mem o) as [m|] eqn:Hm; [|done]. cbn. intros [= <- <-]. exists a, o, m. split_and!; done || lia.
Qed.
