(* ===== verification/Socket.v ===== *)
(** * Messages, address lookup and interface names
    (the rest of net/conversion.h; options/networking: sendmsg.c, recvmsg.c, getaddrinfo.c,
    if_nameindex.c, if_indextoname.c, if_nametoindex.c, recv.c, send.c)

    Structures that are converted as a whole (struct msghdr, struct addrinfo)
    are the lists of their bytes, as in [Sockaddr]; sendmsg and recvmsg, which
    fill a native header field by field, have headers as records.  The calls
    of the network stack are parameters.  [None] is an access outside an
    object, or of memory that was never written. *)

From stdpp Require Import base list strings.
From Stdlib Require Import ZArith Lia.
From S2P Require Import Prelude Sockaddr.

Local Open Scope nat_scope.

(** ** Headers and hints as objects *)

Section Objects.
Context (little_endian : bool).

Record iovec_layout := mk_iovec { iov_size : nat; iov_base : field; iov_len : field }.
Record msghdr_layout := mk_msghdr {
  mh_size : nat; mh_name : field; mh_namelen : field; mh_iov : field; mh_iovlen : field; mh_control : field;
  mh_controllen : field; mh_flags : field }.
Record addrinfo_layout := mk_addrinfo {
  ai_size : nat; ai_next : field; ai_flags : field; ai_family : field; ai_socktype : field; ai_protocol : field;
  ai_addrlen : field; ai_addr : field; ai_canonname : field }.

Context (posix zephyr : abi).
Context (p_iov z_iov : iovec_layout) (p_msg z_msg : msghdr_layout) (p_ai z_ai : addrinfo_layout).

Definition posix_iovec_layout_eq : bool :=
  (iov_size z_iov =? iov_size p_iov) && field_layout_eq (iov_base z_iov) (iov_base p_iov) &&
  field_layout_eq (iov_len z_iov) (iov_len p_iov).

Definition posix_msghdr_layout_eq : bool :=
  posix_iovec_layout_eq && (mh_size z_msg =? mh_size p_msg) &&
  field_layout_eq (mh_name z_msg) (mh_name p_msg) && field_layout_eq (mh_namelen z_msg) (mh_namelen p_msg) &&
  field_layout_eq (mh_iov z_msg) (mh_iov p_msg) && field_layout_eq (mh_iovlen z_msg) (mh_iovlen p_msg) &&
  field_layout_eq (mh_control z_msg) (mh_control p_msg) &&
  field_layout_eq (mh_controllen z_msg) (mh_controllen p_msg) && field_layout_eq (mh_flags z_msg) (mh_flags p_msg).

Definition msghdr_copies (from to : msghdr_layout) : list copy :=
  [CInt (mh_name from) (mh_name to); CInt (mh_namelen from) (mh_namelen to); CInt (mh_iov from) (mh_iov to);
   CInt (mh_iovlen from) (mh_iovlen to); CInt (mh_control from) (mh_control to);
   CInt (mh_controllen from) (mh_controllen to); CInt (mh_flags from) (mh_flags to)].

(** The pointer that is returned is [msg] or [buf]. *)
Definition posix_msghdr_to_zephyr (msg : list Z) (room : nat) : option (bool * list Z * nat) :=
  convert little_endian
    (posix_msghdr_layout_eq && posix_sockaddr_in_layout_eq posix zephyr && posix_sockaddr_in6_layout_eq posix zephyr)
    (mh_size z_msg) (msghdr_copies p_msg z_msg) msg room.

(** [is_msg]: zmsg and msg are the same object. *)
Definition zephyr_msghdr_to_posix (is_msg : bool) (zmsg msg : list Z) : option (list Z) :=
  if is_msg then Some zmsg
  else copy_fields little_endian
         [CInt (mh_namelen z_msg) (mh_namelen p_msg); CInt (mh_controllen z_msg) (mh_controllen p_msg);
          CInt (mh_flags z_msg) (mh_flags p_msg)] zmsg msg.

(** ai_addr is not compared. *)
Definition posix_addrinfo_layout_eq : bool :=
  (ai_size z_ai =? ai_size p_ai) && field_layout_eq (ai_next z_ai) (ai_next p_ai) &&
  field_layout_eq (ai_flags z_ai) (ai_flags p_ai) && field_layout_eq (ai_family z_ai) (ai_family p_ai) &&
  field_layout_eq (ai_socktype z_ai) (ai_socktype p_ai) && field_layout_eq (ai_protocol z_ai) (ai_protocol p_ai) &&
  field_layout_eq (ai_addrlen z_ai) (ai_addrlen p_ai) && field_layout_eq (ai_canonname z_ai) (ai_canonname p_ai).

Definition hint_copies (from to : addrinfo_layout) : list copy :=
  [CInt (ai_flags from) (ai_flags to); CInt (ai_family from) (ai_family to);
   CInt (ai_socktype from) (ai_socktype to); CInt (ai_protocol from) (ai_protocol to)].

(** [inl] is NULL. *)
Definition posix_addrinfo_hints_to_zephyr (hints : option (list Z)) (room : nat)
    : unit + option (bool * list Z * nat) :=
  match hints with
  | None => inl tt
  | Some h => inr (convert little_endian posix_addrinfo_layout_eq (ai_size z_ai) (hint_copies p_ai z_ai) h room)
  end.

Definition zephyr_addrinfo_to_posix_fields (src dst : list Z) : option (list Z) :=
  copy_fields little_endian
    [CInt (ai_flags z_ai) (ai_flags p_ai); CInt (ai_family z_ai) (ai_family p_ai);
     CInt (ai_socktype z_ai) (ai_socktype p_ai); CInt (ai_protocol z_ai) (ai_protocol p_ai);
     CInt (ai_addrlen z_ai) (ai_addrlen p_ai); CInt (ai_addr z_ai) (ai_addr p_ai);
     CInt (ai_canonname z_ai) (ai_canonname p_ai)] src dst.

(** getaddrinfo: the hints are converted, the node of the network stack is
    handed out as it is, under the type of the POSIX structure. *)
Definition getaddrinfo {S} (zsock_getaddrinfo : S -> option (list Z) -> Z * list Z) (args : S)
    (hints : option (list Z)) : option (Z * list Z) :=
  match posix_addrinfo_hints_to_zephyr hints (ai_size z_ai) with
  | inl _ => Some (zsock_getaddrinfo args None)
  | inr None => None
  | inr (Some (_, zhints, _)) => Some (zsock_getaddrinfo args (Some zhints))
  end.

Lemma layout_eq_fields f g : field_layout_eq f g = true -> g = f.
Proof.
  unfold field_layout_eq. rewrite andb_true_iff, !Nat.eqb_eq. destruct f, g; cbn. by intros [-> ->].
Qed.

(** The header the network stack gets has the fields of the caller's,
    whether the pointer is cast or the fields are copied. *)
Lemma msghdr_agrees msg room :
  dests_ok (mh_size z_msg) (msghdr_copies p_msg z_msg) = true ->
  forallb (fits little_endian msg) (msghdr_copies p_msg z_msg) = true -> bytes_ok msg -> mh_size z_msg <= room ->
  exists cast out, posix_msghdr_to_zephyr msg room = Some (cast, out, mh_size z_msg) /\
    Forall (agree little_endian msg out) (msghdr_copies p_msg z_msg).
Proof.
  intros Hd Hf Hb Hr. destruct (convert_spec little_endian
    (posix_msghdr_layout_eq && posix_sockaddr_in_layout_eq posix zephyr && posix_sockaddr_in6_layout_eq posix zephyr)
    (mh_size z_msg) (msghdr_copies p_msg z_msg) msg room) as (cast & out & He & Ha & _); [|done..|by eauto].
  intros [[Hs _]%andb_true_iff _]%andb_true_iff. unfold posix_msghdr_layout_eq in Hs.
  repeat (apply andb_true_iff in Hs as [Hs ?]).
  repeat match goal with H : field_layout_eq _ _ = true |- _ => apply layout_eq_fields in H end.
  repeat constructor; cbn; congruence.
Qed.

(** The hints reach the network stack, NULL as NULL. *)
Lemma getaddrinfo_hints {S} (zsock : S -> option (list Z) -> Z * list Z) args h :
  dests_ok (ai_size z_ai) (hint_copies p_ai z_ai) = true ->
  forallb (fits little_endian h) (hint_copies p_ai z_ai) = true -> bytes_ok h ->
  getaddrinfo zsock args None = Some (zsock args None) /\
  exists zh, getaddrinfo zsock args (Some h) = Some (zsock args (Some zh)) /\
    Forall (agree little_endian h zh) (hint_copies p_ai z_ai).
Proof.
  intros Hd Hf Hb. split; [done|]. unfold getaddrinfo, posix_addrinfo_hints_to_zephyr.
  destruct (convert_spec little_endian posix_addrinfo_layout_eq (ai_size z_ai) (hint_copies p_ai z_ai) h (ai_size z_ai))
    as (cast & zh & -> & Ha & _); [|done..|by eauto].
  intros Hs. unfold posix_addrinfo_layout_eq in Hs. repeat (apply andb_true_iff in Hs as [Hs ?]).
  repeat match goal with H : field_layout_eq _ _ = true |- _ => apply layout_eq_fields in H end.
  repeat constructor; cbn; congruence.
Qed.
End Objects.

(** ** sendmsg and recvmsg *)

(** A header; msg_iov and msg_control are pointers, msg_name is the object it
    points to with msg_namelen. *)
Record msghdr := mk_hdr {
  msg_name : option (list Z); msg_namelen : nat; msg_iov : Z; msg_iovlen : Z; msg_control : Z; msg_controllen : Z;
  msg_flags : Z }.

Section Messages.
Context (little_endian : bool) (posix zephyr : abi) (sa_family : field) (native_size : Z -> option nat) (storage : nat).

(** The header zsock_sendmsg gets; the outer [None] is an access outside the
    address, the error a NULL message. *)
Definition sendmsg {R} (zsock_sendmsg : msghdr -> R) (message : option msghdr) : option (R + errno) :=
  match message with
  | None => Some (inr EINVAL)
  | Some m =>
      let native name len :=
        mk_hdr name len (msg_iov m) (msg_iovlen m) (msg_control m) (msg_controllen m) (msg_flags m) in
      match msg_name m with
      | Some a =>
          if msg_namelen m =? 0 then Some (inl (zsock_sendmsg (native None 0)))
          else match pass_address little_endian posix zephyr sa_family native_size storage a (msg_namelen m) with
               | None => None
               | Some (zaddr, zlen) => Some (inl (zsock_sendmsg (native (Some zaddr) zlen)))
               end
      | None => Some (inl (zsock_sendmsg (native None 0)))
      end
  end.

(** zsock_recvmsg with the header it is given: the result and the header,
    in which msg_name is what it has written to the buffer. *)
Definition recvmsg (zsock_recvmsg : msghdr -> Z * msghdr) (zaddr0 : list Z) (msg : option msghdr)
    : option (res Z * option msghdr) :=
  match msg with
  | None => Some (Err EINVAL, None)
  | Some m =>
      let named := match msg_name m with Some _ => 0 <? msg_namelen m | None => false end in
      let zmsg := mk_hdr (if named then Some zaddr0 else None) (if named then length zaddr0 else 0)
                    (msg_iov m) (msg_iovlen m) (msg_control m) (msg_controllen m) (msg_flags m) in
      let '(ret, zmsg') := zsock_recvmsg zmsg in
      if (ret <? 0)%Z then Some (Ok ret, msg)
      else
        let done name len :=
          Some (Ok ret, Some (mk_hdr name len (msg_iov m) (msg_iovlen m) (msg_control m)
                                (msg_controllen zmsg') (msg_flags zmsg'))) in
        match msg_name m, msg_name zmsg' with
        | Some a, Some zaddr =>
            if named && (0 <? msg_namelen zmsg') then
              match return_address little_endian posix zephyr sa_family zaddr (msg_namelen zmsg') a with
              | None => None
              | Some (a', len) => done (Some a') len
              end
            else done (msg_name m) (msg_namelen m)
        | _, _ => done (msg_name m) (msg_namelen m)
        end
  end.

(** sendmsg converts the address as sendto does, and passes the rest of the
    header on. *)
Lemma sendmsg_like_sendto {R} (zsock : msghdr -> R) m a :
  msg_name m = Some a -> 0 < msg_namelen m ->
  sendmsg zsock (Some m) =
  inl <$> sendto little_endian posix zephyr sa_family native_size storage
    (fun p => zsock (mk_hdr (fst <$> p) (default 0 (snd <$> p)) (msg_iov m) (msg_iovlen m) (msg_control m)
                       (msg_controllen m) (msg_flags m))) (Some a) (msg_namelen m).
Proof.
  intros Ha Hl. unfold sendmsg, sendto. rewrite Ha. destruct (Nat.eqb_spec (msg_namelen m) 0); [lia|].
  by destruct (pass_address _ _ _ _ _ _ _ _) as [[? ?]|].
Qed.

(** recvmsg returns the address as recvfrom does, and takes the length of
    the control data and the flags from the network stack. *)
Lemma recvmsg_like_recvfrom zsock zaddr0 m a ret zaddr zmsg :
  msg_name m = Some a -> msg_namelen m = length a -> 0 < length a ->
  zsock (mk_hdr (Some zaddr0) (length zaddr0) (msg_iov m) (msg_iovlen m) (msg_control m) (msg_controllen m)
           (msg_flags m)) = (ret, zmsg) ->
  (0 <= ret)%Z -> msg_name zmsg = Some zaddr -> 0 < msg_namelen zmsg ->
  recvmsg zsock zaddr0 (Some m) =
  match recvfrom little_endian posix zephyr sa_family ret zaddr (msg_namelen zmsg) (Some a) with
  | Some (r, Some (a', len)) =>
      Some (Ok r, Some (mk_hdr (Some a') len (msg_iov m) (msg_iovlen m) (msg_control m) (msg_controllen zmsg)
                          (msg_flags zmsg)))
  | _ => None
  end.
Proof.
  intros Ha Hlen Hpos Hz Hret Hzn Hzl. unfold recvmsg, recvfrom, accept. rewrite Ha, Hlen.
  rewrite (proj2 (Nat.ltb_lt 0 (length a)) Hpos), Hz, (proj2 (Z.ltb_ge ret 0) Hret), Hzn, (proj2 (Nat.ltb_lt 0 _) Hzl).
  cbn [andb]. by destruct (return_address _ _ _ _ _ _ _) as [[? ?]|].
Qed.

(** A failing call leaves the caller's header alone. *)
Lemma recvmsg_fails zsock zaddr0 m ret zmsg :
  (forall z, zsock z = (ret, zmsg)) -> (ret < 0)%Z -> recvmsg zsock zaddr0 (Some m) = Some (Ok ret, Some m).
Proof. intros Hz Hr. unfold recvmsg. by rewrite Hz, (proj2 (Z.ltb_lt ret 0) Hr). Qed.
End Messages.

(** recv and send: no address. *)
Definition recv {A R} (zsock_recvfrom : A -> option (list Z) -> R) (args : A) : R := zsock_recvfrom args None.
Definition send {A R} (zsock_sendto : A -> option (list Z * nat) -> R) (args : A) : R := zsock_sendto args None.

(** ** Interface names *)

(** net_if_get_name of net_if_get_by_index; net_if_get_by_name. *)
Section Interfaces.
Context (net_if_get_name : Z -> option string) (net_if_get_by_name : string -> Z).

Definition if_indextoname (ifindex : Z) : res string :=
  match net_if_get_name ifindex with Some name => Ok name | None => Err ENXIO end.

Definition if_nametoindex (ifname : string) : Z :=
  let ret := net_if_get_by_name ifname in if (ret <? 0)%Z then 0%Z else ret.

(** A pointer in memory of malloc: never written, NULL, or a block, whose
    contents are those if_indextoname has written. *)
Inductive name_ptr := PUninit | PNull | PBlock (name : option string).

Record if_entry := mk_entry { if_index : option Z; if_name : name_ptr }.

(** The loop over [n] entries that frees; the number of blocks freed, [None]
    when a pointer that was never written is used. *)
Fixpoint free_loop (l : list if_entry) : option nat :=
  match l with
  | [] => Some 0
  | e :: l' =>
      match if_name e, free_loop l' with
      | PUninit, _ | _, None => None
      | PNull, Some k => Some k
      | PBlock _, Some k => Some (S k)
      end
  end.

(** [n] is NET_IFACE_COUNT; blocks freed, with the array. *)
Definition if_freenameindex (n : nat) (ptr : option (list if_entry)) : option nat :=
  match ptr with
  | None => Some 0
  | Some l => S <$> free_loop (take n l)
  end.

(** The loop that fills entry [i] and those behind it, while [mem] says which
    allocations succeed: the array, and whether all did. *)
Fixpoint fill_loop (i k : nat) (mem : list bool) (ni : list if_entry) : list if_entry * bool :=
  match k with
  | O => (ni, true)
  | S k' =>
      match mem with
      | true :: mem' =>
          let name := match if_indextoname (Z.of_nat i + 1) with Ok s => Some s | Err _ => None end in
          fill_loop (S i) k' mem' (<[i := mk_entry (Some (Z.of_nat i + 1)%Z) (PBlock name)]> ni)
      | _ => (<[i := mk_entry (Some (Z.of_nat i + 1)%Z) PNull]> ni, false)
      end
  end.

(** [None] is a use of a pointer that was never written. *)
Definition if_nameindex (n : nat) (array_mem : bool) (mem : list bool) : option (res (list if_entry)) :=
  if negb array_mem then (fun _ => Err ENOBUFS) <$> if_freenameindex n None
  else
    let '(ni, ok) := fill_loop 0 n mem (replicate (S n) (mk_entry None PUninit)) in
    if ok then Some (Ok (<[n := mk_entry (Some 0%Z) PNull]> ni))
    else (fun _ => Err ENOBUFS) <$> if_freenameindex n (Some ni).

(** The list that is promised. *)
Definition named_entry (i : nat) : if_entry :=
  mk_entry (Some (Z.of_nat i + 1)%Z) (PBlock (net_if_get_name (Z.of_nat i + 1))).
Definition name_list (n : nat) : list if_entry := (named_entry <$> seq 0 n) ++ [mk_entry (Some 0%Z) PNull].

Lemma insert_named i x l : <[i := x]> ((named_entry <$> seq 0 i) ++ l) = (named_entry <$> seq 0 i) ++ <[0 := x]> l.
Proof. rewrite insert_app_r_alt by (rewrite length_fmap, length_seq; lia). by rewrite length_fmap, length_seq, Nat.sub_diag. Qed.

Lemma fill_all k : forall i rest l, k <= length l ->
  fill_loop i k (replicate k true ++ rest) ((named_entry <$> seq 0 i) ++ l) = ((named_entry <$> seq 0 (i + k)) ++ drop k l, true).
Proof.
  induction k as [|k IH]; intros i rest l Hl; cbn [fill_loop replicate app]; [by rewrite Nat.add_0_r|].
  destruct l as [|x l]; cbn in Hl; [lia|]. rewrite insert_named. cbn [insert list_insert].
  assert (He : forall y, (named_entry <$> seq 0 i) ++ y :: l = ((named_entry <$> seq 0 i) ++ [y]) ++ l)
    by (intros y; by rewrite <- app_assoc).
  rewrite He. unfold if_indextoname.
  assert (Hn : (named_entry <$> seq 0 i) ++
    [mk_entry (Some (Z.of_nat i + 1)%Z) (PBlock match match net_if_get_name (Z.of_nat i + 1) with
       Some name => Ok name | None => Err ENXIO end with Ok s => Some s | Err _ => None end)] = named_entry <$> seq 0 (S i)).
  { rewrite seq_S, fmap_app. f_equal. cbn. unfold named_entry. by destruct (net_if_get_name _). }
  rewrite Hn, IH by lia. by rewrite Nat.add_succ_r.
Qed.

Lemma fill_stops j : forall i k rest l, j < k -> k <= length l ->
  exists name, fill_loop i k (replicate j true ++ false :: rest) ((named_entry <$> seq 0 i) ++ l) =
    ((named_entry <$> seq 0 (i + j)) ++ mk_entry name PNull :: drop (S j) l, false).
Proof.
  induction j as [|j IH]; intros i [|k] rest l Hj Hl; try lia; cbn [fill_loop replicate app];
    (destruct l as [|x l]; cbn in Hl; [lia|]); rewrite insert_named; cbn [insert list_insert].
  - eexists. by rewrite Nat.add_0_r.
  - pose proof (fill_all 1 i [] (x :: l)) as H1. cbn [fill_loop replicate app length] in H1.
    rewrite insert_named in H1. cbn [insert list_insert drop] in H1. specialize (H1 ltac:(lia)).
    injection H1 as H1. rewrite H1, Nat.add_1_r, drop_0. destruct (IH (S i) k rest l) as [name ->]; [lia..|].
    exists name. by rewrite Nat.add_succ_r.
Qed.

Lemma free_named i l : free_loop ((named_entry <$> seq 0 i) ++ l) = (fun k => i + k) <$> free_loop l.
Proof.
  assert (Hg : forall xs, free_loop ((named_entry <$> xs) ++ l) = (fun k => length xs + k) <$> free_loop l).
  { intros xs. induction xs as [|x xs IH]; cbn; [by destruct (free_loop l)|]. rewrite IH. by destruct (free_loop l). }
  by rewrite Hg, length_seq.
Qed.

(** With the memory it asks for, if_nameindex lists every interface with its
    name, in order, and ends the list; if_freenameindex gives all n + 1 blocks
    back.  Without memory for the array it is ENOBUFS.  Without memory for the
    name of interface [j + 1] it is ENOBUFS when that is the last one; when it
    is not, the names behind it, which were never set, are freed. *)
Lemma if_nameindex_spec n rest :
  if_nameindex n true (replicate n true ++ rest) = Some (Ok (name_list n)) /\
  if_freenameindex n (Some (name_list n)) = Some (S n) /\
  (forall mem, if_nameindex n false mem = Some (Err ENOBUFS)) /\
  (forall j, j < n -> if_nameindex n true (replicate j true ++ false :: rest) =
                      if j + 1 =? n then Some (Err ENOBUFS) else None).
Proof.
  unfold if_nameindex, if_freenameindex. cbn [negb]. split_and!; [..|done|].
  - pose proof (fill_all n 0 rest (replicate (S n) (mk_entry None PUninit))) as Hf. cbn [seq fmap list_fmap app] in Hf.
    rewrite Hf, drop_replicate by (rewrite length_replicate; lia). replace (S n - n) with 1 by lia. cbn [replicate Nat.add]. by rewrite insert_named.
  - unfold name_list. rewrite take_app_le, take_ge by (rewrite length_fmap, length_seq; lia).
    rewrite <- (app_nil_r (named_entry <$> seq 0 n)), free_named. cbn. by rewrite Nat.add_0_r.
  - intros j Hj. destruct (fill_stops j 0 n rest (replicate (S n) (mk_entry None PUninit))) as [name Hf];
      [lia|rewrite length_replicate; lia|]. cbn [seq fmap list_fmap app] in Hf. rewrite Hf. cbn [Nat.add].
    rewrite drop_replicate. replace (S n - S j) with (S (n - S j)) by lia.
    assert (Ht : take n ((named_entry <$> seq 0 j) ++ mk_entry name PNull :: replicate (S (n - S j)) (mk_entry None PUninit)) =
      (named_entry <$> seq 0 j) ++ mk_entry name PNull :: replicate (n - S j) (mk_entry None PUninit)).
    { rewrite take_app_ge by (rewrite length_fmap, length_seq; lia). rewrite length_fmap, length_seq. f_equal.
      replace (n - j) with (S (n - S j)) by lia. cbn [take]. f_equal.
      rewrite take_replicate. f_equal. lia. }
    rewrite Ht, free_named. destruct (Nat.eqb_spec (j + 1) n) as [<-|].
    + replace (j + 1 - S j) with 0 by lia. done.
    + destruct (n - S j) eqn:?; [lia|]. done.
Qed.
End Interfaces.

(** ** The build's assertions (socket.c) *)

(** The constants of one side that socket.c compares. *)
Record net_consts := mk_consts {
  SOCK_STREAM : Z; SOCK_DGRAM : Z; SOCK_RAW : Z; SOL_SOCKET : Z; SO_REUSEADDR : Z; SOMAXCONN : Z;
  SHUT_RD : Z; SHUT_WR : Z; SHUT_RDWR : Z; MSG_CTRUNC : Z; MSG_PEEK : Z; MSG_TRUNC : Z; MSG_WAITALL : Z }.

(** struct in_addr: its size and s_addr. *)
Record in_addr_layout := mk_in_addr { ia_size : nat; s_addr : field }.

Section Asserts.
Context (little_endian : bool) (posix zephyr : abi) (pc zc : net_consts) (p_ia z_ia : in_addr_layout).
Context (p_iov z_iov : iovec_layout) (p_msg z_msg : msghdr_layout) (p_ai z_ai : addrinfo_layout).

Definition posix_in_addr_layout_eq : bool :=
  (AF_INET posix =? AF_INET zephyr)%Z && (ia_size z_ia =? ia_size p_ia) && field_layout_eq (s_addr z_ia) (s_addr p_ia).

Definition socket_build_asserts (minimal_libc : bool) : bool :=
  let eqc f := (f pc =? f zc)%Z in
  let eqf f := (f posix =? f zephyr)%Z in
  eqc SOCK_STREAM && eqc SOCK_DGRAM && eqc SOCK_RAW && eqf AF_INET && eqf AF_INET6 && eqf AF_UNIX &&
  eqc SOL_SOCKET && eqc SO_REUSEADDR && eqc SOMAXCONN && eqc SHUT_RD && eqc SHUT_WR && eqc SHUT_RDWR &&
  eqc MSG_CTRUNC && eqc MSG_PEEK && eqc MSG_TRUNC && eqc MSG_WAITALL &&
  (negb minimal_libc ||
   (posix_in_addr_layout_eq && posix_sockaddr_in_layout_eq posix zephyr && posix_sockaddr_in6_layout_eq posix zephyr &&
    posix_sockaddr_un_layout_eq posix zephyr && posix_iovec_layout_eq p_iov z_iov &&
    posix_msghdr_layout_eq p_iov z_iov p_msg z_msg && posix_addrinfo_layout_eq p_ai z_ai)).

(** A build with the minimal C library that passes the assertions converts
    nothing: addresses, headers and hints are passed on where they are. *)
Lemma minimal_libc_casts obj room :
  socket_build_asserts true = true ->
  posix_sockaddr_in_to_zephyr little_endian posix zephyr obj room = Some (true, obj, in_size (l_in zephyr)) /\
  posix_sockaddr_in6_to_zephyr little_endian posix zephyr obj room = Some (true, obj, in6_size (l_in6 zephyr)) /\
  posix_sockaddr_un_to_zephyr little_endian posix zephyr obj room = Some (true, obj, un_size (l_un zephyr)) /\
  posix_msghdr_to_zephyr little_endian posix zephyr p_iov z_iov p_msg z_msg obj room = Some (true, obj, mh_size z_msg).
Proof.
  unfold socket_build_asserts. cbn [negb orb]. intros [_ Ha]%andb_true_iff.
  repeat (apply andb_true_iff in Ha as [Ha ?]).
  unfold posix_sockaddr_in_to_zephyr, posix_sockaddr_in6_to_zephyr, posix_sockaddr_un_to_zephyr, posix_msghdr_to_zephyr, convert.
  repeat match goal with H : ?b = true |- _ => rewrite H; clear H end. done.
Qed.
End Asserts.

(** ** Calls that the network stack answers *)

(** The rest of options/networking hands its arguments on: the state of the
    stack is [S], its calls are the parameters. *)
Section Forward.
Context {S : Type}.
Context (zsock_socket : S -> Z -> Z -> Z -> S * Z) (zsock_socketpair : S -> Z -> Z -> Z -> S * Z * option (Z * Z)).
Context (zsock_listen zsock_shutdown : S -> Z -> Z -> S * Z) (zsock_sockatmark : S -> Z -> S * Z).
Context (zsock_getsockopt : S -> Z -> Z -> Z -> Z -> S * Z * list Z).
Context (zsock_setsockopt : S -> Z -> Z -> Z -> list Z -> S * Z).
Context (zsock_gethostname : S -> nat -> Z * list Z) (zsock_freeaddrinfo : S -> Z -> S) (zsock_gai_strerror : Z -> string).
Context (net_addr_ntop : Z -> list Z -> nat -> option string) (zsock_inet_pton : Z -> string -> Z * list Z).

Definition socket (k : S) (family type proto : Z) : S * Z := zsock_socket k family type proto.
Definition socketpair (k : S) (family type proto : Z) : S * Z * option (Z * Z) := zsock_socketpair k family type proto.
Definition listen (k : S) (sock backlog : Z) : S * Z := zsock_listen k sock backlog.
Definition shutdown (k : S) (sock how : Z) : S * Z := zsock_shutdown k sock how.
Definition sockatmark (k : S) (s : Z) : S * Z := zsock_sockatmark k s.
Definition getsockopt (k : S) (sock level optname optlen : Z) : S * Z * list Z :=
  zsock_getsockopt k sock level optname optlen.
Definition setsockopt (k : S) (sock level optname : Z) (optval : list Z) : S * Z :=
  zsock_setsockopt k sock level optname optval.
Definition gethostname (k : S) (namelen : nat) : Z * list Z := zsock_gethostname k namelen.
Definition freeaddrinfo (k : S) (ai : Z) : S := zsock_freeaddrinfo k ai.
Definition gai_strerror (errcode : Z) : string := zsock_gai_strerror errcode.
Definition inet_ntop (family : Z) (src : list Z) (size : nat) : option string := net_addr_ntop family src size.
Definition inet_pton (family : Z) (src : string) : Z * list Z := zsock_inet_pton family src.
End Forward.
