(* ===== verification/Reentrant.v ===== *)
(** * Dates and messages in text
    (c_lang_support_r: asctime_r.c, ctime_r.c, strerror_r.c, qsort_r.c)

    Text is a list of characters, a buffer the memory from the caller's
    pointer on; [None] is a write past it.  What snprintf does with the
    conversions of the format is written out. *)

From stdpp Require Import base list strings.
From Stdlib Require Import ZArith Lia Ascii.
From S2P Require Import Prelude CString Text CTime.

Local Open Scope Z_scope.

(** ** snprintf *)

Definition sdec (n : Z) : list ascii := if n <? 0 then "-"%char :: dec (- n) else dec n.
Definition pad (width : nat) (c : ascii) (s : list ascii) : list ascii := replicate (width - length s) c ++ s.

(** [%3d], [%.2d] and [%d] *)
Definition fmt_3d (n : Z) : list ascii := pad 3 " "%char (sdec n).
Definition fmt_p2d (n : Z) : list ascii :=
  if n <? 0 then "-"%char :: pad 2 "0"%char (dec (- n)) else pad 2 "0"%char (dec n).

(** The text cut to the size with its terminator; the value is the length of
    the whole text. *)
Definition snprintf (buf : list ascii) (size : nat) (text : list ascii) : option (list ascii * nat) :=
  let out := take (size - 1) text ++ [NUL] in
  if (length buf <? length out)%nat then None else Some (out ++ drop (length out) buf, length text).

(** ** asctime_r and ctime_r *)

Definition DATE_STRING_BUF_SZ : nat := 26.
Definition DATE_WDAY_STRING_SZ : Z := 7.
Definition DATE_MON_STRING_SZ : Z := 12.
Definition DATE_TM_YEAR_BASE : Z := 1900.

Definition wday_str : list (list ascii) :=
  chars <$> ["Sun"; "Mon"; "Tue"; "Wed"; "Thu"; "Fri"; "Sat"]%string.
Definition mon_str : list (list ascii) :=
  chars <$> ["Jan"; "Feb"; "Mar"; "Apr"; "May"; "Jun"; "Jul"; "Aug"; "Sep"; "Oct"; "Nov"; "Dec"]%string.

(** The format, with the two names looked up. *)
Definition asctime_text (wday mon : list ascii) (tp : tm) : list ascii :=
  take 3 wday ++ [" "%char] ++ take 3 mon ++ fmt_3d (tm_mday tp) ++ [" "%char] ++ fmt_p2d (tm_hour tp) ++ [":"%char] ++
  fmt_p2d (tm_min tp) ++ [":"%char] ++ fmt_p2d (tm_sec tp) ++ [" "%char] ++
  sdec (swrap 32 (DATE_TM_YEAR_BASE + tm_year tp)) ++ [newline].

(** [inl] is NULL with the buffer as it is, [inr] the buffer. *)
Definition asctime_r (tp : option tm) (buf : option (list ascii)) : option (option (list ascii) + list ascii) :=
  match buf, tp with
  | Some b, Some t =>
      if (DATE_WDAY_STRING_SZ <=? uwrap 32 (tm_wday t)) || (DATE_MON_STRING_SZ <=? uwrap 32 (tm_mon t)) then
        Some (inl (Some b))
      else
        match wday_str !! Z.to_nat (uwrap 32 (tm_wday t)), mon_str !! Z.to_nat (uwrap 32 (tm_mon t)) with
        | Some wday, Some mon =>
            match snprintf b DATE_STRING_BUF_SZ (asctime_text wday mon t) with
            | None => None
            | Some (b', n) => Some (if (DATE_STRING_BUF_SZ <=? n)%nat then inl (Some b') else inr b')
            end
        | _, _ => None
        end
  | _, _ => Some (inl buf)
  end.

Definition ctime_r (clock : Z) (buf : option (list ascii)) := asctime_r (Some (localtime_r clock)) buf.

(** ** strerror_r and qsort_r *)

Section Errors.
(** The C library's messages, with their sizes; whether they are configured. *)
Context (sys_nerr : Z) (sys_errlist : Z -> list ascii) (sys_errlen : Z -> nat) (string_table : bool).

(** strncpy: [n] characters of the string, NULs behind its end. *)
Definition strncpy (buf src : list ascii) (n : nat) : option (list ascii) :=
  let out := take n (src ++ replicate n NUL) in
  if (length buf <? n)%nat then None else Some (out ++ drop n buf).

(** The result and the buffer. *)
Definition strerror_r (errnum : Z) (buf : list ascii) (buflen : nat) : option (res unit * list ascii) :=
  if (0 <=? errnum) && (errnum <? sys_nerr) then
    let '(msg, msg_len) := if string_table then (sys_errlist errnum, sys_errlen errnum) else ([], 1%nat) in
    if (buflen <? msg_len)%nat then Some (Err ERANGE, buf)
    else match strncpy buf msg msg_len with
         | None => None
         | Some buf' => Some (Ok tt, buf')
         end
  else Some (Err EINVAL, buf).

Lemma strncpy_str buf src : (length src < length buf)%nat -> NUL ∉ src ->
  exists buf', strncpy buf src (length src + 1) = Some buf' /\ str_at buf' 0 = src /\
    drop (length src + 1) buf' = drop (length src + 1) buf.
Proof.
  intros Hl Hn. unfold strncpy. destruct (Nat.ltb_spec (length buf) (length src + 1)); [lia|].
  eexists. split; [done|].
  assert (Ht : take (length src + 1) (src ++ replicate (length src + 1) NUL) = src ++ [NUL]).
  { rewrite take_app_ge by lia. replace (length src + 1 - length src)%nat with 1%nat by lia.
    by rewrite Nat.add_1_r. }
  rewrite Ht, <- app_assoc. split; [by apply (str_at_app [])|].
  rewrite app_assoc, drop_app_length' by (rewrite length_app; cbn; lia). done.
Qed.

(** The message is stored, terminated, and nothing behind it is written; a
    buffer that is too small is ERANGE and keeps its contents; a number that
    is not an error is EINVAL. *)
Lemma strerror_r_spec errnum buf buflen :
  string_table = true -> sys_errlen errnum = (length (sys_errlist errnum) + 1)%nat -> NUL ∉ sys_errlist errnum ->
  (buflen <= length buf)%nat ->
  exists buf', strerror_r errnum buf buflen =
      Some (if (0 <=? errnum) && (errnum <? sys_nerr) then
              if (buflen <=? length (sys_errlist errnum))%nat then Err ERANGE else Ok tt
            else Err EINVAL, buf') /\
    (strerror_r errnum buf buflen = Some (Ok tt, buf') -> str_at buf' 0 = sys_errlist errnum) /\
    drop buflen buf' = drop buflen buf.
Proof.
  intros Ht Hlen Hn Hb. unfold strerror_r. rewrite Ht, Hlen. destruct ((0 <=? errnum) && (errnum <? sys_nerr)); [|by exists buf].
  destruct (Nat.ltb_spec buflen (length (sys_errlist errnum) + 1)), (Nat.leb_spec buflen (length (sys_errlist errnum)));
    try lia; [by exists buf|].
  destruct (strncpy_str buf (sys_errlist errnum)) as (buf' & -> & Hs & Hd); [lia|done|]. exists buf'. split_and!; [done..|].
  apply (f_equal (drop (buflen - (length (sys_errlist errnum) + 1)))) in Hd. rewrite !drop_drop in Hd.
  by replace (length (sys_errlist errnum) + 1 + (buflen - (length (sys_errlist errnum) + 1)))%nat with buflen in Hd by lia.
Qed.
End Errors.

(** qsort_r over the C library's heap_sort, with the comparison and its
    argument. *)
Definition qsort_r {A B} (heap_sort : (A -> A -> B -> Z) -> B -> list A -> list A) (comp3 : A -> A -> B -> Z) (arg : B)
    (base : list A) : list A :=
  if (length base <=? 1)%nat then base else heap_sort comp3 arg base.

(** ** The text of a date can be read back *)

Definition tm_ok (t : tm) : bool :=
  (0 <=? tm_wday t) && (tm_wday t <? 7) && (0 <=? tm_mon t) && (tm_mon t <? 12) && (1 <=? tm_mday t) && (tm_mday t <=? 31) &&
  (0 <=? tm_hour t) && (tm_hour t <? 24) && (0 <=? tm_min t) && (tm_min t <? 60) && (0 <=? tm_sec t) && (tm_sec t <=? 60) &&
  (1000 <=? 1900 + tm_year t) && (1900 + tm_year t <=? 9999).

Fixpoint index_of (x : list ascii) (l : list (list ascii)) (i : Z) : Z :=
  match l with
  | [] => -1
  | y :: l' => if bool_decide (x = y) then i else index_of x l' (i + 1)
  end.

(** The columns of the text: weekday, month, day, hour, minute, second and
    year. *)
Definition column (s : list ascii) (from len : nat) : list ascii := take len (drop from s).
Definition read_date (s : list ascii) : Z * Z * Z * Z * Z * Z * Z :=
  (index_of (column s 0 3) wday_str 0, index_of (column s 4 3) mon_str 0, atoi (column s 7 3), atoi (column s 11 2),
   atoi (column s 14 2), atoi (column s 17 2), atoi (column s 20 4) - 1900).

Lemma forall_range (P : Z -> bool) lo n : forallb P (seqZ lo n) = true -> forall x, lo <= x < lo + n -> P x = true.
Proof. rewrite forallb_forall. intros H x Hx. apply H, list_elem_of_In, elem_of_seqZ. lia. Qed.

(** The parts have their widths and can be read back. *)
Lemma day_width n : 1 <= n <= 31 -> length (fmt_3d n) = 3%nat /\ atoi (fmt_3d n) = n.
Proof.
  intros Hn. assert (H : (length (fmt_3d n) =? 3)%nat && (atoi (fmt_3d n) =? n) = true).
  { apply (forall_range (fun n => (length (fmt_3d n) =? 3)%nat && (atoi (fmt_3d n) =? n)) 1 31); [by vm_compute|lia]. }
  apply andb_true_iff in H as [?%Nat.eqb_eq ?%Z.eqb_eq]. done.
Qed.

Lemma two_width n : 0 <= n <= 60 -> length (fmt_p2d n) = 2%nat /\ atoi (fmt_p2d n) = n.
Proof.
  intros Hn. assert (H : (length (fmt_p2d n) =? 2)%nat && (atoi (fmt_p2d n) =? n) = true).
  { apply (forall_range (fun n => (length (fmt_p2d n) =? 2)%nat && (atoi (fmt_p2d n) =? n)) 0 61); [by vm_compute|lia]. }
  apply andb_true_iff in H as [?%Nat.eqb_eq ?%Z.eqb_eq]. done.
Qed.

Lemma year_width n : 1000 <= n <= 9999 -> length (sdec n) = 4%nat /\ atoi (sdec n) = n.
Proof.
  intros Hn. assert (H : (length (sdec n) =? 4)%nat && (atoi (sdec n) =? n) = true).
  { apply (forall_range (fun n => (length (sdec n) =? 4)%nat && (atoi (sdec n) =? n)) 1000 9000); [by vm_compute|lia]. }
  apply andb_true_iff in H as [?%Nat.eqb_eq ?%Z.eqb_eq]. done.
Qed.

Lemma name_width (l : list (list ascii)) i :
  forallb (fun j => match l !! Z.to_nat j with
                    | Some w => (length (take 3 w) =? 3)%nat && (index_of (take 3 w) l 0 =? j) | None => false end)
    (seqZ 0 (Z.of_nat (length l))) = true ->
  0 <= i < Z.of_nat (length l) ->
  exists w, l !! Z.to_nat i = Some w /\ length (take 3 w) = 3%nat /\ index_of (take 3 w) l 0 = i.
Proof.
  intros Hall Hi. eapply forall_range in Hall; [|exact Hi]. cbn in Hall. destruct (l !! Z.to_nat i) as [w|]; [|done].
  exists w. apply andb_true_iff in Hall as [?%Nat.eqb_eq ?%Z.eqb_eq]. done.
Qed.

Ltac split_list l H :=
  destruct l as [|? l]; [done|]; cbn [length] in H; apply (inj S) in H.

(** The columns are where they are read. *)
Lemma asctime_columns wd mo d h mi se y :
  length wd = 3%nat -> length mo = 3%nat -> length d = 3%nat -> length h = 2%nat -> length mi = 2%nat ->
  length se = 2%nat -> length y = 4%nat ->
  let s := wd ++ [" "%char] ++ mo ++ d ++ [" "%char] ++ h ++ [":"%char] ++ mi ++ [":"%char] ++ se ++ [" "%char] ++ y ++
           [newline] in
  length s = 25%nat /\ column s 0 3 = wd /\ column s 4 3 = mo /\ column s 7 3 = d /\ column s 11 2 = h /\
  column s 14 2 = mi /\ column s 17 2 = se /\ column s 20 4 = y.
Proof.
  intros H1 H2 H3 H4 H5 H6 H7.
  do 3 split_list wd H1. do 3 split_list mo H2. do 3 split_list d H3. do 2 split_list h H4. do 2 split_list mi H5.
  do 2 split_list se H6. do 4 split_list y H7.
  apply nil_length_inv in H1, H2, H3, H4, H5, H6, H7. subst. done.
Qed.

Lemma asctime_reads_back (t : tm) (buf : list ascii) :
  tm_ok t = true -> (26 <= length buf)%nat ->
  exists text, asctime_r (Some t) (Some buf) = Some (inr (text ++ NUL :: drop 26 buf)) /\
    length text = 25%nat /\
    read_date text = (tm_wday t, tm_mon t, tm_mday t, tm_hour t, tm_min t, tm_sec t, tm_year t).
Proof.
  unfold tm_ok. rewrite !andb_true_iff, !Z.leb_le, !Z.ltb_lt. intros Ht Hb.
  unfold asctime_r, uwrap. rewrite !Z.mod_small by lia. unfold DATE_WDAY_STRING_SZ, DATE_MON_STRING_SZ.
  rewrite !(proj2 (Z.leb_gt _ _)) by lia. cbn [orb].
  destruct (name_width wday_str (tm_wday t)) as (wd & -> & Hwl & Hwi); [by vm_compute|cbn; lia|].
  destruct (name_width mon_str (tm_mon t)) as (mo & -> & Hml & Hmi); [by vm_compute|cbn; lia|].
  unfold asctime_text, DATE_TM_YEAR_BASE. rewrite swrap32_id by lia.
  destruct (day_width (tm_mday t)) as [Hdl Hd]; [lia|]. destruct (two_width (tm_hour t)) as [Hhl Hh]; [lia|].
  destruct (two_width (tm_min t)) as [Hnl Hn]; [lia|]. destruct (two_width (tm_sec t)) as [Hsl Hs]; [lia|].
  destruct (year_width (1900 + tm_year t)) as [Hyl Hy]; [lia|].
  pose proof (asctime_columns _ _ _ _ _ _ _ Hwl Hml Hdl Hhl Hnl Hsl Hyl) as Hc. cbn zeta in Hc.
  set (s := take 3 wd ++ _) in *. destruct Hc as (Hlen & C1 & C2 & C3 & C4 & C5 & C6 & C7).
  exists s. unfold snprintf, DATE_STRING_BUF_SZ. replace (26 - 1)%nat with (length s) by lia. rewrite firstn_all.
  rewrite length_app. cbn [length]. rewrite Hlen. destruct (Nat.ltb_spec (length buf) (25 + 1)); [lia|].
  split_and!; [by rewrite <- app_assoc|done|].
  unfold read_date. rewrite C1, C2, C3, C4, C5, C6, C7, Hwi, Hmi, Hd, Hh, Hn, Hs, Hy. repeat f_equal; lia.
Qed.

(** ** The dates of ctime_r *)

(** A date of the calendar, and the years up to it. *)
Definition date_ok (t : tm) : Prop :=
  0 <= tm_wday t <= 6 /\ 0 <= tm_mon t <= 11 /\ 1 <= tm_mday t <= 31.

Lemma month_days_le lp m : month_days lp m <= 31.
Proof. unfold month_days. repeat case_match; lia. Qed.

Lemma next_day_ok t : date_ok t -> date_ok (next_day t) /\ tm_year t <= tm_year (next_day t).
Proof.
  unfold date_ok, next_day. intros Ht. pose proof (Z.mod_pos_bound (tm_wday t + 1) 7).
  pose proof (month_days_le (leap (tm_year t + 1900)) (tm_mon t + 1)).
  destruct (Z.ltb_spec (tm_mday t) (month_days (leap (tm_year t + 1900)) (tm_mon t + 1))); cbn; [lia|].
  destruct (Z.ltb_spec (tm_mon t) 11); cbn; lia.
Qed.

Lemma days_date_ok n : Z.of_nat n <= 3000000 -> date_ok (time_civil_from_days (Z.of_nat n)).
Proof.
  induction n as [|n IH]; intros Hn; [by vm_compute|].
  rewrite Nat2Z.inj_succ, <- Z.add_1_r, civil_step by (unfold days_ok; lia). apply next_day_ok, IH. lia.
Qed.

Lemma days_year_mono k n : Z.of_nat (n + k) <= 3000000 ->
  tm_year (time_civil_from_days (Z.of_nat n)) <= tm_year (time_civil_from_days (Z.of_nat (n + k))).
Proof.
  induction k as [|k IH]; intros Hk; [by rewrite Nat.add_0_r|].
  rewrite Nat.add_succ_r, Nat2Z.inj_succ, <- Z.add_1_r, civil_step by (unfold days_ok; lia).
  etransitivity; [apply IH; lia|]. apply next_day_ok, days_date_ok. lia.
Qed.

(** The days from 1970-01-01 to 9999-12-31. *)
Lemma days_range_nat n : Z.of_nat n <= 2932896 ->
  date_ok (time_civil_from_days (Z.of_nat n)) /\ 70 <= tm_year (time_civil_from_days (Z.of_nat n)) <= 8099.
Proof.
  intros Hn. split; [apply days_date_ok; lia|].
  pose proof (days_year_mono n 0 ltac:(lia)) as Hlo.
  pose proof (days_year_mono (Z.to_nat (2932896 - Z.of_nat n)) n ltac:(lia)) as Hhi.
  replace (Z.of_nat (n + Z.to_nat (2932896 - Z.of_nat n))) with 2932896 in Hhi by lia.
  replace (tm_year (time_civil_from_days 2932896)) with 8099 in Hhi by (vm_compute; reflexivity).
  replace (tm_year (time_civil_from_days (Z.of_nat 0))) with 70 in Hlo by (vm_compute; reflexivity).
  split; [exact Hlo|exact Hhi].
Qed.

Lemma days_range z : 0 <= z <= 2932896 ->
  date_ok (time_civil_from_days z) /\ 70 <= tm_year (time_civil_from_days z) <= 8099.
Proof. intros Hz. pose proof (days_range_nat (Z.to_nat z)) as H. rewrite Z2Nat.id in H by lia. apply H. lia. Qed.

Lemma gmtime_ok t : 0 <= t < 253402300800 -> tm_ok (gmtime_r t) = true.
Proof.
  intros Ht. destruct (gmtime_r_parts t) as (days & _ & Hd & Hh & Hm & Hs & Het); [lia|].
  destruct (days_range days) as [(Hw & Hmo & Hmd) Hy]; [lia|].
  cbn zeta in Hd. remember (time_civil_from_days days) as c eqn:Hc. remember (gmtime_r t) as r eqn:Hr. clear Hc Hr.
  rewrite !pair_eq in Hd. unfold tm_ok. rewrite !andb_true_iff, !Z.leb_le, !Z.ltb_lt. lia.
Qed.

(** Asctime_r and ctime_r write dates that can be read back.  For a date
    with its fields in range and a year from 1000 to 9999, and any buffer of
    at least 26 characters, asctime_r succeeds and leaves in the buffer a text
    of 25 characters with its terminator, nothing behind them being written,
    whose columns are the weekday, the month, the day, the time and the year
    of the date.  For every time from 1970 to the end of 9999, ctime_r does
    so with the date gmtime_r computes. *)
Theorem asctime_roundtrip (buf : list ascii) :
  (26 <= length buf)%nat ->
  (forall t, tm_ok t = true ->
    exists text, asctime_r (Some t) (Some buf) = Some (inr (text ++ NUL :: drop 26 buf)) /\ length text = 25%nat /\
      read_date text = (tm_wday t, tm_mon t, tm_mday t, tm_hour t, tm_min t, tm_sec t, tm_year t)) /\
  (forall clock, 0 <= clock < 253402300800 ->
    exists text, ctime_r clock (Some buf) = Some (inr (text ++ NUL :: drop 26 buf)) /\ length text = 25%nat /\
      let t := gmtime_r clock in
      read_date text = (tm_wday t, tm_mon t, tm_mday t, tm_hour t, tm_min t, tm_sec t, tm_year t)).
Proof.
  intros Hb. split; [intros t Ht; by apply asctime_reads_back|].
  intros clock Hc. apply (asctime_reads_back (gmtime_r clock) buf); [by apply gmtime_ok|done].
Qed.

Lemma asctime_roundtrip_witness :
  ctime_r 1709247845 (Some (replicate 30 "x"%char)) =
    Some (inr (chars "Thu Feb 29 23:04:05 2024" ++ newline :: NUL :: replicate 4 "x"%char)) /\
  exists text, ctime_r 1709247845 (Some (replicate 30 "x"%char)) = Some (inr (text ++ NUL :: replicate 4 "x"%char)) /\
    read_date text = (4, 1, 29, 23, 4, 5, 124).
Proof.
  split; [by vm_compute|].
  destruct (asctime_roundtrip (replicate 30 "x"%char)) as [_ H]; [cbn; lia|].
  destruct (H 1709247845) as (text & He & _ & Hr); [lia|]. exists text. split; [exact He|exact Hr].
Defined.
