(* ===== verification/DeviceIO.v ===== *)
(** * Descriptors, streams and system services
    (device_io, fd_mgmt, file_locking, c_lib_ext/getentropy.c, multi_process/multi_process.c,
    asynchronous_io/aio.c, xsi_streams/stropts.c)

    The calls of these files check or convert their arguments and hand them
    to the kernel's file system, whose state is [K] and whose calls are
    parameters; the result of a call is a number, the error is in errno. *)

From stdpp Require Import base list strings.
From Stdlib Require Import ZArith Lia Ascii.
From S2P Require Import Prelude CString Text Clock Reentrant.

Local Open Scope Z_scope.

(** ** Reading, writing and positions *)

Section Files.
Context {K : Type} (set_errno : K -> errno -> K).
(** The kernel's calls, with their descriptor and arguments; [SW] is the
    width of size_t. *)
Context (zvfs_read_offset zvfs_write_offset : K -> Z -> Z -> Z -> Z -> K * Z).
Context (zvfs_open : K -> string -> Z -> Z -> K * Z) (zvfs_lseek : K -> Z -> Z -> Z -> K * Z).
Context (zvfs_fileno : Z -> Z) (SW OW O_CREAT SEEK_CUR : Z).

Definition fail (k : K) (e : errno) : K * Z := (set_errno k e, -1).

(** [buf] is the address. *)
Definition pread (k : K) (fd buf count offset : Z) : K * Z :=
  let off := uwrap SW offset in
  if offset <? 0 then fail k EINVAL else zvfs_read_offset k fd buf count off.

Definition pwrite (k : K) (fd buf count offset : Z) : K * Z :=
  let off := uwrap SW offset in
  if offset <? 0 then fail k EINVAL else zvfs_write_offset k fd buf count off.

(** [arg] is the third argument, which is there when the caller gave it. *)
Definition open (k : K) (name : string) (flags : Z) (arg : option Z) : option (K * Z) :=
  if flag_set flags O_CREAT then (fun mode => zvfs_open k name flags mode) <$> arg
  else Some (zvfs_open k name flags 0).

Definition lseek (k : K) (fd offset whence : Z) : K * Z := zvfs_lseek k fd offset whence.

Definition fseeko (k : K) (stream : option Z) (offset whence : Z) : K * Z :=
  match stream with
  | None => fail k EBADF
  | Some s =>
      let '(k', pos) := lseek k (zvfs_fileno s) offset whence in
      (k', if pos =? swrap OW (-1) then -1 else 0)
  end.

Definition ftello (k : K) (stream : option Z) : K * Z :=
  match stream with
  | None => fail k EBADF
  | Some s => lseek k (zvfs_fileno s) 0 SEEK_CUR
  end.

(** A position that is not negative is passed as it is. *)
Lemma pread_offset k fd buf count offset :
  0 < SW -> offset < 2 ^ SW ->
  pread k fd buf count offset =
  if offset <? 0 then (set_errno k EINVAL, -1) else zvfs_read_offset k fd buf count offset.
Proof.
  intros HW Ho. unfold pread. destruct (Z.ltb_spec offset 0); [done|]. unfold uwrap. by rewrite Z.mod_small.
Qed.

(** ftello after a successful fseeko to a position from the start says that
    position, when the kernel's lseek does. *)
Lemma fseeko_ftello k s offset SEEK_SET k' :
  0 < OW -> 0 <= offset ->
  (forall k fd, zvfs_lseek k fd offset SEEK_SET = (k', offset)) ->
  (forall fd, zvfs_lseek k' fd 0 SEEK_CUR = (k', offset)) ->
  fseeko k (Some s) offset SEEK_SET = (k', 0) /\ ftello k' (Some s) = (k', offset).
Proof.
  intros HW Ho Hset Hcur. unfold fseeko, ftello, lseek. rewrite Hset, Hcur. split; [|done].
  assert (Hm : swrap OW (-1) = -1).
  { apply swrap_id; [done|]. unfold in_s. assert (1 <= 2 ^ (OW - 1)) by (apply (Z.pow_le_mono_r 2 0); lia). 
    apply andb_true_iff. split; [apply Z.leb_le; lia|apply Z.ltb_lt; lia]. }
  rewrite Hm. by rewrite (proj2 (Z.eqb_neq offset (-1))) by lia.
Qed.
End Files.

(** ** select *)

(** The timeout zvfs_select gets: NULL, a time, or an object that was never
    written. *)
Inductive timeout_arg := TNull | TTime (ts : timespec) | TUnset.

Section Select.
Context {K FdSets : Type} (set_errno : K -> errno -> K) (timespec_normalize : timespec -> timespec * bool).
Context (zvfs_select : K -> Z -> FdSets -> timeout_arg -> K * Z).

(** [&to] is passed whether or not it was set. *)
Definition select (k : K) (nfds : Z) (sets : FdSets) (timeout : option timeval) : K * Z :=
  match timeout with
  | None => zvfs_select k nfds sets TUnset
  | Some tv =>
      let '(to, ok) := timeval_to_timespec timespec_normalize tv in
      if negb ok then (set_errno k EINVAL, -1) else zvfs_select k nfds sets (TTime to)
  end.

Definition pselect (k : K) (nfds : Z) (sets : FdSets) (timeout : option timespec) : K * Z :=
  zvfs_select k nfds sets (match timeout with None => TNull | Some ts => TTime ts end).

(** With a time, select is pselect with the time in nanoseconds; without,
    pselect waits for ever and select takes a time from memory that was never
    written. *)
Lemma select_pselect k nfds sets tv to :
  timeval_to_timespec timespec_normalize tv = (to, true) ->
  select k nfds sets (Some tv) = pselect k nfds sets (Some to) /\
  select k nfds sets None = zvfs_select k nfds sets TUnset /\ pselect k nfds sets None = zvfs_select k nfds sets TNull.
Proof. intros Hto. unfold select. by rewrite Hto. Qed.
End Select.

(** ** Streams *)

(** [perror]: the prefix, the message of errno and a newline. *)
Definition perror (s : option string) (strerror : string) : list ascii :=
  chars (default EmptyString s) ++ chars (match s with None => EmptyString | Some _ => ": " end) ++ chars strerror ++ [newline].

Section Locking.
Context {K : Type} (k_yield : K -> K) (zvfs_lock_file : K -> Z -> bool -> K * Z) (zvfs_unlock_file : K -> Z -> K).

(** The loop of flockfile; [true] is K_FOREVER. *)
Fixpoint flockfile (fuel : nat) (k : K) (file : Z) : option K :=
  match fuel with
  | O => None
  | S fuel' =>
      let '(k', ret) := zvfs_lock_file k file true in
      if ret =? 0 then Some k' else flockfile fuel' (k_yield k') file
  end.

Definition ftrylockfile (k : K) (file : Z) : K * Z := zvfs_lock_file k file false.
Definition funlockfile (k : K) (file : Z) : K := zvfs_unlock_file k file.

(** flockfile returns with the lock after as many refusals as there are. *)
Lemma flockfile_returns file (states : list K) k0 kn :
  (forall i k k', (k0 :: states) !! i = Some k -> states !! i = Some k' ->
     exists ka r, zvfs_lock_file k file true = (ka, r) /\ r <> 0 /\ k_yield ka = k') ->
  (forall k, last (k0 :: states) = Some k -> zvfs_lock_file k file true = (kn, 0)) ->
  flockfile (S (length states)) k0 file = Some kn.
Proof.
  revert k0. induction states as [|k1 states IH]; intros k0 Hstep Hlast; cbn [flockfile length].
  - by rewrite (Hlast k0 eq_refl).
  - destruct (Hstep 0%nat k0 k1 eq_refl eq_refl) as (ka & r & -> & Hr & Hy).
    rewrite (proj2 (Z.eqb_neq r 0) Hr), Hy. apply IH.
    + intros i k k' Hk Hk'. apply (Hstep (S i)); done.
    + intros k Hk. apply Hlast. by rewrite last_cons_cons.
Qed.
End Locking.

(** ** Entropy and processes *)

(** [device]: entropy_get_entropy of the device with its buffer and length,
    [None] when there is no device that is ready; the buffer and the result. *)
Definition getentropy (device : option (list Z -> Z -> list Z * Z)) (buffer : list Z) (length : Z) : list Z * res unit :=
  if 256 <? length then (buffer, Err EIO)
  else match device with
       | None => (buffer, Err EIO)
       | Some get =>
           let '(buffer', rc) := get buffer (uwrap 16 length) in
           (buffer', if negb (rc =? 0) then Err EIO else Ok tt)
       end.

(** The cast to 16 bits is exact. *)
Lemma getentropy_exact get buffer length :
  0 <= length <= 256 ->
  getentropy (Some get) buffer length =
    let '(b, rc) := get buffer length in (b, if rc =? 0 then Ok tt else Err EIO).
Proof.
  intros Hl. unfold getentropy, uwrap. rewrite (proj2 (Z.ltb_ge 256 length)) by lia. rewrite Z.mod_small by lia.
  destruct (get buffer length) as [b rc]. by destruct (rc =? 0).
Qed.

Definition getpid : Z := 42.

(** [stats] is the total of cycles or the error, [to_usec] the conversion. *)
Definition times (stats : res Z) (to_usec : Z -> Z) : res (Z * (Z * Z * Z * Z)) :=
  match stats with
  | Err e => Err e
  | Ok cycles => let utime := to_usec cycles in Ok (utime, (utime, 0, 0, 0))
  end.

(** [device_id]: hwinfo_get_device_id with the four bytes of the buffer as a
    number; the number it leaves there and its result.  long has [LW] bits. *)
Definition gethostid (LW : Z) (device_id : Z -> Z -> Z * Z) : Z :=
  let '(buf, rc) := device_id 0 4 in
  if (rc <? 0) || negb (rc =? 4) || (buf =? 0) then swrap LW rc else swrap LW buf.

(** Identifiers that differ are told apart, where the device has a whole,
    non-zero identifier; a short one, or zero, gives its length. *)
Lemma gethostid_spec LW buf rc :
  LW = 32 \/ LW = 64 -> 0 <= buf < 4294967296 -> -2147483648 <= rc < 2147483648 ->
  let r := gethostid LW (fun _ _ => (buf, rc)) in
  (rc = 4 -> buf <> 0 -> uwrap 32 r = buf) /\ (rc <> 4 \/ buf = 0 -> r = rc).
Proof.
  intros HL Hb Hr r. subst r. unfold gethostid.
  destruct (Z.ltb_spec rc 0), (Z.eqb_spec rc 4), (Z.eqb_spec buf 0); cbn [orb negb]; split; intros; try lia;
    destruct HL as [-> | ->]; unfold uwrap, swrap; cbn [Z.sub Z.add Z.opp Z.pos_sub Pos.pred_double]; cbn [Z.pow Z.pow_pos];
    Z.to_euclidean_division_equations; lia.
Qed.

(** ** poll and eventfd *)

Section Events.
Context {K : Type} (zvfs_poll : K -> list (Z * Z * Z) -> Z -> Z -> K * list (Z * Z * Z) * Z).
Context (zvfs_eventfd : K -> Z -> Z -> K * Z) (zvfs_eventfd_read : K -> Z -> K * option Z * Z).
Context (zvfs_eventfd_write : K -> Z -> Z -> K * Z).

(** [fds] has the descriptor, the events and the returned events. *)
Definition poll (k : K) (fds : list (Z * Z * Z)) (nfds timeout : Z) : K * list (Z * Z * Z) * Z := zvfs_poll k fds nfds timeout.
Definition eventfd (k : K) (initval flags : Z) : K * Z := zvfs_eventfd k initval flags.
Definition eventfd_read (k : K) (fd : Z) : K * option Z * Z := zvfs_eventfd_read k fd.
Definition eventfd_write (k : K) (fd value : Z) : K * Z := zvfs_eventfd_write k fd value.
End Events.

(** ** Functions that are not implemented *)

Definition aio_cancel (fildes aiocbp : Z) : res Z := Err ENOSYS.
Definition aio_error (aiocbp : Z) : res Z := Err ENOSYS.
Definition aio_fsync (fildes aiocbp : Z) : res Z := Err ENOSYS.
Definition aio_read (aiocbp : Z) : res Z := Err ENOSYS.
Definition aio_return (aiocbp : Z) : res Z := Err ENOSYS.
Definition aio_suspend (list : list Z) (timeout : Z) : res Z := Err ENOSYS.
Definition aio_write (aiocbp : Z) : res Z := Err ENOSYS.
Definition lio_listio (mode : Z) (list : list Z) (sig : Z) : res Z := Err ENOSYS.

Definition putmsg (fildes ctlptr dataptr flags : Z) : res Z := Err ENOSYS.
Definition putpmsg (fildes ctlptr dataptr band flags : Z) : res Z := Err ENOSYS.
Definition fdetach (path : string) : res Z := Err ENOSYS.
Definition fattach (fildes : Z) (path : string) : res Z := Err ENOSYS.
Definition getmsg (fildes ctlptr dataptr flagsp : Z) : res Z := Err ENOSYS.
Definition getpmsg (fildes ctlptr dataptr bandp flagsp : Z) : res Z := Err ENOSYS.
Definition isastream (fildes : Z) : res Z := Err ENOSYS.
