(* ===== verification/ThreadNp.v ===== *)
(** * Joining, names and other thread functions
    (non_portable/pthread_np.c, the rest of threads_base/pthread.c, threads_base/pthread_mutex_prio.c)

    The functions that wrap the kernel's: they translate handles and results.
    The kernel's calls are parameters that return 0 or a negative error
    number; the result of the POSIX function is the number itself, which is
    an error when it is not 0. *)

From stdpp Require Import base list.
From Stdlib Require Import ZArith Lia Ascii.
From S2P Require Import Prelude CString Text Clock Reentrant.

Local Open Scope Z_scope.

Section Threads.
Context {K : Type} (to_k_thread : Z -> Z) (errnum : errno -> Z).

Inductive timeout := NoWait | Forever | Until (t : timespec).

(** k_thread_rejoin with the thread and the timeout: the status, when it is
    joined, and the result. *)
Context (k_thread_rejoin : K -> Z -> timeout -> K * option Z * Z).
Context (k_thread_detach k_thread_cancel : K -> Z -> K * Z) (timespec_is_valid : timespec -> bool).

Definition pthread_join (k : K) (pthread : Z) : K * option Z * Z :=
  let '(k', status, ret) := k_thread_rejoin k (to_k_thread pthread) Forever in (k', status, - ret).

Definition pthread_detach (k : K) (pthread : Z) : K * Z :=
  let '(k', ret) := k_thread_detach k (to_k_thread pthread) in (k', - ret).

Definition pthread_cancel (k : K) (pthread : Z) : K * Z :=
  let '(k', ret) := k_thread_cancel k (to_k_thread pthread) in (k', - ret).

(** [None] is the access to a NULL abstime, which timespec_is_valid reads
    before the test for NULL. *)
Definition pthread_timedjoin_np (k : K) (pthread : Z) (abstime : option timespec) : option (K * option Z * Z) :=
  match abstime with
  | None => None
  | Some t =>
      if negb (timespec_is_valid t) then Some (k, None, errnum EINVAL)
      else
        let '(k', status, ret) := k_thread_rejoin k (to_k_thread pthread) (Until t) in
        let ret := - ret in
        Some (k', status, if (ret =? errnum EAGAIN) || (ret =? errnum EBUSY) then errnum ETIMEDOUT else ret)
  end.

Definition pthread_tryjoin_np (k : K) (pthread : Z) : K * option Z * Z :=
  let '(k', status, ret) := k_thread_rejoin k (to_k_thread pthread) NoWait in (k', status, - ret).

(** A timed join reports what the kernel does, a thread that has not ended in
    time as ETIMEDOUT. *)
Lemma timedjoin_spec k pthread t k' status ret :
  timespec_is_valid t = true -> k_thread_rejoin k (to_k_thread pthread) (Until t) = (k', status, ret) ->
  pthread_timedjoin_np k pthread (Some t) =
    Some (k', status, if (ret =? - errnum EAGAIN) || (ret =? - errnum EBUSY) then errnum ETIMEDOUT else - ret).
Proof.
  intros Hv Hr. unfold pthread_timedjoin_np. rewrite Hv, Hr. cbn [negb]. do 2 f_equal.
  assert (He : forall e, (- ret =? e) = (ret =? - e)) by (intros e; destruct (Z.eqb_spec (- ret) e), (Z.eqb_spec ret (- e)); lia).
  by rewrite !He.
Qed.

(** ** Names *)

(** k_thread_name_set; k_thread_name_copy with the size: the result and the
    bytes written from the start of the buffer. *)
Context (THREAD_NAME : bool) (MAX_NAME_LEN : nat).
Context (k_thread_name_set : K -> Z -> list ascii -> K * Z) (k_thread_name_copy : Z -> nat -> Z * list ascii).

Definition pthread_setname_np (k : K) (thread : Z) (name : list ascii) : K * Z :=
  if THREAD_NAME then k_thread_name_set k (to_k_thread thread) name else (k, 0).

(** [name] is the memory from the caller's pointer on, [buf] the local array
    before the call; [None] is an access outside of an array. *)
Definition pthread_getname_np (thread : Z) (name : option (list ascii)) (len : nat) (buf : list ascii)
    : option (option (list ascii) * Z) :=
  if negb THREAD_NAME then Some (name, 0)
  else match name with
       | None => Some (None, errnum EFAULT)
       | Some mem =>
           let size := (MAX_NAME_LEN + 1)%nat in
           if (len <? size)%nat then
             let '(ret, written) := k_thread_name_copy (to_k_thread thread) (size - 1) in
             if ret <? 0 then Some (name, - ret)
             else
               let buf := written ++ drop (length written) buf in
               match strnlen buf size with
               | None => None
               | Some blen =>
                   if (len <? blen)%nat then Some (name, errnum ERANGE)
                   else match strncpy mem (take blen buf) len with
                        | None => None
                        | Some mem' => Some (Some mem', 0)
                        end
               end
           else
             let '(ret, written) := k_thread_name_copy (to_k_thread thread) (len - 1) in
             if (length mem <? length written)%nat then None
             else Some (Some (written ++ drop (length written) mem), ret)
       end.

Lemma strnlen_app nm rest n : (length nm < n)%nat -> NUL ∉ nm -> strnlen (nm ++ NUL :: rest) n = Some (length nm).
Proof.
  revert n. induction nm as [|c nm IH]; intros [|n] Hn Hin; cbn in Hn; try lia; cbn [strnlen app length]; [done|].
  rewrite not_elem_of_cons in Hin. destruct Hin as [Hc Hin]. rewrite bool_decide_eq_false_2 by congruence.
  by rewrite IH by (done || lia).
Qed.

(** With a kernel that copies as strncpy does: into a buffer that is shorter
    than the longest name, a name that fits is copied and padded with NULs, a
    longer one is ERANGE.  A name as long as the buffer is taken to fit, and
    is left without a terminator. *)
Lemma getname_np_spec thread mem len buf nm :
  THREAD_NAME = true ->
  (forall n, k_thread_name_copy (to_k_thread thread) n = (0, take n (nm ++ replicate n NUL))) ->
  (length nm < MAX_NAME_LEN)%nat -> NUL ∉ nm -> (len <= MAX_NAME_LEN)%nat -> (len <= length mem)%nat ->
  pthread_getname_np thread (Some mem) len buf =
    if (len <? length nm)%nat then Some (Some mem, errnum ERANGE)
    else Some (Some (nm ++ replicate (len - length nm) NUL ++ drop len mem), 0).
Proof.
  intros Ht Hcopy Hnm Hn Hlen Hmem. unfold pthread_getname_np. rewrite Ht. cbn [negb].
  destruct (Nat.ltb_spec len (MAX_NAME_LEN + 1)); [|lia]. rewrite Hcopy. cbn [Z.ltb Z.compare].
  replace (MAX_NAME_LEN + 1 - 1)%nat with MAX_NAME_LEN by lia.
  rewrite take_app_ge by lia. rewrite take_replicate.
  replace (Nat.min (MAX_NAME_LEN - length nm) MAX_NAME_LEN) with (S (MAX_NAME_LEN - length nm - 1)) by lia.
  cbn [replicate]. rewrite <- app_assoc. cbn [app]. rewrite strnlen_app by (done || lia).
  rewrite take_app_length. destruct (Nat.ltb_spec len (length nm)); [done|]. unfold strncpy.
  destruct (Nat.ltb_spec (length mem) len); [lia|]. rewrite take_app_ge, take_replicate by lia.
  replace (Nat.min (len - length nm) len) with (len - length nm)%nat by lia. by rewrite <- app_assoc.
Qed.
End Threads.

(** ** Priority ceilings, forks *)

Definition pthread_mutex_getprioceiling (mutex : Z) : res Z := Err ENOSYS.
Definition pthread_mutex_setprioceiling (mutex prioceiling : Z) : res Z := Err ENOSYS.
Definition pthread_mutexattr_getprioceiling (attr : Z) : res Z := Err ENOSYS.
Definition pthread_mutexattr_setprioceiling (attr prioceiling : Z) : res unit := Err ENOSYS.
