(* ===== verification/KSignal.v ===== *)
(** * Signals in the kernel (kernel/signal.c of the patches k-signal and k-thread-cancel)

    The signals that wait for delivery are positions in a ring buffer; a
    position names an element of a slab whose unused blocks are in a free
    list.  Custom actions are in an array; the mask and the signal being
    handled are in the thread.  Calls come from a thread that runs, which is
    their first argument, and are single steps: the code holds a spin lock
    where it changes the queue.  Functions are addresses. *)

From stdpp Require Import base list gmap.
From Stdlib Require Import ZArith Lia.
From S2P Require Import Prelude SigSet Signal.

Local Open Scope Z_scope.

(** [struct k_sig_fifo_element], used for waiting signals and for actions. *)
Record element := mk_element { el_tid : Z; el_info : k_sig_info; el_action : k_sig_action_t }.

(** [struct k_sig_ctx] of a thread; [cx_live] is that the thread is neither a
    dummy nor dead nor aborting. *)
Record sig_ctx := mk_ctx {
  cx_mask : list Z; cx_restore : list Z; cx_info : k_sig_info; cx_action : k_sig_action_t;
  cx_pending : Z; cx_delivered : Z; cx_live : bool;
}.

Record ksig := mk_ksig {
  fifo : list nat;
  array : list element;
  free_list : list nat;
  num_used : Z;
  signal_actions : list element;
  ctxs : gmap Z sig_ctx;
}.

Definition K_SI_QUEUE : Z := 38.
Definition K_SIG_KILL : Z := 9.
Definition K_SIG_CONT : Z := 18.
Definition K_SIG_STOP : Z := 19.
Definition UNMASKABLE_MASK : Z := Z.lor (2 ^ (K_SIG_KILL - 1)) (2 ^ (K_SIG_STOP - 1)).

Section Ksig.
(** BITS_PER_LONG, the cancel signal, SIGNAL_SET_SIZE, SIGNAL_QUEUE_SIZE. *)
Context (w cancel SIGNAL_SET_SIZE : Z) (QUEUE_SIZE : nat).
Context (count_trailing_zeros : Z -> Z).
Context (z_sig_handler_term z_sig_handler_core z_sig_handler_cancel : Z).

Abbreviation RTMIN := (K_SIG_RTMIN cancel).
Abbreviation NUM_RT := (K_SIG_NUM_RT cancel SIGNAL_SET_SIZE).
Abbreviation NLONGS := (K_SIGSET_NLONGS w SIGNAL_SET_SIZE).

(** ** Sets *)

Definition k_sig_bit (sig : Z) : Z := Z.land (sig - 1) (2 ^ Z.log2 w - 1).
Definition k_sig_word (sig : Z) : Z := Z.shiftr (sig - 1) (Z.log2 w).

Definition k_sig_addset (set : list Z) (sig : Z) : list Z * res unit :=
  if (sig <=? 0) || (SIGNAL_SET_SIZE <? sig) then (set, Err EINVAL)
  else (set_word set (k_sig_word sig) (Z.lor (get_word set (k_sig_word sig)) (Z.shiftl 1 (k_sig_bit sig))), Ok tt).

Definition k_sig_delset (set : list Z) (sig : Z) : list Z * res unit :=
  if (sig <=? 0) || (SIGNAL_SET_SIZE <? sig) then (set, Err EINVAL)
  else (set_word set (k_sig_word sig) (Z.ldiff (get_word set (k_sig_word sig)) (Z.shiftl 1 (k_sig_bit sig))), Ok tt).

(** 0, 1 or -EINVAL. *)
Definition k_sig_ismember (set : list Z) (sig : Z) : Z :=
  if (sig <=? 0) || (SIGNAL_SET_SIZE <? sig) then -22
  else if Z.land (get_word set (k_sig_word sig)) (Z.shiftl 1 (k_sig_bit sig)) =? 0 then 0 else 1.

Definition k_sig_fillset : list Z := replicate (Z.to_nat NLONGS) (2 ^ w - 1).
Definition k_sig_emptyset : list Z := replicate (Z.to_nat NLONGS) 0.
Definition k_sig_setisempty (set : list Z) : bool := forallb (fun x => x =? 0) set.

Definition z_sig_orset (result set2 : list Z) : list Z := zip_with Z.lor result set2.
Definition z_sig_unset (result set : list Z) : list Z := zip_with Z.ldiff result set.

(** The loop of z_sig_set_min from word [i] on. *)
Fixpoint min_loop (rt : bool) (i : Z) (set : list Z) : Z :=
  match set with
  | [] => 0
  | word :: set' =>
      let rtmin_bit := RTMIN - 1 - i * w in
      let word :=
        if rt then
          if w <=? rtmin_bit then 0
          else if 0 <? rtmin_bit then Z.ldiff word (2 ^ rtmin_bit - 1) else word
        else word in
      if word =? 0 then min_loop rt (i + 1) set' else i * w + count_trailing_zeros word + 1
  end.

Definition z_sig_set_min (set : list Z) (rt : bool) : Z :=
  if (rt && (NUM_RT =? 0)) || k_sig_setisempty set then 0 else min_loop rt 0 set.

(** ** The queue *)

Definition no_action : k_sig_action_t := mk_kact K_SIG_DFL 0 0 k_sig_emptyset.
Definition no_info : k_sig_info := mk_kinfo 0 0 0.
Definition zero_element : element := mk_element 0 no_info no_action.

Definition ring_buf_put (q : list nat) (pos : nat) : list nat :=
  if (length q <? QUEUE_SIZE)%nat then q ++ [pos] else q.

Definition set_fifo (q : list nat) (st : ksig) : ksig :=
  mk_ksig q (array st) (free_list st) (num_used st) (signal_actions st) (ctxs st).
Definition set_ctx (tid : Z) (c : sig_ctx) (st : ksig) : ksig :=
  mk_ksig (fifo st) (array st) (free_list st) (num_used st) (signal_actions st) (<[tid := c]> (ctxs st)).
Definition set_actions (l : list element) (st : ksig) : ksig :=
  mk_ksig (fifo st) (array st) (free_list st) (num_used st) l (ctxs st).
Definition entry_at (st : ksig) (pos : nat) : element := nth pos (array st) zero_element.

Definition z_sig_slab_free_unlocked (pos : nat) (st : ksig) : ksig :=
  mk_ksig (fifo st) (array st) (pos :: free_list st) (num_used st - 1) (signal_actions st) (ctxs st).

(** The test of thread_state; an address without a thread is not live. *)
Definition live (st : ksig) (tid : Z) : bool :=
  match ctxs st !! tid with Some c => cx_live c | None => false end.

(** Called outside of interrupts. *)
Definition z_sig_pid_is_valid (st : ksig) (cur pid : Z) : bool :=
  if pid =? 0 then false else if cur =? pid then true else live st pid.

Definition z_sig_is_valid (signo : Z) : bool := (0 <=? signo) && (signo <=? RTMIN + NUM_RT).
Definition z_sig_may_be_caught (signo : Z) : bool := negb ((signo =? K_SIG_KILL) || (signo =? K_SIG_STOP)).
Definition z_sig_may_be_ignored (signo : Z) : bool :=
  negb ((signo =? K_SIG_KILL) || (signo =? K_SIG_STOP) || (signo =? K_SIG_CONT)).

(** One turn of the ring buffer: every position is taken out and, when the
    thread is live, put back. *)
Fixpoint pending_loop (n : nat) (tid : Z) (set : list Z) (st : ksig) : ksig * list Z :=
  match n, fifo st with
  | S n', pos :: rest =>
      let entry := entry_at st pos in
      let set := if el_tid entry =? tid then fst (k_sig_addset set (ki_signo (el_info entry))) else set in
      let st := set_fifo rest st in
      let st := if live st tid then set_fifo (ring_buf_put rest pos) st else z_sig_slab_free_unlocked pos st in
      pending_loop n' tid set st
  | _, _ => (st, set)
  end.

Definition z_sig_pending_unlocked (st : ksig) (tid : Z) : ksig * list Z :=
  pending_loop (length (fifo st)) tid k_sig_emptyset st.

(** One turn of the ring buffer that leaves out the first match. *)
Fixpoint match_loop (n : nat) (tid filter_sig : Z) (set : list Z) (found : option nat) (st : ksig)
    : ksig * option nat :=
  match n, fifo st with
  | S n', p :: rest =>
      let entry := entry_at st p in
      let signo := ki_signo (el_info entry) in
      let hit := match found with
                 | Some _ => false
                 | None => (el_tid entry =? tid) &&
                     (if 0 <? filter_sig then signo =? filter_sig else negb (k_sig_ismember set signo =? 0))
                 end in
      if hit then match_loop n' tid filter_sig set (Some p) (set_fifo rest st)
      else match_loop n' tid filter_sig set found (set_fifo (ring_buf_put rest p) st)
  | _, _ => (st, found)
  end.

Definition mask_of (st : ksig) (tid : Z) : list Z :=
  match ctxs st !! tid with Some c => cx_mask c | None => k_sig_emptyset end.

Definition z_sig_match (st : ksig) (match_ : list Z) (tid : Z) (ignore_mask : bool) : ksig * option nat :=
  let '(st, pend) := z_sig_pending_unlocked st tid in
  let both := zip_with Z.land match_ pend in
  let set := if ignore_mask then both else zip_with Z.ldiff both (mask_of st tid) in
  if k_sig_setisempty set then (st, None)
  else match_loop (length (fifo st)) tid (z_sig_set_min set true) set None st.

Definition k_sig_queue (st : ksig) (cur pid signo value : Z) : ksig * res unit :=
  if (signo <? 0) || (SIGNAL_SET_SIZE <? signo) then (st, Err EINVAL)
  else if negb (z_sig_pid_is_valid st cur pid) then (st, Err ESRCH)
  else if signo =? 0 then (st, Ok tt)
  else
    match free_list st, ctxs st !! pid with
    | pos :: free, Some c =>
        let entry := mk_element pid (mk_kinfo signo K_SI_QUEUE value) no_action in
        (mk_ksig (ring_buf_put (fifo st) pos) (<[pos := entry]> (array st)) free (num_used st + 1) (signal_actions st)
           (<[pid := mk_ctx (cx_mask c) (cx_restore c) (cx_info c) (cx_action c) (cx_pending c + 1)
                       (cx_delivered c) (cx_live c)]> (ctxs st)), Ok tt)
    | _, _ => (st, Err EAGAIN)
    end.

(** The element at a position that z_sig_match has taken out is read, and
    its block freed. *)
Definition take_entry (st : ksig) (tid : Z) (pos : nat) : ksig * element :=
  let entry := entry_at st pos in
  let st := z_sig_slab_free_unlocked pos st in
  match ctxs st !! tid with
  | None => (st, entry)
  | Some c => (set_ctx tid (mk_ctx (cx_mask c) (cx_restore c) (cx_info c) (cx_action c) (cx_pending c - 1)
                              (cx_delivered c) (cx_live c)) st, entry)
  end.

(** What happens while k_poll of k_sig_timedwait sleeps: the state the thread
    wakes in, k_poll_signal_check's answer ([None]: k_poll failed) and whether
    the time has expired. *)
Definition poll_round := ksig -> ksig * option (bool * Z) * bool.

(** How the loop ends: with a position, with -EAGAIN, or with the 0 of k_poll
    when the time has expired after a signal that was not for this thread. *)
Inductive wait_end := WFound (pos : nat) | WAgain | WZero.

(** The loop of k_sig_timedwait; [None] when more rounds are needed. *)
Fixpoint timedwait_loop (rounds : list poll_round) (st : ksig) (cur : Z) (set : list Z) : option (ksig * wait_end) :=
  match z_sig_match st set cur true with
  | (st, Some pos) => Some (st, WFound pos)
  | (st, None) =>
      match rounds with
      | [] => None
      | poll :: rounds' =>
          let '(st, r, expired) := poll st in
          match r with
          | None => Some (st, WAgain)
          | Some (signalled, result) =>
              if signalled && (result =? swrap 32 cur) then
                match z_sig_match st set cur true with
                | (st, Some pos) => Some (st, WFound pos)
                | (st, None) => Some (st, WAgain)
                end
              else if expired then Some (st, WZero)
              else timedwait_loop rounds' st cur set
          end
      end
  end.

(** The signal's number and value, which are stored through [info].  The
    result [None] is that the assertion on the signal number fails; without
    assertions the call frees the block at position 255. *)
Definition k_sig_timedwait (rounds : list poll_round) (st : ksig) (cur : Z) (set : list Z)
    : option (ksig * option (res k_sig_info)) :=
  match timedwait_loop rounds st cur set with
  | None => None
  | Some (st, WZero) => Some (st, None)
  | Some (st, WAgain) => Some (st, Some (Err EAGAIN))
  | Some (st, WFound pos) =>
      let '(st, entry) := take_entry st cur pos in
      Some (st, Some (Ok (mk_kinfo (ki_signo (el_info entry)) 0 (ki_value (el_info entry)))))
  end.

(** A new kernel thread masks all signals; the rest of its context is what
    its memory has. *)
Definition z_setup_new_thread (st : ksig) (tid : Z) : ksig :=
  match ctxs st !! tid with
  | None => st
  | Some c => set_ctx tid (mk_ctx k_sig_fillset (cx_restore c) (cx_info c) (cx_action c) (cx_pending c)
                             (cx_delivered c) true) st
  end.

(** ** Masks *)

Definition set_mask (c : sig_ctx) (m : list Z) : sig_ctx :=
  mk_ctx m (cx_restore c) (cx_info c) (cx_action c) (cx_pending c) (cx_delivered c) (cx_live c).

Definition k_sig_mask (st : ksig) (cur : Z) (how : k_how) (set : option (list Z)) : ksig * res (list Z) :=
  match ctxs st !! cur with
  | None => (st, Err ESRCH)
  | Some c =>
      match set with
      | None => (st, Ok (cx_mask c))
      | Some s =>
          let m := match how with
                   | K_SIG_BLOCK => z_sig_orset (cx_mask c) s
                   | K_SIG_SETMASK => s
                   | K_SIG_UNBLOCK => z_sig_unset (cx_mask c) s
                   end in
          (set_ctx cur (set_mask c m) st, Ok (cx_mask c))
      end
  end.

Definition k_sig_pending (st : ksig) (cur : Z) : ksig * list Z := z_sig_pending_unlocked st cur.

Definition k_sig_delivered (st : ksig) (cur : Z) : Z :=
  match ctxs st !! cur with Some c => cx_delivered c | None => 0 end.

(** ** Actions *)

Definition z_sig_resolve (sig : Z) : k_handler :=
  if bool_decide (sig ∈ [1; 2; 9; 10; 12; 13; 14; 15; 26; 27]) then K_SIG_FUN z_sig_handler_term
  else if bool_decide (sig ∈ [3; 4; 5; 6; 7; 8; 11; 24; 25; 31]) then K_SIG_FUN z_sig_handler_core
  else if sig =? cancel then K_SIG_FUN z_sig_handler_cancel
  else if (RTMIN <=? sig) && (sig <? RTMIN + NUM_RT) then K_SIG_FUN z_sig_handler_term
  else K_SIG_IGN.

(** The search for the action of a signal of a thread, from index [i] on;
    actions of threads that have ended are cleared on the way. *)
Fixpoint action_loop (st : ksig) (cur sig tid : Z) (i : nat) (l : list element) : list element * option nat :=
  match l with
  | [] => ([], None)
  | e :: l' =>
      if negb (z_sig_pid_is_valid st cur (el_tid e)) then
        let '(l'', r) := action_loop st cur sig tid (S i) l' in (zero_element :: l'', r)
      else if negb ((ki_signo (el_info e) =? sig) && (el_tid e =? tid)) then
        let '(l'', r) := action_loop st cur sig tid (S i) l' in (e :: l'', r)
      else (e :: l', Some i)
  end.

(** The first unused element. *)
Fixpoint unused_loop (i : nat) (l : list element) : option nat :=
  match l with
  | [] => None
  | e :: l' => if ki_signo (el_info e) =? 0 then Some i else unused_loop (S i) l'
  end.

Definition unmaskable_cleared (m : list Z) : list Z := set_word m 0 (Z.ldiff (get_word m 0) UNMASKABLE_MASK).

Definition is_default (act : k_sig_action_t) : bool :=
  match kact_handler act with K_SIG_DFL => (kact_flags act =? 0) && k_sig_setisempty (kact_mask act) | _ => false end.

Definition is_ignore (h : k_handler) : bool := match h with K_SIG_IGN => true | _ => false end.

(** The action in force after a search that found [custom]. *)
Definition current_action (l : list element) (custom : option nat) (sig : Z) : k_sig_action_t :=
  match custom with
  | None => mk_kact (if is_ignore (z_sig_resolve sig) then K_SIG_IGN else K_SIG_DFL) 0 0 k_sig_emptyset
  | Some i => el_action (nth i l zero_element)
  end.

(** The write of a new action, without the signals that cannot be masked. *)
Definition action_store (l : list element) (i : nat) (tid sig : Z) (a : k_sig_action_t) : list element :=
  <[i := mk_element tid (mk_kinfo sig 0 0)
           (mk_kact (kact_handler a) (kact_user_data a) (kact_flags a) (unmaskable_cleared (kact_mask a)))]> l.

(** What a call stores through [oact], if that is not NULL: it is stored before
    the new action is looked at, so also by a call that then fails; [None] is
    that nothing is stored. *)
Definition z_sig_action_oact (st : ksig) (cur sig tid : Z) : option k_sig_action_t :=
  if negb (z_sig_is_valid sig) then None
  else let '(l, custom) := action_loop st cur sig tid 0 (signal_actions st) in Some (current_action l custom sig).

(** The action in force before the call, when it succeeds, or its error.  The
    search, the choice of an unused element and the write are separate in the
    source, the write without a lock; here a call is one step, and
    [action_slot_race] shows two that are not. *)
Definition z_sig_action (st : ksig) (cur sig : Z) (act : option k_sig_action_t) (tid : Z)
    : ksig * res k_sig_action_t :=
  if negb (z_sig_is_valid sig) then (st, Err EINVAL)
  else
    let '(l, custom) := action_loop st cur sig tid 0 (signal_actions st) in
    let st := set_actions l st in
    let oact := current_action l custom sig in
    match act with
    | None => (st, Ok oact)
    | Some a =>
        if (length l =? 0)%nat then (st, Err ENOMEM)
        else if is_ignore (kact_handler a) && negb (z_sig_may_be_ignored sig) then (st, Err EINVAL)
        else if negb (z_sig_may_be_caught sig) then (st, Err EINVAL)
        else if is_default a then
          (match custom with Some i => set_actions (<[i := zero_element]> l) st | None => st end, Ok oact)
        else
          match (match custom with Some i => Some i | None => unused_loop 0 l end) with
          | None => (st, Err ENOMEM)
          | Some i => (set_actions (action_store l i tid sig a) st, Ok oact)
          end
    end.

Definition k_sig_action (st : ksig) (cur sig : Z) (act : option k_sig_action_t) : ksig * res k_sig_action_t :=
  z_sig_action st cur sig act cur.

(** ** Delivery *)

(** The next signal of the thread that runs is taken out of the queue. *)
Definition sig_next (st : ksig) (cur : Z) : ksig * option element :=
  match ctxs st !! cur with
  | None => (st, None)
  | Some c =>
      if cx_pending c =? 0 then (st, None)
      else
        match z_sig_match st k_sig_fillset cur false with
        | (st, None) => (st, None)
        | (st, Some pos) => let '(st, entry) := take_entry st cur pos in (st, Some entry)
        end
  end.

(** [true] when a signal is to be handled, which is then in the context with
    its action. *)
Definition z_sig_handle (st : ksig) (cur : Z) : ksig * bool :=
  match sig_next st cur with
  | (st, None) => (st, false)
  | (st, Some entry) =>
      let signo := ki_signo (el_info entry) in
      match z_sig_action st cur signo None (el_tid entry) with
      | (st, Err _) => (st, false)
      | (st, Ok a) =>
          if is_ignore (kact_handler a) then (st, false)
          else
            let h := match kact_handler a with K_SIG_DFL => z_sig_resolve signo | h => h end in
            let a := mk_kact h (kact_user_data a) (kact_flags a) (kact_mask a) in
            match ctxs st !! cur with
            | None => (st, false)
            | Some c =>
                let m := if flag_set (kact_flags a) K_SIG_SA_NODEFER then cx_mask c
                         else fst (k_sig_addset (cx_mask c) signo) in
                (set_ctx cur (mk_ctx (z_sig_orset m (kact_mask a)) (cx_mask c) (el_info entry) a (cx_pending c)
                                (cx_delivered c + 1) (cx_live c)) st, true)
            end
      end
  end.

Definition k_sig_current (st : ksig) (cur : Z) : k_sig_info * k_sig_action_t :=
  match ctxs st !! cur with Some c => (cx_info c, cx_action c) | None => (no_info, no_action) end.

Definition k_sig_return (st : ksig) (cur : Z) : ksig :=
  match ctxs st !! cur with Some c => set_ctx cur (set_mask c (cx_restore c)) st | None => st end.

(** [run] is what a handler does with its signal. *)
Definition z_sig_trampoline (run : k_handler -> k_sig_info -> ksig -> ksig) (st : ksig) (cur : Z) : ksig :=
  let '(info, action) := k_sig_current st cur in
  let st :=
    if flag_set (kact_flags action) K_SIG_SA_RESETHAND then
      fst (k_sig_action st cur (ki_signo info)
             (Some (mk_kact K_SIG_DFL (kact_user_data action) (Z.ldiff (kact_flags action) K_SIG_SA_SIGINFO)
                      (kact_mask action))))
    else st in
  k_sig_return (run (kact_handler action) info st) cur.

Fixpoint sig_check_loop (run : k_handler -> k_sig_info -> ksig -> ksig) (fuel : nat) (st : ksig) (cur : Z) : option ksig :=
  match fuel with
  | O => None
  | S fuel' =>
      match z_sig_handle st cur with
      | (st, false) => Some st
      | (st, true) => sig_check_loop run fuel' (z_sig_trampoline run st cur) cur
      end
  end.

Definition z_syscall_sig_check (run : k_handler -> k_sig_info -> ksig -> ksig) (fuel : nat) (st : ksig) (cur : Z)
    : option ksig :=
  match ctxs st !! cur with
  | Some c => if 0 <? cx_pending c then sig_check_loop run fuel st cur else Some st
  | None => Some st
  end.

(** ** Alarms *)

(** When the timer expires; [cur] is 0 in an interrupt. *)
Definition z_sig_alarm_expiry (st : ksig) (cur : Z) (target : option Z) : ksig :=
  match target with
  | None => st
  | Some tid => if z_sig_pid_is_valid st cur tid then fst (k_sig_queue st cur tid 14 0) else st
  end.

(** [None] is K_FOREVER; the new target, and the time that was left. *)
Definition k_sig_alarm (cur : Z) (timeout : option Z) (remaining : Z) : option Z * Z :=
  (match timeout with Some _ => Some cur | None => None end, remaining).

(** ** Membership *)

Context (Hw : w = 32 \/ w = 64) (Hsize : 1 <= SIGNAL_SET_SIZE).
Abbreviation mem := (sig_mem w).
Abbreviation kset := (words w NLONGS).

Lemma size_fits : SIGNAL_SET_SIZE <= NLONGS * w.
Proof. pose proof (div_round_up_le w Hw (Z.max SIGNAL_SET_SIZE 1)). unfold K_SIGSET_NLONGS. lia. Qed.

Lemma nlongs_pos : 0 < NLONGS.
Proof. pose proof size_fits. pose proof (w_pos w Hw). nia. Qed.

Lemma k_sig_word_div s : k_sig_word s = (s - 1) / w.
Proof. unfold k_sig_word. rewrite Z.shiftr_div_pow2 by apply Z.log2_nonneg. by destruct Hw as [-> | ->]. Qed.

Lemma k_sig_bit_mod s : k_sig_bit s = (s - 1) mod w.
Proof. exact (word_bit w Hw s). Qed.

Lemma addset_spec set s t : kset set -> 1 <= s <= SIGNAL_SET_SIZE -> 1 <= t ->
  mem (fst (k_sig_addset set s)) t = (t =? s) || mem set t.
Proof.
  intros Hs Hr Ht. pose proof size_fits. unfold k_sig_addset.
  rewrite (proj2 (Z.leb_gt s 0)), (proj2 (Z.ltb_ge _ _)) by lia. cbn [orb fst].
  rewrite k_sig_word_div, k_sig_bit_mod.
  pose proof (sig_mem_write w Hw set NLONGS s t true Hs) as Hm. cbn [WRITE_BIT] in Hm.
  rewrite Hm by lia. by destruct (t =? s).
Qed.

Lemma addset_words set s : kset set -> kset (fst (k_sig_addset set s)).
Proof.
  intros Hs. unfold k_sig_addset. pose proof size_fits.
  destruct (Z.leb_spec s 0), (Z.ltb_spec SIGNAL_SET_SIZE s); try done. cbn [orb fst].
  rewrite k_sig_word_div, k_sig_bit_mod. apply (words_write w Hw NLONGS set s true); [done|lia].
Qed.

Lemma delset_spec set s t : kset set -> 1 <= s <= SIGNAL_SET_SIZE -> 1 <= t ->
  mem (fst (k_sig_delset set s)) t = negb (t =? s) && mem set t.
Proof.
  intros Hs Hr Ht. pose proof size_fits. unfold k_sig_delset.
  rewrite (proj2 (Z.leb_gt s 0)), (proj2 (Z.ltb_ge _ _)) by lia. cbn [orb fst].
  rewrite k_sig_word_div, k_sig_bit_mod.
  pose proof (sig_mem_write w Hw set NLONGS s t false Hs) as Hm. cbn [WRITE_BIT] in Hm.
  rewrite Hm by lia. by destruct (t =? s).
Qed.

Lemma ismember_spec set s : 1 <= s <= SIGNAL_SET_SIZE ->
  negb (k_sig_ismember set s =? 0) = mem set s.
Proof.
  intros Hr. unfold k_sig_ismember, sig_mem.
  rewrite (proj2 (Z.leb_gt s 0)), (proj2 (Z.ltb_ge _ _)) by lia. cbn [orb].
  rewrite k_sig_word_div, k_sig_bit_mod, Z.shiftl_1_l.
  pose proof (Z.mod_pos_bound (s - 1) w (w_pos w Hw)).
  rewrite <- flag_set_pow2 by lia. unfold flag_set. by destruct (Z.land _ _ =? 0).
Qed.

(** Word by word operations that act on each bit. *)
Lemma zip_mem (op : Z -> Z -> Z) (b : bool -> bool -> bool) a c t :
  (forall x y i, Z.testbit (op x y) i = b (Z.testbit x i) (Z.testbit y i)) -> op 0 0 = 0 ->
  length a = length c -> mem (zip_with op a c) t = b (mem a t) (mem c t).
Proof.
  intros Hop H0 Hl. unfold sig_mem, get_word. rewrite !nth_lookup, lookup_zip_with, <- Hop. f_equal.
  destruct (a !! _) as [x|] eqn:Hx, (c !! _) as [y|] eqn:Hy; try done.
  - apply lookup_lt_Some in Hx. apply lookup_ge_None in Hy. lia.
  - apply lookup_lt_Some in Hy. apply lookup_ge_None in Hx. lia.
Qed.

Lemma zip_words (op : Z -> Z -> Z) a c :
  (forall x y, 0 <= x < 2 ^ w -> 0 <= y < 2 ^ w -> 0 <= op x y < 2 ^ w) ->
  kset a -> kset c -> kset (zip_with op a c).
Proof.
  intros Hop [La Ha] [Lc Hc]. split; [rewrite length_zip_with; lia|].
  rewrite Forall_forall in Ha, Hc. apply Forall_forall. intros z Hz.
  apply elem_of_lookup_zip_with in Hz as (i & x & y & -> & Hx & Hy).
  apply Hop; [apply Ha|apply Hc]; by eapply list_elem_of_lookup_2.
Qed.

Lemma bitop_range op (b : bool -> bool -> bool) x y :
  (forall x y i, Z.testbit (op x y) i = b (Z.testbit x i) (Z.testbit y i)) -> b false false = false ->
  0 <= op x y -> 0 <= x < 2 ^ w -> 0 <= y < 2 ^ w -> 0 <= op x y < 2 ^ w.
Proof.
  intros Hop Hb H0 Hx Hy. split; [done|]. apply (bits_lt w Hw); [done|]. intros i Hi.
  by rewrite Hop, (lt_bits w x), (lt_bits w y).
Qed.

Lemma land_words a c : kset a -> kset c -> kset (zip_with Z.land a c).
Proof.
  intros. apply zip_words; [|done..]. intros x y Hx Hy.
  apply (bitop_range Z.land andb); try done; [intros; apply Z.land_spec|]. apply Z.land_nonneg. lia.
Qed.
Lemma ldiff_words a c : kset a -> kset c -> kset (zip_with Z.ldiff a c).
Proof.
  intros. apply zip_words; [|done..]. intros x y Hx Hy.
  apply (bitop_range Z.ldiff (fun p q => p && negb q)); try done; [intros; apply Z.ldiff_spec|].
  apply Z.ldiff_nonneg. lia.
Qed.
Lemma orset_words a c : kset a -> kset c -> kset (z_sig_orset a c).
Proof.
  intros. apply zip_words; [|done..]. intros x y Hx Hy.
  apply (bitop_range Z.lor orb); try done; [intros; apply Z.lor_spec|]. apply Z.lor_nonneg. lia.
Qed.

Lemma kset_length a : kset a -> length a = Z.to_nat NLONGS.
Proof. intros [Hl _]. lia. Qed.

Lemma land_mem a c t : kset a -> kset c -> mem (zip_with Z.land a c) t = mem a t && mem c t.
Proof.
  intros Ha Hc. apply zip_mem; [intros; apply Z.land_spec|done|by rewrite !kset_length].
Qed.
Lemma ldiff_mem a c t : kset a -> kset c -> mem (zip_with Z.ldiff a c) t = mem a t && negb (mem c t).
Proof.
  intros Ha Hc. apply (zip_mem _ (fun p q => p && negb q)); [intros; apply Z.ldiff_spec|done|by rewrite !kset_length].
Qed.
Lemma orset_mem a c t : kset a -> kset c -> mem (z_sig_orset a c) t = mem a t || mem c t.
Proof.
  intros Ha Hc. apply (zip_mem _ orb); [intros; apply Z.lor_spec|done|by rewrite !kset_length].
Qed.

Lemma emptyset_words : kset k_sig_emptyset.
Proof. pose proof nlongs_pos. apply (words_replicate w Hw); [lia|]. split; [lia|]. destruct Hw; subst; lia. Qed.
Lemma fillset_words : kset k_sig_fillset.
Proof. pose proof nlongs_pos. apply (words_replicate w Hw); [lia|]. destruct Hw; subst; lia. Qed.
Lemma emptyset_mem t : mem k_sig_emptyset t = false.
Proof.
  unfold sig_mem, get_word, k_sig_emptyset. rewrite nth_lookup.
  destruct (_ !! _) as [x|] eqn:Hx; [|apply Z.bits_0]. apply lookup_replicate in Hx as [-> _]. apply Z.bits_0.
Qed.
Lemma fillset_mem t : 1 <= t <= SIGNAL_SET_SIZE -> mem k_sig_fillset t = true.
Proof.
  intros Ht. pose proof size_fits. pose proof (Z.mod_pos_bound (t - 1) w (w_pos w Hw)).
  unfold k_sig_fillset. rewrite sig_mem_replicate by (done || lia).
  replace (2 ^ w - 1) with (Z.ones w) by (rewrite Z.ones_equiv; lia). apply Z.ones_spec_low. lia.
Qed.

(** A word that is not 0 has a bit. *)
Lemma word_has_bit x : 0 <= x < 2 ^ w -> x <> 0 -> exists i, 0 <= i < w /\ Z.testbit x i = true.
Proof.
  intros Hx Hne. exists (Z.log2 x). rewrite Z.bit_log2 by lia. pose proof (Z.log2_nonneg x).
  split; [|done]. split; [done|]. apply Z.log2_lt_pow2; lia.
Qed.

Lemma setisempty_spec a : kset a ->
  k_sig_setisempty a = true <-> forall t, 1 <= t <= NLONGS * w -> mem a t = false.
Proof.
  intros [Hl Ha]. pose proof (w_pos w Hw) as Hp. unfold k_sig_setisempty. split.
  - intros He t Ht. unfold sig_mem, get_word. rewrite nth_lookup.
    destruct (a !! _) as [x|] eqn:Hx; [|apply Z.bits_0].
    apply list_elem_of_lookup_2, list_elem_of_In in Hx. rewrite forallb_forall in He.
    apply He, Z.eqb_eq in Hx as ->. apply Z.bits_0.
  - intros Hm. apply forallb_forall. intros x Hx. apply list_elem_of_In, list_elem_of_lookup in Hx as [i Hi].
    apply Z.eqb_eq. destruct (Z.eq_dec x 0) as [|Hne]; [done|]. exfalso.
    destruct (word_has_bit x (Forall_lookup_1 _ _ _ _ Ha Hi) Hne) as (b & Hb & Hbit).
    pose proof (lookup_lt_Some _ _ _ Hi) as Hlt.
    specialize (Hm (Z.of_nat i * w + b + 1) ltac:(nia)). unfold sig_mem, get_word in Hm.
    replace (Z.of_nat i * w + b + 1 - 1) with (b + Z.of_nat i * w) in Hm by lia.
    rewrite Z.div_add, Z.mod_add, Z.div_small, Z.mod_small, Z.add_0_l, Nat2Z.id in Hm by lia.
    rewrite nth_lookup, Hi in Hm. cbn in Hm. congruence.
Qed.

(** ** The least real-time signal of a set *)

Context (Hctz : forall x, 0 < x < 2 ^ w ->
  0 <= count_trailing_zeros x < w /\ Z.testbit x (count_trailing_zeros x) = true /\
  forall i, 0 <= i < count_trailing_zeros x -> Z.testbit x i = false).
Context (Hcancel : 0 <= cancel).

(** The word of the loop has the bits of the signals from RTMIN on. *)
Lemma rt_word_spec i word b : 0 <= i -> 0 <= word < 2 ^ w -> 0 <= b < w ->
  let rtmin_bit := RTMIN - 1 - i * w in
  let word' := if w <=? rtmin_bit then 0
               else if 0 <? rtmin_bit then Z.ldiff word (2 ^ rtmin_bit - 1) else word in
  0 <= word' < 2 ^ w /\ Z.testbit word' b = Z.testbit word b && (RTMIN <=? i * w + b + 1).
Proof.
  intros Hi Hword Hb rb word'. subst word'.
  destruct (Z.leb_spec w rb) as [Hge|Hlt].
  { rewrite Z.bits_0, (proj2 (Z.leb_gt _ _)), andb_false_r by lia. split; [lia|done]. }
  destruct (Z.ltb_spec 0 rb) as [Hpos|Hneg].
  - replace (2 ^ rb - 1) with (Z.ones rb) by (rewrite Z.ones_equiv; lia). split.
    + apply (bitop_range Z.ldiff (fun p q => p && negb q)); try done; [intros; apply Z.ldiff_spec|apply Z.ldiff_nonneg; lia|].
      rewrite Z.ones_equiv. pose proof (Z.pow_pos_nonneg 2 rb). pose proof (Z.pow_lt_mono_r 2 rb w). lia.
    + rewrite Z.ldiff_spec. f_equal. destruct (Z.leb_spec RTMIN (i * w + b + 1)).
      * rewrite Z.ones_spec_high by lia. done.
      * rewrite Z.ones_spec_low by lia. done.
  - rewrite (proj2 (Z.leb_le _ _)), andb_true_r by lia. done.
Qed.

Lemma mem_from i word set t : 0 <= i -> i * w < t -> t <= (i + 1) * w ->
  Z.testbit (nth (Z.to_nat ((t - 1) / w - i)) (word :: set) 0) ((t - 1) mod w) = Z.testbit word (t - 1 - i * w).
Proof.
  intros Hi Hlo Hhi. pose proof (w_pos w Hw). assert (Hd : (t - 1) / w = i).
  { symmetry. apply (Z.div_unique (t - 1) w i (t - 1 - i * w)); lia. }
  rewrite Hd, Z.sub_diag. cbn [Z.to_nat nth]. f_equal.
  rewrite Z.mod_eq, Hd by lia. lia.
Qed.

(** From word [i] on: membership in the rest of the set. *)
Definition mem_at (i : Z) (set : list Z) (t : Z) : bool :=
  (i * w <? t) && Z.testbit (nth (Z.to_nat ((t - 1) / w - i)) set 0) ((t - 1) mod w).

Lemma mem_at_cons i word set t : 0 <= i -> 
  mem_at i (word :: set) t =
    ((i * w <? t) && (t <=? (i + 1) * w) && Z.testbit word (t - 1 - i * w)) || mem_at (i + 1) set t.
Proof.
  intros Hi. pose proof (w_pos w Hw). unfold mem_at. destruct (Z.ltb_spec (i * w) t) as [Hlt|Hge]; cbn [andb orb].
  - destruct (Z.leb_spec t ((i + 1) * w)) as [Hle|Hgt].
    + rewrite mem_from by lia. rewrite (proj2 (Z.ltb_ge _ _)) by lia. by rewrite orb_false_r.
    + rewrite (proj2 (Z.ltb_lt _ _)) by lia. cbn [andb orb].
      assert (i + 1 <= (t - 1) / w) by (apply Z.div_le_lower_bound; nia).
      replace (Z.to_nat ((t - 1) / w - i)) with (S (Z.to_nat ((t - 1) / w - (i + 1)))) by lia. done.
  - rewrite (proj2 (Z.ltb_ge _ _)) by nia. done.
Qed.

Lemma mem_at_0 set t : 1 <= t -> mem_at 0 set t = mem set t.
Proof. intros Ht. unfold mem_at. rewrite (proj2 (Z.ltb_lt _ _)) by lia. by rewrite Z.sub_0_r. Qed.

Lemma min_loop_spec set : forall i, 0 <= i -> Forall (fun x => 0 <= x < 2 ^ w) set ->
  let s := min_loop true i set in
  (s = 0 /\ forall t, RTMIN <= t -> mem_at i set t = false) \/
  (RTMIN <= s /\ mem_at i set s = true /\ forall t, RTMIN <= t < s -> mem_at i set t = false).
Proof.
  pose proof (w_pos w Hw) as Hp.
  induction set as [|word set IH]; intros i Hi Hall s; subst s; cbn [min_loop].
  { left. split; [done|]. intros t _. unfold mem_at. rewrite nth_lookup. cbn. by rewrite Z.bits_0, andb_false_r. }
  apply Forall_cons in Hall as [Hword Hall].
  pose proof (fun b Hb => rt_word_spec i word b Hi Hword Hb) as Hrt. cbn zeta in Hrt.
  match goal with |- context [if ?x =? 0 then _ else _] => remember x as word' eqn:Hw' end. clear Hw'.
  destruct (Hrt 0 ltac:(lia)) as [Hr _].
  assert (Hbit : forall t, i * w < t -> t <= (i + 1) * w -> RTMIN <= t ->
            Z.testbit word (t - 1 - i * w) = Z.testbit word' (t - 1 - i * w)).
  { intros t H1 H2 H3. rewrite (proj2 (Hrt (t - 1 - i * w) ltac:(lia))), (proj2 (Z.leb_le _ _)) by lia.
    by rewrite andb_true_r. }
  destruct (Z.eqb_spec word' 0) as [Hz|Hnz].
  - specialize (IH (i + 1) ltac:(lia) Hall) as IH'. cbn zeta in IH'.
    assert (Hskip : forall t, RTMIN <= t -> mem_at i (word :: set) t = mem_at (i + 1) set t).
    { intros t Ht. rewrite mem_at_cons by done.
      destruct (Z.ltb_spec (i * w) t), (Z.leb_spec t ((i + 1) * w)); cbn [andb orb]; try done.
      by rewrite Hbit, Hz, Z.bits_0. }
    destruct IH' as [[-> Hno]|(Hge & Hm & Hno)]; [left|right].
    + split; [done|]. intros t Ht. rewrite Hskip by done. by apply Hno.
    + split_and!; [done|by rewrite Hskip|]. intros t Ht. rewrite Hskip by lia. by apply Hno.
  - right. destruct (Hctz word' ltac:(lia)) as (Hc & Hset & Hlow). set (c := count_trailing_zeros word') in *.
    pose proof (proj2 (Hrt c Hc)) as Hcb. rewrite Hset in Hcb. symmetry in Hcb. apply andb_true_iff in Hcb as [Hwb Hge].
    apply Z.leb_le in Hge. split_and!; [lia| |].
    + rewrite mem_at_cons by done. rewrite (proj2 (Z.ltb_lt _ _)), (proj2 (Z.leb_le _ _)) by lia. cbn [andb].
      replace (i * w + c + 1 - 1 - i * w) with c by lia. by rewrite Hwb.
    + intros t Ht. rewrite mem_at_cons by done.
      destruct (Z.ltb_spec (i * w) t), (Z.leb_spec t ((i + 1) * w)); cbn [andb orb];
        [|lia|unfold mem_at; by rewrite (proj2 (Z.ltb_ge _ _)) by lia|lia].
      rewrite Hbit, Hlow by lia. unfold mem_at. by rewrite (proj2 (Z.ltb_ge _ _)) by lia.
Qed.

Context (HRT : NUM_RT <> 0).

Lemma set_min_spec set : kset set ->
  let s := z_sig_set_min set true in
  (s = 0 /\ forall t, RTMIN <= t -> mem set t = false) \/
  (RTMIN <= s /\ mem set s = true /\ forall t, RTMIN <= t < s -> mem set t = false).
Proof.
  intros Hk s. assert (Hr : 1 <= RTMIN) by (unfold K_SIG_RTMIN; lia).
  subst s. unfold z_sig_set_min. rewrite (proj2 (Z.eqb_neq _ _) HRT). cbn [andb orb].
  destruct (k_sig_setisempty set) eqn:He.
  - left. split; [done|]. intros t Ht.
    destruct (Z.le_gt_cases t (NLONGS * w)) as [Hle|Hgt]; [apply (proj1 (setisempty_spec set Hk) He); lia|].
    unfold sig_mem, get_word. rewrite nth_lookup, lookup_ge_None_2; [apply Z.bits_0|].
    pose proof (kset_length set Hk) as Hl. pose proof (w_pos w Hw). pose proof nlongs_pos.
    assert (NLONGS <= (t - 1) / w) by (apply Z.div_le_lower_bound; lia). lia.
  - destruct Hk as [_ Hall]. destruct (min_loop_spec set 0 ltac:(lia) Hall) as [[-> Hno]|(Hge & Hm & Hno)]; [left|right].
    + split; [done|]. intros t Ht. rewrite <- mem_at_0 by lia. by apply Hno.
    + rewrite mem_at_0 in Hm by lia. split_and!; [done..|]. intros t Ht. rewrite <- mem_at_0 by lia. by apply Hno.
Qed.

(** ** The queue behind the ring buffer *)

Abbreviation signo e := (ki_signo (el_info e)).

Definition queue (st : ksig) : list element := entry_at st <$> fifo st.

(** Positions are used once, and each is in the ring buffer or free; every
    signal that waits has a number. *)
Record queue_ok (st : ksig) : Prop := {
  qo_nodup : NoDup (fifo st ++ free_list st);
  qo_bound : Forall (fun p => p < QUEUE_SIZE)%nat (fifo st ++ free_list st);
  qo_size : (length (fifo st) + length (free_list st) = QUEUE_SIZE)%nat;
  qo_array : length (array st) = QUEUE_SIZE;
  qo_used : num_used st = Z.of_nat (length (fifo st));
  qo_signo : Forall (fun e => 1 <= signo e <= SIGNAL_SET_SIZE) (queue st);
}.

Lemma set_fifo_same st : set_fifo (fifo st) st = st.
Proof. by destruct st. Qed.

Lemma put_room q p : (length q < QUEUE_SIZE)%nat -> ring_buf_put q p = q ++ [p].
Proof. intros Hl. unfold ring_buf_put. by rewrite (proj2 (Nat.ltb_lt _ _) Hl). Qed.

Definition add_pending (tid : Z) (set : list Z) (e : element) : list Z :=
  if el_tid e =? tid then fst (k_sig_addset set (signo e)) else set.

(** A whole turn leaves the ring buffer as it was. *)
Lemma pending_loop_turn tid a : forall b set st, live st tid = true ->
  fifo st = a ++ b -> (length (a ++ b) <= QUEUE_SIZE)%nat ->
  pending_loop (length a) tid set st = (set_fifo (b ++ a) st, foldl (add_pending tid) set (entry_at st <$> a)).
Proof.
  induction a as [|p a IH]; intros b set st Hl Hf Hlen; cbn [length pending_loop].
  { cbn. rewrite app_nil_r. cbn in Hf. by rewrite <- Hf, set_fifo_same. }
  rewrite Hf. cbn [app]. rewrite (Hl : live (set_fifo (a ++ b) st) tid = true).
  cbn in Hlen. rewrite put_room by lia.
  replace (set_fifo ((a ++ b) ++ [p]) (set_fifo (a ++ b) st)) with (set_fifo (a ++ (b ++ [p])) st)
    by (rewrite app_assoc; done).
  rewrite (IH (b ++ [p])); [|done..|rewrite !length_app in *; cbn; lia]. rewrite <- app_assoc. done.
Qed.

Lemma pending_unchanged st tid : live st tid = true -> (length (fifo st) <= QUEUE_SIZE)%nat ->
  z_sig_pending_unlocked st tid = (st, foldl (add_pending tid) k_sig_emptyset (queue st)).
Proof.
  intros Hl Hlen. unfold z_sig_pending_unlocked.
  rewrite (pending_loop_turn tid (fifo st) []); rewrite ?app_nil_r; try done. cbn. by rewrite set_fifo_same.
Qed.

Lemma pending_mem tid q : Forall (fun e => 1 <= signo e <= SIGNAL_SET_SIZE) q -> forall set, kset set ->
  kset (foldl (add_pending tid) set q) /\
  forall t, 1 <= t -> mem (foldl (add_pending tid) set q) t =
    mem set t || existsb (fun e => (el_tid e =? tid) && (signo e =? t)) q.
Proof.
  induction 1 as [|e q He Hq IH]; intros set Hs; cbn [foldl existsb].
  { split; [done|]. intros t _. by rewrite orb_false_r. }
  assert (Hs' : kset (add_pending tid set e)).
  { unfold add_pending. destruct (el_tid e =? tid); [by apply addset_words|done]. }
  destruct (IH _ Hs') as [IH1 IH2]. split; [done|]. intros t Ht. rewrite IH2 by done.
  unfold add_pending. destruct (el_tid e =? tid); cbn [andb]; [|done].
  rewrite addset_spec by done. rewrite (Z.eqb_sym (signo e)). by destruct (t =? signo e), (mem set t).
Qed.

(** What the loop of z_sig_match looks for. *)
Definition hits (tid filter_sig : Z) (set : list Z) (e : element) : bool :=
  (el_tid e =? tid) && (if 0 <? filter_sig then signo e =? filter_sig else negb (k_sig_ismember set (signo e) =? 0)).

Lemma match_loop_rest tid fs set p a : forall b st,
  fifo st = a ++ b -> (length (a ++ b) <= QUEUE_SIZE)%nat ->
  match_loop (length a) tid fs set (Some p) st = (set_fifo (b ++ a) st, Some p).
Proof.
  induction a as [|x a IH]; intros b st Hf Hlen; cbn [length match_loop].
  { rewrite app_nil_r. cbn in Hf. by rewrite <- Hf, set_fifo_same. }
  rewrite Hf. cbn [app]. cbn in Hlen. rewrite put_room by lia.
  replace (set_fifo ((a ++ b) ++ [x]) st) with (set_fifo (a ++ (b ++ [x])) st) by (rewrite app_assoc; done).
  rewrite (IH (b ++ [x])); [|done|rewrite !length_app in *; cbn; lia]. rewrite <- app_assoc. done.
Qed.

Lemma match_loop_turn tid fs set a : forall b st,
  fifo st = a ++ b -> (length (a ++ b) <= QUEUE_SIZE)%nat ->
  (Forall (fun p => hits tid fs set (entry_at st p) = false) a /\
   match_loop (length a) tid fs set None st = (set_fifo (b ++ a) st, None)) \/
  (exists a1 p a2, a = a1 ++ p :: a2 /\ hits tid fs set (entry_at st p) = true /\
     Forall (fun p => hits tid fs set (entry_at st p) = false) a1 /\
     match_loop (length a) tid fs set None st = (set_fifo (b ++ a1 ++ a2) st, Some p)).
Proof.
  induction a as [|x a IH]; intros b st Hf Hlen; cbn [length match_loop].
  { left. split; [constructor|]. rewrite app_nil_r. cbn in Hf. by rewrite <- Hf, set_fifo_same. }
  rewrite Hf. cbn [app]. change (_ && _) with (hits tid fs set (entry_at st x)). cbn in Hlen.
  destruct (hits tid fs set (entry_at st x)) eqn:Hh.
  - right. exists [], x, a. split_and!; [done..|]. rewrite (match_loop_rest tid fs set x a b); [done|done|].
    rewrite length_app in *; lia.
  - rewrite put_room by lia.
    replace (set_fifo ((a ++ b) ++ [x]) st) with (set_fifo (a ++ (b ++ [x])) st) by (rewrite app_assoc; done).
    destruct (IH (b ++ [x]) (set_fifo (a ++ b ++ [x]) st)) as [[Ha ->]|(a1 & p & a2 & -> & Hp & Ha & ->)];
      [done|rewrite !length_app in *; cbn; lia|left|right].
    + split; [by constructor|]. by rewrite <- app_assoc.
    + exists (x :: a1), p, a2. split_and!; [done|done|by constructor|]. by rewrite <- app_assoc.
Qed.

Lemma match_loop_all st tid fs set : (length (fifo st) <= QUEUE_SIZE)%nat ->
  (Forall (fun e => hits tid fs set e = false) (queue st) /\
   match_loop (length (fifo st)) tid fs set None st = (st, None)) \/
  (exists f1 p f2, fifo st = f1 ++ p :: f2 /\ hits tid fs set (entry_at st p) = true /\
     Forall (fun e => hits tid fs set e = false) (entry_at st <$> f1) /\
     match_loop (length (fifo st)) tid fs set None st = (set_fifo (f1 ++ f2) st, Some p)).
Proof.
  intros Hlen. destruct (match_loop_turn tid fs set (fifo st) [] st) as [[Ha ->]|(a1 & p & a2 & Hf & Hp & Ha & ->)];
    [by rewrite app_nil_r..|left|right]; cbn.
  - rewrite set_fifo_same. split; [|done]. by apply Forall_fmap.
  - exists a1, p, a2. split_and!; [done..|by apply Forall_fmap|done].
Qed.

(** ** Which signal is next *)

(** A signal of the thread, in the set and, unless masks do not count, not
    masked. *)
Definition wanted (st : ksig) (match_ : list Z) (tid : Z) (ignore_mask : bool) (e : element) : bool :=
  (el_tid e =? tid) && mem match_ (signo e) && (ignore_mask || negb (mem (mask_of st tid) (signo e))).

(** [e] is to be taken from between [q1] and [q2]: it is wanted; when a
    real-time signal is wanted it is the one with the least number; among
    signals of its number, and when it is a standard signal among all, it is
    the oldest. *)
Definition is_next (want : element -> bool) (q1 : list element) (e : element) (q2 : list element) : Prop :=
  want e = true /\
  (forall e', e' ∈ q1 ++ q2 -> want e' = true -> RTMIN <= signo e' -> RTMIN <= signo e <= signo e') /\
  (forall e', e' ∈ q1 -> want e' = true -> signo e' = signo e \/ signo e < RTMIN -> False).

Section match_.
Context (st : ksig) (match_ : list Z) (tid : Z) (ignore_mask : bool).
Context (Hq : queue_ok st) (Hlive : live st tid = true) (Hm : kset match_) (Hmask : kset (mask_of st tid)).

Abbreviation pend := (foldl (add_pending tid) k_sig_emptyset (queue st)).
Abbreviation both := (zip_with Z.land match_ pend).
Abbreviation the_set := (if ignore_mask then both else zip_with Z.ldiff both (mask_of st tid)).

Lemma fifo_length : (length (fifo st) <= QUEUE_SIZE)%nat.
Proof. pose proof (qo_size st Hq). lia. Qed.

Lemma the_set_words : kset the_set.
Proof.
  destruct (pending_mem tid (queue st) (qo_signo st Hq) _ emptyset_words) as [Hp _].
  destruct ignore_mask; [|apply ldiff_words; [|done]]; by apply land_words.
Qed.

Lemma the_set_mem t : 1 <= t -> mem the_set t = true <-> exists e, e ∈ queue st /\ wanted st match_ tid ignore_mask e = true /\ signo e = t.
Proof.
  intros Ht. destruct (pending_mem tid (queue st) (qo_signo st Hq) _ emptyset_words) as [Hp Hpm].
  assert (Hset : mem the_set t = mem match_ t && existsb (fun e => (el_tid e =? tid) && (signo e =? t)) (queue st)
             && (ignore_mask || negb (mem (mask_of st tid) t))).
  { destruct ignore_mask; [|rewrite ldiff_mem by (try apply land_words; done)];
      rewrite land_mem, Hpm, emptyset_mem by done; cbn [orb]; by rewrite ?andb_true_r. }
  rewrite Hset, !andb_true_iff, existsb_exists. unfold wanted. split.
  - intros [[H1 (e & He & Hte)] H2]. apply andb_true_iff in Hte as [Ha Hb]. apply Z.eqb_eq in Hb. subst t.
    exists e. rewrite list_elem_of_In. split_and!; [done| |done]. by rewrite Ha, H1, H2.
  - intros (e & He & Hwe & <-). apply andb_true_iff in Hwe as [Hwe H2]. apply andb_true_iff in Hwe as [Ha H1].
    split_and!; [done| |done]. exists e. rewrite <- list_elem_of_In, Ha, Z.eqb_refl. done.
Qed.

Lemma wanted_in_set e : e ∈ queue st -> wanted st match_ tid ignore_mask e = (el_tid e =? tid) && mem the_set (signo e).
Proof.
  intros He. pose proof (qo_signo st Hq) as Hs. rewrite Forall_forall in Hs. specialize (Hs e He).
  destruct (wanted st match_ tid ignore_mask e) eqn:Hwe.
  - assert (mem the_set (signo e) = true) as -> by (apply the_set_mem; [lia|by exists e]).
    unfold wanted in Hwe. by destruct (el_tid e =? tid).
  - destruct (el_tid e =? tid) eqn:Ht; [|done]. cbn [andb]. symmetry. apply not_true_is_false. intros Hs'.
    apply the_set_mem in Hs' as (e' & _ & Hw' & Heq); [|lia]. unfold wanted in *. rewrite Heq in Hw'.
    rewrite Ht in Hwe. apply andb_true_iff in Hw' as [Hw' H2]. apply andb_true_iff in Hw' as [_ H1].
    rewrite H1, H2 in Hwe. done.
Qed.

Lemma sig_match_spec :
  let want := wanted st match_ tid ignore_mask in
  (Forall (fun e => want e = false) (queue st) /\ z_sig_match st match_ tid ignore_mask = (st, None)) \/
  (exists f1 pos f2, fifo st = f1 ++ pos :: f2 /\
     is_next want (entry_at st <$> f1) (entry_at st pos) (entry_at st <$> f2) /\
     z_sig_match st match_ tid ignore_mask = (set_fifo (f1 ++ f2) st, Some pos)).
Proof.
  intros want. pose proof fifo_length as Hlen. unfold z_sig_match. rewrite pending_unchanged by done. cbn zeta.
  pose proof (qo_signo st Hq) as Hs. rewrite Forall_forall in Hs.
  destruct (k_sig_setisempty the_set) eqn:Hempty.
  { left. split; [|done]. apply Forall_forall. intros e He. apply not_true_is_false. intros Hwe.
    rewrite setisempty_spec in Hempty by apply the_set_words. pose proof (Hs e He). pose proof size_fits.
    specialize (Hempty (signo e) ltac:(lia)).
    assert (mem the_set (signo e) = true) by (apply the_set_mem; [lia|by exists e]). congruence. }
  assert (Hr : 1 <= RTMIN) by (unfold K_SIG_RTMIN; lia).
  assert (Hfs := set_min_spec the_set the_set_words). cbn zeta in Hfs.
  remember (z_sig_set_min the_set true) as fs eqn:Hfse. clear Hfse.
  assert (Hhit : forall e, e ∈ queue st -> hits tid fs the_set e = want e && (if 0 <? fs then signo e =? fs else true)).
  { intros e He. unfold hits. unfold want. rewrite wanted_in_set by done. destruct (el_tid e =? tid); [|done]. cbn [andb].
    destruct Hfs as [[Hz _]|(Hge & Hm' & _)].
    - rewrite Hz. cbn. rewrite andb_true_r. apply ismember_spec. by apply Hs.
    - rewrite (proj2 (Z.ltb_lt 0 fs)) by lia. destruct (Z.eqb_spec (signo e) fs) as [->|]; [by rewrite Hm'|by rewrite andb_false_r]. }
  assert (Hex : exists e, e ∈ queue st /\ hits tid fs the_set e = true).
  { assert (Hmem : exists t, 1 <= t /\ mem the_set t = true /\ (0 < fs -> t = fs)).
    { destruct Hfs as [[Hz _]|(Hge & Hm' & _)].
      - assert (~ forall t, 1 <= t <= NLONGS * w -> mem the_set t = false) as Hn
          by (rewrite <- setisempty_spec by apply the_set_words; by rewrite Hempty).
        destruct (decide (Exists (fun t => mem the_set t = true) (seqZ 1 (NLONGS * w)))) as [Hx|Hx].
        + apply Exists_exists in Hx as (t & Hin & Ht). apply elem_of_seqZ in Hin. exists t. split_and!; [lia|done|lia].
        + exfalso. apply Hn. intros t Ht. apply not_true_is_false. intros Ht'. apply Hx, Exists_exists. exists t.
          split; [apply elem_of_seqZ; lia|done].
      - exists fs. split_and!; [lia|done|done]. }
    destruct Hmem as (t & Ht & Hmt & Hteq). apply the_set_mem in Hmt as (e & He & Hwe & Heq); [|done].
    exists e. split; [done|]. rewrite Hhit by done. unfold want. rewrite Hwe. cbn [andb].
    destruct (Z.ltb_spec 0 fs); [|done]. apply Z.eqb_eq. lia. }
  right. destruct (match_loop_all st tid fs the_set Hlen) as [[Hno _]|(f1 & p & f2 & Hf & Hp & Hno & Hml)].
  { rewrite Forall_forall in Hno. destruct Hex as (e & He & Hh). rewrite Hno in Hh by done. done. }
  exists f1, p, f2. split_and!; [done| |exact Hml].
  assert (Hqs : queue st = (entry_at st <$> f1) ++ entry_at st p :: (entry_at st <$> f2))
    by (unfold queue; by rewrite Hf, fmap_app).
  rewrite Hhit in Hp by (rewrite Hqs; set_solver). apply andb_true_iff in Hp as [Hwp Hfp].
  rewrite Forall_forall in Hno.
  assert (Hin : forall e', e' ∈ (entry_at st <$> f1) ++ (entry_at st <$> f2) -> e' ∈ queue st) by (rewrite Hqs; set_solver).
  split_and!; [done| |].
  - intros e' He' Hwe' Hrt. pose proof (Hin e' He') as Hq'.
    assert (Hm' : mem the_set (signo e') = true) by (apply the_set_mem; [lia|by exists e']).
    destruct Hfs as [[_ Hn]|(Hge & _ & Hmin)].
    + rewrite Hn in Hm' by done. done.
    + rewrite (proj2 (Z.ltb_lt 0 fs)) in Hfp by lia. apply Z.eqb_eq in Hfp. rewrite Hfp. split; [done|].
      destruct (Z.le_gt_cases fs (signo e')) as [|Hlt]; [done|]. rewrite Hmin in Hm' by lia. done.
  - intros e' He' Hwe' Hor. assert (Hh' := Hno e' He'). rewrite Hhit in Hh' by (apply Hin; set_solver).
    rewrite Hwe' in Hh'. cbn [andb] in Hh'. destruct (Z.ltb_spec 0 fs) as [Hpos|]; [|done].
    apply Z.eqb_neq in Hh'. apply Z.eqb_eq in Hfp.
    destruct Hfs as [[Hz _]|(Hge & _)]; lia.
Qed.
End match_.

(** ** Steps of the system *)

Definition to_thread (tid : Z) (q : list element) : list element := filter (fun e => el_tid e = tid) q.

Record ctx_ok (st : ksig) (tid : Z) (c : sig_ctx) : Prop := {
  co_mask : kset (cx_mask c);
  co_restore : kset (cx_restore c);
  co_pending : cx_pending c = Z.of_nat (length (to_thread tid (queue st)));
}.

Record ksig_ok (st : ksig) : Prop := {
  ko_queue : queue_ok st;
  ko_ctxs : forall tid c, ctxs st !! tid = Some c -> ctx_ok st tid c;
  ko_actions : Forall (fun e => kset (kact_mask (el_action e))) (signal_actions st);
}.

Inductive event := Queued (tid signo value : Z) | Taken (tid signo value : Z).

Definition taken_event (cur : Z) (e : option element) : list event :=
  match e with Some e => [Taken cur (signo e) (ki_value (el_info e))] | None => [] end.

(** One attempt of k_sig_timedwait to take a signal, before it sleeps or after
    it was woken. *)
Definition wait_attempt (st : ksig) (cur : Z) (set : list Z) : ksig * option element :=
  match z_sig_match st set cur true with
  | (st, None) => (st, None)
  | (st, Some pos) => let '(st, entry) := take_entry st cur pos in (st, Some entry)
  end.

Definition kill_ctx (c : sig_ctx) : sig_ctx :=
  mk_ctx (cx_mask c) (cx_restore c) (cx_info c) (cx_action c) (cx_pending c) (cx_delivered c) false.

(** The calls of threads that run (interrupts queue with [cur] 0), and the
    beginning and the end of threads.  A wait is the sequence of its attempts;
    while it sleeps the others step ([timedwait_runs]). *)
Inductive ksig_step : ksig -> list event -> ksig -> Prop :=
  | step_queue st cur pid s v st' r :
      cur = 0 \/ live st cur = true -> k_sig_queue st cur pid s v = (st', r) ->
      ksig_step st (match r with Ok _ => if s =? 0 then [] else [Queued pid s v] | Err _ => [] end) st'
  | step_handle st cur : live st cur = true ->
      ksig_step st (taken_event cur (snd (sig_next st cur))) (fst (z_sig_handle st cur))
  | step_wait st cur set : live st cur = true -> kset set ->
      ksig_step st (taken_event cur (snd (wait_attempt st cur set))) (fst (wait_attempt st cur set))
  | step_pending st cur : live st cur = true -> ksig_step st [] (fst (k_sig_pending st cur))
  | step_mask st cur how set : live st cur = true -> kset set ->
      ksig_step st [] (fst (k_sig_mask st cur how (Some set)))
  | step_action st cur s act : live st cur = true -> cur <> 0 -> 1 <= s <= SIGNAL_SET_SIZE -> match act with Some a => kset (kact_mask a) | None => True end ->
      ksig_step st [] (fst (k_sig_action st cur s act))
  | step_return st cur : live st cur = true -> ksig_step st [] (k_sig_return st cur)
  | step_create st tid : live st tid = false -> tid <> 0 -> ksig_step st [] (z_setup_new_thread st tid)
  | step_exit st tid c : ctxs st !! tid = Some c -> ksig_step st [] (set_ctx tid (kill_ctx c) st).

Inductive ksig_run (st : ksig) : list event -> ksig -> Prop :=
  | run_nil : ksig_run st [] st
  | run_snoc h st1 ev st2 : ksig_run st h st1 -> ksig_step st1 ev st2 -> ksig_run st (h ++ ev) st2.

(** The values of a signal that were queued for a thread, that it has taken,
    and that wait for it. *)
Definition queued (tid s : Z) (h : list event) : list Z :=
  omap (fun e => match e with Queued t s' v => if (t =? tid) && (s' =? s) then Some v else None | _ => None end) h.
Definition taken (tid s : Z) (h : list event) : list Z :=
  omap (fun e => match e with Taken t s' v => if (t =? tid) && (s' =? s) then Some v else None | _ => None end) h.
Definition value_for (tid s : Z) (e : element) : option Z :=
  if (el_tid e =? tid) && (signo e =? s) then Some (ki_value (el_info e)) else None.
Definition waiting (tid s : Z) (st : ksig) : list Z := omap (value_for tid s) (queue st).

(** What a step does to the books. *)
Definition balanced (ev : list event) (st st' : ksig) : Prop :=
  forall tid s, waiting tid s st ++ queued tid s ev = taken tid s ev ++ waiting tid s st'.

Lemma queue_ok_frame st st' :
  fifo st' = fifo st -> array st' = array st -> free_list st' = free_list st -> num_used st' = num_used st ->
  queue_ok st -> queue_ok st' /\ queue st' = queue st.
Proof.
  intros Hf Ha Hfr Hn [? ? ? ? ? ?].
  assert (Hq : queue st' = queue st) by (unfold queue, entry_at; by rewrite Hf, Ha).
  split; [|done]. split; rewrite ?Hf, ?Ha, ?Hfr, ?Hn, ?Hq; done.
Qed.

(** Steps that change contexts alone, keeping the counts. *)
Lemma ctx_step_ok st tid c c' :
  ksig_ok st -> ctxs st !! tid = Some c -> kset (cx_mask c') -> kset (cx_restore c') -> cx_pending c' = cx_pending c ->
  ksig_ok (set_ctx tid c' st) /\ balanced [] st (set_ctx tid c' st).
Proof.
  intros [Hq Hc Ha] Hl H1 H2 H3.
  destruct (queue_ok_frame st (set_ctx tid c' st)) as [Hq' Hqe]; [done..|].
  split; [split; [done| |done]|].
  - intros t d. cbn. rewrite lookup_insert_Some. intros [[<- <-]|[_ Hd]].
    + split; [done..|]. rewrite Hqe, H3. by apply Hc.
    + destruct (Hc t d Hd). split; rewrite ?Hqe; done.
  - intros t s. unfold waiting. rewrite Hqe. cbn. by rewrite app_nil_r.
Qed.

Lemma actions_step_ok st l : ksig_ok st -> Forall (fun e => kset (kact_mask (el_action e))) l ->
  ksig_ok (set_actions l st) /\ balanced [] st (set_actions l st).
Proof.
  intros [Hq Hc Ha] Hl. destruct (queue_ok_frame st (set_actions l st)) as [Hq' Hqe]; [done..|].
  split; [split; [done| |done]|].
  - intros t d Hd. destruct (Hc t d Hd). split; rewrite ?Hqe; done.
  - intros t s. unfold waiting. rewrite Hqe. cbn. by rewrite app_nil_r.
Qed.

Lemma entry_at_eq st st' p : array st' = array st -> entry_at st' p = entry_at st p.
Proof. unfold entry_at. by intros ->. Qed.

Definition less_pending (c : sig_ctx) : sig_ctx :=
  mk_ctx (cx_mask c) (cx_restore c) (cx_info c) (cx_action c) (cx_pending c - 1) (cx_delivered c) (cx_live c).

Lemma take_entry_eq st tid pos c q : ctxs st !! tid = Some c ->
  take_entry (set_fifo q st) tid pos =
    (mk_ksig q (array st) (pos :: free_list st) (num_used st - 1) (signal_actions st) (<[tid := less_pending c]> (ctxs st)),
     entry_at st pos).
Proof. intros Hc. unfold take_entry. cbn. by rewrite Hc. Qed.

(** A position that is taken out of the ring buffer becomes free. *)
Lemma take_queue_ok st f1 pos f2 acts cs :
  queue_ok st -> fifo st = f1 ++ pos :: f2 ->
  let st' := mk_ksig (f1 ++ f2) (array st) (pos :: free_list st) (num_used st - 1) acts cs in
  queue_ok st' /\ queue st' = (entry_at st <$> f1) ++ (entry_at st <$> f2).
Proof.
  intros [Hnd Hb Hs Ha Hu Hsig] Hf st'.
  assert (Hq : queue st' = (entry_at st <$> f1) ++ (entry_at st <$> f2)) by (unfold queue; cbn; by rewrite fmap_app).
  split; [|done].
  assert (Hp : fifo st' ++ free_list st' ≡ₚ fifo st ++ free_list st).
  { cbn. rewrite Hf, <- !app_assoc. cbn. apply Permutation_app_head. symmetry. apply Permutation_middle. }
  split; [by rewrite Hp|by rewrite Hp| |done| |].
  - rewrite Hf, length_app in Hs. cbn in *. rewrite length_app. lia.
  - cbn. rewrite Hu, Hf, !length_app. cbn. lia.
  - rewrite Hq. unfold queue in Hsig. rewrite Hf, fmap_app, Forall_app in Hsig. cbn in Hsig.
    rewrite Forall_cons in Hsig. rewrite Forall_app. tauto.
Qed.

Lemma to_thread_app tid a b : to_thread tid (a ++ b) = to_thread tid a ++ to_thread tid b.
Proof. apply filter_app. Qed.

Lemma take_ok st f1 pos f2 tid c :
  ksig_ok st -> fifo st = f1 ++ pos :: f2 -> ctxs st !! tid = Some c ->
  let e := entry_at st pos in
  el_tid e = tid -> (forall e', e' ∈ entry_at st <$> f1 -> el_tid e' = tid -> signo e' <> signo e) ->
  let st' := mk_ksig (f1 ++ f2) (array st) (pos :: free_list st) (num_used st - 1) (signal_actions st)
               (<[tid := less_pending c]> (ctxs st)) in
  ksig_ok st' /\ balanced (taken_event tid (Some e)) st st'.
Proof.
  intros [Hq Hc Ha] Hf Hl e Ht Hfirst st'.
  destruct (take_queue_ok st f1 pos f2 (signal_actions st) (<[tid := less_pending c]> (ctxs st)) Hq Hf) as [Hq' Hqe].
  fold st' in Hq', Hqe.
  assert (Hqs : queue st = (entry_at st <$> f1) ++ e :: (entry_at st <$> f2)) by (unfold queue; by rewrite Hf, fmap_app).
  split; [split; [done| |done]|].
  - intros t d Hd. cbn in Hd. rewrite lookup_insert_Some in Hd. destruct Hd as [[<- <-]|[Hne Hd]].
    + destruct (Hc _ _ Hl) as [H1 H2 H3]. split; [done..|]. change (cx_pending (less_pending c)) with (cx_pending c - 1).
      rewrite H3, Hqe, Hqs, !to_thread_app. unfold to_thread at 2 4.
      rewrite filter_cons_True by done. rewrite !length_app. cbn. unfold to_thread. lia.
    + destruct (Hc _ _ Hd) as [H1 H2 H3]. split; [done..|]. rewrite H3, Hqe, Hqs, !to_thread_app. unfold to_thread at 2 4.
      rewrite filter_cons_False by congruence. done.
  - intros t s. unfold waiting. rewrite Hqe, Hqs, !omap_app. cbn [omap list_omap]. fold (value_for t s).
    unfold taken_event, taken, queued. cbn [omap list_omap]. rewrite app_nil_r. unfold value_for at 2. fold e.
    rewrite Ht. destruct (Z.eqb_spec tid t) as [->|]; cbn [andb]; [|done]. destruct (Z.eqb_spec (signo e) s) as [<-|]; [|done].
    assert (omap (value_for t (signo e)) (entry_at st <$> f1) = []) as ->; [|done].
    clear -Hfirst. induction f1 as [|p f1 IH]; [done|]. cbn. unfold value_for at 1.
    destruct (Z.eqb_spec (el_tid (entry_at st p)) t) as [Ht|]; cbn [andb].
    + rewrite (proj2 (Z.eqb_neq _ _)) by (apply Hfirst; [set_solver|done]). apply IH. intros e' He'. apply Hfirst. set_solver.
    + apply IH. intros e' He'. apply Hfirst. set_solver.
Qed.

(** The two ways to take a signal. *)
Lemma match_take_ok st m tid ign c : ksig_ok st -> ctxs st !! tid = Some c -> live st tid = true -> kset m ->
  (z_sig_match st m tid ign = (st, None) /\ Forall (fun e => wanted st m tid ign e = false) (queue st)) \/
  (exists st1 pos q1 e q2, z_sig_match st m tid ign = (st1, Some pos) /\
     queue st = q1 ++ e :: q2 /\ is_next (wanted st m tid ign) q1 e q2 /\ el_tid e = tid /\
     let st' := fst (take_entry st1 tid pos) in
     take_entry st1 tid pos = (st', e) /\ ksig_ok st' /\ queue st' = q1 ++ q2 /\
     balanced (taken_event tid (Some e)) st st' /\
     ctxs st' = <[tid := less_pending c]> (ctxs st) /\ signal_actions st' = signal_actions st).
Proof.
  intros Hok Hc Hl Hm. pose proof (ko_ctxs _ Hok _ _ Hc) as Hctx.
  assert (Hmask : kset (mask_of st tid)) by (unfold mask_of; rewrite Hc; apply Hctx).
  destruct (sig_match_spec st m tid ign (ko_queue _ Hok) Hl Hm Hmask) as [[Hno Hz]|(f1 & pos & f2 & Hf & Hnext & Hz)];
    [by left|right].
  exists (set_fifo (f1 ++ f2) st), pos, (entry_at st <$> f1), (entry_at st pos), (entry_at st <$> f2).
  rewrite (take_entry_eq st tid pos c _ Hc). cbn [fst].
  destruct Hnext as (Hwe & Hleast & Hold). pose proof Hwe as Hte. unfold wanted in Hte.
  apply andb_true_iff in Hte as [Hte Hma]. apply andb_true_iff in Hte as [Hte Hmm]. apply Z.eqb_eq in Hte.
  destruct (take_ok st f1 pos f2 tid c) as [Hok' Hbal]; [done..| |].
  { intros e' He' Ht' Heq. eapply Hold; [done| |by left]. unfold wanted. by rewrite Ht', Z.eqb_refl, Heq, Hmm, Hma. }
  destruct (take_queue_ok st f1 pos f2 (signal_actions st) (<[tid := less_pending c]> (ctxs st)) (ko_queue _ Hok) Hf) as [_ Hqe].
  split_and!; try done. unfold queue. by rewrite Hf, fmap_app.
Qed.

Lemma queue_call_ok st cur pid s v st' r :
  ksig_ok st -> cur = 0 \/ live st cur = true -> k_sig_queue st cur pid s v = (st', r) ->
  ksig_ok st' /\ balanced (match r with Ok _ => if s =? 0 then [] else [Queued pid s v] | Err _ => [] end) st st' /\
  (r = Err EAGAIN -> length (queue st) = QUEUE_SIZE).
Proof.
  intros Hok Hcur. unfold k_sig_queue.
  assert (Hb0 : balanced [] st st) by (intros ? ?; by rewrite app_nil_r).
  destruct (Z.ltb_spec s 0), (Z.ltb_spec SIGNAL_SET_SIZE s); cbn [orb]; try (by intros [= <- <-]).
  destruct (z_sig_pid_is_valid st cur pid) eqn:Hv; cbn [negb]; [|by intros [= <- <-]].
  destruct (Z.eqb_spec s 0) as [->|Hs]; [by intros [= <- <-]|].
  assert (exists c, ctxs st !! pid = Some c) as [c Hc].
  { unfold z_sig_pid_is_valid in Hv. destruct (Z.eqb_spec pid 0); [done|]. unfold live in *.
    destruct (Z.eqb_spec cur pid) as [->|]; [destruct Hcur as [|Hcur]; [done|]|];
      destruct (ctxs st !! pid) as [c|]; (by exists c) || done. }
  destruct Hok as [Hq Hctx Ha]. pose proof Hq as [Hnd Hb Hsz Har Hu Hsig].
  destruct (free_list st) as [|pos free] eqn:Hfree.
  { intros [= <- <-]. split_and!; [done..|]. intros _. unfold queue. rewrite length_fmap. cbn in Hsz. lia. }
  rewrite Hc. intros [= <- <-]. cbn in Hsz. rewrite put_room by lia.
  set (e := mk_element pid (mk_kinfo s K_SI_QUEUE v) no_action).
  set (c' := mk_ctx _ _ _ _ _ _ _). set (st' := mk_ksig _ _ _ _ _ _).
  assert (Hin : (pos < QUEUE_SIZE)%nat) by (rewrite Forall_app, Forall_cons in Hb; tauto).
  assert (Hnf : pos ∉ fifo st).
  { intros Hx. apply NoDup_app in Hnd as (_ & Hd & _). apply (Hd pos Hx). left. }
  assert (Hqe : queue st' = queue st ++ [e]).
  { unfold queue, entry_at. cbn. rewrite fmap_app. cbn. f_equal.
    - apply list_fmap_ext. intros i p Hp. rewrite !nth_lookup, list_lookup_insert_ne; [done|].
      intros ->. by eapply Hnf, list_elem_of_lookup_2.
    - rewrite nth_lookup, list_lookup_insert_eq; [done|lia]. }
  split_and!; [split; [split|..]|..].
  - cbn. rewrite <- app_assoc. done.
  - cbn. rewrite <- app_assoc. done.
  - cbn. rewrite length_app. cbn. lia.
  - cbn. by rewrite length_insert.
  - cbn. rewrite length_app, Hu. cbn. lia.
  - rewrite Hqe, Forall_app. split; [done|]. repeat constructor; cbn; lia.
  - intros t d Hd. cbn in Hd. rewrite lookup_insert_Some in Hd.
    destruct Hd as [[<- <-]|[Hne Hd]]; [destruct (Hctx _ _ Hc) as [H1 H2 H3]|destruct (Hctx _ _ Hd) as [H1 H2 H3]];
      split; try done; rewrite Hqe, to_thread_app; unfold to_thread at 2.
    + rewrite filter_cons_True by done. rewrite length_app. subst c'. cbn [cx_pending]. rewrite H3. cbn. lia.
    + rewrite filter_cons_False by (cbn; congruence). by rewrite app_nil_r.
  - done.
  - intros t s'. unfold waiting, queued, taken. rewrite Hqe, omap_app. cbn. reflexivity.
  - done.
Qed.

Lemma action_loop_masks st cur s tid l : forall i, Forall (fun e => kset (kact_mask (el_action e))) l ->
  Forall (fun e => kset (kact_mask (el_action e))) (fst (action_loop st cur s tid i l)).
Proof.
  induction l as [|e l IH]; intros i Hl; cbn [action_loop]; [done|]. apply Forall_cons in Hl as [He Hl].
  specialize (IH (S i) Hl). destruct (action_loop st cur s tid (S i) l) as [l' r].
  destruct (z_sig_pid_is_valid st cur (el_tid e)); cbn [negb].
  - destruct ((signo e =? s) && (el_tid e =? tid)); by constructor.
  - constructor; [apply emptyset_words|done].
Qed.

Lemma unmaskable_words m : kset m -> kset (unmaskable_cleared m).
Proof.
  intros Hm. unfold unmaskable_cleared, set_word. destruct Hm as [Hl Ha]. split; [by rewrite length_insert|].
  apply Forall_insert; [done|].
  pose proof (get_word_range w Hw NLONGS m 0 (conj Hl Ha)) as Hr.
  apply (bitop_range Z.ldiff (fun p q => p && negb q)); try done; [intros; apply Z.ldiff_spec|apply Z.ldiff_nonneg; lia|].
  unfold UNMASKABLE_MASK. destruct Hw; subst; vm_compute; done.
Qed.

Lemma action_call_frame st cur s act tid :
  match act with Some a => kset (kact_mask a) | None => True end ->
  Forall (fun e => kset (kact_mask (el_action e))) (signal_actions st) ->
  exists l, fst (z_sig_action st cur s act tid) = set_actions l st /\
            Forall (fun e => kset (kact_mask (el_action e))) l.
Proof.
  intros Hact Hall. unfold z_sig_action.
  destruct (z_sig_is_valid s); cbn [negb]; [|exists (signal_actions st); by destruct st].
  pose proof (action_loop_masks st cur s tid (signal_actions st) 0 Hall) as Hl.
  destruct (action_loop st cur s tid 0 (signal_actions st)) as [l custom]. cbn [fst] in Hl.
  destruct act as [a|]; [|by exists l].
  destruct (length l =? 0)%nat; [by exists l|]. destruct (_ && _); [by exists l|].
  destruct (negb _); [by exists l|]. destruct (is_default a).
  - destruct custom as [i|]; [|by exists l]. exists (<[i := zero_element]> l). split; [done|].
    apply Forall_insert; [done|apply emptyset_words].
  - destruct (match custom with Some i => Some i | None => unused_loop 0 l end) as [i|]; [|by exists l].
    cbn [fst]. eexists. split; [reflexivity|]. apply Forall_insert; [done|]. by apply unmaskable_words.
Qed.

Lemma balanced_refl st : balanced [] st st.
Proof. intros t s. by rewrite app_nil_r. Qed.

Lemma balanced_trans ev st st1 st2 : balanced ev st st1 -> balanced [] st1 st2 -> balanced ev st st2.
Proof. intros H1 H2 t s. rewrite H1. f_equal. specialize (H2 t s). cbn in H2. by rewrite app_nil_r in H2. Qed.

Lemma live_ctx st tid : live st tid = true -> exists c, ctxs st !! tid = Some c /\ cx_live c = true.
Proof. unfold live. destruct (ctxs st !! tid) as [c|]; [by exists c|done]. Qed.

(** What taking the next signal does. *)
Lemma sig_next_spec st cur c : ksig_ok st -> ctxs st !! cur = Some c -> live st cur = true ->
  let want := wanted st k_sig_fillset cur false in
  (sig_next st cur = (st, None) /\ Forall (fun e => want e = false) (queue st)) \/
  (exists st' e q1 q2, sig_next st cur = (st', Some e) /\ queue st = q1 ++ e :: q2 /\ is_next want q1 e q2 /\
     el_tid e = cur /\ ksig_ok st' /\ queue st' = q1 ++ q2 /\ balanced (taken_event cur (Some e)) st st' /\
     ctxs st' = <[cur := less_pending c]> (ctxs st) /\ signal_actions st' = signal_actions st).
Proof.
  intros Hok Hc Hl want. unfold sig_next. rewrite Hc.
  destruct (Z.eqb_spec (cx_pending c) 0) as [Hz|Hnz].
  - left. split; [done|]. rewrite (co_pending _ _ _ (ko_ctxs _ Hok _ _ Hc)) in Hz.
    assert (Hnil : to_thread cur (queue st) = []) by (apply nil_length_inv; lia).
    apply Forall_forall. intros e He. unfold want, wanted. destruct (Z.eqb_spec (el_tid e) cur) as [Ht|]; [|done].
    exfalso. assert (Hx : e ∈ to_thread cur (queue st)) by (by apply list_elem_of_filter).
    rewrite Hnil in Hx. by apply elem_of_nil in Hx.
  - destruct (match_take_ok st k_sig_fillset cur false c Hok Hc Hl fillset_words)
      as [[-> Hno]|(st1 & pos & q1 & e & q2 & -> & Hq & Hn & Ht & Htk & Hok' & Hq' & Hb & Hcs & Has)]; [by left|right].
    rewrite Htk. exists (fst (take_entry st1 cur pos)), e, q1, q2. done.
Qed.

Lemma handle_ok st cur : ksig_ok st -> live st cur = true ->
  ksig_ok (fst (z_sig_handle st cur)) /\
  balanced (taken_event cur (snd (sig_next st cur))) st (fst (z_sig_handle st cur)).
Proof.
  intros Hok Hl. destruct (live_ctx _ _ Hl) as (c & Hc & _). unfold z_sig_handle.
  destruct (sig_next_spec st cur c Hok Hc Hl)
    as [[-> _]|(st1 & e & q1 & q2 & -> & _ & _ & _ & Hok1 & _ & Hb & Hcs & _)]; [split; [done|apply balanced_refl]|].
  cbn [snd]. pose proof (action_call_frame st1 cur (signo e) None (el_tid e) I (ko_actions _ Hok1)) as (l & Hfr & Hl').
  destruct (z_sig_action st1 cur (signo e) None (el_tid e)) as [st2 r] eqn:Hza. cbn [fst] in Hfr. subst st2.
  destruct (actions_step_ok st1 l Hok1 Hl') as [Hok2 Hb2].
  pose proof (balanced_trans _ _ _ _ Hb Hb2) as Hb3.
  destruct r as [a|]; [|done]. destruct (is_ignore (kact_handler a)); [done|].
  change (ctxs (set_actions l st1)) with (ctxs st1). rewrite Hcs, lookup_insert_eq. cbn [fst].
  pose proof (ko_ctxs _ Hok2 cur (less_pending c) ltac:(cbn; by rewrite Hcs, lookup_insert_eq)) as [Hm Hr Hp].
  assert (Ham : kset (kact_mask a)).
  { revert Hza Hl'. unfold z_sig_action. destruct (z_sig_is_valid (signo e)); cbn [negb]; [|done].
    pose proof (action_loop_masks st1 cur (signo e) (el_tid e) (signal_actions st1) 0 (ko_actions _ Hok1)) as Hlm.
    destruct (action_loop _ _ _ _ _ _) as [l1 [i|]]; cbn [fst] in Hlm; intros [= _ <-] _; [|apply emptyset_words].
    rewrite nth_lookup. destruct (l1 !! i) as [x|] eqn:Hx; cbn; [|apply emptyset_words].
    by apply (Forall_lookup_1 _ _ _ _ Hlm Hx). }
  eapply ctx_step_ok in Hok2 as [Hok3 Hb4]; [split; [exact Hok3|by eapply balanced_trans]|..].
  - cbn. rewrite Hcs. apply lookup_insert_eq.
  - cbn. apply orset_words; [|done]. destruct (flag_set _ _); [done|by apply addset_words].
  - done.
  - done.
Qed.

Lemma wait_ok st cur set : ksig_ok st -> live st cur = true -> kset set ->
  ksig_ok (fst (wait_attempt st cur set)) /\
  balanced (taken_event cur (snd (wait_attempt st cur set))) st (fst (wait_attempt st cur set)) /\
  signal_actions (fst (wait_attempt st cur set)) = signal_actions st.
Proof.
  intros Hok Hl Hs. destruct (live_ctx _ _ Hl) as (c & Hc & _). unfold wait_attempt.
  destruct (match_take_ok st set cur true c Hok Hc Hl Hs)
    as [[-> _]|(st1 & pos & q1 & e & q2 & -> & _ & _ & _ & Htk & Hok' & _ & Hb & _ & Has)].
  - split; [done|]. split; [apply balanced_refl|done].
  - by rewrite Htk.
Qed.

Lemma ksig_step_ok st ev st' : ksig_step st ev st' -> ksig_ok st -> ksig_ok st' /\ balanced ev st st'.
Proof.
  intros Hstep Hok. destruct Hstep as [st cur pid s v st' r Hcur Hq|st cur Hl|st cur set Hl Hs|st cur Hl
    |st cur how set Hl Hs|st cur s act Hl _ _ Ha|st cur Hl|st tid Hl Hne|st tid c Hc].
  - destruct (queue_call_ok st cur pid s v st' r Hok Hcur Hq) as (? & ? & _). done.
  - by apply handle_ok.
  - by destruct (wait_ok st cur set Hok Hl Hs) as (? & ? & _).
  - unfold k_sig_pending. rewrite pending_unchanged; [split; [done|apply balanced_refl]|done|].
    pose proof (qo_size _ (ko_queue _ Hok)). lia.
  - destruct (live_ctx _ _ Hl) as (c & Hc & _). unfold k_sig_mask. rewrite Hc. cbn [fst].
    pose proof (ko_ctxs _ Hok _ _ Hc) as [Hm Hr Hp]. eapply ctx_step_ok; [done..| |done|done]. cbn.
    destruct how; [by apply orset_words|by apply ldiff_words|done].
  - destruct (action_call_frame st cur s act cur Ha (ko_actions _ Hok)) as (l & Hfr & Hl').
    unfold k_sig_action. rewrite Hfr. by apply actions_step_ok.
  - destruct (live_ctx _ _ Hl) as (c & Hc & _). unfold k_sig_return. rewrite Hc.
    pose proof (ko_ctxs _ Hok _ _ Hc) as [Hm Hr Hp]. eapply ctx_step_ok; done.
  - unfold z_setup_new_thread. destruct (ctxs st !! tid) as [c|] eqn:Hc; [|split; [done|apply balanced_refl]].
    pose proof (ko_ctxs _ Hok _ _ Hc) as [Hm Hr Hp]. eapply ctx_step_ok; try done. apply fillset_words.
  - pose proof (ko_ctxs _ Hok _ _ Hc) as [Hm Hr Hp]. by eapply ctx_step_ok.
Qed.

(** *** Waits as attempts *)

Lemma pending_loop_ctxs n tid : forall set st, ctxs (fst (pending_loop n tid set st)) = ctxs st.
Proof.
  induction n as [|n IH]; intros set st; cbn [pending_loop]; [done|]. destruct (fifo st) as [|pos rest]; [done|].
  rewrite IH. by destruct (live _ tid).
Qed.

Lemma match_loop_ctxs n tid fs set : forall found st, ctxs (fst (match_loop n tid fs set found st)) = ctxs st.
Proof.
  induction n as [|n IH]; intros found st; cbn [match_loop]; [done|]. destruct (fifo st) as [|p rest]; [done|].
  destruct (match found with Some _ => false | None => _ end); by rewrite IH.
Qed.

Lemma match_ctxs st m tid ign : ctxs (fst (z_sig_match st m tid ign)) = ctxs st.
Proof.
  unfold z_sig_match, z_sig_pending_unlocked. pose proof (pending_loop_ctxs (length (fifo st)) tid k_sig_emptyset st) as Hp.
  destruct (pending_loop _ _ _ _) as [st1 pend]. cbn [fst] in Hp. destruct (k_sig_setisempty _); [done|].
  by rewrite match_loop_ctxs.
Qed.

(** While a thread sleeps the others step, and it still runs when it wakes. *)
Definition sleeps (cur : Z) (poll : poll_round) : Prop :=
  forall st, live st cur = true ->
  exists h, ksig_run st h (fst (fst (poll st))) /\ live (fst (fst (poll st))) cur = true.

Lemma ksig_run_app st h1 st1 h2 st2 : ksig_run st h1 st1 -> ksig_run st1 h2 st2 -> ksig_run st (h1 ++ h2) st2.
Proof.
  intros H1 H2. induction H2 as [|h st2 ev st3 H2 IH Hs]; [by rewrite app_nil_r|].
  rewrite app_assoc. by eapply run_snoc.
Qed.

Lemma attempt_run st cur set : live st cur = true -> kset set ->
  ksig_run st (taken_event cur (snd (wait_attempt st cur set))) (fst (wait_attempt st cur set)).
Proof. intros Hl Hs. eapply (run_snoc st []); [apply run_nil|by apply step_wait]. Qed.

(** What a wait that took a signal says of it. *)
Definition took (cur : Z) (h : list event) (r : option (res k_sig_info)) : Prop :=
  match r with Some (Ok i) => exists h0, h = h0 ++ [Taken cur (ki_signo i) (ki_value i)] | _ => True end.

Lemma attempt_result st cur set st1 pos : z_sig_match st set cur true = (st1, Some pos) ->
  let '(st2, e) := take_entry st1 cur pos in wait_attempt st cur set = (st2, Some e).
Proof. intros Hm. unfold wait_attempt. rewrite Hm. by destruct (take_entry st1 cur pos). Qed.

Lemma attempt_none st cur set st1 : z_sig_match st set cur true = (st1, None) ->
  wait_attempt st cur set = (st1, None) /\ live st1 cur = live st cur.
Proof.
  intros Hm. unfold wait_attempt. rewrite Hm. split; [done|].
  pose proof (match_ctxs st set cur true) as Hc. rewrite Hm in Hc. unfold live. cbn in Hc. by rewrite Hc.
Qed.

(** A call of k_sig_timedwait, whatever runs while it sleeps, is a run in which
    the waiting thread makes attempts. *)
Lemma timedwait_runs cur set rounds : kset set -> Forall (sleeps cur) rounds ->
  forall st st' r, live st cur = true -> k_sig_timedwait rounds st cur set = Some (st', r) ->
  exists h, ksig_run st h st' /\ took cur h r.
Proof.
  intros Hs Hr. assert (Hfound : forall st st1 pos st' r, live st cur = true -> z_sig_match st set cur true = (st1, Some pos) ->
    (let '(st, entry) := take_entry st1 cur pos in
     Some (st, Some (Ok (mk_kinfo (ki_signo (el_info entry)) 0 (ki_value (el_info entry)))))) = Some (st', r) ->
    exists h, ksig_run st h st' /\ took cur h r).
  { intros st st1 pos st' r Hl Hm He. pose proof (attempt_result st cur set st1 pos Hm) as Ha.
    pose proof (attempt_run st cur set Hl Hs) as Hrun. destruct (take_entry st1 cur pos) as [st2 e]. rewrite Ha in Hrun.
    injection He as <- <-. eexists. split; [exact Hrun|]. by exists []. }
  assert (Hnone : forall st st1, live st cur = true -> z_sig_match st set cur true = (st1, None) -> ksig_run st [] st1).
  { intros st st1 Hl Hm. pose proof (attempt_run st cur set Hl Hs) as Hrun.
    by rewrite (proj1 (attempt_none _ _ _ _ Hm)) in Hrun. }
  unfold k_sig_timedwait. induction Hr as [|poll rounds Hp _ IH]; intros st st' r Hl; cbn [timedwait_loop];
    destruct (z_sig_match st set cur true) as [st1 [pos|]] eqn:Hm; eauto; [done|].
  pose proof (proj2 (attempt_none _ _ _ _ Hm)) as Hl1. rewrite Hl in Hl1. destruct (Hp st1 Hl1) as (h & Hrun & Hl2).
  destruct (poll st1) as [[st2 q] expired]. cbn [fst] in Hrun, Hl2.
  pose proof (ksig_run_app _ _ _ _ _ (Hnone _ _ Hl Hm) Hrun) as Hrun2. cbn [app] in Hrun2.
  assert (Hcont : forall st' r, (exists h', ksig_run st2 h' st' /\ took cur h' r) -> exists h', ksig_run st h' st' /\ took cur h' r).
  { intros st3 r3 (h' & Hr3 & Ht). exists (h ++ h'). split; [by eapply ksig_run_app|]. destruct r3 as [[i|]|]; [|done|done].
    destruct Ht as [h0 ->]. exists (h ++ h0). by rewrite app_assoc. }
  destruct q as [[signalled result]|]; [|intros [= <- <-]; by exists h].
  destruct (signalled && (result =? swrap 32 cur)).
  - destruct (z_sig_match st2 set cur true) as [st3 [pos|]] eqn:Hm2; [eauto|]. intros [= <- <-]. apply Hcont.
    exists []. split; [by apply Hnone|done].
  - destruct expired; [intros [= <- <-]; by exists h|eauto].
Qed.

(** The kernel at boot: all blocks are free, and no thread has signals. *)
Definition ksig_init (blocks acts : nat) (cs : gmap Z sig_ctx) : ksig :=
  mk_ksig [] (replicate blocks zero_element) (seq 0 blocks) 0 (replicate acts zero_element) cs.

Definition boot_ctx (c : sig_ctx) : Prop := kset (cx_mask c) /\ kset (cx_restore c) /\ cx_pending c = 0.

Lemma ksig_init_ok acts cs : (forall tid c, cs !! tid = Some c -> boot_ctx c) -> ksig_ok (ksig_init QUEUE_SIZE acts cs).
Proof.
  intros Hcs. split; [split| |]; cbn.
  - apply NoDup_seq.
  - apply Forall_forall. intros p Hp. apply elem_of_seq in Hp. lia.
  - apply length_seq.
  - apply length_replicate.
  - done.
  - constructor.
  - intros tid c Hc. destruct (Hcs tid c Hc) as (H1 & H2 & H3). split; done.
  - apply Forall_replicate, emptyset_words.
Qed.

Lemma ksig_run_ok st h st' : ksig_run st h st' -> ksig_ok st -> queue st = [] ->
  ksig_ok st' /\ forall tid s, queued tid s h = taken tid s h ++ waiting tid s st'.
Proof.
  intros Hrun Hok Hq0. induction Hrun as [|h st1 ev st2 Hrun IH Hstep].
  - split; [done|]. intros. unfold waiting. by rewrite Hq0.
  - destruct IH as [Hok1 Hb]. destruct (ksig_step_ok _ _ _ Hstep Hok1) as [Hok2 Hb2]. split; [done|].
    intros tid s. unfold queued, taken. rewrite !omap_app. fold (queued tid s h) (taken tid s h).
    rewrite Hb, <- !app_assoc. f_equal. apply Hb2.
Qed.

(** ** Handling a signal *)

Lemma action_query_ctxs st cur s tid : ctxs (fst (z_sig_action st cur s None tid)) = ctxs st /\
  queue (fst (z_sig_action st cur s None tid)) = queue st.
Proof.
  unfold z_sig_action. destruct (negb _); [done|]. by destruct (action_loop _ _ _ _ _ _).
Qed.

Lemma action_query_mask st cur s tid a : Forall (fun e => kset (kact_mask (el_action e))) (signal_actions st) ->
  snd (z_sig_action st cur s None tid) = Ok a -> kset (kact_mask a).
Proof.
  intros Hall. unfold z_sig_action. destruct (negb _); [done|].
  pose proof (action_loop_masks st cur s tid (signal_actions st) 0 Hall) as Hlm.
  destruct (action_loop _ _ _ _ _ _) as [l1 [i|]]; cbn [fst snd] in *; intros [= <-]; [|apply emptyset_words].
  rewrite nth_lookup. destruct (l1 !! i) as [x|] eqn:Hx; cbn; [|apply emptyset_words].
  by apply (Forall_lookup_1 _ _ _ _ Hlm Hx).
Qed.

Lemma handle_spec st cur c st' b : ksig_ok st -> ctxs st !! cur = Some c -> live st cur = true ->
  z_sig_handle st cur = (st', b) ->
  let want := wanted st k_sig_fillset cur false in
  (b = false /\ queue st' = queue st /\ Forall (fun e => want e = false) (queue st)) \/
  (exists q1 e q2 a, queue st = q1 ++ e :: q2 /\ is_next want q1 e q2 /\ queue st' = q1 ++ q2 /\
     snd (z_sig_action (fst (sig_next st cur)) cur (signo e) None cur) = Ok a /\
     if is_ignore (kact_handler a) then b = false
     else b = true /\ exists c', ctxs st' = <[cur := c']> (ctxs st) /\
       cx_info c' = el_info e /\ kact_flags (cx_action c') = kact_flags a /\ kact_user_data (cx_action c') = kact_user_data a /\
       kact_handler (cx_action c') = (match kact_handler a with K_SIG_DFL => z_sig_resolve (signo e) | h => h end) /\
       cx_delivered c' = cx_delivered c + 1 /\ cx_restore c' = cx_mask c /\
       cx_live c' = true /\ kset (kact_mask (cx_action c')) /\
       forall t, 1 <= t -> mem (cx_mask c') t =
         mem (cx_mask c) t || ((t =? signo e) && negb (flag_set (kact_flags a) K_SIG_SA_NODEFER)) || mem (kact_mask a) t).
Proof.
  intros Hok Hc Hl Hh want. unfold z_sig_handle in Hh.
  destruct (sig_next_spec st cur c Hok Hc Hl)
    as [[Hn Hno]|(st1 & e & q1 & q2 & Hn & Hq & Hnext & Ht & Hok1 & Hq1 & _ & Hcs & Has)]; rewrite Hn in Hh.
  { injection Hh as <- <-. by left. }
  right. rewrite Hn. cbn [fst]. rewrite Ht in Hh.
  pose proof (ko_ctxs _ Hok _ _ Hc) as [Hmk Hrs _].
  assert (Hsg : 1 <= signo e <= SIGNAL_SET_SIZE).
  { pose proof (qo_signo _ (ko_queue _ Hok)) as Hs. rewrite Hq, Forall_app, Forall_cons in Hs. tauto. }
  destruct (action_query_ctxs st1 cur (signo e) cur) as [Hcs2 Hq2].
  assert (Hval : exists a, snd (z_sig_action st1 cur (signo e) None cur) = Ok a).
  { unfold z_sig_action. replace (z_sig_is_valid (signo e)) with true; [cbn [negb]; destruct (action_loop _ _ _ _ _ _); by eexists|].
    symmetry. unfold z_sig_is_valid, K_SIG_NUM_RT. rewrite (proj2 (Z.leb_le 0 _)), (proj2 (Z.leb_le _ _)) by lia. done. }
  destruct Hval as [a Ha]. pose proof (action_query_mask _ _ _ _ _ (ko_actions _ Hok1) Ha) as Ham.
  destruct (z_sig_action st1 cur (signo e) None cur) as [st2 r] eqn:Hza. cbn [fst snd] in *. subst r.
  exists q1, e, q2, a. rewrite Hza. cbn [snd]. rewrite Hcs2, Hcs in Hh.
  destruct (is_ignore (kact_handler a)) eqn:Hig.
  { injection Hh as <- <-. do 2 (split; [done|]). split; [by rewrite Hq2, Hq1|done]. }
  rewrite lookup_insert_eq in Hh. injection Hh as <- <-.
  do 2 (split; [done|]). split; [etransitivity; [exact Hq2|exact Hq1]|]. do 2 (split; [done|]).
  eexists. split; [cbn; rewrite Hcs2, Hcs, insert_insert_eq; reflexivity|]. split_and!; try done.
  { unfold live in Hl. by rewrite Hc in Hl. }
  intros t Ht1. cbn. rewrite orset_mem by (done || (destruct (flag_set _ _); [done|by apply addset_words])).
  destruct (flag_set (kact_flags a) K_SIG_SA_NODEFER); cbn [negb].
  - by rewrite andb_false_r, orb_false_r.
  - rewrite addset_spec, andb_true_r by done. by rewrite (orb_comm (t =? signo e)).
Qed.

(** A handler that leaves the saved mask alone returns to the mask the thread
    had. *)
Lemma trampoline_restores run st cur c : ctxs st !! cur = Some c ->
  (forall h i s, cx_restore <$> (ctxs (run h i s) !! cur) = cx_restore <$> (ctxs s !! cur)) ->
  mask_of (z_sig_trampoline run st cur) cur = cx_restore c.
Proof.
  intros Hc Hrun. unfold z_sig_trampoline, k_sig_current. rewrite Hc.
  match goal with |- mask_of (k_sig_return (run ?h ?i ?s) cur) cur = _ =>
    assert (Hr : cx_restore <$> (ctxs (run h i s) !! cur) = Some (cx_restore c)); [rewrite Hrun|] end.
  - destruct (flag_set _ _); [|by rewrite Hc]. unfold k_sig_action, z_sig_action.
    repeat (match goal with |- context [if ?b then _ else _] => destruct b | |- context [let '(_, _) := ?p in _] => destruct p
            | |- context [match ?x with Some _ => _ | None => _ end] => destruct x end; cbn); by rewrite Hc.
  - unfold k_sig_return, mask_of. destruct (ctxs (run _ _ _) !! cur) as [d|]; [|done]. cbn in *. rewrite lookup_insert_eq.
    cbn. by injection Hr.
Qed.

(** A handler that leaves the queue no longer than it was, and its thread
    running. *)
Definition quiet_handler (cur : Z) (run : k_handler -> k_sig_info -> ksig -> ksig) : Prop :=
  forall h i s, ksig_ok s -> live s cur = true ->
    ksig_ok (run h i s) /\ live (run h i s) cur = true /\ (length (queue (run h i s)) <= length (queue s))%nat.

Lemma trampoline_ok run st cur : quiet_handler cur run -> ksig_ok st -> live st cur = true ->
  let st' := z_sig_trampoline run st cur in
  kset (kact_mask (snd (k_sig_current st cur))) ->
  ksig_ok st' /\ live st' cur = true /\ (length (queue st') <= length (queue st))%nat.
Proof.
  intros Hq Hok Hl st' Hm. subst st'. unfold z_sig_trampoline. destruct (k_sig_current st cur) as [info a]. cbn [snd] in Hm.
  set (act := Some _).
  assert (Hst : exists l, (if flag_set (kact_flags a) K_SIG_SA_RESETHAND then fst (k_sig_action st cur (ki_signo info) act) else st)
                = set_actions l st /\ Forall (fun e => kset (kact_mask (el_action e))) l).
  { destruct (flag_set _ _); [by apply action_call_frame; [|apply ko_actions]|].
    exists (signal_actions st). split; [by destruct st|by apply ko_actions]. }
  destruct Hst as (l & -> & Hl'). destruct (actions_step_ok st l Hok Hl') as [Hok1 _].
  destruct (Hq (kact_handler a) info (set_actions l st) Hok1 Hl) as (Hok2 & Hl2 & Hlen).
  destruct (live_ctx _ _ Hl2) as (d & Hd & Hdl). unfold k_sig_return. rewrite Hd.
  pose proof (ko_ctxs _ Hok2 _ _ Hd) as [Hm2 Hr2 _].
  destruct (ctx_step_ok _ cur d (set_mask d (cx_restore d)) Hok2 Hd Hr2 Hr2 eq_refl) as [Hok3 _].
  split_and!; [done| |done]. unfold live. cbn. by rewrite lookup_insert_eq.
Qed.

(** The loop at the end of a system call ends within one more round than
    signals wait, if handlers queue no signals. *)
Lemma sig_check_ends run cur : quiet_handler cur run -> forall fuel st, ksig_ok st -> live st cur = true ->
  (length (queue st) < fuel)%nat -> is_Some (sig_check_loop run fuel st cur).
Proof.
  intros Hrun. induction fuel as [|fuel IH]; intros st Hok Hl Hlen; [lia|]. cbn [sig_check_loop].
  destruct (live_ctx _ _ Hl) as (c & Hc & _). destruct (handle_ok st cur Hok Hl) as [Hok1 _].
  destruct (z_sig_handle st cur) as [st1 [|]] eqn:Hh; [|done]. cbn [fst] in Hok1.
  destruct (handle_spec st cur c st1 true Hok Hc Hl Hh) as [[? _]|(q1 & e & q2 & a & Hq & _ & Hq' & _ & Hb)]; [done|].
  destruct (is_ignore (kact_handler a)); [done|]. destruct Hb as (_ & c' & Hcs & _ & _ & _ & _ & _ & _ & Hl' & Hm & _).
  assert (Hc1 : ctxs st1 !! cur = Some c') by (rewrite Hcs; apply lookup_insert_eq).
  assert (Hl1 : live st1 cur = true) by (unfold live; by rewrite Hc1).
  destruct (trampoline_ok run st1 cur Hrun Hok1 Hl1) as (Hok2 & Hl2 & Hlen2).
  { unfold k_sig_current. by rewrite Hc1. }
  apply IH; [done..|]. rewrite Hq' in Hlen2. rewrite Hq in Hlen. rewrite !length_app in *. cbn in *. lia.
Qed.

(** ** The array of actions is a map *)

Definition is_for (tid s : Z) (e : element) : bool := (signo e =? s) && (el_tid e =? tid).
Definition lookup_action (l : list element) (tid s : Z) : option k_sig_action_t := el_action <$> find (is_for tid s) l.

(** No signal of a thread has two actions. *)
Definition actions_uniq (l : list element) : Prop := forall i j e e',
  l !! i = Some e -> l !! j = Some e' -> signo e <> 0 -> signo e = signo e' -> el_tid e = el_tid e' -> i = j.

Lemma is_for_spec tid s e : is_for tid s e = true <-> signo e = s /\ el_tid e = tid.
Proof. unfold is_for. by rewrite andb_true_iff, !Z.eqb_eq. Qed.

Lemma find_lookup {A} (P : A -> bool) l x : find P l = Some x -> P x = true /\ exists i, l !! i = Some x.
Proof.
  intros Hf. apply find_some in Hf as [Hin HP]. split; [done|]. by apply list_elem_of_In, list_elem_of_lookup in Hin.
Qed.

Lemma lookup_action_Some l tid s i e : actions_uniq l -> s <> 0 -> l !! i = Some e -> is_for tid s e = true ->
  lookup_action l tid s = Some (el_action e).
Proof.
  intros Hu Hs Hi He. unfold lookup_action. destruct (find (is_for tid s) l) as [x|] eqn:Hf.
  - apply find_lookup in Hf as (Hx & j & Hj). apply is_for_spec in Hx as [Hx1 Hx2]. apply is_for_spec in He as [He1 He2].
    assert (i = j) as <- by (apply (Hu i j e x Hi Hj); [by rewrite He1|by rewrite He1|by rewrite He2]).
    rewrite Hi in Hj. by injection Hj as ->.
  - eapply find_none in Hf; [|by eapply list_elem_of_In, list_elem_of_lookup_2]. congruence.
Qed.

Lemma lookup_action_None l tid s : lookup_action l tid s = None <-> forall i e, l !! i = Some e -> is_for tid s e = false.
Proof.
  unfold lookup_action. split.
  - intros Hn i e Hi. destruct (find (is_for tid s) l) eqn:Hf; [done|].
    eapply find_none; [done|]. by eapply list_elem_of_In, list_elem_of_lookup_2.
  - intros Hno. destruct (find (is_for tid s) l) as [x|] eqn:Hf; [|done].
    apply find_lookup in Hf as (Hx & j & Hj). rewrite (Hno j x Hj) in Hx. done.
Qed.

(** Two arrays with the same elements for a thread have the same actions. *)
Lemma lookup_action_ext l l' tid s : actions_uniq l -> actions_uniq l' -> s <> 0 ->
  (forall i e, is_for tid s e = true -> l !! i = Some e <-> l' !! i = Some e) ->
  lookup_action l tid s = lookup_action l' tid s.
Proof.
  intros Hu Hu' Hs Hsame. destruct (lookup_action l tid s) as [a|] eqn:Ha.
  - unfold lookup_action in Ha. destruct (find (is_for tid s) l) as [e|] eqn:Hf; [|done]. injection Ha as <-.
    apply find_lookup in Hf as (He & i & Hi). symmetry. eapply lookup_action_Some; [done..| |done]. by apply Hsame.
  - symmetry. rewrite lookup_action_None in *. intros i e Hi. destruct (is_for tid s e) eqn:He; [|done].
    rewrite <- He. apply (Ha i). by apply Hsame.
Qed.

(** The search clears actions of threads that have ended and nothing else. *)
Lemma action_loop_spec st cur s tid l : forall i,
  let '(l', r) := action_loop st cur s tid i l in
  length l' = length l /\
  (forall j e, l' !! j = Some e -> l !! j = Some e \/ e = zero_element) /\
  (forall j e, l !! j = Some e -> z_sig_pid_is_valid st cur (el_tid e) = true -> l' !! j = Some e) /\
  match r with
  | None => forall j e, l' !! j = Some e -> is_for tid s e = true -> e = zero_element
  | Some k => exists j e, k = (i + j)%nat /\ l' !! j = Some e /\ l !! j = Some e /\ is_for tid s e = true
  end.
Proof.
  induction l as [|x l IH]; intros i; cbn [action_loop]; [done|].
  specialize (IH (S i)). destruct (action_loop st cur s tid (S i) l) as [l' r]. destruct IH as (Hlen & Hsub & Hkeep & Hr).
  assert (Hrest : forall y, (y = x \/ y = zero_element) -> (z_sig_pid_is_valid st cur (el_tid x) = true -> y = x) ->
    (r = None -> is_for tid s y = true -> y = zero_element) ->
    length (y :: l') = length (x :: l) /\
    (forall j e, (y :: l') !! j = Some e -> (x :: l) !! j = Some e \/ e = zero_element) /\
    (forall j e, (x :: l) !! j = Some e -> z_sig_pid_is_valid st cur (el_tid e) = true -> (y :: l') !! j = Some e) /\
    match r with
    | None => forall j e, (y :: l') !! j = Some e -> is_for tid s e = true -> e = zero_element
    | Some k => exists j e, k = (i + j)%nat /\ (y :: l') !! j = Some e /\ (x :: l) !! j = Some e /\ is_for tid s e = true
    end).
  { intros y Hy Hval Hfor. split_and!; [cbn; lia|..].
    - intros [|j] e; cbn; [|apply Hsub]. intros [= <-]. destruct Hy as [->| ->]; auto.
    - intros [|j] e; cbn; [|apply Hkeep]. intros [= <-] Hv. by rewrite Hval.
    - destruct r as [k|].
      + destruct Hr as (j & e & -> & H1 & H2 & H3). exists (S j), e. split_and!; [lia|done..].
      + intros [|j] e; cbn; [|apply Hr]. intros [= <-]. by apply Hfor. }
  destruct (z_sig_pid_is_valid st cur (el_tid x)) eqn:Hv; cbn [negb].
  - fold (is_for tid s x). destruct (is_for tid s x) eqn:Hf; cbn [negb].
    + split_and!; [done|auto|auto|]. exists 0%nat, x. split_and!; [lia|done..].
    + apply Hrest; [auto|done|congruence].
  - apply Hrest; [auto|done|auto].
Qed.

Lemma zero_is_for tid s : s <> 0 -> is_for tid s zero_element = false.
Proof. intros Hs. unfold is_for. change (signo zero_element) with 0. by rewrite (proj2 (Z.eqb_neq 0 s)) by done. Qed.

Lemma uniq_sub l l' : actions_uniq l -> (forall j e, l' !! j = Some e -> l !! j = Some e \/ e = zero_element) -> actions_uniq l'.
Proof.
  intros Hu Hsub i j e e' Hi Hj Hne Hs Ht.
  destruct (Hsub i e Hi) as [Hi'| ->]; [|done]. destruct (Hsub j e' Hj) as [Hj'| ->]; [|by rewrite Hs in Hne].
  by eapply Hu.
Qed.

Lemma uniq_insert l i e : actions_uniq l ->
  (forall j e', l !! j = Some e' -> j <> i -> signo e <> 0 -> signo e' = signo e -> el_tid e' = el_tid e -> False) ->
  actions_uniq (<[i := e]> l).
Proof.
  intros Hu Hfree a b x y Ha Hb Hne Hs Ht.
  rewrite list_lookup_insert_Some in Ha, Hb.
  destruct Ha as [(<- & <- & _)|[Hai Ha]], Hb as [(<- & <- & _)|[Hbi Hb]]; [done| | |by eapply Hu].
  - exfalso. by eapply (Hfree b y).
  - exfalso. eapply (Hfree a x); done || congruence.
Qed.

Lemma unused_loop_spec l : forall i,
  match unused_loop i l with
  | None => forall j e, l !! j = Some e -> signo e <> 0
  | Some k => exists j e, k = (i + j)%nat /\ l !! j = Some e /\ signo e = 0
  end.
Proof.
  induction l as [|x l IH]; intros i; cbn [unused_loop]; [done|].
  destruct (Z.eqb_spec (signo x) 0) as [Hz|Hnz]; [exists 0%nat, x; split_and!; [lia|done..]|].
  specialize (IH (S i)). destruct (unused_loop (S i) l) as [k|].
  - destruct IH as (j & e & -> & Hj & He). exists (S j), e. split_and!; [lia|done..].
  - intros [|j] e; [intros [= <-]; done|apply IH].
Qed.

Definition default_action (s : Z) : k_sig_action_t :=
  mk_kact (if is_ignore (z_sig_resolve s) then K_SIG_IGN else K_SIG_DFL) 0 0 k_sig_emptyset.
Definition stored (a : k_sig_action_t) : k_sig_action_t :=
  mk_kact (kact_handler a) (kact_user_data a) (kact_flags a) (unmaskable_cleared (kact_mask a)).

(** The action a call reports, the error it fails with. *)
Definition action_reply (st : ksig) (cur s : Z) (act : option k_sig_action_t) : res k_sig_action_t :=
  let found := lookup_action (signal_actions st) cur s in
  let old := Ok (default (default_action s) found) in
  match act with
  | None => old
  | Some a =>
      if (length (signal_actions st) =? 0)%nat then Err ENOMEM
      else if is_ignore (kact_handler a) && negb (z_sig_may_be_ignored s) then Err EINVAL
      else if negb (z_sig_may_be_caught s) then Err EINVAL
      else if is_default a then old
      else match found with
           | Some _ => old
           | None => if forallb (fun e => negb (signo e =? 0) && z_sig_pid_is_valid st cur (el_tid e)) (signal_actions st)
                     then Err ENOMEM else old
           end
  end.

(** The action of the signal afterwards. *)
Definition action_after (st : ksig) (cur s : Z) (act : option k_sig_action_t) : option k_sig_action_t :=
  match act, action_reply st cur s act with
  | Some a, Ok _ => if is_default a then None else Some (stored a)
  | _, _ => lookup_action (signal_actions st) cur s
  end.

Lemma unused_full st cur s l l' r :
  action_loop st cur s cur 0 l = (l', r) -> r = None ->
  match unused_loop 0 l' with
  | None => forallb (fun e => negb (signo e =? 0) && z_sig_pid_is_valid st cur (el_tid e)) l = true
  | Some _ => forallb (fun e => negb (signo e =? 0) && z_sig_pid_is_valid st cur (el_tid e)) l = false
  end.
Proof.
  intros Hloop ->. pose proof (action_loop_spec st cur s cur l 0) as Hsp. rewrite Hloop in Hsp.
  destruct Hsp as (Hlen & Hsub & Hkeep & _). pose proof (unused_loop_spec l' 0) as Hun.
  destruct (unused_loop 0 l') as [k|].
  - destruct Hun as (j & e & _ & Hj & He). apply not_true_is_false. rewrite forallb_forall. intros Hall.
    assert (exists e0, l !! j = Some e0) as [e0 He0] by (apply lookup_lt_is_Some; rewrite <- Hlen; by eapply lookup_lt_Some).
    pose proof (Hall e0 ltac:(by eapply list_elem_of_In, list_elem_of_lookup_2)) as Hx.
    apply andb_true_iff in Hx as [H1 H2]. rewrite (Hkeep j e0 He0 H2) in Hj. injection Hj as <-. by rewrite He in H1.
  - apply forallb_forall. intros e He. apply list_elem_of_In, list_elem_of_lookup in He as [j Hj].
    assert (exists e', l' !! j = Some e') as [e' He'] by (apply lookup_lt_is_Some; rewrite Hlen; by eapply lookup_lt_Some).
    pose proof (Hun j e' He') as Hne. destruct (Hsub j e' He') as [Hj'| ->]; [|done].
    assert (e' = e) as -> by congruence. rewrite (proj2 (Z.eqb_neq _ _) Hne). cbn [negb andb].
    destruct (z_sig_pid_is_valid st cur (el_tid e)) eqn:Hv; [done|]. exfalso.
    clear -Hloop Hj He' Hv Hne. revert l' Hloop He'. generalize 0%nat. revert j Hj.
    induction l as [|x l IH]; intros j Hj i l' Hloop He'; [done|]. cbn [action_loop] in Hloop.
    destruct (action_loop st cur s cur (S i) l) as [l1 r1] eqn:Hl1. destruct j as [|j]; cbn in Hj.
    + injection Hj as ->. rewrite Hv in Hloop. cbn in Hloop. simplify_eq. cbn in He'. by simplify_eq.
    + destruct (z_sig_pid_is_valid st cur (el_tid x)); cbn in Hloop;
        [destruct (negb _); [|done]|]; simplify_eq; cbn in He'; by eapply IH.
Qed.

(** What the search finds, and that it changes the action of no thread that
    runs. *)
Lemma search_spec st cur s : actions_uniq (signal_actions st) -> cur <> 0 -> 1 <= s ->
  let '(l, custom) := action_loop st cur s cur 0 (signal_actions st) in
  length l = length (signal_actions st) /\ actions_uniq l /\
  (forall tid s', 1 <= s' -> z_sig_pid_is_valid st cur tid = true ->
     lookup_action l tid s' = lookup_action (signal_actions st) tid s') /\
  match custom with
  | Some i => exists e, l !! i = Some e /\ is_for cur s e = true /\
                lookup_action (signal_actions st) cur s = Some (el_action e)
  | None => lookup_action (signal_actions st) cur s = None
  end.
Proof.
  intros Hu Hcur Hs. pose proof (action_loop_spec st cur s cur (signal_actions st) 0) as Hsp.
  destruct (action_loop st cur s cur 0 (signal_actions st)) as [l custom]. destruct Hsp as (Hlen & Hsub & Hkeep & Hr).
  assert (Hul : actions_uniq l) by (by eapply uniq_sub).
  assert (Hvc : z_sig_pid_is_valid st cur cur = true).
  { unfold z_sig_pid_is_valid. rewrite (proj2 (Z.eqb_neq cur 0) Hcur). by rewrite Z.eqb_refl. }
  assert (Hsame : forall tid s', 1 <= s' -> z_sig_pid_is_valid st cur tid = true ->
            lookup_action l tid s' = lookup_action (signal_actions st) tid s').
  { intros tid s' Hs' Hv. symmetry. apply lookup_action_ext; [done..|lia|]. intros i e Hf. split.
    - intros Hi. apply Hkeep; [done|]. apply is_for_spec in Hf as [_ ->]. done.
    - intros Hi. destruct (Hsub i e Hi) as [Hi'|Hz]; [done|]. rewrite Hz, zero_is_for in Hf by lia. done. }
  split_and!; [done..|]. rewrite <- (Hsame cur s) by (done || lia). destruct custom as [i|].
  - destruct Hr as (j & e & -> & Hj & _ & Hf). exists e. split_and!; [done..|]. eapply lookup_action_Some; done || lia.
  - apply lookup_action_None. intros j e Hj. destruct (is_for cur s e) eqn:Hf; [|done].
    rewrite (Hr j e Hj Hf), zero_is_for in Hf by lia. done.
Qed.

(** Replacing the only element for a signal, or an unused one. *)
Lemma put_action l i e0 e1 cur s : actions_uniq l -> 1 <= s -> l !! i = Some e0 ->
  (forall j e', l !! j = Some e' -> j <> i -> is_for cur s e' = false) ->
  (is_for cur s e0 = true \/ signo e0 = 0) -> (e1 = zero_element \/ is_for cur s e1 = true) ->
  actions_uniq (<[i := e1]> l) /\
  lookup_action (<[i := e1]> l) cur s = (if is_for cur s e1 then Some (el_action e1) else None) /\
  (forall tid s', 1 <= s' -> tid <> cur \/ s' <> s -> lookup_action (<[i := e1]> l) tid s' = lookup_action l tid s').
Proof.
  intros Hul Hs Hi Hother H0 H1.
  assert (Hui : actions_uniq (<[i := e1]> l)).
  { apply uniq_insert; [done|]. intros j e' Hj Hji Hne Hs1 Ht1. destruct H1 as [->|H1]; [done|].
    apply is_for_spec in H1 as [H1s H1t]. pose proof (Hother j e' Hj Hji) as Hf.
    rewrite (proj2 (is_for_spec cur s e')) in Hf; [done|]. split; congruence. }
  assert (Hii : <[i := e1]> l !! i = Some e1) by (apply list_lookup_insert_eq; by eapply lookup_lt_Some).
  split_and!; [done| |].
  - destruct H1 as [->|H1].
    + rewrite zero_is_for by lia. apply lookup_action_None. intros j e' Hj.
      rewrite list_lookup_insert_Some in Hj. destruct Hj as [(<- & <- & _)|[Hne Hj]]; [apply zero_is_for; lia|].
      by apply (Hother j).
    + rewrite H1. eapply lookup_action_Some; done || lia.
  - intros tid s' Hs' Hne. apply lookup_action_ext; [done..|lia|].
    intros j e Hf. rewrite list_lookup_insert_Some. apply is_for_spec in Hf as [Hf1 Hf2]. split.
    + intros [(<- & <- & _)|[_ Hj]]; [|done]. exfalso.
      destruct H1 as [->|H1]; [cbn in Hf1; lia|]. apply is_for_spec in H1 as [? ?]. destruct Hne; congruence.
    + intros Hj. right. split; [|done]. intros <-. rewrite Hi in Hj. injection Hj as ->.
      destruct H0 as [H0|H0]; [apply is_for_spec in H0 as [? ?]; destruct Hne; congruence|lia].
Qed.

Lemma uniq_other l i e cur s : actions_uniq l -> 1 <= s -> l !! i = Some e -> is_for cur s e = true ->
  forall j e', l !! j = Some e' -> j <> i -> is_for cur s e' = false.
Proof.
  intros Hul Hs Hi Hf j e' Hj Hji. destruct (is_for cur s e') eqn:Hf'; [|done]. exfalso. apply Hji.
  apply is_for_spec in Hf as [H1 H2], Hf' as [H3 H4]. apply (Hul j i e' e Hj Hi); [lia|congruence..].
Qed.

Lemma sig_is_valid s : 1 <= s <= SIGNAL_SET_SIZE -> z_sig_is_valid s = true.
Proof.
  intros Hs. unfold z_sig_is_valid, K_SIG_NUM_RT. by rewrite (proj2 (Z.leb_le 0 _)), (proj2 (Z.leb_le _ _)) by lia.
Qed.

Lemma current_action_spec st cur s l custom :
  match custom with
  | Some i => exists e, l !! i = Some e /\ is_for cur s e = true /\
                lookup_action (signal_actions st) cur s = Some (el_action e)
  | None => lookup_action (signal_actions st) cur s = None
  end ->
  current_action l custom s = default (default_action s) (lookup_action (signal_actions st) cur s).
Proof.
  intros Hcust. unfold current_action. destruct custom as [i|]; [|by rewrite Hcust].
  destruct Hcust as (e & Hi & _ & ->). by rewrite nth_lookup, Hi.
Qed.

(** What is stored through [oact], by every call. *)
Lemma oact_spec st cur s : actions_uniq (signal_actions st) -> cur <> 0 -> 1 <= s <= SIGNAL_SET_SIZE ->
  z_sig_action_oact st cur s cur = Some (default (default_action s) (lookup_action (signal_actions st) cur s)).
Proof.
  intros Hu Hcur Hs. unfold z_sig_action_oact. rewrite sig_is_valid by done. cbn [negb].
  pose proof (search_spec st cur s Hu Hcur ltac:(lia)) as Hsp.
  destruct (action_loop st cur s cur 0 (signal_actions st)) as [l custom]. destruct Hsp as (_ & _ & _ & Hcust).
  by rewrite (current_action_spec st cur s l custom Hcust).
Qed.

Lemma action_spec st cur s act : actions_uniq (signal_actions st) -> cur <> 0 -> 1 <= s <= SIGNAL_SET_SIZE ->
  let '(st', r) := k_sig_action st cur s act in
  r = action_reply st cur s act /\
  actions_uniq (signal_actions st') /\
  lookup_action (signal_actions st') cur s = action_after st cur s act /\
  (forall tid s', 1 <= s' -> z_sig_pid_is_valid st cur tid = true -> tid <> cur \/ s' <> s ->
     lookup_action (signal_actions st') tid s' = lookup_action (signal_actions st) tid s').
Proof.
  intros Hu Hcur Hs. unfold k_sig_action, z_sig_action, action_after, action_reply. rewrite sig_is_valid by done.
  cbn [negb]. pose proof (search_spec st cur s Hu Hcur ltac:(lia)) as Hsp.
  pose proof (unused_full st cur s (signal_actions st)) as Hfull.
  destruct (action_loop st cur s cur 0 (signal_actions st)) as [l custom]. destruct Hsp as (Hlen & Hul & Hsame & Hcust).
  specialize (Hfull l custom eq_refl).
  assert (Hvc : z_sig_pid_is_valid st cur cur = true).
  { unfold z_sig_pid_is_valid. rewrite (proj2 (Z.eqb_neq cur 0) Hcur). by rewrite Z.eqb_refl. }
  rewrite (current_action_spec st cur s l custom), Hlen by done. pose proof (Hsame cur s ltac:(lia) Hvc) as Hsc.
  destruct act as [a|]; [|by auto]. destruct (length (signal_actions st) =? 0)%nat; [by auto|].
  destruct (is_ignore (kact_handler a) && negb (z_sig_may_be_ignored s)); [by auto|].
  destruct (negb (z_sig_may_be_caught s)); [by auto|].
  destruct (is_default a); destruct custom as [i|]; cbn [signal_actions set_actions].
  - destruct Hcust as (e & Hi & Hf & Hlk).
    destruct (put_action l i e zero_element cur s) as (H1 & H2 & H3); eauto using uniq_other with lia.
    rewrite zero_is_for in H2 by lia. split_and!; [done..|]. intros. rewrite H3 by done. by apply Hsame.
  - rewrite Hcust in Hsc. by auto.
  - destruct Hcust as (e & Hi & Hf & Hlk). rewrite Hlk.
    assert (Hn : is_for cur s (mk_element cur (mk_kinfo s 0 0) (stored a)) = true) by (by apply is_for_spec).
    destruct (put_action l i e (mk_element cur (mk_kinfo s 0 0) (stored a)) cur s) as (H1 & H2 & H3); eauto using uniq_other with lia.
    rewrite Hn in H2. split_and!; [done..|]. intros. rewrite H3 by done. by apply Hsame.
  - rewrite Hcust in *. specialize (Hfull eq_refl). pose proof (unused_loop_spec l 0) as Hun.
    destruct (unused_loop 0 l) as [k|]; rewrite Hfull; [|by auto].
    destruct Hun as (j & e & -> & Hj & Hz). cbn [signal_actions set_actions Nat.add].
    assert (Hn : is_for cur s (mk_element cur (mk_kinfo s 0 0) (stored a)) = true) by (by apply is_for_spec).
    destruct (put_action l j e (mk_element cur (mk_kinfo s 0 0) (stored a)) cur s) as (H1 & H2 & H3); auto with lia.
    { intros i e' Hi' _. rewrite lookup_action_None in Hsc. by eapply Hsc. }
    rewrite Hn in H2. split_and!; [done..|]. intros. rewrite H3 by done. by apply Hsame.
Qed.

Lemma step_uniq st ev st' : ksig_step st ev st' -> ksig_ok st -> actions_uniq (signal_actions st) ->
  actions_uniq (signal_actions st').
Proof.
  intros Hstep Hok Hu. destruct Hstep as [st cur pid s v st' r Hcur Hq|st cur Hl|st cur set Hl Hs|st cur Hl
    |st cur how set Hl Hs|st cur s act Hl Hne Hs Ha|st cur Hl|st tid Hl Hne|st tid c Hc]; try done.
  - unfold k_sig_queue in Hq. repeat (case_match; simplify_eq; try done).
  - destruct (live_ctx _ _ Hl) as (c & Hc & _). unfold z_sig_handle.
    destruct (sig_next_spec st cur c Hok Hc Hl) as [[-> _]|(st1 & e & q1 & q2 & -> & _ & _ & _ & _ & _ & _ & _ & Has)]; [done|].
    assert (Hq : actions_uniq (signal_actions (fst (z_sig_action st1 cur (signo e) None (el_tid e))))).
    { unfold z_sig_action. destruct (negb _); [cbn; by rewrite Has|].
      pose proof (action_loop_spec st1 cur (signo e) (el_tid e) (signal_actions st1) 0) as Hsp.
      destruct (action_loop _ _ _ _ _ _) as [l r]. destruct Hsp as (_ & Hsub & _). rewrite Has in Hsub. by eapply uniq_sub. }
    destruct (z_sig_action st1 cur (signo e) None (el_tid e)) as [st2 [a|]]; [|done].
    destruct (is_ignore _); [done|]. by destruct (ctxs st2 !! cur).
  - destruct (wait_ok st cur set Hok Hl Hs) as (_ & _ & ->). done.
  - unfold k_sig_pending. rewrite pending_unchanged; [done|done|]. pose proof (qo_size _ (ko_queue _ Hok)). lia.
  - unfold k_sig_mask. by destruct (ctxs st !! cur).
  - pose proof (action_spec st cur s act Hu Hne Hs) as Hsp. destruct (k_sig_action st cur s act). apply Hsp.
  - unfold k_sig_return. by destruct (ctxs st !! cur).
  - unfold z_setup_new_thread. by destruct (ctxs st !! tid).
Qed.

Lemma reachable_uniq acts cs h st : (forall tid c, cs !! tid = Some c -> boot_ctx c) ->
  ksig_run (ksig_init QUEUE_SIZE acts cs) h st -> actions_uniq (signal_actions st).
Proof.
  intros Hcs Hrun. induction Hrun as [|h st1 ev st2 Hrun IH Hstep].
  - intros i j e e' Hi _ Hne. cbn in Hi. by apply lookup_replicate in Hi as [-> _].
  - eapply step_uniq; [done| |done]. eapply (ksig_run_ok _ _ _ Hrun); [by apply ksig_init_ok|done].
Qed.
End Ksig.

(** ** Theorems *)

(** The configuration: words of 32 or 64 bits, a set with real-time signals,
    and the kernel's count of trailing zeros. *)
Record ksig_config (w cancel SIGNAL_SET_SIZE : Z) (ctz : Z -> Z) : Prop := {
  cf_word : w = 32 \/ w = 64;
  cf_cancel : 0 <= cancel;
  cf_rt : cancel + 2 < SIGNAL_SET_SIZE;
  cf_ctz : forall x, 0 < x < 2 ^ w -> 0 <= ctz x < w /\ Z.testbit x (ctz x) = true /\
             forall i, 0 <= i < ctz x -> Z.testbit x i = false;
}.

Lemma config_num_rt w cancel SIZE ctz : ksig_config w cancel SIZE ctz -> K_SIG_NUM_RT cancel SIZE <> 0.
Proof. intros [_ _ Hrt _]. unfold K_SIG_NUM_RT, K_SIG_RTMIN. lia. Qed.

Section Theorems.
Context (w cancel SIZE : Z) (N : nat) (ctz : Z -> Z) (term core canc : Z) (Hcf : ksig_config w cancel SIZE ctz).
Context (acts : nat) (cs : gmap Z sig_ctx) (Hcs : forall tid c, cs !! tid = Some c -> boot_ctx w SIZE c).

Abbreviation run := (ksig_run w cancel SIZE N ctz term core canc).
Abbreviation init := (ksig_init w SIZE N acts cs).

Lemma ksig_reachable_ok h st : run init h st ->
  ksig_ok w SIZE N st /\ (forall tid s, queued tid s h = taken tid s h ++ waiting w SIZE tid s st) /\
  actions_uniq (signal_actions st).
Proof.
  pose proof (config_num_rt _ _ _ _ Hcf) as Hnum. destruct Hcf as [Hw Hc Hrt Hctz]. intros Hrun.
  destruct (ksig_run_ok w cancel SIZE N ctz term core canc Hw ltac:(lia) Hctz Hc Hnum init h st Hrun) as [Hok Hb].
  - by apply (ksig_init_ok w SIZE N Hw ltac:(lia)).
  - done.
  - split_and!; [done..|]. by eapply (reachable_uniq w cancel SIZE N ctz term core canc Hw ltac:(lia) Hctz Hc Hnum).
Qed.
End Theorems.

(** C9: In every run of the calls k_sig_queue, z_sig_handle, k_sig_timedwait,
    k_sig_pending, k_sig_mask, k_sig_action and k_sig_return, each of them one
    step but for k_sig_timedwait, which is the sequence of its attempts to
    take a signal with the other threads running while it sleeps, and with
    threads that begin and end: for every thread and signal the values queued
    to the thread are those it has taken, in the order they were queued,
    followed by those that still wait, so that none is lost, doubled or
    reordered; the queue holds at most as many signals as there are blocks,
    the count in each thread is exact, and k_sig_queue fails with EAGAIN only
    when all blocks wait.  A whole call of k_sig_timedwait with any number of
    wake-ups extends the run, and the signal it returns is the one taken last;
    a wait that expires right after it was woken for another thread's signal
    fails an assertion instead (expired_wait_asserts), and takes nothing.
    Signals of a thread that has ended stay in the queue, although a comment
    says they are removed. *)
Theorem signals_fifo w cancel SIZE N ctz term core canc acts cs h st :
  ksig_config w cancel SIZE ctz -> (forall tid c, cs !! tid = Some c -> boot_ctx w SIZE c) ->
  ksig_run w cancel SIZE N ctz term core canc (ksig_init w SIZE N acts cs) h st ->
  (forall tid s, queued tid s h = taken tid s h ++ waiting w SIZE tid s st) /\
  (length (queue w SIZE st) <= N)%nat /\
  (forall tid c, ctxs st !! tid = Some c -> cx_pending c = Z.of_nat (length (to_thread tid (queue w SIZE st)))) /\
  (forall cur pid s v, cur = 0 \/ live st cur = true ->
     snd (k_sig_queue w SIZE N st cur pid s v) = Err EAGAIN -> length (queue w SIZE st) = N) /\
  (forall cur set rounds st' r, live st cur = true -> words w (K_SIGSET_NLONGS w SIZE) set ->
     Forall (sleeps w cancel SIZE N ctz term core canc cur) rounds ->
     k_sig_timedwait w cancel SIZE N ctz rounds st cur set = Some (st', r) ->
     exists h', ksig_run w cancel SIZE N ctz term core canc (ksig_init w SIZE N acts cs) (h ++ h') st' /\ took cur h' r).
Proof.
  intros Hcf Hcs Hrun. destruct (ksig_reachable_ok _ _ _ _ _ _ _ _ Hcf acts cs Hcs h st Hrun) as (Hok & Hb & _).
  destruct Hcf as [Hw Hc Hrt Hctz]. split_and!.
  - done.
  - pose proof (qo_size _ _ _ _ (ko_queue _ _ _ _ Hok)). unfold queue. rewrite length_fmap. lia.
  - intros tid c Htc. apply (co_pending _ _ _ _ _ (ko_ctxs _ _ _ _ Hok _ _ Htc)).
  - intros cur pid s v Hcur He. destruct (k_sig_queue w SIZE N st cur pid s v) as [st' r] eqn:Hq.
    eapply queue_call_ok in Hq as (_ & _ & Hn); [by apply Hn|done..].
  - intros cur set rounds st' r Hl Hset Hsl Hwait.
    destruct (timedwait_runs w cancel SIZE N ctz term core canc cur set rounds Hset Hsl st st' r Hl Hwait) as (h' & Hrun' & Ht).
    exists h'. split; [by eapply ksig_run_app|done].
Qed.

(** C10: which signal a thread handles, and how.  In every reachable state, a
    thread that looks for signals takes one that is queued for it and not
    masked, if there is one: the real-time signal with the least number, the
    oldest of that number, and only without real-time signals the oldest
    standard signal.  It is discarded when its action is to ignore it, and
    else handled, with its information and its action in the context, while
    the mask has also the signal (without K_SIG_SA_NODEFER) and the mask of
    the action; the mask that was is restored when the handler returns. *)
Theorem delivery_order w cancel SIZE N ctz term core canc acts cs h st cur c st' b :
  ksig_config w cancel SIZE ctz -> (forall tid c, cs !! tid = Some c -> boot_ctx w SIZE c) ->
  ksig_run w cancel SIZE N ctz term core canc (ksig_init w SIZE N acts cs) h st ->
  ctxs st !! cur = Some c -> live st cur = true ->
  z_sig_handle w cancel SIZE N ctz term core canc st cur = (st', b) ->
  let want := wanted w SIZE st (k_sig_fillset w SIZE) cur false in
  (b = false /\ queue w SIZE st' = queue w SIZE st /\ Forall (fun e => want e = false) (queue w SIZE st)) \/
  (exists q1 e q2 a, queue w SIZE st = q1 ++ e :: q2 /\ is_next cancel want q1 e q2 /\ queue w SIZE st' = q1 ++ q2 /\
     let signo := ki_signo (el_info e) in
     snd (z_sig_action w cancel SIZE term core canc (fst (sig_next w cancel SIZE N ctz st cur)) cur signo None cur) = Ok a /\
     if is_ignore (kact_handler a) then b = false
     else b = true /\ exists c', ctxs st' = <[cur := c']> (ctxs st) /\
       cx_info c' = el_info e /\ kact_flags (cx_action c') = kact_flags a /\
       kact_user_data (cx_action c') = kact_user_data a /\
       kact_handler (cx_action c') =
         (match kact_handler a with K_SIG_DFL => z_sig_resolve cancel SIZE term core canc signo | h => h end) /\
       cx_delivered c' = cx_delivered c + 1 /\
       (forall t, 1 <= t -> sig_mem w (cx_mask c') t =
          sig_mem w (cx_mask c) t || ((t =? signo) && negb (flag_set (kact_flags a) K_SIG_SA_NODEFER))
          || sig_mem w (kact_mask a) t) /\
       (forall run, (forall h i s, cx_restore <$> (ctxs (run h i s) !! cur) = cx_restore <$> (ctxs s !! cur)) ->
          mask_of w SIZE (z_sig_trampoline w cancel SIZE term core canc run st' cur) cur = cx_mask c)).
Proof.
  intros Hcf Hcs Hrun Hc Hl Hh want.
  destruct (ksig_reachable_ok _ _ _ _ _ _ _ _ Hcf acts cs Hcs h st Hrun) as (Hok & _ & _).
  pose proof (config_num_rt _ _ _ _ Hcf) as Hnum. destruct Hcf as [Hw Hcn Hrt Hctz].
  destruct (handle_spec w cancel SIZE N ctz term core canc Hw ltac:(lia) Hctz Hcn Hnum st cur c st' b Hok Hc Hl Hh)
    as [Hno|(q1 & e & q2 & a & Hq & Hn & Hq' & Ha & Hb)]; [by left|right].
  exists q1, e, q2, a. do 4 (split; [done|]). destruct (is_ignore (kact_handler a)); [done|].
  destruct Hb as [-> (c' & Hcs' & H1 & H2 & H3 & H4 & H5 & H6 & _ & _ & H7)]. split; [done|].
  exists c'. do 7 (split; [done|]). intros run Hr. rewrite <- H6. apply trampoline_restores; [|done].
  by rewrite Hcs', lookup_insert_eq.
Qed.

(** C11: In every reachable state, for calls that execute one at a time, a
    signal between 1 and SIGNAL_SET_SIZE and a caller that is a thread: the
    table of actions is a map from threads and signals to actions.
    k_sig_action stores through oact the action the thread has for the signal,
    or its default, whatever the outcome of the call; it fails exactly where
    it should (no room, or a signal that may not be caught or ignored); the
    action afterwards is the new one without the signals that cannot be
    masked, or the old one when the call fails, and no other action of a
    thread that runs is changed.  In the source the search, the choice of an
    unused element and the write are separate, so that two calls at the same
    time can take one element (action_slot_race). *)
Theorem actions_map w cancel SIZE N ctz term core canc acts cs h st cur s act st' r :
  ksig_config w cancel SIZE ctz -> (forall tid c, cs !! tid = Some c -> boot_ctx w SIZE c) ->
  ksig_run w cancel SIZE N ctz term core canc (ksig_init w SIZE N acts cs) h st ->
  cur <> 0 -> 1 <= s <= SIZE ->
  k_sig_action w cancel SIZE term core canc st cur s act = (st', r) ->
  z_sig_action_oact w cancel SIZE term core canc st cur s cur =
    Some (default (default_action w cancel SIZE term core canc s) (lookup_action (signal_actions st) cur s)) /\
  r = action_reply w cancel SIZE term core canc st cur s act /\
  lookup_action (signal_actions st') cur s = action_after w cancel SIZE term core canc st cur s act /\
  (forall tid s', 1 <= s' -> z_sig_pid_is_valid st cur tid = true -> tid <> cur \/ s' <> s ->
     lookup_action (signal_actions st') tid s' = lookup_action (signal_actions st) tid s').
Proof.
  intros Hcf Hcs Hrun Hcur Hs Hk.
  destruct (ksig_reachable_ok _ _ _ _ _ _ _ _ Hcf acts cs Hcs h st Hrun) as (_ & _ & Hu).
  pose proof (action_spec w cancel SIZE term core canc st cur s act Hu Hcur Hs) as Hsp. rewrite Hk in Hsp.
  split; [by apply oact_spec|]. tauto.
Qed.

(** ** Witnesses

    Two threads on a 64-bit kernel with four blocks and two actions. *)

Definition kw_ctx (mask : list Z) : sig_ctx :=
  mk_ctx mask [0] no_info (no_action 64 64) 0 0 true.
Definition kw_ctxs : gmap Z sig_ctx := {[ 100 := kw_ctx [2 ^ 64 - 1]; 200 := kw_ctx [512] ]}.
Definition kw0 : ksig := ksig_init 64 64 4 2 kw_ctxs.
Definition kw_queue (st : ksig) (signo value : Z) : ksig := fst (k_sig_queue 64 64 4 st 100 200 signo value).
Definition kw1 : ksig := kw_queue (kw_queue (kw_queue (kw_queue kw0 15 1) 40 2) 36 3) 36 4.
Definition kw_handle (st : ksig) : ksig * bool := z_sig_handle 64 32 64 4 (ctz_from 64 0) 1000 2000 3000 st 200.
Definition kw_history : list event := [Queued 200 15 1; Queued 200 40 2; Queued 200 36 3; Queued 200 36 4].

Lemma kw_config : ksig_config 64 32 64 (ctz_from 64 0).
Proof. split; [by right|lia|lia|exact ctz64_spec]. Qed.

Lemma kw_words x : 0 <= x < 2 ^ 64 -> words 64 (K_SIGSET_NLONGS 64 64) [x].
Proof. intros Hx. split; [reflexivity|]. by constructor. Qed.

Lemma kw_boot tid c : kw_ctxs !! tid = Some c -> boot_ctx 64 64 c.
Proof.
  unfold kw_ctxs. rewrite lookup_insert_Some, lookup_singleton_Some. intros [[_ <-]|[_ [_ <-]]];
    (split; [|split; [|done]]); apply kw_words; lia.
Qed.

Lemma kw_run : ksig_run 64 32 64 4 (ctz_from 64 0) 1000 2000 3000 kw0 kw_history kw1.
Proof.
  assert (Hstep : forall st s v, live st 100 = true -> snd (k_sig_queue 64 64 4 st 100 200 s v) = Ok tt -> s <> 0 ->
    ksig_step 64 32 64 4 (ctz_from 64 0) 1000 2000 3000 st [Queued 200 s v] (kw_queue st s v)).
  { intros st s v Hl Hr Hs. pose proof (step_queue 64 32 64 4 (ctz_from 64 0) 1000 2000 3000 st 100 200 s v
      (kw_queue st s v) (Ok tt)) as Hq. rewrite (proj2 (Z.eqb_neq s 0) Hs) in Hq. apply Hq; [by right|].
    unfold kw_queue. rewrite <- Hr. by destruct (k_sig_queue 64 64 4 st 100 200 s v). }
  change kw_history with ((([] ++ [Queued 200 15 1]) ++ [Queued 200 40 2]) ++ [Queued 200 36 3] ++ [Queued 200 36 4]).
  rewrite app_assoc. unfold kw1.
  repeat (eapply run_snoc; [|by apply Hstep; [reflexivity|reflexivity|]]). apply run_nil.
Qed.

Lemma signals_fifo_witness :
  queued 200 36 kw_history = [3; 4] /\ waiting 64 64 200 36 kw1 = [3; 4] /\ (length (queue 64 64 kw1) <= 4)%nat.
Proof.
  destruct (signals_fifo 64 32 64 4 (ctz_from 64 0) 1000 2000 3000 2 kw_ctxs kw_history kw1 kw_config kw_boot kw_run)
    as (Hb & Hl & _).
  split; [reflexivity|]. split; [exact (eq_sym (Hb 200 36))|exact Hl].
Defined.

Lemma delivery_order_witness :
  exists q1 e q2, queue 64 64 kw1 = q1 ++ e :: q2 /\ ki_signo (el_info e) = 36 /\ ki_value (el_info e) = 3 /\
    queue 64 64 (fst (kw_handle kw1)) = q1 ++ q2 /\ snd (kw_handle kw1) = true.
Proof.
  destruct (delivery_order 64 32 64 4 (ctz_from 64 0) 1000 2000 3000 2 kw_ctxs kw_history kw1 200 
    (mk_ctx [512] [0] no_info (no_action 64 64) 4 0 true) (fst (kw_handle kw1)) (snd (kw_handle kw1))
    kw_config kw_boot kw_run eq_refl eq_refl) as [(_ & Hq & _)|(q1 & e & q2 & a & Hq & _ & Hq' & _)].
  - unfold kw_handle. by destruct (z_sig_handle _ _ _ _ _ _ _ _ _ _).
  - exfalso. revert Hq. vm_compute. discriminate.
  - exists (take 2 (queue 64 64 kw1)), (nth 2 (queue 64 64 kw1) (zero_element 64 64)), (drop 3 (queue 64 64 kw1)).
    split_and!; reflexivity.
Defined.

Lemma actions_map_witness :
  let act := mk_kact (K_SIG_FUN 7) 5 0 [2 ^ 8 + 2 ^ 9] in
  let st' := fst (k_sig_action 64 32 64 1000 2000 3000 kw1 200 10 (Some act)) in
  lookup_action (signal_actions st') 200 10 = Some (mk_kact (K_SIG_FUN 7) 5 0 [2 ^ 9]).
Proof.
  intros act st'.
  destruct (actions_map 64 32 64 4 (ctz_from 64 0) 1000 2000 3000 2 kw_ctxs kw_history kw1 200 10 (Some act) st'
    (snd (k_sig_action 64 32 64 1000 2000 3000 kw1 200 10 (Some act)))
    kw_config kw_boot kw_run ltac:(lia) ltac:(lia)) as (_ & _ & Hl & _); [reflexivity|].
  rewrite Hl. reflexivity.
Defined.

(** ** sigaction over this kernel *)

(** What sigaction installs is what it reports, without the signals that
    cannot be masked. *)
Lemma sigaction_kernel w cancel SIZE N ctz term core canc acts cs h st sig SIGRTMIN SIGRTMAX SIG_DFL SIG_IGN a b c
    cur signo act st' old :
  ksig_config w cancel SIZE ctz -> (forall tid c, cs !! tid = Some c -> boot_ctx w SIZE c) ->
  ksig_run w cancel SIZE N ctz term core canc (ksig_init w SIZE N acts cs) h st -> cur <> 0 ->
  z_sig_from_posix cancel sig SIGRTMIN SIGRTMAX signo <= SIZE ->
  0 <= a -> 0 <= b -> 0 <= c -> a <> b -> a <> c -> b <> c -> SIG_DFL <> SIG_IGN -> sa_handler act <> SIG_DFL ->
  let kernel := fun st s x => k_sig_action w cancel SIZE term core canc st cur s x in
  let call := sigaction w cancel SIZE sig SIGRTMIN SIGRTMAX ctz SIG_DFL SIG_IGN (2 ^ a) (2 ^ b) (2 ^ c) kernel in
  call st signo (Some act) = (st', Ok old) ->
  exists st'', call st' signo None =
    (st'', Ok (mk_sigaction (sa_handler act) (Z.land (sa_flags act) (Z.lor (2 ^ a) (Z.lor (2 ^ b) (2 ^ c))))
                 (z_sig_set_to_posix w cancel SIZE sig SIGRTMIN SIGRTMAX ctz
                    (unmaskable_cleared (z_sig_set_from_posix w cancel SIZE sig SIGRTMIN SIGRTMAX ctz (sa_mask act)))))).
Proof.
  intros Hcf Hcs Hrun Hcur Hsz Ha Hb Hc Hab Hac Hbc Hdi Hh kernel call.
  destruct (ksig_reachable_ok _ _ _ _ _ _ _ _ Hcf acts cs Hcs h st Hrun) as (_ & _ & Hu).
  eapply (sigaction_roundtrip w cancel SIZE sig SIGRTMIN SIGRTMAX ctz SIG_DFL SIG_IGN (2 ^ a) (2 ^ b) (2 ^ c) kernel
    unmaskable_cleared st signo act st' old a b c); try done.
  intros x k' o Hx Hpos Hk. subst kernel. cbn beta in *.
  set (s := z_sig_from_posix cancel sig SIGRTMIN SIGRTMAX signo) in *.
  pose proof (action_spec w cancel SIZE term core canc st cur s (Some x) Hu Hcur ltac:(lia)) as Hsp. rewrite Hk in Hsp.
  destruct Hsp as (Hr & Hu' & Hl & _). unfold action_after in Hl. rewrite <- Hr in Hl.
  assert (Hnd : is_default x = false) by (unfold is_default; by destruct (kact_handler x)). rewrite Hnd in Hl.
  pose proof (action_spec w cancel SIZE term core canc k' cur s None Hu' Hcur ltac:(lia)) as Hsp.
  destruct (k_sig_action w cancel SIZE term core canc k' cur s None) as [k'' r]. destruct Hsp as (-> & _).
  exists k''. unfold action_reply. by rewrite Hl.
Qed.

(** ** Behaviours at the edges *)

(** The last real-time signal is ignored by default, where the others
    terminate. *)
Lemma last_rt_ignored SIZE term core canc : 35 <= SIZE ->
  z_sig_resolve 32 SIZE term core canc SIZE = K_SIG_IGN /\
  (35 < SIZE -> z_sig_resolve 32 SIZE term core canc (SIZE - 1) = K_SIG_FUN term).
Proof.
  intros Hs. unfold z_sig_resolve, K_SIG_NUM_RT, K_SIG_RTMIN.
  assert (Hn : forall n, 34 <= n -> bool_decide (n ∈ [1; 2; 9; 10; 12; 13; 14; 15; 26; 27]) = false /\
     bool_decide (n ∈ [3; 4; 5; 6; 7; 8; 11; 24; 25; 31]) = false /\ (n =? 32) = false).
  { intros n Hn. rewrite !bool_decide_eq_false, Z.eqb_neq, !elem_of_cons, elem_of_nil. lia. }
  split; [destruct (Hn SIZE ltac:(lia)) as (-> & -> & ->)|intros Hlt; destruct (Hn (SIZE - 1) ltac:(lia)) as (-> & -> & ->)].
  - rewrite (proj2 (Z.leb_le _ _)), (proj2 (Z.ltb_ge _ _)) by lia. done.
  - rewrite (proj2 (Z.leb_le _ _)), (proj2 (Z.ltb_lt _ _)) by lia. done.
Qed.

(** Two calls that both have searched before either writes choose the same
    unused element: both succeed, and the action of the first is gone. *)
Lemma action_slot_race :
  let act := mk_kact (K_SIG_FUN 7) 5 0 [0] in
  let search cur := action_loop 64 64 kw0 cur 10 cur 0 (signal_actions kw0) in
  search 100 = (signal_actions kw0, None) /\ search 200 = (signal_actions kw0, None) /\
  unused_loop 0 (signal_actions kw0) = Some 0%nat /\
  let l := action_store (action_store (signal_actions kw0) 0 100 10 act) 0 200 10 act in
  lookup_action l 100 10 = None /\ lookup_action l 200 10 = Some act.
Proof. by vm_compute. Qed.

(** A call that is refused has stored the action in force. *)
Lemma refused_action_stores :
  let act := mk_kact (K_SIG_FUN 7) 5 0 [0] in
  snd (k_sig_action 64 32 64 1000 2000 3000 kw0 200 9 (Some act)) = Err EINVAL /\
  z_sig_action_oact 64 32 64 1000 2000 3000 kw0 200 9 200 = Some (mk_kact K_SIG_DFL 0 0 [0]).
Proof. by vm_compute. Qed.

(** A signal that is ignored by default reports to be ignored, not to have
    the default action. *)
Lemma default_is_ignore :
  kact_handler <$> (match snd (k_sig_action 64 32 64 1000 2000 3000 kw0 200 17 None) with Ok a => Some a | Err _ => None end)
  = Some K_SIG_IGN.
Proof. reflexivity. Qed.

(** A handler interrupted by another signal leaves its own signal masked
    when it returns: there is one saved mask for all of them. *)
Definition kw_free : ksig := ksig_init 64 64 4 2 {[ 100 := kw_ctx [0]; 200 := kw_ctx [0] ]}.
Definition kw_catch (st : ksig) (s : Z) : ksig :=
  fst (k_sig_action 64 32 64 1000 2000 3000 st 200 s (Some (mk_kact (K_SIG_FUN 7) 5 0 [0]))).
Definition kw_return (run : k_handler -> k_sig_info -> ksig -> ksig) (st : ksig) : ksig :=
  z_sig_trampoline 64 32 64 1000 2000 3000 run st 200.
Definition kw_nested (h : k_handler) (i : k_sig_info) (st : ksig) : ksig :=
  kw_return (fun _ _ st => st) (fst (kw_handle (kw_queue st 12 0))).

Lemma nested_mask_lost :
  let st := kw_queue (kw_catch (kw_catch kw_free 10) 12) 10 0 in
  mask_of 64 64 st 200 = [0] /\
  mask_of 64 64 (kw_return (fun _ _ st => st) (fst (kw_handle st))) 200 = [0] /\
  mask_of 64 64 (kw_return kw_nested (fst (kw_handle st))) 200 = [2 ^ 9].
Proof. by vm_compute. Qed.

(** Signals of a thread that has ended stay: the queue is full for all, and a
    thread that is created at the same address gets them. *)
Definition kw_dead : ksig := set_ctx 200 (kill_ctx (mk_ctx [512] [0] no_info (no_action 64 64) 4 0 true)) kw1.

Lemma dead_signals_stay :
  let st := fst (k_sig_pending 64 64 4 kw_dead 100) in
  snd (k_sig_queue 64 64 4 st 100 100 10 0) = Err EAGAIN /\
  let again := fst (k_sig_mask (z_setup_new_thread 64 64 st 200) 200 K_SIG_SETMASK (Some [0])) in
  ki_value (fst (k_sig_current 64 64 (fst (kw_handle again)) 200)) = 3.
Proof. by vm_compute. Qed.

(** A wait whose time expires while it was woken for a signal of another thread
    leaves its loop with the 0 of k_poll, and the assertion that follows
    fails. *)
Lemma expired_wait_asserts :
  k_sig_timedwait 64 32 64 4 (ctz_from 64 0) [fun st => (st, Some (true, 200), true)] kw1 100 [2 ^ 9] = Some (kw1, None).
Proof. by vm_compute. Qed.

(** Delivery stops at a signal that is ignored: a later one waits for the
    next system call. *)
Lemma ignored_stops_delivery :
  let st := kw_queue (kw_queue (kw_catch kw_free 10) 17 0) 10 0 in
  match z_syscall_sig_check 64 32 64 4 (ctz_from 64 0) 1000 2000 3000 (fun _ _ st => st) 5 st 200 with
  | Some st' => map (fun e => ki_signo (el_info e)) (queue 64 64 st') = [10]
  | None => False
  end.
Proof. by vm_compute. Qed.
