(* ===== verification/ThreadLife.v ===== *)
(** * The life of a thread
    (kernel/thread.c, kernel/sched.c, kernel/signal.c and lib/os/thread.c of the patches
    k-thread-result, k-thread-cancel, k-thread-cleanup, k-thread-detach and sys-thread;
    threads_base/pthread.c)

    Creation from a pool, cancellation, cleanup handlers, exit, join, detach
    and the recycling of thread objects and stacks.  Kernel threads call the
    kernel directly: the wrapper of a call that is a cancellation point looks
    for a request first.  A call is one step, but for k_thread_exit, whose
    calls are steps of their own between which other threads run.  k_thread_rejoin
    waits as its documentation says; signals other than the one that cancels
    are [KSignal]'s.

    The stack of a thread is not stored: the recycler looks for it with
    sys_thread_stack_obj, from what the kernel records of the stack.  The
    lookup by physical address of CONFIG_THREAD_STACK_MEM_MAPPED is not
    modelled. *)

From stdpp Require Import base list gmap.
From Stdlib Require Import ZArith Lia.
From S2P Require Import Prelude.

Local Open Scope Z_scope.

Definition K_THREAD_CANCELLED : Z := -1.

(** Where a thread is: in its own code; in k_thread_exit with a result, after
    cancellation was disabled, after its request, after its result was set;
    in z_thread_cancel_actuate; asleep in k_thread_rejoin; woken there; at
    its end. *)
Inductive phase :=
  | Running
  | Exit_disabled (r : Z) | Exit_requested (r : Z) | Exit_result (r : Z)
  | Unwinding
  | Joining (u : Z) | Joined (u : Z)
  | Ended.

#[export] Instance phase_eq_dec : EqDecision phase.
Proof. solve_decision. Defined.

(** What k_thread_create records of the stack: stack_info.start and
    stack_info.delta, and stack_obj with CONFIG_USERSPACE. *)
Record stack_info := mk_stack_info { si_start : Z; si_delta : Z; si_obj : Z }.

(** What struct k_thread keeps for this: the bits K_DETACHED and
    K_CANCEL_ASYNC of user_options, whether K_SIG_CANCEL is masked and whether
    it is queued, cancel_pending, result, the cleanup handlers, the stack. *)
Record thread := mk_thread {
  t_phase : phase;
  t_detached : bool;
  t_async : bool;
  t_masked : bool;
  t_sig : bool;
  t_pending : bool;
  t_result : Z;
  t_cleanup : list (Z * Z);
  t_stack : stack_info;
}.

(** The threads with their objects, the objects and the stacks in use,
    thread_pool_free_list, and the stacks that sys_thread_stack_alloc took from
    the heap because they are larger than those of the pool: no pool knows
    them. *)
Record sys := mk_sys {
  threads : gmap Z thread;
  thread_pool : gset Z;
  stack_pool : gset Z;
  free_list : list Z;
  large_stacks : gset Z;
}.

Definition set_phase (p : phase) (t : thread) : thread :=
  mk_thread p (t_detached t) (t_async t) (t_masked t) (t_sig t) (t_pending t) (t_result t) (t_cleanup t) (t_stack t).
Definition set_detached (t : thread) : thread :=
  mk_thread (t_phase t) true (t_async t) (t_masked t) (t_sig t) (t_pending t) (t_result t) (t_cleanup t) (t_stack t).
Definition set_async (b : bool) (t : thread) : thread :=
  mk_thread (t_phase t) (t_detached t) b (t_masked t) (t_sig t) (t_pending t) (t_result t) (t_cleanup t) (t_stack t).
Definition set_masked (b : bool) (t : thread) : thread :=
  mk_thread (t_phase t) (t_detached t) (t_async t) b (t_sig t) (t_pending t) (t_result t) (t_cleanup t) (t_stack t).
Definition set_sig (b : bool) (t : thread) : thread :=
  mk_thread (t_phase t) (t_detached t) (t_async t) (t_masked t) b (t_pending t) (t_result t) (t_cleanup t) (t_stack t).
Definition set_pending (b : bool) (t : thread) : thread :=
  mk_thread (t_phase t) (t_detached t) (t_async t) (t_masked t) (t_sig t) b (t_result t) (t_cleanup t) (t_stack t).
Definition set_result (r : Z) (t : thread) : thread :=
  mk_thread (t_phase t) (t_detached t) (t_async t) (t_masked t) (t_sig t) (t_pending t) r (t_cleanup t) (t_stack t).
Definition set_cleanup (l : list (Z * Z)) (t : thread) : thread :=
  mk_thread (t_phase t) (t_detached t) (t_async t) (t_masked t) (t_sig t) (t_pending t) (t_result t) l (t_stack t).

Definition set_thread (u : Z) (t : thread) (s : sys) : sys :=
  mk_sys (<[u := t]> (threads s)) (thread_pool s) (stack_pool s) (free_list s) (large_stacks s).

(** ** Cancellation *)

Definition z_thread_cancel_is_enabled (t : thread) : bool := negb (t_masked t).

(** [true]: the thread has begun z_thread_cancel_actuate. *)
Definition z_thread_cancel_try_actuate (t : thread) : thread * bool :=
  if t_masked t then (t, false)
  else if negb (t_pending t) then (t, false)
  else (set_phase Unwinding (set_pending false t), true).

Definition z_sig_handler_cancel (t : thread) : thread * bool :=
  if negb (t_pending t) then (t, false) else (set_phase Unwinding (set_pending false t), true).

(** In a thread that runs, outside of interrupts. *)
Definition z_syscall_cancel_check (t : thread) : thread * bool :=
  if t_async t then (t, false) else z_thread_cancel_try_actuate t.

Definition k_thread_testcancel (t : thread) : thread * bool := z_syscall_cancel_check t.
Definition pthread_testcancel (t : thread) : thread * bool := k_thread_testcancel t.

(** For the thread itself; [queued] is whether k_sig_queue has a block for
    the signal, which is then delivered on its return. *)
Definition z_thread_cancel_deliver_pending (t : thread) (queued : bool) : thread * bool :=
  if negb (t_pending t) then (t, false)
  else if negb (z_thread_cancel_is_enabled t) then (t, false)
  else if t_async t then
    (if queued then z_sig_handler_cancel t else (t, false))
  else z_thread_cancel_try_actuate t.

(** For another thread, or itself; NULL is not the handle of a thread.  A
    thread that is dead is ESRCH.  [queued] as above: the signal waits until
    the thread runs. *)
Definition k_thread_cancel (s : sys) (u : Z) (queued : bool) : sys * res unit :=
  match threads s !! u with
  | None => (s, Err ESRCH)
  | Some t =>
      match t_phase t with
      | Ended => (s, Err ESRCH)
      | _ =>
          let first := negb (t_pending t) in
          let t1 := set_pending true t in
          let t2 := if first then set_result K_THREAD_CANCELLED t1 else t1 in
          let deliver_async := first && t_async t2 && z_thread_cancel_is_enabled t2 in
          if deliver_async then
            if queued then (set_thread u (set_sig true t2) s, Ok tt) else (set_thread u t2 s, Err EAGAIN)
          else (set_thread u t2 s, Ok tt)
      end
  end.

(** The new state, if any, and the old one; [true] when the thread unwinds. *)
Definition k_thread_cancel_qstate (t : thread) (new_state : option bool) (queued : bool) : thread * bool * bool :=
  let enabled := z_thread_cancel_is_enabled t in
  match new_state with
  | Some true => let '(t', u) := z_thread_cancel_deliver_pending (set_masked false t) queued in (t', enabled, u)
  | Some false => (set_masked true t, enabled, false)
  | None => (t, enabled, false)
  end.

Definition k_thread_cancel_qtype (t : thread) (new_type : option bool) (queued : bool) : thread * bool * bool :=
  let async := t_async t in
  match new_type with
  | Some true => let '(t', u) := z_thread_cancel_deliver_pending (set_async true t) queued in (t', async, u)
  | Some false => (set_async false t, async, false)
  | None => (t, async, false)
  end.

(** ** Cleanup handlers *)

Definition k_thread_cleanup_push (t : thread) (routine arg : Z) : thread := set_cleanup ((routine, arg) :: t_cleanup t) t.

(** The handler that is taken off; it is called when [execute] is not 0. *)
Definition k_thread_cleanup_pop (t : thread) (execute : bool) : thread * bool * list (Z * Z) :=
  match t_cleanup t with
  | [] => (t, false, [])
  | c :: l => (set_cleanup l t, true, if execute then [c] else [])
  end.

(** The macros of pthread.h: the block between them runs with the handler on
    top. *)
Definition pthread_cleanup_push (t : thread) (rtn arg : Z) : thread := k_thread_cleanup_push t rtn arg.
Definition pthread_cleanup_pop (t : thread) (ex : bool) : thread * list (Z * Z) :=
  let '(t, _, called) := k_thread_cleanup_pop t ex in (t, called).

(** A block whose body leaves the handlers as it found them ends with those of
    before, and has called its own handler if it was asked to. *)
Lemma cleanup_block t rtn arg body ex :
  t_cleanup (body (pthread_cleanup_push t rtn arg)) = t_cleanup (pthread_cleanup_push t rtn arg) ->
  let r := pthread_cleanup_pop (body (pthread_cleanup_push t rtn arg)) ex in
  t_cleanup (fst r) = t_cleanup t /\ snd r = if ex then [(rtn, arg)] else [].
Proof.
  intros Hb. unfold pthread_cleanup_pop, k_thread_cleanup_pop. rewrite Hb. simpl. by destruct (body _).
Qed.

(** ** Recycling *)

(** The first address of a list that passes a test. *)
Fixpoint first_of (p : Z -> bool) (l : list Z) : option Z :=
  match l with
  | [] => None
  | a :: l' => if p a then Some a else first_of p l'
  end.

(** The addresses sys_thread_stack_obj tries, in order. *)
Definition stack_candidates (userspace : bool) (reserved : Z) (i : stack_info) : list Z :=
  if userspace then [si_obj i]
  else [si_start i - reserved; si_start i] ++
       (if 0 <? si_delta i then [si_start i - reserved - si_delta i; si_start i - si_delta i] else []).

(** The configuration, where the stacks of the pool may lie, and the stack of
    the first thread, which lies elsewhere. *)
Class StackLayout := {
  cfg_userspace : bool;
  K_KERNEL_STACK_RESERVED : Z;
  pool_mem : Z -> bool;
  main_stack : stack_info;
  main_stack_outside : first_of pool_mem (stack_candidates cfg_userspace K_KERNEL_STACK_RESERVED main_stack) = None;
}.

Section calls.
Context {layout : StackLayout}.

(** sys_elastipool_check accepts the stacks in use. *)
Definition sys_thread_stack_obj (s : sys) (t : thread) : option Z :=
  first_of (fun a => bool_decide (a ∈ stack_pool s)) (stack_candidates cfg_userspace K_KERNEL_STACK_RESERVED (t_stack t)).

Definition sys_thread_recycle_one (s : sys) (u : Z) : sys :=
  let stacks := match threads s !! u with
                | Some t => match sys_thread_stack_obj s t with
                            | Some k => if bool_decide (k ∈ stack_pool s) then stack_pool s ∖ {[k]} else stack_pool s
                            | None => stack_pool s
                            end
                | None => stack_pool s
                end in
  mk_sys (threads s) (if bool_decide (u ∈ thread_pool s) then thread_pool s ∖ {[u]} else thread_pool s) stacks (free_list s)
    (large_stacks s).

Definition is_ended (s : sys) (u : Z) : bool :=
  match threads s !! u with Some t => bool_decide (t_phase t = Ended) | None => true end.

Definition set_free (l : list Z) (s : sys) : sys :=
  mk_sys (threads s) (thread_pool s) (stack_pool s) l (large_stacks s).

(** The loop over the free list, whose length is taken before. *)
Fixpoint recycle_loop (n : nat) (s : sys) : sys :=
  match n, free_list s with
  | S n', u :: l =>
      let s := set_free l s in
      if negb (is_ended s u) then recycle_loop n' (set_free (l ++ [u]) s)
      else recycle_loop n' (sys_thread_recycle_one s u)
  | _, _ => s
  end.

Definition sys_thread_recycle (s : sys) : sys := recycle_loop (length (free_list s)) s.

(** [cur] destroys [u]: itself, when it is detached and ends, or a thread
    that has ended. *)
Definition sys_thread_destroy (s : sys) (cur u : Z) : sys :=
  if negb (u =? cur) then sys_thread_recycle_one s u else set_free (free_list s ++ [u]) s.

(** ** Creation *)

(** The context of a new kernel thread: cancellation is masked, with all
    other signals. *)
Definition new_thread (detached : bool) (stack : stack_info) : thread :=
  mk_thread Running detached false true false false 0 [] stack.

(** The stack the caller brings, or the outcome of sys_thread_stack_alloc: a
    stack of the pool, if it has one, or one from the heap for a size above
    that of the pool's. *)
Inductive stack_arg := Caller_stack | Pool_stack (k : option Z) | Large_stack (k : Z).

(** [block] is what sys_elastipool_alloc gives, [info] what the kernel records
    of the stack. *)
Definition sys_thread_create (s : sys) (block : option Z) (stack : stack_arg) (info : stack_info) (detached : bool) : sys * res Z :=
  let s := sys_thread_recycle s in
  match block with
  | None => (s, Err ENOMEM)
  | Some u =>
      let make stacks large :=
        (mk_sys (<[u := new_thread detached info]> (threads s)) (thread_pool s ∪ {[u]}) stacks (free_list s) large, Ok u) in
      match stack with
      | Caller_stack => make (stack_pool s) (large_stacks s)
      | Pool_stack (Some k) => make (stack_pool s ∪ {[k]}) (large_stacks s)
      | Pool_stack None => (s, Err ENOMEM)
      | Large_stack k => make (stack_pool s) (large_stacks s ∪ {[k]})
      end
  end.

(** ** Join and detach *)

(** The sleepers on a thread that ends are woken. *)
Definition wake (u : Z) (t : thread) : thread :=
  match t_phase t with Joining v => if v =? u then set_phase (Joined u) t else t | _ => t end.

(** k_thread_abort of the thread that runs. *)
Definition thread_abort (s : sys) (cur : Z) (t : thread) : sys :=
  let s := set_thread cur (set_phase Ended t) (mk_sys (wake cur <$> threads s) (thread_pool s) (stack_pool s) (free_list s) (large_stacks s)) in
  if t_detached t then sys_thread_destroy s cur cur else s.

(** The result of the thread, and its object given back. *)
Definition z_thread_epilogue (s : sys) (cur u : Z) : sys * res Z :=
  match threads s !! u with
  | None => (s, Err EINVAL)
  | Some t => (sys_thread_destroy s cur u, Ok (t_result t))
  end.

(** With K_FOREVER; [None] when the caller sleeps. *)
Definition k_thread_rejoin (s : sys) (cur u : Z) : sys * option (res Z) :=
  match threads s !! u, threads s !! cur with
  | Some t, Some c =>
      if t_detached t then (s, Some (Err EINVAL))
      else if bool_decide (t_phase t = Ended) then let '(s', r) := z_thread_epilogue s cur u in (s', Some r)
      else if (u =? cur) || bool_decide (t_phase t = Joining cur) then (s, Some (Err EDEADLK))
      else (set_thread cur (set_phase (Joining u) c) s, None)
  | _, _ => (s, Some (Err EINVAL))
  end.

Definition k_thread_detach (s : sys) (cur u : Z) : sys * res unit :=
  match threads s !! u with
  | None => (s, Err EINVAL)
  | Some t =>
      if t_detached t then (s, Err EINVAL)
      else
        let s := set_thread u (set_detached t) s in
        (if bool_decide (t_phase t = Ended) then sys_thread_destroy s cur u else s, Ok tt)
  end.

(** ** Exit *)

(** The first three calls of k_thread_exit: cancellation is disabled, the
    thread requests its own, and the result is set. *)
Definition exit_disable (r : Z) (t : thread) : thread :=
  set_phase (Exit_disabled r) (fst (fst (k_thread_cancel_qstate t (Some false) true))).
(** pthread_exit, and the return of the start routine, enter it. *)
Definition pthread_exit (retval : Z) (t : thread) : thread := exit_disable retval t.
Definition zephyr_thread_wrapper (result : Z) (t : thread) : thread := exit_disable result t.

Definition exit_set (r : Z) (t : thread) : thread := set_phase (Exit_result r) (set_result r t).

(** The last: cancellation is enabled, which delivers the request; where it
    was not delivered the thread is aborted. *)
Definition exit_enable (s : sys) (cur : Z) (t : thread) (queued : bool) : sys :=
  let '(t', _, unwinds) := k_thread_cancel_qstate t (Some true) queued in
  if unwinds then set_thread cur t' s else thread_abort s cur t'.

(** ** Steps

    The events of a run: what the program asks for, and what it is told. *)

Inductive event :=
  | ECreate (u : Z) (detached : bool)   (** a thread was created *)
  | EExit (u r : Z)                     (** pthread_exit, or the return of the start routine *)
  | ECancel (u : Z)                     (** a cancellation request that was the first to be pending *)
  | EActed (u : Z)                      (** the thread begins to unwind *)
  | EPush (u : Z) (c : Z * Z) | EPop (u : Z) (** pthread_cleanup_push, pthread_cleanup_pop *)
  | ERan (u : Z) (c : Z * Z)            (** a cleanup handler was called while the thread unwinds *)
  | EAborted (u : Z)                    (** the thread ended without unwinding *)
  | EEnded (u : Z)
  | EClaim (u : Z)                      (** a join that waits or succeeds, or a detach *)
  | EJoined (u r : Z).                  (** a join returned the result *)

(** The stack of the pool a thread runs on: the first of the addresses that is
    of the memory of the pool. *)
Definition pool_stack_of (i : stack_info) : option Z :=
  first_of pool_mem (stack_candidates cfg_userspace K_KERNEL_STACK_RESERVED i).
Definition pool_stack (t : thread) : option Z := pool_stack_of (t_stack t).

(** What the kernel and the pools promise of the stack of a new thread: one of
    the pool is not in use, and the kernel records its address and the start of
    its buffer; the others do not lie in the memory of the pool. *)
Definition stack_ok (s : sys) (stack : stack_arg) (i : stack_info) : Prop :=
  match stack with
  | Pool_stack (Some k) =>
      (k ∉ stack_pool s) /\ pool_mem k = true /\ si_obj i = k /\ si_start i = k + K_KERNEL_STACK_RESERVED
  | Pool_stack None => True
  | Caller_stack | Large_stack _ => pool_stack_of i = None
  end.

(** [main] is the first thread, whose object is not of the pool. *)
Section life.
Context (main : Z).

(** A thread that runs, after the test at the entry of a cancellation point. *)
Definition calls (s : sys) (cur : Z) (t : thread) : Prop :=
  threads s !! cur = Some t /\ t_phase t = Running /\ z_syscall_cancel_check t = (t, false).

Definition unwound (cur : Z) (b : bool) : list event := if b then [EActed cur] else [].

Inductive step : sys -> list event -> sys -> Prop :=
  | step_create s cur t block stack info detached s' r :
      calls s cur t ->
      (forall u, block = Some u -> (u ∉ thread_pool (sys_thread_recycle s)) /\ u <> main) ->
      stack_ok (sys_thread_recycle s) stack info ->
      sys_thread_create s block stack info detached = (s', r) ->
      step s (match r with Ok u => [ECreate u detached] | Err _ => [] end) s'
  | step_recycle s : step s [] (sys_thread_recycle s)
  | step_point s cur t t' : threads s !! cur = Some t -> t_phase t = Running ->
      z_syscall_cancel_check t = (t', true) -> step s [EActed cur] (set_thread cur t' s)
  | step_state s cur t b t' old u queued : calls s cur t ->
      k_thread_cancel_qstate t (Some b) queued = (t', old, u) -> step s (unwound cur u) (set_thread cur t' s)
  | step_type s cur t b t' old u queued : calls s cur t ->
      k_thread_cancel_qtype t (Some b) queued = (t', old, u) -> step s (unwound cur u) (set_thread cur t' s)
  | step_push s cur t routine arg : calls s cur t ->
      step s [EPush cur (routine, arg)] (set_thread cur (k_thread_cleanup_push t routine arg) s)
  | step_pop s cur t execute : calls s cur t ->
      step s [EPop cur] (set_thread cur (fst (fst (k_thread_cleanup_pop t execute))) s)
  | step_cancel s cur c u t queued : threads s !! cur = Some c -> t_phase c = Running -> threads s !! u = Some t ->
      step s (if negb (t_pending t) && negb (bool_decide (t_phase t = Ended)) then [ECancel u] else [])
        (fst (k_thread_cancel s u queued))
  | step_deliver s cur t t' b : threads s !! cur = Some t -> t_phase t = Running \/ t_phase t = Unwinding ->
      t_sig t = true -> t_masked t = false -> z_sig_handler_cancel (set_sig false t) = (t', b) ->
      step s (unwound cur (b && bool_decide (t_phase t = Running))) (set_thread cur t' s)
  | step_detach s cur t u v : calls s cur t -> threads s !! u = Some v -> u ∈ thread_pool s ->
      step s (if t_detached v then [] else [EClaim u]) (fst (k_thread_detach s cur u))
  | step_join s cur t u v s' r : calls s cur t -> threads s !! u = Some v -> u ∈ thread_pool s ->
      k_thread_rejoin s cur u = (s', r) ->
      step s (match r with Some (Ok x) => [EClaim u; EJoined u x] | Some (Err _) => [] | None => [EClaim u] end) s'
  | step_joined s cur t u s' x : threads s !! cur = Some t -> t_phase t = Joined u ->
      z_thread_epilogue (set_thread cur (set_phase Running t) s) cur u = (s', Ok x) -> step s [EJoined u x] s'
  | step_exit s cur t r : calls s cur t -> step s [EExit cur r] (set_thread cur (pthread_exit r t) s)
  | step_return s cur t r : calls s cur t -> step s [EExit cur r] (set_thread cur (zephyr_thread_wrapper r t) s)
  | step_exit_request s cur t r queued : threads s !! cur = Some t -> t_phase t = Exit_disabled r ->
      step s [] (let s' := fst (k_thread_cancel s cur queued) in
                 match threads s' !! cur with Some t' => set_thread cur (set_phase (Exit_requested r) t') s' | None => s' end)
  | step_exit_set s cur t r : threads s !! cur = Some t -> t_phase t = Exit_requested r ->
      step s [] (set_thread cur (exit_set r t) s)
  | step_exit_enable s cur t r queued : threads s !! cur = Some t -> t_phase t = Exit_result r ->
      step s (if snd (k_thread_cancel_qstate t (Some true) queued) then [EActed cur] else [EAborted cur; EEnded cur])
        (exit_enable s cur t queued)
  | step_unwind s cur t t1 : threads s !! cur = Some t -> t_phase t = Unwinding ->
      t1 = fst (z_syscall_cancel_check t) ->
      step s (match t_cleanup t1 with c :: _ => [ERan cur c] | [] => [EEnded cur] end)
        (match k_thread_cleanup_pop t1 true with
         | (t2, true, _) => set_thread cur t2 s
         | (t2, false, _) => thread_abort s cur t2
         end).

(** What a history says of a thread since it was created: whether its join
    or detach was asked for, the value it exits with, whether a request
    came, whether it unwinds, whether a request came after that, whether it
    ended without unwinding, its cleanup handlers and those that have run. *)
Record story := mk_story {
  f_claimed : bool; f_exit : option Z; f_requested : bool; f_acted : bool; f_late : bool; f_aborted : bool;
  f_stack : list (Z * Z); f_ran : list (Z * Z);
}.

Definition fresh (detached : bool) : story := mk_story detached None false false false false [] [].

Definition story_step (u : Z) (f : story) (e : event) : story :=
  let '(mk_story cl fa rq ac la ab st ra) := f in
  let on v x := if v =? u then x else f in
  match e with
  | ECreate v d => on v (fresh d)
  | EExit v r => on v (mk_story cl (Some r) rq ac la ab st ra)
  | ECancel v => on v (mk_story cl fa true ac (la || ac) ab st ra)
  | EActed v => on v (mk_story cl fa rq true la ab st ra)
  | EPush v c => on v (mk_story cl fa rq ac la ab (c :: st) ra)
  | EPop v => on v (mk_story cl fa rq ac la ab (tail st) ra)
  | ERan v c => on v (mk_story cl fa rq ac la ab st (ra ++ [c]))
  | EAborted v => on v (mk_story cl fa rq ac la true st ra)
  | EEnded _ => f
  | EClaim v => on v (mk_story true fa rq ac la ab st ra)
  | EJoined _ _ => f
  end.

Definition story_of (u : Z) (h : list event) : story := foldl (story_step u) (fresh true) h.

(** A program joins or detaches a thread once. *)
Inductive run (s : sys) : list event -> sys -> Prop :=
  | run_nil : run s [] s
  | run_snoc h s1 ev s2 : run s h s1 -> step s1 ev s2 ->
      (forall u, EClaim u ∈ ev -> f_claimed (story_of u h) = false) -> run s (h ++ ev) s2.

(** The first thread runs; nothing is in the pools. *)
Definition boot : sys := mk_sys {[ main := new_thread true main_stack ]} ∅ ∅ [] ∅.

(** ** What a thread keeps, against its story *)

Definition ends_with (f : story) : Z := if f_late f then K_THREAD_CANCELLED else default K_THREAD_CANCELLED (f_exit f).

Definition thread_ok (f : story) (t : thread) : Prop :=
  match t_phase t with
  | Running | Joining _ | Joined _ =>
      f_exit f = None /\ f_acted f = false /\ f_late f = false /\ f_aborted f = false /\ f_ran f = [] /\ f_stack f = t_cleanup t /\
      t_pending t = f_requested f /\ (t_pending t = true -> t_result t = K_THREAD_CANCELLED)
  | Exit_disabled r =>
      f_exit f = Some r /\ f_acted f = false /\ f_late f = false /\ f_aborted f = false /\ f_ran f = [] /\ f_stack f = t_cleanup t /\
      t_masked t = true
  | Exit_requested r =>
      f_exit f = Some r /\ f_acted f = false /\ f_late f = false /\ f_aborted f = false /\ f_ran f = [] /\ f_stack f = t_cleanup t /\
      t_masked t = true /\ t_pending t = true
  | Exit_result r =>
      f_exit f = Some r /\ f_acted f = false /\ f_late f = false /\ f_aborted f = false /\ f_ran f = [] /\ f_stack f = t_cleanup t /\
      t_masked t = true /\ t_pending t = true /\ t_result t = r
  | Unwinding =>
      (f_exit f = None -> f_requested f = true) /\ f_acted f = true /\ f_aborted f = false /\ f_stack f = f_ran f ++ t_cleanup t /\
      t_result t = ends_with f /\ (f_late f = false -> t_pending t = false)
  | Ended =>
      (f_exit f = None -> f_requested f = true) /\ t_result t = ends_with f /\
      if f_aborted f then f_late f = false /\ f_ran f = [] /\ f_exit f <> None else f_ran f = f_stack f
  end.

Definition about (e : event) : Z :=
  match e with
  | ECreate u _ | EExit u _ | ECancel u | EActed u | EPush u _ | EPop u | ERan u _ | EAborted u | EEnded u | EClaim u
  | EJoined u _ => u
  end.

Definition stories_ok (f : Z -> story) (s : sys) : Prop := forall u t, threads s !! u = Some t -> thread_ok (f u) t.
Definition extend (f : Z -> story) (ev : list event) (u : Z) : story := foldl (story_step u) (f u) ev.

Lemma story_step_other u f e : about e <> u -> story_step u f e = f.
Proof.
  intros Hne. destruct f, e; cbn in *; try done; by rewrite (proj2 (Z.eqb_neq _ _)).
Qed.

Lemma extend_other f ev u : (forall e, e ∈ ev -> about e <> u) -> extend f ev u = f u.
Proof.
  unfold extend. generalize (f u). induction ev as [|e ev IH]; intros x Hne; [done|]. cbn [foldl].
  rewrite story_step_other by (apply Hne; left). apply IH. intros. apply Hne. by right.
Qed.

(** A step that changes one thread and whose events are about it. *)
Lemma one_thread_ok f ev s u t' p k l lg :
  stories_ok f s -> (forall e, e ∈ ev -> about e = u) -> thread_ok (extend f ev u) t' ->
  stories_ok (extend f ev) (mk_sys (<[u := t']> (threads s)) p k l lg).
Proof.
  intros Hs Hev Ht v t Hv. cbn in Hv. rewrite lookup_insert_Some in Hv. destruct Hv as [[<- <-]|[Hne Hv]]; [done|].
  rewrite extend_other; [by apply Hs|]. intros e He Hab. by rewrite (Hev e He) in Hab.
Qed.

Lemma same_threads_ok f s s' : threads s' = threads s -> stories_ok f s -> stories_ok f s'.
Proof. intros Heq Hs u t Hu. apply Hs. by rewrite <- Heq. Qed.

Lemma recycle_one_threads s u : threads (sys_thread_recycle_one s u) = threads s.
Proof. done. Qed.

Lemma recycle_loop_threads n : forall s, threads (recycle_loop n s) = threads s.
Proof.
  induction n as [|n IH]; intros s; cbn; [done|]. destruct (free_list s) as [|u l]; [done|].
  by destruct (negb _); rewrite IH.
Qed.

Lemma recycle_threads s : threads (sys_thread_recycle s) = threads s.
Proof. apply recycle_loop_threads. Qed.

Lemma destroy_threads s cur u : threads (sys_thread_destroy s cur u) = threads s.
Proof. unfold sys_thread_destroy. by destruct (negb _). Qed.

Lemma wake_ok f u t : thread_ok f (wake u t) <-> thread_ok f t.
Proof. unfold wake, thread_ok. destruct t as [[] ? ? ? ? ? ? ? ?]; cbn; try done. by destruct (_ =? _). Qed.

(** Acting on a request, or running on. *)
Lemma act_ok f u t : thread_ok f t -> t_phase t = Running -> t_pending t = true ->
  thread_ok (story_step u f (EActed u)) (set_phase Unwinding (set_pending false t)).
Proof.
  destruct t as [ph d a m si p r c st], f. cbn. intros Hf -> ->. rewrite Z.eqb_refl. cbn in Hf.
  destruct Hf as (-> & -> & -> & -> & -> & -> & <- & Hr). by rewrite Hr.
Qed.

Lemma try_actuate_ok f u t t' b : thread_ok f t -> t_phase t = Running -> z_thread_cancel_try_actuate t = (t', b) ->
  thread_ok (foldl (story_step u) f (unwound u b)) t'.
Proof.
  intros Hf Hp. unfold z_thread_cancel_try_actuate. destruct (t_masked t); [by intros [= <- <-]|].
  destruct (t_pending t) eqn:Hpe; cbn [negb]; intros [= <- <-]; [|done]. by apply act_ok.
Qed.

Lemma deliver_pending_ok f u t t' b q : thread_ok f t -> t_phase t = Running ->
  z_thread_cancel_deliver_pending t q = (t', b) -> thread_ok (foldl (story_step u) f (unwound u b)) t'.
Proof.
  intros Hf Hp. unfold z_thread_cancel_deliver_pending. destruct (t_pending t) eqn:Hpe; cbn [negb]; [|by intros [= <- <-]].
  destruct (negb _); [by intros [= <- <-]|]. destruct (t_async t); [|by apply try_actuate_ok].
  destruct q; [|by intros [= <- <-]]. unfold z_sig_handler_cancel. rewrite Hpe. cbn [negb]. intros [= <- <-]. by apply act_ok.
Qed.

(** Flags a story says nothing of. *)
Lemma flags_ok f t : thread_ok f t -> t_phase t = Running ->
  (forall b, thread_ok f (set_masked b t)) /\ (forall b, thread_ok f (set_async b t)) /\ (forall b, thread_ok f (set_sig b t)).
Proof. destruct t as [ph d a m si p r c st]. cbn. intros Hf ->. done. Qed.

Lemma qstate_ok f u t nw q t' old b : thread_ok f t -> t_phase t = Running ->
  k_thread_cancel_qstate t nw q = (t', old, b) -> thread_ok (foldl (story_step u) f (unwound u b)) t'.
Proof.
  intros Hf Hp. destruct (flags_ok f t Hf Hp) as [Hm _]. unfold k_thread_cancel_qstate. destruct nw as [[|]|].
  - destruct (z_thread_cancel_deliver_pending _ _) as [t1 b1] eqn:Hd. intros [= <- <- <-]. exact (deliver_pending_ok _ _ _ _ _ _ (Hm _) Hp Hd).
  - intros [= <- <- <-]. apply Hm.
  - by intros [= <- <- <-].
Qed.

Lemma qtype_ok f u t nw q t' old b : thread_ok f t -> t_phase t = Running ->
  k_thread_cancel_qtype t nw q = (t', old, b) -> thread_ok (foldl (story_step u) f (unwound u b)) t'.
Proof.
  intros Hf Hp. destruct (flags_ok f t Hf Hp) as (_ & Hm & _). unfold k_thread_cancel_qtype. destruct nw as [[|]|].
  - destruct (z_thread_cancel_deliver_pending _ _) as [t1 b1] eqn:Hd. intros [= <- <- <-]. exact (deliver_pending_ok _ _ _ _ _ _ (Hm _) Hp Hd).
  - intros [= <- <- <-]. apply Hm.
  - by intros [= <- <- <-].
Qed.

(** A request reaches a thread wherever it is. *)
Definition requested (t : thread) : thread :=
  if t_pending t then set_pending true t else set_result K_THREAD_CANCELLED (set_pending true t).

Lemma request_ok f u t b : thread_ok f t -> t_phase t <> Ended ->
  thread_ok (foldl (story_step u) f (if negb (t_pending t) then [ECancel u] else [])) (if b : bool then set_sig true (requested t) else requested t).
Proof.
  intros Hf Hne. assert (Hs : forall f t, thread_ok f t -> thread_ok f (set_sig true t)) by (intros f' t'; by destruct t' as [[] ? ? ? ? ? ? ? ?]).
  enough (thread_ok (foldl (story_step u) f (if negb (t_pending t) then [ECancel u] else [])) (requested t)) by (destruct b; auto).
  unfold requested. destruct t as [ph d a m si p r c st], f as [cl fa rq ac la ab sk ra]. cbn in *. unfold thread_ok in *. cbn in *.
  destruct p; cbn; rewrite ?Z.eqb_refl; destruct ph; cbn in *; destruct_and?; subst; try done.
  split_and!; try done; unfold ends_with; cbn; by rewrite orb_true_r.
Qed.

(** Events that say nothing of how a thread ends. *)
Definition silent (e : event) : bool :=
  match e with EClaim _ | EEnded _ | EJoined _ _ => true | _ => false end.

Lemma silent_step u f e t : silent e = true -> thread_ok (story_step u f e) t <-> thread_ok f t.
Proof.
  destruct f, e; try done; intros _; cbn [story_step]; destruct (_ =? _); try done.
Qed.

Lemma silent_ok f ev s : forallb silent ev = true -> stories_ok (extend f ev) s <-> stories_ok f s.
Proof.
  intros Hev. assert (H : forall u g t, thread_ok (foldl (story_step u) g ev) t <-> thread_ok g t).
  { intros u. induction ev as [|e ev IH]; intros g t; [done|]. cbn in Hev |- *. apply andb_prop in Hev as [He Hev].
    rewrite IH by done. by apply silent_step. }
  unfold stories_ok, extend. split; intros Hs u t Hu; apply (H u (f u)); auto.
Qed.

Lemma set_thread_ok f ev s u t' :
  stories_ok f s -> (forall e, e ∈ ev -> about e = u) -> thread_ok (extend f ev u) t' -> stories_ok (extend f ev) (set_thread u t' s).
Proof. apply one_thread_ok. Qed.

Lemma unwound_about u b : forall e, e ∈ unwound u b -> about e = u.
Proof. destruct b; cbn; intros e He; [by apply list_elem_of_singleton in He; subst | by apply not_elem_of_nil in He]. Qed.

Lemma single_about x u : about x = u -> forall e, e ∈ [x] -> about e = u.
Proof. by intros <- e ->%list_elem_of_singleton. Qed.

Lemma abort_ok f ev s u t :
  stories_ok f s -> (forall e, e ∈ ev -> about e = u) -> thread_ok (extend f ev u) (set_phase Ended t) ->
  stories_ok (extend f ev) (thread_abort s u t).
Proof.
  intros Hs Hev Ht. eapply same_threads_ok with (s := set_thread u (set_phase Ended t) (mk_sys (wake u <$> threads s) (thread_pool s) (stack_pool s) (free_list s) (large_stacks s))).
  { unfold thread_abort. destruct (t_detached t); [apply destroy_threads | done]. }
  apply set_thread_ok; [|done..]. intros v w Hv. cbn in Hv. rewrite lookup_fmap in Hv.
  destruct (threads s !! v) as [w'|] eqn:Hw; [|done]. injection Hv as <-. apply wake_ok. by apply Hs.
Qed.

Lemma create_ok f s block stack i d s' r : stories_ok f s -> sys_thread_create s block stack i d = (s', r) ->
  stories_ok (extend f (match r with Ok u => [ECreate u d] | Err _ => [] end)) s'.
Proof.
  intros Hs. assert (Hr : stories_ok f (sys_thread_recycle s)) by (eapply same_threads_ok; [apply recycle_threads | done]).
  assert (Hn : forall u k, thread_ok (extend f [ECreate u d] u) (new_thread d k)).
  { intros u k. unfold extend. cbn [foldl]. destruct (f u). cbn [story_step]. by rewrite Z.eqb_refl. }
  unfold sys_thread_create. destruct block as [u|]; [|by intros [= <- <-]].
  destruct stack as [|[k|]|k]; intros [= <- <-]; try done; (apply one_thread_ok; [done | by apply single_about | apply Hn]).
Qed.

(** The phases of k_thread_exit. *)
Lemma exit_disable_ok f u t r : thread_ok f t -> t_phase t = Running -> thread_ok (story_step u f (EExit u r)) (exit_disable r t).
Proof.
  destruct t as [ph d a m si p r0 c st], f. cbn [t_phase]. intros Hf ->. cbn [story_step]. rewrite Z.eqb_refl.
  cbn in Hf. destruct Hf as (-> & -> & -> & -> & -> & -> & _ & _). done.
Qed.

Lemma exit_request_ok f t r b x : thread_ok f t -> t_phase t = Exit_disabled r ->
  thread_ok f (set_phase (Exit_requested r) (if b : bool then set_result x (set_pending true t) else set_pending true t)).
Proof. destruct t as [ph d a m si p r0 c st]. cbn [t_phase]. intros Hf ->. cbn in Hf. destruct b; cbn; naive_solver. Qed.

Lemma exit_set_ok f t r : thread_ok f t -> t_phase t = Exit_requested r -> thread_ok f (exit_set r t).
Proof. destruct t as [ph d a m si p r0 c st]. cbn [t_phase]. intros Hf ->. cbn in *. naive_solver. Qed.

Lemma exit_enable_ok f u t r q t' old b : thread_ok f t -> t_phase t = Exit_result r ->
  k_thread_cancel_qstate t (Some true) q = (t', old, b) ->
  if b then thread_ok (story_step u f (EActed u)) t' else thread_ok (story_step u f (EAborted u)) (set_phase Ended t').
Proof.
  destruct t as [ph d a m si p r0 c st], f. cbn [t_phase]. intros Hf ->. cbn in Hf.
  destruct Hf as (-> & -> & -> & -> & -> & -> & -> & -> & ->).
  destruct a, q; cbn; intros [= <- <- <-]; rewrite Z.eqb_refl; by cbn.
Qed.

(** A handler is taken off and called, or none is left. *)
Lemma check_unwinding_ok f t : thread_ok f t -> t_phase t = Unwinding ->
  thread_ok f (fst (z_syscall_cancel_check t)) /\ t_phase (fst (z_syscall_cancel_check t)) = Unwinding.
Proof.
  destruct t as [ph d a m si p r c st]. cbn [t_phase]. intros Hf ->. destruct a, m, p; cbn in *; naive_solver.
Qed.

Lemma unwind_ok f u t c l : thread_ok f t -> t_phase t = Unwinding -> t_cleanup t = c :: l ->
  thread_ok (story_step u f (ERan u c)) (set_cleanup l t).
Proof.
  destruct t as [ph d a m si p r c0 st], f. cbn [t_phase t_cleanup]. intros Hf -> ->. cbn [story_step]. rewrite Z.eqb_refl.
  cbn in *. destruct Hf as (Hx & -> & -> & -> & -> & Hp). by rewrite <- app_assoc.
Qed.

Lemma unwound_ok f t : thread_ok f t -> t_phase t = Unwinding -> t_cleanup t = [] -> thread_ok f (set_phase Ended t).
Proof.
  destruct t as [ph d a m si p r c0 st], f. cbn [t_phase t_cleanup]. intros Hf -> ->.
  cbn in *. destruct Hf as (Hx & -> & -> & -> & -> & Hp). by rewrite app_nil_r.
Qed.

(** The signal is delivered to a thread that runs, or that unwinds. *)
Lemma handler_ok f u t t' b : thread_ok f t -> t_phase t = Running \/ t_phase t = Unwinding ->
  z_sig_handler_cancel (set_sig false t) = (t', b) ->
  thread_ok (foldl (story_step u) f (unwound u (b && bool_decide (t_phase t = Running)))) t'.
Proof.
  intros Hf [Hp|Hp].
  - rewrite bool_decide_true, andb_true_r by done. unfold z_sig_handler_cancel.
    destruct (flags_ok f t Hf Hp) as (_ & _ & Hs). destruct (t_pending (set_sig false t)) eqn:Hpe; cbn [negb]; intros [= <- <-]; [|apply Hs].
    apply (act_ok f u (set_sig false t)); [apply Hs | done..].
  - rewrite bool_decide_false, andb_false_r by (by rewrite Hp). destruct t as [ph d a m si p r c st]. cbn in Hp. subst ph.
    destruct p; cbn; intros [= <- <-]; cbn in *; naive_solver.
Qed.

(** k_thread_cancel, for whoever it is. *)
Lemma cancel_thread s u t q : threads s !! u = Some t -> t_phase t <> Ended ->
  exists b, fst (k_thread_cancel s u q) = set_thread u (if b : bool then set_sig true (requested t) else requested t) s.
Proof.
  intros Hu Hne. unfold k_thread_cancel, requested. rewrite Hu.
  destruct (t_phase t) eqn:Hp; try done; destruct (t_pending t); cbn [negb andb];
    try (destruct (_ && _); [destruct q|]); (by exists true) || (by exists false).
Qed.

Lemma cancel_ended s u t q : threads s !! u = Some t -> t_phase t = Ended -> k_thread_cancel s u q = (s, Err ESRCH).
Proof. intros Hu Hp. unfold k_thread_cancel. by rewrite Hu, Hp. Qed.

Lemma push_ok f u t c : thread_ok f t -> t_phase t = Running ->
  thread_ok (story_step u f (EPush u c)) (set_cleanup (c :: t_cleanup t) t).
Proof.
  destruct t as [ph d a m si p r c0 st], f. cbn [t_phase t_cleanup]. intros Hf ->. cbn [story_step]. rewrite Z.eqb_refl.
  cbn in *. naive_solver.
Qed.

Lemma cleanup_pop_ok f u t x : thread_ok f t -> t_phase t = Running ->
  thread_ok (story_step u f (EPop u)) (fst (fst (k_thread_cleanup_pop t x))).
Proof.
  destruct t as [ph d a m si p r c0 st], f. cbn [t_phase t_cleanup]. intros Hf ->. cbn [story_step]. rewrite Z.eqb_refl.
  destruct c0; cbn in *; naive_solver.
Qed.

Lemma cancel_step_ok f s u t q : stories_ok f s -> threads s !! u = Some t ->
  stories_ok (extend f (if negb (t_pending t) && negb (bool_decide (t_phase t = Ended)) then [ECancel u] else []))
    (fst (k_thread_cancel s u q)).
Proof.
  intros Hs Hu. destruct (decide (t_phase t = Ended)) as [He|Hne].
  { rewrite (cancel_ended s u t q), bool_decide_true, andb_false_r by done. exact Hs. }
  rewrite bool_decide_false, andb_true_r by done. destruct (cancel_thread s u t q Hu Hne) as [b ->].
  apply set_thread_ok; [done| |apply request_ok; [by apply Hs|done]].
  destruct (negb _); [by apply single_about | by intros e He%not_elem_of_nil].
Qed.

(** The request a thread makes of itself in k_thread_exit. *)
Lemma exit_request_step_ok f s u t r q : stories_ok f s -> threads s !! u = Some t -> t_phase t = Exit_disabled r ->
  stories_ok f (let s' := fst (k_thread_cancel s u q) in
                match threads s' !! u with Some t' => set_thread u (set_phase (Exit_requested r) t') s' | None => s' end).
Proof.
  intros Hs Hu Hp. pose proof (Hs u t Hu) as Ht. destruct (cancel_thread s u t q Hu) as [b ->]; [by rewrite Hp|].
  cbn. rewrite lookup_insert_eq. unfold set_thread. cbn. rewrite insert_insert_eq.
  apply (one_thread_ok f [] s); [done | by intros e He%not_elem_of_nil |]. cbn.
  assert (Hg : forall x t', thread_ok (f u) (set_phase (Exit_requested r) t') -> thread_ok (f u) (set_phase (Exit_requested r) (set_sig x t'))) by (by intros x []).
  destruct b; [apply (Hg true (requested t))|]; unfold requested; destruct (t_pending t);
    (by apply (exit_request_ok _ t r false 0)) || by apply (exit_request_ok _ t r true K_THREAD_CANCELLED).
Qed.

Lemma rejoin_ok f s cur u s' r ev : stories_ok f s -> k_thread_rejoin s cur u = (s', r) ->
  (forall t, threads s !! cur = Some t -> t_phase t = Running) -> forallb silent ev = true -> stories_ok (extend f ev) s'.
Proof.
  intros Hs Hj Hr Hev. apply silent_ok; [done|]. revert Hj. unfold k_thread_rejoin, z_thread_epilogue.
  destruct (threads s !! u) as [t|] eqn:Hu; [|by intros [= <- _]]. destruct (threads s !! cur) as [c|] eqn:Hc; [|by intros [= <- _]].
  destruct (t_detached t); [by intros [= <- _]|]. case_bool_decide.
  - intros [= <- _]. eapply same_threads_ok; [apply destroy_threads | done].
  - destruct (_ || _); intros [= <- _]; [done|]. apply (one_thread_ok f [] s); [done | by intros e He%not_elem_of_nil |].
    specialize (Hr c eq_refl). specialize (Hs cur c Hc). destruct c as [[] ? ? ? ? ? ? ? ?]; done.
Qed.

Lemma detach_ok f s cur u t ev : stories_ok f s -> threads s !! u = Some t -> forallb silent ev = true ->
  stories_ok (extend f ev) (fst (k_thread_detach s cur u)).
Proof.
  intros Hs Hu Hev. apply silent_ok; [done|]. unfold k_thread_detach. rewrite Hu. destruct (t_detached t); [done|]. cbn [fst].
  assert (Hd : stories_ok f (set_thread u (set_detached t) s)).
  { apply (one_thread_ok f [] s); [done | by intros e He%not_elem_of_nil |]. specialize (Hs u t Hu).
    by destruct t as [[] ? ? ? ? ? ? ? ?]. }
  case_bool_decide; [|done]. eapply same_threads_ok; [apply destroy_threads | done].
Qed.

Lemma story_step_ok f s ev s' : step s ev s' -> stories_ok f s -> stories_ok (extend f ev) s'.
Proof.
  intros Hst Hs. destruct Hst as
    [s cur t block stack i d s' r Hc _ _ Hcr | s | s cur t t' Hc Hp Hk | s cur t b t' old w q (Hc & Hp & _) Hk
    | s cur t b t' old w q (Hc & Hp & _) Hk | s cur t ro ar (Hc & Hp & _) | s cur t x (Hc & Hp & _) | s cur c u t q Hc Hp Hu
    | s cur t t' b Hc Hp _ _ Hk | s cur t u v _ Hu _ | s cur t u v s' r (Hc & Hp & _) Hu _ Hj | s cur t u s' x Hc Hp He
    | s cur t r (Hc & Hp & _) | s cur t r (Hc & Hp & _) | s cur t r q Hc Hp | s cur t r Hc Hp | s cur t r q Hc Hp | s cur t t1 Hc Hp ->].
  - by eapply create_ok.
  - eapply same_threads_ok; [apply recycle_threads | done].
  - apply set_thread_ok; [done | by apply single_about |]. specialize (Hs cur t Hc). unfold z_syscall_cancel_check in Hk.
    destruct (t_async t); [done|]. exact (try_actuate_ok _ cur _ _ _ Hs Hp Hk).
  - apply set_thread_ok; [done | apply unwound_about |]. exact (qstate_ok _ cur _ _ _ _ _ _ (Hs cur t Hc) Hp Hk).
  - apply set_thread_ok; [done | apply unwound_about |]. exact (qtype_ok _ cur _ _ _ _ _ _ (Hs cur t Hc) Hp Hk).
  - apply set_thread_ok; [done | by apply single_about |]. exact (push_ok _ cur _ (ro, ar) (Hs cur t Hc) Hp).
  - apply set_thread_ok; [done | by apply single_about |]. exact (cleanup_pop_ok _ cur _ x (Hs cur t Hc) Hp).
  - by apply cancel_step_ok.
  - apply set_thread_ok; [done | apply unwound_about |]. exact (handler_ok _ cur _ _ _ (Hs cur t Hc) Hp Hk).
  - apply (detach_ok _ _ _ _ v); [done..|]. by destruct (t_detached v).
  - eapply rejoin_ok; [done..| |]; [by intros t'; rewrite Hc; intros [= <-] | by destruct r as [[]|]].
  - apply silent_ok; [done|]. revert He. unfold z_thread_epilogue.
    destruct (threads _ !! u); [|done]. intros [= <- _]. eapply same_threads_ok; [apply destroy_threads|].
    apply (one_thread_ok f [] s); [done | by intros e He%not_elem_of_nil |]. specialize (Hs cur t Hc).
    destruct t as [ph ? ? ? ? ? ? ? ?]. cbn in Hp. by subst ph.
  - apply set_thread_ok; [done | by apply single_about |]. exact (exit_disable_ok _ cur _ r (Hs cur t Hc) Hp).
  - apply set_thread_ok; [done | by apply single_about |]. exact (exit_disable_ok _ cur _ r (Hs cur t Hc) Hp).
  - by eapply exit_request_step_ok.
  - apply (set_thread_ok f []); [done | by intros e He%not_elem_of_nil |]. by apply exit_set_ok; [apply Hs|].
  - unfold exit_enable. destruct (k_thread_cancel_qstate _ _ _) as [[t' old] b] eqn:Hk. cbn [snd].
    pose proof (exit_enable_ok _ cur _ _ _ _ _ _ (Hs cur t Hc) Hp Hk) as Ht. destruct b.
    + apply set_thread_ok; [done | by apply single_about | done].
    + apply abort_ok; [done| |].
      * intros e He. by apply elem_of_cons in He as [->| ->%list_elem_of_singleton].
      * unfold extend. cbn [foldl]. by apply silent_step.
  - destruct (check_unwinding_ok _ _ (Hs cur t Hc) Hp) as [Ht Hq]. set (t1 := fst (z_syscall_cancel_check t)) in *.
    unfold k_thread_cleanup_pop. destruct (t_cleanup t1) as [|c l] eqn:Hl.
    + apply abort_ok; [done | by apply single_about |]. unfold extend. cbn [foldl]. apply silent_step; [done|]. by apply unwound_ok.
    + apply set_thread_ok; [done | by apply single_about |]. by apply unwind_ok.
Qed.

(** ** The books of the pools

    What the pools depend on: whether a thread has ended, whether it is
    detached, for whom it waits in a join and whether it was woken, its stack. *)
Record view := mk_view { v_ended : bool; v_detached : bool; v_waits : option Z; v_woken : bool; v_stack : option Z }.

Definition view_of (t : thread) : view :=
  mk_view (bool_decide (t_phase t = Ended)) (t_detached t)
    (match t_phase t with Joining u | Joined u => Some u | _ => None end)
    (match t_phase t with Joined _ => true | _ => false end) (pool_stack t).

(** Who holds the objects and the stacks. *)
Record holdings (m : gmap Z view) (pool stacks : gset Z) : Prop := mk_holdings {
  h_pool : forall u, u ∈ pool -> is_Some (m !! u);
  h_alive : forall u v, m !! u = Some v -> v_ended v = false -> u = main \/ u ∈ pool;
  h_main : main ∉ pool;
  h_main_stack : forall v, m !! main = Some v -> v_stack v = None;
  h_stack : forall u v k, u ∈ pool -> m !! u = Some v -> v_stack v = Some k -> k ∈ stacks;
  h_owner : forall k, k ∈ stacks -> exists u v, u ∈ pool /\ m !! u = Some v /\ v_stack v = Some k;
  h_single : forall u u' v v' k, u ∈ pool -> u' ∈ pool -> m !! u = Some v -> m !! u' = Some v' ->
      v_stack v = Some k -> v_stack v' = Some k -> u = u';
}.

(** Who will give them back; [x], when given, is a thread about to leave the pool. *)
Record accounts (x : option Z) (m : gmap Z view) (pool : gset Z) (free : list Z) (cl : Z -> bool) : Prop := mk_accounts {
  a_nodup : NoDup free;
  a_free : forall u, u ∈ free -> (u = main \/ u ∈ pool) /\ x <> Some u /\
      exists v, m !! u = Some v /\ v_ended v = true /\ v_detached v = true;
  a_kept : forall u v, x <> Some u -> u ∈ pool -> m !! u = Some v -> v_ended v = true -> v_detached v = true -> u ∈ free;
  a_wait : forall c w u, m !! c = Some w -> v_waits w = Some u -> u ∈ pool /\ x <> Some u /\ v_ended w = false /\
      exists v, m !! u = Some v /\ v_detached v = false /\ v_ended v = v_woken w;
  a_once : forall c c' w w' u, m !! c = Some w -> m !! c' = Some w' -> v_waits w = Some u -> v_waits w' = Some u -> c = c';
  a_claim : forall u v, x <> Some u -> u ∈ pool -> m !! u = Some v ->
      cl u = true <-> v_detached v = true \/ exists c w, m !! c = Some w /\ v_waits w = Some u;
}.

Definition stack_set (v : view) : gset Z := match v_stack v with Some k => {[k]} | None => ∅ end.

(** The object and the stack of a thread are given back. *)
Lemma holdings_remove m pool stacks u v :
  holdings m pool stacks -> m !! u = Some v -> u ∈ pool \/ u = main -> v_ended v = true ->
  holdings m (pool ∖ {[u]}) (stacks ∖ stack_set v).
Proof.
  intros [Hpo Hal Hma Hms Hst How Hsi] Hu Hin He. split.
  - set_solver.
  - intros y w Hy Hw. destruct (Hal y w Hy Hw) as [|]; [by left|right]. apply elem_of_difference. split; [done|].
    intros ->%elem_of_singleton. congruence.
  - set_solver.
  - done.
  - intros y w k [Hy Hn]%elem_of_difference Hw Hk. apply elem_of_difference. split; [by apply (Hst y w)|].
    unfold stack_set. destruct (v_stack v) as [k'|] eqn:Hk'; [|set_solver]. intros ->%elem_of_singleton. destruct Hin as [Hin| ->].
    + assert (u = y) by (by eapply Hsi). set_solver.
    + by rewrite (Hms v Hu) in Hk'.
  - intros k [Hk Hn]%elem_of_difference. destruct (How k Hk) as (y & w & Hy & Hw & Hs). exists y, w. split_and!; [|done..].
    apply elem_of_difference. split; [done|]. intros ->%elem_of_singleton. assert (w = v) as -> by congruence.
    unfold stack_set in Hn. rewrite Hs in Hn. set_solver.
  - intros y y' w w' k [Hy _]%elem_of_difference [Hy' _]%elem_of_difference. by apply Hsi.
Qed.

Lemma accounts_remove m pool free cl u :
  accounts (Some u) m pool free cl -> accounts None m (pool ∖ {[u]}) free cl.
Proof.
  intros [Hno Hfr Hke Hwa Hon Hcl]. split; [done| | | |done|].
  - intros y Hy. destruct (Hfr y Hy) as (? & ? & ?). set_solver.
  - intros y w _ [Hy Hn]%elem_of_difference Hw. apply (Hke y w); [set_solver | done..].
  - intros c w y Hc Hw. destruct (Hwa c w y Hc Hw) as (? & ? & ? & ?). set_solver.
  - intros y w _ [Hy Hn]%elem_of_difference Hw. apply (Hcl y w); [set_solver | done..].
Qed.

(** A thread whose end and stack do not change. *)
Lemma holdings_update m pool stacks c w w' :
  holdings m pool stacks -> m !! c = Some w -> v_ended w' = v_ended w \/ (v_ended w' = true) -> v_stack w' = v_stack w ->
  holdings (<[c := w']> m) pool stacks.
Proof.
  intros [Hpo Hal Hma Hms Hst How Hsi] Hc He Hs.
  assert (Hl : forall y v, <[c := w']> m !! y = Some v -> exists v0, m !! y = Some v0 /\ v_stack v = v_stack v0 /\ (v_ended v = false -> v_ended v0 = false)).
  { intros y v [[<- <-]|[_ Hy]]%lookup_insert_Some; [exists w | by exists v]. split_and!; [done..|]. destruct He; congruence. }
  split; [| |done| | | |].
  - intros y Hy. destruct (decide (c = y)) as [->|]; simplify_map_eq; eauto.
  - intros y v (v0 & H1 & H2 & H3)%Hl Hv. eauto.
  - intros v (v0 & H1 & -> & H3)%Hl. eauto.
  - intros y v k Hy (v0 & H1 & -> & H3)%Hl. eauto.
  - intros k Hk. destruct (How k Hk) as (y & v & Hy & Hv & Hkv). destruct (decide (c = y)) as [->|].
    + exists y, w'. simplify_map_eq. split_and!; [done..|congruence].
    + exists y, v. by simplify_map_eq.
  - intros y y' v v' k Hy Hy' (v0 & H1 & -> & H3)%Hl (v0' & H1' & -> & H3')%Hl. eauto.
Qed.

Lemma accounts_head m pool u l cl : accounts None m pool (u :: l) cl -> accounts (Some u) m pool l cl.
Proof.
  intros [[Hu Hno]%NoDup_cons Hfr Hke Hwa Hon Hcl]. split; [done| | | |done|].
  - intros y Hy. destruct (Hfr y) as (? & _ & ?); [by right|]. split_and!; [done | congruence | done].
  - intros y v Hne Hy Hv He Hd. assert (Hin : y ∈ u :: l) by (by eapply Hke). apply elem_of_cons in Hin as [->|]; congruence.
  - intros c w y Hc Hw. destruct (Hwa c w y Hc Hw) as (? & _ & ? & v & ? & ? & ?). split_and!; [done| |done|by exists v].
    intros [= <-]. destruct (Hfr u) as (_ & _ & v' & ? & ? & ?); [by left|]. congruence.
  - intros y v _. by apply Hcl.
Qed.

Lemma accounts_cl x m pool free cl cl' : (forall y, x <> Some y -> cl' y = cl y) -> accounts x m pool free cl -> accounts x m pool free cl'.
Proof. intros He [Hno Hfr Hke Hwa Hon Hcl]. split; [done..|]. intros y v Hy. rewrite He by done. by apply Hcl. Qed.

(** A join returns: the thread it waited for is about to leave. *)
Lemma accounts_leave m pool free cl c w u d k :
  accounts None m pool free cl -> m !! c = Some w -> v_waits w = Some u -> d = v_detached w ->
  accounts (Some u) (<[c := mk_view false d None false k]> m) pool free cl.
Proof.
  intros [Hno Hfr Hke Hwa Hon Hcl] Hc Hw ->. destruct (Hwa c w u Hc Hw) as (Hu & _ & Hew & v & Hv & Hdv & _).
  assert (Hfc : c ∉ free) by (intros (_ & _ & v' & ? & ? & ?)%Hfr; congruence).
  assert (Hfu : u ∉ free) by (intros (_ & _ & v' & ? & ? & ?)%Hfr; congruence). split; [done| | | | |].
  - intros y Hy. destruct (Hfr y Hy) as (? & _ & v' & Hv'). split_and!; [done | congruence |]. exists v'.
    rewrite lookup_insert_ne by congruence. done.
  - intros y v' Hne Hy [[<- <-]|[_ Hv']]%lookup_insert_Some; [done|]. by eapply Hke.
  - intros c' w' y [[<- <-]|[Hn Hc']]%lookup_insert_Some Hw'; [done|].
    destruct (Hwa c' w' y Hc' Hw') as (? & _ & He' & v' & Hv' & ? & ?). split_and!; [done| |done|].
    + intros [= <-]. apply Hn. by eapply Hon.
    + destruct (decide (c = y)) as [<-|]; [|exists v'; by rewrite lookup_insert_ne].
      eexists. rewrite lookup_insert_eq. split_and!; [done|cbn; congruence..].
  - intros c1 c2 w1 w2 y [[<- <-]|[_ H1]]%lookup_insert_Some [[<- <-]|[_ H2]]%lookup_insert_Some; [done..|]. by eapply Hon.
  - intros y v' Hne Hy Hv'. assert (exists v0, m !! y = Some v0 /\ v_detached v' = v_detached v0) as (v0 & Hv0 & ->).
    { apply lookup_insert_Some in Hv' as [[<- <-]|[_ Hv']]; eauto. }
    rewrite (Hcl y v0) by done. f_equiv. split; intros (c' & w' & Hc' & Hw'); exists c', w'.
    + split; [|done]. rewrite lookup_insert_ne; [done|]. intros <-. congruence.
    + by apply lookup_insert_Some in Hc' as [[<- <-]|[_ Hc']].
Qed.

(** A join or a detach of a thread that has ended. *)
Lemma accounts_claimed m pool free cl u v d :
  accounts None m pool free cl -> m !! u = Some v -> u ∈ pool -> v_ended v = true -> v_detached v = false -> cl u = false ->
  accounts (Some u) (<[u := mk_view true d None false (v_stack v)]> m) pool free cl.
Proof.
  intros [Hno Hfr Hke Hwa Hon Hcl] Hu Hin Hev Hdv Hclu.
  assert (Hfu : u ∉ free) by (intros (_ & _ & v' & ? & ? & ?)%Hfr; congruence).
  assert (Hnw : forall c w, m !! c = Some w -> v_waits w <> Some u).
  { intros c w Hc Hw. assert (cl u = true) by (apply (Hcl u v); eauto). congruence. }
  split; [done| | | | |].
  - intros y Hy. destruct (Hfr y Hy) as (? & _ & v' & Hv'). split_and!; [done | congruence |]. exists v'.
    by rewrite lookup_insert_ne by congruence.
  - intros y v' Hne Hy [[<- <-]|[_ Hv']]%lookup_insert_Some; [done|]. by eapply Hke.
  - intros c' w' y [[<- <-]|[Hn Hc']]%lookup_insert_Some Hw'; [done|].
    destruct (Hwa c' w' y Hc' Hw') as (? & _ & He' & v' & Hv' & ? & ?). assert (y <> u) by (intros ->; by apply (Hnw c' w')).
    split_and!; [done|congruence|done|]. exists v'. by rewrite lookup_insert_ne.
  - intros c1 c2 w1 w2 y [[<- <-]|[_ H1]]%lookup_insert_Some [[<- <-]|[_ H2]]%lookup_insert_Some; [done..|]. by eapply Hon.
  - intros y v' Hne Hy Hv'. assert (u <> y) by congruence. rewrite lookup_insert_ne in Hv' by done.
    rewrite (Hcl y v') by done. f_equiv. split; intros (c' & w' & Hc' & Hw'); exists c', w'.
    + split; [|done]. rewrite lookup_insert_ne; [done|]. intros <-. destruct (Hwa u w' y Hc' Hw') as (_ & _ & ? & _). congruence.
    + by apply lookup_insert_Some in Hc' as [[<- <-]|[_ Hc']].
Qed.

Lemma no_waiter m pool free cl u v c w : accounts None m pool free cl -> m !! u = Some v -> u ∈ pool -> cl u = false ->
  m !! c = Some w -> v_waits w <> Some u.
Proof. intros A Hu Hin Hclu Hc Hw. assert (cl u = true) by (apply (a_claim _ _ _ _ _ A u v); eauto). congruence. Qed.

(** A thread that has not ended is detached. *)
Lemma accounts_detach m pool free cl cl' u v :
  accounts None m pool free cl -> m !! u = Some v -> u ∈ pool -> v_ended v = false -> cl u = false ->
  (forall y, cl' y = if y =? u then true else cl y) ->
  accounts None (<[u := mk_view (v_ended v) true (v_waits v) (v_woken v) (v_stack v)]> m) pool free cl'.
Proof.
  intros A Hu Hin Hev Hclu Hcl'. assert (Hnw := fun c w => no_waiter _ _ _ _ _ _ c w A Hu Hin Hclu).
  destruct A as [Hno Hfr Hke Hwa Hon Hcl].
  assert (Hfu : u ∉ free) by (intros (_ & _ & v' & ? & ? & ?)%Hfr; congruence).
  set (v1 := mk_view _ _ _ _ _). assert (Hl : forall c w, <[u := v1]> m !! c = Some w -> exists w0, m !! c = Some w0 /\ v_waits w = v_waits w0 /\
      v_woken w = v_woken w0 /\ v_ended w = v_ended w0).
  { intros c w [[<- <-]|[_ Hc]]%lookup_insert_Some; eauto. }
  split; [done| | | | |].
  - intros y Hy. destruct (Hfr y Hy) as (? & _ & v' & Hv'). split_and!; [done..|]. exists v'. by rewrite lookup_insert_ne by congruence.
  - intros y v' Hne Hy [[<- <-]|[_ Hv']]%lookup_insert_Some; [cbn; congruence|]. by eapply Hke.
  - intros c' w' y (w0 & Hc' & -> & -> & ->)%Hl Hw'. destruct (Hwa c' w0 y Hc' Hw') as (? & _ & He' & v' & Hv' & ? & ?).
    assert (y <> u) by (intros ->; by apply (Hnw c' w0)). split_and!; [done..|]. exists v'. by rewrite lookup_insert_ne.
  - intros c1 c2 w1 w2 y (? & ? & -> & _)%Hl (? & ? & -> & _)%Hl. by eapply Hon.
  - intros y v' _ Hy Hv'. rewrite Hcl'. destruct (Z.eqb_spec y u) as [->|Hne].
    + rewrite lookup_insert_eq in Hv'. injection Hv' as <-. split; [by left | done].
    + rewrite lookup_insert_ne in Hv' by done. rewrite (Hcl y v') by done. f_equiv. split.
      * intros (c' & w' & Hc' & Hw'). destruct (decide (u = c')) as [<-|].
        -- exists u, v1. rewrite lookup_insert_eq. split; [done|]. cbn. congruence.
        -- exists c', w'. by rewrite lookup_insert_ne.
      * intros (c' & w' & (w0 & Hc' & -> & _)%Hl & Hw'). by exists c', w0.
Qed.

(** [c] goes to sleep until [u] ends. *)
Lemma accounts_wait m pool free cl cl' c w u v :
  accounts None m pool free cl -> m !! c = Some w -> v_ended w = false -> v_waits w = None ->
  m !! u = Some v -> u ∈ pool -> v_ended v = false -> v_detached v = false -> cl u = false -> c <> u ->
  (forall y, cl' y = if y =? u then true else cl y) ->
  accounts None (<[c := mk_view false (v_detached w) (Some u) false (v_stack w)]> m) pool free cl'.
Proof.
  intros A Hc Hew Hww Hu Hin Hev Hdv Hclu Hcu Hcl'. assert (Hnw := fun c w => no_waiter _ _ _ _ _ _ c w A Hu Hin Hclu).
  destruct A as [Hno Hfr Hke Hwa Hon Hcl].
  assert (Hfc : c ∉ free) by (intros (_ & _ & v' & ? & ? & ?)%Hfr; congruence).
  set (w1 := mk_view _ _ _ _ _). assert (Hl : forall y v', <[c := w1]> m !! y = Some v' -> exists v0, m !! y = Some v0 /\ v_detached v' = v_detached v0 /\
      v_ended v' = v_ended v0).
  { intros y v' [[<- <-]|[_ Hy]]%lookup_insert_Some; eauto. }
  assert (Hk : forall y v', m !! y = Some v' -> exists v0, <[c := w1]> m !! y = Some v0 /\ v_detached v0 = v_detached v' /\ v_ended v0 = v_ended v').
  { intros y v' Hy. destruct (decide (c = y)) as [<-|]; [exists w1 | exists v'].
    - assert (v' = w) as -> by congruence. by rewrite lookup_insert_eq.
    - by rewrite lookup_insert_ne. }
  split; [done| | | | |].
  - intros y Hy. destruct (Hfr y Hy) as (? & _ & v' & Hv'). split_and!; [done..|]. exists v'. by rewrite lookup_insert_ne by congruence.
  - intros y v' _ Hy (v0 & Hv0 & -> & ->)%Hl. by apply Hke.
  - intros c' w' y [[<- <-]|[Hn Hc']]%lookup_insert_Some Hw'.
    + cbn in Hw'. injection Hw' as <-. split_and!; [done..|]. destruct (Hk u v Hu) as (v0 & ? & ? & ?). exists v0. cbn. split_and!; congruence.
    + destruct (Hwa c' w' y Hc' Hw') as (? & _ & He' & v' & Hv' & ? & ?). split_and!; [done..|].
      destruct (Hk y v' Hv') as (v0 & ? & ? & ?). exists v0. split_and!; congruence.
  - intros c1 c2 x1 x2 y [[<- <-]|[_ H1]]%lookup_insert_Some [[<- <-]|[_ H2]]%lookup_insert_Some; cbn; [done| | |by eapply Hon].
    + intros [= <-] Hx. by destruct (Hnw c2 x2).
    + intros Hx [= <-]. by destruct (Hnw c1 x1).
  - intros y v' _ Hy (v0 & Hv0 & -> & _)%Hl. rewrite Hcl'. destruct (Z.eqb_spec y u) as [->|Hne].
    + split; [|done]. intros _. right. exists c, w1. by rewrite lookup_insert_eq.
    + rewrite (Hcl y v0) by done. f_equiv. split; intros (c' & w' & Hc' & Hw').
      * exists c', w'. rewrite lookup_insert_ne; [done|]. intros <-. congruence.
      * apply lookup_insert_Some in Hc' as [[<- <-]|[_ Hc']]; [cbn in Hw'; congruence | eauto].
Qed.

(** A thread ends and the one that waits for it is woken. *)
Definition vwake (c : Z) (v : view) : view :=
  if bool_decide (v_waits v = Some c) then mk_view (v_ended v) (v_detached v) (Some c) true (v_stack v) else v.

Lemma vwake_same c v : v_ended (vwake c v) = v_ended v /\ v_detached (vwake c v) = v_detached v /\
  v_waits (vwake c v) = v_waits v /\ v_stack (vwake c v) = v_stack v.
Proof. unfold vwake. by case_bool_decide. Qed.

Lemma holdings_wake m pool stacks c : holdings m pool stacks -> holdings (vwake c <$> m) pool stacks.
Proof.
  intros [Hpo Hal Hma Hms Hst How Hsi]. assert (Hl : forall y v, (vwake c <$> m) !! y = Some v -> exists v0, m !! y = Some v0 /\
      v_stack v = v_stack v0 /\ v_ended v = v_ended v0).
  { intros y v. rewrite lookup_fmap. destruct (m !! y) as [v0|]; [|done]. intros [= <-]. exists v0. pose proof (vwake_same c v0). naive_solver. }
  split; [| |done| | | |].
  - intros y Hy. rewrite lookup_fmap. destruct (Hpo y Hy) as [v ->]. by eexists.
  - intros y v (v0 & ? & _ & ->)%Hl. eauto.
  - intros v (v0 & ? & -> & _)%Hl. eauto.
  - intros y v k Hy (v0 & ? & -> & _)%Hl. eauto.
  - intros k Hk. destruct (How k Hk) as (y & v & ? & Hv & ?). exists y, (vwake c v). rewrite lookup_fmap, Hv.
    split_and!; [done..|]. by rewrite (proj2 (proj2 (proj2 (vwake_same c v)))).
  - intros y y' v v' k Hy Hy' (v0 & ? & -> & _)%Hl (v0' & ? & -> & _)%Hl. eauto.
Qed.

Lemma accounts_end m pool free cl c w :
  accounts None m pool free cl -> m !! c = Some w -> v_ended w = false -> v_waits w = None -> c = main \/ c ∈ pool ->
  accounts None (<[c := mk_view true (v_detached w) None false (v_stack w)]> (vwake c <$> m)) pool
    (if v_detached w then free ++ [c] else free) cl.
Proof.
  intros [Hno Hfr Hke Hwa Hon Hcl] Hc Hew Hww Hin.
  assert (Hfc : c ∉ free) by (intros (_ & _ & v' & ? & ? & ?)%Hfr; congruence).
  assert (Hff : forall y, y ∈ (if v_detached w then free ++ [c] else free) <-> y ∈ free \/ y = c /\ v_detached w = true).
  { intros y. destruct (v_detached w); [rewrite elem_of_app, list_elem_of_singleton|]; naive_solver. }
  set (w1 := mk_view _ _ _ _ _). assert (Hl : forall y v', <[c := w1]> (vwake c <$> m) !! y = Some v' -> y = c /\ v' = w1 \/
      y <> c /\ exists v0, m !! y = Some v0 /\ v' = vwake c v0).
  { intros y v' [[<- <-]|[Hn Hy]]%lookup_insert_Some; [by left|right]. rewrite lookup_fmap in Hy. destruct (m !! y); [|done]. naive_solver. }
  assert (Hk : forall y v0, m !! y = Some v0 -> y <> c -> <[c := w1]> (vwake c <$> m) !! y = Some (vwake c v0)).
  { intros y v0 Hy Hn. by rewrite lookup_insert_ne, lookup_fmap, Hy by done. }
  assert (Hwt : forall c' w', <[c := w1]> (vwake c <$> m) !! c' = Some w' -> forall u, v_waits w' = Some u -> c' <> c /\ exists w0,
      m !! c' = Some w0 /\ v_waits w0 = Some u /\ w' = vwake c w0).
  { intros c' w' [[-> ->]|(Hn & w0 & Hw0 & ->)]%Hl u Hw'; [done|]. rewrite (proj1 (proj2 (proj2 (vwake_same c w0)))) in Hw'. eauto. }
  split.
  - destruct (v_detached w); [|done]. apply NoDup_app. split_and!; [done| |apply NoDup_singleton]. intros y Hy ->%list_elem_of_singleton. done.
  - intros y [Hy|[-> Hd]]%Hff.
    + destruct (Hfr y Hy) as (? & _ & v0 & Hv0 & ? & ?). split_and!; [done..|]. exists (vwake c v0). pose proof (vwake_same c v0).
      split_and!; [apply Hk; congruence | naive_solver..].
    + split_and!; [done..|]. exists w1. by rewrite lookup_insert_eq.
  - intros y v' _ Hy [[-> ->]|(Hn & v0 & Hv0 & ->)]%Hl; intros He Hd; apply Hff; [by right|left].
    pose proof (vwake_same c v0). apply (Hke y v0); naive_solver.
  - intros c' w' y Hc' Hw'. destruct (Hwt c' w' Hc' y Hw') as (Hn & w0 & Hw0 & Hwy & ->).
    destruct (Hwa c' w0 y Hw0 Hwy) as (Hy & _ & He & v0 & Hv0 & Hd & Hwo). destruct (vwake_same c w0) as (-> & _). split_and!; [done..|].
    destruct (decide (y = c)) as [->|Hyc].
    + exists w1. rewrite lookup_insert_eq. unfold vwake. rewrite bool_decide_true by done. cbn. split_and!; congruence.
    + exists (vwake c v0). destruct (vwake_same c v0) as (-> & -> & _). unfold vwake at 3. rewrite bool_decide_false by congruence. auto.
  - intros c1 c2 x1 x2 y H1 H2 Hx1 Hx2. destruct (Hwt c1 x1 H1 y Hx1) as (_ & ? & ? & ? & _), (Hwt c2 x2 H2 y Hx2) as (_ & ? & ? & ? & _). by eapply Hon.
  - intros y v' _ Hy Hv'. assert (exists v0, m !! y = Some v0 /\ v_detached v' = v_detached v0) as (v0 & Hv0 & ->).
    { apply Hl in Hv' as [[-> ->]|(Hn & v0 & Hv0 & ->)]; [by exists w|]. exists v0. by destruct (vwake_same c v0) as (_ & -> & _). }
    rewrite (Hcl y v0) by done. f_equiv. split; intros (c' & w' & Hc' & Hw').
    + exists c', (vwake c w'). destruct (vwake_same c w') as (_ & _ & -> & _). split; [|done]. apply Hk; [done|congruence].
    + destruct (Hwt c' w' Hc' y Hw') as (_ & w0 & ? & ? & _). eauto.
Qed.

Lemma holdings_new m pool stacks u v :
  holdings m pool stacks -> u ∉ pool -> u <> main -> (forall k, v_stack v = Some k -> k ∉ stacks) ->
  holdings (<[u := v]> m) (pool ∪ {[u]}) (stacks ∪ stack_set v).
Proof.
  intros [Hpo Hal Hma Hms Hst How Hsi] Hu Hm Hk. assert (Hl : forall y w, y ∈ pool ∪ {[u]} -> <[u := v]> m !! y = Some w ->
      y = u /\ w = v \/ y <> u /\ y ∈ pool /\ m !! y = Some w).
  { intros y w Hy [[<- <-]|[Hn Hw]]%lookup_insert_Some; [by left|right]. set_solver. }
  assert (Hs : forall k, v_stack v = Some k -> k ∈ stack_set v) by (intros k Hv; unfold stack_set; rewrite Hv; set_solver).
  split.
  - intros y Hy. destruct (decide (u = y)) as [->|]; [rewrite lookup_insert_eq; by eexists|]. rewrite lookup_insert_ne by done. apply Hpo. set_solver.
  - intros y w [[<- <-]|[Hn Hw]]%lookup_insert_Some He; [set_solver|]. destruct (Hal y w Hw He); set_solver.
  - set_solver.
  - intros w. rewrite lookup_insert_ne by done. apply Hms.
  - intros y w k Hy Hw Hwk. apply elem_of_union. destruct (Hl y w Hy Hw) as [[-> ->]|(? & ? & ?)]; [right; auto | left; eauto].
  - intros k [Hk'|Hk']%elem_of_union.
    + destruct (How k Hk') as (y & w & ? & ? & ?). exists y, w. split_and!; [set_solver| |done]. rewrite lookup_insert_ne; [done|]. set_solver.
    + exists u, v. rewrite lookup_insert_eq. split_and!; [set_solver | done |]. unfold stack_set in Hk'. destruct (v_stack v); set_solver.
  - intros y y' w w' k Hy Hy' Hw Hw' Hwk Hwk'. destruct (Hl y w Hy Hw) as [[-> ->]|(? & ? & ?)], (Hl y' w' Hy' Hw') as [[-> ->]|(? & ? & ?)]; [done| | |eauto].
    + destruct (Hk k Hwk); eauto.
    + destruct (Hk k Hwk'); eauto.
Qed.

Lemma accounts_new m pool cl cl' u d k :
  accounts None m pool [] cl -> u ∉ pool -> (forall v, m !! u = Some v -> v_ended v = true) ->
  (forall y, cl' y = if y =? u then d else cl y) ->
  accounts None (<[u := mk_view false d None false k]> m) (pool ∪ {[u]}) [] cl'.
Proof.
  intros [Hno Hfr Hke Hwa Hon Hcl] Hu Hold Hcl'. set (w1 := mk_view _ _ _ _ _).
  assert (Hnu : forall y v, y ∈ pool ∪ {[u]} -> y <> u -> <[u := w1]> m !! y = Some v -> y ∈ pool /\ m !! y = Some v).
  { intros y v Hy Hn. rewrite lookup_insert_ne by done. set_solver. }
  assert (Hwt : forall c w y, <[u := w1]> m !! c = Some w -> v_waits w = Some y -> m !! c = Some w).
  { by intros c w y [[<- <-]|[_ Hc]]%lookup_insert_Some Hw. }
  split; [apply NoDup_nil_2 | by intros y Hy%not_elem_of_nil | | | |].
  - intros y v _ Hy Hv He Hd. destruct (decide (y = u)) as [->|Hn]; [rewrite lookup_insert_eq in Hv; naive_solver|].
    destruct (Hnu y v Hy Hn Hv) as [? ?]. by eapply Hke.
  - intros c w y Hc Hw. destruct (Hwa c w y (Hwt _ _ _ Hc Hw) Hw) as (? & _ & ? & v & ? & ? & ?). split_and!; [set_solver | done.. |].
    exists v. rewrite lookup_insert_ne by set_solver. done.
  - intros c1 c2 x1 x2 y H1 H2 Hx1 Hx2. apply (Hon c1 c2 x1 x2 y); eauto.
  - intros y v _ Hy Hv. rewrite Hcl'. destruct (Z.eqb_spec y u) as [->|Hn].
    + rewrite lookup_insert_eq in Hv. injection Hv as <-. cbn. split; [by left|]. intros [|(c & w & Hc & Hw)]; [done|].
      destruct (Hwa c w u (Hwt _ _ _ Hc Hw) Hw) as (? & _). done.
    + destruct (Hnu y v Hy Hn Hv) as [Hy' Hv']. rewrite (Hcl y v) by done. f_equiv. split; intros (c & w & Hc & Hw); exists c, w; [|eauto].
      split; [|done]. rewrite lookup_insert_ne; [done|]. intros <-. destruct (Hwa u w y Hc Hw) as (_ & _ & He & _). rewrite (Hold w Hc) in He. done.
Qed.

(** ** The books are kept by every step *)

Definition views (s : sys) : gmap Z view := view_of <$> threads s.
Definition claims (f : Z -> story) (u : Z) : bool := f_claimed (f u).

Definition objects_ok (f : Z -> story) (s : sys) : Prop :=
  holdings (views s) (thread_pool s) (stack_pool s) /\ accounts None (views s) (thread_pool s) (free_list s) (claims f).

Lemma views_lookup s u t : threads s !! u = Some t -> views s !! u = Some (view_of t).
Proof. intros Hu. unfold views. by rewrite lookup_fmap, Hu. Qed.

Lemma views_inv s u v : views s !! u = Some v -> exists t, threads s !! u = Some t /\ v = view_of t.
Proof. unfold views. rewrite lookup_fmap. destruct (threads s !! u) as [t|]; [|done]. intros [= <-]. eauto. Qed.

Lemma views_set s u t : views (set_thread u t s) = <[u := view_of t]> (views s).
Proof. apply fmap_insert. Qed.

Lemma views_same s u t t' : threads s !! u = Some t -> view_of t' = view_of t -> views (set_thread u t' s) = views s.
Proof. intros Hu Ht. rewrite views_set, Ht. apply insert_id. by apply views_lookup. Qed.

Lemma same_view_ok f s u t t' : objects_ok f s -> threads s !! u = Some t -> view_of t' = view_of t -> objects_ok f (set_thread u t' s).
Proof. intros Ho Hu Ht. unfold objects_ok. rewrite (views_same s u t) by done. exact Ho. Qed.

(** A thread that is in its own code, exits or unwinds. *)
Definition live (t : thread) : bool :=
  match t_phase t with Joining _ | Joined _ | Ended => false | _ => true end.

Lemma live_view t t' : live t = true -> live t' = true -> t_detached t' = t_detached t -> t_stack t' = t_stack t -> view_of t' = view_of t.
Proof. destruct t as [p ? ? ? ? ? ? ? ?], t' as [p' ? ? ? ? ? ? ? ?]. cbn. intros Hp Hp' -> ->. by destruct p, p'. Qed.

Lemma first_of_true p l a : first_of p l = Some a -> p a = true.
Proof. induction l as [|b l IH]; [done|]. cbn. destruct (p b) eqn:Hb; [by intros [= <-]|done]. Qed.

(** A narrower test finds the same address, when it accepts that. *)
Lemma first_of_narrow p q l : (forall a, q a = true -> p a = true) -> (forall a, first_of p l = Some a -> q a = true) ->
  first_of q l = first_of p l.
Proof.
  intros Hqp. induction l as [|b l IH]; [done|]. cbn. destruct (p b) eqn:Hp.
  - intros Hq. by rewrite (Hq b eq_refl).
  - intros Hq. destruct (q b) eqn:Hb; [|by apply IH]. by rewrite (Hqp b Hb) in Hp.
Qed.

(** The stacks in use are of the pool, so that the lookup finds the stack of a
    thread that holds one. *)
Lemma stacks_of_pool s k : holdings (views s) (thread_pool s) (stack_pool s) -> k ∈ stack_pool s -> pool_mem k = true.
Proof. intros Hh Hk. destruct (h_owner _ _ _ Hh k Hk) as (u & v & _ & (t & _ & ->)%views_inv & Hs). exact (first_of_true _ _ _ Hs). Qed.

Lemma stack_obj_spec s t : holdings (views s) (thread_pool s) (stack_pool s) ->
  (forall k, pool_stack t = Some k -> k ∈ stack_pool s) -> sys_thread_stack_obj s t = pool_stack t.
Proof.
  intros Hh Hk. apply first_of_narrow; intros a Ha.
  - apply bool_decide_eq_true in Ha. by eapply stacks_of_pool.
  - apply bool_decide_eq_true. by apply Hk.
Qed.

Lemma recycle_one_eq s u t : threads s !! u = Some t -> sys_thread_stack_obj s t = pool_stack t ->
  sys_thread_recycle_one s u =
  mk_sys (threads s) (thread_pool s ∖ {[u]}) (stack_pool s ∖ stack_set (view_of t)) (free_list s) (large_stacks s).
Proof.
  intros Hu Hk. unfold sys_thread_recycle_one, stack_set. cbn [view_of v_stack]. rewrite Hu, Hk. f_equal.
  - case_bool_decide; [done|]. apply leibniz_equiv. set_solver.
  - destruct (pool_stack t); [case_bool_decide; [done|]|]; apply leibniz_equiv; set_solver.
Qed.

(** A thread about to leave leaves. *)
Lemma leave_ok f f' s u t : holdings (views s) (thread_pool s) (stack_pool s) -> accounts (Some u) (views s) (thread_pool s) (free_list s) (claims f) ->
  threads s !! u = Some t -> u ∈ thread_pool s \/ u = main -> t_phase t = Ended -> (forall y, y <> u -> claims f' y = claims f y) ->
  objects_ok f' (sys_thread_recycle_one s u).
Proof.
  intros Hh Ha Hu Hin He Hf. pose proof (views_lookup s u t Hu) as Hv. rewrite (recycle_one_eq s u t Hu).
  2: { apply stack_obj_spec; [done|]. intros k Hk. destruct Hin as [Hin| ->]; [by eapply (h_stack _ _ _ Hh u)|].
       pose proof (h_main_stack _ _ _ Hh _ Hv : pool_stack t = None) as Hn. by rewrite Hn in Hk. }
  split.
  - apply (holdings_remove (views s) (thread_pool s) (stack_pool s) u); [done..|]. cbn. by apply bool_decide_true.
  - apply (accounts_remove (views s)). apply (accounts_cl _ _ _ _ (claims f)); [|done]. intros y Hy. apply Hf. congruence.
Qed.

Lemma recycle_loop_ok f : forall n s, n = length (free_list s) -> objects_ok f s ->
  objects_ok f (recycle_loop n s) /\ free_list (recycle_loop n s) = [].
Proof.
  induction n as [|n IH]; intros s Hn [Hh Ha]; cbn [recycle_loop].
  { split; [done|]. symmetry in Hn. by apply length_zero_iff_nil in Hn. }
  destruct (free_list s) as [|u l] eqn:Hl; [done|]. destruct (a_free _ _ _ _ _ Ha u) as (Hin & _ & v & Hv & He & Hd); [left|].
  destruct (views_inv s u v Hv) as (t & Hu & ->). cbn in He. apply bool_decide_eq_true in He.
  assert (is_ended (set_free l s) u = true) as ->. { unfold is_ended. cbn. rewrite Hu. by apply bool_decide_true. }
  cbn [negb]. apply IH; [by injection Hn|]. apply (leave_ok f f (set_free l s) u t); [done| |done|naive_solver|done..].
  by apply accounts_head.
Qed.

Lemma recycle_ok f s : objects_ok f s -> objects_ok f (sys_thread_recycle s) /\ free_list (sys_thread_recycle s) = [].
Proof. by apply recycle_loop_ok. Qed.

(** What events say of claims. *)
Definition keeps (e : event) : bool := match e with ECreate _ _ | EClaim _ => false | _ => true end.

Lemma claims_keep f ev y : forallb keeps ev = true -> claims (extend f ev) y = claims f y.
Proof.
  unfold claims, extend. generalize (f y). induction ev as [|e ev IH]; intros g Hev; [done|].
  cbn [forallb foldl] in *. apply andb_prop in Hev as [He Hev]. rewrite IH by done.
  destruct g, e; try done; cbn [story_step]; by destruct (_ =? _).
Qed.

Lemma objects_keep f ev s : forallb keeps ev = true -> objects_ok f s -> objects_ok (extend f ev) s.
Proof. intros Hev [Hh Ha]. split; [done|]. apply (accounts_cl _ _ _ _ (claims f)); [|done]. intros y _. by apply claims_keep. Qed.

Lemma claims_create f u d y : claims (extend f [ECreate u d]) y = if y =? u then d else claims f y.
Proof. unfold claims, extend. cbn [foldl]. destruct (f y). cbn [story_step]. rewrite Z.eqb_sym. by destruct (_ =? _). Qed.

Lemma claims_claim f u ev y : forallb keeps ev = true -> claims (extend f (EClaim u :: ev)) y = if y =? u then true else claims f y.
Proof.
  intros Hev. change (extend f (EClaim u :: ev)) with (extend (extend f [EClaim u]) ev). rewrite claims_keep by done.
  unfold claims, extend. cbn [foldl]. destruct (f y). cbn [story_step]. rewrite Z.eqb_sym. by destruct (_ =? _).
Qed.

Lemma ended_view s u t : threads s !! u = Some t -> v_ended (view_of t) = true -> t_phase t = Ended.
Proof. cbn. intros _ He. by apply bool_decide_eq_true in He. Qed.

(** The kernel records of a stack of the pool what the lookup needs. *)
Lemma stack_ok_pool s k i : stack_ok s (Pool_stack (Some k)) i -> pool_stack_of i = Some k.
Proof.
  intros (_ & Hp & Ho & Hs). unfold pool_stack_of, stack_candidates. destruct cfg_userspace; cbn [first_of app].
  - by rewrite Ho, Hp.
  - replace (si_start i - K_KERNEL_STACK_RESERVED) with k by lia. by rewrite Hp.
Qed.

Lemma create_objects f s block stack i d s' r : objects_ok f s ->
  (forall u, block = Some u -> (u ∉ thread_pool (sys_thread_recycle s)) /\ u <> main) ->
  stack_ok (sys_thread_recycle s) stack i ->
  sys_thread_create s block stack i d = (s', r) ->
  objects_ok (extend f (match r with Ok u => [ECreate u d] | Err _ => [] end)) s'.
Proof.
  intros Ho Hb Hk. destruct (recycle_ok f s Ho) as [[Hh Ha] Hnil]. unfold sys_thread_create. set (s1 := sys_thread_recycle s) in *.
  rewrite Hnil in *. destruct block as [u|]; [|by intros [= <- <-]; split; rewrite ?Hnil]. destruct (Hb u eq_refl) as [Hu Hm].
  assert (Hold : forall v, views s1 !! u = Some v -> v_ended v = true).
  { intros v Hv. destruct (v_ended v) eqn:He; [done|]. by destruct (h_alive _ _ _ Hh u v Hv He). }
  assert (Hnew : forall stk lg, pool_stack_of i = stk -> (forall k, stk = Some k -> k ∉ stack_pool s1) ->
    objects_ok (extend f [ECreate u d]) (mk_sys (<[u := new_thread d i]> (threads s1)) (thread_pool s1 ∪ {[u]})
      (stack_pool s1 ∪ match stk with Some k => {[k]} | None => ∅ end) [] lg)).
  { intros stk lg <- Hs. unfold objects_ok, views. cbn [threads thread_pool stack_pool free_list]. rewrite fmap_insert. split.
    - by apply (holdings_new (views s1) _ _ u (view_of (new_thread d i))).
    - apply (accounts_new (views s1) _ (claims f)); [done..|]. intros y. apply claims_create. }
  assert (Hout : forall lg, pool_stack_of i = None ->
    objects_ok (extend f [ECreate u d]) (mk_sys (<[u := new_thread d i]> (threads s1)) (thread_pool s1 ∪ {[u]}) (stack_pool s1) [] lg)).
  { intros lg Hi. specialize (Hnew None lg Hi). cbn beta iota in Hnew. rewrite (right_id_L ∅ (∪)) in Hnew. by apply Hnew. }
  destruct stack as [|[k|]|k]; intros [= <- <-].
  - by apply Hout.
  - apply (Hnew (Some k)); [by eapply stack_ok_pool|]. intros k' [= <-]. apply Hk.
  - split; [done | by rewrite Hnil].
  - by apply Hout.
Qed.

Lemma abort_objects f ev s u t0 t : objects_ok f s -> forallb keeps ev = true -> threads s !! u = Some t0 -> live t0 = true ->
  t_detached t = t_detached t0 -> t_stack t = t_stack t0 -> objects_ok (extend f ev) (thread_abort s u t).
Proof.
  intros [Hh Ha] Hev Hu Hl Hd Hs. apply objects_keep; [done|]. pose proof (views_lookup s u t0 Hu) as Hv.
  assert (He : v_ended (view_of t0) = false) by (destruct t0 as [[] ? ? ? ? ? ? ? ?]; done).
  assert (Hw : v_waits (view_of t0) = None) by (destruct t0 as [[] ? ? ? ? ? ? ? ?]; done).
  assert (Hwk : forall t, view_of (wake u t) = vwake u (view_of t)).
  { intros [ph ? ? ? ? ? ? ? ?]. unfold wake, vwake. destruct ph; cbn; try done; (destruct (Z.eqb_spec u0 u) as [->|]; cbn;
      [by rewrite bool_decide_true | by rewrite bool_decide_false by congruence]). }
  assert (Hvs : view_of <$> <[u := set_phase Ended t]> (wake u <$> threads s) =
      <[u := mk_view true (v_detached (view_of t0)) None false (v_stack (view_of t0))]> (vwake u <$> views s)).
  { rewrite fmap_insert. f_equal; [by destruct t; cbn in *; subst|]. unfold views. rewrite <- !map_fmap_compose. apply map_fmap_ext. intros; apply Hwk. }
  assert (Hho : holdings (<[u := mk_view true (v_detached (view_of t0)) None false (v_stack (view_of t0))]> (vwake u <$> views s)) (thread_pool s) (stack_pool s)).
  { apply (holdings_update _ _ _ u (vwake u (view_of t0))); [by apply holdings_wake | by rewrite lookup_fmap, Hv | by right |].
    by destruct (vwake_same u (view_of t0)) as (_ & _ & _ & ->). }
  pose proof (accounts_end _ _ _ _ u _ Ha Hv He Hw (h_alive _ _ _ Hh u _ Hv He)) as Hacc. change (v_detached (view_of t0)) with (t_detached t0) in *.
  unfold thread_abort. rewrite Hd. destruct (t_detached t0); [unfold sys_thread_destroy; rewrite Z.eqb_refl|];
    (split; [unfold views; cbn; rewrite Hvs; exact Hho | unfold views; cbn; rewrite Hvs; exact Hacc]).
Qed.

Lemma claim_ended f s u t cur ev : objects_ok f s -> threads s !! u = Some t -> u ∈ thread_pool s -> t_phase t = Ended -> t_detached t = false ->
  claims f u = false -> u <> cur -> forallb keeps ev = true -> forall t', t' = t \/ t' = set_detached t ->
  objects_ok (extend f (EClaim u :: ev)) (sys_thread_destroy (set_thread u t' s) cur u).
Proof.
  intros [Hh Ha] Hu Hin He Hd Hc Hne Hev t' Ht'. unfold sys_thread_destroy. rewrite (proj2 (Z.eqb_neq u cur)) by done. cbn [negb].
  pose proof (views_lookup s u t Hu) as Hv. assert (Hvt : view_of t' = mk_view true (t_detached t') None false (v_stack (view_of t))).
  { destruct Ht' as [-> | ->]; destruct t; cbn in *; by subst. }
  apply (leave_ok f _ _ u t'); [| |apply lookup_insert_eq|by left| |].
  - rewrite views_set, Hvt. apply (holdings_update _ _ _ u (view_of t)); [done..|by right|done].
  - rewrite views_set, Hvt. apply accounts_claimed; try done. cbn. by apply bool_decide_true.
  - by destruct Ht' as [-> | ->].
  - intros y Hy. rewrite claims_claim by done. by rewrite (proj2 (Z.eqb_neq y u)).
Qed.

Lemma joined_objects f ev s cur t u s' x : objects_ok f s -> threads s !! cur = Some t -> t_phase t = Joined u -> forallb keeps ev = true ->
  z_thread_epilogue (set_thread cur (set_phase Running t) s) cur u = (s', Ok x) ->
  objects_ok (extend f ev) s' /\ exists v, threads s !! u = Some v /\ t_phase v = Ended /\ x = t_result v.
Proof.
  intros [Hh Ha] Hc Hp Hev He. pose proof (views_lookup s cur t Hc) as Hv.
  destruct (a_wait _ _ _ _ _ Ha cur (view_of t) u Hv) as (Hin & _ & _ & v & Hvu & Hd & Hwo); [cbn; by rewrite Hp|].
  destruct (views_inv s u v Hvu) as (tu & Hu & ->). cbn in Hwo. rewrite Hp in Hwo. apply bool_decide_eq_true in Hwo.
  assert (Hne : cur <> u) by (intros ->; congruence). revert He. unfold z_thread_epilogue. cbn [threads set_thread]. rewrite lookup_insert_ne, Hu by done.
  intros [= <- <-]. split; [|by exists tu]. apply objects_keep; [done|]. unfold sys_thread_destroy. rewrite (proj2 (Z.eqb_neq u cur)) by done. cbn [negb].
  assert (Hvr : view_of (set_phase Running t) = mk_view false (t_detached t) None false (pool_stack t)) by (by destruct t).
  apply (leave_ok f f _ u tu); [| |by cbn; rewrite lookup_insert_ne|by left|done..].
  - rewrite views_set, Hvr. apply (holdings_update _ _ _ cur (view_of t)); [done..| |done]. left. cbn. by rewrite Hp.
  - rewrite views_set, Hvr. apply (accounts_leave _ _ _ _ cur (view_of t) u); [done..| |done]. cbn. by rewrite Hp.
Qed.

(** What a thread does to itself until it ends. *)
Definition calm (t t' : thread) : Prop := live t' = true /\ t_detached t' = t_detached t /\ t_stack t' = t_stack t.

Lemma calm_ok f ev s u t t' : objects_ok f s -> threads s !! u = Some t -> live t = true -> calm t t' -> forallb keeps ev = true ->
  objects_ok (extend f ev) (set_thread u t' s).
Proof. intros Ho Hu Hl (Hl' & Hd & Hs) Hev. apply objects_keep; [done|]. eapply same_view_ok; [done..|]. by apply live_view. Qed.

Ltac calmly := repeat (case_match || (progress simplify_eq/=) || intro); try done.

Lemma try_actuate_calm t t' b : live t = true -> z_thread_cancel_try_actuate t = (t', b) -> calm t t'.
Proof. unfold z_thread_cancel_try_actuate. calmly. Qed.

Lemma handler_calm t t' b : live t = true -> z_sig_handler_cancel t = (t', b) -> calm t t'.
Proof. unfold z_sig_handler_cancel. calmly. Qed.

Lemma deliver_calm t t' b q : live t = true -> z_thread_cancel_deliver_pending t q = (t', b) -> calm t t'.
Proof.
  unfold z_thread_cancel_deliver_pending. intros Hl. destruct (negb _); [by intros [= <- <-]|]. destruct (negb _); [by intros [= <- <-]|].
  destruct (t_async t); [destruct q; [by apply handler_calm | by intros [= <- <-]] | by apply try_actuate_calm].
Qed.

Lemma qstate_calm t nw q t' old b : live t = true -> k_thread_cancel_qstate t nw q = (t', old, b) -> calm t t'.
Proof.
  unfold k_thread_cancel_qstate. intros Hl. destruct nw as [[|]|]; [|by intros [= <- <- <-]..].
  destruct (z_thread_cancel_deliver_pending _ _) as [t1 b1] eqn:Hd. intros [= <- <- <-]. exact (deliver_calm _ _ _ _ (Hl : live (set_masked false t) = true) Hd).
Qed.

Lemma qtype_calm t nw q t' old b : live t = true -> k_thread_cancel_qtype t nw q = (t', old, b) -> calm t t'.
Proof.
  unfold k_thread_cancel_qtype. intros Hl. destruct nw as [[|]|]; [|by intros [= <- <- <-]..].
  destruct (z_thread_cancel_deliver_pending _ _) as [t1 b1] eqn:Hd. intros [= <- <- <-]. exact (deliver_calm _ _ _ _ (Hl : live (set_async true t) = true) Hd).
Qed.

Lemma check_calm t t' b : live t = true -> z_syscall_cancel_check t = (t', b) -> calm t t'.
Proof. unfold z_syscall_cancel_check. destruct (t_async t); [by intros ? [= <- <-] | apply try_actuate_calm]. Qed.

Lemma pop_calm t x : live t = true -> calm t (fst (fst (k_thread_cleanup_pop t x))).
Proof. unfold k_thread_cleanup_pop. by destruct (t_cleanup t). Qed.

Lemma running_live t : t_phase t = Running -> live t = true.
Proof. unfold live. by intros ->. Qed.

Lemma cancel_objects f s u t q : objects_ok f s -> threads s !! u = Some t -> objects_ok f (fst (k_thread_cancel s u q)).
Proof.
  intros Ho Hu. destruct (decide (t_phase t = Ended)) as [He|Hne]; [by rewrite (cancel_ended s u t q)|].
  destruct (cancel_thread s u t q Hu Hne) as [b ->]. apply (same_view_ok f s u t); [done..|].
  unfold requested. by destruct b, (t_pending t).
Qed.

(** A join, by a thread that runs. *)
Lemma rejoin_objects f s cur c u t s' r : objects_ok f s -> threads s !! cur = Some c -> t_phase c = Running ->
  threads s !! u = Some t -> u ∈ thread_pool s -> k_thread_rejoin s cur u = (s', r) ->
  let ev := match r with Some (Ok x) => [EClaim u; EJoined u x] | Some (Err _) => [] | None => [EClaim u] end in
  (forall v, EClaim v ∈ ev -> claims f v = false) -> objects_ok (extend f ev) s' /\
  forall x, r = Some (Ok x) -> t_phase t = Ended /\ x = t_result t.
Proof.
  intros Ho Hc Hp Hu Hin. unfold k_thread_rejoin, z_thread_epilogue. rewrite Hu, Hc.
  destruct (t_detached t) eqn:Hd; [by intros [= <- <-]|]. case_bool_decide as He.
  - intros [= <- <-] Hcl. split; [|by intros x [= <-]]. assert (Hid : set_thread u t s = s).
    { destruct s as [th po st fr lg]. unfold set_thread. cbn in *. by rewrite insert_id. }
    rewrite <- Hid at 1. apply (claim_ended f s u t cur [_]); try done; [apply Hcl; left | congruence | by left].
  - destruct (_ || _) eqn:Hdl; intros [= <- <-] Hcl; [done|]. split; [|done]. apply orb_false_elim in Hdl as [Hne%Z.eqb_neq _].
    assert (Hclu : claims f u = false) by (apply Hcl; left). destruct Ho as [Hh Ha].
    assert (Hvc : view_of (set_phase (Joining u) c) = mk_view false (v_detached (view_of c)) (Some u) false (v_stack (view_of c))) by (by destruct c).
    assert (Hec : v_ended (view_of c) = false) by (cbn; by rewrite Hp). split; rewrite views_set, Hvc.
    + apply (holdings_update _ _ _ cur (view_of c)); [done | by apply views_lookup | by left | done].
    + apply (accounts_wait _ _ _ (claims f) _ cur (view_of c) u (view_of t));
        try done; try (by apply views_lookup); try (cbn; by rewrite Hp); try (by intros ->).
      * cbn. by apply bool_decide_false.
      * intros y. by apply (claims_claim f u []).
Qed.

Lemma detach_objects f s cur u t : objects_ok f s -> threads s !! u = Some t -> u ∈ thread_pool s -> (u = cur -> t_phase t <> Ended) ->
  let ev := if t_detached t then [] else [EClaim u] in
  (forall v, EClaim v ∈ ev -> claims f v = false) -> objects_ok (extend f ev) (fst (k_thread_detach s cur u)).
Proof.
  intros Ho Hu Hin Hcur. unfold k_thread_detach. rewrite Hu. destruct (t_detached t) eqn:Hd; [done|]. cbn [fst]. intros Hcl.
  assert (Hclu : claims f u = false) by (apply Hcl; left). case_bool_decide as He.
  - apply (claim_ended f s u t cur []); try done; [intros ->; by apply Hcur | by right].
  - destruct Ho as [Hh Ha]. assert (Hee : v_ended (view_of t) = false) by (cbn; by apply bool_decide_false).
    assert (Hvd : view_of (set_detached t) = mk_view (v_ended (view_of t)) true (v_waits (view_of t)) (v_woken (view_of t)) (v_stack (view_of t))) by done.
    split; rewrite views_set, Hvd.
    + apply (holdings_update _ _ _ u (view_of t)); [done | by apply views_lookup | by left | done].
    + apply (accounts_detach _ _ _ (claims f)); try done; [by apply views_lookup|]. intros y. by apply (claims_claim f u []).
Qed.

(** A result is told of a thread that has ended, and is the one it keeps. *)
Definition told (s : sys) (ev : list event) : Prop :=
  forall u x, EJoined u x ∈ ev -> exists t, threads s !! u = Some t /\ t_phase t = Ended /\ x = t_result t.

Lemma told_none s ev : forallb (fun e => match e with EJoined _ _ => false | _ => true end) ev = true -> told s ev.
Proof. intros Hev u x Hin. rewrite forallb_forall in Hev. by specialize (Hev _ (proj1 (list_elem_of_In _ _) Hin)). Qed.

Lemma objects_step_ok f s ev s' : step s ev s' -> objects_ok f s -> (forall u, EClaim u ∈ ev -> claims f u = false) ->
  objects_ok (extend f ev) s' /\ told s ev.
Proof.
  intros Hst Ho Hcl. destruct Hst as
    [s cur t block stack i d s' r Hc Hb Hk Hcr | s | s cur t t' Hc Hp Hk | s cur t b t' old w q (Hc & Hp & _) Hk
    | s cur t b t' old w q (Hc & Hp & _) Hk | s cur t ro ar (Hc & Hp & _) | s cur t x (Hc & Hp & _) | s cur c u t q Hc Hp Hu
    | s cur t t' b Hc Hp _ _ Hk | s cur t u v (Hc & Hp & _) Hu Hin | s cur t u v s' r (Hc & Hp & _) Hu Hin Hj | s cur t u s' x Hc Hp He
    | s cur t r (Hc & Hp & _) | s cur t r (Hc & Hp & _) | s cur t r q Hc Hp | s cur t r Hc Hp | s cur t r q Hc Hp | s cur t t1 Hc Hp ->];
    try (pose proof (running_live t Hp) as Hl).
  - split; [by eapply create_objects | by destruct r; apply told_none].
  - split; [by apply recycle_ok | by apply told_none].
  - split; [|by apply told_none]. eapply calm_ok; [done..| |done]. by eapply check_calm.
  - split; [|by destruct w; apply told_none]. eapply calm_ok; [done..| |by destruct w]. by eapply qstate_calm.
  - split; [|by destruct w; apply told_none]. eapply calm_ok; [done..| |by destruct w]. by eapply qtype_calm.
  - split; [|by apply told_none]. by eapply calm_ok.
  - split; [|by apply told_none]. eapply calm_ok; [done..| |done]. by apply pop_calm.
  - split; [|by apply told_none; destruct (_ && _)]. apply objects_keep; [by destruct (_ && _)|]. by eapply cancel_objects.
  - assert (Hl : live (set_sig false t) = true) by (unfold live; cbn; by destruct Hp as [-> | ->]).
    split; [|by apply told_none; destruct (_ && _)]. eapply calm_ok; [done..| |by destruct (_ && _)]. by apply (handler_calm (set_sig false t) t' b).
  - split; [|by apply told_none; destruct (t_detached v)]. apply detach_objects; [done..| |done]. intros ->. congruence.
  - destruct (rejoin_objects f s cur t u v s' r Ho Hc Hp Hu Hin Hj Hcl) as [Ho' Hr]. split; [done|].
    destruct r as [[x|e]|]; [|by apply told_none..]. intros u' x' Hin'. exists v. destruct (Hr x eq_refl) as [He Hx].
    apply elem_of_cons in Hin' as [?|[= -> ->]%list_elem_of_singleton]; done.
  - destruct (joined_objects f [EJoined u x] s cur t u s' x Ho Hc Hp eq_refl He) as [Ho' Hv]. split; [done|].
    by intros u' x' [= -> ->]%list_elem_of_singleton.
  - split; [|by apply told_none]. by eapply calm_ok.
  - split; [|by apply told_none]. by eapply calm_ok.
  - split; [|by apply told_none]. pose proof (cancel_objects f s cur t q Ho Hc) as Hoc.
    destruct (cancel_thread s cur t q Hc) as [b Hs]; [by rewrite Hp|]. rewrite Hs in *. cbn [threads set_thread]. rewrite lookup_insert_eq.
    eapply (same_view_ok f _ cur); [done | apply lookup_insert_eq |].
    apply live_view; [|done..]. unfold live, requested. destruct b, (t_pending t); cbn; by rewrite Hp.
  - split; [|by apply told_none]. eapply (calm_ok f []); [done..| |done|done]. unfold live. by rewrite Hp.
  - assert (Hl : live t = true) by (unfold live; by rewrite Hp). unfold exit_enable.
    destruct (k_thread_cancel_qstate _ _ _) as [[t' old] b] eqn:Hk. cbn [snd]. pose proof (qstate_calm _ _ _ _ _ _ Hl Hk) as Hca. destruct b.
    + split; [|by apply told_none]. by eapply calm_ok.
    + split; [|by apply told_none]. destruct Hca as (_ & ? & ?). by eapply abort_objects.
  - assert (Hl : live t = true) by (unfold live; by rewrite Hp). destruct (z_syscall_cancel_check t) as [t1 b] eqn:Hk. cbn [fst].
    pose proof (check_calm _ _ _ Hl Hk) as (Hl1 & Hd & Hs). unfold k_thread_cleanup_pop. destruct (t_cleanup t1).
    + split; [|by apply told_none]. by eapply abort_objects.
    + split; [|by apply told_none]. by eapply calm_ok.
Qed.

(** ** Runs *)

Definition life_ok (h : list event) (s : sys) : Prop :=
  stories_ok (fun u => story_of u h) s /\ objects_ok (fun u => story_of u h) s.

Lemma stories_ext f g s : (forall u, f u = g u) -> stories_ok f s -> stories_ok g s.
Proof. intros He Hs u t Hu. rewrite <- He. by apply Hs. Qed.

Lemma objects_ext f g s : (forall u, f u = g u) -> objects_ok f s -> objects_ok g s.
Proof. intros He [Hh Ha]. split; [done|]. apply (accounts_cl _ _ _ _ (claims f)); [|done]. intros y _. unfold claims. by rewrite He. Qed.

Lemma boot_ok : life_ok [] boot.
Proof.
  assert (Hl : forall u t, threads boot !! u = Some t -> u = main /\ t = new_thread true main_stack).
  { intros u t Hu. cbn in Hu. apply lookup_singleton_Some in Hu as [<- <-]. done. }
  assert (Hv : forall u v, views boot !! u = Some v -> u = main /\ v = view_of (new_thread true main_stack)).
  { intros u v (t & Hu & ->)%views_inv. by destruct (Hl u t Hu) as [-> ->]. }
  split; [by intros u t [-> ->]%Hl|]. split.
  - split; cbn; [set_solver| |set_solver| |set_solver|set_solver|set_solver].
    + intros u v [-> _]%Hv _. by left.
    + intros v [_ ->]%Hv. exact main_stack_outside.
  - split; cbn; [apply NoDup_nil_2 | set_solver | set_solver | | |set_solver].
    + by intros c w u [_ ->]%Hv.
    + intros c c' w w' u [-> ->]%Hv [-> ->]%Hv. done.
Qed.

Lemma run_ok h s : run boot h s -> life_ok h s.
Proof.
  induction 1 as [|h s1 ev s2 _ [Hs Ho] Hst Hcl]; [apply boot_ok|]. split.
  - apply (stories_ext (extend (fun u => story_of u h) ev)); [|by eapply story_step_ok].
    intros u. unfold extend, story_of. by rewrite foldl_app.
  - apply (objects_ext (extend (fun u => story_of u h) ev)); [|by eapply objects_step_ok].
    intros u. unfold extend, story_of. by rewrite foldl_app.
Qed.

(** *** Large stacks

    No step gives one back. *)
Lemma recycle_loop_large n : forall s, large_stacks (recycle_loop n s) = large_stacks s.
Proof.
  induction n as [|n IH]; intros s; cbn; [done|]. destruct (free_list s) as [|u l]; [done|].
  by destruct (negb _); rewrite IH.
Qed.

Lemma recycle_large s : large_stacks (sys_thread_recycle s) = large_stacks s.
Proof. apply recycle_loop_large. Qed.

Lemma destroy_large s cur u : large_stacks (sys_thread_destroy s cur u) = large_stacks s.
Proof. unfold sys_thread_destroy. by destruct (negb _). Qed.

Lemma abort_large s cur t : large_stacks (thread_abort s cur t) = large_stacks s.
Proof. unfold thread_abort. destruct (t_detached t); [by rewrite destroy_large|done]. Qed.

Lemma cancel_large s u q : large_stacks (fst (k_thread_cancel s u q)) = large_stacks s.
Proof. unfold k_thread_cancel. repeat case_match; done. Qed.

Lemma step_large s ev s' : step s ev s' -> large_stacks s ⊆ large_stacks s'.
Proof.
  destruct 1 as
    [s cur t block stack i d s' r Hc Hb Hk Hcr | s | | | | | | s cur c u t q Hc Hp Hu
    | | s cur t u v Hc Hu Hin | s cur t u v s' r Hc Hu Hin Hj | s cur t u s' x Hc Hp He
    | | | s cur t r q Hc Hp | | s cur t r q Hc Hp | s cur t t1 Hc Hp ->]; try done.
  - pose proof (recycle_large s) as Hr. unfold sys_thread_create in Hcr.
    destruct block as [b|]; [|by injection Hcr as <- <-; rewrite Hr].
    destruct stack as [|[k|]|k]; injection Hcr as <- <-; cbn; rewrite Hr; set_solver.
  - by rewrite recycle_large.
  - by rewrite cancel_large.
  - unfold k_thread_detach. rewrite Hu. destruct (t_detached v); [done|]. cbn [fst]. by case_bool_decide; [rewrite destroy_large|].
  - unfold k_thread_rejoin, z_thread_epilogue in Hj. rewrite Hu in Hj. destruct (threads s !! cur); [|by injection Hj as <- _].
    destruct (t_detached v); [by injection Hj as <- _|]. case_bool_decide.
    + injection Hj as <- _. by rewrite destroy_large.
    + by destruct (_ || _); injection Hj as <- _.
  - unfold z_thread_epilogue in He. destruct (threads _ !! u); [|done]. injection He as <- _. by rewrite destroy_large.
  - pose proof (cancel_large s cur q) as Hl. cbn zeta.
    destruct (threads (fst (k_thread_cancel s cur q)) !! cur) as [t'|]; [|by rewrite Hl].
    change (large_stacks (set_thread _ _ ?x)) with (large_stacks x). by rewrite Hl.
  - unfold exit_enable. destruct (k_thread_cancel_qstate _ _ _) as [[t' old] b]. destruct b; [done|by rewrite abort_large].
  - destruct (k_thread_cleanup_pop _ _) as [[t2 b] l]. destruct b; [done|by rewrite abort_large].
Qed.

(** C5: In every run of a program that joins or detaches each thread at most
    once, the value a join tells is the one the thread gave to pthread_exit or
    returned, or PTHREAD_CANCELED when it never exited, and then its
    cancellation was requested; only a request that arrives while the thread
    already unwinds replaces an exit value by PTHREAD_CANCELED.  By then
    exactly the cleanup handlers that were pushed and not popped have run,
    last pushed first, except for a thread that exited without being able to
    queue its own cancellation signal (of the asynchronous type, with the
    signal queue full): that one was aborted and has run none of them. *)
Theorem thread_results h s ev s' u r : run boot h s -> step s ev s' ->
  (forall v, EClaim v ∈ ev -> f_claimed (story_of v h) = false) -> EJoined u r ∈ ev ->
  let f := story_of u h in
  r = (if f_late f then K_THREAD_CANCELLED else default K_THREAD_CANCELLED (f_exit f)) /\
  (f_exit f = None -> f_requested f = true) /\
  (if f_aborted f then f_ran f = [] /\ f_exit f <> None else f_ran f = f_stack f).
Proof.
  intros [Hs Ho]%run_ok Hst Hcl Hin f. destruct (objects_step_ok _ _ _ _ Hst Ho Hcl) as [_ Ht].
  destruct (Ht u r Hin) as (t & Hu & Hp & ->). pose proof (Hs u t Hu : thread_ok f t) as Hok. unfold thread_ok in Hok. rewrite Hp in Hok.
  destruct Hok as (Hx & Hr & Hab). split_and!; [done..|]. destruct (f_aborted f); [by destruct Hab as (_ & ? & ?) | done].
Qed.

(** C29: In every run, a thread that is in its own code acts on cancellation
    as the code decides it: at a cancellation point, pthread_testcancel
    included, it unwinds if and only if its cancellation was requested, is
    enabled and is of the deferred type (a thread of the asynchronous type
    goes on, against the documentation of pthread_testcancel, which says that
    it does not return, and of the kernel calls, which says that all
    cancellation is deferred); when it enables cancellation, or asks for the
    asynchronous type while it is enabled, it unwinds if and only if a request
    came, where the asynchronous type also needs a block of the signal queue;
    otherwise it goes on and the request stays. *)
Theorem cancel_acts h s u t q : run boot h s -> threads s !! u = Some t -> t_phase t = Running ->
  let asked := f_requested (story_of u h) in
  snd (pthread_testcancel t) = negb (t_async t) && negb (t_masked t) && asked /\
  snd (k_thread_cancel_qstate t (Some true) q) = asked && (negb (t_async t) || q) /\
  snd (k_thread_cancel_qtype t (Some true) q) = asked && negb (t_masked t) && q /\
  forall b t' old, k_thread_cancel_qstate t b q = (t', old, false) \/ k_thread_cancel_qtype t b q = (t', old, false) ->
    t_phase t' = Running /\ t_pending t' = asked.
Proof.
  intros [Hs Ho]%run_ok Hu Hp asked. pose proof (Hs u t Hu) as Hok. unfold thread_ok in Hok. rewrite Hp in Hok.
  destruct Hok as (_ & _ & _ & _ & _ & _ & Hreq & _). cbn beta in Hreq. fold asked in Hreq. rewrite <- Hreq. clear Hreq asked Hs Ho Hu.
  destruct t as [ph d a m si p r c st]. cbn in Hp. subst ph. split_and!; [destruct a, m, p; done | destruct a, p, q; done | destruct m, p, q; done |].
  intros b t' old [H|H]; destruct b as [[|]|], a, m, p, q; cbn in H; injection H as <- <- || discriminate H; done.
Qed.


End life.
End calls.

(** ** A program

    The first thread, 1, creates thread 5, which pushes a handler and exits with 42. *)
#[local] Instance demo_layout : StackLayout :=
  {| cfg_userspace := false; K_KERNEL_STACK_RESERVED := 16; pool_mem a := (0x1000 <=? a) && (a <? 0x2000);
     main_stack := mk_stack_info 0x8010 0 0x8000; main_stack_outside := eq_refl |}.

Definition thread_at (s : sys) (u : Z) : thread := default (new_thread true main_stack) (threads s !! u).
Definition info_at (a : Z) : stack_info := mk_stack_info (a + 16) 0 a.

Definition d_created : sys := fst (sys_thread_create (boot 1) (Some 5) (Pool_stack (Some 0x1000)) (info_at 0x1000) false).
Definition d_pushed : sys := set_thread 5 (k_thread_cleanup_push (thread_at d_created 5) 8 9) d_created.
Definition d_exit1 : sys := set_thread 5 (exit_disable 42 (thread_at d_pushed 5)) d_pushed.
Definition d_exit2 : sys := let s' := fst (k_thread_cancel d_exit1 5 true) in
  match threads s' !! 5 with Some t' => set_thread 5 (set_phase (Exit_requested 42) t') s' | None => s' end.
Definition d_exit3 : sys := set_thread 5 (exit_set 42 (thread_at d_exit2 5)) d_exit2.
Definition d_unwinds : sys := exit_enable d_exit3 5 (thread_at d_exit3 5) true.
Definition unwind (s : sys) : sys :=
  match k_thread_cleanup_pop (fst (z_syscall_cancel_check (thread_at s 5))) true with
  | (t2, true, _) => set_thread 5 t2 s
  | (t2, false, _) => thread_abort s 5 t2
  end.

Ltac concrete := vm_compute; try reflexivity; try discriminate.

Lemma claims_nothing h ev : forallb (fun e => match e with EClaim _ => false | _ => true end) ev = true ->
  forall u, EClaim u ∈ ev -> f_claimed (story_of u h) = false.
Proof. intros Hev u Hin. rewrite forallb_forall in Hev. by specialize (Hev _ (proj1 (list_elem_of_In _ _) Hin)). Qed.

Lemma demo_created : run 1 (boot 1) [ECreate 5 false] d_created.
Proof.
  refine (run_snoc 1 _ [] (boot 1) [ECreate 5 false] _ (run_nil 1 _) _ _); [|by apply claims_nothing].
  refine (step_create 1 (boot 1) 1 (new_thread true main_stack) (Some 5) (Pool_stack (Some 0x1000)) (info_at 0x1000) false d_created (Ok 5) _ _ _ _).
  - split_and!; concrete.
  - intros u [= <-]. split; [|done]. vm_compute. set_solver.
  - split_and!; [vm_compute; set_solver|reflexivity..].
  - reflexivity.
Qed.

Lemma demo_unwinds : run 1 (boot 1) [ECreate 5 false; EPush 5 (8, 9); EExit 5 42; EActed 5] d_unwinds.
Proof.
  refine (run_snoc 1 _ ([ECreate 5 false; EPush 5 (8, 9); EExit 5 42] ++ []) d_exit3 [EActed 5] _ _ _ _); [| |by apply claims_nothing].
  2: by refine (step_exit_enable 1 d_exit3 5 (thread_at d_exit3 5) 42 true _ _); concrete.
  apply run_snoc with (s1 := d_exit2); [rewrite <- (app_nil_r [ECreate _ _; _; _]) | |by apply claims_nothing].
  2: by refine (step_exit_set 1 d_exit2 5 (thread_at d_exit2 5) 42 _ _); concrete.
  apply run_snoc with (s1 := d_exit1); [|  |by apply claims_nothing].
  2: by refine (step_exit_request 1 d_exit1 5 (thread_at d_exit1 5) 42 true _ _); concrete.
  refine (run_snoc 1 _ [ECreate 5 false; EPush 5 (8, 9)] d_pushed [EExit 5 42] _ _ _ _); [| |by apply claims_nothing].
  2: by refine (step_exit 1 d_pushed 5 (thread_at d_pushed 5) 42 _); split_and!; concrete.
  refine (run_snoc 1 _ [ECreate 5 false] d_created [EPush 5 (8, 9)] _ _ _ _); [| |by apply claims_nothing].
  2: by refine (step_push 1 d_created 5 (thread_at d_created 5) 8 9 _); split_and!; concrete.
  exact demo_created.
Qed.

Lemma demo_ends h s : run 1 (boot 1) h s -> threads s !! 5 = Some (thread_at s 5) -> t_phase (thread_at s 5) = Unwinding ->
  t_cleanup (fst (z_syscall_cancel_check (thread_at s 5))) = [(8, 9)] ->
  threads (unwind s) !! 5 = Some (thread_at (unwind s) 5) -> t_phase (thread_at (unwind s) 5) = Unwinding ->
  t_cleanup (fst (z_syscall_cancel_check (thread_at (unwind s) 5))) = [] ->
  run 1 (boot 1) ((h ++ [ERan 5 (8, 9)]) ++ [EEnded 5]) (unwind (unwind s)).
Proof.
  intros Hr Hu Hp Hc Hu' Hp' Hc'. refine (run_snoc 1 _ _ (unwind s) _ _ _ _ _); [| |by apply claims_nothing].
  - refine (run_snoc 1 _ _ s _ _ Hr _ _); [|by apply claims_nothing].
    pose proof (step_unwind 1 s 5 (thread_at s 5) _ Hu Hp eq_refl) as Hst. by rewrite Hc in Hst.
  - pose proof (step_unwind 1 (unwind s) 5 (thread_at (unwind s) 5) _ Hu' Hp' eq_refl) as Hst. by rewrite Hc' in Hst.
Qed.

Definition d_ended : sys := unwind (unwind d_unwinds).
Definition d_late : sys := unwind (unwind (fst (k_thread_cancel d_unwinds 5 true))).

Lemma demo_ended : run 1 (boot 1) [ECreate 5 false; EPush 5 (8, 9); EExit 5 42; EActed 5; ERan 5 (8, 9); EEnded 5] d_ended.
Proof. apply (demo_ends _ d_unwinds demo_unwinds); concrete. Qed.

Lemma demo_late : run 1 (boot 1) [ECreate 5 false; EPush 5 (8, 9); EExit 5 42; EActed 5; ECancel 5; ERan 5 (8, 9); EEnded 5] d_late.
Proof.
  apply (demo_ends ([ECreate 5 false; EPush 5 (8, 9); EExit 5 42; EActed 5] ++ [ECancel 5]) (fst (k_thread_cancel d_unwinds 5 true))); try by concrete.
  apply run_snoc with (s1 := d_unwinds); [exact demo_unwinds | |by apply claims_nothing].
  exact (step_cancel 1 d_unwinds 1 (thread_at d_unwinds 1) 5 (thread_at d_unwinds 5) true ltac:(by concrete) ltac:(by concrete) ltac:(by concrete)).
Qed.

(** The join of a thread that has ended. *)
Lemma demo_join s r : snd (k_thread_rejoin s 1 5) = Some (Ok r) -> threads s !! 1 = Some (new_thread true main_stack) ->
  threads s !! 5 = Some (thread_at s 5) -> 5 ∈ thread_pool s -> step 1 s [EClaim 5; EJoined 5 r] (fst (k_thread_rejoin s 1 5)).
Proof.
  intros Hr H1 H5 Hin. destruct (k_thread_rejoin s 1 5) as [s' r'] eqn:Hj. cbn in *. subst r'.
  exact (step_join 1 s 1 _ 5 _ s' (Some (Ok r)) (conj H1 (conj eq_refl eq_refl)) H5 Hin Hj).
Qed.

Lemma demo_claim (r : Z) h v : f_claimed (story_of 5 h) = false -> EClaim v ∈ [EClaim 5; EJoined 5 r] -> f_claimed (story_of v h) = false.
Proof. intros Hh Hin. apply elem_of_cons in Hin as [[= ->]|?%list_elem_of_singleton]; done. Qed.

(** A thread exits with 42, is asked to be cancelled while its cleanup handler is due, and is joined: the join
    tells PTHREAD_CANCELED. *)
Lemma late_cancel_overrides : exists s', step 1 d_late [EClaim 5; EJoined 5 K_THREAD_CANCELLED] s'.
Proof. eexists. apply demo_join; by concrete. Qed.

(** A new thread cannot be cancelled until it enables cancellation, whatever its attributes say. *)
Lemma new_thread_uncancellable d k : z_syscall_cancel_check (set_pending true (new_thread d k)) = (set_pending true (new_thread d k), false).
Proof. done. Qed.

(** A thread of the asynchronous type that exits while the signal queue is full ends without its cleanup handlers. *)
Lemma async_exit_skips_cleanup s u t r : t_phase t = Exit_result r -> t_async t = true -> t_pending t = true ->
  exit_enable s u t false = thread_abort s u (set_masked false t).
Proof. intros Hp Ha Hpe. unfold exit_enable, k_thread_cancel_qstate, z_thread_cancel_deliver_pending. cbn. by rewrite Hpe, Ha. Qed.

Lemma thread_results_witness :
  let f := story_of 5 [ECreate 5 false; EPush 5 (8, 9); EExit 5 42; EActed 5; ERan 5 (8, 9); EEnded 5] in
  42 = (if f_late f then K_THREAD_CANCELLED else default K_THREAD_CANCELLED (f_exit f)) /\
  (f_exit f = None -> f_requested f = true) /\
  (if f_aborted f then f_ran f = [] /\ f_exit f <> None else f_ran f = f_stack f).
Proof.
  apply (thread_results 1 _ d_ended [EClaim 5; EJoined 5 42] (fst (k_thread_rejoin d_ended 1 5)) 5 42).
  - exact demo_ended.
  - apply demo_join; by concrete.
  - intros v. by apply demo_claim.
  - right. left.
Defined.

Definition d_enabled : sys := set_thread 5 (fst (fst (k_thread_cancel_qstate (thread_at d_created 5) (Some true) true))) d_created.
Definition d_asked : sys := fst (k_thread_cancel d_enabled 5 true).

Lemma demo_asked : run 1 (boot 1) [ECreate 5 false; ECancel 5] d_asked.
Proof.
  refine (run_snoc 1 _ ([ECreate 5 false] ++ []) d_enabled [ECancel 5] _ _ _ _); [| |by apply claims_nothing].
  - apply run_snoc with (s1 := d_created); [exact demo_created | |by apply claims_nothing].
    refine (step_state 1 d_created 5 (thread_at d_created 5) true _ false false true _ _); [split_and!; by concrete | reflexivity].
  - exact (step_cancel 1 d_enabled 1 (thread_at d_enabled 1) 5 (thread_at d_enabled 5) true ltac:(by concrete) ltac:(by concrete) ltac:(by concrete)).
Qed.

Lemma cancel_acts_witness : snd (pthread_testcancel (thread_at d_asked 5)) = true.
Proof. exact (proj1 (cancel_acts 1 _ d_asked 5 (thread_at d_asked 5) true demo_asked eq_refl eq_refl)). Defined.


(** *** The lookup of a stack

    A thread runs on its caller's stack, of which the kernel has carved out
    [delta] bytes: the address that much before the stack is tried too, and
    where a stack of the pool that another thread uses lies there, that one is
    given back. *)
Lemma delta_finds_another_stack :
  let s := set_thread 6 (set_phase Ended (new_thread false (mk_stack_info 0x2010 0x1000 0x2000))) d_created in
  stack_pool s = {[0x1000]} /\ sys_thread_stack_obj s (thread_at s 6) = Some 0x1000 /\
  stack_pool (sys_thread_recycle_one s 6) = ∅.
Proof. split_and!; vm_compute; reflexivity. Qed.

(** A large stack stays taken when the thread has ended and its object was
    given back. *)
Lemma large_stack_leaks :
  let s0 := fst (sys_thread_create (boot 1) (Some 5) (Large_stack 0x5000) (info_at 0x5000) true) in
  let s := sys_thread_recycle (thread_abort s0 5 (thread_at s0 5)) in
  thread_pool s = ∅ /\ stack_pool s = ∅ /\ large_stacks s = {[0x5000]}.
Proof. split_and!; vm_compute; reflexivity. Qed.
