(* ===== verification/Once.v ===== *)
(** * One-time initialisation
    (sys_thread_once of the patch sys-thread; pthread_once of threads_base/pthread.c)

    The callers of pthread_once of one flag, interleaved at their accesses
    to the flag and at the start and the end of the routine. *)

From stdpp Require Import base list.
From Stdlib Require Import ZArith Lia.
From S2P Require Import Prelude.

Local Open Scope Z_scope.

(** Where a caller is: before the compare-and-swap; in the routine; before
    the flag is set; in the loop; back; ended inside the routine. *)
Inductive caller := At_cas | In_func | At_set | Polling | Returned | Cancelled.

#[export] Instance caller_eq_dec : EqDecision caller.
Proof. solve_decision. Defined.

(** The flag, the callers, and those that have begun and finished the routine. *)
Record once := mk_once { flag : Z; callers : list caller; began : list nat; finished : list nat }.

Section Once.
(** CONFIG_64BIT *)
Context (is64 : bool).

Definition once_wait : Z := if is64 then 0x3a173a173a173a17 else 0x3a173a17.
Definition once_done : Z := if is64 then swrap 64 0xd02ed02ed02ed02e else swrap 32 0xd02ed02e.

(** The next access of caller [i], whose place is [c]. *)
Definition sys_thread_once (s : once) (i : nat) (c : caller) : once :=
  let go f c' b e := mk_once f (<[i := c']> (callers s)) b e in
  match c with
  | At_cas =>
      if flag s =? 0 then go once_wait In_func (began s ++ [i]) (finished s)
      else go (flag s) Polling (began s) (finished s)
  | In_func => go (flag s) At_set (began s) (finished s ++ [i])
  | At_set => go once_done Returned (began s) (finished s)
  | Polling => if flag s =? once_done then go (flag s) Returned (began s) (finished s) else s
  | Returned | Cancelled => s
  end.

(** pthread_once returns 0 when its caller is back. *)
Definition pthread_once (c : caller) : option Z := match c with Returned => Some 0 | _ => None end.

(** A caller goes on, or its thread is cancelled in the routine. *)
Inductive once_step (s : once) : once -> Prop :=
  | once_next i c : callers s !! i = Some c -> once_step s (sys_thread_once s i c)
  | once_cancel i : callers s !! i = Some In_func ->
      once_step s (mk_once (flag s) (<[i := Cancelled]> (callers s)) (began s) (finished s)).

Definition once_init (n : nat) : once := mk_once 0 (replicate n At_cas) [] [].

Inductive once_reach (n : nat) : once -> Prop :=
  | reach_init : once_reach n (once_init n)
  | reach_step s s' : once_reach n s -> once_step s s' -> once_reach n s'.

Definition inside (c : caller) : bool := match c with In_func | At_set | Cancelled => true | _ => false end.

(** The flag tells where the only caller that runs the routine is. *)
Definition once_ok (s : once) : Prop :=
  (flag s = 0 /\ began s = [] /\ finished s = [] /\
     forall i c, callers s !! i = Some c -> c = At_cas) \/
  (flag s = once_wait /\ exists i c, began s = [i] /\ callers s !! i = Some c /\ inside c = true /\
     finished s = (if decide (c = At_set) then [i] else []) /\
     forall j d, callers s !! j = Some d -> j <> i -> d = At_cas \/ d = Polling) \/
  (flag s = once_done /\ exists i, began s = [i] /\ finished s = [i] /\ callers s !! i = Some Returned /\
     forall j d, callers s !! j = Some d -> inside d = false).

Lemma once_values : once_wait <> 0 /\ once_done <> 0 /\ once_wait <> once_done.
Proof. unfold once_wait, once_done. by destruct is64; vm_compute. Qed.

Lemma insert_lookup_inv (l : list caller) i c' j d : <[i := c']> l !! j = Some d -> (j = i /\ d = c') \/ (j <> i /\ l !! j = Some d).
Proof. rewrite list_lookup_insert_Some. naive_solver. Qed.

Lemma once_ok_step s s' : once_ok s -> once_step s s' -> once_ok s'.
Proof.
  destruct once_values as (Hw & Hd & Hwd).
  intros [(Hf & Hb & He & Hall)|[(Hf & i & c & Hb & Hi & Hin & He & Hall)|(Hf & i & Hb & He & Hi & Hall)]] Hst.
  - destruct Hst as [j d Hj|j Hj]; [|by apply Hall in Hj]. pose proof (Hall j d Hj) as ->. cbn. rewrite Hf, Z.eqb_refl. right. left.
    split; [done|]. exists j, In_func. cbn. rewrite Hb, He, list_lookup_insert_eq by (by eapply lookup_lt_Some). split_and!; [done..|].
    intros k d' [[-> ->]|[Hne Hk]]%insert_lookup_inv Hkj; [done|]. left. by eapply Hall.
  - assert (Hlt := lookup_lt_Some _ _ _ Hi). destruct Hst as [j d Hj|j Hj].
    + destruct (decide (j = i)) as [->|Hne].
      * assert (d = c) as -> by congruence. destruct c; try done; cbn.
        -- right. left. split; [done|]. exists i, At_set. rewrite Hb, He. cbn. rewrite list_lookup_insert_eq by done. split_and!; [done..|].
           intros k d' [[-> ->]|[Hne Hk]]%insert_lookup_inv Hki; [done|]. by eapply Hall.
        -- right. right. split; [done|]. exists i. cbn in He. rewrite Hb, He. cbn. rewrite list_lookup_insert_eq by done. split_and!; [done..|].
           intros k d' [[-> ->]|[Hne Hk]]%insert_lookup_inv; [done|]. by destruct (Hall k d' Hk Hne) as [-> | ->].
        -- right. left. split; [done|]. exists i, Cancelled. by rewrite Hb, He.
      * right. left. destruct (Hall j d Hj Hne) as [-> | ->]; cbn; rewrite Hf.
        -- rewrite (proj2 (Z.eqb_neq _ _)) by done. split; [done|]. exists i, c. cbn. rewrite list_lookup_insert_ne by done. split_and!; [done..|].
           intros k d' [[-> ->]|[Hne' Hk]]%insert_lookup_inv Hki; [by right|]. by eapply Hall.
        -- rewrite (proj2 (Z.eqb_neq _ _)) by done. split; [done|]. by exists i, c.
    + right. left. destruct (decide (j = i)) as [->|Hne]; [|by destruct (Hall j _ Hj Hne)]. assert (c = In_func) as -> by congruence.
      split; [done|]. exists i, Cancelled. cbn. rewrite list_lookup_insert_eq by done. split_and!; [done..|].
      intros k d' [[-> ->]|[Hne Hk]]%insert_lookup_inv Hki; [done|]. by eapply Hall.
  - right. right. destruct Hst as [j d Hj|j Hj]; [|by apply Hall in Hj]. pose proof (Hall j d Hj) as Hnd. destruct d; try done; cbn; rewrite Hf.
    + rewrite (proj2 (Z.eqb_neq _ _)) by done. split; [done|]. exists i. cbn. rewrite list_lookup_insert_ne by congruence. split_and!; [done..|].
      intros k d' [[-> ->]|[Hne Hk]]%insert_lookup_inv; [done|]. by eapply Hall.
    + rewrite Z.eqb_refl. split; [done|]. exists i. cbn. rewrite list_lookup_insert_ne by congruence. split_and!; [done..|].
      intros k d' [[-> ->]|[Hne Hk]]%insert_lookup_inv; [done|]. by eapply Hall.
    + split; [done|]. by exists i.
Qed.

Lemma once_reach_ok n s : once_reach n s -> once_ok s.
Proof.
  induction 1; [|by eapply once_ok_step]. left. split_and!; [done..|]. intros i c. apply lookup_replicate_1.
Qed.

(** How far a caller is from its return. *)
Definition rank (c : caller) : nat :=
  match c with At_cas => 3 | In_func => 2 | At_set => 1 | Polling => 1 | Returned | Cancelled => 0 end.

Definition ranks (l : list caller) : nat := sum_list_with rank l.

Lemma ranks_insert l i c c' : l !! i = Some c -> (ranks (<[i := c']> l) + rank c = ranks l + rank c')%nat.
Proof.
  revert i. unfold ranks. induction l as [|x l IH]; intros [|i] Hi; try done; simpl in *; [simplify_eq; lia|].
  specialize (IH i Hi). lia.
Qed.

(** C30: For every interleaving of the callers of pthread_once of one flag, at most one of them runs the routine, and no
    call returns before that one has finished it. *)
Theorem once_runs_once n s i : once_reach n s -> (length (began s) <= 1)%nat /\
  (option_map pthread_once (callers s !! i) = Some (Some 0) -> exists j, began s = [j] /\ finished s = [j]).
Proof.
  intros Hok%once_reach_ok. split.
  - by destruct Hok as [(_ & -> & _)|[(_ & j & c & -> & _)|(_ & j & -> & _)]]; cbn; lia.
  - destruct (callers s !! i) as [c|] eqn:Hi; [|done]. destruct c; try done. intros _.
    destruct Hok as [(_ & _ & _ & Hall)|[(_ & j & c & _ & Hj & Hin & _ & Hall)|(_ & j & ? & ? & _)]]; [|exfalso|by exists j].
    + by apply Hall in Hi.
    + destruct (decide (i = j)) as [->|Hne]; [rewrite Hi in Hj; by injection Hj as <-|]. by destruct (Hall i _ Hi Hne).
Qed.

(** Progress: while a call has not returned and no thread was cancelled in the routine, some caller comes closer to its
    return, and no step of a caller takes one further away. *)
Theorem once_progress n s : once_reach n s -> (forall i, callers s !! i <> Some Cancelled) ->
  (forall i c, callers s !! i = Some c -> sys_thread_once s i c = s \/ (ranks (callers (sys_thread_once s i c)) < ranks (callers s))%nat) /\
  (ranks (callers s) <> 0%nat -> exists i c, callers s !! i = Some c /\ (ranks (callers (sys_thread_once s i c)) < ranks (callers s))%nat).
Proof.
  intros Hok%once_reach_ok Hnc. assert (Hdec : forall i c c', callers s !! i = Some c -> (rank c' < rank c)%nat ->
      (ranks (<[i := c']> (callers s)) < ranks (callers s))%nat).
  { intros i c c' Hi Hr. pose proof (ranks_insert _ _ _ c' Hi). lia. }
  split.
  - intros i c Hi. destruct c; cbn; try (by left); try (right; eapply Hdec; [done|cbn; lia]).
    + right. destruct (_ =? _); cbn; (eapply Hdec; [done|cbn; lia]).
    + destruct (_ =? _); [right|by left]. cbn. eapply Hdec; [done|cbn; lia].
  - intros Hr. destruct Hok as [(Hf & _ & _ & Hall)|[(Hf & j & c & _ & Hj & Hin & _)|(Hf & _ & _ & _ & _ & Hall)]].
    + destruct (callers s !! 0%nat) as [c|] eqn:Hl; [|by destruct (callers s)]. exists 0%nat, c. split; [done|].
      pose proof (Hall _ _ Hl) as ->. cbn. rewrite Hf. cbn. eapply Hdec; [done|cbn; lia].
    + exists j, c. split; [done|]. destruct c; try done; [| |by destruct (Hnc j)]; cbn; (eapply Hdec; [done|cbn; lia]).
    + assert (exists i c, callers s !! i = Some c /\ (0 < rank c)%nat) as (i & c & Hi & Hc).
      { clear -Hr. induction (callers s) as [|c l IH]; [done|]. cbn in Hr. destruct (decide (rank c = 0%nat)) as [H0|].
        - destruct IH as (i & d & ? & ?); [unfold ranks in *; lia|]. by exists (S i), d.
        - exists 0%nat, c. split; [done|]. lia. }
      exists i, c. split; [done|]. pose proof (Hall i c Hi) as Hnd. destruct c; try done; cbn in *; try lia; rewrite Hf.
      * destruct once_values as (_ & Hd & _). rewrite (proj2 (Z.eqb_neq _ _)) by done. cbn. eapply Hdec; [done|cbn; lia].
      * rewrite Z.eqb_refl. cbn. eapply Hdec; [done|cbn; lia].
Qed.

(** A thread that is cancelled in the routine leaves the flag as it is: whatever the others do from then on, none of
    their calls returns. *)
Lemma once_cancelled_blocks s s' i : once_ok s -> callers s !! i = Some Cancelled -> once_step s s' ->
  callers s' !! i = Some Cancelled /\ flag s' = once_wait /\ forall j, callers s' !! j <> Some Returned.
Proof.
  intros Hok Hi Hst. pose proof (once_ok_step s s' Hok Hst) as Hok'.
  assert (Hi' : callers s' !! i = Some Cancelled).
  { destruct Hst as [j c Hj|j Hj]; cbn.
    - destruct (decide (j = i)) as [->|Hne]; [assert (c = Cancelled) as -> by congruence; done|].
      destruct c; cbn; try case_match; cbn; rewrite ?list_lookup_insert_ne by done; done.
    - rewrite list_lookup_insert_ne by congruence. done. }
  split; [done|]. destruct Hok' as [(_ & _ & _ & Hall)|[(Hf & k & c & _ & Hk & _ & _ & Hall)|(_ & _ & _ & _ & _ & Hall)]].
  - by apply Hall in Hi'.
  - split; [done|]. assert (i = k) as ->. { destruct (decide (i = k)) as [|Hne]; [done|]. by destruct (Hall i _ Hi' Hne). }
    intros j Hj. destruct (decide (j = k)) as [->|Hne]; [congruence|]. by destruct (Hall j _ Hj Hne).
  - by apply Hall in Hi'.
Qed.

End Once.

(** Two callers: the first runs the routine, the second waits for it. *)
Definition once_demo : once :=
  let s1 := sys_thread_once true (once_init 2) 0 At_cas in
  let s2 := sys_thread_once true s1 1 At_cas in
  let s3 := sys_thread_once true s2 0 In_func in
  let s4 := sys_thread_once true s3 0 At_set in
  sys_thread_once true s4 1 Polling.

Lemma once_demo_reach : once_reach true 2 once_demo.
Proof.
  repeat first [apply reach_init | eapply reach_step; [|apply once_next; reflexivity]].
Qed.

Lemma once_runs_once_witness : callers once_demo !! 1%nat = Some Returned /\ (exists j, began once_demo = [j] /\ finished once_demo = [j]).
Proof. split; [reflexivity|]. exact (proj2 (once_runs_once true 2 once_demo 1 once_demo_reach) eq_refl). Defined.
