(* ===== verification/FdTable.v ===== *)
(** * The descriptor table (patches zvfs-fdtable-use-k-obj-file, zvfs-file-locking,
    zvfs-pread-pwrite-regular-files, zvfs-dup, zvfs-fcntl-getfd-setfd and
    zvfs-libc-file-fd-fix; device_io/, fd_mgmt/, fsync/ and synchronized_io/)

    A table of entries, each with the object it is open on, the object's
    methods and a copy of the file offset.  The objects are behind the state
    [W], which only the methods change.  An entry's mutex makes a call on it a
    single step.  What the patches show of the table only by its name (the
    search for a free entry, the counting of references, the last step of an
    open) is the class [FdKernel].  Dereferencing the NULL table of methods of
    a descriptor that is reserved but not open yet is [Undefined].

    The specification is POSIX's: descriptors refer to open file
    descriptions, which hold the offset; duplicates share one. *)

From stdpp Require Import base list sets gmap strings.
From Stdlib Require Import ZArith Lia.
From S2P Require Import Prelude.

Local Open Scope Z_scope.

(** ** Entries, methods and the state *)

Definition ZVFS_MODE_IFMT : Z := 61440.   (* 0170000 *)
Definition ZVFS_MODE_IFSOCK : Z := 49152. (* 0140000 *)
Definition ZVFS_F_DUPFD : Z := 0.
Definition ZVFS_F_GETFD : Z := 1.
Definition ZVFS_F_SETFD : Z := 2.
Definition ZVFS_F_DUPFD_CLOEXEC : Z := 10.
Definition ZVFS_FD_CLOEXEC : Z := 1.

Record zvfs_stat := mk_stat { zst_size : Z; zst_mode : Z }.

(** The requests the table makes of an object, with their arguments. *)
Inductive ioreq :=
  | IoLseek (offset whence cur : Z)
  | IoTruncate (length : Z)
  | IoFsync
  | IoStat
  | IoCmd (request arg : Z).

(** The methods of an object; NULL is [None].  A method takes the object and
    the state behind the descriptors, and returns the state, the result and
    the errno it sets, if it sets it.  read_offs also returns the bytes it
    puts in the buffer.  close and close2 share their place in the table: the
    second argument is the descriptor when it is passed. *)
Record fd_op_vtable (W : Type) := mk_vt {
  v_read_offs : option (Z -> Z -> Z -> W -> W * (Z * list Z) * option Z);
  v_write_offs : option (Z -> list Z -> Z -> Z -> W -> W * Z * option Z);
  v_close : option (Z -> option Z -> W -> W * Z * option Z);
  v_ioctl : Z -> ioreq -> W -> W * (Z * option zvfs_stat) * option Z;
}.
Arguments mk_vt {W} _ _ _ _.
Arguments v_read_offs {W} _.
Arguments v_write_offs {W} _.
Arguments v_close {W} _.
Arguments v_ioctl {W} _ _ _ _.

Record fd_entry (W : Type) := mk_fd {
  fobj : Z;
  fvtable : option (fd_op_vtable W);
  refcount : Z;
  foffset : Z;
  fmode : Z;
  fd_flags : Z;
}.
Arguments mk_fd {W} _ _ _ _ _ _.
Arguments fobj {W} _.
Arguments fvtable {W} _.
Arguments refcount {W} _.
Arguments foffset {W} _.
Arguments fmode {W} _.
Arguments fd_flags {W} _.

Definition with_offset {W} (e : fd_entry W) (off : Z) : fd_entry W :=
  mk_fd (fobj e) (fvtable e) (refcount e) off (fmode e) (fd_flags e).
Definition with_flags {W} (e : fd_entry W) (flags : Z) : fd_entry W :=
  mk_fd (fobj e) (fvtable e) (refcount e) (foffset e) (fmode e) flags.

(** Not under this repository: libc's error numbers, the width of size_t and
    the kernel's file types. *)
Class FdConfig := {
  errno_val : errno -> Z;
  size_bits : Z;
  ZVFS_MODE_IFDIR : Z;
  ZVFS_MODE_IFBLK : Z;
  ZVFS_MODE_IFSHM : Z;
  ZVFS_MODE_IFREG : Z;
}.

(** The parts of zvfs_fdtable.c the patches leave as they are (the search and
    the errno it sets when it fails, the counting of references, the end of an
    open), and the record locks, which are fcntl's business with the file
    system. *)
Class FdKernel (W : Type) := {
  find_fd_entry : list (fd_entry W) -> option nat;
  find_errno : Z;
  z_fd_ref : fd_entry W -> fd_entry W;
  z_fd_unref : fd_entry W -> fd_entry W;
  finalize_entry : fd_entry W -> Z -> fd_op_vtable W -> Z -> fd_entry W;
  record_lock_fcntl : fd_entry W -> Z -> Z -> W -> W * Z * option Z;
  is_lock_cmd : Z -> bool;
}.

Class FdKernelLaws (W : Type) `{FdKernel W} : Prop := {
  find_free t i : find_fd_entry t = Some i -> exists e, t !! i = Some e /\ refcount e = 0;
  find_none t i e : find_fd_entry t = None -> t !! i = Some e -> refcount e <> 0;
  ref_spec e : z_fd_ref e = mk_fd (fobj e) (fvtable e) (refcount e + 1) (foffset e) (fmode e) (fd_flags e);
  unref_spec e : refcount e = 1 -> refcount (z_fd_unref e) = 0;
  finalize_spec e o v m :
    finalize_entry e o v m = mk_fd o (Some v) (refcount e) (foffset e) m (fd_flags e);
  lock_cmds c : is_lock_cmd c = true ->
    c <> ZVFS_F_DUPFD /\ c <> ZVFS_F_GETFD /\ c <> ZVFS_F_SETFD /\ c <> ZVFS_F_DUPFD_CLOEXEC;
}.

(** ** The store of FILE objects (zvfs_libc_file.c) *)

(** [file_to_fd] has the descriptor of each block of the slab, or -1;
    [slab_used] is the slab's own record of the blocks in use. *)
Record file_store := mk_store { file_to_fd : list Z; slab_used : gset nat }.

Section LibcFile.
Context (base FILE_SIZE : Z) (slab_pick : gset nat -> option nat).

Definition slab_contains (st : file_store) (fp : Z) : bool :=
  (base <=? fp) && (fp <? base + Z.of_nat (length (file_to_fd st)) * FILE_SIZE).

Definition slab_index (fp : Z) : Z := Z.quot (fp - base) FILE_SIZE.

Definition zvfs_libc_file_alloc (st : file_store) (fd : Z) : file_store * option Z :=
  match slab_pick (slab_used st) with
  | None => (st, None)
  | Some i =>
      let fp := base + Z.of_nat i * FILE_SIZE in
      (mk_store (<[Z.to_nat (slab_index fp) := fd]> (file_to_fd st)) ({[i]} ∪ slab_used st), Some fp)
  end.

Definition zvfs_libc_file_free (st : file_store) (fp : option Z) : file_store :=
  match fp with
  | None => st
  | Some fp =>
      if negb (slab_contains st fp) then st
      else mk_store (<[Z.to_nat (slab_index fp) := -1]> (file_to_fd st))
                    (slab_used st ∖ {[Z.to_nat (slab_index fp)]})
  end.

Definition zvfs_libc_file_from_fd (st : file_store) (fd : Z) : option Z :=
  (fun i => base + Z.of_nat i * FILE_SIZE) <$> find_index (fun f => f =? fd) (file_to_fd st).

(** The slab and the array agree on the blocks in use. *)
Definition store_ok (st : file_store) : Prop :=
  forall i, i ∈ slab_used st <-> exists fd, file_to_fd st !! i = Some fd /\ fd <> -1.

(** The slab has [n] blocks and hands out one that is not in use. *)
Definition slab_laws (n : nat) : Prop :=
  (0 < FILE_SIZE) /\ (forall used i, slab_pick used = Some i -> (i ∉ used) /\ (i < n)%nat).

Lemma slab_index_block i : 0 < FILE_SIZE -> slab_index (base + Z.of_nat i * FILE_SIZE) = Z.of_nat i.
Proof.
  intros. unfold slab_index. replace (base + Z.of_nat i * FILE_SIZE - base) with (Z.of_nat i * FILE_SIZE) by lia.
  apply Z.quot_mul. lia.
Qed.

Lemma slab_contains_block st i :
  0 < FILE_SIZE -> (i < length (file_to_fd st))%nat -> slab_contains st (base + Z.of_nat i * FILE_SIZE) = true.
Proof. intros. unfold slab_contains. apply andb_true_iff. split; [apply Z.leb_le|apply Z.ltb_lt]; nia. Qed.

Lemma from_fd_None st fd : zvfs_libc_file_from_fd st fd = None <-> fd ∉ file_to_fd st.
Proof.
  unfold zvfs_libc_file_from_fd. rewrite fmap_None, find_index_None, Forall_forall. split.
  - intros Hall Hin. specialize (Hall _ Hin). simpl in Hall. lia.
  - intros Hn x Hx. apply Z.eqb_neq. by intros ->.
Qed.

Lemma from_fd_unique st fd i :
  file_to_fd st !! i = Some fd -> (forall j, file_to_fd st !! j = Some fd -> j = i) ->
  zvfs_libc_file_from_fd st fd = Some (base + Z.of_nat i * FILE_SIZE).
Proof.
  intros Hi Hu. unfold zvfs_libc_file_from_fd. destruct (find_index _ _) as [j|] eqn:Hj.
  - apply find_index_Some in Hj as (x & Hx & He%Z.eqb_eq & _). subst x. by rewrite (Hu j Hx).
  - apply find_index_None in Hj. apply (Forall_lookup_1 _ _ _ _ Hj) in Hi. lia.
Qed.

Lemma free_store_ok st fp : 0 < FILE_SIZE -> store_ok st -> store_ok (zvfs_libc_file_free st fp).
Proof.
  intros HF Hok. unfold zvfs_libc_file_free. destruct fp as [fp|]; [|done]. destruct (slab_contains st fp) eqn:Hc; [|done].
  simpl. intros i. simpl. rewrite elem_of_difference, elem_of_singleton, (Hok i).
  set (k := Z.to_nat (slab_index fp)). destruct (decide (i = k)) as [->|Hne].
  - split; [tauto|]. intros (fd & Hi & Hfd).
    apply list_lookup_insert_Some in Hi as [(_ & <- & _)|[? _]]; done.
  - rewrite list_lookup_insert_ne by done. naive_solver.
Qed.

(** FILE objects come from the store and go back to it.  With a slab that
    hands out a free block, a block taken for a descriptor that has none is
    the one the store finds for the descriptor, and disturbs no other; taking
    it keeps the slab and the array of descriptors in agreement; and the
    release that close makes returns the store to what it was. *)
Theorem file_store_roundtrip st fd st' fp :
  slab_laws (length (file_to_fd st)) -> store_ok st -> fd <> -1 -> zvfs_libc_file_from_fd st fd = None ->
  zvfs_libc_file_alloc st fd = (st', Some fp) ->
  store_ok st' /\ zvfs_libc_file_from_fd st' fd = Some fp /\
  (forall fd', fd' <> fd -> fd' <> -1 -> zvfs_libc_file_from_fd st' fd' = zvfs_libc_file_from_fd st fd') /\
  zvfs_libc_file_free st' (zvfs_libc_file_from_fd st' fd) = st.
Proof.
  intros [HF Hpick] Hok Hfd Hnone Ha. unfold zvfs_libc_file_alloc in Ha.
  destruct (slab_pick (slab_used st)) as [i|] eqn:Hp; [|done]. destruct (Hpick _ i Hp) as [Hni Hlt].
  rewrite slab_index_block, Nat2Z.id in Ha by done. simplify_eq.
  apply from_fd_None in Hnone as Hnot.
  assert (Hold : file_to_fd st !! i = Some (-1)).
  { destruct (lookup_lt_is_Some_2 _ _ Hlt) as [x Hx]. destruct (decide (x = -1)) as [->|]; [done|].
    exfalso. apply Hni, Hok. by exists x. }
  set (st' := mk_store _ _).
  assert (Hfrom : zvfs_libc_file_from_fd st' fd = Some (base + Z.of_nat i * FILE_SIZE)).
  { apply from_fd_unique; simpl; [by apply list_lookup_insert_eq|]. intros j Hj.
    apply list_lookup_insert_Some in Hj as [(<- & _ & _)|[_ Hj]]; [done|]. exfalso.
    apply Hnot. by eapply list_elem_of_lookup_2. }
  split_and!; [|done| |].
  - intros j. simpl. rewrite elem_of_union, elem_of_singleton, (Hok j). destruct (decide (j = i)) as [->|Hne].
    + rewrite list_lookup_insert_eq by done. naive_solver.
    + rewrite list_lookup_insert_ne by done. naive_solver.
  - intros fd' Hne Hne1. unfold zvfs_libc_file_from_fd. f_equal. simpl.
    apply find_index_insert_other with (x := -1); [done|lia|lia].
  - rewrite Hfrom. unfold zvfs_libc_file_free. rewrite slab_contains_block; [|done|simpl; by rewrite length_insert]. simpl.
    rewrite slab_index_block, Nat2Z.id, list_insert_insert_eq, list_insert_id by done.
    destruct st as [l u]. simpl in *. f_equal. set_solver.
Qed.
End LibcFile.

(** A slab of two blocks. *)
Definition demo_pick (used : gset nat) : option nat :=
  find_index (fun i => negb (bool_decide (i ∈ used))) [0; 1]%nat.

Definition demo_store : file_store := mk_store [-1; -1] ∅.

Lemma file_store_roundtrip_witness :
  slab_laws 8 demo_pick 2 /\ store_ok demo_store /\
  exists st', zvfs_libc_file_alloc 16 8 demo_pick demo_store 5 = (st', Some 16) /\
    zvfs_libc_file_from_fd 16 8 st' 5 = Some 16 /\
    zvfs_libc_file_free 16 8 st' (zvfs_libc_file_from_fd 16 8 st' 5) = demo_store.
Proof.
  assert (HL : slab_laws 8 demo_pick 2).
  { split; [lia|]. intros used i (x & Hx & Hp & _)%find_index_Some.
    assert (x = i /\ (i < 2)%nat) as [-> Hlt].
    { destruct i as [|[|i]]; simplify_eq/=; split; (done || lia). }
    split; [|done]. apply negb_true_iff, bool_decide_eq_false in Hp. done. }
  assert (HO : store_ok demo_store).
  { intros i. simpl. split; [set_solver|]. intros (fd & Hi & Hn). exfalso.
    destruct i as [|[|i]]; by simplify_eq/=. }
  split; [done|]. split; [done|].
  destruct (zvfs_libc_file_alloc 16 8 demo_pick demo_store 5) as [st' o] eqn:Ha.
  assert (o = Some 16) as -> by (apply (f_equal snd) in Ha; by vm_compute in Ha).
  destruct (file_store_roundtrip 16 8 demo_pick demo_store 5 st' 16 HL HO ltac:(lia) eq_refl Ha) as (_ & Hf & _ & Hr).
  by exists st'.
Defined.

(** A second fdopen of a descriptor: close gives one of the blocks back, and
    the other is found for the next descriptor of that number. *)
Lemma fdopen_twice_leaks :
  let '(st1, _) := zvfs_libc_file_alloc 16 8 demo_pick demo_store 5 in
  let '(st2, _) := zvfs_libc_file_alloc 16 8 demo_pick st1 5 in
  zvfs_libc_file_from_fd 16 8 (zvfs_libc_file_free 16 8 st2 (zvfs_libc_file_from_fd 16 8 st2 5)) 5 = Some 24.
Proof. vm_compute. reflexivity. Qed.

Record zs (W : Type) := mk_zs {
  fdtable : list (fd_entry W);
  files : file_store;
  world : W;
  zerr : Z;
}.
Arguments mk_zs {W} _ _ _ _.
Arguments fdtable {W} _.
Arguments files {W} _.
Arguments world {W} _.
Arguments zerr {W} _.

(** What a call gives its caller: the value, the bytes read and the status. *)
Record reply := mk_reply { r_val : Z; r_data : list Z; r_stat : option zvfs_stat }.
Abbreviation rval v := (mk_reply v [] None).

Section Table.
Context `{FdConfig} {W : Type} `{FdKernel W}.
(** The slab of FILE objects: its address, and the size of a block. *)
Context (fbase fsize : Z).

Implicit Types (s : zs W) (e : fd_entry W) (t : list (fd_entry W)).

Definition fd_used e : bool := negb (refcount e =? 0).

Definition set_err s (x : errno) : zs W := mk_zs (fdtable s) (files s) (world s) (errno_val x).
Definition set_table s t : zs W := mk_zs t (files s) (world s) (zerr s).
(** The state after a method that set errno to [oe]. *)
Definition after s (w : W) (oe : option Z) : zs W := mk_zs (fdtable s) (files s) w (default (zerr s) oe).

(** ** Looking descriptors up *)

Definition zvfs_fd_entry_get s (fd : Z) : option (nat * fd_entry W) :=
  if (fd <? 0) || (Z.of_nat (length (fdtable s)) <=? fd) then None
  else match fdtable s !! Z.to_nat fd with
       | Some e => if fd_used e then Some (Z.to_nat fd, e) else None
       | None => None
       end.

(** "if (entry == NULL) return -1;", with the errno zvfs_fd_entry_get sets. *)
Definition with_entry s (fd : Z) (k : nat -> fd_entry W -> outcome (zs W * reply)) : outcome (zs W * reply) :=
  match zvfs_fd_entry_get s fd with
  | None => Returns (set_err s EBADF, rval (-1))
  | Some (i, e) => k i e
  end.

(** Following the vtable pointer. *)
Definition with_vtable {A} e (k : fd_op_vtable W -> outcome A) : outcome A :=
  match fvtable e with None => Undefined | Some v => k v end.

(** The loop of _find_fd_entry_at_or_above, [n] entries to go. *)
Fixpoint find_from t (n i : nat) : option nat :=
  match n with
  | O => None
  | S n' =>
      match t !! i with
      | Some e => if fd_used e then find_from t n' (S i) else Some i
      | None => None
      end
  end.

Definition find_fd_entry_at_or_above t (minfd : Z) : res nat :=
  if minfd <? 0 then Err EINVAL
  else match find_from t (length t - Z.to_nat minfd) (Z.to_nat minfd) with
       | Some i => Ok i
       | None => Err EMFILE
       end.

Definition same_obj (o : Z) e : bool := fd_used e && (fobj e =? o).

Definition fd_obj_refcount t (o : Z) : Z :=
  if o =? 0 then 0 else Z.of_nat (count_if (same_obj o) t).

Definition zvfs_fd_offset_set t (i : nat) e (off : Z) : list (fd_entry W) :=
  if fobj e =? 0 then <[i := with_offset e off]> t
  else (fun e' => if same_obj (fobj e) e' then with_offset e' off else e') <$> t.

(** ** Opening *)

Definition zvfs_reserve s : zs W * option nat :=
  match find_fd_entry (fdtable s) with
  | None => (mk_zs (fdtable s) (files s) (world s) find_errno, None)
  | Some i =>
      match fdtable s !! i with
      | None => (s, None)
      | Some e =>
          let e1 := z_fd_ref e in
          (set_table s (<[i := mk_fd 0 None (refcount e1) 0 (fmode e1) 0]> (fdtable s)), Some i)
      end
  end.

Definition zvfs_finalize s (i : nat) (o : Z) (v : fd_op_vtable W) (mode : Z) : zs W :=
  match fdtable s !! i with
  | None => s
  | Some e => set_table s (<[i := finalize_entry e o v mode]> (fdtable s))
  end.

Definition zvfs_free s (i : nat) : zs W :=
  match fdtable s !! i with
  | None => s
  | Some e => set_table s (<[i := z_fd_unref e]> (fdtable s))
  end.

(** The table's part of opening an object that is there already. *)
Definition zvfs_alloc s (o : Z) (v : fd_op_vtable W) (mode : Z) : outcome (zs W * reply) :=
  match zvfs_reserve s with
  | (s1, None) => Returns (s1, rval (-1))
  | (s1, Some i) => Returns (zvfs_finalize s1 i o v mode, rval (Z.of_nat i))
  end.

(** ** Reading and writing (zvfs_rw.c) *)

Definition supports_pread_pwrite (mode : Z) : bool :=
  let m := Z.land mode ZVFS_MODE_IFMT in (m =? ZVFS_MODE_IFSHM) || (m =? ZVFS_MODE_IFREG).

(** The end of zvfs_rw_entry: a transfer from the descriptor's own position
    moves it. *)
Definition advance s (i : nat) e (from_offset : option Z) (n : Z) : zs W :=
  match from_offset with
  | None =>
      if 0 <? n then set_table s (zvfs_fd_offset_set (fdtable s) i e (uwrap size_bits (foffset e + n))) else s
  | Some _ => s
  end.

Definition zvfs_rw_entry s (i : nat) e (buf : list Z) (sz : Z) (is_write : bool) (from_offset : option Z)
    : outcome (zs W * reply) :=
  if match from_offset with Some _ => negb (supports_pread_pwrite (fmode e)) | None => false end then
    Returns (set_err s ENOTSUP, rval (-1))
  else
    let off := default (foffset e) from_offset in
    with_vtable e (fun v =>
      if is_write then
        match v_write_offs v with
        | None => Returns (set_err s EIO, rval (-1))
        | Some m =>
            let '(w, n, oe) := m (fobj e) buf sz off (world s) in
            Returns (advance (after s w oe) i e from_offset n, rval n)
        end
      else
        match v_read_offs v with
        | None => Returns (set_err s EIO, rval (-1))
        | Some m =>
            let '(w, (n, data), oe) := m (fobj e) sz off (world s) in
            Returns (advance (after s w oe) i e from_offset n, mk_reply n data None)
        end).

Definition zvfs_rw_unlocked s fd buf sz is_write from_offset :=
  with_entry s fd (fun i e => zvfs_rw_entry s i e buf sz is_write from_offset).

(** The entry's lock is held around zvfs_rw_entry. *)
Definition zvfs_rw s fd buf sz is_write from_offset :=
  with_entry s fd (fun i e => zvfs_rw_entry s i e buf sz is_write from_offset).

Definition zvfs_read_offset s fd sz from_offset := zvfs_rw s fd [] sz false from_offset.
Definition zvfs_write_offset s fd buf sz from_offset := zvfs_rw s fd buf sz true from_offset.
Definition zvfs_read s fd sz := zvfs_read_offset s fd sz None.
Definition zvfs_write s fd buf sz := zvfs_write_offset s fd buf sz None.

(** ** Requests *)

Definition call_ioctl s e (rq : ioreq) : outcome (zs W * reply) :=
  with_vtable e (fun v =>
    let '(w, (n, st), oe) := v_ioctl v (fobj e) rq (world s) in
    Returns (after s w oe, mk_reply n [] st)).

Definition zvfs_fstat s fd := with_entry s fd (fun _ e => call_ioctl s e IoStat).
Definition zvfs_fsync s fd := with_entry s fd (fun _ e => call_ioctl s e IoFsync).
Definition zvfs_ftruncate s fd len := with_entry s fd (fun _ e => call_ioctl s e (IoTruncate len)).
Definition zvfs_ioctl s fd request arg := with_entry s fd (fun _ e => call_ioctl s e (IoCmd request arg)).

Definition lseek_moves (mode : Z) : bool :=
  let m := Z.land mode ZVFS_MODE_IFMT in
  (m =? ZVFS_MODE_IFDIR) || (m =? ZVFS_MODE_IFBLK) || (m =? ZVFS_MODE_IFSHM) || (m =? ZVFS_MODE_IFREG).

Definition zvfs_lseek_wrap s (i : nat) e (offset whence : Z) : outcome (zs W * reply) :=
  with_vtable e (fun v =>
    let '(w, (n, _), oe) := v_ioctl v (fobj e) (IoLseek offset whence (foffset e)) (world s) in
    let s1 := after s w oe in
    Returns (if (0 <=? n) && lseek_moves (fmode e)
             then set_table s1 (zvfs_fd_offset_set (fdtable s1) i e (uwrap size_bits n)) else s1, rval n)).

Definition zvfs_lseek s fd offset whence := with_entry s fd (fun i e => zvfs_lseek_wrap s i e offset whence).

(** ** Closing *)

(** The result of the close method, which is called for the last descriptor
    of an object. *)
Definition close_object s (fd : Z) e (v : fd_op_vtable W) : zs W * Z :=
  match v_close v with
  | Some m =>
      if negb (fobj e =? 0) && (fd_obj_refcount (fdtable s) (fobj e) <=? 1) then
        let '(w, n, oe) :=
          m (fobj e) (if flag_set (fmode e) ZVFS_MODE_IFSOCK then Some fd else None) (world s) in
        (after s w oe, n)
      else (s, 0)
  | None => (s, 0)
  end.

Definition free_file s (fd : Z) : zs W :=
  mk_zs (fdtable s) (zvfs_libc_file_free fbase fsize (files s) (zvfs_libc_file_from_fd fbase fsize (files s) fd))
        (world s) (zerr s).

Definition zvfs_close s (fd : Z) : outcome (zs W * reply) :=
  with_entry s fd (fun i e =>
    with_vtable e (fun v =>
      let '(s1, n) := close_object s fd e v in
      Returns (zvfs_free (free_file s1 fd) i, rval n))).

(** ** Duplicating *)

(** The new entry is written over the reference zvfs_dup_entry_locked takes. *)
Definition zvfs_dup_entry_locked s (src : fd_entry W) (newfd : nat) : zs W :=
  match fdtable s !! newfd with
  | None => s
  | Some e =>
      set_table s (<[newfd := mk_fd (fobj src) (fvtable src) (refcount (z_fd_ref e)) (foffset src) (fmode src) 0]>
                     (fdtable s))
  end.

Definition zvfs_dup s (oldfd minfd : Z) : outcome (zs W * reply) :=
  with_entry s oldfd (fun _ src =>
    match find_fd_entry_at_or_above (fdtable s) minfd with
    | Err x => Returns (set_err s x, rval (-1))
    | Ok i => Returns (zvfs_dup_entry_locked s src i, rval (Z.of_nat i))
    end).

(** The second half of zvfs_dup2; [src] is the entry of [oldfd], which is
    read again after the close. *)
Definition dup2_over s (src : nat) (newfd : Z) : outcome (zs W * reply) :=
  match fdtable s !! Z.to_nat newfd, fdtable s !! src with
  | Some e, Some es =>
      if fd_used e then Returns (set_err s EBADF, rval (-1))
      else Returns (zvfs_dup_entry_locked s es (Z.to_nat newfd), rval newfd)
  | _, _ => Undefined
  end.

Definition zvfs_dup2 s (oldfd newfd : Z) : outcome (zs W * reply) :=
  if oldfd =? newfd then with_entry s oldfd (fun _ _ => Returns (s, rval newfd))
  else with_entry s oldfd (fun src _ =>
    if (newfd <? 0) || (Z.of_nat (length (fdtable s)) <=? newfd) then Returns (set_err s EBADF, rval (-1))
    else match zvfs_fd_entry_get s newfd with
         | Some _ =>
             match zvfs_close s newfd with
             | Returns (s1, r) => if r_val r <? 0 then Returns (s1, rval (-1)) else dup2_over s1 src newfd
             | Undefined => Undefined
             | NoFuel => NoFuel
             end
         | None => dup2_over (set_err s EBADF) src newfd
         end).

(** ** fcntl *)

(** [arg] is the argument as an address; (int)arg is 32 bits of it. *)
Definition zvfs_fcntl s (fd cmd arg : Z) : outcome (zs W * reply) :=
  with_entry s fd (fun i e =>
    if cmd =? ZVFS_F_GETFD then Returns (s, rval (fd_flags e))
    else if cmd =? ZVFS_F_SETFD then
      Returns (set_table s (<[i := with_flags e (Z.land (swrap 32 arg) ZVFS_FD_CLOEXEC)]> (fdtable s)), rval 0)
    else if cmd =? ZVFS_F_DUPFD then zvfs_dup s fd (swrap 32 arg)
    else if cmd =? ZVFS_F_DUPFD_CLOEXEC then
      match zvfs_dup s fd (swrap 32 arg) with
      | Returns (s1, r) =>
          if r_val r <? 0 then Returns (s1, rval (-1))
          else match zvfs_fd_entry_get s1 (r_val r) with
               | None =>
                   match zvfs_close (set_err s1 EBADF) (r_val r) with
                   | Returns (s2, _) => Returns (s2, rval (-1))
                   | Undefined => Undefined
                   | NoFuel => NoFuel
                   end
               | Some (j, ej) => Returns (set_table s1 (<[j := with_flags ej ZVFS_FD_CLOEXEC]> (fdtable s1)), r)
               end
      | Undefined => Undefined
      | NoFuel => NoFuel
      end
    else if is_lock_cmd cmd then
      if arg =? 0 then Returns (set_err s EINVAL, rval (-1))
      else let '(w, n, oe) := record_lock_fcntl e cmd arg (world s) in Returns (after s w oe, rval n)
    else call_ioctl s e (IoCmd cmd (swrap 32 arg))).

(** ** The POSIX calls (device_io/, fd_mgmt/, fsync/, synchronized_io/) *)

Definition read s fd sz := zvfs_read s fd sz.
Definition write s fd buf sz := zvfs_write s fd buf sz.
Definition close s fd := zvfs_close s fd.
Definition dup s fildes := zvfs_dup s fildes 0.
Definition dup2 s fildes fildes2 := zvfs_dup2 s fildes fildes2.
Definition ftruncate s fd length := zvfs_ftruncate s fd length.
Definition fsync s fd := zvfs_fsync s fd.
Definition fdatasync s fd := zvfs_fsync s fd.
End Table.

(** A kernel with these parts, whatever the record locks are: the lowest free
    entry, and counters. *)
Section Plain.
Context {W : Type} (rl : fd_entry W -> Z -> Z -> W -> W * Z * option Z).

Definition plain_kernel : FdKernel W := {|
  find_fd_entry t := find_index (fun e => refcount e =? 0) t;
  find_errno := 23;
  z_fd_ref e := mk_fd (fobj e) (fvtable e) (refcount e + 1) (foffset e) (fmode e) (fd_flags e);
  z_fd_unref e := mk_fd (fobj e) (fvtable e) (refcount e - 1) (foffset e) (fmode e) (fd_flags e);
  finalize_entry e o v m := mk_fd o (Some v) (refcount e) (foffset e) m (fd_flags e);
  record_lock_fcntl := rl;
  is_lock_cmd c := (5 <=? c) && (c <=? 7);
|}.

Lemma plain_kernel_laws : @FdKernelLaws W plain_kernel.
Proof.
  split; simpl.
  - intros t i (e & Hi & He & _)%find_index_Some. exists e. split; [done|lia].
  - intros t i e Hf%find_index_None Hi He. apply (Forall_lookup_1 _ _ _ _ Hf) in Hi. lia.
  - done.
  - intros e ->. done.
  - done.
  - intros c Hc. unfold ZVFS_F_DUPFD, ZVFS_F_GETFD, ZVFS_F_SETFD, ZVFS_F_DUPFD_CLOEXEC. lia.
Qed.
End Plain.
