(* ===== verification/FdPosix.v ===== *)
(** * POSIX's view of descriptors, and the table refines it

    POSIX has two levels: a descriptor refers to an open file description,
    which has the file offset, and duplicates of a descriptor refer to the
    same description.  The table of [FdTable] has one level: every entry has
    a copy of the offset, which the calls keep equal for the entries with the
    same object, and the number of descriptions of an object is counted by
    walking the table.  The theorem is that no sequence of calls can tell the
    difference, as long as every open is given an object of its own. *)

From stdpp Require Import base list sets gmap.
From Stdlib Require Import ZArith Lia.
From S2P Require Import Prelude FdTable.

Local Open Scope Z_scope.

(** A description belongs to an object, or, when the entry has no object (the
    standard streams), to the one descriptor. *)
Inductive desc := Shared (o : Z) | Own (fd : nat).

#[export] Instance desc_eq_dec : EqDecision desc.
Proof. solve_decision. Defined.

#[export] Instance desc_countable : Countable desc.
Proof.
  refine (inj_countable' (fun d => match d with Shared o => inl o | Own fd => inr fd end)
                         (fun x => match x with inl o => Shared o | inr fd => Own fd end) _).
  by intros [].
Defined.

Record ofd (W : Type) := mk_ofd { o_obj : Z; o_vt : fd_op_vtable W; o_off : Z; o_mode : Z }.
Arguments mk_ofd {W} _ _ _ _.
Arguments o_obj {W} _.
Arguments o_vt {W} _.
Arguments o_off {W} _.
Arguments o_mode {W} _.

Record pst (W : Type) := mk_pst {
  p_fds : gmap nat (desc * Z);   (* the description and the descriptor flags *)
  p_ofd : gmap desc (ofd W);
  p_world : W;
  p_err : Z;
}.
Arguments mk_pst {W} _ _ _ _.
Arguments p_fds {W} _.
Arguments p_ofd {W} _.
Arguments p_world {W} _.
Arguments p_err {W} _.

(** ** The calls on descriptions *)

Inductive call (W : Type) :=
  | CRead (fd sz : Z) (from : option Z)
  | CWrite (fd : Z) (buf : list Z) (sz : Z) (from : option Z)
  | CLseek (fd offset whence : Z)
  | CClose (fd : Z)
  | CDup (fd minfd : Z)
  | CDup2 (fd newfd : Z)
  | CFcntl (fd cmd arg : Z)
  | CFstat (fd : Z)
  | CFsync (fd : Z)
  | CFtruncate (fd len : Z)
  | COpen (o : Z) (v : fd_op_vtable W) (mode : Z).
Arguments CRead {W} _ _ _.
Arguments CWrite {W} _ _ _ _.
Arguments CLseek {W} _ _ _.
Arguments CClose {W} _.
Arguments CDup {W} _ _.
Arguments CDup2 {W} _ _.
Arguments CFcntl {W} _ _ _.
Arguments CFstat {W} _.
Arguments CFsync {W} _.
Arguments CFtruncate {W} _ _.
Arguments COpen {W} _ _ _.

Section Posix.
Context `{FdConfig} {W : Type} `{FdKernel W}.
(** OPEN_MAX. *)
Context (N : nat).

Implicit Types (p : pst W) (o : ofd W) (d : desc).

Definition p_fail p (x : errno) : pst W * reply :=
  (mk_pst (p_fds p) (p_ofd p) (p_world p) (errno_val x), rval (-1)).
Definition p_after p (w : W) (oe : option Z) : pst W := mk_pst (p_fds p) (p_ofd p) w (default (p_err p) oe).
Definition p_set_off p d o (off : Z) : pst W :=
  mk_pst (p_fds p) (<[d := mk_ofd (o_obj o) (o_vt o) off (o_mode o)]> (p_ofd p)) (p_world p) (p_err p).

Definition p_get p (fd : Z) : option (nat * desc * Z * ofd W) :=
  if fd <? 0 then None
  else '(d, fl) ← p_fds p !! Z.to_nat fd; o ← p_ofd p !! d; Some (Z.to_nat fd, d, fl, o).

Definition p_with p (fd : Z) (k : nat -> desc -> Z -> ofd W -> pst W * reply) : pst W * reply :=
  match p_get p fd with None => p_fail p EBADF | Some (i, d, fl, o) => k i d fl o end.

Definition p_advance p d o (from : option Z) (n : Z) : pst W :=
  match from with
  | None => if 0 <? n then p_set_off p d o (uwrap size_bits (o_off o + n)) else p
  | Some _ => p
  end.

Definition p_rw p fd (buf : list Z) (sz : Z) (is_write : bool) (from : option Z) : pst W * reply :=
  p_with p fd (fun _ d _ o =>
    if match from with Some _ => negb (supports_pread_pwrite (o_mode o)) | None => false end then p_fail p ENOTSUP
    else
      let off := default (o_off o) from in
      if is_write then
        match v_write_offs (o_vt o) with
        | None => p_fail p EIO
        | Some m =>
            let '(w, n, oe) := m (o_obj o) buf sz off (p_world p) in
            (p_advance (p_after p w oe) d o from n, rval n)
        end
      else
        match v_read_offs (o_vt o) with
        | None => p_fail p EIO
        | Some m =>
            let '(w, (n, data), oe) := m (o_obj o) sz off (p_world p) in
            (p_advance (p_after p w oe) d o from n, mk_reply n data None)
        end).

Definition p_ioctl p fd (rq : ioreq) : pst W * reply :=
  p_with p fd (fun _ _ _ o =>
    let '(w, (n, st), oe) := v_ioctl (o_vt o) (o_obj o) rq (p_world p) in (p_after p w oe, mk_reply n [] st)).

Definition p_lseek p fd offset whence : pst W * reply :=
  p_with p fd (fun _ d _ o =>
    let '(w, (n, _), oe) := v_ioctl (o_vt o) (o_obj o) (IoLseek offset whence (o_off o)) (p_world p) in
    let p1 := p_after p w oe in
    (if (0 <=? n) && lseek_moves (o_mode o) then p_set_off p1 d o (uwrap size_bits n) else p1, rval n)).

(** Does a descriptor other than [i] refer to [d]? *)
Definition p_shared p (i : nat) d : bool :=
  negb (bool_decide (map_Forall (fun _ x => fst x <> d) (delete i (p_fds p)))).

(** The last descriptor takes the description with it, whose object is
    closed then. *)
Definition p_close p fd : pst W * reply :=
  p_with p fd (fun i d _ o =>
    let fds := delete i (p_fds p) in
    if p_shared p i d then (mk_pst fds (p_ofd p) (p_world p) (p_err p), rval 0)
    else
      let ofds := delete d (p_ofd p) in
      match v_close (o_vt o) with
      | Some m =>
          if o_obj o =? 0 then (mk_pst fds ofds (p_world p) (p_err p), rval 0)
          else
            let '(w, n, oe) :=
              m (o_obj o) (if flag_set (o_mode o) ZVFS_MODE_IFSOCK then Some fd else None) (p_world p) in
            (mk_pst fds ofds w (default (p_err p) oe), rval n)
      | None => (mk_pst fds ofds (p_world p) (p_err p), rval 0)
      end).

(** The least free descriptor that is not less than [minfd]. *)
Definition least_free p (minfd : nat) : option nat :=
  head (filter (fun i => p_fds p !! i = None) (seq minfd (N - minfd))).

(** A duplicate of a descriptor of [d] at [i], with cleared flags. *)
Definition p_alias p (i : nat) d o : pst W :=
  let d' := match d with Shared _ => d | Own _ => Own i end in
  mk_pst (<[i := (d', 0)]> (p_fds p)) (<[d' := o]> (p_ofd p)) (p_world p) (p_err p).

Definition p_dup p fd (minfd : Z) : pst W * reply :=
  p_with p fd (fun _ d _ o =>
    if minfd <? 0 then p_fail p EINVAL
    else match least_free p (Z.to_nat minfd) with
         | None => p_fail p EMFILE
         | Some i => (p_alias p i d o, rval (Z.of_nat i))
         end).

Definition p_dup2 p fd newfd : pst W * reply :=
  if fd =? newfd then p_with p fd (fun _ _ _ _ => (p, rval newfd))
  else p_with p fd (fun _ d _ o =>
    if (newfd <? 0) || (Z.of_nat N <=? newfd) then p_fail p EBADF
    else match p_get p newfd with
         | None => (p_alias (fst (p_fail p EBADF)) (Z.to_nat newfd) d o, rval newfd)
         | Some _ =>
             let '(p1, r) := p_close p newfd in
             if r_val r <? 0 then (p1, rval (-1)) else (p_alias p1 (Z.to_nat newfd) d o, rval newfd)
         end).

Definition p_set_flags p (i : nat) d (fl : Z) : pst W :=
  mk_pst (<[i := (d, fl)]> (p_fds p)) (p_ofd p) (p_world p) (p_err p).

Definition p_fcntl p fd cmd arg : pst W * reply :=
  p_with p fd (fun i d fl o =>
    if cmd =? ZVFS_F_GETFD then (p, rval fl)
    else if cmd =? ZVFS_F_SETFD then (p_set_flags p i d (Z.land (swrap 32 arg) ZVFS_FD_CLOEXEC), rval 0)
    else if cmd =? ZVFS_F_DUPFD then p_dup p fd (swrap 32 arg)
    else if cmd =? ZVFS_F_DUPFD_CLOEXEC then
      let '(p1, r) := p_dup p fd (swrap 32 arg) in
      if r_val r <? 0 then (p1, rval (-1))
      else match p_get p1 (r_val r) with
           | Some (i1, d1, _, _) => (p_set_flags p1 i1 d1 ZVFS_FD_CLOEXEC, r)
           | None => (p1, r)
           end
    else if is_lock_cmd cmd then
      if arg =? 0 then p_fail p EINVAL
      else
        let '(w, n, oe) :=
          record_lock_fcntl (mk_fd (o_obj o) (Some (o_vt o)) 1 (o_off o) (o_mode o) fl) cmd arg (p_world p) in
        (p_after p w oe, rval n)
    else
      let '(w, (n, st), oe) := v_ioctl (o_vt o) (o_obj o) (IoCmd cmd (swrap 32 arg)) (p_world p) in
      (p_after p w oe, mk_reply n [] st)).

Definition posix_call (c : call W) p : option (pst W * reply) :=
  match c with
  | CRead fd sz from => Some (p_rw p fd [] sz false from)
  | CWrite fd buf sz from => Some (p_rw p fd buf sz true from)
  | CLseek fd offset whence => Some (p_lseek p fd offset whence)
  | CClose fd => Some (p_close p fd)
  | CDup fd minfd => Some (p_dup p fd minfd)
  | CDup2 fd newfd => Some (p_dup2 p fd newfd)
  | CFcntl fd cmd arg => Some (p_fcntl p fd cmd arg)
  | CFstat fd => Some (p_ioctl p fd IoStat)
  | CFsync fd => Some (p_ioctl p fd IoFsync)
  | CFtruncate fd len => Some (p_ioctl p fd (IoTruncate len))
  | COpen _ _ _ => None
  end.

(** An open takes any free descriptor for a new description, at offset 0; it
    fails when there is none. *)
Inductive posix_step p : call W -> pst W -> reply -> Prop :=
  | ps_call c p' r : posix_call c p = Some (p', r) -> posix_step p c p' r
  | ps_open obj v mode i :
      (i < N)%nat -> p_fds p !! i = None ->
      let d := if obj =? 0 then Own i else Shared obj in
      p_ofd p !! d = None ->
      posix_step p (COpen obj v mode)
        (mk_pst (<[i := (d, 0)]> (p_fds p)) (<[d := mk_ofd obj v 0 mode]> (p_ofd p)) (p_world p) (p_err p))
        (rval (Z.of_nat i))
  | ps_open_full obj v mode :
      (forall i, (i < N)%nat -> is_Some (p_fds p !! i)) ->
      posix_step p (COpen obj v mode) (mk_pst (p_fds p) (p_ofd p) (p_world p) find_errno) (rval (-1)).

Inductive posix_run : pst W -> list (call W) -> pst W -> list reply -> Prop :=
  | pr_nil p : posix_run p [] p []
  | pr_cons p c cs p1 r p2 rs :
      posix_step p c p1 r -> posix_run p1 cs p2 rs -> posix_run p (c :: cs) p2 (r :: rs).
End Posix.

(** ** The same calls on the table *)

Section Exec.
Context `{FdConfig} {W : Type} `{FdKernel W} (fbase fsize : Z).

Definition zvfs_exec (c : call W) (s : zs W) : outcome (zs W * reply) :=
  match c with
  | CRead fd sz from => zvfs_read_offset s fd sz from
  | CWrite fd buf sz from => zvfs_write_offset s fd buf sz from
  | CLseek fd offset whence => zvfs_lseek s fd offset whence
  | CClose fd => zvfs_close fbase fsize s fd
  | CDup fd minfd => zvfs_dup s fd minfd
  | CDup2 fd newfd => zvfs_dup2 fbase fsize s fd newfd
  | CFcntl fd cmd arg => zvfs_fcntl fbase fsize s fd cmd arg
  | CFstat fd => zvfs_fstat s fd
  | CFsync fd => zvfs_fsync s fd
  | CFtruncate fd len => zvfs_ftruncate s fd len
  | COpen o v mode => zvfs_alloc s o v mode
  end.

Fixpoint zvfs_run (cs : list (call W)) (s : zs W) : outcome (zs W * list reply) :=
  match cs with
  | [] => Returns (s, [])
  | c :: cs' =>
      match zvfs_exec c s with
      | Returns (s1, r) =>
          match zvfs_run cs' s1 with
          | Returns (s2, rs) => Returns (s2, r :: rs)
          | Undefined => Undefined
          | NoFuel => NoFuel
          end
      | Undefined => Undefined
      | NoFuel => NoFuel
      end
  end.

(** Every open of the run is given an object that no open descriptor has. *)
Fixpoint fresh_opens (cs : list (call W)) (s : zs W) : Prop :=
  match cs with
  | [] => True
  | c :: cs' =>
      match c with
      | COpen o _ _ => o = 0 \/ forall i e, fdtable s !! i = Some e -> refcount e <> 0 -> fobj e <> o
      | _ => True
      end /\
      match zvfs_exec c s with Returns (s1, _) => fresh_opens cs' s1 | _ => True end
  end.
End Exec.

(** ** How the table represents descriptors and descriptions *)

Section Refine.
Context `{FdConfig} {W : Type} `{!FdKernel W} `{!FdKernelLaws W} (fbase fsize : Z) (N : nat).

Implicit Types (s : zs W) (e : fd_entry W) (t : list (fd_entry W)) (p : pst W) (o : ofd W) (d : desc).

Definition desc_of (i : nat) e : desc := if fobj e =? 0 then Own i else Shared (fobj e).

Definition ofd_is e o : Prop :=
  fvtable e = Some (o_vt o) /\ o_obj o = fobj e /\ o_off o = foffset e /\ o_mode o = fmode e.

Record repr t (fds : gmap nat (desc * Z)) (ofds : gmap desc (ofd W)) : Prop := {
  rp_fds i : fds !! i = e ← t !! i; if fd_used e then Some (desc_of i e, fd_flags e) else None;
  rp_ofd i e : t !! i = Some e -> refcount e <> 0 -> exists o, ofds !! desc_of i e = Some o /\ ofd_is e o;
  rp_dom d : is_Some (ofds !! d) -> exists i e, t !! i = Some e /\ refcount e <> 0 /\ desc_of i e = d;
  rp_count i e : t !! i = Some e -> refcount e = 0 \/ refcount e = 1;
}.

Definition rel s p : Prop :=
  length (fdtable s) = N /\ repr (fdtable s) (p_fds p) (p_ofd p) /\ world s = p_world p /\ zerr s = p_err p.

(** The call of the table and the call on descriptions answer alike and lead
    to related states. *)
Definition sim (out : outcome (zs W * reply)) (pr : pst W * reply) : Prop :=
  exists s', out = Returns (s', snd pr) /\ rel s' (fst pr).

Lemma sim_intro s p r : rel s p -> sim (Returns (s, r)) (p, r).
Proof. intros. by exists s. Qed.

Lemma fd_used_true e : fd_used e = true <-> refcount e <> 0.
Proof. unfold fd_used. rewrite negb_true_iff. apply Z.eqb_neq. Qed.

Lemma fd_used_false e : fd_used e = false <-> refcount e = 0.
Proof. unfold fd_used. rewrite negb_false_iff. apply Z.eqb_eq. Qed.

Lemma repr_free t fds ofds i e : repr t fds ofds -> t !! i = Some e -> fds !! i = None <-> refcount e = 0.
Proof.
  intros R Hi. rewrite (rp_fds _ _ _ R), Hi. simpl. destruct (fd_used e) eqn:Hu.
  - apply fd_used_true in Hu. by split.
  - apply fd_used_false in Hu. by split.
Qed.

Lemma repr_own t fds ofds i e : repr t fds ofds -> t !! i = Some e -> refcount e = 0 -> ofds !! Own i = None.
Proof.
  intros R Hi He. destruct (ofds !! Own i) as [o|] eqn:Ho; [|done]. exfalso.
  destruct (rp_dom _ _ _ R (Own i)) as (j & e' & Hj & Hu & Hd); [by eexists|].
  unfold desc_of in Hd. destruct (fobj e' =? 0); simplify_eq.
Qed.

(** A free entry is taken for a description. *)
Lemma repr_take t fds ofds i e0 e o :
  repr t fds ofds -> t !! i = Some e0 -> refcount e0 = 0 -> refcount e = 1 -> ofd_is e o ->
  (ofds !! desc_of i e = None \/ ofds !! desc_of i e = Some o) ->
  repr (<[i := e]> t) (<[i := (desc_of i e, fd_flags e)]> fds) (<[desc_of i e := o]> ofds).
Proof.
  intros R Hi H0 H1 His Hd. assert (Hlt : (i < length t)%nat) by by eapply lookup_lt_Some.
  assert (Hu : fd_used e = true) by (apply fd_used_true; lia).
  split.
  - intros j. destruct (decide (j = i)) as [->|Hne].
    + rewrite lookup_insert_eq, list_lookup_insert_eq by done. simpl. by rewrite Hu.
    + rewrite lookup_insert_ne, list_lookup_insert_ne by done. apply (rp_fds _ _ _ R).
  - intros j e' Hj He'. destruct (decide (j = i)) as [->|Hne].
    + rewrite list_lookup_insert_eq in Hj by done. simplify_eq. exists o. by rewrite lookup_insert_eq.
    + rewrite list_lookup_insert_ne in Hj by done.
      destruct (rp_ofd _ _ _ R j e' Hj He') as (o' & Ho' & His').
      destruct (decide (desc_of j e' = desc_of i e)) as [Heq|?].
      * exists o. rewrite Heq, lookup_insert_eq. split; [done|]. rewrite Heq in Ho'. destruct Hd; simplify_eq; done.
      * exists o'. by rewrite lookup_insert_ne by congruence.
  - intros d. rewrite lookup_insert_is_Some. intros [<-|[_ Hs]].
    + exists i, e. rewrite list_lookup_insert_eq by done. split_and!; [done|lia|done].
    + destruct (rp_dom _ _ _ R d Hs) as (j & e' & Hj & He' & Hdj). exists j, e'.
      rewrite list_lookup_insert_ne; [done|]. intros ->. simplify_eq.
  - intros j e' Hj. apply list_lookup_insert_Some in Hj as [(-> & <- & _)|[_ Hj]]; [by right|].
    by eapply (rp_count _ _ _ R).
Qed.

(** What a free entry holds does not matter. *)
Lemma repr_free_entry t fds ofds i e e' :
  repr t fds ofds -> t !! i = Some e -> refcount e = 0 -> refcount e' = 0 -> repr (<[i := e']> t) fds ofds.
Proof.
  intros R Hi H0 H0'. assert (Hlt : (i < length t)%nat) by by eapply lookup_lt_Some. split.
  - intros j. rewrite (rp_fds _ _ _ R). destruct (decide (j = i)) as [->|Hne].
    + rewrite list_lookup_insert_eq, Hi by done. simpl. unfold fd_used. by rewrite H0, H0'.
    + by rewrite list_lookup_insert_ne.
  - intros j ej Hj Huj. apply list_lookup_insert_Some in Hj as [(-> & <- & _)|[_ Hj]]; [done|]. by apply (rp_ofd _ _ _ R).
  - intros d Hs. destruct (rp_dom _ _ _ R d Hs) as (j & ej & Hj & Huj & Hd). exists j, ej.
    rewrite list_lookup_insert_ne; [done|]. intros ->. simplify_eq.
  - intros j ej Hj. apply list_lookup_insert_Some in Hj as [(-> & <- & _)|[_ Hj]]; [by left|]. by eapply (rp_count _ _ _ R).
Qed.

(** Flags are the descriptor's alone. *)
Lemma repr_flags t fds ofds i e fl :
  repr t fds ofds -> t !! i = Some e -> refcount e <> 0 ->
  repr (<[i := with_flags e fl]> t) (<[i := (desc_of i e, fl)]> fds) ofds.
Proof.
  intros R Hi Hu. assert (Hlt : (i < length t)%nat) by by eapply lookup_lt_Some. split.
  - intros j. destruct (decide (j = i)) as [->|Hne].
    + rewrite lookup_insert_eq, list_lookup_insert_eq by done. simpl.
      rewrite (proj2 (fd_used_true (with_flags e fl))); done.
    + rewrite lookup_insert_ne, list_lookup_insert_ne by done. apply (rp_fds _ _ _ R).
  - intros j e' Hj He'. apply list_lookup_insert_Some in Hj as [(-> & <- & _)|[_ Hj]].
    + by apply (rp_ofd _ _ _ R j e).
    + by apply (rp_ofd _ _ _ R).
  - intros d Hs. destruct (rp_dom _ _ _ R d Hs) as (j & e' & Hj & He' & Hdj).
    destruct (decide (j = i)) as [->|Hne].
    + simplify_eq. exists i, (with_flags e fl). rewrite list_lookup_insert_eq by done. done.
    + exists j, e'. by rewrite list_lookup_insert_ne.
  - intros j e' Hj. apply list_lookup_insert_Some in Hj as [(-> & <- & _)|[_ Hj]].
    + by apply (rp_count _ _ _ R j e).
    + by eapply (rp_count _ _ _ R).
Qed.

(** The walk that stores the offset reaches the entries of the description. *)
Lemma offset_set_lookup t i e off j :
  t !! i = Some e -> refcount e <> 0 ->
  zvfs_fd_offset_set t i e off !! j =
  (fun e' => if fd_used e' && bool_decide (desc_of j e' = desc_of i e) then with_offset e' off else e') <$> t !! j.
Proof.
  intros Hi Hu. unfold zvfs_fd_offset_set. destruct (Z.eqb_spec (fobj e) 0) as [Hz|Hz].
  - destruct (decide (j = i)) as [->|Hne].
    + rewrite list_lookup_insert_eq by by eapply lookup_lt_Some. rewrite Hi. simpl.
      by rewrite (proj2 (fd_used_true e) Hu), bool_decide_eq_true_2.
    + rewrite list_lookup_insert_ne by done. destruct (t !! j) as [e'|]; [|done]. simpl.
      rewrite (bool_decide_eq_false_2 _); [by rewrite andb_false_r|].
      unfold desc_of. rewrite Hz, Z.eqb_refl. destruct (fobj e' =? 0); congruence.
  - rewrite list_lookup_fmap. destruct (t !! j) as [e'|]; [|done]. simpl. f_equal. unfold same_obj, desc_of.
    rewrite (proj2 (Z.eqb_neq _ _) Hz). destruct (fd_used e'); [|done]. simpl.
    destruct (Z.eqb_spec (fobj e') (fobj e)) as [Heq|Hne].
    + destruct (Z.eqb_spec (fobj e') 0); [congruence|]. by rewrite Heq, bool_decide_eq_true_2.
    + rewrite bool_decide_eq_false_2; [done|]. destruct (fobj e' =? 0); congruence.
Qed.

Lemma offset_set_length t i e off : length (zvfs_fd_offset_set t i e off) = length t.
Proof. unfold zvfs_fd_offset_set. case_match; [apply length_insert|apply length_fmap]. Qed.

Lemma repr_offset t fds ofds i e o off :
  repr t fds ofds -> t !! i = Some e -> refcount e <> 0 -> ofds !! desc_of i e = Some o ->
  repr (zvfs_fd_offset_set t i e off) fds (<[desc_of i e := mk_ofd (o_obj o) (o_vt o) off (o_mode o)]> ofds).
Proof.
  intros R Hi Hu Ho.
  assert (L := fun j => offset_set_lookup t i e off j Hi Hu). split.
  - intros j. rewrite L, (rp_fds _ _ _ R). destruct (t !! j) as [e'|]; [|done]. simpl.
    by destruct (fd_used e' && bool_decide _).
  - intros j e' Hj He'. rewrite L in Hj. destruct (t !! j) as [e1|] eqn:Hj1; [|done]. simpl in Hj.
    destruct (fd_used e1 && _) eqn:Hc; simplify_eq.
    + apply andb_true_iff in Hc as [Hu1 Hd%bool_decide_eq_true].
      destruct (rp_ofd _ _ _ R j e1 Hj1) as (o1 & Ho1 & (A & B & C & D)); [by apply fd_used_true|].
      change (desc_of j (with_offset e1 off)) with (desc_of j e1). rewrite Hd in *. simplify_eq.
      eexists. rewrite lookup_insert_eq. split; [done|]. done.
    + destruct (rp_ofd _ _ _ R j e' Hj1 He') as (o1 & Ho1 & His). exists o1. split; [|done].
      rewrite lookup_insert_ne; [done|]. intros Heq. apply fd_used_true in He'. rewrite He' in Hc. simpl in Hc.
      bool_to_prop. congruence.
  - intros d Hs. apply lookup_insert_is_Some in Hs as Hs'. destruct (decide (d = desc_of i e)) as [->|Hne].
    + exists i, (with_offset e off). rewrite L, Hi. simpl.
      rewrite (proj2 (fd_used_true e) Hu), bool_decide_eq_true_2 by done. done.
    + destruct Hs' as [?|[_ Hs']]; [congruence|]. destruct (rp_dom _ _ _ R d Hs') as (j & e' & Hj & He' & Hd).
      exists j, e'. rewrite L, Hj. simpl. rewrite bool_decide_eq_false_2 by congruence. by rewrite andb_false_r.
  - intros j e' Hj. rewrite L in Hj. destruct (t !! j) as [e1|] eqn:Hj1; [|done]. simpl in Hj.
    pose proof (rp_count _ _ _ R j e1 Hj1). case_match; by simplify_eq.
Qed.

(** ** Closing: who is the last *)

(** What the count leaves when the entry [i] is taken out. *)
Lemma refcount_without t i e :
  t !! i = Some e -> refcount e <> 0 -> fobj e <> 0 ->
  fd_obj_refcount t (fobj e) = 1 + Z.of_nat (count_if (same_obj (fobj e)) (<[i := mk_fd 0 None 0 0 0 0]> t)).
Proof.
  intros Hi Hu Hz. unfold fd_obj_refcount. rewrite (proj2 (Z.eqb_neq _ _) Hz).
  pose proof (count_if_insert (same_obj (fobj e)) t i e (mk_fd 0 None 0 0 0 0) Hi) as Hc.
  assert (He : same_obj (fobj e) e = true).
  { unfold same_obj. by rewrite (proj2 (fd_used_true e) Hu), Z.eqb_refl. }
  rewrite He in Hc. simpl in Hc. lia.
Qed.

Lemma refcount_other t i e :
  t !! i = Some e -> refcount e <> 0 -> fobj e <> 0 ->
  (fd_obj_refcount t (fobj e) <=? 1) = false <->
  exists j e', j <> i /\ t !! j = Some e' /\ refcount e' <> 0 /\ fobj e' = fobj e.
Proof.
  intros Hi Hu Hz. rewrite (refcount_without t i e Hi Hu Hz), Z.leb_gt.
  transitivity (0 < count_if (same_obj (fobj e)) (<[i := mk_fd 0 None 0 0 0 0]> t))%nat; [lia|].
  rewrite count_if_pos. split.
  - intros (j & e' & Hj & Hs). apply list_lookup_insert_Some in Hj as [(-> & <- & _)|[Hne Hj]]; [done|].
    unfold same_obj in Hs. apply andb_true_iff in Hs as [Hs1 Hs2%Z.eqb_eq]. exists j, e'.
    split_and!; try done. by apply fd_used_true.
  - intros (j & e' & Hne & Hj & Hu' & Ho). exists j, e'. rewrite list_lookup_insert_ne by done. split; [done|].
    unfold same_obj. by rewrite (proj2 (fd_used_true e') Hu'), Ho, Z.eqb_refl.
Qed.

Lemma refcount_others t i e :
  t !! i = Some e -> refcount e <> 0 -> fobj e <> 0 ->
  (fd_obj_refcount t (fobj e) <=? 1) = true <->
  forall j e', t !! j = Some e' -> refcount e' <> 0 -> fobj e' = fobj e -> j = i.
Proof.
  intros Hi Hu Hz. pose proof (refcount_other t i e Hi Hu Hz) as Ho. split.
  - intros Ht j e' Hj Hu' He. destruct (decide (j = i)) as [|Hne]; [done|]. exfalso.
    rewrite (proj2 Ho) in Ht; [done|]. by exists j, e'.
  - intros Hall. apply not_false_iff_true. intros Hc. apply Ho in Hc as (j & e' & Hne & Hj & Hu' & He).
    apply Hne. by eapply Hall.
Qed.

Lemma p_shared_spec p t i e :
  repr t (p_fds p) (p_ofd p) -> t !! i = Some e ->
  p_shared p i (desc_of i e) = false <->
  forall j e', t !! j = Some e' -> refcount e' <> 0 -> desc_of j e' = desc_of i e -> j = i.
Proof.
  intros R Hi. unfold p_shared. rewrite negb_false_iff, bool_decide_eq_true. unfold map_Forall. split.
  - intros Hall j e' Hj Hu Hd. destruct (decide (j = i)) as [|Hne]; [done|]. exfalso.
    apply (Hall j (desc_of j e', fd_flags e')); [|done]. rewrite lookup_delete_ne by done.
    rewrite (rp_fds _ _ _ R), Hj. simpl. by rewrite (proj2 (fd_used_true e') Hu).
  - intros Hall j [d fl] [Hne Hj]%lookup_delete_Some Hd. simpl in Hd. subst d.
    rewrite (rp_fds _ _ _ R) in Hj. destruct (t !! j) as [e'|] eqn:Hj'; [|done]. simpl in Hj.
    destruct (fd_used e') eqn:Hu; [|done]. simplify_eq. apply Hne. symmetry.
    eapply Hall; [done|by apply fd_used_true|done].
Qed.

(** The table counts to one exactly when POSIX has no other descriptor. *)
Lemma last_descriptor p t i e :
  repr t (p_fds p) (p_ofd p) -> t !! i = Some e -> refcount e <> 0 -> fobj e <> 0 ->
  (fd_obj_refcount t (fobj e) <=? 1) = negb (p_shared p i (desc_of i e)).
Proof.
  intros R Hi Hu Hz. apply eq_true_iff_eq. rewrite negb_true_iff.
  rewrite (refcount_others t i e), (p_shared_spec p t i e) by done.
  unfold desc_of at 2. apply Z.eqb_neq in Hz as Hz'. rewrite Hz'.
  split; intros Hall j e' Hj Hu' Hd; apply (Hall j e' Hj Hu').
  - unfold desc_of in Hd. destruct (fobj e' =? 0); congruence.
  - unfold desc_of. rewrite Hd, Hz'. done.
Qed.

Lemma repr_close p t i e e' :
  repr t (p_fds p) (p_ofd p) -> t !! i = Some e -> refcount e <> 0 -> refcount e' = 0 ->
  repr (<[i := e']> t) (delete i (p_fds p))
       (if p_shared p i (desc_of i e) then p_ofd p else delete (desc_of i e) (p_ofd p)).
Proof.
  intros R Hi Hu He'. assert (Hlt : (i < length t)%nat) by by eapply lookup_lt_Some.
  assert (Hsh := p_shared_spec p t i e R Hi).
  split.
  - intros j. destruct (decide (j = i)) as [->|Hne].
    + rewrite lookup_delete_eq, list_lookup_insert_eq by done. simpl. by rewrite (proj2 (fd_used_false e') He').
    + rewrite lookup_delete_ne, list_lookup_insert_ne by done. apply (rp_fds _ _ _ R).
  - intros j ej Hj Hej. apply list_lookup_insert_Some in Hj as [(-> & <- & _)|[Hne Hj]]; [done|].
    destruct (rp_ofd _ _ _ R j ej Hj Hej) as (o & Ho & His). exists o. split; [|done].
    destruct (p_shared p i (desc_of i e)) eqn:Hs; [done|]. rewrite lookup_delete_ne; [done|].
    intros Heq. apply Hne. symmetry. by eapply (proj1 Hsh).
  - intros d Hd. destruct (p_shared p i (desc_of i e)) eqn:Hs.
    + destruct (rp_dom _ _ _ R d Hd) as (j & ej & Hj & Hej & Hdj). destruct (decide (j = i)) as [->|Hne].
      * simplify_eq. unfold p_shared in Hs. rewrite negb_true_iff, bool_decide_eq_false in Hs.
        apply map_not_Forall in Hs as (k & [d' fl] & Hk & Hd'); [|apply _]. simpl in Hd'. apply dec_stable in Hd'.
        apply lookup_delete_Some in Hk as [Hne Hk]. rewrite (rp_fds _ _ _ R) in Hk.
        destruct (t !! k) as [ek|] eqn:Hek; [|done]. simpl in Hk. destruct (fd_used ek) eqn:Huk; [|done]. simplify_eq.
        exists k, ek. rewrite list_lookup_insert_ne by done. split_and!; [done| |done]. by apply fd_used_true.
      * exists j, ej. by rewrite list_lookup_insert_ne.
    + destruct Hd as [o [Hne Ho]%lookup_delete_Some].
      destruct (rp_dom _ _ _ R d) as (j & ej & Hj & Hej & Hdj); [by eexists|]. exists j, ej.
      rewrite list_lookup_insert_ne; [done|]. intros ->. simplify_eq.
  - intros j ej Hj. apply list_lookup_insert_Some in Hj as [(-> & <- & _)|[_ Hj]]; [by left|].
    by eapply (rp_count _ _ _ R).
Qed.

(** ** The calls, one by one *)

(** A descriptor of the table with what it stands for. *)
Record entry_at s p (i : nat) e d (fl : Z) o : Prop := {
  ea_lookup : fdtable s !! i = Some e;
  ea_one : refcount e = 1;
  ea_fd : p_fds p !! i = Some (d, fl);
  ea_ofd : p_ofd p !! d = Some o;
  ea_desc : d = desc_of i e;
  ea_flags : fl = fd_flags e;
  ea_is : ofd_is e o;
}.

Lemma rel_err s p x : rel s p -> rel (set_err s x) (fst (p_fail p x)).
Proof. intros (? & ? & ? & ?). done. Qed.

(** The objects and errno are the same on both sides. *)
Lemma rel_world s p fl w er :
  rel s p -> rel (mk_zs (fdtable s) fl w er) (mk_pst (p_fds p) (p_ofd p) w er).
Proof. by intros (? & ? & _ & _). Qed.

Lemma sim_fail s p x : rel s p -> sim (Returns (set_err s x, rval (-1))) (p_fail p x).
Proof. intros. eexists. split; [done|]. by apply rel_err. Qed.

Lemma rel_after s p w oe : rel s p -> rel (after s w oe) (p_after p w oe).
Proof. intros (? & ? & ? & He). unfold rel. simpl. by rewrite He. Qed.

Lemma rel_get s p fd :
  rel s p ->
  match zvfs_fd_entry_get s fd with
  | Some (i, e) => exists d fl o, p_get p fd = Some (i, d, fl, o) /\ entry_at s p i e d fl o /\ fd = Z.of_nat i
  | None => p_get p fd = None
  end.
Proof.
  intros (HN & R & _ & _). unfold zvfs_fd_entry_get, p_get. destruct (Z.ltb_spec fd 0); [done|]. simpl.
  destruct (Z.leb_spec (Z.of_nat (length (fdtable s))) fd).
  - assert (Hn : fdtable s !! Z.to_nat fd = None) by (apply lookup_ge_None; lia).
    by rewrite (rp_fds _ _ _ R), Hn.
  - destruct (fdtable s !! Z.to_nat fd) as [e|] eqn:He.
    2: by rewrite (rp_fds _ _ _ R), He.
    pose proof (rp_fds _ _ _ R (Z.to_nat fd)) as Hf. rewrite He in Hf. simpl in Hf.
    destruct (fd_used e) eqn:Hu; [|by rewrite Hf]. apply fd_used_true in Hu.
    destruct (rp_ofd _ _ _ R _ e He Hu) as (o & Ho & His).
    exists (desc_of (Z.to_nat fd) e), (fd_flags e), o. rewrite Hf. simpl. rewrite Ho.
    split_and!; [done| |lia]. split; try done. by destruct (rp_count _ _ _ R _ e He).
Qed.

Lemma sim_with s p fd k pk :
  rel s p -> (forall i e d fl o, entry_at s p i e d fl o -> fd = Z.of_nat i -> sim (k i e) (pk i d fl o)) ->
  sim (with_entry s fd k) (p_with p fd pk).
Proof.
  intros HR Hk. unfold with_entry, p_with. pose proof (rel_get s p fd HR) as Hg.
  destruct (zvfs_fd_entry_get s fd) as [[i e]|].
  - destruct Hg as (d & fl & o & -> & He & Hfd). by apply Hk.
  - rewrite Hg. by apply sim_fail.
Qed.

Lemma with_vtable_is {A} e o (k : fd_op_vtable W -> outcome A) : ofd_is e o -> with_vtable e k = k (o_vt o).
Proof. intros (Hv & _). unfold with_vtable. by rewrite Hv. Qed.

Lemma rel_offset s p i e d fl o off :
  rel s p -> entry_at s p i e d fl o ->
  rel (set_table s (zvfs_fd_offset_set (fdtable s) i e off)) (p_set_off p d o off).
Proof.
  intros (HN & R & ? & ?) []. unfold rel. simpl. rewrite offset_set_length. split_and!; try done. subst d.
  apply repr_offset; try done. lia.
Qed.

Lemma entry_at_after s p i e d fl o w oe :
  entry_at s p i e d fl o -> entry_at (after s w oe) (p_after p w oe) i e d fl o.
Proof. by intros []. Qed.

Lemma sim_rw s p fd buf sz is_write from :
  rel s p -> sim (zvfs_rw s fd buf sz is_write from) (p_rw p fd buf sz is_write from).
Proof.
  intros HR. apply sim_with; [done|]. intros i e d fl o He _. destruct (ea_is _ _ _ _ _ _ _ He) as (_ & Ho & Hoff & Hm).
  unfold zvfs_rw_entry. rewrite Hm, Hoff, Ho.
  destruct (match from with Some _ => _ | None => _ end); [by apply sim_fail|].
  assert (Hadv : forall w oe n, rel (advance (after s w oe) i e from n) (p_advance (p_after p w oe) d o from n)).
  { intros w oe n. unfold advance, p_advance. rewrite Hoff. destruct from; [by apply rel_after|].
    destruct (0 <? n); [|by apply rel_after].
    eapply rel_offset; [by apply rel_after|]. by apply entry_at_after. }
  rewrite (with_vtable_is e o) by apply He. assert (Hw := proj1 (proj2 (proj2 HR))). rewrite Hw.
  destruct is_write.
  - destruct (v_write_offs (o_vt o)) as [m|]; [|by apply sim_fail].
    destruct (m _ _ _ _ _) as [[w n] oe]. by apply sim_intro.
  - destruct (v_read_offs (o_vt o)) as [m|]; [|by apply sim_fail].
    destruct (m _ _ _ _) as [[w [n data]] oe]. by apply sim_intro.
Qed.

Lemma sim_ioctl_entry s p i e d fl o rq :
  rel s p -> entry_at s p i e d fl o ->
  sim (call_ioctl s e rq)
      (let '(w, (n, st), oe) := v_ioctl (o_vt o) (o_obj o) rq (p_world p) in (p_after p w oe, mk_reply n [] st)).
Proof.
  intros HR He. unfold call_ioctl. rewrite (with_vtable_is e o) by apply He.
  destruct (ea_is _ _ _ _ _ _ _ He) as (_ & -> & _). assert (Hw := proj1 (proj2 (proj2 HR))). rewrite Hw.
  destruct (v_ioctl _ _ _ _) as [[w [n st]] oe]. apply sim_intro. by apply rel_after.
Qed.

Lemma sim_ioctl s p fd rq :
  rel s p -> sim (with_entry s fd (fun _ e => call_ioctl s e rq)) (p_ioctl p fd rq).
Proof. intros HR. apply sim_with; [done|]. intros. by eapply sim_ioctl_entry. Qed.

Lemma sim_lseek s p fd offset whence : rel s p -> sim (zvfs_lseek s fd offset whence) (p_lseek p fd offset whence).
Proof.
  intros HR. apply sim_with; [done|]. intros i e d fl o He _. unfold zvfs_lseek_wrap.
  rewrite (with_vtable_is e o) by apply He. destruct (ea_is _ _ _ _ _ _ _ He) as (_ & -> & -> & ->).
  assert (Hw := proj1 (proj2 (proj2 HR))). rewrite Hw.
  destruct (v_ioctl _ _ _ _) as [[w [n st]] oe]. apply sim_intro. destruct (_ && _); [|by apply rel_after].
  eapply rel_offset; [by apply rel_after|]. by apply entry_at_after.
Qed.

Lemma rel_close s p i e d fl o :
  rel s p -> entry_at s p i e d fl o ->
  forall w oe files, rel (zvfs_free (mk_zs (fdtable s) files w (default (zerr s) oe)) i)
    (mk_pst (delete i (p_fds p)) (if p_shared p i d then p_ofd p else delete d (p_ofd p)) w (default (p_err p) oe)).
Proof.
  intros (HN & R & Hw & Hz) [] w oe fs. unfold zvfs_free. simpl. rewrite ea_lookup0.
  unfold rel. simpl. rewrite length_insert, Hz. split_and!; try done. subst d.
  apply repr_close; try done; [lia|]. by apply unref_spec.
Qed.

Lemma sim_close s p fd : rel s p -> sim (zvfs_close fbase fsize s fd) (p_close p fd).
Proof.
  intros HR. apply sim_with; [done|]. intros i e d fl o He ->. rewrite (with_vtable_is e o) by apply He.
  assert (Hrel := rel_close s p i e d fl o HR He). assert (Hw := proj1 (proj2 (proj2 HR))).
  assert (Hz := proj2 (proj2 (proj2 HR))). assert (R := proj1 (proj2 HR)).
  destruct (ea_is _ _ _ _ _ _ _ He) as (_ & Ho & _ & Hm). unfold close_object. rewrite Ho, Hm.
  assert (Hidle : forall r, sim (Returns (zvfs_free (free_file fbase fsize s (Z.of_nat i)) i, r))
    (mk_pst (delete i (p_fds p)) (if p_shared p i d then p_ofd p else delete d (p_ofd p)) (p_world p) (p_err p), r)).
  { intros r. apply sim_intro. rewrite <- Hw. apply (Hrel (world s) None). }
  assert (Hlast : fobj e <> 0 -> (fd_obj_refcount (fdtable s) (fobj e) <=? 1) = negb (p_shared p i d)).
  { intros. rewrite (ea_desc _ _ _ _ _ _ _ He). apply last_descriptor; try apply He; try done.
    rewrite (ea_one _ _ _ _ _ _ _ He). lia. }
  revert Hidle Hrel Hlast. destruct (p_shared p i d); intros Hidle Hrel Hlast;
    (destruct (v_close (o_vt o)) as [m|]; [|by apply Hidle]);
    (destruct (Z.eqb_spec (fobj e) 0) as [|Hnz]; [by apply Hidle|]);
    rewrite Hlast by done; simpl; [by apply Hidle|].
  rewrite Hw. destruct (m _ _ _) as [[w n] oe]. apply sim_intro. by apply (Hrel w oe).
Qed.

Lemma find_from_least t fds ofds n i :
  repr t fds ofds -> (i + n <= length t)%nat ->
  find_from t n i = head (filter (fun j => fds !! j = None) (seq i n)).
Proof.
  intros R. revert i. induction n as [|n IH]; intros i Hle; [done|]. simpl.
  destruct (lookup_lt_is_Some_2 t i) as [e He]; [lia|]. rewrite He.
  pose proof (repr_free _ _ _ _ _ R He) as Hf. destruct (fd_used e) eqn:Hu.
  - apply fd_used_true in Hu. rewrite filter_cons_False by tauto. apply IH. lia.
  - apply fd_used_false in Hu. by rewrite filter_cons_True by tauto.
Qed.

Lemma find_from_free t n i j : find_from t n i = Some j -> exists e, t !! j = Some e /\ refcount e = 0.
Proof.
  revert i. induction n as [|n IH]; intros i; [done|]. simpl. destruct (t !! i) as [e|] eqn:He; [|done].
  destruct (fd_used e) eqn:Hu; [by apply IH|]. intros [= <-]. exists e. split; [done|]. by apply fd_used_false.
Qed.

Lemma ofd_is_inj e o o' : ofd_is e o -> ofd_is e o' -> o = o'.
Proof. destruct o, o'. unfold ofd_is. simpl. intros (? & ? & ? & ?) (? & ? & ? & ?). congruence. Qed.

Lemma rel_entry s p i e : rel s p -> fdtable s !! i = Some e -> refcount e <> 0 -> exists d fl o, entry_at s p i e d fl o.
Proof.
  intros (_ & R & _ & _) Hi Hu. destruct (rp_ofd _ _ _ R i e Hi Hu) as (o & Ho & His).
  exists (desc_of i e), (fd_flags e), o. split; try done.
  - by destruct (rp_count _ _ _ R i e Hi).
  - rewrite (rp_fds _ _ _ R), Hi. simpl. by rewrite (proj2 (fd_used_true e) Hu).
Qed.

Lemma rel_alias s p i e d fl o j e0 :
  rel s p -> entry_at s p i e d fl o -> fdtable s !! j = Some e0 -> refcount e0 = 0 ->
  rel (zvfs_dup_entry_locked s e j) (p_alias p j d o).
Proof.
  intros (HN & R & Hw & Hz) [] Hj H0. unfold zvfs_dup_entry_locked. rewrite Hj, ref_spec, H0.
  unfold rel. simpl. rewrite length_insert. split_and!; try done.
  pose (e' := mk_fd (fobj e) (fvtable e) 1 (foffset e) (fmode e) 0 : fd_entry W).
  assert (Hd : match d with Shared _ => d | Own _ => Own j end = desc_of j e').
  { subst d. unfold desc_of. simpl. by destruct (fobj e =? 0). }
  rewrite Hd. apply (repr_take _ _ _ j e0 e' o R); try done. rewrite <- Hd. subst d. unfold desc_of in *.
  destruct (fobj e =? 0); [|by right]. left. by eapply repr_own.
Qed.

Lemma sim_dup s p fd minfd : rel s p -> sim (zvfs_dup s fd minfd) (p_dup N p fd minfd).
Proof.
  intros HR. apply sim_with; [done|]. intros i e d fl o He _. unfold find_fd_entry_at_or_above.
  destruct (minfd <? 0); [by apply sim_fail|]. unfold least_free.
  pose proof (HR) as (HN & R & _ & _). rewrite <- HN.
  destruct (decide (Z.to_nat minfd <= length (fdtable s))%nat) as [Hle|Hgt].
  - rewrite <- (find_from_least _ _ _ _ _ R) by lia.
    destruct (find_from _ _ _) as [j|] eqn:Hj; [|by apply sim_fail].
    apply find_from_free in Hj as (e0 & Hj & H0). apply sim_intro. by eapply rel_alias.
  - replace (length (fdtable s) - Z.to_nat minfd)%nat with 0%nat by lia. by apply sim_fail.
Qed.

Lemma close_table s fd i e s' r :
  zvfs_fd_entry_get s fd = Some (i, e) -> zvfs_close fbase fsize s fd = Returns (s', r) ->
  fdtable s' = <[i := z_fd_unref e]> (fdtable s).
Proof.
  intros Hg Hc. unfold zvfs_close, with_entry in Hc. rewrite Hg in Hc. unfold with_vtable in Hc.
  destruct (fvtable e) as [v|]; [|done]. destruct (close_object s fd e v) as [s1 n] eqn:Hco.
  assert (Ht : fdtable s1 = fdtable s).
  { unfold close_object in Hco. destruct (v_close v) as [m|]; [|by simplify_eq].
    destruct (_ && _); [|by simplify_eq]. destruct (m _ _ _) as [[w n'] oe]. by simplify_eq. }
  simplify_eq. unfold zvfs_free. simpl. rewrite Ht.
  unfold zvfs_fd_entry_get in Hg. destruct (_ || _); [done|]. destruct (fdtable s !! Z.to_nat fd) as [e'|] eqn:He; [|done].
  destruct (fd_used e'); [|done]. simplify_eq. by rewrite He.
Qed.

Lemma sim_dup2_over s p i e d fl o newfd e0 :
  rel s p -> entry_at s p i e d fl o -> fdtable s !! Z.to_nat newfd = Some e0 -> refcount e0 = 0 ->
  sim (dup2_over s i newfd) (p_alias p (Z.to_nat newfd) d o, rval newfd).
Proof.
  intros HR He Hn H0. unfold dup2_over. rewrite Hn, (ea_lookup _ _ _ _ _ _ _ He).
  rewrite (proj2 (fd_used_false e0) H0). apply sim_intro. by eapply rel_alias.
Qed.

Lemma sim_dup2 s p fd newfd : rel s p -> sim (zvfs_dup2 fbase fsize s fd newfd) (p_dup2 N p fd newfd).
Proof.
  intros HR. unfold zvfs_dup2, p_dup2. destruct (Z.eqb_spec fd newfd) as [|Hne].
  { apply sim_with; [done|]. intros. by apply sim_intro. }
  apply sim_with; [done|]. intros i e d fl o He ->. pose proof HR as (HN & R & _ & _). rewrite HN.
  destruct ((newfd <? 0) || _) eqn:Hb; [by apply sim_fail|].
  apply orb_false_iff in Hb as [Hlo%Z.ltb_ge Hhi%Z.leb_gt].
  pose proof (rel_get s p newfd HR) as Hg. destruct (zvfs_fd_entry_get s newfd) as [[j ej]|] eqn:Hgn.
  - destruct Hg as (dj & flj & oj & Hpg & Hj & Hnj). rewrite Hpg.
    destruct (sim_close s p newfd HR) as (s1 & Hc & HR1). rewrite Hc.
    destruct (p_close p newfd) as [p1 r] eqn:Hpc. simpl in Hc, HR1 |- *.
    destruct (r_val r <? 0); [by apply sim_intro|].
    pose proof (close_table _ _ _ _ _ _ Hgn Hc) as Ht. 
    assert (Hi1 : fdtable s1 !! i = Some e).
    { rewrite Ht, list_lookup_insert_ne by lia. apply He. }
    destruct (rel_entry s1 p1 i e HR1 Hi1) as (d1 & fl1 & o1 & He1); [rewrite (ea_one _ _ _ _ _ _ _ He); lia|].
    assert (d1 = d) as -> by by rewrite (ea_desc _ _ _ _ _ _ _ He), (ea_desc _ _ _ _ _ _ _ He1).
    assert (o1 = o) as -> by by (eapply ofd_is_inj; [apply He1|apply He]).
    eapply sim_dup2_over; [done|done| |by apply (unref_spec ej); apply Hj].
    rewrite Ht. subst newfd. rewrite Nat2Z.id. apply list_lookup_insert_eq. by eapply lookup_lt_Some, Hj.
  - rewrite Hg. destruct (lookup_lt_is_Some_2 (fdtable s) (Z.to_nat newfd)) as [e0 Hn]; [lia|].
    assert (H0 : refcount e0 = 0).
    { unfold zvfs_fd_entry_get in Hgn. rewrite HN in Hgn. ztests. 
      revert Hgn. ztests. simpl. rewrite Hn. destruct (fd_used e0) eqn:Hu; [done|]. intros _. by apply fd_used_false. }
    eapply (sim_dup2_over (set_err s EBADF) (fst (p_fail p EBADF))); [by apply rel_err| |done|done].
    by destruct He.
Qed.

Lemma rel_flags s p i e d fl o fl' :
  rel s p -> entry_at s p i e d fl o ->
  rel (set_table s (<[i := with_flags e fl']> (fdtable s))) (p_set_flags p i d fl').
Proof.
  intros (HN & R & ? & ?) []. unfold rel. simpl. rewrite length_insert. split_and!; try done. subst d.
  apply repr_flags; [done..|lia].
Qed.

(** A successful dup gives an open descriptor. *)
Lemma p_dup_open p fd minfd p' r : p_dup N p fd minfd = (p', r) -> 0 <= r_val r -> p_get p' (r_val r) <> None.
Proof.
  unfold p_dup, p_with. destruct (p_get p fd) as [[[[i d] fl] o]|]; [|unfold p_fail; intros; by simplify_eq/=].
  destruct (minfd <? 0); [unfold p_fail; intros; by simplify_eq/=|].
  destruct (least_free N p _) as [j|]; [|unfold p_fail; intros; by simplify_eq/=].
  intros [= <- <-] _. simpl. unfold p_get. rewrite ltb_false by lia. rewrite Nat2Z.id. simpl.
  rewrite lookup_insert_eq. simpl. by rewrite lookup_insert_eq.
Qed.

Lemma sim_fcntl s p fd cmd arg : rel s p -> sim (zvfs_fcntl fbase fsize s fd cmd arg) (p_fcntl N p fd cmd arg).
Proof.
  intros HR. apply sim_with; [done|]. intros i e d fl o He Hfd.
  destruct (cmd =? ZVFS_F_GETFD); [rewrite (ea_flags _ _ _ _ _ _ _ He); by apply sim_intro|].
  destruct (cmd =? ZVFS_F_SETFD); [apply sim_intro; by eapply rel_flags|].
  destruct (cmd =? ZVFS_F_DUPFD); [by apply sim_dup|].
  destruct (cmd =? ZVFS_F_DUPFD_CLOEXEC).
  { destruct (sim_dup s p fd (swrap 32 arg) HR) as (s1 & Hd & HR1). rewrite Hd.
    destruct (p_dup N p fd (swrap 32 arg)) as [p1 r] eqn:Hp. simpl in *.
    destruct (Z.ltb_spec (r_val r) 0); [by apply sim_intro|].
    pose proof (rel_get s1 p1 (r_val r) HR1) as Hg. destruct (zvfs_fd_entry_get s1 (r_val r)) as [[j ej]|].
    - destruct Hg as (dj & flj & oj & -> & Hj & _). apply sim_intro. by eapply rel_flags.
    - by destruct (p_dup_open p fd (swrap 32 arg) p1 r). }
  destruct (is_lock_cmd cmd); [|by eapply sim_ioctl_entry].
  destruct (arg =? 0); [by apply sim_fail|].
  assert (mk_fd (o_obj o) (Some (o_vt o)) 1 (o_off o) (o_mode o) fl = e) as ->.
  { destruct He as [_ Hone _ _ _ Hfl (Hv & -> & -> & ->)]. rewrite Hfl, <- Hv. destruct e; simpl in *. by subst. }
  assert (Hw := proj1 (proj2 (proj2 HR))). rewrite Hw.
  destruct (record_lock_fcntl _ _ _ _) as [[w n] oe]. apply sim_intro. by apply rel_after.
Qed.

Definition fresh_in s (obj : Z) : Prop :=
  obj = 0 \/ forall i e, fdtable s !! i = Some e -> refcount e <> 0 -> fobj e <> obj.

Lemma sim_open s p obj v mode :
  rel s p -> fresh_in s obj ->
  exists s' p' r, zvfs_alloc s obj v mode = Returns (s', r) /\ posix_step N p (COpen obj v mode) p' r /\ rel s' p'.
Proof.
  intros (HN & R & Hw & Hz) Hfr. unfold zvfs_alloc, zvfs_reserve.
  destruct (find_fd_entry (fdtable s)) as [i|] eqn:Hf.
  - destruct (find_free _ _ Hf) as (e & Hi & H0). rewrite Hi. assert (Hlt := lookup_lt_Some _ _ _ Hi).
    unfold zvfs_finalize. simpl. rewrite list_lookup_insert_eq by done.
    rewrite finalize_spec, ref_spec, list_insert_insert_eq. simpl. rewrite H0.
    pose (e' := mk_fd obj (Some v) 1 0 mode 0 : fd_entry W).
    assert (Hno : p_ofd p !! desc_of i e' = None).
    { unfold desc_of. simpl. destruct (Z.eqb_spec obj 0) as [|Hne]; [by eapply repr_own|].
      destruct Hfr as [?|Hfr]; [done|]. destruct (p_ofd p !! Shared obj) as [o|] eqn:Ho; [|done]. exfalso.
      destruct (rp_dom _ _ _ R (Shared obj)) as (j & ej & Hj & Hu & Hd); [by eexists|].
      unfold desc_of in Hd. destruct (fobj ej =? 0); simplify_eq. by eapply Hfr. }
    eexists _, _, _. split; [done|]. split.
    + eapply ps_open; [lia| |exact Hno]. by eapply (repr_free _ _ _ _ _ R Hi).
    + unfold rel. simpl. rewrite length_insert. split_and!; try done.
      apply (repr_take _ _ _ i e e' (mk_ofd obj v 0 mode) R); try done. by left.
  - eexists _, _, _. split; [done|]. split; [apply ps_open_full|by unfold rel]. intros i Hi.
    destruct (lookup_lt_is_Some_2 (fdtable s) i) as [e He]; [lia|].
    pose proof (find_none _ _ _ Hf He) as Hu. rewrite (rp_fds _ _ _ R), He. simpl.
    by rewrite (proj2 (fd_used_true e) Hu).
Qed.

Lemma sim_step c s p :
  rel s p -> match c with COpen obj _ _ => fresh_in s obj | _ => True end ->
  exists s' p' r, zvfs_exec fbase fsize c s = Returns (s', r) /\ posix_step N p c p' r /\ rel s' p'.
Proof.
  intros HR Hfr.
  assert (Hdet : forall c pr, posix_call N c p = Some pr -> sim (zvfs_exec fbase fsize c s) pr ->
    exists s' p' r, zvfs_exec fbase fsize c s = Returns (s', r) /\ posix_step N p c p' r /\ rel s' p').
  { intros c' [p' r] Hp (s' & He & HR'). exists s', p', r. split_and!; [done|by constructor|done]. }
  destruct c; try (eapply Hdet; [done|]); simpl.
  - by apply sim_rw.
  - by apply sim_rw.
  - by apply sim_lseek.
  - by apply sim_close.
  - by apply sim_dup.
  - by apply sim_dup2.
  - by apply sim_fcntl.
  - by apply sim_ioctl.
  - by apply sim_ioctl.
  - by apply sim_ioctl.
  - by apply sim_open.
Qed.
End Refine.

(** ** The refinement *)

(** A table with nothing open. *)
Definition table_empty {W} (t : list (fd_entry W)) : Prop := forall i e, t !! i = Some e -> refcount e = 0.

Lemma repr_empty {W} (t : list (fd_entry W)) : table_empty t -> repr t ∅ ∅.
Proof.
  intros Ht. split.
  - intros i. rewrite lookup_empty. destruct (t !! i) as [e|] eqn:He; [|done]. simpl.
    unfold fd_used. by rewrite (Ht i e He).
  - intros i e He Hu. by rewrite (Ht i e He) in Hu.
  - intros d [? Hd]. by rewrite lookup_empty in Hd.
  - intros i e He. left. by eapply Ht.
Qed.

(** C1: descriptors behave as POSIX says.  Take a table with nothing open and
    any sequence of opens, reads, writes, seeks, closes, duplications and
    fcntl requests in which every open is given an object of its own, or
    none.  The calls never follow the NULL methods of a reserved entry, and
    every one of their answers, errno included, is one of a system in which
    descriptors refer to open file descriptions that hold the only offset,
    are shared by duplicates, and close their object with the last
    descriptor that refers to them. *)
Theorem zvfs_refines_posix `{FdConfig} {W} `{!FdKernel W} `{!FdKernelLaws W} fbase fsize (cs : list (call W)) s :
  table_empty (fdtable s) -> fresh_opens fbase fsize cs s ->
  exists s' p' rs,
    zvfs_run fbase fsize cs s = Returns (s', rs) /\
    posix_run (length (fdtable s)) (mk_pst ∅ ∅ (world s) (zerr s)) cs p' rs /\
    world s' = p_world p' /\ zerr s' = p_err p'.
Proof.
  intros Ht Hfr.
  assert (HR : rel (length (fdtable s)) s (mk_pst ∅ ∅ (world s) (zerr s))) by (split_and!; try done; by apply repr_empty).
  revert HR Hfr. generalize (length (fdtable s)) (mk_pst ∅ ∅ (world s) (zerr s)). intros N p. revert p s Ht.
  enough (Hg : forall p s, rel N s p -> fresh_opens fbase fsize cs s -> exists s' p' rs,
    zvfs_run fbase fsize cs s = Returns (s', rs) /\ posix_run N p cs p' rs /\
    world s' = p_world p' /\ zerr s' = p_err p') by eauto.
  induction cs as [|c cs IH]; intros p s HR Hfr.
  - exists s, p, []. destruct HR as (_ & _ & ? & ?). split_and!; try done. constructor.
  - destruct Hfr as [Hc Hfr]. destruct (sim_step fbase fsize N c s p HR) as (s1 & p1 & r & He & Hp & HR1).
    { by destruct c. }
    simpl. rewrite He in *. destruct (IH p1 s1 HR1 Hfr) as (s2 & p2 & rs & Hr & Hpr & ? & ?).
    rewrite Hr. exists s2, p2, (r :: rs). split_and!; try done. by econstructor.
Qed.

(** ** A concrete table *)

Definition demo_config : FdConfig := {|
  errno_val e := match e with EBADF => 9 | EINVAL => 22 | EMFILE => 24 | EIO => 5 | _ => 134 end;
  size_bits := 32;
  ZVFS_MODE_IFDIR := 16384; ZVFS_MODE_IFBLK := 24576; ZVFS_MODE_IFSHM := 28672; ZVFS_MODE_IFREG := 32768;
|}.

(** One object, whose state is its bytes. *)
Definition demo_vt : fd_op_vtable (list Z) := mk_vt
  (Some (fun _ sz off w => let d := take (Z.to_nat sz) (drop (Z.to_nat off) w) in (w, (Z.of_nat (length d), d), None)))
  (Some (fun _ buf sz off w => (take (Z.to_nat off) w ++ take (Z.to_nat sz) buf ++ drop (Z.to_nat (off + sz)) w, sz, None)))
  (Some (fun _ _ w => (w, 0, None)))
  (fun _ rq w => match rq with IoLseek off _ _ => (w, (off, None), None) | _ => (w, (-1, None), Some 95) end).

Definition demo_kernel : FdKernel (list Z) := plain_kernel (fun _ _ _ w => (w, -1, Some 95)).

Definition demo_st : zs (list Z) :=
  mk_zs (replicate 4 (mk_fd 0 None 0 0 0 0)) (mk_store [] ∅) [] 0.

Definition demo_calls : list (call (list Z)) :=
  [COpen 100 demo_vt 32768; CWrite 0 [7; 8; 9] 3 None; CDup 0 0; CLseek 1 0 0; CRead 0 2 None; CRead 1 2 None;
   CFcntl 0 ZVFS_F_DUPFD_CLOEXEC 3; CFcntl 3 ZVFS_F_GETFD 0; CClose 0; CDup2 1 3; CClose 1; CRead 3 1 (Some 1);
   CClose 3; CRead 3 1 None].

Example demo_run :
  option_map (fun x => map (fun r => (r_val r, r_data r)) (snd x))
    match @zvfs_run demo_config _ demo_kernel 0 8 demo_calls demo_st with Returns x => Some x | _ => None end
  = Some [(0, []); (3, []); (1, []); (0, []); (2, [7; 8]); (1, [9]); (3, []); (1, []); (0, []); (3, []); (0, []);
          (1, [8]); (0, []); (-1, [])].
Proof. vm_compute. reflexivity. Qed.

Lemma zvfs_refines_posix_witness :
  table_empty (fdtable demo_st) /\ @fresh_opens demo_config _ demo_kernel 0 8 demo_calls demo_st /\
  exists s' p' rs,
    @zvfs_run demo_config _ demo_kernel 0 8 demo_calls demo_st = Returns (s', rs) /\
    @posix_run demo_config _ demo_kernel 4 (mk_pst ∅ ∅ [] 0) demo_calls p' rs /\
    world s' = p_world p' /\ zerr s' = p_err p'.
Proof.
  assert (He : table_empty (fdtable demo_st)).
  { intros i e Hi. by apply lookup_replicate in Hi as [-> _]. }
  assert (Hf : @fresh_opens demo_config _ demo_kernel 0 8 demo_calls demo_st).
  { split; [|vm_compute; tauto]. right. intros i e Hi Hu. exfalso. apply Hu. by eapply He. }
  split; [done|]. split; [done|].
  exact (@zvfs_refines_posix demo_config _ demo_kernel (plain_kernel_laws _) 0 8 demo_calls demo_st He Hf).
Defined.

(** Two opens of one object, which is what shm_open does for a name that
    exists: a write through the first moves the second, which reads nothing of
    what was written. *)
Lemma opens_share_offset :
  option_map (fun x => map (fun r => (r_val r, r_data r)) (snd x))
    match @zvfs_run demo_config _ demo_kernel 0 8
            [COpen 100 demo_vt 28672; COpen 100 demo_vt 28672; CWrite 0 [7; 8; 9] 3 None; CRead 1 3 None] demo_st
    with Returns x => Some x | _ => None end
  = Some [(0, []); (1, []); (3, []); (0, [])].
Proof. vm_compute. reflexivity. Qed.
