(* ===== verification/ZvfsFs.v ===== *)
(** * Regular files behind descriptors (zvfs_fs.c of the patch zvfs-libc-file-fd-fix,
    with zvfs-pread-pwrite-regular-files and zvfs-fcntl-record-lock; fopen.c, fclose.c)

    The pool of file objects, opening a path, and the methods of a regular
    file in the table of [FdTable].  The kernel's file system is the class
    [FsOps]; a file object is named by its place in the pool, and its address
    is that place plus one.  [FsLaws] has what the documentation of the calls
    says of positions and contents.  A number that a method keeps in an int
    is 32 bits wide, off_t has [off_bits] bits. *)

From stdpp Require Import base list sets gmap strings.
From Stdlib Require Import ZArith Lia Ascii.
From S2P Require Import Prelude RecordLock FdTable FdPosix.

Local Open Scope Z_scope.

(** The kernel's file system, on its state [F].  A call returns 0, a count or
    a position, or a negative error number. *)
Class FsOps (F : Type) := {
  fs_file_t_init : F -> nat -> F;
  fs_open : F -> nat -> string -> Z -> F * Z;
  fs_close : F -> nat -> F * Z;
  fs_tell : F -> nat -> Z;
  fs_seek : F -> nat -> Z -> Z -> F * Z;
  fs_read : F -> nat -> Z -> F * Z * list Z;
  fs_write : F -> nat -> list Z -> Z -> F * Z;
  fs_truncate : F -> nat -> Z -> F * Z;
  fs_sync : F -> nat -> F * Z;
}.

(** Constants of the kernel and of libc. *)
Class FsConst := {
  off_bits : Z;
  FS_SEEK_SET : Z; FS_SEEK_CUR : Z; FS_SEEK_END : Z;
  FS_O_READ : Z; FS_O_WRITE : Z; FS_O_RDWR : Z; FS_O_CREATE : Z; FS_O_APPEND : Z; FS_O_TRUNC : Z;
  ZVFS_O_RDONLY : Z; ZVFS_O_WRONLY : Z; ZVFS_O_RDWR : Z;
  ZVFS_O_CREAT : Z; ZVFS_O_APPEND : Z; ZVFS_O_TRUNC : Z; ZVFS_O_EXCL : Z;
}.

Record zvfs_fs_desc := mk_desc { d_is_dir : bool; d_used : bool }.

(** What is behind the descriptors: the pool, the file system with its open
    files, and the record locks. *)
Record fs_world (F : Type) := mk_fw { desc_array : list zvfs_fs_desc; fsys : F; locks : list lock_state }.
Arguments mk_fw {F} _ _ _.
Arguments desc_array {F} _.
Arguments fsys {F} _.
Arguments locks {F} _.

Section Fs.
Context `{FdConfig} `{FsConst} {F : Type} `{FsOps F}.

Abbreviation W := (fs_world F).
Implicit Types (w : W).

Definition with_fs w (f : F) : W := mk_fw (desc_array w) f (locks w).

(** ** The pool *)

Definition zvfs_fs_desc_alloc w (is_dir : bool) : W * option nat :=
  match find_index (fun d => negb (d_used d)) (desc_array w) with
  | None => (w, None)
  | Some i => (mk_fw (<[i := mk_desc is_dir true]> (desc_array w)) (fsys w) (locks w), Some i)
  end.

Definition zvfs_fs_desc_free w (ptr : option nat) : W :=
  match ptr with
  | None => w
  | Some i => mk_fw (alter (fun d => mk_desc (d_is_dir d) false) i (desc_array w)) (fsys w) (locks w)
  end.

Definition desc_addr (i : nat) : Z := Z.of_nat i + 1.
Definition desc_ix (obj : Z) : nat := Z.to_nat (obj - 1).

(** ** The methods *)

Definition fs_close_vmeth (obj : Z) (fd : option Z) w : W * Z * option Z :=
  let '(f, rc) := fs_close (fsys w) (desc_ix obj) in
  let w1 := mk_fw (desc_array w) f (zvfs_record_lock_drop_obj (locks w) obj) in
  (zvfs_fs_desc_free w1 (Some (desc_ix obj)), rc, None).

(** The end of fs_ioctl_vmeth. *)
Definition ioctl_end w (rc : Z) (st : option zvfs_stat) : W * (Z * option zvfs_stat) * option Z :=
  if rc <? 0 then (w, (-1, st), Some (- rc)) else (w, (rc, st), None).

Definition fs_ioctl_vmeth (obj : Z) (rq : ioreq) w : W * (Z * option zvfs_stat) * option Z :=
  let i := desc_ix obj in
  match rq with
  | IoStat =>
      let offset := fs_tell (fsys w) i in
      if offset <? 0 then (w, (swrap 32 offset, None), None)
      else
        let '(f1, rc) := fs_seek (fsys w) i 0 FS_SEEK_END in
        if rc <? 0 then (with_fs w f1, (rc, Some (mk_stat 0 0)), None)
        else
          let current := fs_tell f1 i in
          let st := if 0 <=? current then
              mk_stat current
                (if match desc_array w !! i with Some d => d_is_dir d | None => false end
                 then ZVFS_MODE_IFDIR else ZVFS_MODE_IFREG)
            else mk_stat 0 0 in
          let '(f2, rc) := fs_seek f1 i offset FS_SEEK_SET in
          ioctl_end (with_fs w f2) (if current <? 0 then swrap 32 current else rc) (Some st)
  | IoFsync => let '(f, rc) := fs_sync (fsys w) i in ioctl_end (with_fs w f) rc None
  | IoLseek offset whence _ =>
      let '(f, rc) := fs_seek (fsys w) i offset whence in
      ioctl_end (with_fs w f) (if rc =? 0 then swrap 32 (fs_tell f i) else rc) None
  | IoTruncate length => let '(f, rc) := fs_truncate (fsys w) i length in ioctl_end (with_fs w f) rc None
  | IoCmd _ _ => (w, (-1, None), Some (errno_val EOPNOTSUPP))
  end.

(** fs_write_vmeth and fs_read_vmeth, without the pool. *)
Definition fs_write_vmeth (f : F) (i : nat) (buf : list Z) (count : Z) : F * Z * option Z :=
  let '(f', rc) := fs_write f i buf count in
  if rc <? 0 then (f', -1, Some (- rc)) else (f', rc, None).

Definition fs_read_vmeth (f : F) (i : nat) (count : Z) : F * (Z * list Z) * option Z :=
  let '(f', rc, data) := fs_read f i count in
  if rc <? 0 then (f', (-1, data), Some (- rc)) else (f', (rc, data), None).

Definition fs_write_offs_vmeth (obj : Z) (buf : list Z) (count offset : Z) w : W * Z * option Z :=
  let i := desc_ix obj in
  let saved := fs_tell (fsys w) i in
  if saved <? 0 then (w, -1, Some (- saved))
  else
    let '(f1, rc) := fs_seek (fsys w) i (swrap off_bits offset) FS_SEEK_SET in
    if rc <? 0 then (with_fs w f1, -1, Some (- rc))
    else
      let '(f2, n, oe) := fs_write_vmeth f1 i buf count in
      if n <? 0 then (with_fs w f2, n, oe)
      else
        let '(f3, rc) := fs_seek f2 i saved FS_SEEK_SET in
        if rc <? 0 then (with_fs w f3, -1, Some (errno_val EIO)) else (with_fs w f3, n, oe).

Definition fs_read_offs_vmeth (obj : Z) (count offset : Z) w : W * (Z * list Z) * option Z :=
  let i := desc_ix obj in
  let saved := fs_tell (fsys w) i in
  if saved <? 0 then (w, (-1, []), Some (- saved))
  else
    let '(f1, rc) := fs_seek (fsys w) i (swrap off_bits offset) FS_SEEK_SET in
    if rc <? 0 then (with_fs w f1, (-1, []), Some (- rc))
    else
      let '(f2, (n, data), oe) := fs_read_vmeth f1 i count in
      if n <? 0 then (with_fs w f2, (n, data), oe)
      else
        let '(f3, rc) := fs_seek f2 i saved FS_SEEK_SET in
        if rc <? 0 then (with_fs w f3, (-1, data), Some (errno_val EIO)) else (with_fs w f3, (n, data), oe).

Definition fs_fd_op_vtable : fd_op_vtable W :=
  mk_vt (Some fs_read_offs_vmeth) (Some fs_write_offs_vmeth) (Some fs_close_vmeth) fs_ioctl_vmeth.

(** ** Opening a path *)

Definition ZVFS_O_ACCMODE : Z := Z.lor (Z.lor ZVFS_O_RDONLY ZVFS_O_WRONLY) ZVFS_O_RDWR.

Definition posix_mode_to_zephyr (mf : Z) : Z :=
  let mode := if flag_set mf ZVFS_O_CREAT then FS_O_CREATE else 0 in
  let mode := Z.lor mode (if flag_set mf ZVFS_O_APPEND then FS_O_APPEND else 0) in
  let mode := Z.lor mode (if flag_set mf ZVFS_O_TRUNC then FS_O_TRUNC else 0) in
  let acc := Z.land mf ZVFS_O_ACCMODE in
  if acc =? ZVFS_O_RDONLY then Z.lor mode FS_O_READ
  else if acc =? ZVFS_O_WRONLY then Z.lor mode FS_O_WRITE
  else if acc =? ZVFS_O_RDWR then Z.lor mode FS_O_RDWR
  else mode.

Context `{FdKernel W} (fbase fsize : Z).

(** The file is opened once more when it may have to be created: the object
    after the two opens and the close, or the first error. *)
Definition open_file (f : F) (i : nat) (name : string) (flags zmode : Z) : F * Z :=
  let f := fs_file_t_init f i in
  if flag_set flags ZVFS_O_CREAT then
    let '(f1, rc) := fs_open f i name (Z.lor FS_O_CREATE (Z.land zmode FS_O_RDWR)) in
    if rc <? 0 then (f1, rc)
    else
      let '(f2, rc) := fs_close f1 i in
      if rc <? 0 then (f2, rc) else fs_open f2 i name zmode
  else fs_open f i name zmode.

(** "out_err": [ptr] is the object, if there is one. *)
Definition open_fail (s : zs W) (fd : nat) (ptr : option nat) (rc : Z) : zs W * Z :=
  let s1 := zvfs_free (mk_zs (fdtable s) (files s) (zvfs_fs_desc_free (world s) ptr) (zerr s)) fd in
  (mk_zs (fdtable s1) (files s1) (world s1) (- rc), -1).

Definition zvfs_open (s : zs W) (name : string) (flags mode : Z) : zs W * Z :=
  let zmode := posix_mode_to_zephyr flags in
  if zmode <? 0 then (s, zmode)
  else match zvfs_reserve s with
  | (s1, None) => (s1, -1)
  | (s1, Some fd) =>
      match zvfs_fs_desc_alloc (world s1) false with
      | (w2, None) => open_fail (mk_zs (fdtable s1) (files s1) w2 (zerr s1)) fd None (- errno_val EMFILE)
      | (w2, Some i) =>
          let '(f, rc) := open_file (fsys w2) i name flags zmode in
          let s2 := mk_zs (fdtable s1) (files s1) (with_fs w2 f) (zerr s1) in
          if rc <? 0 then open_fail s2 fd (Some i) rc
          else (zvfs_finalize s2 fd (desc_addr i) fs_fd_op_vtable ZVFS_MODE_IFREG, Z.of_nat fd)
      end
  end.

(** ** fopen *)

(** The characters after the first. *)
Fixpoint fopen_rest (m : string) (flags : Z) : Z :=
  match m with
  | EmptyString => flags
  | String c m' =>
      fopen_rest m'
        (if Ascii.eqb c "+" then Z.lor (Z.land flags (Z.lnot ZVFS_O_ACCMODE)) ZVFS_O_RDWR
         else if Ascii.eqb c "x" then Z.lor flags ZVFS_O_EXCL
         else flags)
  end.

Definition zvfs_fopen_mode_to_flags (mode : option string) : option Z :=
  match mode with
  | Some (String c m) =>
      if Ascii.eqb c "r" then Some (fopen_rest m ZVFS_O_RDONLY)
      else if Ascii.eqb c "w" then Some (fopen_rest m (Z.lor (Z.lor ZVFS_O_WRONLY ZVFS_O_CREAT) ZVFS_O_TRUNC))
      else if Ascii.eqb c "a" then Some (fopen_rest m (Z.lor (Z.lor ZVFS_O_WRONLY ZVFS_O_CREAT) ZVFS_O_APPEND))
      else None
  | _ => None
  end.

(** libc's FILE for a descriptor, or NULL. *)
Context (zvfs_libc_fdopen : zs W -> Z -> string -> zs W * option Z) (zvfs_libc_fileno : Z -> Z).

Definition fopen (s : zs W) (name : string) (mode : option string) : outcome (zs W * option Z) :=
  match zvfs_fopen_mode_to_flags mode with
  | None => Returns (set_err s EINVAL, None)
  | Some flags =>
      let '(s1, fd) := zvfs_open s name flags 420 in
      if fd <? 0 then Returns (s1, None)
      else
        match zvfs_libc_fdopen s1 fd (default "" mode) with
        | (s2, Some fp) => Returns (s2, Some fp)
        | (s2, None) =>
            match zvfs_close fbase fsize s2 fd with
            | Returns (s3, _) => Returns (s3, None)
            | Undefined => Undefined
            | NoFuel => NoFuel
            end
        end
  end.

(** [fflush] is libc's; EOF is -1. *)
Definition fclose (fflush : zs W -> Z -> zs W) (s : zs W) (stream : option Z) : outcome (zs W * Z) :=
  match stream with
  | None => Returns (s, -1)
  | Some fp =>
      let s1 := fflush s fp in
      let fd := zvfs_libc_fileno fp in
      if fd <? 0 then Returns (s1, -1)
      else match zvfs_close fbase fsize s1 fd with
           | Returns (s2, r) => Returns (s2, if r_val r <? 0 then -1 else 0)
           | Undefined => Undefined
           | NoFuel => NoFuel
           end
  end.

(** The stream is closed first, also when the open after it fails. *)
Definition freopen (s : zs W) (name : option string) (mode : option string) (stream : option Z)
    : outcome (zs W * option Z) :=
  let closed :=
    match stream with
    | Some fp =>
        let fd := zvfs_libc_fileno fp in
        if 0 <=? fd then
          match zvfs_close fbase fsize s fd with
          | Returns (s1, _) => Returns s1
          | Undefined => Undefined
          | NoFuel => NoFuel
          end
        else Returns s
    | None => Returns s
    end in
  match closed, name with
  | Returns s1, None => Returns (set_err s1 ENOTSUP, None)
  | Returns s1, Some name => fopen s1 name mode
  | Undefined, _ => Undefined
  | NoFuel, _ => NoFuel
  end.
End Fs.

(** ** What the file system's calls do *)

(** An open file object: the file, its position, and whether every write goes
    to the end. *)
Record fhandle := mk_fh { h_path : string; h_pos : Z; h_append : bool }.

Definition at_pos (h : fhandle) (p : Z) : fhandle := mk_fh (h_path h) p (h_append h).

(** The bytes [d] written at [p]. *)
Definition write_at (p : Z) (d bs : list Z) : list Z :=
  take (Z.to_nat p) bs ++ d ++ drop (Z.to_nat p + length d) bs.

Class FsLaws (F : Type) `{FsConst} `{FsOps F} := {
  fs_handle : F -> nat -> option fhandle;
  fs_bytes : F -> string -> list Z;
  fs_moved (f f' : F) (i : nat) (h : fhandle) : Prop :=
    fs_handle f' i = Some h /\ forall j, j <> i -> fs_handle f' j = fs_handle f j;
  fs_len (f : F) (h : fhandle) : Z := Z.of_nat (length (fs_bytes f (h_path h)));
  tell_law f i h : fs_handle f i = Some h -> fs_tell f i = h_pos h /\ 0 <= h_pos h;
  seek_law f i h off whence b :
    fs_handle f i = Some h ->
    (whence = FS_SEEK_SET /\ b = 0 \/ whence = FS_SEEK_CUR /\ b = h_pos h \/ whence = FS_SEEK_END /\ b = fs_len f h) ->
    0 <= b + off <= fs_len f h ->
    exists f', fs_seek f i off whence = (f', 0) /\ fs_moved f f' i (at_pos h (b + off)) /\
      forall n, fs_bytes f' n = fs_bytes f n;
  read_law f i h count :
    fs_handle f i = Some h -> h_pos h <= fs_len f h -> 0 <= count ->
    let d := take (Z.to_nat count) (drop (Z.to_nat (h_pos h)) (fs_bytes f (h_path h))) in
    exists f', fs_read f i count = (f', Z.of_nat (length d), d) /\
      fs_moved f f' i (at_pos h (h_pos h + Z.of_nat (length d))) /\ forall n, fs_bytes f' n = fs_bytes f n;
  write_law f i h buf count f' n :
    fs_handle f i = Some h -> h_pos h <= fs_len f h -> 0 <= count <= Z.of_nat (length buf) ->
    fs_write f i buf count = (f', n) -> 0 <= n ->
    let p := if h_append h then fs_len f h else h_pos h in
    n <= count /\ fs_moved f f' i (at_pos h (p + n)) /\
    fs_bytes f' (h_path h) = write_at p (take (Z.to_nat n) buf) (fs_bytes f (h_path h)) /\
    forall m, m <> h_path h -> fs_bytes f' m = fs_bytes f m;
}.

Lemma length_write_at p d bs :
  0 <= p <= Z.of_nat (length bs) ->
  Z.of_nat (length (write_at p d bs)) = Z.max (Z.of_nat (length bs)) (p + Z.of_nat (length d)).
Proof. intros. unfold write_at. rewrite !length_app, length_take, length_drop. lia. Qed.

Lemma read_write_at p d bs :
  0 <= p <= Z.of_nat (length bs) -> take (length d) (drop (Z.to_nat p) (write_at p d bs)) = d.
Proof.
  intros. unfold write_at. rewrite drop_app_length' by (rewrite length_take; lia). apply take_app_length.
Qed.

Section Spec.
Context `{FdConfig} `{FsConst} {F : Type} `{!FsOps F} `{!FsLaws F} `{!FdKernel (fs_world F)}.
Context (Hoff : 0 < off_bits).

Abbreviation W := (fs_world F).
Implicit Types (w : W) (s : zs W).

(** Offsets that off_t can hold. *)
Lemma off_id off len : 0 <= off <= len -> len < 2 ^ (off_bits - 1) -> swrap off_bits off = off.
Proof.
  intros. apply swrap_id; [done|]. unfold in_s. apply andb_true_iff. split; [apply Z.leb_le|apply Z.ltb_lt]; [|lia].
  assert (0 < 2 ^ (off_bits - 1)) by (apply Z.pow_pos_nonneg; lia). lia.
Qed.

(** read_offs reads at the offset it is given and leaves the file where it
    was. *)
Lemma read_offs_spec w obj count off h :
  let i := desc_ix obj in
  fs_handle (fsys w) i = Some h -> h_pos h <= fs_len (fsys w) h -> 0 <= off <= fs_len (fsys w) h ->
  fs_len (fsys w) h < 2 ^ (off_bits - 1) -> 0 <= count ->
  let d := take (Z.to_nat count) (drop (Z.to_nat off) (fs_bytes (fsys w) (h_path h))) in
  exists f', fs_read_offs_vmeth obj count off w = (with_fs w f', (Z.of_nat (length d), d), None) /\
    fs_moved (fsys w) f' i h /\ forall n, fs_bytes f' n = fs_bytes (fsys w) n.
Proof.
  intros i Hh Hpos Hof Hlen Hc d. unfold fs_read_offs_vmeth. fold i. destruct (tell_law _ _ _ Hh) as [-> Hp0].
  rewrite ltb_false, (off_id off (fs_len (fsys w) h)) by done.
  destruct (seek_law _ _ _ off FS_SEEK_SET 0 Hh) as (f1 & -> & [Hh1 Ho1] & Hb1); [by left|lia|]. simpl.
  destruct (read_law f1 i _ count Hh1) as (f2 & Hr & [Hh2 Ho2] & Hb2); [unfold fs_len; simpl; rewrite Hb1; unfold fs_len in *; lia|done|].
  unfold fs_read_vmeth. rewrite Hr. rewrite ltb_false by lia. simpl in Hh2 |- *. rewrite Hb1 in Hh2 |- *.
  fold d. fold d in Hh2. rewrite ltb_false by lia.
  destruct (seek_law _ _ _ (h_pos h) FS_SEEK_SET 0 Hh2) as (f3 & -> & [Hh3 Ho3] & Hb3).
  { by left. } { unfold fs_len in *. simpl. rewrite Hb2, Hb1. lia. }
  simpl. exists f3. split; [done|]. split; [split|].
  - rewrite Hh3. by destruct h.
  - intros j Hj. rewrite Ho3, Ho2, Ho1 by done. done.
  - intros n. by rewrite Hb3, Hb2, Hb1.
Qed.

(** write_offs writes at the offset, or at the end for a file opened to
    append, and leaves the file where it was. *)
Lemma write_offs_spec w obj buf count off h w' n oe :
  let i := desc_ix obj in
  fs_handle (fsys w) i = Some h -> h_pos h <= fs_len (fsys w) h -> 0 <= off <= fs_len (fsys w) h ->
  fs_len (fsys w) h < 2 ^ (off_bits - 1) -> 0 <= count <= Z.of_nat (length buf) ->
  fs_write_offs_vmeth obj buf count off w = (w', n, oe) -> 0 <= n ->
  let p := if h_append h then fs_len (fsys w) h else off in
  exists f', w' = with_fs w f' /\ oe = None /\ n <= count /\ fs_moved (fsys w) f' i h /\
    fs_bytes f' (h_path h) = write_at p (take (Z.to_nat n) buf) (fs_bytes (fsys w) (h_path h)) /\
    forall m, m <> h_path h -> fs_bytes f' m = fs_bytes (fsys w) m.
Proof.
  intros i Hh Hpos Hof Hlen Hc Hw Hn. remember (fs_len (fsys w) h) as L eqn:HL. intros p.
  unfold fs_write_offs_vmeth in Hw. fold i in Hw.
  destruct (tell_law _ _ _ Hh) as [Ht Hp0]. rewrite Ht, ltb_false, (off_id off L) in Hw by done.
  destruct (seek_law _ _ _ off FS_SEEK_SET 0 Hh) as (f1 & Hs1 & [Hh1 Ho1] & Hb1); [by left|rewrite <- HL; lia|].
  rewrite Hs1 in Hw. rewrite Z.add_0_l in Hh1. simpl in Hw. unfold fs_write_vmeth in Hw.
  destruct (fs_write f1 i buf count) as [f2 k] eqn:Hwr.
  destruct (Z.ltb_spec k 0); [simpl in Hw; simplify_eq; lia|]. rewrite ltb_false in Hw by lia.
  assert (Hlen1 : fs_len f1 (at_pos h off) = L) by (subst L; unfold fs_len; simpl; by rewrite Hb1).
  destruct (write_law f1 i _ buf count f2 k Hh1) as (Hk & [Hh2 Ho2] & Hb2 & Hb2'); [rewrite Hlen1; simpl; lia|done..|].
  rewrite Hlen1 in Hh2, Hb2. simpl in Hh2, Hb2, Hb2'. fold p in Hb2, Hh2. rewrite Hb1 in Hb2.
  assert (0 <= p <= L) by (unfold p; destruct (h_append h); lia).
  destruct (seek_law f2 i _ (h_pos h) FS_SEEK_SET 0 Hh2) as (f3 & Hs3 & [Hh3 Ho3] & Hb3); [by left| |].
  { unfold fs_len in *. simpl. rewrite Hb2, length_write_at by lia. lia. }
  rewrite Hs3 in Hw. simpl in Hw. simplify_eq. exists f3. split_and!; try done; [split|..].
  - rewrite Hh3. by destruct h.
  - intros j Hj. by rewrite Ho3, Ho2, Ho1.
  - by rewrite Hb3, Hb2.
  - intros m Hm. by rewrite Hb3, Hb2', Hb1.
Qed.

(** ** Files through descriptors *)

(** Descriptor [i] is open on the regular file that [h] has open. *)
Record file_fd s (i : nat) (e : fd_entry W) (h : fhandle) : Prop := {
  ff_lookup : fdtable s !! i = Some e;
  ff_used : refcount e <> 0;
  ff_vt : fvtable e = Some fs_fd_op_vtable;
  ff_mode : Z.land (fmode e) ZVFS_MODE_IFMT = ZVFS_MODE_IFREG;
  ff_obj : fobj e <> 0;
  ff_handle : fs_handle (fsys (world s)) (desc_ix (fobj e)) = Some h;
}.

(** The positions are in the file, and the file is not longer than off_t,
    size_t and int can say. *)
Record in_file s (e : fd_entry W) (h : fhandle) : Prop := {
  if_pos : 0 <= h_pos h <= fs_len (fsys (world s)) h;
  if_off : 0 <= foffset e <= fs_len (fsys (world s)) h;
  if_len : fs_len (fsys (world s)) h < 2 ^ (off_bits - 1);
  if_size : fs_len (fsys (world s)) h < 2 ^ size_bits;
  if_int : fs_len (fsys (world s)) h < 2 ^ 31;
}.

Lemma file_fd_get s i e h : file_fd s i e h -> zvfs_fd_entry_get s (Z.of_nat i) = Some (i, e).
Proof.
  intros []. assert (Hlt := lookup_lt_Some _ _ _ ff_lookup0). unfold zvfs_fd_entry_get.
  rewrite (ltb_false (Z.of_nat i) 0), leb_false by lia. simpl. rewrite Nat2Z.id, ff_lookup0.
  unfold fd_used. apply Z.eqb_neq in ff_used0 as ->. done.
Qed.

(** The table after a transfer of [n] bytes. *)
Definition moved_by (t : list (fd_entry W)) (i : nat) (e : fd_entry W) (n : Z) : list (fd_entry W) :=
  if 0 <? n then zvfs_fd_offset_set t i e (foffset e + n) else t.

Lemma file_read s i e h sz :
  file_fd s i e h -> in_file s e h -> 0 <= sz ->
  let d := take (Z.to_nat sz) (drop (Z.to_nat (foffset e)) (fs_bytes (fsys (world s)) (h_path h))) in
  exists f', zvfs_read s (Z.of_nat i) sz
      = Returns (mk_zs (moved_by (fdtable s) i e (Z.of_nat (length d))) (files s) (with_fs (world s) f') (zerr s),
                 mk_reply (Z.of_nat (length d)) d None) /\
    fs_moved (fsys (world s)) f' (desc_ix (fobj e)) h /\ forall n, fs_bytes f' n = fs_bytes (fsys (world s)) n.
Proof.
  intros Hf Hin Hsz d.
  destruct (read_offs_spec (world s) (fobj e) sz (foffset e) h) as (f' & Hr & Hm & Hb); try apply Hf; try apply Hin; [done|].
  fold d in Hr. exists f'. split; [|done]. unfold zvfs_read, zvfs_read_offset, zvfs_rw, with_entry.
  rewrite (file_fd_get _ _ _ _ Hf). unfold zvfs_rw_entry, with_vtable. rewrite (ff_vt _ _ _ _ Hf). simpl. rewrite Hr.
  unfold advance, moved_by. assert (Hd : Z.of_nat (length d) <= fs_len (fsys (world s)) h - foffset e).
  { unfold d. rewrite length_take, length_drop. pose proof (if_off _ _ _ Hin). unfold fs_len in *. lia. }
  destruct (0 <? Z.of_nat (length d)); [|done]. unfold uwrap.
  rewrite Z.mod_small by (pose proof (if_off _ _ _ Hin); pose proof (if_size _ _ _ Hin); lia). done.
Qed.

Lemma file_write s i e h buf sz s' r :
  file_fd s i e h -> in_file s e h -> 0 <= sz <= Z.of_nat (length buf) ->
  foffset e + sz < 2 ^ size_bits ->
  zvfs_write s (Z.of_nat i) buf sz = Returns (s', r) -> 0 <= r_val r ->
  let n := r_val r in
  let p := if h_append h then fs_len (fsys (world s)) h else foffset e in
  exists f', s' = mk_zs (moved_by (fdtable s) i e n) (files s) (with_fs (world s) f') (zerr s) /\ n <= sz /\
    fs_moved (fsys (world s)) f' (desc_ix (fobj e)) h /\
    fs_bytes f' (h_path h) = write_at p (take (Z.to_nat n) buf) (fs_bytes (fsys (world s)) (h_path h)) /\
    forall m, m <> h_path h -> fs_bytes f' m = fs_bytes (fsys (world s)) m.
Proof.
  intros Hf Hin Hsz Hsum Hw Hn n p. unfold zvfs_write, zvfs_write_offset, zvfs_rw, with_entry in Hw.
  rewrite (file_fd_get _ _ _ _ Hf) in Hw. unfold zvfs_rw_entry, with_vtable in Hw. rewrite (ff_vt _ _ _ _ Hf) in Hw.
  simpl in Hw. destruct (fs_write_offs_vmeth _ _ _ _ _) as [[w' k] oe] eqn:Hk. injection Hw as <- <-.
  destruct (write_offs_spec (world s) (fobj e) buf sz (foffset e) h w' k oe) as (f' & -> & -> & Hle & Hm & Hb & Hb');
    try apply Hf; try apply Hin; try done.
  exists f'. split_and!; try done. unfold advance, moved_by, n. simpl in *. destruct (0 <? k); [|done].
  unfold uwrap. rewrite Z.mod_small by (pose proof (if_off _ _ _ Hin); lia). done.
Qed.

Lemma int_id x : 0 <= x < 2 ^ 31 -> swrap 32 x = x.
Proof. intros. apply swrap32_id. lia. Qed.

(** lseek, counted from [b]; the descriptor's own offset plays no part. *)
Lemma file_lseek s i e h off whence b :
  file_fd s i e h -> in_file s e h ->
  (whence = FS_SEEK_SET /\ b = 0 \/ whence = FS_SEEK_CUR /\ b = h_pos h \/
   whence = FS_SEEK_END /\ b = fs_len (fsys (world s)) h) ->
  0 <= b + off <= fs_len (fsys (world s)) h ->
  exists f', zvfs_lseek s (Z.of_nat i) off whence
      = Returns (mk_zs (zvfs_fd_offset_set (fdtable s) i e (b + off)) (files s) (with_fs (world s) f') (zerr s),
                 rval (b + off)) /\
    fs_moved (fsys (world s)) f' (desc_ix (fobj e)) (at_pos h (b + off)) /\
    forall n, fs_bytes f' n = fs_bytes (fsys (world s)) n.
Proof.
  intros Hf Hin Hb Hr. destruct (seek_law _ _ _ off whence b (ff_handle _ _ _ _ Hf) Hb Hr) as (f' & Hs & [Hh Ho] & Hby).
  exists f'. split; [|done]. unfold zvfs_lseek, with_entry. rewrite (file_fd_get _ _ _ _ Hf).
  unfold zvfs_lseek_wrap, with_vtable. rewrite (ff_vt _ _ _ _ Hf). simpl. rewrite Hs. simpl.
  destruct (tell_law _ _ _ Hh) as [Ht _]. rewrite Ht. simpl. pose proof (if_int _ _ _ Hin).
  rewrite int_id by lia. unfold ioctl_end. rewrite ltb_false by lia. rewrite leb_true by lia.
  unfold lseek_moves. rewrite (ff_mode _ _ _ _ Hf), Z.eqb_refl, orb_true_r. simpl.
  unfold uwrap. rewrite Z.mod_small by (pose proof (if_size _ _ _ Hin); lia). done.
Qed.

Lemma with_offset_id (e : fd_entry W) : with_offset e (foffset e) = e.
Proof. by destruct e. Qed.

(** The entries that share an object move together. *)
Lemma offset_set_dup (t : list (fd_entry W)) i e j ej off :
  t !! i = Some e -> refcount e <> 0 -> t !! j = Some ej -> refcount ej <> 0 ->
  fobj e <> 0 -> fobj ej = fobj e ->
  zvfs_fd_offset_set t i e off !! j = Some (with_offset ej off).
Proof.
  intros Hi Hu Hj Huj Ho He. rewrite (offset_set_lookup _ _ _ _ _ Hi Hu), Hj. simpl.
  rewrite (proj2 (fd_used_true ej) Huj). rewrite bool_decide_eq_true_2; [done|].
  unfold desc_of. apply Z.eqb_neq in Ho. by rewrite He, Ho.
Qed.

Lemma moved_by_dup (t : list (fd_entry W)) i e j ej n :
  t !! i = Some e -> refcount e <> 0 -> t !! j = Some ej -> refcount ej <> 0 ->
  fobj e <> 0 -> fobj ej = fobj e -> foffset ej = foffset e -> 0 <= n ->
  moved_by t i e n !! j = Some (with_offset ej (foffset e + n)).
Proof.
  intros Hi Hu Hj Huj Ho He Hf Hn. unfold moved_by. destruct (Z.ltb_spec 0 n).
  - by eapply offset_set_dup.
  - replace n with 0 by lia. by rewrite Z.add_0_r, <- Hf, with_offset_id.
Qed.

Lemma file_fd_update s i e h t' fl er f' off h' :
  file_fd s i e h -> t' !! i = Some (with_offset e off) -> fs_handle f' (desc_ix (fobj e)) = Some h' ->
  file_fd (mk_zs t' fl (with_fs (world s) f') er) i (with_offset e off) h'.
Proof. by intros [] ? ?. Qed.

(** C22: Take two descriptors of one open regular file, as dup gives them
    (they may be the same), not opened with O_APPEND, whose offset lies inside
    the file, and a buffer that ends below 2^31 bytes and below the limits of
    size_t and off_t, as the file does.  When write through the first takes
    all the bytes of the buffer, an lseek through the second back to where the
    write began succeeds, a read through the first of as many bytes gives the
    buffer, and both descriptors are then at the end of it. *)
Theorem file_roundtrip s i e j ej h buf s1 r :
  file_fd s i e h -> file_fd s j ej h -> in_file s e h -> fobj ej = fobj e -> foffset ej = foffset e ->
  h_append h = false ->
  foffset e + Z.of_nat (length buf) < Z.min (2 ^ 31) (Z.min (2 ^ size_bits) (2 ^ (off_bits - 1))) ->
  zvfs_write s (Z.of_nat i) buf (Z.of_nat (length buf)) = Returns (s1, r) -> r_val r = Z.of_nat (length buf) ->
  exists s2 s3,
    zvfs_lseek s1 (Z.of_nat j) (foffset e) FS_SEEK_SET = Returns (s2, rval (foffset e)) /\
    zvfs_read s2 (Z.of_nat i) (Z.of_nat (length buf)) = Returns (s3, mk_reply (Z.of_nat (length buf)) buf None) /\
    forall k ek, k = i /\ ek = e \/ k = j /\ ek = ej ->
      fdtable s3 !! k = Some (with_offset ek (foffset e + Z.of_nat (length buf))).
Proof.
  intros Hi Hj Hin Ho Hof Happ Hroom Hw Hr. pose proof (if_off _ _ _ Hin) as Hoff0. pose proof (if_pos _ _ _ Hin) as Hpos0.
  destruct (file_write s i e h buf (Z.of_nat (length buf)) s1 r Hi Hin) as (f1 & -> & _ & [Hh1 _] & Hb1 & _); [lia|lia|done|lia|].
  rewrite Hr, Happ, Nat2Z.id, take_ge in Hb1 by done. rewrite Hr.
  set (n := Z.of_nat (length buf)) in *. set (t1 := moved_by _ _ _ _).
  assert (Ht1 : forall k ek, k = i /\ ek = e \/ k = j /\ ek = ej -> t1 !! k = Some (with_offset ek (foffset e + n))).
  { intros k ek Hk. apply moved_by_dup; try apply Hi; try (destruct Hk as [[-> ->]|[-> ->]]; first [done|apply Hi|apply Hj]). lia. }
  assert (Hj1 := file_fd_update s j ej h t1 (files s) (zerr s) f1 (foffset e + n) h Hj (Ht1 j ej ltac:(by right))).
  rewrite Ho in Hj1. specialize (Hj1 Hh1).
  assert (Hl1 : Z.of_nat (length (fs_bytes f1 (h_path h))) = Z.max (fs_len (fsys (world s)) h) (foffset e + n)).
  { rewrite Hb1, length_write_at by done. done. }
  assert (Hin1 : in_file (mk_zs t1 (files s) (with_fs (world s) f1) (zerr s)) (with_offset ej (foffset e + n)) h).
  { destruct Hin. split; unfold fs_len in *; simpl; rewrite Hl1; lia. }
  destruct (file_lseek _ _ _ _ (foffset e) FS_SEEK_SET 0 Hj1 Hin1) as (f2 & Hs & [Hh2 _] & Hb2); [by left|unfold fs_len in *; simpl; rewrite Hl1; lia|].
  simpl in Hs, Hh2, Hb2. set (t2 := zvfs_fd_offset_set _ _ _ _) in Hs.
  assert (Ht2 : forall k ek, k = i /\ ek = e \/ k = j /\ ek = ej -> t2 !! k = Some (with_offset ek (foffset e))).
  { intros k ek Hk. pose proof (Ht1 k ek Hk) as Hk1.
    apply (offset_set_dup _ _ _ k (with_offset ek (foffset e + n)) (foffset e) (Ht1 j ej ltac:(by right))); try apply Hj; try done.
    - destruct Hk as [[-> ->]|[-> ->]]; [apply Hi|apply Hj].
    - destruct Hk as [[-> ->]|[-> ->]]; simpl; [by rewrite Ho|done]. }
  eexists. edestruct (file_read (mk_zs t2 (files s) (with_fs (world s) f2) (zerr s)) i (with_offset e (foffset e)) (at_pos h (foffset e)) n)
    as (f3 & Hrd & _).
  - eapply (file_fd_update s i e h); [done|apply Ht2; by left|]. by rewrite Ho in Hh2.
  - destruct Hin1. split; unfold fs_len in *; simpl in *; rewrite Hb2, Hl1 in *; lia.
  - lia.
  - simpl in Hrd. assert (Hn : Z.to_nat n = length buf) by apply Nat2Z.id.
    rewrite Hb2, Hb1, Hn, read_write_at in Hrd by done.
    eexists. split; [exact Hs|]. split; [exact Hrd|]. intros k ek Hk. simpl. fold n.
    pose proof (Ht2 k ek Hk) as Hk2. rewrite (moved_by_dup t2 i _ k _ n (Ht2 i e ltac:(by left)) (ff_used _ _ _ _ Hi) Hk2); simpl; try done.
    + destruct Hk as [[-> ->]|[-> ->]]; [apply Hi|apply Hj].
    + apply Hi.
    + destruct Hk as [[-> ->]|[-> ->]]; done.
    + lia.
Qed.

(** A read does not move what lseek counts from.  After a read of a
    regular file, from whatever offset the descriptor has, lseek by 0 from
    SEEK_CUR answers with the position of the file object, which is where the
    last lseek or the open left it, and puts the descriptor back there: the
    bytes read count for nothing, and the next read gets them again. *)
Theorem lseek_cur_after_read s i e h sz :
  file_fd s i e h -> in_file s e h -> 0 <= sz ->
  let d := take (Z.to_nat sz) (drop (Z.to_nat (foffset e)) (fs_bytes (fsys (world s)) (h_path h))) in
  exists s1 s2,
    zvfs_read s (Z.of_nat i) sz = Returns (s1, mk_reply (Z.of_nat (length d)) d None) /\
    fdtable s1 !! i = Some (with_offset e (foffset e + Z.of_nat (length d))) /\
    zvfs_lseek s1 (Z.of_nat i) 0 FS_SEEK_CUR = Returns (s2, rval (h_pos h)) /\
    fdtable s2 !! i = Some (with_offset e (h_pos h)).
Proof.
  intros Hi Hin Hsz d. destruct (file_read s i e h sz Hi Hin Hsz) as (f1 & Hr & [Hh1 _] & Hb1). fold d in Hr.
  assert (Ht1 : moved_by (fdtable s) i e (Z.of_nat (length d)) !! i = Some (with_offset e (foffset e + Z.of_nat (length d)))).
  { apply moved_by_dup; try apply Hi; try done. lia. }
  assert (Hi1 := file_fd_update s i e h _ (files s) (zerr s) f1 _ h Hi Ht1 Hh1).
  assert (Hd : Z.of_nat (length d) <= fs_len (fsys (world s)) h - foffset e).
  { unfold d. rewrite length_take, length_drop. pose proof (if_off _ _ _ Hin). unfold fs_len in *. lia. }
  edestruct (file_lseek _ _ _ _ 0 FS_SEEK_CUR (h_pos h) Hi1) as (f2 & Hs & _).
  { destruct Hin. split; unfold fs_len in *; simpl; rewrite Hb1; lia. }
  { by right; left. }
  { pose proof (if_pos _ _ _ Hin). unfold fs_len in *. simpl. rewrite Hb1. lia. }
  rewrite Z.add_0_r in Hs. eexists _, _. split_and!; [exact Hr|exact Ht1|exact Hs|].
  simpl. erewrite offset_set_dup; [|exact Ht1|apply Hi|exact Ht1|apply Hi|apply Hi|done]. done.
Qed.
End Spec.

(** ** The pool and the descriptors *)

Section Inv.
Context `{FdConfig} `{FsConst} {F : Type} `{!FsOps F} `{!FdKernel (fs_world F)} `{!FdKernelLaws (fs_world F)}.
Context (fbase fsize : Z) (N : nat).

Abbreviation W := (fs_world F).
Implicit Types (w : W) (s : zs W).

(** The object [k] of the pool is in use. *)
Definition in_use w (k : nat) : Prop := exists d, desc_array w !! k = Some d /\ d_used d = true.

(** What descriptor [i] is open on. *)
Definition objs s (i : nat) : option (option (fd_op_vtable W) * Z) :=
  e ← fdtable s !! i; if fd_used e then Some (fvtable e, fobj e) else None.

Definition has_fd s (k : nat) : Prop := exists i, objs s i = Some (Some fs_fd_op_vtable, desc_addr k).

(** What a program can do: open a path, make a call that needs a descriptor,
    take an object for a directory stream as opendir does, and give one back.
    [D] are the objects of directory streams.  Record locks are outside. *)
Inductive fs_step : zs W * gset nat -> zs W * gset nat -> Prop :=
  | fs_step_open s D name flags mode : fs_step (s, D) (fst (zvfs_open s name flags mode), D)
  | fs_step_call s D c s' r :
      match c with COpen _ _ _ => False | CFcntl _ cmd _ => is_lock_cmd cmd = false | _ => True end ->
      zvfs_exec fbase fsize c s = Returns (s', r) -> fs_step (s, D) (s', D)
  | fs_step_opendir s D w k :
      zvfs_fs_desc_alloc (world s) true = (w, Some k) ->
      fs_step (s, D) (mk_zs (fdtable s) (files s) w (zerr s), {[k]} ∪ D)
  | fs_step_closedir s D k :
      k ∈ D ->
      fs_step (s, D) (mk_zs (fdtable s) (files s) (zvfs_fs_desc_free (world s) (Some k)) (zerr s), D ∖ {[k]}).

(** The descriptors are POSIX's, all of them are of files, and an object is in
    use for the descriptors of one open, or for one directory stream. *)
Record fs_inv (x : zs W * gset nat) : Prop := {
  fi_rel : exists p, rel N (fst x) p;
  fi_vt i y : objs (fst x) i = Some y -> exists k, y = (Some fs_fd_op_vtable, desc_addr k);
  fi_used k : in_use (world (fst x)) k <-> k ∈ snd x \/ has_fd (fst x) k;
  fi_disj k : k ∈ snd x -> ~ has_fd (fst x) k;
}.

Lemma desc_alloc_spec w b w' k :
  zvfs_fs_desc_alloc w b = (w', Some k) ->
  ~ in_use w k /\ (forall j, in_use w' j <-> j = k \/ in_use w j) /\ fsys w' = fsys w.
Proof.
  unfold zvfs_fs_desc_alloc. destruct (find_index _ _) as [i|] eqn:Hf; [|done]. intros [= <- <-].
  apply find_index_Some in Hf as (d & Hd & Hu & _). apply negb_true_iff in Hu.
  assert (Hlt := lookup_lt_Some _ _ _ Hd). split_and!; [|intros j; split|done].
  - intros (d' & Hd' & Hu'). congruence.
  - intros (d' & Hd' & Hu'). simpl in Hd'. apply list_lookup_insert_Some in Hd' as [(<- & _)|[_ Hd']]; [by left|].
    right. by exists d'.
  - intros [->|(d' & Hd' & Hu')].
    + exists (mk_desc b true). simpl. by rewrite list_lookup_insert_eq.
    + exists d'. simpl. rewrite list_lookup_insert_ne; [done|]. intros ->. congruence.
Qed.

Lemma desc_free_spec w k j : in_use (zvfs_fs_desc_free w (Some k)) j <-> j <> k /\ in_use w j.
Proof.
  unfold in_use. simpl. destruct (decide (j = k)) as [->|Hne].
  - rewrite list_lookup_alter_eq. split; [|tauto]. intros (d & Hd & Hu).
    destruct (desc_array w !! k); by simplify_eq/=.
  - rewrite list_lookup_alter_ne by done. naive_solver.
Qed.

Lemma desc_addr_inj k k' : desc_addr k = desc_addr k' -> k = k'.
Proof. unfold desc_addr. lia. Qed.

Lemma desc_ix_addr k : desc_ix (desc_addr k) = k.
Proof. unfold desc_ix, desc_addr. lia. Qed.

Lemma desc_addr_nonzero k : desc_addr k <> 0.
Proof. unfold desc_addr. lia. Qed.

(** A call that leaves the objects of the descriptors and the pool alone. *)
Definition quiet s s' : Prop :=
  (forall i, objs s' i = objs s i) /\ desc_array (world s') = desc_array (world s).

Lemma quiet_after s w oe : desc_array w = desc_array (world s) -> quiet s (after s w oe).
Proof. done. Qed.

Lemma quiet_offset s i e off w oe :
  fdtable s !! i = Some e -> refcount e <> 0 -> desc_array w = desc_array (world s) ->
  quiet s (set_table (after s w oe) (zvfs_fd_offset_set (fdtable s) i e off)).
Proof.
  intros Hi Hu Hd. split; [|done]. intros j. unfold objs. simpl. rewrite (offset_set_lookup _ _ _ _ _ Hi Hu).
  destruct (fdtable s !! j) as [e'|]; [|done]. simpl. by destruct (fd_used e' && _).
Qed.

Lemma quiet_flags s i e fl :
  fdtable s !! i = Some e -> quiet s (set_table s (<[i := with_flags e fl]> (fdtable s))).
Proof.
  intros Hi. split; [|done]. intros j. unfold objs. simpl. destruct (decide (j = i)) as [->|].
  - by rewrite list_lookup_insert_eq, Hi by by eapply lookup_lt_Some.
  - by rewrite list_lookup_insert_ne.
Qed.

Lemma entry_get_spec s fd i e :
  zvfs_fd_entry_get s fd = Some (i, e) -> i = Z.to_nat fd /\ 0 <= fd /\ fdtable s !! i = Some e /\ refcount e <> 0.
Proof.
  unfold zvfs_fd_entry_get. destruct (Z.ltb_spec fd 0); [done|]. simpl. destruct (_ <=? _); [done|].
  destruct (fdtable s !! Z.to_nat fd) as [e'|] eqn:He; [|done]. destruct (fd_used e') eqn:Hu; [|done].
  intros [= <- <-]. by apply fd_used_true in Hu.
Qed.

Lemma with_entry_inv s fd k s' r :
  with_entry s fd k = Returns (s', r) ->
  s' = set_err s EBADF \/ exists i e, zvfs_fd_entry_get s fd = Some (i, e) /\ k i e = Returns (s', r).
Proof. unfold with_entry. destruct (zvfs_fd_entry_get s fd) as [[i e]|]; [right; by exists i, e|left; by simplify_eq]. Qed.

(** The methods keep the pool as it is. *)
Lemma read_offs_descs obj count off w w' n oe :
  fs_read_offs_vmeth obj count off w = (w', n, oe) -> desc_array w' = desc_array w.
Proof. unfold fs_read_offs_vmeth. intros Hm. repeat (case_match; simplify_eq/=; try done). Qed.

Lemma write_offs_descs obj buf count off w w' n oe :
  fs_write_offs_vmeth obj buf count off w = (w', n, oe) -> desc_array w' = desc_array w.
Proof. unfold fs_write_offs_vmeth. intros Hm. repeat (case_match; simplify_eq/=; try done). Qed.

Lemma ioctl_descs obj rq w w' n oe : fs_ioctl_vmeth obj rq w = (w', n, oe) -> desc_array w' = desc_array w.
Proof. unfold fs_ioctl_vmeth, ioctl_end. intros Hm. repeat (case_match; simplify_eq/=; try done). Qed.

Lemma fs_vtable s D i e : fs_inv (s, D) -> fdtable s !! i = Some e -> refcount e <> 0 ->
  fvtable e = Some fs_fd_op_vtable /\ exists k, fobj e = desc_addr k.
Proof.
  intros Hinv Hi Hu. destruct (fi_vt _ Hinv i (fvtable e, fobj e)) as [k Hk].
  - unfold objs. simpl. rewrite Hi. simpl. by rewrite (proj2 (fd_used_true e) Hu).
  - injection Hk as -> ->. split; [done|]. by exists k.
Qed.

Lemma rw_quiet s D fd buf sz b from s' r :
  fs_inv (s, D) -> zvfs_rw s fd buf sz b from = Returns (s', r) -> quiet s s'.
Proof.
  intros Hinv [->|(i & e & Hg & Hrw)]%with_entry_inv; [done|]. apply entry_get_spec in Hg as (_ & _ & Hi & Hu).
  destruct (fs_vtable s D i e Hinv Hi Hu) as [Hv _]. unfold zvfs_rw_entry, with_vtable in Hrw. rewrite Hv in Hrw. simpl in Hrw.
  destruct (match from with Some _ => _ | None => _ end); [by simplify_eq|].
  assert (Hadv : forall w oe n, desc_array w = desc_array (world s) -> quiet s (advance (after s w oe) i e from n)).
  { intros w oe n Hd. unfold advance. destruct from; [by apply quiet_after|]. destruct (0 <? n); [|by apply quiet_after].
    by apply (quiet_offset s i e _ w oe). }
  destruct b.
  - destruct (fs_write_offs_vmeth _ _ _ _ _) as [[w n] oe] eqn:Hm. simplify_eq. apply Hadv. by eapply write_offs_descs.
  - destruct (fs_read_offs_vmeth _ _ _ _) as [[w [n d]] oe] eqn:Hm. simplify_eq. apply Hadv. by eapply read_offs_descs.
Qed.

Lemma ioctl_quiet s D i e rq s' r :
  fs_inv (s, D) -> fdtable s !! i = Some e -> refcount e <> 0 -> call_ioctl s e rq = Returns (s', r) -> quiet s s'.
Proof.
  intros Hinv Hi Hu Hc. destruct (fs_vtable s D i e Hinv Hi Hu) as [Hv _]. unfold call_ioctl, with_vtable in Hc.
  rewrite Hv in Hc. simpl in Hc. destruct (fs_ioctl_vmeth _ _ _) as [[w [n st]] oe] eqn:Hm. simplify_eq.
  apply quiet_after. by eapply ioctl_descs.
Qed.

Lemma with_ioctl_quiet s D fd rq s' r :
  fs_inv (s, D) -> with_entry s fd (fun _ e => call_ioctl s e rq) = Returns (s', r) -> quiet s s'.
Proof.
  intros Hinv [->|(i & e & Hg & Hc)]%with_entry_inv; [done|]. apply entry_get_spec in Hg as (_ & _ & Hi & Hu).
  by eapply ioctl_quiet.
Qed.

Lemma lseek_quiet s D fd off whence s' r :
  fs_inv (s, D) -> zvfs_lseek s fd off whence = Returns (s', r) -> quiet s s'.
Proof.
  intros Hinv [->|(i & e & Hg & Hc)]%with_entry_inv; [done|]. apply entry_get_spec in Hg as (_ & _ & Hi & Hu).
  destruct (fs_vtable s D i e Hinv Hi Hu) as [Hv _]. unfold zvfs_lseek_wrap, with_vtable in Hc. rewrite Hv in Hc.
  cbn -[fs_ioctl_vmeth] in Hc. destruct (fs_ioctl_vmeth _ _ _) as [[w [n st]] oe] eqn:Hm. apply ioctl_descs in Hm. simplify_eq.
  destruct (_ && _); [by apply (quiet_offset s i e _ w oe)|by apply quiet_after].
Qed.

Lemma fs_inv_quiet s D s' p : fs_inv (s, D) -> quiet s s' -> rel N s' p -> fs_inv (s', D).
Proof.
  intros [_ Hvt Hu Hd] [Ho Ha] HR. split; unfold has_fd, in_use in *; simpl in *.
  - by exists p.
  - intros i y. rewrite Ho. apply Hvt.
  - intros k. rewrite Ha, Hu. f_equiv. by setoid_rewrite Ho.
  - intros k Hk. setoid_rewrite Ho. by apply Hd.
Qed.

Lemma objs_Some s i e : fdtable s !! i = Some e -> refcount e <> 0 -> objs s i = Some (fvtable e, fobj e).
Proof. intros Hi Hu. unfold objs. rewrite Hi. simpl. by rewrite (proj2 (fd_used_true e) Hu). Qed.

Lemma objs_lookup s i y : objs s i = Some y -> exists e, fdtable s !! i = Some e /\ refcount e <> 0 /\ y = (fvtable e, fobj e).
Proof.
  unfold objs. destruct (fdtable s !! i) as [e|]; [|done]. simpl. destruct (fd_used e) eqn:Hu; [|done]. intros [= <-].
  exists e. by apply fd_used_true in Hu.
Qed.

Lemma objs_insert s t i e j :
  t = fdtable s -> (i < length t)%nat ->
  objs (mk_zs (<[i := e]> t) (files s) (world s) (zerr s)) j =
  if decide (j = i) then (if fd_used e then Some (fvtable e, fobj e) else None) else objs s j.
Proof.
  intros -> Hi. unfold objs. simpl. destruct (decide (j = i)) as [->|].
  - by rewrite list_lookup_insert_eq.
  - by rewrite list_lookup_insert_ne.
Qed.

(** The descriptor [i] of the object [k] is gone; the object is given back
    with the last one. *)
Record closed_one s s' (i k : nat) : Prop := {
  co_obj : objs s i = Some (Some fs_fd_op_vtable, desc_addr k);
  co_objs j : objs s' j = if decide (j = i) then None else objs s j;
  co_use m : in_use (world s') m <->
    in_use (world s) m /\ (m = k -> exists j, j <> i /\ objs s j = Some (Some fs_fd_op_vtable, desc_addr k));
}.

Lemma close_effect s D fd i e s' r :
  fs_inv (s, D) -> zvfs_fd_entry_get s fd = Some (i, e) -> zvfs_close fbase fsize s fd = Returns (s', r) ->
  exists k, fobj e = desc_addr k /\ closed_one s s' i k.
Proof.
  intros Hinv Hg Hc. pose proof (close_table _ _ _ _ _ _ _ _ Hg Hc) as Ht.
  pose proof (entry_get_spec _ _ _ _ Hg) as (_ & _ & Hi & Hu).
  destruct (fs_vtable s D i e Hinv Hi Hu) as [Hv [k Hk]]. exists k. split; [done|].
  assert (Hone : refcount e = 1).
  { destruct (fi_rel _ Hinv) as (p & _ & R & _). by destruct (rp_count _ _ _ R i e Hi). }
  split.
  - rewrite <- Hv, <- Hk. by apply objs_Some.
  - intros j. unfold objs. rewrite Ht. destruct (decide (j = i)) as [->|].
    + rewrite list_lookup_insert_eq by by eapply lookup_lt_Some. simpl. unfold fd_used. by rewrite (unref_spec e Hone).
    + by rewrite list_lookup_insert_ne.
  - assert (Hlast : (exists j, j <> i /\ objs s j = Some (Some fs_fd_op_vtable, desc_addr k)) <->
      (fd_obj_refcount (fdtable s) (fobj e) <=? 1) = false).
    { rewrite (refcount_other _ i e) by (try done; rewrite Hk; apply desc_addr_nonzero). split.
      - intros (j & Hne & (ej & Hj & Huj & [= _ Hoj])%objs_lookup). exists j, ej. split_and!; try done. congruence.
      - intros (j & ej & Hne & Hj & Huj & Ho). exists j. split; [done|].
        destruct (fs_vtable s D j ej Hinv Hj Huj) as [Hvj _]. rewrite <- Hvj, <- Hk, <- Ho. by apply objs_Some. }
    unfold zvfs_close, with_entry in Hc. rewrite Hg in Hc. unfold with_vtable in Hc. rewrite Hv in Hc.
    unfold close_object in Hc. cbn -[fs_close_vmeth] in Hc.
    rewrite (proj2 (Z.eqb_neq (fobj e) 0)) in Hc by (rewrite Hk; apply desc_addr_nonzero). simpl in Hc.
    destruct (fd_obj_refcount (fdtable s) (fobj e) <=? 1); intros m; rewrite Hlast.
    + unfold fs_close_vmeth in Hc. destruct (fs_close _ _) as [f rc]. injection Hc as <- _.
      assert (Hw : forall t fl w er, world (zvfs_free (mk_zs t fl w er) i) = w) by (intros; unfold zvfs_free; by case_match).
      unfold free_file. rewrite Hw. 
      etransitivity; [apply (desc_free_spec (mk_fw (desc_array (world s)) f _) (desc_ix (fobj e)) m)|].
      rewrite Hk, desc_ix_addr. unfold in_use. cbn [desc_array]. naive_solver.
    + simplify_eq. unfold zvfs_free. simpl. rewrite Hi. simpl. naive_solver.
Qed.

Lemma fs_inv_closed s D s' p i k : fs_inv (s, D) -> closed_one s s' i k -> rel N s' p -> fs_inv (s', D).
Proof.
  intros [_ Hvt Hu Hd] [Ho Hos Huse] HR.
  assert (Hhas : forall m, has_fd s' m <->
    has_fd s m /\ (m = k -> exists j, j <> i /\ objs s j = Some (Some fs_fd_op_vtable, desc_addr k))).
  { intros m. unfold has_fd. split.
    - intros [j Hj]. rewrite Hos in Hj. destruct (decide (j = i)); [done|]. split; [by exists j|].
      intros ->. by exists j.
    - intros [[j Hj] Hk]. destruct (decide (j = i)) as [->|Hne].
      + assert (m = k) as -> by (apply desc_addr_inj; congruence). destruct (Hk eq_refl) as (j' & Hne & Hj').
        exists j'. rewrite Hos. by case_decide.
      + exists j. rewrite Hos. by case_decide. }
  split; simpl in *.
  - by exists p.
  - intros j y. rewrite Hos. case_decide; [done|]. apply Hvt.
  - intros m. rewrite Huse, Hu, Hhas. split.
    + intros [[?|?] ?]; [by left|by right].
    + intros [Hm|[? ?]]; [|by split; [right|]]. split; [by left|]. intros ->. exfalso. eapply Hd; [done|]. by exists i.
  - intros m Hm. rewrite Hhas. intros [? _]. by eapply Hd.
Qed.

(** The free descriptor [j] becomes a duplicate of [i]. *)
Record duped s s' (i j : nat) : Prop := {
  dp_from : is_Some (objs s i);
  dp_free : objs s j = None;
  dp_objs m : objs s' m = if decide (m = j) then objs s i else objs s m;
  dp_pool : desc_array (world s') = desc_array (world s);
}.

Lemma fs_inv_duped s D s' p i j : fs_inv (s, D) -> duped s s' i j -> rel N s' p -> fs_inv (s', D).
Proof.
  intros [_ Hvt Hu Hd] [[y Hy] Hj Hos Ha] HR.
  assert (Hhas : forall m, has_fd s' m <-> has_fd s m).
  { intros m. unfold has_fd. split; intros [k Hk].
    - rewrite Hos in Hk. case_decide; [by exists i|by exists k].
    - exists k. rewrite Hos. case_decide; [congruence|done]. }
  split; unfold in_use in *; simpl in *.
  - by exists p.
  - intros m z. rewrite Hos. case_decide; apply Hvt.
  - intros m. by rewrite Ha, Hu, Hhas.
  - intros m Hm. rewrite Hhas. by apply Hd.
Qed.

Lemma dup_entry_duped s i e j e0 :
  fdtable s !! i = Some e -> refcount e <> 0 -> fdtable s !! j = Some e0 -> refcount e0 = 0 ->
  duped s (zvfs_dup_entry_locked s e j) i j.
Proof.
  intros Hi Hu Hj Hz0. unfold zvfs_dup_entry_locked. rewrite Hj, ref_spec, Hz0. split.
  - rewrite (objs_Some s i e) by done. by eexists.
  - unfold objs. rewrite Hj. simpl. unfold fd_used. by rewrite Hz0.
  - intros m. unfold set_table. rewrite objs_insert by (try done; by eapply lookup_lt_Some).
    case_decide; [|done]. simpl. by rewrite (objs_Some s i e).
  - done.
Qed.

Lemma dup_effect s fd minfd s' r :
  zvfs_dup s fd minfd = Returns (s', r) -> quiet s s' \/ exists i j, duped s s' i j.
Proof.
  intros [->|(i & e & Hg & Hc)]%with_entry_inv; [by left|]. apply entry_get_spec in Hg as (_ & _ & Hi & Hu).
  unfold find_fd_entry_at_or_above in Hc. destruct (minfd <? 0); [simplify_eq; by left|].
  destruct (find_from _ _ _) as [j|] eqn:Hf; [|simplify_eq; by left]. simplify_eq.
  apply find_from_free in Hf as (e0 & Hj & Hz0). right. exists i, j. by eapply dup_entry_duped.
Qed.

Lemma dup_inv s D fd minfd s' r p :
  fs_inv (s, D) -> zvfs_dup s fd minfd = Returns (s', r) -> rel N s' p -> fs_inv (s', D).
Proof.
  intros Hinv [Hq|(i & j & Hd)]%dup_effect HR; [by eapply fs_inv_quiet|by eapply fs_inv_duped].
Qed.

Lemma dup2_over_inv s D i e newfd s' r p :
  fs_inv (s, D) -> fdtable s !! i = Some e -> refcount e <> 0 -> dup2_over s i newfd = Returns (s', r) ->
  rel N s' p -> fs_inv (s', D).
Proof.
  intros Hinv Hi Hu Hc HR. unfold dup2_over in Hc. rewrite Hi in Hc.
  destruct (fdtable s !! Z.to_nat newfd) as [e0|] eqn:He0; [|done]. destruct (fd_used e0) eqn:Hu0.
  - simplify_eq. by eapply fs_inv_quiet.
  - simplify_eq. apply fd_used_false in Hu0. eapply fs_inv_duped; [done|by eapply dup_entry_duped|done].
Qed.

Lemma close_inv s D fd s' r : fs_inv (s, D) -> zvfs_close fbase fsize s fd = Returns (s', r) -> fs_inv (s', D).
Proof.
  intros Hinv Hc. destruct (fi_rel _ Hinv) as [p HR]. destruct (sim_close fbase fsize N s p fd HR) as (s1 & Hc1 & HR1).
  rewrite Hc in Hc1. simplify_eq. destruct (zvfs_fd_entry_get s fd) as [[i e]|] eqn:Hg.
  - destruct (close_effect s D fd i e s1 _ Hinv Hg Hc) as (k & _ & Hk). by eapply fs_inv_closed.
  - unfold zvfs_close, with_entry in Hc. rewrite Hg in Hc. simplify_eq. by eapply fs_inv_quiet.
Qed.

Lemma dup2_inv s D fd newfd s' r : fs_inv (s, D) -> zvfs_dup2 fbase fsize s fd newfd = Returns (s', r) -> fs_inv (s', D).
Proof.
  intros Hinv Hc. destruct (fi_rel _ Hinv) as [p HR]. destruct (sim_dup2 fbase fsize N s p fd newfd HR) as (s2 & Hc2 & HR2).
  rewrite Hc in Hc2. simplify_eq. unfold zvfs_dup2 in Hc. destruct (Z.eqb_spec fd newfd) as [Heq|Hne].
  { apply with_entry_inv in Hc as [->|(i & e & _ & Hc)]; [|simplify_eq]; by eapply fs_inv_quiet. }
  apply with_entry_inv in Hc as [->|(i & e & Hg & Hc)]; [by eapply fs_inv_quiet|].
  apply entry_get_spec in Hg as (Hifd & Hfd & Hi & Hu).
  destruct (_ || _); [simplify_eq; by eapply fs_inv_quiet|].
  destruct (zvfs_fd_entry_get s newfd) as [[j ej]|] eqn:Hgj.
  - destruct (zvfs_close fbase fsize s newfd) as [[s1 r1]| |] eqn:Hcl; try done.
    assert (Hinv1 := close_inv _ _ _ _ _ Hinv Hcl). destruct (r_val r1 <? 0); [by simplify_eq|].
    pose proof (close_table _ _ _ _ _ _ _ _ Hgj Hcl) as Ht. apply entry_get_spec in Hgj as (Hjfd & ? & _ & _).
    eapply (dup2_over_inv s1 D i e); [done| |done|done|done]. rewrite Ht, list_lookup_insert_ne by lia. done.
  - eapply (dup2_over_inv (set_err s EBADF) D i e); [|done|done|done|done].
    eapply fs_inv_quiet; [done|done|]. by apply (rel_err N s p EBADF).
Qed.

Lemma fcntl_inv s D fd cmd arg s' r :
  fs_inv (s, D) -> is_lock_cmd cmd = false -> zvfs_fcntl fbase fsize s fd cmd arg = Returns (s', r) -> fs_inv (s', D).
Proof.
  intros Hinv Hl Hc. destruct (fi_rel _ Hinv) as [p HR].
  destruct (sim_fcntl fbase fsize N s p fd cmd arg HR) as (s2 & Hc2 & HR2).
  rewrite Hc in Hc2. simplify_eq. apply with_entry_inv in Hc as [->|(i & e & Hg & Hc)]; [by eapply fs_inv_quiet|].
  apply entry_get_spec in Hg as (_ & _ & Hi & Hu).
  destruct (cmd =? ZVFS_F_GETFD); [simplify_eq; by eapply fs_inv_quiet|].
  destruct (cmd =? ZVFS_F_SETFD); [simplify_eq; eapply fs_inv_quiet; [done|by apply quiet_flags|done]|].
  destruct (cmd =? ZVFS_F_DUPFD); [by eapply dup_inv|].
  destruct (cmd =? ZVFS_F_DUPFD_CLOEXEC).
  - destruct (sim_dup N s p fd (swrap 32 arg) HR) as (s1 & Hd & HR1). rewrite Hd in Hc.
    assert (Hinv1 := dup_inv _ _ _ _ _ _ _ Hinv Hd HR1). destruct (r_val _ <? 0); [by simplify_eq|].
    destruct (zvfs_fd_entry_get s1 _) as [[j ej]|] eqn:Hgj.
    + apply entry_get_spec in Hgj as (_ & _ & Hj & _). simplify_eq.
      eapply fs_inv_quiet; [done|by apply quiet_flags|done].
    + destruct (zvfs_close fbase fsize (set_err s1 EBADF) _) as [[s3 r3]| |] eqn:Hcl; try done. simplify_eq.
      eapply close_inv; [|done]. eapply fs_inv_quiet; [done|done|]. by apply rel_err.
  - rewrite Hl in Hc. eapply fs_inv_quiet; [done| |done]. by eapply ioctl_quiet.
Qed.

(** An open that fails gives back the entry and the object it took. *)
Lemma open_fail_inv s D p i e0 w er :
  fs_inv (s, D) -> rel N s p -> fdtable s !! i = Some e0 -> refcount e0 = 0 ->
  (forall k, in_use w k <-> in_use (world s) k) ->
  forall e1, refcount e1 = 0 -> fs_inv (mk_zs (<[i := e1]> (fdtable s)) (files s) w er, D).
Proof.
  intros [_ Hvt Hu Hd] HR Hi Hz0 Hw e1 Hz1. pose proof HR as (HN & R & _ & _).
  assert (Hos : forall j, objs (mk_zs (<[i := e1]> (fdtable s)) (files s) w er) j = objs s j).
  { intros j. unfold objs. simpl. destruct (decide (j = i)) as [->|].
    - rewrite list_lookup_insert_eq, Hi by by eapply lookup_lt_Some. simpl. unfold fd_used. by rewrite Hz0, Hz1.
    - by rewrite list_lookup_insert_ne. }
  split; unfold has_fd in *; simpl in *.
  - exists (mk_pst (p_fds p) (p_ofd p) w er). unfold rel. simpl. rewrite length_insert. split_and!; try done.
    by eapply repr_free_entry.
  - intros j y. rewrite Hos. apply Hvt.
  - intros k. rewrite Hw, Hu. f_equiv. by setoid_rewrite Hos.
  - intros k Hk. setoid_rewrite Hos. by apply Hd.
Qed.

Lemma open_inv s D name flags mode : fs_inv (s, D) -> fs_inv (fst (zvfs_open s name flags mode), D).
Proof.
  intros Hinv. destruct (fi_rel _ Hinv) as [p HR]. unfold zvfs_open. destruct (_ <? 0); [done|]. unfold zvfs_reserve.
  destruct (find_fd_entry (fdtable s)) as [i|] eqn:Hf; [|eapply fs_inv_quiet; [done|done|by apply (rel_world N s p)]].
  destruct (find_free _ _ Hf) as (e0 & Hi & Hz0). rewrite Hi. cbn [fst snd world set_table].
  assert (Hlt := lookup_lt_Some _ _ _ Hi).
  set (er := mk_fd 0 None (refcount (z_fd_ref e0)) 0 (fmode (z_fd_ref e0)) 0).
  assert (Hone : refcount (z_fd_ref e0) = 1) by (rewrite ref_spec; simpl; lia).
  assert (Hfail : forall w, (forall k, in_use w k <-> in_use (world s) k) -> forall z z' ptr rc,
    in_use (zvfs_fs_desc_free z ptr) = in_use w -> 
    fs_inv (fst (open_fail (mk_zs (<[i := er]> (fdtable s)) (files s) z z') i ptr rc), D)).
  { intros w Hw z z' ptr rc Heq. unfold open_fail, zvfs_free. simpl. rewrite list_lookup_insert_eq by done. simpl.
    rewrite list_insert_insert_eq. eapply (open_fail_inv s D p i e0); [done..| |by apply unref_spec].
    intros k. by rewrite Heq. }
  destruct (zvfs_fs_desc_alloc (world s) false) as [w2 [k|]] eqn:Ha.
  - destruct (desc_alloc_spec _ _ _ _ Ha) as (Hnk & Hu2 & _).
    destruct (open_file (fsys w2) k name flags _) as [f rc].
    assert (Huf : forall j, in_use (with_fs w2 f) j <-> j = k \/ in_use (world s) j) by apply Hu2.
    destruct (rc <? 0).
    + apply (Hfail (zvfs_fs_desc_free (with_fs w2 f) (Some k))); [|done]. intros j. rewrite desc_free_spec, Huf.
      split; [tauto|]. intros Hj. split; [|by right]. by intros ->.
    + assert (Hfr : fresh_in s (desc_addr k)).
      { right. intros j ej Hj Huj Ho. destruct (fs_vtable s D j ej Hinv Hj Huj) as [Hv _].
        apply Hnk, (fi_used _ Hinv). right. exists j. rewrite <- Hv, <- Ho. by apply objs_Some. }
      destruct (sim_open N s p (desc_addr k) fs_fd_op_vtable ZVFS_MODE_IFREG HR Hfr) as (s' & p' & r & Hal & _ & HR').
      unfold zvfs_alloc, zvfs_reserve in Hal. rewrite Hf, Hi in Hal. fold er in Hal.
      unfold zvfs_finalize in *. cbn [fdtable set_table fst] in *. rewrite list_lookup_insert_eq in Hal |- * by done.
      rewrite finalize_spec, list_insert_insert_eq in *. simplify_eq. apply (rel_world N _ _ (files s) (with_fs w2 f) (zerr s)) in HR'.
      set (s2 := mk_zs _ _ _ _) in HR'. change (fs_inv (s2, D)).
      assert (Hos : forall j, objs s2 j = if decide (j = i) then Some (Some fs_fd_op_vtable, desc_addr k) else objs s j).
      { intros j. unfold objs. simpl. destruct (decide (j = i)) as [->|].
        - rewrite list_lookup_insert_eq by done. simpl. unfold fd_used. simpl. by rewrite Hone.
        - by rewrite list_lookup_insert_ne. }
      assert (Hni : objs s i = None) by (unfold objs; rewrite Hi; simpl; unfold fd_used; by rewrite Hz0).
      assert (Hhas : forall m, has_fd s2 m <-> m = k \/ has_fd s m).
      { intros m. unfold has_fd. split.
        - intros [j Hj]. rewrite Hos in Hj. case_decide; [left; apply desc_addr_inj; congruence|right; by exists j].
        - intros [->|[j Hj]]; [exists i; rewrite Hos; by case_decide|]. exists j. rewrite Hos. case_decide; [congruence|done]. }
      destruct Hinv as [_ Hvt Hu Hd]. split; simpl in *.
      * by eexists.
      * intros j y. rewrite Hos. case_decide; [intros [= <-]; by exists k|apply Hvt].
      * intros m. etransitivity; [apply Huf|]. rewrite Hu, Hhas. tauto.
      * intros m Hm. rewrite Hhas. intros [->|Hh]; [|by eapply Hd]. apply Hnk, Hu. by left.
  - assert (w2 = world s) as -> by (unfold zvfs_fs_desc_alloc in Ha; case_match; by simplify_eq).
    by apply (Hfail (world s)).
Qed.

Lemma fs_step_inv x y : fs_step x y -> fs_inv x -> fs_inv y.
Proof.
  intros Hs Hinv. destruct Hs as [s D name flags mode|s D c s' r Hc He|s D w k Ha|s D k Hk].
  - by apply open_inv.
  - destruct (fi_rel _ Hinv) as [p HR].
    destruct (sim_step fbase fsize N c s p HR) as (s1 & p1 & r1 & He1 & _ & HR1); [by destruct c|].
    rewrite He in He1. simplify_eq. destruct c; simpl in He; try done.
    + eapply fs_inv_quiet; [done|by eapply rw_quiet|done].
    + eapply fs_inv_quiet; [done|by eapply rw_quiet|done].
    + eapply fs_inv_quiet; [done|by eapply lseek_quiet|done].
    + by eapply close_inv.
    + by eapply dup_inv.
    + by eapply dup2_inv.
    + by eapply fcntl_inv.
    + eapply fs_inv_quiet; [done|by eapply with_ioctl_quiet|done].
    + eapply fs_inv_quiet; [done|by eapply with_ioctl_quiet|done].
    + eapply fs_inv_quiet; [done|by eapply with_ioctl_quiet|done].
  - destruct (desc_alloc_spec _ _ _ _ Ha) as (Hnk & Hu2 & _). destruct Hinv as [[p HR] Hvt Hu Hd]. split; simpl in *.
    + eexists. by apply (rel_world N s p).
    + done.
    + intros m. rewrite Hu2, Hu, elem_of_union, elem_of_singleton. unfold has_fd, objs. simpl. tauto.
    + intros m. rewrite elem_of_union, elem_of_singleton. intros [->|Hm]; [|by apply Hd]. intros Hh.
      apply Hnk, Hu. by right.
  - destruct Hinv as [[p HR] Hvt Hu Hd]. split; simpl in *.
    + eexists. by apply (rel_world N s p).
    + done.
    + intros m. etransitivity; [apply desc_free_spec|]. rewrite Hu, elem_of_difference, elem_of_singleton.
      change (has_fd _ m) with (has_fd s m). split; [tauto|]. intros [[? ?]|Hh]; [tauto|]. split; [|by right].
      intros ->. by eapply Hd.
    + intros m [Hm _]%elem_of_difference. by apply Hd.
Qed.
End Inv.

(** ** The objects of files are neither lost nor shared *)

Section InvTheorem.
Context `{FdConfig} `{FsConst} {F : Type} `{!FsOps F} `{!FdKernel (fs_world F)} `{!FdKernelLaws (fs_world F)}.

(** C15: file objects and descriptors.  Starting with nothing open and the
    pool free, whatever sequence of opens, which may fail anywhere, closes,
    duplications, transfers, requests, and directory streams taken and given
    back: no call follows a NULL pointer; an object of the pool is in use
    exactly when a directory stream or an open descriptor has it, never
    both; two descriptors have one object only as duplicates, with one
    offset; and when all is closed the whole pool is free again. *)
Theorem fs_pool_exact fbase fsize (s0 s : zs (fs_world F)) D :
  table_empty (fdtable s0) -> (forall k, ~ in_use (world s0) k) ->
  star (fs_step fbase fsize) (s0, ∅) (s, D) ->
  (forall c, match c with COpen _ _ _ => False | _ => True end ->
     exists s' r, zvfs_exec fbase fsize c s = Returns (s', r)) /\
  (forall k, in_use (world s) k <-> k ∈ D \/ has_fd s k) /\
  (forall k, k ∈ D -> ~ has_fd s k) /\
  (forall i j ei ej, fdtable s !! i = Some ei -> fdtable s !! j = Some ej -> refcount ei <> 0 -> refcount ej <> 0 ->
     fobj ei = fobj ej -> foffset ei = foffset ej) /\
  (D = ∅ -> table_empty (fdtable s) -> forall k, ~ in_use (world s) k).
Proof.
  intros Hte Hpool Hs.
  assert (Hinv : fs_inv (length (fdtable s0)) (s, D)).
  { eapply (star_invariant _ (fs_inv (length (fdtable s0)))); [|exact Hs|].
    - intros x y Hx Hxy. by eapply fs_step_inv.
    - assert (Hno : forall i, objs s0 i = None).
      { intros i. unfold objs. destruct (fdtable s0 !! i) as [e|] eqn:He; [|done]. simpl.
        unfold fd_used. by rewrite (Hte i e He). }
      split; simpl.
      + exists (mk_pst ∅ ∅ (world s0) (zerr s0)). split_and!; try done. by apply repr_empty.
      + intros i y. by rewrite Hno.
      + intros k. split; [by intros ?%Hpool|]. intros [?|[i Hi]]; [set_solver|]. by rewrite Hno in Hi.
      + intros k. set_solver. }
  destruct (fi_rel _ _ Hinv) as [p HR]. split_and!.
  - intros c Hc. destruct (sim_step fbase fsize _ c s p HR) as (s' & p' & r & He & _); [by destruct c|]. by exists s', r.
  - apply Hinv.
  - apply Hinv.
  - intros i j ei ej Hi Hj Hui Huj Ho. destruct HR as (_ & R & _ & _).
    destruct (rp_ofd _ _ _ R i ei Hi Hui) as (oi & Hoi & (_ & _ & <- & _)).
    destruct (rp_ofd _ _ _ R j ej Hj Huj) as (oj & Hoj & (_ & _ & <- & _)).
    assert (desc_of i ei = desc_of j ej) as Heq; [|congruence].
    destruct (fs_vtable _ s D i ei Hinv Hi Hui) as [_ [k Hk]]. unfold desc_of. rewrite <- Ho, Hk.
    by rewrite (proj2 (Z.eqb_neq _ _) (desc_addr_nonzero k)).
  - intros -> He k Hk. apply (fi_used _ _ Hinv) in Hk as [Hk|[i Hi]]; [set_solver|].
    apply objs_lookup in Hi as (e & Hi & Hu & _). by rewrite (He i e Hi) in Hu.
Qed.
End InvTheorem.

(** ** A file system in memory *)

Record flatfs := mk_flat { fl_files : gmap string (list Z); fl_open : gmap nat fhandle }.

#[export] Instance demo_const : FsConst := {|
  off_bits := 64;
  FS_SEEK_SET := 0; FS_SEEK_CUR := 1; FS_SEEK_END := 2;
  FS_O_READ := 1; FS_O_WRITE := 2; FS_O_RDWR := 3; FS_O_CREATE := 16; FS_O_APPEND := 32; FS_O_TRUNC := 64;
  ZVFS_O_RDONLY := 1; ZVFS_O_WRONLY := 2; ZVFS_O_RDWR := 3;
  ZVFS_O_CREAT := 512; ZVFS_O_APPEND := 1024; ZVFS_O_TRUNC := 2048; ZVFS_O_EXCL := 4096;
|}.

Definition flat_bytes (f : flatfs) (n : string) : list Z := default [] (fl_files f !! n).
Definition flat_len (f : flatfs) (h : fhandle) : Z := Z.of_nat (length (flat_bytes f (h_path h))).
Definition flat_set (f : flatfs) (i : nat) (h : fhandle) : flatfs := mk_flat (fl_files f) (<[i := h]> (fl_open f)).

#[export] Instance flat_ops : FsOps flatfs := {|
  fs_file_t_init f i := f;
  fs_open f i name flags :=
    match fl_files f !! name, flag_set flags 16 with
    | None, false => (f, -2)
    | x, _ => (mk_flat (<[name := if flag_set flags 64 then [] else default [] x]> (fl_files f))
                       (<[i := mk_fh name 0 (flag_set flags 32)]> (fl_open f)), 0)
    end;
  fs_close f i := (mk_flat (fl_files f) (delete i (fl_open f)), 0);
  fs_tell f i := match fl_open f !! i with Some h => Z.max 0 (h_pos h) | None => -9 end;
  fs_seek f i off whence :=
    match fl_open f !! i with
    | Some h =>
        let p := (if whence =? 0 then 0 else if whence =? 1 then h_pos h else flat_len f h) + off in
        if (0 <=? p) && (p <=? flat_len f h) then (flat_set f i (at_pos h p), 0) else (f, -22)
    | None => (f, -9)
    end;
  fs_read f i count :=
    match fl_open f !! i with
    | Some h =>
        let d := take (Z.to_nat count) (drop (Z.to_nat (h_pos h)) (flat_bytes f (h_path h))) in
        (flat_set f i (at_pos h (h_pos h + Z.of_nat (length d))), Z.of_nat (length d), d)
    | None => (f, -9, [])
    end;
  fs_write f i buf count :=
    match fl_open f !! i with
    | Some h =>
        let p := if h_append h then flat_len f h else h_pos h in
        (mk_flat (<[h_path h := write_at p (take (Z.to_nat count) buf) (flat_bytes f (h_path h))]> (fl_files f))
                 (<[i := at_pos h (p + count)]> (fl_open f)), count)
    | None => (f, -9)
    end;
  fs_truncate f i len := (f, -95);
  fs_sync f i := (f, 0);
|}.

(** The positions of this file system are not negative: the handles the
    laws speak of. *)
Definition flat_handle (f : flatfs) (i : nat) : option fhandle :=
  match fl_open f !! i with Some h => if 0 <=? h_pos h then Some h else None | None => None end.

Lemma flat_handle_Some f i h : flat_handle f i = Some h -> fl_open f !! i = Some h /\ 0 <= h_pos h.
Proof. unfold flat_handle. destruct (fl_open f !! i) as [h'|]; [|done]. destruct (Z.leb_spec 0 (h_pos h')); intros; by simplify_eq. Qed.

Lemma flat_moved m f i h : 0 <= h_pos h ->
  flat_handle (mk_flat m (<[i := h]> (fl_open f))) i = Some h /\
  forall j, j <> i -> flat_handle (mk_flat m (<[i := h]> (fl_open f))) j = flat_handle f j.
Proof.
  intros Hp. unfold flat_handle. simpl. rewrite lookup_insert_eq. split; [by rewrite leb_true|].
  intros j Hj. by rewrite lookup_insert_ne.
Qed.

#[export] Program Instance flat_laws : FsLaws flatfs := {| fs_handle := flat_handle; fs_bytes := flat_bytes |}.
Next Obligation. intros f i h [Ho Hp]%flat_handle_Some. simpl. rewrite Ho. lia. Qed.
Next Obligation.
  intros f i h off whence b [Ho Hp]%flat_handle_Some Hb Hr. simpl. rewrite Ho.
  assert ((if whence =? 0 then 0 else if whence =? 1 then h_pos h else flat_len f h) = b) as ->.
  { destruct Hb as [[-> ->]|[[-> ->]|[-> ->]]]; done. }
  unfold flat_len. rewrite !leb_true by lia. simpl. eexists. split; [done|]. split; [|done].
  apply flat_moved. simpl. lia.
Qed.
Next Obligation.
  intros f i h count [Ho Hp]%flat_handle_Some Hpos Hc. simpl. rewrite Ho. eexists. split; [done|]. split; [|done].
  apply flat_moved. simpl. lia.
Qed.
Next Obligation.
  intros f i h buf count f' n [Ho Hp]%flat_handle_Some Hpos Hc Hw Hn. simpl in Hw. rewrite Ho in Hw. simplify_eq. simpl.
  split; [done|]. split; [|split].
  - apply flat_moved. simpl. case_match; unfold flat_len; lia.
  - unfold flat_bytes at 1. simpl. by rewrite lookup_insert_eq.
  - intros m Hm. unfold flat_bytes. simpl. by rewrite lookup_insert_ne.
Qed.

(** ** Witnesses *)

#[local] Existing Instance demo_config.

Definition demo_fk : FdKernel (fs_world flatfs) := plain_kernel (fun _ _ _ w => (w, -1, Some 95)).
#[local] Existing Instance demo_fk.

Definition demo_fkl : FdKernelLaws (fs_world flatfs) := plain_kernel_laws (fun _ _ _ w => (w, -1, Some 95)).
#[local] Existing Instance demo_fkl.

Definition demo_s0 : zs (fs_world flatfs) :=
  mk_zs (replicate 4 (mk_fd 0 None 0 0 0 0)) (mk_store [] ∅)
        (mk_fw (replicate 2 (mk_desc false false)) (mk_flat ∅ ∅) []) 0.

(** open("/a", O_CREAT | O_RDWR), then dup. *)
Definition demo_s1 : zs (fs_world flatfs) := fst (zvfs_open demo_s0 "/a" 515 0).
Definition demo_s2 : zs (fs_world flatfs) :=
  match dup demo_s1 0 with Returns (s, _) => s | _ => demo_s1 end.
Definition demo_s3 : zs (fs_world flatfs) :=
  match zvfs_write demo_s2 0 [7; 8; 9] 3 with Returns (s, _) => s | _ => demo_s2 end.
Definition demo_e (off : Z) : fd_entry (fs_world flatfs) := mk_fd 1 (Some fs_fd_op_vtable) 1 off 32768 0.
Definition demo_h : fhandle := mk_fh "/a" 0 false.

Lemma demo_off : 0 < off_bits.
Proof. done. Qed.

Lemma demo_file2 i : i = 0%nat \/ i = 1%nat -> file_fd demo_s2 i (demo_e 0) demo_h.
Proof. intros [->| ->]; split; (reflexivity || done). Qed.

Lemma demo_file3 : file_fd demo_s3 0 (demo_e 3) demo_h.
Proof. split; (reflexivity || done). Qed.

Lemma demo_in2 : in_file demo_s2 (demo_e 0) demo_h.
Proof. split; vm_compute; intuition congruence. Qed.

Lemma demo_in3 : in_file demo_s3 (demo_e 3) demo_h.
Proof. split; vm_compute; intuition congruence. Qed.

Lemma file_roundtrip_witness :
  exists s2 s3,
    zvfs_lseek demo_s3 1 0 0 = Returns (s2, rval 0) /\
    zvfs_read s2 0 3 = Returns (s3, mk_reply 3 [7; 8; 9] None) /\
    forall k ek, k = 0%nat /\ ek = demo_e 0 \/ k = 1%nat /\ ek = demo_e 0 -> fdtable s3 !! k = Some (with_offset ek 3).
Proof.
  apply (file_roundtrip demo_off demo_s2 0 (demo_e 0) 1 (demo_e 0) demo_h [7; 8; 9] demo_s3 (rval 3));
    first [by apply demo_file2; auto | exact demo_in2 | reflexivity | vm_compute; congruence].
Defined.

(** The file has three bytes, of which two are read; SEEK_CUR says 0. *)
Definition demo_s4 : zs (fs_world flatfs) :=
  match zvfs_lseek demo_s3 0 0 0 with Returns (s, _) => s | _ => demo_s3 end.

Lemma demo_file4 : file_fd demo_s4 0 (demo_e 0) demo_h.
Proof. split; (reflexivity || done). Qed.

Lemma demo_in4 : in_file demo_s4 (demo_e 0) demo_h.
Proof. split; vm_compute; intuition congruence. Qed.

Lemma lseek_cur_after_read_witness :
  exists s1 s2,
    zvfs_read demo_s4 0 2 = Returns (s1, mk_reply 2 [7; 8] None) /\
    fdtable s1 !! 0%nat = Some (demo_e 2) /\
    zvfs_lseek s1 0 0 1 = Returns (s2, rval 0) /\
    fdtable s2 !! 0%nat = Some (demo_e 0).
Proof.
  assert (Hd : fs_bytes (fsys (world demo_s4)) (h_path demo_h) = [7; 8; 9]) by reflexivity.
  destruct (lseek_cur_after_read demo_off demo_s4 0 (demo_e 0) demo_h 2 demo_file4 demo_in4 ltac:(lia))
    as (s1 & s2 & Hr & H1 & Hl & H2).
  rewrite Hd in Hr, H1. exists s1, s2. exact (conj Hr (conj H1 (conj Hl H2))).
Defined.

Lemma demo_reach : star (fs_step 0 8) (demo_s0, ∅) (demo_s2, ∅).
Proof.
  eapply star_snoc; [eapply star_snoc; [apply star_nil|apply (fs_step_open 0 8 demo_s0 ∅ "/a" 515 0)]|].
  apply (fs_step_call 0 8 demo_s1 ∅ (CDup 0 0) demo_s2 (rval 1)); [done|]. reflexivity.
Qed.

Lemma fs_pool_exact_witness :
  (forall k, in_use (world demo_s2) k <-> k ∈ (∅ : gset nat) \/ has_fd demo_s2 k) /\
  (exists s' r, zvfs_exec 0 8 (CClose 1) demo_s2 = Returns (s', r)).
Proof.
  destruct (fs_pool_exact 0 8 demo_s0 demo_s2 ∅) as (Hret & Hu & _).
  - intros i e Hi. by apply lookup_replicate in Hi as [-> _].
  - intros k (d & Hd & Hu). by apply lookup_replicate in Hd as [-> _].
  - exact demo_reach.
  - split; [exact Hu|]. by apply Hret.
Defined.
