(* ===== verification/Stdio.v ===== *)
(** * Streams of the minimal C library
    (patches zvfs-libc-file-fd-fix, minimal-libc-fgetc-fgets, minimal-libc-fread, minimal-libc-fseek and
    zvfs-file-locking; device_io/fdopen.c, device_io/fileno.c, file_locking/file_locking.c)

    A stream is a number: 1, 2 and 3 are the standard streams, a stream of
    descriptor fd is fd + 4.  The calls work on the table of [FdTable]; the
    console is a list of the characters written to it, with a hook that may
    refuse one.  A loop that reads or writes until it has all is given as
    many rounds as bytes, and one more; [NoFuel] would be a loop that needs
    more.  EOF is -1, NULL is 0. *)

From stdpp Require Import base list sets gmap strings.
From Stdlib Require Import ZArith Lia.
From S2P Require Import Prelude FdTable FdPosix ZvfsFs.

Local Open Scope Z_scope.

Definition obind {A B} (o : outcome A) (k : A -> outcome B) : outcome B :=
  match o with Returns a => k a | Undefined => Undefined | NoFuel => NoFuel end.

Notation "'let!' x ':=' o 'in' k" := (obind o (fun x => k)) (at level 10, x pattern, o at level 100, k at level 200).

(** ** Streams and descriptors (zvfs_libc.c) *)

Definition MINIMAL_LIBC_STDIO_FILE_BASE : Z := 4.

Definition zvfs_libc_fdopen (fd : Z) : Z := fd + MINIMAL_LIBC_STDIO_FILE_BASE.

Definition zvfs_libc_fileno (stream : Z) : Z :=
  if (1 <=? stream) && (stream <=? 3) then stream - 1 else stream - MINIMAL_LIBC_STDIO_FILE_BASE.

(** fdopen and fileno of POSIX. *)
Definition fdopen (fd : Z) : Z := zvfs_libc_fdopen fd.
Definition fileno (file : Z) : Z := zvfs_libc_fileno file.

Lemma fileno_fdopen fd : 0 <= fd -> fileno (fdopen fd) = fd.
Proof. intros. unfold fileno, fdopen, zvfs_libc_fileno, zvfs_libc_fdopen, MINIMAL_LIBC_STDIO_FILE_BASE. rewrite (leb_false _ 3), andb_false_r by lia. lia. Qed.

Section Stdio.
Context `{FdConfig} {W : Type} `{FdKernel W}.
(** The hook of the console: what it makes of a character, EOF to refuse it. *)
Context (stdout_hook : Z -> Z) (ESPIPE : Z).
Context (SEEK_SET SEEK_CUR : Z).

Implicit Types (s : zs W).

(** ** Reading and writing until there is no more *)

Fixpoint stream_write_loop (fuel : nat) s (fd : Z) (p : list Z) (nbyte written : Z) : outcome (zs W * Z) :=
  if written <? nbyte then
    match fuel with
    | O => NoFuel
    | S fuel =>
        let! (s1, r) := zvfs_write s fd (drop (Z.to_nat written) p) (nbyte - written) in
        if r_val r <=? 0 then Returns (s1, written)
        else stream_write_loop fuel s1 fd p nbyte (written + r_val r)
    end
  else Returns (s, written).

Definition minimal_zvfs_stream_write s fd (ptr : list Z) (nbyte : Z) : outcome (zs W * Z) :=
  stream_write_loop (S (Z.to_nat nbyte)) s fd ptr nbyte 0.

(** The bytes read so far are [got]. *)
Fixpoint stream_read_loop (fuel : nat) s (fd : Z) (nbyte nread : Z) (got : list Z) : outcome (zs W * Z * list Z) :=
  if nread <? nbyte then
    match fuel with
    | O => NoFuel
    | S fuel =>
        let! (s1, r) := zvfs_read s fd (nbyte - nread) in
        if r_val r <=? 0 then Returns (s1, nread, got)
        else stream_read_loop fuel s1 fd nbyte (nread + r_val r) (got ++ r_data r)
    end
  else Returns (s, nread, got).

Definition minimal_zvfs_stream_read s fd (nbyte : Z) : outcome (zs W * Z * list Z) :=
  stream_read_loop (S (Z.to_nat nbyte)) s fd nbyte 0 [].

(** The characters the console takes, up to the first it refuses. *)
Fixpoint minimal_console_write (buf : list Z) : list Z :=
  match buf with
  | [] => []
  | c :: buf' => if stdout_hook c =? -1 then [] else c :: minimal_console_write buf'
  end.

(** The state, what went to the console, and the count. *)
Definition minimal_stream_write s (ptr : list Z) (nbyte : Z) (stream : Z) : outcome (zs W * list Z * Z) :=
  let fd := zvfs_libc_fileno stream in
  if (fd =? 1) || (fd =? 2) then
    let out := minimal_console_write (take (Z.to_nat nbyte) ptr) in Returns (s, out, Z.of_nat (length out))
  else if 3 <=? fd then
    let! (s1, n) := minimal_zvfs_stream_write s fd ptr nbyte in Returns (s1, [], n)
  else Returns (s, [], 0).

Definition minimal_stream_read s (nbyte : Z) (stream : Z) : outcome (zs W * Z * list Z) :=
  let fd := zvfs_libc_fileno stream in
  if fd <? 3 then Returns (s, 0, []) else minimal_zvfs_stream_read s fd nbyte.

(** ** The calls *)

Definition fputc s (c stream : Z) : outcome (zs W * list Z * Z) :=
  let! (s1, out, n) := minimal_stream_write s [uwrap 8 c] 1 stream in
  Returns (s1, out, if n =? 1 then c else -1).

(** [str]: the characters before the terminator. *)
Definition fputs s (str : option (list Z)) (stream : Z) : outcome (zs W * list Z * Z) :=
  match str with
  | None => Returns (s, [], -1)
  | Some l =>
      let len := Z.of_nat (length l) in
      if len =? 0 then Returns (s, [], 0)
      else let! (s1, out, n) := minimal_stream_write s l len stream in
           Returns (s1, out, if n =? len then 0 else -1)
  end.

Definition fwrite s (ptr : list Z) (size nitems stream : Z) : outcome (zs W * list Z * Z) :=
  if (nitems =? 0) || (size =? 0) then Returns (s, [], 0)
  else let! (s1, out, written) := minimal_stream_write s ptr (uwrap size_bits (size * nitems)) stream in
       Returns (s1, out, written / size).

Definition fread s (size nitems stream : Z) : outcome (zs W * Z * list Z) :=
  if (nitems =? 0) || (size =? 0) then Returns (s, 0, [])
  else let! (s1, nread, data) := minimal_stream_read s (uwrap size_bits (size * nitems)) stream in
       Returns (s1, nread / size, data).

Definition fgetc s (stream : Z) : outcome (zs W * Z) :=
  if stream =? 0 then Returns (s, -1)
  else
    let fd := zvfs_libc_fileno stream in
    if fd <? 3 then Returns (s, -1)
    else let! (s1, r) := zvfs_read s fd 1 in
         Returns (s1, if negb (r_val r =? 1) then -1 else match r_data r with c :: _ => c | [] => -1 end).

(** The loop of fgets, [k] characters at most to come. *)
Fixpoint fgets_loop (k : nat) s (stream : Z) (got : list Z) : outcome (zs W * list Z) :=
  match k with
  | O => Returns (s, got)
  | S k =>
      let! (s1, c) := fgetc s stream in
      if c =? -1 then Returns (s1, got)
      else if c =? 10 then Returns (s1, got ++ [c])
      else fgets_loop k s1 stream (got ++ [c])
  end.

(** What is stored at the buffer, or NULL.  The buffer is written before the
    end of the file is noticed, but not terminated then. *)
Definition fgets s (buf : bool) (n stream : Z) : outcome (zs W * option (list Z)) :=
  if negb buf || (n <=? 0) || (stream =? 0) then Returns (s, None)
  else let! (s1, got) := fgets_loop (Z.to_nat (n - 1)) s stream [] in
       Returns (s1, match got with [] => None | _ => Some (got ++ [0]) end).

Definition set_errno s (x : Z) : zs W := mk_zs (fdtable s) (files s) (world s) x.

(** The descriptor a position is set of; the errors come first. *)
Definition minimal_stream_fd s (stream : Z) : zs W * Z :=
  if stream =? 0 then (set_err s EBADF, -1) else (s, zvfs_libc_fileno stream).

Definition fseek s (stream offset whence : Z) : outcome (zs W * Z) :=
  let '(s1, fd) := minimal_stream_fd s stream in
  if fd <? 0 then Returns (s1, -1)
  else if fd <? 3 then Returns (set_errno s1 ESPIPE, -1)
  else let! (s2, r) := zvfs_lseek s1 fd offset whence in
       Returns (s2, if r_val r =? -1 then -1 else 0).

Definition ftell s (stream : Z) : outcome (zs W * Z) :=
  let '(s1, fd) := minimal_stream_fd s stream in
  if fd <? 0 then Returns (s1, -1)
  else if fd <? 3 then Returns (set_errno s1 ESPIPE, -1)
  else let! (s2, r) := zvfs_lseek s1 fd 0 SEEK_CUR in Returns (s2, r_val r).

Definition rewind s (stream : Z) : outcome (zs W) :=
  let! (s1, _) := fseek s stream 0 SEEK_SET in Returns s1.

Definition fgetpos s (stream : Z) (pos : bool) : outcome (zs W * Z * option Z) :=
  if (stream =? 0) || negb pos then Returns (set_err s EBADF, -1, None)
  else let! (s1, loc) := ftell s stream in
       Returns (if loc =? -1 then (s1, -1, None) else (s1, 0, Some loc)).

Definition fsetpos s (stream : Z) (pos : option Z) : outcome (zs W * Z) :=
  match pos with
  | None => Returns (set_err s EBADF, -1)
  | Some p => if stream =? 0 then Returns (set_err s EBADF, -1) else fseek s stream p SEEK_SET
  end.

(** ** Without the lock (zvfs_file_locking.c, file_locking.c) *)

(** [char_signed]: char has a sign. *)
Context (char_signed : bool).

Definition to_char (b : Z) : Z := if char_signed then swrap 8 b else uwrap 8 b.

Definition zvfs_getc_unlocked s (stream : Z) : outcome (zs W * Z) :=
  let fd := zvfs_libc_fileno stream in
  if fd <? 0 then Returns (s, -1)
  else let! (s1, r) := zvfs_rw_unlocked s fd [] 1 false None in
       Returns (s1, if r_val r <=? 0 then -1 else match r_data r with c :: _ => to_char c | [] => -1 end).

Definition zvfs_putc_unlocked s (c stream : Z) : outcome (zs W * Z) :=
  let fd := zvfs_libc_fileno stream in
  if fd <? 0 then Returns (s, -1)
  else let! (s1, r) := zvfs_rw_unlocked s fd [uwrap 8 c] 1 true None in
       Returns (s1, if r_val r <=? 0 then -1 else c).

Definition getc_unlocked s stream := zvfs_getc_unlocked s stream.
Definition getchar_unlocked s := zvfs_getc_unlocked s 1.
Definition putc_unlocked s c stream := zvfs_putc_unlocked s c stream.
Definition putchar_unlocked s c := zvfs_putc_unlocked s c 2.

(** The entry whose lock zvfs_lock_file and zvfs_unlock_file work on; they
    return -1 and leave errno as it was when there is none. *)
Definition zvfs_lock_file_entry s (file : Z) : option nat :=
  let fd := zvfs_libc_fileno file in
  if fd <? 0 then None else fst <$> zvfs_fd_entry_get s fd.

Definition zvfs_lock_file (k_mutex_lock : nat -> bool -> Z) s (file : Z) (wait : bool) : Z :=
  match zvfs_lock_file_entry s file with None => -1 | Some i => k_mutex_lock i wait end.
Definition zvfs_unlock_file (k_mutex_unlock : nat -> Z) s (file : Z) : Z :=
  match zvfs_lock_file_entry s file with None => -1 | Some i => k_mutex_unlock i end.

(** ** The loops end *)

(** Reading and writing until all is done ends.  Whatever the object's
    methods answer, the loops behind fread and fwrite never need more rounds
    than there are bytes to transfer, and one more to see the end. *)
Theorem stream_loops_end s fd (p : list Z) nbyte :
  minimal_zvfs_stream_read s fd nbyte <> NoFuel /\ minimal_zvfs_stream_write s fd p nbyte <> NoFuel.
Proof.
  assert (Hrw : forall s fd buf sz b from, zvfs_rw s fd buf sz b from <> NoFuel).
  { intros. unfold zvfs_rw, with_entry, zvfs_rw_entry, with_vtable. repeat (case_match; try done). }
  split; unfold minimal_zvfs_stream_read, minimal_zvfs_stream_write.
  - assert (Hl : forall fuel s nread got, nbyte - nread < Z.of_nat fuel -> stream_read_loop fuel s fd nbyte nread got <> NoFuel).
    { induction fuel as [|fuel IH]; intros s' nread got Hf; simpl; destruct (Z.ltb_spec nread nbyte); try done; [lia|].
      pose proof (Hrw s' fd [] (nbyte - nread) false None) as Hn. unfold zvfs_read, zvfs_read_offset.
      destruct (zvfs_rw _ _ _ _ _ _) as [[s1 r]| |]; try done. simpl.
      destruct (Z.leb_spec (r_val r) 0); [done|]. apply IH. lia. }
    apply Hl. lia.
  - assert (Hl : forall fuel s written, nbyte - written < Z.of_nat fuel -> stream_write_loop fuel s fd p nbyte written <> NoFuel).
    { induction fuel as [|fuel IH]; intros s' written Hf; simpl; destruct (Z.ltb_spec written nbyte); try done; [lia|].
      pose proof (Hrw s' fd (drop (Z.to_nat written) p) (nbyte - written) true None) as Hn. unfold zvfs_write, zvfs_write_offset.
      destruct (zvfs_rw _ _ _ _ _ _) as [[s1 r]| |]; try done. simpl.
      destruct (Z.leb_spec (r_val r) 0); [done|]. apply IH. lia. }
    apply Hl. lia.
Qed.
End Stdio.

(** ** Streams of regular files *)

(** The first line of [l], with its newline, and no more than [k] bytes. *)
Fixpoint line_of (k : nat) (l : list Z) : list Z :=
  match k, l with
  | S k, c :: l => c :: (if c =? 10 then [] else line_of k l)
  | _, _ => []
  end.

Section Files.
Context `{FdConfig} `{FsConst} {F : Type} `{!FsOps F} `{!FsLaws F} `{!FdKernel (fs_world F)}.
Context (Hoff : 0 < off_bits).

Abbreviation W := (fs_world F).
Implicit Types (s : zs W).

(** Descriptor [i] of the regular file with the bytes [bs], at [off]. *)
Definition reads_file s (i : nat) (e : fd_entry W) (h : fhandle) (bs : list Z) (off : Z) : Prop :=
  file_fd s i (with_offset e off) h /\ in_file s (with_offset e off) h /\
  fs_bytes (fsys (world s)) (h_path h) = bs.

(** A read moves the descriptor by what it gets, and nothing else. *)
Lemma read_step s i e h bs off sz :
  reads_file s i e h bs off -> 0 <= sz ->
  let d := take (Z.to_nat sz) (drop (Z.to_nat off) bs) in
  exists s', zvfs_read s (Z.of_nat i) sz = Returns (s', mk_reply (Z.of_nat (length d)) d None) /\
    reads_file s' i e h bs (off + Z.of_nat (length d)).
Proof.
  intros (Hf & Hin & <-) Hsz d.
  destruct (file_read Hoff s i _ h sz Hf Hin Hsz) as (f' & Hr & [Hh _] & Hb). simpl in Hr. fold d in Hr.
  eexists. split; [exact Hr|]. unfold reads_file. simpl.
  assert (Hd : Z.of_nat (length d) <= fs_len (fsys (world s)) h - off).
  { unfold d. rewrite length_take, length_drop. pose proof (if_off _ _ _ Hin). unfold fs_len in *. simpl in *. lia. }
  assert (Ht : moved_by (fdtable s) i (with_offset e off) (Z.of_nat (length d)) !! i
    = Some (with_offset e (off + Z.of_nat (length d)))).
  { rewrite (moved_by_dup _ i _ i (with_offset e off)) by (try apply Hf; try done; lia). done. }
  split_and!.
  - destruct Hf. by split.
  - destruct Hin. split; unfold fs_len in *; simpl in *; rewrite Hb; lia.
  - by rewrite Hb.
Qed.

Lemma fgetc_step s i e h bs off :
  reads_file s i e h bs off -> (3 <= i)%nat ->
  exists s', fgetc s (fdopen (Z.of_nat i)) = Returns (s', match drop (Z.to_nat off) bs with c :: _ => c | [] => -1 end) /\
    reads_file s' i e h bs (off + match drop (Z.to_nat off) bs with _ :: _ => 1 | [] => 0 end).
Proof.
  intros Hr Hi. destruct (read_step s i e h bs off 1 Hr) as (s' & Hrd & Hs'); [lia|].
  exists s'. unfold fgetc. rewrite eqb_false by (unfold fdopen, zvfs_libc_fdopen, MINIMAL_LIBC_STDIO_FILE_BASE; lia).
  change (zvfs_libc_fileno (fdopen (Z.of_nat i))) with (fileno (fdopen (Z.of_nat i))).
  rewrite fileno_fdopen, ltb_false by lia. rewrite Hrd.
  destruct (drop (Z.to_nat off) bs) as [|c l]; simpl in *; split; try done.
Qed.

(** Bytes that are not EOF when an int holds them. *)
Definition bytes_u (bs : list Z) : Prop := Forall (fun b => 0 <= b < 256) bs.

Lemma fgets_loop_spec k s i e h bs off got :
  reads_file s i e h bs off -> (3 <= i)%nat -> bytes_u bs -> 0 <= off ->
  let line := line_of k (drop (Z.to_nat off) bs) in
  exists s', fgets_loop k s (fdopen (Z.of_nat i)) got = Returns (s', got ++ line) /\
    reads_file s' i e h bs (off + Z.of_nat (length line)).
Proof.
  intros Hr Hi Hb. revert s off got Hr. induction k as [|k IH]; intros s off got Hr Ho line.
  { exists s. simpl. by rewrite app_nil_r, Z.add_0_r. }
  destruct (fgetc_step s i e h bs off Hr Hi) as (s1 & Hg & Hr1). unfold line. cbn [fgets_loop line_of]. rewrite Hg. simpl.
  destruct (drop (Z.to_nat off) bs) as [|c l] eqn:Hd.
  { exists s1. simpl. by rewrite app_nil_r. }
  assert (Hl : drop (Z.to_nat (off + 1)) bs = l).
  { replace (Z.to_nat (off + 1)) with (Z.to_nat off + 1)%nat by lia. by rewrite <- drop_drop, Hd. }
  assert (Hc : 0 <= c < 256).
  { assert (bs !! Z.to_nat off = Some c) as Hbc.
    { rewrite <- (Nat.add_0_r (Z.to_nat off)), <- lookup_drop, Hd. done. }
    by apply (Forall_lookup_1 _ _ _ _ Hb Hbc). }
  rewrite eqb_false by lia. destruct (c =? 10) eqn:Hn.
  - exists s1. done.
  - destruct (IH s1 (off + 1) (got ++ [c]) Hr1) as (s2 & Hl2 & Hr2); [lia|]. rewrite Hl in *. exists s2. split.
    + rewrite Hl2, <- app_assoc. done.
    + simpl. replace (off + Z.of_nat (S (length (line_of k l)))) with (off + 1 + Z.of_nat (length (line_of k l))) by lia. done.
Qed.

(** C27: fgets with a size of at least 2, on a stream of a regular file whose
    descriptor is 3 or more (lower descriptors are the standard streams, and a
    size of 1 stores nothing: small_descriptors_are_streams, fgets_one),
    stores the next line with its newline, or as much of it as fits or is
    there, and a terminator, moves the file behind it, and returns NULL
    exactly when the position is at or behind the end of the file. *)
Theorem fgets_spec s i e h bs off n :
  reads_file s i e h bs off -> (3 <= i)%nat -> bytes_u bs -> 0 <= off -> 2 <= n ->
  let line := line_of (Z.to_nat (n - 1)) (drop (Z.to_nat off) bs) in
  exists s', fgets s true n (fdopen (Z.of_nat i))
      = Returns (s', match line with [] => None | _ => Some (line ++ [0]) end) /\
    reads_file s' i e h bs (off + Z.of_nat (length line)) /\
    (line = [] <-> Z.of_nat (length bs) <= off) /\ Z.of_nat (length line) < n.
Proof.
  intros Hr Hi Hb Ho Hn line. unfold fgets.
  rewrite leb_false, eqb_false by (unfold fdopen, zvfs_libc_fdopen, MINIMAL_LIBC_STDIO_FILE_BASE; lia). simpl.
  destruct (fgets_loop_spec (Z.to_nat (n - 1)) s i e h bs off [] Hr Hi Hb Ho) as (s' & Hl & Hs').
  fold line in Hl, Hs'. rewrite Hl. simpl. exists s'. split; [done|]. split; [done|].
  assert (Hlen : forall k l, (length (line_of k l) <= k)%nat).
  { induction k as [|k IH]; intros [|c l]; simpl; try lia. destruct (c =? 10); simpl; [lia|]. specialize (IH l). lia. }
  split; [|specialize (Hlen (Z.to_nat (n - 1)) (drop (Z.to_nat off) bs)); fold line in Hlen; lia].
  unfold line. destruct (Z.to_nat (n - 1)) as [|k] eqn:Hk; [lia|].
  destruct (drop (Z.to_nat off) bs) as [|c l] eqn:Hd.
  - split; [intros _|done]. apply (f_equal length) in Hd. rewrite length_drop in Hd. simpl in Hd. lia.
  - split; [done|]. intros Hle. apply (f_equal length) in Hd. rewrite length_drop in Hd. simpl in Hd. lia.
Qed.

(** fread gives the items that are there; the bytes of a last item that is
    not whole are read and not counted. *)
Lemma fread_spec s i e h bs off size nitems :
  reads_file s i e h bs off -> (3 <= i)%nat -> 0 <= off -> 0 < size -> 0 < nitems -> size * nitems < 2 ^ size_bits ->
  let d := take (Z.to_nat (size * nitems)) (drop (Z.to_nat off) bs) in
  exists s', fread s size nitems (fdopen (Z.of_nat i)) = Returns (s', Z.of_nat (length d) / size, d) /\
    reads_file s' i e h bs (off + Z.of_nat (length d)).
Proof.
  intros Hr Hi Ho Hsz Hni Hw d. unfold fread. rewrite !eqb_false by lia. simpl. unfold uwrap. rewrite Z.mod_small by nia.
  unfold minimal_stream_read. change (zvfs_libc_fileno (fdopen (Z.of_nat i))) with (fileno (fdopen (Z.of_nat i))).
  rewrite fileno_fdopen, ltb_false by lia. unfold minimal_zvfs_stream_read. set (nb := size * nitems) in *.
  assert (Hnb : 0 < nb) by (unfold nb; nia). cbn [stream_read_loop]. rewrite ltb_true, Z.sub_0_r by done.
  destruct (read_step s i e h bs off nb Hr) as (s1 & Hr1 & Hs1); [lia|]. fold d in Hr1, Hs1. rewrite Hr1. simpl.
  destruct (Z.leb_spec (Z.of_nat (length d)) 0).
  { exists s1. assert (d = []) as Hd by (destruct d; simpl in *; [done|lia]). rewrite Hd in *. done. }
  assert (Hdl : (length d <= Z.to_nat nb)%nat) by (unfold d; rewrite length_take; lia).
  destruct (Z.to_nat nb) as [|m] eqn:Hm; [lia|]. cbn [stream_read_loop]. rewrite ?Z.add_0_l.
  destruct (Z.ltb_spec (Z.of_nat (length d)) nb) as [Hlt|Hge].
  - destruct (read_step s1 i e h bs (off + Z.of_nat (length d)) (nb - Z.of_nat (length d)) Hs1) as (s2 & Hr2 & Hs2); [lia|].
    assert (Hend : drop (Z.to_nat (off + Z.of_nat (length d))) bs = []).
    { apply drop_ge. unfold d in Hlt |- *. rewrite length_take, length_drop in *. lia. }
    rewrite Hend, take_nil in Hr2, Hs2. rewrite Hr2. simpl. exists s2. by rewrite Z.add_0_r in Hs2.
  - exists s1. done.
Qed.
End Files.

(** ** A file of two lines *)

#[local] Existing Instance demo_config.
#[local] Existing Instance demo_fk.

(** Descriptors 0 and 3 are open on the file "/l"; 1 and 2 are in use. *)
Definition line_e : fd_entry (fs_world flatfs) := mk_fd 1 (Some fs_fd_op_vtable) 1 0 32768 0.
Definition line_st (bs : list Z) : zs (fs_world flatfs) :=
  mk_zs [line_e; mk_fd 0 None 1 0 0 0; mk_fd 0 None 1 0 0 0; line_e] (mk_store [] ∅)
    (mk_fw [mk_desc false true] (mk_flat {["/l" := bs]} {[0%nat := mk_fh "/l" 0 false]}) []) 0.

Lemma line_file : reads_file (line_st [104; 105; 10; 121]) 3 line_e (mk_fh "/l" 0 false) [104; 105; 10; 121] 0.
Proof.
  split; [|split; [|reflexivity]].
  - split; (reflexivity || done).
  - split; vm_compute; intuition congruence.
Qed.

Lemma fgets_spec_witness :
  exists s', fgets (line_st [104; 105; 10; 121]) true 80 (fdopen 3) = Returns (s', Some [104; 105; 10; 0]) /\
    reads_file s' 3 line_e (mk_fh "/l" 0 false) [104; 105; 10; 121] 3.
Proof.
  destruct (fgets_spec demo_off (line_st [104; 105; 10; 121]) 3 line_e (mk_fh "/l" 0 false) [104; 105; 10; 121] 0 80)
    as (s' & Hf & Hr & _).
  - exact line_file.
  - lia.
  - repeat constructor; lia.
  - lia.
  - lia.
  - exists s'. exact (conj Hf Hr).
Defined.

(** A file on one of the first three descriptors, which fopen gives when they
    are not reserved for the standard streams, cannot be read, and what is
    written to descriptor 1 or 2 goes to the console. *)
Lemma small_descriptors_are_streams :
  (forall s : zs (fs_world flatfs), fgetc s (fdopen 0) = Returns (s, -1)) /\
  (exists s r, zvfs_read (line_st [104; 105; 10; 121]) (fileno (fdopen 0)) 1 = Returns (s, r) /\ r_data r = [104]) /\
  (forall (s : zs (fs_world flatfs)) c, 0 <= c < 256 -> fputc (fun c => c) s c (fdopen 1) = Returns (s, [c], c)).
Proof.
  split; [done|]. split; [by eexists _, _|]. intros s c Hc. unfold fputc, minimal_stream_write. simpl.
  unfold uwrap. rewrite Z.mod_small by done. by rewrite eqb_false by lia.
Qed.

(** getc_unlocked of the byte 255 is EOF where char has a sign; fgetc's is
    not. *)
Lemma getc_unlocked_eof :
  (exists s, getc_unlocked true (line_st [255; 7]) (fdopen 3) = Returns (s, -1)) /\
  (exists s, getc_unlocked false (line_st [255; 7]) (fdopen 3) = Returns (s, 255)) /\
  (exists s, fgetc (line_st [255; 7]) (fdopen 3) = Returns (s, 255)).
Proof. split_and!; by eexists. Qed.

(** With room for the terminator alone fgets says end of file. *)
Lemma fgets_one (s : zs (fs_world flatfs)) stream : fgets s true 1 stream = Returns (s, None).
Proof. unfold fgets. by destruct (stream =? 0). Qed.
