(* ===== verification/Elastic.v ===== *)
(** * Elastic pools (lib/elastipool/elastipool.c of the patch elastipool.patch)

    A pool that hands out the blocks of its storage first, as [Pool.Epool]
    models them, and then memory from the heap, whose addresses a hash map
    keeps, up to a maximum.  The heap and the hash map are the kernel's: the
    heap's calls are parameters with their contract [heap_laws], the map is
    the set of its keys and may refuse to grow. *)

From stdpp Require Import base gmap sets list.
From Stdlib Require Import ZArith Lia.
From S2P Require Import Prelude Kernel Pool.

Import Epool.
Local Open Scope Z_scope.

(** The functions a pool gets for its sizes (SYS_ELASTIPOOL_*_FN). *)
Inductive pool_kind := PoolDyn | PoolStatic | PoolElastic.

#[export] Instance pool_kind_eq_dec : EqDecision pool_kind.
Proof. solve_decision. Defined.

Definition pool_fns (min max : Z) : pool_kind :=
  if min =? 0 then PoolDyn else if min =? max then PoolStatic else PoolElastic.

Definition is_power_of_two (x : Z) : bool := negb (x =? 0) && (Z.land x (x - 1) =? 0).

Definition round_up (x a : Z) : Z := (x + (a - 1)) / a * a.

Record el_config := mk_elc { c_size : Z; c_align : Z; c_min : Z; c_max : Z; c_storage : Z; c_map : bool; c_kind : pool_kind }.

(** The pointers are addresses, 0 for NULL. *)
Definition sys_elastipool_init (api config obj_size obj_align min_obj max_obj storage bmp map : Z) : res el_config :=
  if (obj_size =? 0) || (min_obj =? 0) || (max_obj <? min_obj) ||
     (negb (obj_align =? 0) && negb (is_power_of_two obj_align)) || (api =? 0) || (config =? 0) then Err EINVAL
  else if (0 <? min_obj) && ((storage =? 0) || (bmp =? 0)) then Err EINVAL
  else if (min_obj <? max_obj) && (map =? 0) then Err EINVAL
  else
    let obj_align := if obj_align =? 0 then 1 else obj_align in
    Ok (mk_elc obj_size obj_align min_obj max_obj storage (negb (map =? 0)) (pool_fns min_obj max_obj)).

(** A pool: its storage, the keys of its map if it has one, and the heap. *)
Record elastic (H : Type) := mk_el { el_static : epool; el_map : option (gset Z); el_heap : H }.
Arguments mk_el {H} _ _ _.
Arguments el_static {H} _.
Arguments el_map {H} _.
Arguments el_heap {H} _.

Lemma size_add (a : Z) (x : gset Z) : a ∉ x -> Z.of_nat (size ({[a]} ∪ x)) = Z.of_nat (size x) + 1.
Proof. intros Hn. rewrite size_union by set_solver. rewrite size_singleton. lia. Qed.

Lemma size_del (a : Z) (x : gset Z) : a ∈ x -> Z.of_nat (size (x ∖ {[a]})) = Z.of_nat (size x) - 1.
Proof.
  intros Hi. assert (x = {[a]} ∪ x ∖ {[a]}) as Hx by (apply union_difference_L; set_solver).
  pose proof (size_add a (x ∖ {[a]}) ltac:(set_solver)) as Hs. rewrite <- Hx in Hs. lia.
Qed.

Section Elastic.
(** Bits of a word; the size and the alignment of an object. *)
Context (W obj_size obj_align : Z).
Context {H : Type} (heap_alloc : H -> Z -> Z -> Z -> option (H * Z)) (heap_free : H -> Z -> H).
(** sys_hashmap_insert: the error, if it fails. *)
Context (hashmap_insert : gset Z -> Z -> option errno).

Implicit Types (p : elastic H) (s : epool).

Definition with_size s (n : Z) : epool := mk_epool (ep_bmp s) n (ep_min s) (ep_max s) (ep_storage s) (ep_blk s).

(** ** Allocation *)

Definition sys_elastipool_api_alloc_dyn p (flags : Z) : elastic H * res Z :=
  match el_map p with
  | None => (p, Err ENOTSUP)
  | Some m =>
      let s := el_static p in
      if ep_size s =? ep_max s then (p, Err ENOMEM)
      else match heap_alloc (el_heap p) obj_size obj_align flags with
           | None => (p, Err ENOMEM)
           | Some (h, a) =>
               match hashmap_insert m a with
               | Some e => (mk_el s (Some m) (heap_free h a), Err e)
               | None => (mk_el (with_size s (ep_size s + 1)) (Some ({[a]} ∪ m)) h, Ok a)
               end
           end
  end.

Definition sys_elastipool_api_alloc_elastic p (flags : Z) : elastic H * res Z :=
  match sys_elastipool_api_alloc_static W (el_static p) with
  | Some (a, s) => (mk_el s (el_map p) (el_heap p), Ok a)
  | None => sys_elastipool_api_alloc_dyn p flags
  end.

(** ** Freeing *)

(** With no map sys_hashmap_remove follows NULL: [None]. *)
Definition sys_elastipool_api_free_dyn p (a : Z) : option (elastic H * res unit) :=
  let s := el_static p in
  if ep_size s =? 0 then Some (p, Err EINVAL)
  else match el_map p with
       | None => None
       | Some m =>
           if negb (bool_decide (a ∈ m)) then Some (p, Err EINVAL)
           else Some (mk_el (with_size s (ep_size s - 1)) (Some (m ∖ {[a]})) (heap_free (el_heap p) a), Ok tt)
       end.

Definition sys_elastipool_api_free_elastic p (a : Z) : option (elastic H * res unit) :=
  match sys_elastipool_api_free_static W (el_static p) a with
  | Some s => Some (mk_el s (el_map p) (el_heap p), Ok tt)
  | None => sys_elastipool_api_free_dyn p a
  end.

(** ** Checking *)

Definition sys_elastipool_api_check_dyn (hash_map : bool) p (a : Z) : res unit :=
  match el_map p with
  | Some m => if negb hash_map then Err ENOTSUP else if bool_decide (a ∈ m) then Ok tt else Err EINVAL
  | None => Err ENOTSUP
  end.

Definition sys_elastipool_api_check_elastic (hash_map : bool) p (a : Z) : res unit :=
  if sys_elastipool_api_check_static W (el_static p) a then Ok tt else sys_elastipool_api_check_dyn hash_map p a.

(** ** Clearing *)

(** memset of [n] bytes over the words of the bitmap, the low bytes of a word
    first; [None] is a write behind the last word. *)
Definition memset_words (bmp : list Z) (n : Z) : option (list Z) :=
  if Z.of_nat (length bmp) * (W / 8) <? n then None
  else Some (imap (fun i w => Z.ldiff w (Z.ones (Z.max 0 (Z.min W (8 * n - Z.of_nat i * W))))) bmp).

Definition sys_elastipool_api_clear_static s : option epool :=
  (fun bmp => mk_epool bmp 0 (ep_min s) (ep_max s) (ep_storage s) (ep_blk s)) <$> memset_words (ep_bmp s) (ep_min s * ep_blk s).

(** Every key is freed, in the order of the map. *)
Definition sys_elastipool_api_clear_dyn p : option (elastic H) :=
  m ← el_map p;
  Some (mk_el (with_size (el_static p) 0) (Some ∅) (fold_left heap_free (elements m) (el_heap p))).

Definition sys_elastipool_api_clear_elastic p : option (elastic H) :=
  s ← sys_elastipool_api_clear_static (el_static p);
  sys_elastipool_api_clear_dyn (mk_el s (el_map p) (el_heap p)).

(** ** What the heap promises *)

(** Memory of the heap is not in the storage: neither division of its offset,
    as a size_t when it is freed and as an int when it is checked, gives a
    block. *)
Definition outside s (a : Z) : Prop := ep_min s <= block_of W s a /\ ep_min s <= check_bit W s a.

(** The addresses of objects: the blocks and the memory of the heap. *)
Definition addressable s (a : Z) : Prop :=
  (exists b, 0 <= b < ep_min s /\ a = ep_storage s + b * ep_blk s) \/ outside s a.

Definition heap_laws (live : H -> gset Z) s : Prop :=
  (forall h n al f h' a, heap_alloc h n al f = Some (h', a) ->
     (a ∉ live h) /\ live h' = {[a]} ∪ live h /\ outside s a) /\
  (forall h a, live (heap_free h a) = live h ∖ {[a]}).

(** ** The invariant *)

(** The objects from the heap, and all the objects in use. *)
Definition el_dyn p : gset Z := default ∅ (el_map p).
Definition el_live p : gset Z := epool_live (el_static p) ∪ el_dyn p.

Record el_wf (live : H -> gset Z) p : Prop := {
  ew_static : epool_wf W (el_static p);
  ew_heap : heap_laws live (el_static p);
  ew_some : el_map p = Some (el_dyn p);
  ew_map : el_dyn p ⊆ live (el_heap p);
  ew_outside a : a ∈ el_dyn p -> outside (el_static p) a;
  ew_size : ep_size (el_static p) = Z.of_nat (size (epool_live (el_static p))) + Z.of_nat (size (el_dyn p));
  ew_dyn : Z.of_nat (size (el_dyn p)) <= ep_max (el_static p) - ep_min (el_static p);
}.

(** *** The blocks of the storage *)

Lemma find_zero_None w n i b : find_zero w n i = None -> i <= b < i + Z.of_nat n -> Z.testbit w b = true.
Proof.
  revert i. induction n as [|n IH]; intros i; [lia|]. cbn [find_zero]. destruct (Z.testbit w i) eqn:Hb; [|done].
  intros Hn Hr. destruct (decide (b = i)) as [->|]; [done|]. apply (IH (i + 1)); [done|lia].
Qed.

Lemma live_bits_NoDup s : NoDup (live_bits s).
Proof. apply NoDup_filter, NoDup_seqZ. Qed.

Lemma live_size s : 0 < ep_blk s -> size (epool_live s) = length (live_bits s).
Proof.
  intros Hb. unfold epool_live. rewrite size_list_to_set; [apply length_fmap|].
  apply NoDup_fmap_2_strong; [|apply live_bits_NoDup]. intros x y _ _ Hxy. nia.
Qed.

Lemma live_size_le s : 0 < ep_blk s -> 0 < ep_min s -> Z.of_nat (size (epool_live s)) <= ep_min s.
Proof.
  intros Hb Hm. rewrite live_size by done. unfold live_bits.
  pose proof (length_filter (fun b => Z.testbit (word0 s) b = true) (seqZ 0 (ep_min s))) as Hl.
  rewrite length_seqZ in Hl. lia.
Qed.

(** While a block is free, the static allocation finds one. *)
Lemma static_alloc_succeeds s :
  epool_wf W s -> ep_size s <> ep_max s -> Z.of_nat (size (epool_live s)) < ep_min s ->
  exists a s', sys_elastipool_api_alloc_static W s = Some (a, s').
Proof.
  intros Hwf Hmax Hlt. unfold sys_elastipool_api_alloc_static. rewrite (eqb_false _ _ Hmax).
  pose proof Hwf as ((w & Hw & _) & HW & Hmin & _ & Hblk & _). rewrite Hw. cbn [sys_elastipool_bmp_alloc].
  destruct (find_zero w (Z.to_nat (ep_min s)) 0) as [b|] eqn:Hf; [by eexists _, _|]. exfalso.
  enough (list_to_set ((fun b => ep_storage s + b * ep_blk s) <$> seqZ 0 (ep_min s)) ⊆ epool_live s) as Hsub.
  { apply subseteq_size in Hsub. rewrite size_list_to_set, length_fmap, length_seqZ in Hsub; [lia|].
    apply NoDup_fmap_2_strong; [|apply NoDup_seqZ]. intros x y _ _ ?. nia. }
  intros a. rewrite elem_of_list_to_set, list_elem_of_fmap, elem_of_live. intros (b & -> & Hb%elem_of_seqZ).
  exists b. rewrite (word0_one s w Hw). split_and!; [lia|lia| |done]. eapply find_zero_None; [done|lia].
Qed.

(** The static operations keep the geometry of the pool. *)
Lemma alloc_static_geom s a s' :
  sys_elastipool_api_alloc_static W s = Some (a, s') ->
  s' = mk_epool (ep_bmp s') (ep_size s + 1) (ep_min s) (ep_max s) (ep_storage s) (ep_blk s).
Proof. unfold sys_elastipool_api_alloc_static. by repeat case_match; intros; simplify_eq. Qed.

Lemma free_static_geom s a s' :
  sys_elastipool_api_free_static W s a = Some s' ->
  s' = mk_epool (ep_bmp s') (ep_size s - 1) (ep_min s) (ep_max s) (ep_storage s) (ep_blk s).
Proof. unfold sys_elastipool_api_free_static. by case_match; intros; simplify_eq. Qed.

(** An object of the heap is no block, so the static calls refuse it. *)
Lemma outside_not_live s a : epool_wf W s -> outside s a -> a ∉ epool_live s.
Proof. intros Hwf [Hb _] (b & Hr & _ & ->)%elem_of_live. rewrite block_of_addr in Hb by done. lia. Qed.

Lemma free_static_outside s a : outside s a -> sys_elastipool_api_free_static W s a = None.
Proof.
  intros [Hb _]. unfold sys_elastipool_api_free_static, sys_elastipool_bmp_free, sys_elastipool_bmp_check.
  by rewrite (proj2 (Z.leb_le _ _) Hb).
Qed.

(** A block of the storage that is not in use is refused. *)
Lemma free_static_dead s b :
  epool_wf W s -> 0 <= b < ep_min s -> ep_storage s + b * ep_blk s ∉ epool_live s ->
  sys_elastipool_api_free_static W s (ep_storage s + b * ep_blk s) = None.
Proof.
  intros Hwf Hb Hn. unfold sys_elastipool_api_free_static, sys_elastipool_bmp_free.
  rewrite block_of_addr, bmp_check_word by done. destruct (Z.testbit (word0 s) b) eqn:Ht; [|done].
  destruct Hn. apply elem_of_live. by exists b.
Qed.

(** *** The operations keep the invariant *)

Lemma el_live_mk s n m (h : H) : el_live (mk_el (with_size s n) (Some m) h) = epool_live s ∪ m.
Proof. done. Qed.

Lemma el_size_le live p : el_wf live p -> ep_size (el_static p) <= ep_max (el_static p).
Proof.
  intros [Hs _ _ _ _ -> Hd]. pose proof Hs as (_ & _ & ? & _ & ? & _).
  pose proof (live_size_le (el_static p) ltac:(done) ltac:(lia)). lia.
Qed.

Lemma alloc_elastic_wf live p flags p' r :
  el_wf live p -> sys_elastipool_api_alloc_elastic p flags = (p', r) ->
  el_wf live p' /\
  match r with
  | Ok a => (a ∉ el_live p) /\ el_live p' = {[a]} ∪ el_live p
  | Err _ => el_live p' = el_live p
  end.
Proof.
  intros Hwf. pose proof (el_size_le live p Hwf) as Hle. destruct Hwf as [Hs Hh Hm Hsub Hout Hsz Hd].
  unfold sys_elastipool_api_alloc_elastic.
  destruct (sys_elastipool_api_alloc_static W (el_static p)) as [[a s']|] eqn:Ha.
  - intros [= <- <-]. apply epool_alloc_spec in Ha as Hspec; [|done]. destruct Hspec as (Hn & Hl & _ & _ & Hw').
    pose proof (alloc_static_geom _ _ _ Ha) as Hg. unfold el_live, el_dyn in *. simpl.
    assert (a ∉ default ∅ (el_map p)) as Hnd.
    { intros Hin. apply Hout in Hin. destruct (outside_not_live s' a Hw'); [by rewrite Hg|]. rewrite Hl. set_solver. }
    split; [|split; [set_solver|rewrite Hl; set_solver]].
    rewrite Hg. rewrite Hg in Hw', Hl. constructor; unfold el_dyn; simpl; try done. rewrite Hl, size_add by done. lia.
  - unfold sys_elastipool_api_alloc_dyn. rewrite Hm.
    destruct (Z.eqb_spec (ep_size (el_static p)) (ep_max (el_static p))) as [|Hne]; [by intros [= <- <-]|].
    assert (ep_min (el_static p) <= Z.of_nat (size (epool_live (el_static p)))) as Hfull.
    { apply Z.nlt_ge. intros (x & y & Hxy)%static_alloc_succeeds; [congruence|done|done]. }
    destruct (heap_alloc _ _ _ _) as [[h a]|] eqn:Hal; [|by intros [= <- <-]].
    pose proof Hh as [Hall Hfree]. pose proof (Hall _ _ _ _ _ _ Hal) as (Hnl & Hlh & Ho).
    assert (a ∉ el_dyn p) by set_solver.
    destruct (hashmap_insert _ _); intros [= <- <-].
    + split; [|done].
      constructor; simpl; try done. change (el_dyn p ⊆ live (heap_free h a)). rewrite Hfree, Hlh. set_solver.
    + pose proof (outside_not_live _ a Hs Ho). rewrite el_live_mk. unfold el_live. split; [|split; set_solver].
      constructor; simpl; try done; try change (el_dyn (mk_el _ (Some ?m) _)) with m.
      * rewrite Hlh. set_solver.
      * intros x. rewrite elem_of_union, elem_of_singleton. intros [->|Hx]; [exact Ho|by apply Hout].
      * rewrite size_add by done. change (epool_live (with_size ?s ?n)) with (epool_live s). lia.
      * rewrite size_add by done. lia.
Qed.

Lemma free_elastic_wf live p a :
  el_wf live p -> a ∈ el_live p ->
  exists p', sys_elastipool_api_free_elastic p a = Some (p', Ok tt) /\ el_wf live p' /\
    el_live p' = el_live p ∖ {[a]} /\ sys_elastipool_api_free_elastic p' a = Some (p', Err EINVAL) /\
    addressable (el_static p) a /\ addressable (el_static p') a.
Proof using W H heap_alloc heap_free.
  clear hashmap_insert.
  intros Hwf Hin. pose proof Hwf as [Hs Hh Hm Hsub Hout Hsz Hd]. unfold el_live in Hin.
  apply elem_of_union in Hin as [Hin|Hin].
  - pose proof Hin as (b & Hb & _ & Hab)%elem_of_live.
    destruct (epool_free_live W _ a Hs Hin) as (s' & Hf & Hl & _ & _ & Hw').
    pose proof (free_static_geom _ _ _ Hf) as Hg. unfold sys_elastipool_api_free_elastic. rewrite Hf.
    assert (a ∉ el_dyn p) as Hnd by (intros Hx; exact (outside_not_live _ a Hs (Hout a Hx) Hin)).
    eexists. split; [done|]. unfold el_live. simpl. rewrite Hl. change (el_dyn (mk_el s' (el_map p) _)) with (el_dyn p).
    split; [|split; [set_solver|split; [|split]]].
    + rewrite Hg. rewrite Hg in Hw', Hl. constructor; simpl; try done. rewrite Hl, size_del by done.
      change (el_dyn (mk_el _ (el_map p) _)) with (el_dyn p). lia.
    + assert (sys_elastipool_api_free_static W s' a = None) as ->.
      { subst a. rewrite Hg in Hl, Hw' |- *. eapply (free_static_dead (mk_epool _ _ _ _ _ _) b); [done|done|]. simpl. rewrite Hl. set_solver. }
      unfold sys_elastipool_api_free_dyn. simpl. rewrite Hm. case_match; [done|]. by rewrite bool_decide_false.
    + left. by exists b.
    + left. exists b. by rewrite Hg.
  - unfold sys_elastipool_api_free_elastic, sys_elastipool_api_free_dyn. rewrite free_static_outside by auto.
    rewrite Hm. pose proof (size_del a _ Hin) as Hdel.
    rewrite (eqb_false (ep_size _)) by (rewrite Hsz; lia). rewrite bool_decide_true by done. simpl.
    eexists. split; [done|]. pose proof (outside_not_live _ a Hs (Hout a Hin)). rewrite el_live_mk. unfold el_live. simpl.
    split; [|split; [set_solver|split; [|split]]].
    + constructor; simpl; try done; try change (el_dyn (mk_el _ (Some ?m) _)) with m.
      * rewrite (proj2 Hh). set_solver.
      * intros x Hx. apply Hout. set_solver.
      * change (epool_live (with_size ?s ?n)) with (epool_live s). lia.
      * lia.
    + rewrite free_static_outside by (by apply Hout). case_match; [done|]. rewrite bool_decide_false; [done|]. set_solver.
    + right. by apply Hout.
    + right. by apply Hout.
Qed.

(** ** A pool in use *)

Inductive el_op := ElAlloc (flags : Z) | ElFree (a : Z).

(** The state after one call; [None] when the call follows NULL. *)
Definition el_step p (o : el_op) : option (elastic H) :=
  match o with
  | ElAlloc flags => Some (sys_elastipool_api_alloc_elastic p flags).1
  | ElFree a => fst <$> sys_elastipool_api_free_elastic p a
  end.

Definition el_run p (os : list el_op) : option (elastic H) := foldl (fun q o => q ≫= fun q => el_step q o) (Some p) os.

(** A pointer into a block frees the block. *)
Lemma free_static_interior s a s' :
  epool_wf W s -> sys_elastipool_api_free_static W s a = Some s' ->
  let a' := ep_storage s + block_of W s a * ep_blk s in
  a' ∈ epool_live s /\ sys_elastipool_api_free_static W s a' = Some s'.
Proof.
  intros Hwf Hf a'. assert (0 <= block_of W s a) as Hpos.
  { destruct Hwf as (_ & ? & _ & _ & ? & _). apply Z.div_pos; [|done]. apply uwrap_range. lia. }
  assert (block_of W s a < ep_min s /\ Z.testbit (word0 s) (block_of W s a) = true) as [Hlt Hbit].
  { revert Hf. unfold sys_elastipool_api_free_static, sys_elastipool_bmp_free.
    destruct (Z.leb_spec (ep_min s) (block_of W s a)).
    - unfold sys_elastipool_bmp_check. by ztests.
    - rewrite bmp_check_word by (done || lia). by destruct (Z.testbit _ _). }
  split; [apply elem_of_live; by exists (block_of W s a)|].
  revert Hf. unfold sys_elastipool_api_free_static, a'. by rewrite block_of_addr.
Qed.

Lemma free_elastic_any live p a :
  el_wf live p -> exists p' r, sys_elastipool_api_free_elastic p a = Some (p', r) /\ el_wf live p'.
Proof.
  intros Hwf. pose proof (ew_some _ _ Hwf) as Hm.
  destruct (sys_elastipool_api_free_static W (el_static p) a) as [s'|] eqn:Hf.
  - destruct (free_static_interior _ _ _ (ew_static _ _ Hwf) Hf) as [Hin Hf'].
    destruct (free_elastic_wf live p _ Hwf (proj2 (elem_of_union _ _ _) (or_introl Hin))) as (p' & Hp & Hw & _).
    exists p', (Ok tt). revert Hp. unfold sys_elastipool_api_free_elastic. rewrite Hf, Hf'. by intros ->.
  - destruct (decide (a ∈ el_dyn p)) as [Hin|Hn].
    + destruct (free_elastic_wf live p a Hwf) as (p' & -> & Hw & _); [by apply elem_of_union_r|]. eauto.
    + exists p, (Err EINVAL). unfold sys_elastipool_api_free_elastic, sys_elastipool_api_free_dyn. rewrite Hf, Hm.
      rewrite bool_decide_false by done. by case_match.
Qed.

(** A check of the start of a block or of an object of the heap finds the
    objects in use. *)
Lemma check_elastic_spec live p a :
  el_wf live p -> addressable (el_static p) a ->
  sys_elastipool_api_check_elastic true p a = if decide (a ∈ el_live p) then Ok tt else Err EINVAL.
Proof.
  intros Hwf Ha. pose proof Hwf as [Hs _ Hm _ Hout _ _].
  unfold sys_elastipool_api_check_elastic, sys_elastipool_api_check_static, sys_elastipool_api_check_dyn.
  rewrite Hm. simpl. destruct Ha as [(b & Hb & ->)|Ho].
  - rewrite check_bit_addr, bmp_check_word by done. destruct (Z.testbit _ b) eqn:Hbit.
    + rewrite decide_True; [done|]. apply elem_of_union_l, elem_of_live. by exists b.
    + assert (ep_storage (el_static p) + b * ep_blk (el_static p) ∉ el_dyn p) as Hn.
      { intros [Ho _]%Hout. rewrite block_of_addr in Ho by done. lia. }
      rewrite bool_decide_false, decide_False; [done| |done].
      intros [(c & Hc & Hbit' & Heq)%elem_of_live|]%elem_of_union; [|done].
      assert (b = c) as -> by (destruct Hs as (_ & _ & _ & _ & ? & _); nia). congruence.
  - unfold sys_elastipool_bmp_check. rewrite (proj2 (Z.leb_le _ _) (proj2 Ho)). unfold bool_decide.
    pose proof (outside_not_live _ a Hs Ho). by repeat case_decide; try set_solver.
Qed.

(** No call of a well-formed pool follows NULL. *)
Lemma el_step_wf live p o : el_wf live p -> exists p', el_step p o = Some p' /\ el_wf live p'.
Proof.
  intros Hwf. destruct o as [flags|a]; simpl.
  - destruct (sys_elastipool_api_alloc_elastic p flags) as [p' r] eqn:Ha.
    apply (alloc_elastic_wf live) in Ha as [Hw _]; eauto.
  - destruct (free_elastic_any live p a Hwf) as (p' & r & -> & Hw). by exists p'.
Qed.

Lemma el_run_wf live p os : el_wf live p -> exists p', el_run p os = Some p' /\ el_wf live p'.
Proof.
  unfold el_run. revert p. induction os as [|o os IH]; intros p Hwf; cbn; [by exists p|].
  destruct (el_step_wf live p o Hwf) as (q & -> & Hq). by apply IH.
Qed.

(** While blocks of the storage are free, an allocation succeeds. *)
Lemma alloc_elastic_guaranteed live p flags :
  el_wf live p -> Z.of_nat (size (epool_live (el_static p))) < ep_min (el_static p) ->
  exists a, (sys_elastipool_api_alloc_elastic p flags).2 = Ok a.
Proof.
  intros [Hs _ _ _ _ Hsz Hd] Hlt. destruct (static_alloc_succeeds _ Hs ltac:(lia) Hlt) as (a & s' & Ha).
  exists a. unfold sys_elastipool_api_alloc_elastic. by rewrite Ha.
Qed.

(** C7: In a pool whose static blocks fit one word of the bitmap (1 to 32 or
    64 blocks; a larger one loses the blocks of the higher words when they are
    freed, see epool_free_high_block_lost), whose hash map exists and whose
    heap hands out memory that is not in use and not of the storage: after any
    calls of alloc and free with any pointers none has followed NULL;
    pool_size counts the blocks and heap objects in use and is at most
    max_obj; while a block of the storage is free an allocation succeeds (the
    guaranteed minimum); an allocation gives an object that is not in use, or
    leaves the objects as they were; and an object in use passes the check and
    can be freed, after which the check and a second free refuse it with
    EINVAL. *)
Theorem elastic_guarantee live p0 os :
  el_wf live p0 ->
  exists p, el_run p0 os = Some p /\
    ep_size (el_static p) = Z.of_nat (size (el_live p)) /\ ep_size (el_static p) <= ep_max (el_static p) /\
    (Z.of_nat (size (epool_live (el_static p))) < ep_min (el_static p) ->
     forall flags, exists a, (sys_elastipool_api_alloc_elastic p flags).2 = Ok a) /\
    (forall flags p' r, sys_elastipool_api_alloc_elastic p flags = (p', r) ->
       match r with
       | Ok a => (a ∉ el_live p) /\ el_live p' = {[a]} ∪ el_live p
       | Err _ => el_live p' = el_live p
       end) /\
    (forall a, a ∈ el_live p ->
       sys_elastipool_api_check_elastic true p a = Ok tt /\
       exists p', sys_elastipool_api_free_elastic p a = Some (p', Ok tt) /\ el_live p' = el_live p ∖ {[a]} /\
         sys_elastipool_api_check_elastic true p' a = Err EINVAL /\
         sys_elastipool_api_free_elastic p' a = Some (p', Err EINVAL)).
Proof.
  intros H0. destruct (el_run_wf live p0 os H0) as (p & Hp & Hwf). exists p. split; [done|].
  split; [rewrite (ew_size _ _ Hwf); unfold el_live; rewrite size_union; [lia|]|].
  { intros a Ha Hd. exact (outside_not_live _ a (ew_static _ _ Hwf) (ew_outside _ _ Hwf a Hd) Ha). }
  split; [by eapply el_size_le|]. split; [intros Hlt flags; by eapply alloc_elastic_guaranteed|].
  split; [intros flags p' r Ha; by apply (alloc_elastic_wf live) in Ha as [_ ?]|].
  intros a Ha. destruct (free_elastic_wf live p a Hwf Ha) as (p' & Hf & Hw & Hl & Hff & Had & Had').
  rewrite (check_elastic_spec live p a Hwf Had), decide_True by done. split; [done|].
  exists p'. rewrite (check_elastic_spec live p' a Hw Had'), decide_False by (rewrite Hl; set_solver). done.
Qed.
End Elastic.

(** ** A pool of two blocks and at most four objects *)

Definition bump_alloc (h : Z * gset Z) (n al flags : Z) : option ((Z * gset Z) * Z) :=
  let a := round_up (fst h) al in
  if bool_decide (a ∈ snd h) || negb ((0x2000 <=? a) && (a <? 0x3000)) then None
  else Some ((a + n, {[a]} ∪ snd h), a).
Definition bump_free (h : Z * gset Z) (a : Z) : Z * gset Z := (fst h, snd h ∖ {[a]}).
Definition map_grows (m : gset Z) (a : Z) : option errno := if (2 <=? Z.of_nat (size m)) then Some ENOMEM else None.
Definition demo_pool : elastic (Z * gset Z) := mk_el (mk_epool [0] 0 2 4 0x1000 16) (Some ∅) (0x2000, ∅).

Lemma demo_outside a : 0x2000 <= a < 0x3000 -> outside 64 (el_static demo_pool) a.
Proof.
  intros Ha. assert (block_of 64 (el_static demo_pool) a = (a - 0x1000) / 16) as Hb.
  { unfold block_of, el_static, demo_pool, ep_storage, ep_blk. rewrite uwrap_id; [done|].
    unfold in_u. apply andb_true_iff. split; lia. }
  assert (256 <= (a - 0x1000) / 16 < 512) as Hr by (split; [apply Z.div_le_lower_bound|apply Z.div_lt_upper_bound]; lia).
  split; [rewrite Hb; simpl; lia|]. unfold check_bit. rewrite Hb, swrap_id; [|lia|unfold in_s; simpl; lia].
  rewrite uwrap_id; [simpl; lia|]. unfold in_u. apply andb_true_iff. split; lia.
Qed.

Lemma demo_pool_wf : el_wf 64 bump_alloc bump_free snd demo_pool.
Proof.
  constructor; try done.
  - split; [exists 0; split; [done|lia]|]. simpl. split_and!; try lia. done.
  - split; [|done]. intros h n al f h' a. unfold bump_alloc.
    destruct (bool_decide_reflect (round_up (fst h) al ∈ snd h)) as [|Hn]; [done|]. simpl.
    destruct (negb _) eqn:Hr; [done|]. intros [= <- <-]. apply negb_false_iff, andb_true_iff in Hr.
    split; [done|]. split; [done|]. apply demo_outside. lia.
Qed.

Definition demo_ops : list el_op := [ElAlloc 0; ElAlloc 0; ElAlloc 0; ElFree 0x1005; ElFree 0x4444; ElAlloc 0; ElAlloc 0; ElAlloc 0].

Lemma elastic_guarantee_witness :
  (exists p, el_run 64 16 8 bump_alloc bump_free map_grows demo_pool demo_ops = Some p /\
     ep_size (el_static p) = Z.of_nat (size (el_live p)) /\ ep_size (el_static p) <= 4) /\
  (ep_size ∘ el_static <$> el_run 64 16 8 bump_alloc bump_free map_grows demo_pool demo_ops) = Some 4.
Proof.
  split; [|vm_compute; reflexivity].
  destruct (elastic_guarantee 64 16 8 bump_alloc bump_free map_grows snd demo_pool demo_ops demo_pool_wf)
    as (p & Hp & Hs & Hm & _).
  exists p. split; [exact Hp|]. split; [exact Hs|].
  revert Hp. vm_compute el_run. intros [= <-]. vm_compute. discriminate.
Defined.

(** ** Clearing a pool *)

(** clear_static clears as many bytes of the bitmap as the storage has: for
    two blocks of 16 bytes, 32 bytes of a bitmap of one word. *)
Lemma clear_static_overruns : sys_elastipool_api_clear_static 64 (el_static demo_pool) = None.
Proof. reflexivity. Qed.

(** sys_elastipool_init refuses a minimum of zero, so the functions of a pool
    without storage are only reached through SYS_ELASTIPOOL_DEFINE. *)
Lemma init_never_dyn api config obj_size obj_align min_obj max_obj storage bmp map c :
  sys_elastipool_init api config obj_size obj_align min_obj max_obj storage bmp map = Ok c ->
  c_kind c <> PoolDyn /\ c_align c <> 0.
Proof.
  unfold sys_elastipool_init, pool_fns. destruct (Z.eqb_spec min_obj 0) as [|Hm]; [by rewrite orb_true_r|].
  repeat case_match; try done; intros; simplify_eq; simpl; split; try done; lia.
Qed.
