(* ===== verification/KObj.v ===== *)
(** * Kernel mutexes, condition variables and stacks from pools

    The patches k-mutex-nonrecursive.patch (types of kernel/mutex.c),
    k-condvar-clockwait.patch (clocks of kernel/condvar.c) and the pools of
    sys-thread.patch (lib/os/thread.c): sys_mutex_alloc and destroy,
    sys_condvar_alloc and destroy, sys_thread_stack_alloc and destroy.

    The pools are used through the interface [ObjPool], which the elastic and
    the static pools of [Elastic] and [Pool] implement.  The memory mapping of
    the kernel, its clocks and the wait of a condition variable are
    parameters. *)

From stdpp Require Import base gmap sets list.
From Stdlib Require Import ZArith Lia.
From S2P Require Import Prelude Kernel Pool Elastic.

Import Epool.
Local Open Scope Z_scope.

(** ** What the users of a pool rely on *)

Class ObjPool (P : Type) := {
  op_alloc : P -> P * res Z;
  op_check : P -> Z -> res unit;
  op_free : P -> Z -> option (P * res unit);
  op_live : P -> gset Z;
  op_wf : P -> Prop;
}.

Class ObjPoolLaws (P : Type) `{ObjPool P} : Prop := {
  op_alloc_ok p p' r : op_wf p -> op_alloc p = (p', r) ->
    op_wf p' /\ match r with
                | Ok a => (a ∉ op_live p) /\ op_live p' = {[a]} ∪ op_live p
                | Err _ => op_live p' = op_live p
                end;
  op_check_ok p a : op_wf p -> a ∈ op_live p -> op_check p a = Ok tt;
  op_free_ok p a : op_wf p -> a ∈ op_live p ->
    exists p', op_free p a = Some (p', Ok tt) /\ op_wf p' /\ op_live p' = op_live p ∖ {[a]} /\
               op_check p' a = Err EINVAL;
}.

(** A pool with min_obj below max_obj. *)
Section ElasticPool.
Context (W obj_size obj_align : Z).
Context {H : Type} (heap_alloc : H -> Z -> Z -> Z -> option (H * Z)) (heap_free : H -> Z -> H).
Context (hashmap_insert : gset Z -> Z -> option errno) (live : H -> gset Z).

Definition elastic_obj_pool : ObjPool (elastic H) := {|
  op_alloc p := sys_elastipool_api_alloc_elastic W obj_size obj_align heap_alloc heap_free hashmap_insert p 0;
  op_check := sys_elastipool_api_check_elastic W true;
  op_free := sys_elastipool_api_free_elastic W heap_free;
  op_live := el_live;
  op_wf := el_wf W heap_alloc heap_free live;
|}.

Lemma elastic_obj_pool_laws : @ObjPoolLaws _ elastic_obj_pool.
Proof.
  split; simpl.
  - intros p p' r Hwf Ha. exact (alloc_elastic_wf _ _ _ _ _ _ live p 0 p' r Hwf Ha).
  - intros p a Hwf Ha. destruct (free_elastic_wf _ _ _ live p a Hwf Ha) as (_ & _ & _ & _ & _ & Had & _).
    rewrite (check_elastic_spec _ _ _ live p a Hwf Had). by rewrite decide_True.
  - intros p a Hwf Ha. destruct (free_elastic_wf _ _ _ live p a Hwf Ha) as (p' & Hf & Hw & Hl & _ & _ & Had').
    exists p'. split_and!; [done|done|done|]. rewrite (check_elastic_spec _ _ _ live p' a Hw Had').
    rewrite decide_False; [done|]. rewrite Hl. set_solver.
Qed.
End ElasticPool.

(** A pool whose minimum is its maximum. *)
Section StaticPool.
Context (W : Z).

Definition static_obj_pool : ObjPool epool := {|
  op_alloc p := match sys_elastipool_api_alloc_static W p with Some (a, p') => (p', Ok a) | None => (p, Err ENOMEM) end;
  op_check p a := if sys_elastipool_api_check_static W p a then Ok tt else Err EINVAL;
  op_free p a := match sys_elastipool_api_free_static W p a with Some p' => Some (p', Ok tt) | None => Some (p, Err EINVAL) end;
  op_live := epool_live;
  op_wf := epool_wf W;
|}.

Lemma static_check_iff p a :
  epool_wf W p -> (exists b, 0 <= b < ep_min p /\ a = ep_storage p + b * ep_blk p) ->
  sys_elastipool_api_check_static W p a = bool_decide (a ∈ epool_live p).
Proof.
  intros Hwf (b & Hb & ->). apply eq_true_iff_eq. rewrite bool_decide_eq_true, (epool_check_spec W p) by done.
  unfold epool_block. rewrite check_bit_addr by done. by ztests.
Qed.

Lemma static_obj_pool_laws : @ObjPoolLaws _ static_obj_pool.
Proof.
  split; simpl.
  - intros p p' r Hwf. destruct (sys_elastipool_api_alloc_static W p) as [[a q]|] eqn:Ha; intros [= <- <-]; [|done].
    apply epool_alloc_spec in Ha as (? & ? & _ & _ & ?); done.
  - intros p a Hwf Ha. pose proof Ha as (b & Hb & _ & Heq)%elem_of_live.
    rewrite static_check_iff; [by rewrite bool_decide_true|done|by exists b].
  - intros p a Hwf Ha. pose proof Ha as (b & Hb & _ & Heq)%elem_of_live.
    destruct (epool_free_live W p a Hwf Ha) as (p' & Hf & Hl & _ & _ & Hw). rewrite Hf.
    exists p'. split_and!; [done|done|done|]. pose proof (free_static_geom _ _ _ _ Hf) as Hg.
    rewrite static_check_iff; [|done|exists b; by rewrite Hg]. rewrite bool_decide_false; [done|]. rewrite Hl. set_solver.
Qed.
End StaticPool.

(** ** Types of mutexes *)

Definition K_MUTEX_RECURSIVE : Z := 0.
Definition K_MUTEX_NORMAL : Z := 1.
Definition K_MUTEX_ERRORCHECK : Z := 2.
Definition K_MUTEX_TYPE_MASK : Z := 7.
Definition K_MUTEX_TYPE (opts : Z) : Z := Z.land opts K_MUTEX_TYPE_MASK.

(** owner (None is NULL), lock_count and options. *)
Record k_mutex := mk_mutex { m_owner : option Z; m_count : Z; m_options : Z }.

(** CONFIG_MUTEX_OPTIONS, CONFIG_MUTEX_NONRECURSIVE, CONFIG_MUTEX_ERRORCHECK. *)
Record mutex_config := mk_mcfg { cfg_options : bool; cfg_nonrecursive : bool; cfg_errorcheck : bool }.

Section Mutex.
Context (cfg : mutex_config).

Definition z_impl_k_mutex_init : k_mutex := mk_mutex None 0 K_MUTEX_RECURSIVE.

Definition z_impl_k_mutex_init_ext (options : Z) : res k_mutex :=
  let type := K_MUTEX_TYPE options in
  if (type =? K_MUTEX_RECURSIVE) || (cfg_nonrecursive cfg && (type =? K_MUTEX_NORMAL)) ||
     (cfg_errorcheck cfg && (type =? K_MUTEX_ERRORCHECK)) then
    let m := z_impl_k_mutex_init in
    Ok (mk_mutex (m_owner m) (m_count m) (Z.lor (Z.ldiff (m_options m) K_MUTEX_TYPE_MASK) type))
  else Err EINVAL.

Definition z_mutex_gettype (m : k_mutex) : Z := if cfg_options cfg then K_MUTEX_TYPE (m_options m) else K_MUTEX_RECURSIVE.

(** What k_mutex_lock does before it waits: take the mutex, return an error,
    or wait for its owner. *)
Inductive lock_path := Take | Refuse (e : errno) | Wait.

Definition mutex_lock_path (m : k_mutex) (current : Z) (no_wait : bool) : lock_path :=
  let recursive := z_mutex_gettype m =? K_MUTEX_RECURSIVE in
  let errorcheck := z_mutex_gettype m =? K_MUTEX_ERRORCHECK in
  let mine := bool_decide (m_owner m = Some current) in
  if (m_count m =? 0) || (recursive && mine) then Take
  else if negb recursive && mine && errorcheck then Refuse EDEADLK
  else if no_wait then Refuse EBUSY
  else Wait.
End Mutex.

(** ** Clocks of condition variables *)

Section Condvar.
(** The clock numbers, each of 3 bits. *)
Context (SYS_CLOCK_REALTIME SYS_CLOCK_MONOTONIC : Z).
Definition SYS_CLOCK_MASK : Z := 7.

(** A condition variable is its options; its queue is the kernel's. *)
Definition z_impl_k_condvar_init : Z := SYS_CLOCK_REALTIME.

Definition z_impl_k_condvar_init_ext (options : Z) : res Z :=
  let clock := Z.land SYS_CLOCK_MASK options in
  if (clock =? SYS_CLOCK_REALTIME) || (clock =? SYS_CLOCK_MONOTONIC) then Ok z_impl_k_condvar_init else Err EINVAL.

Context {K T : Type} (timespec_is_valid : T -> bool).
(** sys_timepoint_timeout(timespec_abs_to_timepoint(clock, abstime)) on the
    clock's current time, [None] when it has passed. *)
Context (clock_timeout : K -> Z -> T -> option Z).
(** k_condvar_wait: success, or the negative error. *)
Context (k_condvar_wait : K -> Z -> Z -> Z -> K * res unit).

Definition z_impl_k_condvar_clockwait (k : K) (condvar mutex clock_id : Z) (abstime : T) : K * cret :=
  if negb ((clock_id =? SYS_CLOCK_REALTIME) || (clock_id =? SYS_CLOCK_MONOTONIC)) then (k, RNegErr EINVAL)
  else if negb (timespec_is_valid abstime) then (k, RErr EINVAL)
  else match clock_timeout k clock_id abstime with
       | None => (k, RNegErr ETIMEDOUT)
       | Some timeout =>
           match k_condvar_wait k condvar mutex timeout with
           | (k', Ok _) => (k', RZero)
           | (k', Err EAGAIN) => (k', RNegErr ETIMEDOUT)
           | (k', Err e) => (k', RNegErr e)
           end
       end.

Definition z_impl_k_condvar_timedwait (k : K) (condvar options mutex : Z) (abstime : T) : K * cret :=
  z_impl_k_condvar_clockwait k condvar mutex (Z.land SYS_CLOCK_MASK options) abstime.
End Condvar.

(** ** Objects from a pool *)

Record kpool (P A : Type) := mk_kpool { kp_pool : P; kp_obj : gmap Z A }.
Arguments mk_kpool {P A} _ _.
Arguments kp_pool {P A} _.
Arguments kp_obj {P A} _.

Section Objects.
Context {P : Type} `{ObjPool P}.
(** CONFIG_SYS_THREAD_MUTEX_MAX or CONFIG_SYS_THREAD_CONDVAR_MAX. *)
Context (pool_max : Z).

Section MutexPool.
Context (cfg : mutex_config).
Implicit Types s : kpool P k_mutex.

Definition z_impl_sys_mutex_alloc s (options : Z) : option (kpool P k_mutex * res Z) :=
  if pool_max =? 0 then Some (s, Err ENOTSUP)
  else match op_alloc (kp_pool s) with
       | (p, Err e) => Some (mk_kpool p (kp_obj s), Err e)
       | (p, Ok a) =>
           match z_impl_k_mutex_init_ext cfg options with
           | Ok m => Some (mk_kpool p (<[a := m]> (kp_obj s)), Ok a)
           | Err e => '(p, _) ← op_free p a; Some (mk_kpool p (kp_obj s), Err e)
           end
       end.

(** The object at an address, whose memory is given back to the pool: it may no
    longer be read. *)
Definition release {A} (o : gmap Z A) (a : Z) (r : res unit) : gmap Z A :=
  match r with Ok _ => delete a o | Err _ => o end.

(** The lock count is read before the address is checked: [None] when there
    is no mutex at it, as after it was destroyed. *)
Definition z_impl_sys_mutex_destroy s (a : Z) : option (kpool P k_mutex * res unit) :=
  if pool_max =? 0 then Some (s, Err ENOTSUP)
  else
    m ← kp_obj s !! a;
    if negb (m_count m =? 0) then Some (s, Err EBUSY)
    else match op_check (kp_pool s) a with
         | Err _ => Some (s, Err EINVAL)
         | Ok _ => '(p, r) ← op_free (kp_pool s) a; Some (mk_kpool p (release (kp_obj s) a r), r)
         end.
End MutexPool.

Section CondvarPool.
Context (SYS_CLOCK_REALTIME SYS_CLOCK_MONOTONIC : Z).
Implicit Types s : kpool P Z.

Definition z_impl_sys_condvar_alloc s (options : Z) : option (kpool P Z * res Z) :=
  if pool_max =? 0 then Some (s, Err ENOTSUP)
  else match op_alloc (kp_pool s) with
       | (p, Err e) => Some (mk_kpool p (kp_obj s), Err e)
       | (p, Ok a) =>
           match z_impl_k_condvar_init_ext SYS_CLOCK_REALTIME SYS_CLOCK_MONOTONIC options with
           | Ok c => Some (mk_kpool p (<[a := c]> (kp_obj s)), Ok a)
           | Err e => '(p, _) ← op_free p a; Some (mk_kpool p (kp_obj s), Err e)
           end
       end.

Definition z_impl_sys_condvar_destroy s (a : Z) : option (kpool P Z * res unit) :=
  if pool_max =? 0 then Some (s, Err ENOTSUP)
  else match op_check (kp_pool s) a with
       | Err _ => Some (s, Err EINVAL)
       | Ok _ => '(p, r) ← op_free (kp_pool s) a; Some (mk_kpool p (release (kp_obj s) a r), r)
       end.
End CondvarPool.
End Objects.

(** ** Mutexes: types, allocation and destruction *)

(** Who may lock a mutex of a type: everyone a free one, its owner a recursive
    one; the owner of an error-checking one gets EDEADLK, and the others wait
    or, if they may not wait, get EBUSY. *)
Definition lock_spec (type : Z) (owner : option Z) (current : Z) (no_wait : bool) : lock_path :=
  let waits := if no_wait then Refuse EBUSY else Wait in
  match owner with
  | None => Take
  | Some o => if decide (o = current)
              then if type =? K_MUTEX_RECURSIVE then Take else if type =? K_MUTEX_ERRORCHECK then Refuse EDEADLK else waits
              else waits
  end.

Lemma lock_path_spec cfg m current no_wait :
  cfg_options cfg = true -> (m_count m = 0 <-> m_owner m = None) ->
  mutex_lock_path cfg m current no_wait = lock_spec (K_MUTEX_TYPE (m_options m)) (m_owner m) current no_wait.
Proof.
  intros Hc Ho. unfold mutex_lock_path, z_mutex_gettype, lock_spec. rewrite Hc.
  destruct (m_owner m) as [o|]; [|by rewrite (proj2 (Z.eqb_eq _ _)) by (by apply Ho)].
  rewrite (eqb_false (m_count m)) by (by intros ?%Ho). simpl.
  destruct (decide (o = current)) as [->|Hne].
  - rewrite bool_decide_true by done. rewrite !andb_true_r.
    destruct (Z.eqb_spec (K_MUTEX_TYPE (m_options m)) K_MUTEX_RECURSIVE); [done|]. simpl.
    by destruct (_ =? _).
  - rewrite bool_decide_false by (intros [= ?]; done). by rewrite !andb_false_r.
Qed.

Lemma mutex_init_ext_type cfg options m :
  z_impl_k_mutex_init_ext cfg options = Ok m ->
  m = mk_mutex None 0 (K_MUTEX_TYPE options) /\ K_MUTEX_TYPE (m_options m) = K_MUTEX_TYPE options.
Proof.
  unfold z_impl_k_mutex_init_ext. case_match; [|done]. rewrite Z.lor_0_l. intros [= <-]. split; [done|].
  cbn [m_options]. unfold K_MUTEX_TYPE. by rewrite <- Z.land_assoc.
Qed.

Section ObjectLaws.
Context {P : Type} `{ObjPoolLaws P} (pool_max : Z).

(** Every object of the pool that is in use has been initialised. *)
Definition kp_ok {A} (s : kpool P A) : Prop := op_wf (kp_pool s) /\ op_live (kp_pool s) ⊆ dom (kp_obj s).

Lemma kp_ok_insert {A} (p : P) (o : gmap Z A) a x :
  op_wf p -> op_live p ⊆ {[a]} ∪ dom o -> kp_ok (mk_kpool p (<[a := x]> o)).
Proof. intros Hw Hl. split; [done|]. simpl. rewrite dom_insert_L. set_solver. Qed.

(** An object is freed when its initialisation fails. *)
Lemma alloc_undone (p p' : P) a :
  op_wf p -> op_alloc p = (p', Ok a) ->
  exists q, op_free p' a = Some (q, Ok tt) /\ op_wf q /\ op_live q = op_live p.
Proof.
  intros Hw Ha. destruct (op_alloc_ok p p' _ Hw Ha) as (Hw' & Hn & Hl).
  destruct (op_free_ok p' a Hw') as (q & Hf & Hq & Hlq & _); [set_solver|].
  exists q. split_and!; [done|done|]. rewrite Hlq, Hl. set_solver.
Qed.

(** C32: With CONFIG_MUTEX_OPTIONS and a pool that is not disabled and keeps
    the interface of object pools: sys_mutex_alloc gives a mutex that is not
    in use, free, and of the type asked for, or an error that leaves nothing
    more in use, EINVAL or the pool's when the type is not supported; locking
    it follows its type; sys_mutex_destroy refuses a locked mutex of the pool
    with EBUSY and changes nothing, and gives a free one back to the pool,
    after which its memory may not be read.  A second sys_mutex_destroy does
    read it, before it checks the address: the call is undefined; where the
    memory is still readable and holds a lock count of zero, as the block of a
    static pool does, it is refused with EINVAL. *)
Theorem sys_mutex_contract cfg (s : kpool P k_mutex) :
  kp_ok s -> pool_max <> 0 -> cfg_options cfg = true ->
  (forall options, exists s' r,
     z_impl_sys_mutex_alloc pool_max cfg s options = Some (s', r) /\ kp_ok s' /\
     match r with
     | Err _ => op_live (kp_pool s') = op_live (kp_pool s) /\ kp_obj s' = kp_obj s
     | Ok a =>
         (a ∉ op_live (kp_pool s)) /\ op_live (kp_pool s') = {[a]} ∪ op_live (kp_pool s) /\
         exists m, kp_obj s' = <[a := m]> (kp_obj s) /\ m_owner m = None /\ m_count m = 0 /\
           (forall th n, mutex_lock_path cfg m th n = Take) /\
           (forall o count th n, 0 < count ->
              mutex_lock_path cfg (mk_mutex (Some o) count (m_options m)) th n =
              lock_spec (K_MUTEX_TYPE options) (Some o) th n)
     end /\
     (z_impl_k_mutex_init_ext cfg options = Err EINVAL -> forall a, r <> Ok a)) /\
  (forall a, a ∈ op_live (kp_pool s) ->
     exists m, kp_obj s !! a = Some m /\
       (m_count m <> 0 -> z_impl_sys_mutex_destroy pool_max s a = Some (s, Err EBUSY)) /\
       (m_count m = 0 -> exists s', z_impl_sys_mutex_destroy pool_max s a = Some (s', Ok tt) /\ kp_ok s' /\
          op_live (kp_pool s') = op_live (kp_pool s) ∖ {[a]} /\
          kp_obj s' = delete a (kp_obj s) /\ z_impl_sys_mutex_destroy pool_max s' a = None /\
          forall m', m_count m' = 0 ->
            let s'' := mk_kpool (kp_pool s') (<[a := m']> (kp_obj s')) in
            z_impl_sys_mutex_destroy pool_max s'' a = Some (s'', Err EINVAL))).
Proof.
  intros [Hw Hd] Hmax Hc. split.
  - intros options. unfold z_impl_sys_mutex_alloc. rewrite (eqb_false _ _ Hmax).
    destruct (op_alloc (kp_pool s)) as [p [a|e]] eqn:Ha; pose proof (op_alloc_ok _ _ _ Hw Ha) as [Hw' Hl].
    + destruct (z_impl_k_mutex_init_ext cfg options) as [m|e] eqn:Hm.
      * apply mutex_init_ext_type in Hm as [Hm Ht]. destruct Hl as [Hn Hl].
        eexists _, _. split; [done|]. split; [apply kp_ok_insert; set_solver|]. split; [|done].
        split; [done|]. split; [done|]. exists m. split; [done|]. split; [by rewrite Hm|]. split; [by rewrite Hm|]. split.
        { intros th n. rewrite lock_path_spec; [|done|by rewrite Hm]. by rewrite Hm. }
        intros o count th n Hpos. rewrite lock_path_spec by (done || (simpl; split; [lia|done])). simpl. by rewrite Ht.
      * destruct (alloc_undone _ _ _ Hw Ha) as (q & -> & Hq & Hlq). simpl. eexists _, _. split; [done|].
        split; [split; [done|]; simpl; by rewrite Hlq|]. done.
    + eexists _, _. split; [done|]. split; [split; [done|]; simpl; by rewrite Hl|]. done.
  - intros a Ha. destruct (proj1 (elem_of_dom (kp_obj s) a) ltac:(set_solver)) as [m Hm]. exists m.
    split; [done|]. unfold z_impl_sys_mutex_destroy. rewrite (eqb_false _ _ Hmax), Hm. simpl.
    split; [intros Hne; by rewrite (eqb_false _ _ Hne)|]. intros Hz. rewrite (proj2 (Z.eqb_eq _ _) Hz).
    rewrite (op_check_ok _ a Hw Ha). destruct (op_free_ok _ a Hw Ha) as (q & -> & Hq & Hlq & Hck). simpl.
    eexists. split; [done|]. split; [split; [done|]; simpl; rewrite dom_delete_L; set_solver|]. split; [done|].
    split; [done|]. cbn [release kp_obj kp_pool]. rewrite lookup_delete_eq. split; [done|].
    intros m' Hm'. rewrite lookup_insert_eq. simpl. by rewrite (proj2 (Z.eqb_eq _ _) Hm'), Hck.
Qed.
End ObjectLaws.

(** The pool of two blocks and at most four objects of [Elastic]. *)
#[local] Instance demo_obj_pool : ObjPool (elastic (Z * gset Z)) :=
  elastic_obj_pool 64 16 8 bump_alloc bump_free map_grows snd.
#[local] Instance demo_obj_pool_laws : ObjPoolLaws (elastic (Z * gset Z)) :=
  elastic_obj_pool_laws 64 16 8 bump_alloc bump_free map_grows snd.

Definition all_types : mutex_config := mk_mcfg true true true.
Definition demo_mutexes : kpool (elastic (Z * gset Z)) k_mutex := mk_kpool demo_pool ∅.

Lemma demo_mutexes_ok : kp_ok demo_mutexes.
Proof. split; [exact demo_pool_wf|]. intros x Hx. vm_compute in Hx. discriminate Hx. Qed.

Lemma sys_mutex_contract_witness :
  (exists s' r, z_impl_sys_mutex_alloc 4 all_types demo_mutexes K_MUTEX_ERRORCHECK = Some (s', r) /\ kp_ok s') /\
  (match z_impl_sys_mutex_alloc 4 all_types demo_mutexes K_MUTEX_ERRORCHECK with
   | Some (s', Ok a) => kp_obj s' !! a = Some (mk_mutex None 0 2) /\
       (snd <$> z_impl_sys_mutex_destroy 4 s' a) = Some (Ok tt)
   | _ => False
   end).
Proof.
  split; [|vm_compute; split; reflexivity].
  destruct (sys_mutex_contract 4 all_types demo_mutexes demo_mutexes_ok ltac:(discriminate) eq_refl) as [Ha _].
  destruct (Ha K_MUTEX_ERRORCHECK) as (s' & r & H1 & H2 & _). exists s', r. split; [exact H1|exact H2].
Defined.

(** ** The clock of a condition variable *)

(** k_condvar_init_ext stores the options and then calls k_condvar_init, which
    sets them to the real-time clock: whatever clock a condition variable is
    made with, k_condvar_timedwait measures time on the real-time clock. *)
Lemma condvar_clock_lost {K T} rt mono valid timeout wait (k : K) options c cv mu (abstime : T) :
  Z.land SYS_CLOCK_MASK rt = rt -> z_impl_k_condvar_init_ext rt mono options = Ok c ->
  z_impl_k_condvar_timedwait rt mono valid timeout wait k cv c mu abstime =
  z_impl_k_condvar_clockwait rt mono valid timeout wait k cv mu rt abstime.
Proof.
  intros Hrt. unfold z_impl_k_condvar_init_ext. case_match; [|done]. intros [= <-].
  unfold z_impl_k_condvar_timedwait, z_impl_k_condvar_init. by rewrite Hrt.
Qed.

(** An invalid time is refused with the positive error number. *)
Lemma clockwait_positive {K T} rt mono valid timeout wait (k : K) cv mu (abstime : T) :
  valid abstime = false -> z_impl_k_condvar_clockwait rt mono valid timeout wait k cv mu rt abstime = (k, RErr EINVAL).
Proof. intros Hv. unfold z_impl_k_condvar_clockwait. by rewrite Z.eqb_refl, Hv. Qed.

(** ** Stacks *)

Section Stacks.
Context (W : Z).
(** CONFIG_SYS_THREAD_STACK_SIZE; the geometry of the pool is in it. *)
Context (STACK_SIZE : Z).
(** The memory of the kernel: k_mem_map and k_mem_unmap, and the size of the
    mapping for a stack of a size, in pages. *)
Context {M : Type} (k_mem_map : M -> Z -> option (M * Z)) (k_mem_unmap : M -> Z -> Z -> M) (map_size : Z -> Z).
(** sys_hashmap_insert: whether there is room. *)
Context (hashmap_room : gmap Z Z -> Z -> bool).

(** The static stacks with the counter, the hash map from mapped stacks to
    their sizes, and the memory of the kernel. *)
Record stacks := mk_stacks { sk_static : epool; sk_map : gmap Z Z; sk_mem : M }.

(** The first critical section of sys_thread_stack_alloc with
    CONFIG_SYS_THREAD_STACK_ALLOC_ANON: a static stack, an error, or a
    reservation of a stack of the size. *)
Inductive reserve_result := GotStatic (a : Z) | NoStack (e : errno) | Reserved (size : Z).

Definition stack_reserve (s : stacks) (stack_size : Z) : stacks * reserve_result :=
  let p := sk_static s in
  if ep_max p =? 0 then (s, NoStack ENOTSUP)
  else if (STACK_SIZE <? stack_size) && (ep_max p =? ep_min p) then (s, NoStack ENOMEM)
  else
    let stack_size := if stack_size <? STACK_SIZE then STACK_SIZE else stack_size in
    let anon :=
      if ep_max p <=? ep_size p then (s, NoStack ENOMEM)
      else (mk_stacks (with_size p (ep_size p + 1)) (sk_map s) (sk_mem s), Reserved stack_size) in
    if (stack_size <=? STACK_SIZE) && (0 <? ep_min p) then
      match sys_elastipool_api_alloc_static W p with
      | Some (a, p') => (mk_stacks p' (sk_map s) (sk_mem s), GotStatic a)
      | None => anon
      end
    else anon.

(** The mapping, made without the lock; NULL is [None]. *)
Definition stack_map (s : stacks) (stack_size : Z) : stacks * option Z :=
  match k_mem_map (sk_mem s) (map_size stack_size) with
  | None => (s, None)
  | Some (mem, a) => (mk_stacks (sk_static s) (sk_map s) mem, Some a)
  end.

(** The second critical section. *)
Definition stack_insert (s : stacks) (stack_size : Z) (mapped : option Z) : stacks * res Z :=
  let p := sk_static s in
  match mapped with
  | None => (mk_stacks (with_size p (ep_size p - 1)) (sk_map s) (sk_mem s), Err ENOMEM)
  | Some a =>
      if hashmap_room (sk_map s) a then (mk_stacks p (<[a := map_size stack_size]> (sk_map s)) (sk_mem s), Ok a)
      else (mk_stacks (with_size p (ep_size p - 1)) (sk_map s) (k_mem_unmap (sk_mem s) a (map_size stack_size)), Err ENOMEM)
  end.

(** sys_thread_stack_destroy; [in_use] is is_thread_stack_in_use. *)
Definition stack_destroy_dyn (s : stacks) (a : Z) (ret : errno) : stacks * res unit :=
  match sk_map s !! a with
  | Some n =>
      (mk_stacks (with_size (sk_static s) (ep_size (sk_static s) - 1)) (delete a (sk_map s)) (k_mem_unmap (sk_mem s) a n), Ok tt)
  | None => (s, Err ret)
  end.

Definition z_impl_sys_thread_stack_destroy (s : stacks) (in_use : bool) (a : Z) : stacks * res unit :=
  let p := sk_static s in
  if ep_max p =? 0 then (s, Err ENOTSUP)
  else if in_use then (s, Err EBUSY)
  else if 0 <? ep_min p then
    match sys_elastipool_api_free_static W p a with
    | Some p' => (mk_stacks p' (sk_map s) (sk_mem s), Ok tt)
    | None => stack_destroy_dyn s a EINVAL
    end
  else stack_destroy_dyn s a EINVAL.

(** *** Concurrent callers

    A caller that has reserved a stack, and one that has mapped it. *)
Inductive flight := FReserved (size : Z) | FMapped (size : Z) (mapped : option Z).

Record stk := mk_stk { stk_s : stacks; stk_fl : gmap Z flight }.

Inductive stk_step : stk -> stk -> Prop :=
  | stk_call t size s fl s' r : fl !! t = None -> stack_reserve s size = (s', r) ->
      stk_step (mk_stk s fl) (mk_stk s' (match r with Reserved n => <[t := FReserved n]> fl | _ => fl end))
  | stk_map t n s fl s' r : fl !! t = Some (FReserved n) -> stack_map s n = (s', r) ->
      stk_step (mk_stk s fl) (mk_stk s' (<[t := FMapped n r]> fl))
  | stk_insert t n m s fl s' r : fl !! t = Some (FMapped n m) -> stack_insert s n m = (s', r) ->
      stk_step (mk_stk s fl) (mk_stk s' (delete t fl))
  | stk_destroy b a s fl s' r : z_impl_sys_thread_stack_destroy s b a = (s', r) -> stk_step (mk_stk s fl) (mk_stk s' fl).

(** What k_mem_map and k_mem_unmap promise: fresh memory, not in the static
    stacks, which an unmap of the same size gives back. *)
Context (mapped : M -> gmap Z Z).

Definition mem_laws (p : epool) : Prop :=
  (forall m n m' a, k_mem_map m n = Some (m', a) ->
     mapped m !! a = None /\ mapped m' = <[a := n]> (mapped m) /\ outside W p a) /\
  (forall m a n, mapped m !! a = Some n -> mapped (k_mem_unmap m a n) = delete a (mapped m)).

(** The mapping of a caller that has not recorded it yet. *)
Definition held (fl : gmap Z flight) (t a n : Z) : Prop := exists size, fl !! t = Some (FMapped size (Some a)) /\ n = map_size size.

Record stk_ok (x : stk) : Prop := {
  so_static : epool_wf W (sk_static (stk_s x));
  so_laws : mem_laws (sk_static (stk_s x));
  so_size : ep_size (sk_static (stk_s x)) =
    Z.of_nat (size (epool_live (sk_static (stk_s x)))) + Z.of_nat (size (sk_map (stk_s x))) + Z.of_nat (size (stk_fl x));
  so_max : ep_size (sk_static (stk_s x)) <= ep_max (sk_static (stk_s x));
  so_mem a n : mapped (sk_mem (stk_s x)) !! a = Some n <-> sk_map (stk_s x) !! a = Some n \/ exists t, held (stk_fl x) t a n;
  so_held t a n : held (stk_fl x) t a n -> sk_map (stk_s x) !! a = None;
  so_one t u a n n' : held (stk_fl x) t a n -> held (stk_fl x) u a n' -> t = u;
  so_out a n : mapped (sk_mem (stk_s x)) !! a = Some n -> outside W (sk_static (stk_s x)) a;
}.

(** The callers after one of them moved. *)
Lemma held_insert fl t v u a n :
  held (<[t := v]> fl) u a n <->
  u = t /\ (exists size, v = FMapped size (Some a) /\ n = map_size size) \/ u <> t /\ held fl u a n.
Proof.
  unfold held. destruct (decide (t = u)) as [->|Hne].
  - rewrite lookup_insert_eq. naive_solver.
  - rewrite lookup_insert_ne by done. naive_solver.
Qed.

Lemma held_delete fl t u a n : held (delete t fl) u a n <-> u <> t /\ held fl u a n.
Proof.
  unfold held. destruct (decide (t = u)) as [->|Hne].
  - rewrite lookup_delete_eq. naive_solver.
  - rewrite lookup_delete_ne by done. naive_solver.
Qed.

(** A caller that starts, or that has no mapping, holds none. *)
Lemma held_quiet fl t v (Hv : forall size a, v <> Some (FMapped size (Some a))) u a n :
  fl !! t = v -> held fl u a n -> u <> t.
Proof. intros Ht (sz & Hu & _) ->. apply (Hv sz a). congruence. Qed.

Lemma insert_quiet fl t v u a n :
  (forall size b, v <> FMapped size (Some b)) -> (forall size b, fl !! t <> Some (FMapped size (Some b))) ->
  held (<[t := v]> fl) u a n <-> held fl u a n.
Proof.
  intros Hv Ht. rewrite held_insert. split; [naive_solver|]. intros Hh. right. split; [|done].
  by eapply held_quiet.
Qed.

Lemma delete_quiet fl t u a n :
  (forall size b, fl !! t <> Some (FMapped size (Some b))) -> held (delete t fl) u a n <-> held fl u a n.
Proof. intros Ht. rewrite held_delete. split; [naive_solver|]. intros Hh. split; [by eapply held_quiet|done]. Qed.

(** The callers may change as long as they hold the same mappings. *)
Lemma stk_ok_change s fl p' fl' :
  stk_ok (mk_stk s fl) -> epool_wf W p' ->
  (ep_min p', ep_max p', ep_storage p', ep_blk p') =
    (ep_min (sk_static s), ep_max (sk_static s), ep_storage (sk_static s), ep_blk (sk_static s)) ->
  (forall u a n, held fl' u a n <-> held fl u a n) ->
  ep_size p' = Z.of_nat (size (epool_live p')) + Z.of_nat (size (sk_map s)) + Z.of_nat (size fl') ->
  ep_size p' <= ep_max p' ->
  stk_ok (mk_stk (mk_stacks p' (sk_map s) (sk_mem s)) fl').
Proof.
  intros [Hs Hl Hsz Hm Hmem Hh H1 Ho] Hw Hg Hf Hsz' Hm'. simplify_eq. destruct p' as [b sz mn mx st bk]. simpl in *. subst.
  constructor; simpl; try done.
  - intros a n. rewrite Hmem. by setoid_rewrite Hf.
  - intros t a n. rewrite Hf. apply Hh.
  - intros t u a n n'. rewrite !Hf. apply H1.
Qed.

Lemma reserve_ok s fl t n s' r :
  stk_ok (mk_stk s fl) -> fl !! t = None -> stack_reserve s n = (s', r) ->
  stk_ok (mk_stk s' (match r with Reserved n => <[t := FReserved n]> fl | _ => fl end)).
Proof.
  intros Hok Ht. pose proof Hok as [Hs _ Hsz Hm _ _ _ _]. simpl in *.
  assert (forall n s' r, (if ep_max (sk_static s) <=? ep_size (sk_static s) then (s, NoStack ENOMEM)
     else (mk_stacks (with_size (sk_static s) (ep_size (sk_static s) + 1)) (sk_map s) (sk_mem s), Reserved n)) = (s', r) ->
     stk_ok (mk_stk s' (match r with Reserved n => <[t := FReserved n]> fl | _ => fl end))) as Hanon.
  { intros n' s2 r2. destruct (Z.leb_spec (ep_max (sk_static s)) (ep_size (sk_static s))) as [|Hlt]; intros [= <- <-]; [done|].
    apply (stk_ok_change s fl); try done.
    - intros u a k. apply insert_quiet; [done|]. by rewrite Ht.
    - rewrite map_size_insert_None by done. simpl. change (epool_live (with_size ?q ?k)) with (epool_live q). lia.
    - simpl. lia. }
  unfold stack_reserve. destruct (_ =? 0); [by intros [= <- <-]|]. destruct (_ && (_ =? _)); [by intros [= <- <-]|].
  destruct (_ && _); [|apply Hanon]. destruct (sys_elastipool_api_alloc_static W (sk_static s)) as [[a p']|] eqn:Ha; [|apply Hanon].
  intros [= <- <-]. apply epool_alloc_spec in Ha as Hspec; [|done]. destruct Hspec as (Hn & Hl & _ & _ & Hw).
  pose proof (alloc_static_geom _ _ _ _ Ha) as Hg. assert (ep_size (sk_static s) <> ep_max (sk_static s)).
  { intros Heq. revert Ha. unfold sys_elastipool_api_alloc_static. by rewrite (proj2 (Z.eqb_eq _ _) Heq). }
  apply (stk_ok_change s fl); try done; [by rewrite Hg| |rewrite Hg; simpl; lia].
  rewrite Hl, size_add by done. rewrite Hg. simpl. lia.
Qed.

Lemma map_ok s fl t n s' r :
  stk_ok (mk_stk s fl) -> fl !! t = Some (FReserved n) -> stack_map s n = (s', r) ->
  stk_ok (mk_stk s' (<[t := FMapped n r]> fl)).
Proof.
  intros Hok Ht. pose proof Hok as [Hs Hl Hsz Hm Hmem Hh H1 Ho]. simpl in *. unfold stack_map.
  assert (size (<[t := FMapped n r]> fl) = size fl) as Hsize by (apply map_size_insert_Some; eauto).
  destruct (k_mem_map (sk_mem s) (map_size n)) as [[mem a]|] eqn:Hk; intros [= <- <-].
  - destruct (proj1 Hl _ _ _ _ Hk) as (Hn & Hin & Hout).
    assert (forall u b k, held (<[t := FMapped n (Some a)]> fl) u b k <->
              u = t /\ b = a /\ k = map_size n \/ held fl u b k) as Hheld.
    { intros u b k. rewrite held_insert. split; [naive_solver|]. intros [(-> & -> & ->)|Hu]; [by left; eauto|right].
      split; [|done]. eapply held_quiet; [|done|done]. done. }
    assert (forall u k, ~ held fl u a k) as Hfree.
    { intros u k Hu. enough (mapped (sk_mem s) !! a = Some k) by congruence. apply Hmem. eauto. }
    constructor; simpl; try done.
    + by rewrite Hsize.
    + intros b k. rewrite Hin. setoid_rewrite Hheld. destruct (decide (a = b)) as [<-|Hne].
      * rewrite lookup_insert_eq. split; [intros [= <-]; right; exists t; by left|].
        intros [Hb|(u & [(_ & _ & ->)|Hu])]; [|done|by destruct (Hfree u k)].
        enough (mapped (sk_mem s) !! a = Some k) by congruence. apply Hmem. by left.
      * rewrite lookup_insert_ne by done. rewrite Hmem. naive_solver.
    + intros u b k. rewrite Hheld. intros [(_ & -> & _)|Hu]; [|by eapply Hh].
      destruct (sk_map s !! a) eqn:Hb; [|done]. enough (mapped (sk_mem s) !! a = Some z) by congruence. apply Hmem. by left.
    + intros u v b k k'. rewrite !Hheld. naive_solver.
    + intros b k. rewrite Hin. destruct (decide (a = b)) as [<-|Hne]; [done|]. rewrite lookup_insert_ne by done. apply Ho.
  - destruct s as [p mp me]. apply (stk_ok_change (mk_stacks p mp me) fl); try done; simpl; [|by rewrite Hsize].
    intros u b k. apply insert_quiet; [done|]. by rewrite Ht.
Qed.

Lemma insert_ok s fl t n m s' r :
  stk_ok (mk_stk s fl) -> fl !! t = Some (FMapped n m) -> stack_insert s n m = (s', r) -> stk_ok (mk_stk s' (delete t fl)).
Proof.
  intros Hok Ht. pose proof Hok as [Hs Hl Hsz Hm Hmem Hh H1 Ho]. simpl in *. unfold stack_insert.
  assert (Z.of_nat (size (delete t fl)) = Z.of_nat (size fl) - 1) as Hsize.
  { pose proof (map_size_ne_0_lookup_2 fl t ltac:(eauto)). rewrite map_size_delete_Some by eauto. lia. }
  destruct m as [a|]; [|intros [= <- <-]].
  - assert (held fl t a (map_size n)) as Ha by (by exists n).
    assert (sk_map s !! a = None) as Hnone by (by eapply Hh).
    assert (mapped (sk_mem s) !! a = Some (map_size n)) as Hma by (apply Hmem; eauto).
    destruct (hashmap_room (sk_map s) a); intros [= <- <-].
    + constructor; simpl; try done.
      * rewrite map_size_insert_None by done. lia.
      * intros b k. rewrite Hmem. setoid_rewrite held_delete. destruct (decide (a = b)) as [<-|Hne].
        -- rewrite lookup_insert_eq. rewrite <- Hmem. rewrite Hma. split; [by left|].
           intros [?|(u & Hu & Hk)]; [done|]. destruct Hu. by eapply H1.
        -- rewrite lookup_insert_ne by done. split; [|naive_solver]. intros [?|(u & Hu)]; [by left|right].
           exists u. split; [|done]. intros ->. destruct Hu as (? & Hu & _). congruence.
      * intros u b k [Hu Hb]%held_delete. rewrite lookup_insert_ne; [by eapply Hh|]. intros <-. destruct Hu. by eapply H1.
      * intros u v b k k' [_ Hu]%held_delete [_ Hv]%held_delete. by eapply H1.
    + constructor; simpl; try done.
      * change (epool_live (with_size ?q ?k)) with (epool_live q). lia.
      * lia.
      * intros b k. rewrite (proj2 Hl _ _ _ Hma). setoid_rewrite held_delete. destruct (decide (a = b)) as [<-|Hne].
        -- rewrite lookup_delete_eq, Hnone. split; [done|]. intros [?|(u & Hu & Hk)]; [done|]. destruct Hu. by eapply H1.
        -- rewrite lookup_delete_ne, Hmem by done. split; [|naive_solver]. intros [?|(u & Hu)]; [by left|right].
           exists u. split; [|done]. intros ->. destruct Hu as (? & Hu & _). congruence.
      * intros u b k [_ Hb]%held_delete. by eapply Hh.
      * intros u v b k k' [_ Hu]%held_delete [_ Hv]%held_delete. by eapply H1.
      * intros b k. rewrite (proj2 Hl _ _ _ Hma). intros [_ Hb]%lookup_delete_Some. by eapply Ho.
  - apply (stk_ok_change _ fl); try done.
    + intros u b k. apply delete_quiet. by rewrite Ht.
    + simpl. change (epool_live (with_size ?q ?k)) with (epool_live q). lia.
    + simpl. lia.
Qed.

(** Destroying a recorded mapping, and anything that is not a block. *)
Lemma destroy_dyn_ok s fl a e s' r :
  stk_ok (mk_stk s fl) -> stack_destroy_dyn s a e = (s', r) -> stk_ok (mk_stk s' fl).
Proof.
  intros Hok. pose proof Hok as [Hs Hl Hsz Hm Hmem Hh H1 Ho]. simpl in *. unfold stack_destroy_dyn.
  destruct (sk_map s !! a) as [n|] eqn:Ha; intros [= <- <-]; [|done].
  assert (mapped (sk_mem s) !! a = Some n) as Hma by (apply Hmem; by left).
  pose proof (map_size_ne_0_lookup_2 (sk_map s) a ltac:(eauto)). constructor; simpl; try done.
  - rewrite map_size_delete_Some by eauto. change (epool_live (with_size ?q ?k)) with (epool_live q). lia.
  - lia.
  - intros b k. rewrite (proj2 Hl _ _ _ Hma). destruct (decide (a = b)) as [<-|Hne].
    + rewrite !lookup_delete_eq. split; [done|]. intros [?|(u & Hu)]; [done|]. apply Hh in Hu. congruence.
    + by rewrite !lookup_delete_ne, Hmem by done.
  - intros t b k Hb. apply Hh in Hb. rewrite lookup_delete_None. by right.
  - intros b k. rewrite (proj2 Hl _ _ _ Hma). intros [_ Hb]%lookup_delete_Some. by eapply Ho.
Qed.

Lemma destroy_ok s fl b a s' r :
  stk_ok (mk_stk s fl) -> z_impl_sys_thread_stack_destroy s b a = (s', r) -> stk_ok (mk_stk s' fl).
Proof.
  intros Hok. pose proof Hok as [Hs _ Hsz Hm _ _ _ _]. simpl in *. unfold z_impl_sys_thread_stack_destroy.
  destruct (_ =? 0); [by intros [= <- <-]|]. destruct b; [by intros [= <- <-]|].
  destruct (0 <? _); [|by eapply destroy_dyn_ok].
  destruct (sys_elastipool_api_free_static W (sk_static s) a) as [p'|] eqn:Hf; [|by eapply destroy_dyn_ok].
  intros [= <- <-]. destruct (free_static_interior _ _ _ _ Hs Hf) as [Hin Hf'].
  destruct (epool_free_live W _ _ Hs Hin) as (q & Hq & Hlq & _ & _ & Hwq). simplify_eq.
  pose proof (free_static_geom _ _ _ _ Hf) as Hg.
  apply (stk_ok_change s fl); try done; [by rewrite Hg| |rewrite Hg; simpl; lia].
  rewrite Hlq, size_del by done. rewrite Hg. simpl. lia.
Qed.

Lemma stk_step_ok x y : stk_ok x -> stk_step x y -> stk_ok y.
Proof. intros Hx Hst. revert Hx. destruct Hst; eauto using reserve_ok, map_ok, insert_ok, destroy_ok. Qed.

Lemma stk_reach_ok x y : stk_ok x -> rtc stk_step x y -> stk_ok y.
Proof. intros Hx Hr. induction Hr; [done|]. eauto using stk_step_ok. Qed.

(** The addresses of the stacks in use. *)
Definition stack_live (s : stacks) : gset Z := epool_live (sk_static s) ∪ dom (sk_map s).

Lemma map_outside s fl a n : stk_ok (mk_stk s fl) -> sk_map s !! a = Some n -> outside W (sk_static s) a.
Proof. intros Hok Ha. apply (so_out _ Hok a n), (so_mem _ Hok). by left. Qed.

Lemma destroy_live s fl a :
  stk_ok (mk_stk s fl) -> a ∈ stack_live s ->
  exists s', z_impl_sys_thread_stack_destroy s false a = (s', Ok tt) /\ stack_live s' = stack_live s ∖ {[a]} /\
    z_impl_sys_thread_stack_destroy s' false a = (s', Err EINVAL).
Proof.
  intros Hok Ha. pose proof Hok as [Hs _ Hsz Hm _ _ _ _]. pose proof Hs as (_ & _ & Hmin & _). simpl in *.
  assert (forall n, sk_map s !! a = Some n -> a ∉ epool_live (sk_static s)) as Hdisj.
  { intros n Hn. eapply outside_not_live; [done|]. by eapply map_outside. }
  unfold z_impl_sys_thread_stack_destroy at 1. rewrite (proj2 (Z.ltb_lt _ _) (proj1 Hmin)).
  unfold stack_live in *. apply elem_of_union in Ha as [Ha|[n Ha]%elem_of_dom].
  - pose proof (size_add a (epool_live (sk_static s) ∖ {[a]}) ltac:(set_solver)) as Hpos.
    rewrite <- union_difference_singleton_L in Hpos by done.
    rewrite (eqb_false (ep_max _)) by lia. pose proof Ha as (b & Hb & _ & Heq)%elem_of_live.
    destruct (epool_free_live W _ _ Hs Ha) as (p' & Hf & Hl & _ & _ & Hw). rewrite Hf.
    assert (sk_map s !! a = None) as Hn by (destruct (sk_map s !! a) eqn:?; [by destruct (Hdisj _ eq_refl)|done]).
    pose proof (free_static_geom _ _ _ _ Hf) as Hg. eexists. split; [done|]. simpl. rewrite Hl.
    apply not_elem_of_dom in Hn as Hnd. split; [set_solver|].
    assert (sys_elastipool_api_free_static W p' a = None) as Hff.
    { subst a. rewrite Hg in Hl, Hw |- *. eapply (free_static_dead _ (mk_epool _ _ _ _ _ _) b); [done|done|]. simpl. rewrite Hl. set_solver. }
    unfold z_impl_sys_thread_stack_destroy, stack_destroy_dyn. simpl. rewrite Hff, Hn.
    replace (ep_max p') with (ep_max (sk_static s)) by (by rewrite Hg). rewrite (eqb_false (ep_max _)) by lia. by case_match.
  - pose proof (map_size_ne_0_lookup_2 (sk_map s) a ltac:(eauto)). rewrite (eqb_false (ep_max _)) by lia.
    pose proof (map_outside _ _ _ _ Hok Ha) as Hout. rewrite free_static_outside by done.
    unfold stack_destroy_dyn. rewrite Ha. eexists. split; [done|]. simpl. rewrite dom_delete_L.
    pose proof (Hdisj n Ha). split; [change (epool_live (with_size ?q ?k)) with (epool_live q); set_solver|].
    unfold z_impl_sys_thread_stack_destroy, stack_destroy_dyn. simpl. rewrite free_static_outside by done.
    rewrite lookup_delete_eq, (eqb_false (ep_max _)) by lia. by case_match.
Qed.

Lemma reserve_static s n s' a :
  stack_reserve s n = (s', GotStatic a) ->
  exists p', sys_elastipool_api_alloc_static W (sk_static s) = Some (a, p') /\ s' = mk_stacks p' (sk_map s) (sk_mem s).
Proof.
  unfold stack_reserve. repeat case_match; intros; simplify_eq; eauto.
Qed.

(** C6: For stacks of kernel threads, with CONFIG_SYS_THREAD_STACK_ALLOC_ANON,
    in a pool with at least one static stack and at most as many as one word
    of its bitmap has bits: however the calls of threads that allocate and
    destroy stacks interleave, at the two critical sections and the mapping
    between them, pool_size counts the static stacks in use, the recorded
    mapped ones and the calls that have reserved one, and is at most the
    maximum; the mapped memory is that of the recorded stacks and of the calls
    under way; a stack handed out is not in use; and a stack in use that no
    thread runs on is given back once and then refused with EINVAL.  The size
    of a mapping is a function of the size of the stack, which excludes the
    stacks of user threads (recorded with size 0, see
    user_stack_unmapped_with_zero); a pool with more static stacks than a word
    has bits loses them (epool_free_high_block_lost). *)
Theorem stack_pool_exact x0 x :
  stk_ok x0 -> rtc stk_step x0 x ->
  let s := stk_s x in
  ep_size (sk_static s) = Z.of_nat (size (stack_live s)) + Z.of_nat (size (stk_fl x)) /\
  ep_size (sk_static s) <= ep_max (sk_static s) /\
  (stk_fl x = ∅ -> mapped (sk_mem s) = sk_map s) /\
  (forall n s' a, stack_reserve s n = (s', GotStatic a) -> (a ∉ stack_live s) /\ stack_live s' = {[a]} ∪ stack_live s) /\
  (forall t n m s' a, stk_fl x !! t = Some (FMapped n m) -> stack_insert s n m = (s', Ok a) ->
     (a ∉ stack_live s) /\ stack_live s' = {[a]} ∪ stack_live s /\ sk_map s' !! a = Some (map_size n)) /\
  (forall a, a ∈ stack_live s ->
     exists s', z_impl_sys_thread_stack_destroy s false a = (s', Ok tt) /\ stack_live s' = stack_live s ∖ {[a]} /\
       z_impl_sys_thread_stack_destroy s' false a = (s', Err EINVAL)).
Proof.
  intros H0 Hr. apply stk_reach_ok in Hr as Hok; [|done]. destruct x as [s fl]. simpl. pose proof Hok as [Hs Hl Hsz Hm Hmem Hh H1 Ho]. simpl in *.
  assert (forall a, a ∈ dom (sk_map s) -> a ∉ epool_live (sk_static s)) as Hdisj.
  { intros a [n Hn]%elem_of_dom. eapply outside_not_live; [done|]. by eapply map_outside. }
  unfold stack_live in *. split; [rewrite size_union, size_dom by set_solver; lia|]. split; [done|]. split.
  { intros ->. apply map_eq. intros a. apply option_eq. intros n. rewrite Hmem. split; [|by left].
    intros [?|(u & z & Hu & _)]; [done|]. by rewrite lookup_empty in Hu. }
  split; [|split].
  - intros n s' a (p' & Ha & ->)%reserve_static. simpl. apply epool_alloc_spec in Ha as Hspec; [|done].
    destruct Hspec as (Hn & Hlv & _ & _ & Hw). rewrite Hlv. pose proof (alloc_static_geom _ _ _ _ Ha) as Hg.
    assert (a ∉ dom (sk_map s)); [|set_solver]. intros [k Hk]%elem_of_dom.
    destruct (outside_not_live W p' a Hw); [rewrite Hg; by eapply (map_outside s)|rewrite Hlv; set_solver].
  - intros t n m s' a Ht. unfold stack_insert. destruct m as [b|]; [|done]. case_match; [|done]. intros [= <- <-]. simpl.
    assert (held fl t b (map_size n)) as Hb by (by exists n). assert (outside W (sk_static s) b) as Hout.
    { apply (Ho b (map_size n)), Hmem. eauto. }
    pose proof (outside_not_live _ _ _ Hs Hout). apply Hh, not_elem_of_dom in Hb. rewrite dom_insert_L, lookup_insert_eq. set_solver.
  - intros a Ha. by eapply destroy_live.
Qed.
End Stacks.

(** ** Two static stacks and at most four *)

Definition demo_map (m : Z * gmap Z Z) (n : Z) : option ((Z * gmap Z Z) * Z) :=
  let a := fst m in
  match snd m !! a with
  | None => if (0x2000 <=? a) && (a <? 0x3000) then Some ((a + n, <[a := n]> (snd m)), a) else None
  | Some _ => None
  end.
Definition demo_unmap (m : Z * gmap Z Z) (a n : Z) : Z * gmap Z Z :=
  (fst m, if bool_decide (snd m !! a = Some n) then delete a (snd m) else snd m).
Definition demo_pages (n : Z) : Z := round_up n 64.
Definition demo_room (m : gmap Z Z) (a : Z) : bool := Z.of_nat (size m) <? 2.
Definition demo_stk : @stk (Z * gmap Z Z) := mk_stk (mk_stacks (el_static demo_pool) ∅ (0x2000, ∅)) ∅.

Lemma demo_stk_ok : stk_ok 64 demo_map demo_unmap demo_pages snd demo_stk.
Proof.
  constructor; simpl; try done.
  - exact (ew_static _ _ _ _ _ demo_pool_wf).
  - split.
    + intros m n m' a. unfold demo_map. case_match; [done|]. case_match; [|done]. intros [= <- <-].
      split; [done|]. split; [done|]. apply demo_outside. bool_to_prop. lia.
    + intros m a n Ha. unfold demo_unmap. by rewrite bool_decide_true.
  - intros a n. rewrite !lookup_empty. split; [done|]. intros [?|(t & z & Ht & _)]; [done|]. by rewrite lookup_empty in Ht.
  - intros t u a n n' (z & Ht & _). by rewrite lookup_empty in Ht.
Qed.

(** Thread 1 asks for a large stack, thread 2 gets a static one while the
    first maps memory, and both end. *)
Lemma stack_pool_exact_witness :
  exists x, rtc (stk_step 64 16 demo_map demo_unmap demo_pages demo_room) demo_stk x /\
    ep_size (sk_static (stk_s x)) = 2 /\ sk_map (stk_s x) = {[0x2000 := 128]} /\
    snd (sk_mem (stk_s x)) = sk_map (stk_s x).
Proof.
  pose (s1 := fst (stack_reserve 64 16 (stk_s demo_stk) 100)).
  pose (s2 := fst (stack_reserve 64 16 s1 8)).
  pose (s3 := fst (stack_map demo_map demo_pages s2 100)).
  pose (s4 := fst (stack_insert demo_unmap demo_pages demo_room s3 100 (Some 0x2000))).
  exists (mk_stk s4 (delete 1 (<[1 := FMapped 100 (Some 0x2000)]> (<[1 := FReserved 100]> ∅)))).
  assert (rtc (stk_step 64 16 demo_map demo_unmap demo_pages demo_room) demo_stk
    (mk_stk s4 (delete 1 (<[1 := FMapped 100 (Some 0x2000)]> (<[1 := FReserved 100]> ∅))))) as Hr.
  { eapply rtc_l; [apply (stk_call _ _ _ _ _ _ 1 100 _ ∅ s1 (Reserved 100)); vm_compute; reflexivity|].
    eapply rtc_l; [apply (stk_call _ _ _ _ _ _ 2 8 _ _ s2 (GotStatic 0x1000)); vm_compute; reflexivity|].
    eapply rtc_l; [apply (stk_map _ _ _ _ _ _ 1 100 _ _ s3 (Some 0x2000)); vm_compute; reflexivity|].
    eapply rtc_l; [apply (stk_insert _ _ _ _ _ _ 1 100 (Some 0x2000) _ _ s4 (Ok 0x2000)); vm_compute; reflexivity|].
    apply rtc_refl. }
  destruct (stack_pool_exact 64 16 demo_map demo_unmap demo_pages demo_room snd demo_stk _ demo_stk_ok Hr) as (_ & _ & Hm & _).
  split; [exact Hr|]. split; [vm_compute; reflexivity|]. split; [vm_compute; reflexivity|]. apply Hm. vm_compute. reflexivity.
Defined.

(** Large stacks count against the maximum but take no static stack: four of
    them leave the static ones unreachable. *)
Lemma large_stacks_take_the_minimum :
  let s := mk_stacks (with_size (el_static demo_pool) 4) ∅ tt in
  epool_live (sk_static s) = ∅ /\ stack_reserve 64 16 s 8 = (s, NoStack ENOMEM).
Proof. split; [vm_compute; reflexivity|reflexivity]. Qed.

(** For a stack of a user thread the recorded size is 0, and so is the size
    that destroy unmaps. *)
Lemma user_stack_unmapped_with_zero {M} (unmap : M -> Z -> Z -> M) room (s : stacks) n a s' :
  stack_insert unmap (fun _ => 0) room s n (Some a) = (s', Ok a) ->
  stack_destroy_dyn unmap s' a EINVAL =
  (mk_stacks (with_size (sk_static s') (ep_size (sk_static s') - 1)) (delete a (sk_map s')) (unmap (sk_mem s') a 0), Ok tt).
Proof.
  unfold stack_insert. case_match; [|done]. intros [= <-]. unfold stack_destroy_dyn. simpl. by rewrite lookup_insert_eq.
Qed.

(** ** Stacks from the heap

    sys_thread_stack_alloc with CONFIG_SYS_THREAD_STACK_ALLOC_HEAP, and the
    destroy of that configuration. *)
Section HeapStacks.
Context (W STACK_SIZE obj_size obj_align : Z).
Context {H : Type} (heap_alloc : H -> Z -> Z -> Z -> option (H * Z)) (heap_free : H -> Z -> H).
Context (hashmap_insert : gset Z -> Z -> option errno).

Definition heap_stack_alloc (p : elastic H) (stack_size flags : Z) : elastic H * res Z :=
  let s := el_static p in
  if ep_max s =? 0 then (p, Err ENOTSUP)
  else if (STACK_SIZE <? stack_size) && (ep_max s =? ep_min s) then (p, Err ENOMEM)
  else
    let stack_size := if stack_size <? STACK_SIZE then STACK_SIZE else stack_size in
    if stack_size <=? STACK_SIZE then
      match (if 0 <? ep_min s then sys_elastipool_api_alloc_static W s else None) with
      | Some (a, s') => (mk_el s' (el_map p) (el_heap p), Ok a)
      | None =>
          match pool_fns (ep_min s) (ep_max s) with
          | PoolDyn => sys_elastipool_api_alloc_dyn obj_size obj_align heap_alloc heap_free hashmap_insert p 0
          | PoolStatic => (p, Err ENOMEM)
          | PoolElastic => sys_elastipool_api_alloc_elastic W obj_size obj_align heap_alloc heap_free hashmap_insert p 0
          end
      end
    else match heap_alloc (el_heap p) stack_size obj_align flags with
         | Some (h, a) => (mk_el s (el_map p) h, Ok a)
         | None => (p, Err ENOMEM)
         end.

(** A stack larger than the configured size is not recorded: destroy refuses
    it, and its memory stays allocated. *)
Lemma large_heap_stack_lost live p n flags p' a :
  el_wf W heap_alloc heap_free live p -> STACK_SIZE < n -> heap_stack_alloc p n flags = (p', Ok a) ->
  (a ∉ el_dyn p') /\ sys_elastipool_api_free_elastic W heap_free p' a = Some (p', Err EINVAL) /\ a ∈ live (el_heap p').
Proof.
  intros Hwf Hn. unfold heap_stack_alloc. repeat (case_match; [done|]). 
  rewrite (proj2 (Z.ltb_ge _ _)) by lia. rewrite (proj2 (Z.leb_gt _ _)) by lia.
  destruct (heap_alloc _ _ _ _) as [[h b]|] eqn:Ha; [|done]. intros [= <- <-].
  destruct (proj1 (ew_heap _ _ _ _ _ Hwf) _ _ _ _ _ _ Ha) as (Hnl & Hlive & Hout).
  assert (b ∉ el_dyn p) as Hnd by (intros Hb; apply Hnl, (ew_map _ _ _ _ _ Hwf), Hb).
  change (el_dyn (mk_el _ (el_map p) _)) with (el_dyn p). split; [done|]. split; [|simpl; rewrite Hlive; set_solver].
  unfold sys_elastipool_api_free_elastic, sys_elastipool_api_free_dyn. simpl. rewrite free_static_outside by done.
  rewrite (ew_some _ _ _ _ _ Hwf). case_match; [done|]. by rewrite bool_decide_false.
Qed.
End HeapStacks.
