(* ===== verification/Cmsg.v ===== *)
(** * Ancillary data (include/zephyr/posix/sys/socket.h)

    The macros that walk the control messages of a message header.  A header
    is its address, 0 for NULL; [cmsg_len] reads the length at an address, a
    socklen_t. *)

From stdpp Require Import base list.
From Stdlib Require Import ZArith Lia.
From S2P Require Import Prelude.

Local Open Scope Z_scope.

Section Cmsg.
(** sizeof(size_t), and the memory. *)
Context (size_of_size_t : Z) (cmsg_len : Z -> Z).

(** ROUND_UP with sizeof(size_t) in unsigned long, which has its width. *)
Definition cmsg_align (x : Z) : Z :=
  let w := 8 * size_of_size_t in
  uwrap w (uwrap w (x + (size_of_size_t - 1)) / size_of_size_t * size_of_size_t).

(** sizeof(struct cmsghdr): a socklen_t and two ints. *)
Definition sizeof_cmsghdr : Z := 12.

Definition CMSG_DATA (cmsg : Z) : Z := cmsg + cmsg_align sizeof_cmsghdr.

Definition CMSG_FIRSTHDR (msg_control msg_controllen : Z) : Z :=
  if sizeof_cmsghdr <=? msg_controllen then msg_control else 0.

Definition CMSG_NXTHDR (msg_control msg_controllen cmsg : Z) : Z :=
  if cmsg =? 0 then CMSG_FIRSTHDR msg_control msg_controllen
  else if msg_control + msg_controllen <? cmsg + cmsg_align (cmsg_len cmsg) + cmsg_align sizeof_cmsghdr then 0
  else cmsg + cmsg_align (cmsg_len cmsg).

(** The loop over the headers, with a bound on its turns; [None] when it has
    not ended by then. *)
Fixpoint cmsg_walk (fuel : nat) (control controllen cmsg : Z) : option (list Z) :=
  match fuel with
  | O => None
  | S f => if cmsg =? 0 then Some []
           else cons cmsg <$> cmsg_walk f control controllen (CMSG_NXTHDR control controllen cmsg)
  end.

Definition cmsg_headers (fuel : nat) (control controllen : Z) : option (list Z) :=
  cmsg_walk fuel control controllen (CMSG_FIRSTHDR control controllen).

Hypothesis Hsz : size_of_size_t = 4 \/ size_of_size_t = 8.

Lemma cmsg_align_spec x :
  0 <= x -> x + 8 <= 2 ^ (8 * size_of_size_t) -> x <= cmsg_align x < x + size_of_size_t /\ cmsg_align x mod size_of_size_t = 0.
Proof.
  intros Hx Hb. unfold cmsg_align.
  pose proof (Z.div_mod (x + (size_of_size_t - 1)) size_of_size_t ltac:(lia)) as Hd.
  pose proof (Z.mod_pos_bound (x + (size_of_size_t - 1)) size_of_size_t ltac:(lia)).
  rewrite (uwrap_id _ (x + _)) by (unfold in_u; apply andb_true_iff; split; [apply Z.leb_le|apply Z.ltb_lt]; lia).
  rewrite uwrap_id by (unfold in_u; apply andb_true_iff; split; [apply Z.leb_le|apply Z.ltb_lt]; nia).
  split; [nia|]. apply Z.mod_mul. lia.
Qed.

Lemma cmsghdr_room : sizeof_cmsghdr <= cmsg_align sizeof_cmsghdr.
Proof.
  apply cmsg_align_spec; [done|]. transitivity (2 ^ 32); [done|]. apply Z.pow_le_mono_r; lia.
Qed.

(** A header behind another starts behind it and lies in the buffer. *)
Lemma cmsg_next_in_bounds control controllen c :
  0 < control -> control <= c -> 0 < cmsg_len c -> cmsg_len c + 8 <= 2 ^ (8 * size_of_size_t) ->
  let c' := CMSG_NXTHDR control controllen c in
  c' = 0 \/ c + cmsg_len c <= c' /\ c' + sizeof_cmsghdr <= control + controllen.
Proof.
  intros Hpos Hc Hl Hb. unfold CMSG_NXTHDR. rewrite (eqb_false c 0) by lia.
  pose proof cmsghdr_room.
  pose proof (cmsg_align_spec (cmsg_len c) ltac:(lia) Hb).
  destruct (Z.ltb_spec (control + controllen) (c + cmsg_align (cmsg_len c) + cmsg_align sizeof_cmsghdr)); [by left|right; lia].
Qed.

(** When no header has the length 0, the walk ends, and every header it gives
    lies in the buffer. *)
Lemma cmsg_walk_ends control controllen fuel c :
  0 < control -> (forall a, 0 < cmsg_len a /\ cmsg_len a + 8 <= 2 ^ (8 * size_of_size_t)) ->
  c = 0 \/ control <= c /\ c + sizeof_cmsghdr <= control + controllen ->
  (c <> 0 -> control + controllen - c < Z.of_nat fuel) -> (0 < fuel)%nat ->
  exists l, cmsg_walk fuel control controllen c = Some l /\
    Forall (fun a => control <= a /\ a + sizeof_cmsghdr <= control + controllen) l.
Proof.
  intros Hpos Hl. revert c. induction fuel as [|f IH]; intros c Hc Hf Hfuel; [lia|]. cbn [cmsg_walk].
  destruct (Z.eqb_spec c 0) as [->|Hne]; [by exists []|]. destruct Hc as [|Hc]; [done|].
  destruct (Hl c) as [Hl1 Hl2]. pose proof (cmsg_next_in_bounds control controllen c Hpos (proj1 Hc) Hl1 Hl2) as Hn.
  specialize (Hf Hne). unfold sizeof_cmsghdr in *.
  destruct (IH (CMSG_NXTHDR control controllen c)) as (l & -> & Hall); [|lia|lia|].
  - destruct Hn as [->|Hn]; [by left|right; lia].
  - exists (c :: l). split; [done|]. by constructor.
Qed.

Lemma cmsg_walk_S f control controllen c : c <> 0 ->
  cmsg_walk (S f) control controllen c = cons c <$> cmsg_walk f control controllen (CMSG_NXTHDR control controllen c).
Proof. intros Hc. cbn [cmsg_walk]. by rewrite (eqb_false _ _ Hc). Qed.

(** The headers of a buffer laid out message after message, each with the
    room of its length rounded up. *)
Fixpoint laid_out (c : Z) (lens : list Z) : Prop :=
  match lens with
  | [] => True
  | n :: lens => cmsg_len c = n /\ laid_out (c + cmsg_align n) lens
  end.

Fixpoint starts (c : Z) (lens : list Z) : list Z :=
  match lens with [] => [] | n :: lens => c :: starts (c + cmsg_align n) lens end.

Definition room (lens : list Z) : Z := foldr (fun n r => cmsg_align n + r) 0 lens.

(** The walk finds exactly the messages of such a buffer. *)
Lemma cmsg_walk_exact control controllen lens c :
  lens <> [] -> 0 < control <= c -> laid_out c lens -> c + room lens = control + controllen ->
  Forall (fun n => cmsg_align sizeof_cmsghdr <= cmsg_align n) lens ->
  cmsg_walk (S (length lens)) control controllen c = Some (starts c lens).
Proof.
  intros Hne Hc Hlay Hroom Hall. revert c Hc Hlay Hroom. induction lens as [|n lens IH]; [done|]. intros c Hc [Hn Hlay] Hroom.
  pose proof cmsghdr_room as Hpos. assert (0 < sizeof_cmsghdr) as H12 by done.
  inversion_clear Hall as [|? ? Hn1 Hall']. cbn [starts room foldr] in *. fold (room lens) in *.
  rewrite cmsg_walk_S by lia. unfold CMSG_NXTHDR. rewrite (eqb_false c 0), Hn by lia.
  destruct lens as [|m lens].
  - simpl in Hroom. rewrite (proj2 (Z.ltb_lt _ _)) by lia. done.
  - assert (0 <= room lens) as Hr.
    { clear -Hall' Hpos H12. inversion_clear Hall' as [|? ? _ Hl]. induction Hl; simpl; lia. }
    pose proof (Forall_inv Hall') as Hm. simpl in Hroom, Hm. rewrite (proj2 (Z.ltb_ge _ _)) by (unfold room in *; lia).
    cbn [length]. cbn [length] in IH. rewrite IH; [done|done|done|lia|done|simpl; lia].
Qed.
End Cmsg.

(** A header of length 0 is its own successor: the loop over the headers of a
    message never ends. *)
Lemma cmsg_zero_length_loops fuel : cmsg_walk 8 (fun _ => 0) fuel 4096 64 4096 = None.
Proof. induction fuel as [|f IH]; [done|]. change (cons 4096 <$> cmsg_walk 8 (fun _ => 0) f 4096 64 4096 = None). by rewrite IH. Qed.

Example cmsg_two : cmsg_headers 8 (fun a => if a =? 4096 then 20 else 16) 9 4096 40 = Some [4096; 4120].
Proof. reflexivity. Qed.
